(* ===== verification/_CoqProject ===== *)
-Q . S2P
Prelude.v
Bits.v
Bitmap.v
BitmapProofs.v
BitmapTheorems.v
Lpm.v
LpmRules.v
LpmSpec.v
LpmTables.v
LpmProofs.v
LpmLookup.v
LpmTheorems.v
PrefixTable.v
TableLpm.v
TableLpmProofs.v
TableLpmTheorems.v
Ring.v
RingProofs.v
RingTheorems.v
SlotQueue.v
Hash.v
HashProofs.v
HashSlots.v
HashOps.v
HashIterate.v
HashBulk.v
HashTheorems.v
RingConc.v
RingConcProofs.v
RingConcTheorems.v
Meter.v
Approx.v
Reciprocal.v
Red.v
Cirbuf.v
CirbufProofs.v
CirbufTheorems.v
Reorder.v
ReorderProofs.v
ReorderTheorems.v
Malloc.v
MallocProofs.v
MallocInv.v
MallocHeap.v
MallocInit.v
MallocTheorems.v
Timer.v
TimerLists.v
TimerSkip.v
TimerOps.v
TimerSpec.v
TimerRefine.v
TimerManage.v
TimerRun.v
TimerSettled.v
TimerTheorems.v
Mbuf.v
MbufPacket.v
MbufRef.v
MbufClone.v
Mempool.v
MempoolProofs.v
MempoolTheorems.v
MempoolMbuf.v
MbufTheorems.v
IpFrag.v
IpFragChain.v
IpFragHeader.v
IpFragEntry.v
IpFragTable.v
IpFragFind.v
IpFragInput.v
IpFragRun.v
IpFragInterleave.v
IpFragTheorems.v
IpFragment.v
IpFragmentSeg.v
IpFragmentLoop.v
IpFragmentTheorems.v
IpFragmentRoundtrip.v
