(* ===== verification/Prelude.v ===== *)
(** * Verification of the DPDK data-plane libraries

    The repository holds a packet analyser and, as its largest part, the data
    plane it builds on: DPDK 16.04 under [src/raghu/dpdk-16.04].  This
    development models the libraries of [lib/] that carry algorithms and data
    structures of their own.  Paths below are relative to
    [src/raghu/dpdk-16.04/lib/].

    ** The parts and how they interact

    - [librte_lpm] is a route table: a rule table, a first-level table
      ([tbl24]) indexed by 24 address bits and second-level groups ([tbl8]).
    - [librte_table/rte_table_lpm.c] puts application entries behind the
      routes: a route's next hop is an index into a table of entries with use
      counters.  It uses [librte_lpm] only through four calls, which is the
      interface [PrefixTable] here.
    - [librte_ring] is the bounded queue that moves object pointers between
      cores; with the multi-producer and multi-consumer variants several cores
      work on the same ring.
    - [librte_hash/rte_cuckoo_hash.c] is a hash table with two buckets per key;
      the free slots of its key table are in a ring of [librte_ring], which it
      uses through the interface [SlotQueue] here.
    - [librte_meter] colours packets by token buckets.
    - [librte_sched] schedules packets; modelled are the pieces it is built from:
      a bitmap with a cyclic scan, the approximation of rates by fractions,
      division by a precomputed reciprocal, and random early detection.
    - [librte_reorder] puts packets back into sequence.
    - [librte_timer] keeps the timers of a core in a skip list and runs those
      that are due, with callbacks that may start and stop timers.
    - [librte_mempool] hands out objects of one size from a ring, with a cache
      per core; [librte_mbuf] builds packets from them: chains of segments with
      reference counters, shared between clones.  It uses the pool through the
      interface [MbufPool] here.
    - [librte_ip_frag] collects the fragments of IP datagrams in a table with
      timeouts and chains their mbufs into one packet; it also cuts packets
      into fragments that share the data of the packet.
    - [librte_eal/common/malloc_*.c] is the allocator below all of them.
    - [librte_cmdline/cmdline_cirbuf.c] is the line buffer of the console.

    ** Files

    - [Bits]: single bits of 64-bit masks, rounding up to a power of two.
    - [Prelude]: machine integers with their wrap-around, memory copies as
      maps from cell to value, searches, the tactics [dlia] and [case_tests]
      and the hint databases.
    - [Lpm] (operations of [rte_lpm.c], [rte_lpm.h], [rte_lpm_sse.h] in both
      ABI versions), [LpmSpec] (routes as a finite map, longest match),
      [LpmRules], [LpmTables], [LpmProofs], [LpmLookup] (invariant and
      preservation), [LpmTheorems].
    - [PrefixTable] (the classes [PrefixTable] and [PrefixTableLaws] with the
      instance for [rte_lpm]), [TableLpm] ([rte_table_lpm.c] over any such
      table), [TableLpmProofs], [TableLpmTheorems].
    - [Ring] ([rte_ring.h], [rte_ring.c], one thread), [RingProofs],
      [RingTheorems]; [RingConc] (the steps of many threads on one ring),
      [RingConcProofs], [RingConcTheorems].
    - [SlotQueue] (the classes [SlotQueue] and [SlotQueueLaws] with the
      instance for [rte_ring]), [Hash] ([rte_cuckoo_hash.c] over any such
      queue), [HashProofs] (invariant, displacement, lookup), [HashSlots] (free
      slots), [HashOps] (add, delete, set-up, reset), [HashIterate],
      [HashBulk] (the bulk lookup pipeline), [HashTheorems].
    - [Meter] ([rte_meter.c], [rte_meter.h]).
    - [Bitmap], [BitmapProofs], [BitmapTheorems] ([rte_bitmap.h]); [Approx]
      ([rte_approx.c]); [Reciprocal] ([rte_reciprocal.c]); [Red] ([rte_red.c],
      [rte_red.h]).
    - [Cirbuf], [CirbufProofs], [CirbufTheorems] ([cmdline_cirbuf.c]).
    - [Reorder], [ReorderProofs], [ReorderTheorems] ([rte_reorder.c]).
    - [Timer] ([rte_timer.c]), [TimerLists], [TimerSkip] (the links of a skip
      list as nested lists), [TimerOps] (adding, deleting, cutting),
      [TimerSpec] (queues ordered by expiry), [TimerRefine], [TimerManage],
      [TimerRun], [TimerSettled], [TimerTheorems].
    - [Mempool] ([rte_mempool.h]), [MempoolProofs], [MempoolTheorems];
      [Mbuf] ([rte_mbuf.h], with the classes [MbufPool] and [MbufPoolLaws]),
      [MbufPacket] (a chain of segments as its bytes), [MbufRef] (counters and
      holders), [MbufClone], [MempoolMbuf] (the instance of the interface for
      [rte_mempool]), [MbufTheorems].
    - [IpFrag] ([ip_frag_internal.c], [ip_frag_common.h],
      [rte_ip_frag_common.c], [rte_ipv4_reassembly.c],
      [rte_ipv6_reassembly.c]), [IpFragChain] (joining mbufs), [IpFragHeader],
      [IpFragEntry] (one datagram in one entry), [IpFragTable] and
      [IpFragFind] (the table as a map), [IpFragInput] (arbitrary fragments),
      [IpFragRun] and [IpFragInterleave] (datagrams side by side),
      [IpFragTheorems].
    - [IpFragment] ([rte_ipv4_fragmentation.c], [rte_ipv6_fragmentation.c]),
      [IpFragmentSeg] (the segments of one fragment), [IpFragmentLoop] (the
      headers, and all fragments), [IpFragmentTheorems], [IpFragmentRoundtrip]
      (into the reassembly, and examples).
    - [Malloc] ([malloc_elem.c], [malloc_heap.c], [rte_malloc.c]),
      [MallocProofs], [MallocInv], [MallocHeap], [MallocInit],
      [MallocTheorems].

    Structures of the code are records with the members the code uses; arrays
    and memory are finite maps from index or address to value, where an absent
    cell is zero-initialised memory; NULL arguments are [option]s; return codes
    are negative [errno] values as in C.  Writes outside an object are visible
    in the model as writes to cells outside its range, or as [None] where the
    model keeps the size of the block.

    ** What the theorems show

    - LPM: every sequence of add, delete and delete_all keeps the tables equal
      to the longest match of the set of routes; lookup, bulk lookup and the
      SSE lookup agree; each call's return code on every branch.
    - LPM table: entries returned by lookup are those of the longest matching
      key, for every low-level table that satisfies the interface; a new key
      is refused only when the low-level table is full.
    - Ring: the calls of one thread implement a bounded queue, calls for no
      object included; the unrolled
      copies are copies modulo the size; under every interleaving of the
      atomic steps the elements leave in the order they entered, none is
      overwritten or read before it is written, and some thread can always
      move.
    - Hash: every sequence of additions, deletions, lookups and resets answers
      like a map from keys to a slot and data; iteration visits each key once;
      the pipelined bulk lookup agrees with single lookups.
    - Meter: the bytes passed in a colour never exceed the bucket size plus the
      rate times the elapsed time; configuration computes the parameters and
      refuses exactly the bad ones.
    - Bitmap: every sequence of operations, with slabs other than 0, answers
      like a set of positions; a round of scans returns every slab with set
      bits exactly once.
    - Approximation: the result is within the tolerance and no fraction with a
      smaller denominator is; reciprocal division is division.
    - Random early detection: the average is the filter of the algorithm,
      without overflow, and each verdict is the one that the average, the
      counter and the random value ask for.
    - Circular buffer: every operation implements the operation on a sequence
      of characters (reads at the tail: of everything); the alignment loops
      terminate.
    - Reorder: insertions and drains implement a window of positions; packets
      leave in increasing order of the positions, each at most once; a drain
      delivers all that is ready and follows without a gap, and discards
      nothing.
    - Timers: every sequence of calls answers like queues ordered by expiry;
      a call of manage runs the due timers in order, each once, whatever the
      callbacks do, and changes no other timer than those and the ones the
      callbacks operate on; between calls every timer is stopped or pending.
      This is for programs that keep to the obligations in [TimerSpec].
    - Memory pools: the objects held and those free are together the objects
      of the pool.  Mbufs: a counter is the number of holders and attached
      clones, memory is never handed out while somebody holds it, and all of
      it is back in the pool at the end; the operations on packets are
      operations on their bytes; a clone has the same bytes, and fails only
      if the pool gives fewer mbufs than the packet has segments ([supply] in
      [MbufClone]).
    - Reassembly: fragments of several datagrams, in any order, come out as
      those datagrams; the table is a map with timeouts; every mbuf that is
      handed in with some payload is in exactly one of the table, a packet
      that was returned and the death row, which does not overflow; a packet
      that was returned is covered by fragments of one datagram, without gap
      and overlap.
    - Fragmentation: the fragments have the pieces of the payload behind
      headers with the right offsets, in new mbufs; the call fails for want
      of mbufs only if a pool does not give enough, and then all is given
      back; the packets of the caller keep their bytes.  Two to four IPv4
      fragments, given to the reassembly in any order, become the packet again.
    - Heap: in every execution of allocations and frees, the blocks held are
      pairwise disjoint, aligned and inside a segment; freeing never panics;
      an allocation keeps every held block, and fails only when no free
      element has a place; when all is freed, every segment is one free element
      again.
    - Theorems without a claim number under "Where the code falls short" and
      the like are concrete inputs on which the code does something other than
      it documents.

    ** Bounds and fuel

    The compare-and-set loops of the ring run with fuel; one thread needs one
    round.  The interleaved model assumes sequentially consistent memory and
    that the 32-bit indices do not lap a stalled thread ([no_lap]).  The
    shifting loops of the circular buffer need at most [maxlen] rounds, the
    loops of the reorder buffer at most its size.  LPM theorems assume at most
    256 tbl8 groups (beyond, the code truncates the group index: see
    [tbl8_index_truncated]).  The LPM table theorems assume entries of at most
    [2^20] bytes and at most 64 next hops (see [nht_overflow]).  Heap requests
    are smaller than the lowest segment address, so that address arithmetic
    does not wrap; segments end below [2^63].  The key table of a hash is at
    most [2^32] bytes, because the code computes offsets in 32 bits, and cores
    are numbered below 128; the recursion of [make_space_bucket] sets one flag
    per level, so one level more than the table has entries is enough; a reset
    takes one round per object of the ring.  The bulk lookup is compared for
    keys whose two hashes are not 0 (see [bulk_finds_deleted]).  Bitmaps have
    at most [2^32 - 512] bits.  The approximation is proved for denominators
    below [2^16], where no product wraps; the search takes at most as many
    rounds as the denominator.  Random early detection is proved for queues of
    at most 1023 packets (see [average_wraps]).  A buffer of the reorder
    library has at most [2^27] packets.  Timers expire after 0 (see
    [expire_zero_not_removed]) and callbacks leave alone the other timers that
    wait in the same round (see [callback_resets_due_timer]); the loops over a
    skip list need one step per timer; a compare-and-set is one step.  Loops
    over the segments of a packet need one step per mbuf.  Fragments are at
    most four per datagram, as configured; the table theorems are about keys
    that the comparison tells apart, such as all those for one destination
    (see [key_cmp_ignores_destination], [zero_source_matches_free]); the
    [while] loop of the reassembly needs at most three rounds.  Packets to be
    cut are shorter than [2^16] bytes, with at most 253 segments, of which only
    the first may be empty; the product of the fragment size and the number of
    fragments fits an [int]; [pkts_out] has room for all IPv6 fragments, which the
    code does not ensure (see [ipv6_fragments_overrun]).  Cutting takes one round more than the packet has
    bytes at most, and one per segment inside; the round trip is for fragment
    sizes that are multiples of 8.

    ** Not modelled

    Locks and the tail queues in shared memory (each call runs alone, except in
    [RingConc]); the registries of named objects (create, lookup by name,
    free); the contents of allocated memory; statistics printing; device
    drivers, kernel modules, applications and examples; the access control
    lists, whose vector code needs a model of its own; the scheduler, of which
    only the parts are modelled. *)

From Stdlib Require Export ZArith Lia.
From stdpp Require Export base gmap sets list strings.

#[global] Open Scope Z_scope.
#[export] Set Warnings "-clear-no-such-hyp".

(** The cell of zero-initialised memory. *)
#[export] Instance Z_zero_inhabited : Inhabited Z | 0 := populate 0.

(** ** Machine integers

    A [w]-bit unsigned integer is a [Z] reduced modulo [2^w] wherever the C
    code stores the result of an arithmetic operation. *)

Definition wrap (w x : Z) : Z := x mod 2 ^ w.

Definition u8 (x : Z) : Z := wrap 8 x.

Definition u16 (x : Z) : Z := wrap 16 x.

Definition u32 (x : Z) : Z := wrap 32 x.

Definition u64 (x : Z) : Z := wrap 64 x.

(** Conversion to a signed 32-bit integer (two's complement). *)
Definition i32 (x : Z) : Z :=
  let y := u32 x in if y <? 2 ^ 31 then y else y - 2 ^ 32.

(** ** Error numbers of errno.h used by the code (Linux values) *)

Definition ENOENT : Z := 2.
Definition ENOMEM : Z := 12.
Definition EEXIST : Z := 17.
Definition EINVAL : Z := 22.
Definition ENOSPC : Z := 28.
Definition ERANGE : Z := 34.
Definition ENOBUFS : Z := 105.
Definition EDQUOT : Z := 122.

Lemma wrap_small w x : 0 <= x < 2 ^ w -> wrap w x = x.
Proof. apply Z.mod_small. Qed.

Lemma wrap_range w x : 0 <= w -> 0 <= wrap w x < 2 ^ w.
Proof. intros. apply Z.mod_pos_bound. lia. Qed.

Lemma wrap_idemp w x : wrap w (wrap w x) = wrap w x.
Proof. unfold wrap. apply Zmod_mod. Qed.

Lemma wrap_wrap_le a b x : 0 <= a <= b -> wrap a (wrap b x) = wrap a x.
Proof.
  intros. unfold wrap. replace b with (a + (b - a)) by lia. rewrite Z.pow_add_r by lia.
  rewrite Z.rem_mul_r by lia. rewrite Z.mul_comm, Z_mod_plus_full. apply Zmod_mod.
Qed.

Lemma u8_small x : 0 <= x < 256 -> u8 x = x.
Proof. apply (wrap_small 8). Qed.

Lemma u32_small x : 0 <= x < 2 ^ 32 -> u32 x = x.
Proof. apply wrap_small. Qed.

Lemma u64_small x : 0 <= x < 2 ^ 64 -> u64 x = x.
Proof. apply wrap_small. Qed.

Lemma u32_range x : 0 <= u32 x < 2 ^ 32.
Proof. apply wrap_range. lia. Qed.

Lemma u64_range x : 0 <= u64 x < 2 ^ 64.
Proof. apply wrap_range. lia. Qed.

Lemma i32_small x : 0 <= x < 2 ^ 31 -> i32 x = x.
Proof.
  intros. unfold i32. rewrite u32_small by lia.
  destruct (Z.ltb_spec x (2 ^ 31)); lia.
Qed.

(** Testing one bit. *)
Lemma land_bit mask i : 0 <= i -> (Z.land (Z.shiftl 1 i) mask =? 0) = negb (Z.testbit mask i).
Proof.
  intros Hi. rewrite Z.shiftl_1_l. destruct (Z.testbit mask i) eqn:E; cbn.
  - apply Z.eqb_neq. intros Hz. assert (Hb : Z.testbit (Z.land (2 ^ i) mask) i = true).
    { by rewrite Z.land_spec, Z.pow2_bits_true, E. }
    by rewrite Hz, Z.bits_0 in Hb.
  - apply Z.eqb_eq. apply Z.bits_inj'. intros n Hn. rewrite Z.land_spec, Z.bits_0.
    rewrite Z.pow2_bits_eqb by done. destruct (Z.eqb_spec i n); [by subst; rewrite E|done].
Qed.

(** [u32] only looks at the class modulo [2^32]. *)
Lemma u32_add_multiple x k : u32 (x + k * 2 ^ 32) = u32 x.
Proof. unfold u32, wrap. apply Z_mod_plus_full. Qed.

Lemma u32_add_l x y : u32 (u32 x + y) = u32 (x + y).
Proof. unfold u32, wrap. apply Zplus_mod_idemp_l. Qed.

Lemma u32_add_r x y : u32 (x + u32 y) = u32 (x + y).
Proof. unfold u32, wrap. apply Zplus_mod_idemp_r. Qed.

Lemma u32_sub_l x y : u32 (u32 x - y) = u32 (x - y).
Proof. unfold u32, wrap. apply Zminus_mod_idemp_l. Qed.

Lemma u32_sub_r x y : u32 (x - u32 y) = u32 (x - y).
Proof. unfold u32, wrap. apply Zminus_mod_idemp_r. Qed.

(** Clearing the low bits. *)
Lemma land_neg_pow2 a k : 0 <= k -> Z.land a (- 2 ^ k) = a / 2 ^ k * 2 ^ k.
Proof.
  intros Hk. replace (- 2 ^ k) with (Z.lnot (Z.ones k)).
  - rewrite <- Z.ldiff_land, Z.ldiff_ones_r by done.
    by rewrite Z.shiftl_mul_pow2, Z.shiftr_div_pow2 by done.
  - rewrite Z.ones_equiv. unfold Z.lnot. lia.
Qed.

Lemma land_u64 v y : 0 <= v < 2 ^ 64 -> Z.land v (u64 y) = Z.land v y.
Proof.
  intros Hv. unfold u64, wrap. rewrite <- Z.land_ones by lia.
  rewrite (Z.land_comm y), Z.land_assoc, Z.land_ones by lia. by rewrite Z.mod_small.
Qed.

(** The power-of-two test [(x - 1) & x]. *)
Lemma land_pred_pow2 x w :
  0 < x < 2 ^ w -> Z.land (x - 1) x = 0 -> exists k, 0 <= k < w /\ x = 2 ^ k.
Proof.
  intros Hx Hp. exists (Z.log2 x). pose proof (Z.log2_spec x ltac:(lia)) as Hlog.
  pose proof (Z.log2_nonneg x). split; [split; [done|apply Z.log2_lt_pow2; lia]|].
  destruct (decide (x = 2 ^ Z.log2 x)) as [|Hne]; [done|exfalso].
  (* [x - 1] and [x] share their top bit *)
  assert (Hbit : Z.testbit (Z.land (x - 1) x) (Z.log2 x) = true).
  { rewrite Z.land_spec, Z.bit_log2 by lia. rewrite andb_true_r.
    replace (Z.log2 x) with (Z.log2 (x - 1)) at 1; [apply Z.bit_log2; lia|].
    apply Z.log2_unique; lia. }
  by rewrite Hp, Z.bits_0 in Hbit.
Qed.

(** Smearing the top bit downwards: [x | x >> 1], [x | x >> 2], ... *)
Definition run (x t n : Z) : Prop :=
  (forall i, t < i -> Z.testbit x i = false) /\ (forall i, 0 <= i <= t -> t - n < i -> Z.testbit x i = true).

Lemma run_double x t n : 0 < n -> run x t n -> run (Z.lor x (Z.shiftr x n)) t (2 * n).
Proof.
  intros Hn [Hhi Hlo]. split; intros i Hi.
  - destruct (decide (0 <= i)); [|by apply Z.testbit_neg_r; lia].
    rewrite Z.lor_spec, Z.shiftr_spec, !Hhi by lia. done.
  - intros Hti. rewrite Z.lor_spec, Z.shiftr_spec by lia. destruct (decide (t - n < i)).
    + by rewrite (Hlo i) by lia.
    + rewrite (Hlo (i + n)) by lia. apply orb_true_r.
Qed.

Lemma run_full x t n : 0 <= t < n -> run x t n -> x = 2 ^ (t + 1) - 1.
Proof.
  intros Ht [Hhi Hlo]. replace (2 ^ (t + 1) - 1) with (Z.ones (t + 1)) by (rewrite Z.ones_equiv; lia).
  apply Z.bits_inj'. intros i Hi. destruct (decide (i <= t)).
  - by rewrite Hlo, Z.ones_spec_low by lia.
  - by rewrite Hhi, Z.ones_spec_high by lia.
Qed.

Create Rewrite HintDb ints.
#[export] Hint Rewrite u32_add_l u32_add_r u32_sub_l u32_sub_r : ints.

(** ** Loops

    [for_n n i body s] is the C loop [for (k = i; k < i + n; k++) body],
    [for_down n i body s] the loop [for (k = i; n times; k--) body], and
    [find_up n i p] the search loop that returns the first [k] of
    [i .. i+n-1] with [p k]. *)

Fixpoint for_n {S : Type} (n : nat) (i : Z) (body : Z -> S -> S) (s : S) : S :=
  match n with
  | O => s
  | Datatypes.S n' => for_n n' (i + 1) body (body i s)
  end.

Fixpoint for_down {S : Type} (n : nat) (i : Z) (body : Z -> S -> S) (s : S) : S :=
  match n with
  | O => s
  | Datatypes.S n' => for_down n' (i - 1) body (body i s)
  end.

Fixpoint find_up (n : nat) (i : Z) (p : Z -> bool) : option Z :=
  match n with
  | O => None
  | Datatypes.S n' => if p i then Some i else find_up n' (i + 1) p
  end.

(** [for (k = lo; k < hi; k++)]. *)
Definition for_range {S : Type} (lo hi : Z) (body : Z -> S -> S) (s : S) : S :=
  for_n (Z.to_nat (hi - lo)) lo body s.

(** Loop rule: an invariant indexed by the loop variable. *)
Lemma for_n_inv {S : Type} (P : Z -> S -> Prop) n i body (s : S) :
  P i s ->
  (forall k t, i <= k < i + Z.of_nat n -> P k t -> P (k + 1) (body k t)) ->
  P (i + Z.of_nat n) (for_n n i body s).
Proof.
  revert i s. induction n as [|n IH]; intros i s H0 Hs; simpl.
  - by rewrite Z.add_0_r.
  - replace (i + Z.of_nat (Datatypes.S n)) with ((i + 1) + Z.of_nat n) by lia.
    apply IH; [|intros k t ? ?; apply Hs; [lia|done]]. apply Hs; [lia|done].
Qed.

Lemma for_range_inv {S : Type} (P : Z -> S -> Prop) lo hi body (s : S) :
  lo <= hi ->
  P lo s ->
  (forall k t, lo <= k < hi -> P k t -> P (k + 1) (body k t)) ->
  P hi (for_range lo hi body s).
Proof.
  intros Hle H0 Hs. unfold for_range.
  replace hi with (lo + Z.of_nat (Z.to_nat (hi - lo))) at 1 by lia.
  apply for_n_inv; [done|]. intros; apply Hs; [lia|done].
Qed.

Lemma for_down_inv {S : Type} (P : Z -> S -> Prop) n i body (s : S) :
  P i s ->
  (forall k t, i - Z.of_nat n < k <= i -> P k t -> P (k - 1) (body k t)) ->
  P (i - Z.of_nat n) (for_down n i body s).
Proof.
  revert i s. induction n as [|n IH]; intros i s H0 Hs; simpl.
  - by rewrite Z.sub_0_r.
  - replace (i - Z.of_nat (Datatypes.S n)) with ((i - 1) - Z.of_nat n) by lia.
    apply IH; [|intros k t ? ?; apply Hs; [lia|done]]. apply Hs; [lia|done].
Qed.

(** A function that commutes with the loop body commutes with the loop. *)
Lemma for_n_comm {S : Type} (f : S -> S) n i body (s : S) :
  (forall k t, i <= k -> f (body k t) = body k (f t)) ->
  f (for_n n i body s) = for_n n i body (f s).
Proof.
  revert i s. induction n as [|n IH]; intros i s Hc; cbn [for_n]; [done|].
  rewrite IH by (intros; apply Hc; lia). by rewrite Hc by lia.
Qed.

Lemma find_up_Some n i p k :
  find_up n i p = Some k <->
  i <= k < i + Z.of_nat n /\ p k = true /\ (forall j, i <= j < k -> p j = false).
Proof.
  revert i. induction n as [|n IH]; intros i; simpl.
  - split; [done|lia].
  - destruct (p i) eqn:Hp.
    + split.
      * intros [= ->]. repeat split; [lia..|done|lia].
      * intros (Hk & Hpk & Hj). destruct (decide (k = i)) as [->|]; [done|].
        rewrite Hj in Hp by lia. done.
    + rewrite IH. split; intros (Hk & Hpk & Hj); repeat split; try done; try lia.
      * intros j ?. destruct (decide (j = i)) as [->|]; [done|]. apply Hj; lia.
      * destruct (decide (k = i)) as [->|]; [congruence|lia].
      * intros j ?. apply Hj; lia.
Qed.

Lemma find_up_None n i p :
  find_up n i p = None <-> (forall j, i <= j < i + Z.of_nat n -> p j = false).
Proof.
  revert i. induction n as [|n IH]; intros i; simpl.
  - split; [lia|done].
  - destruct (p i) eqn:Hp.
    + split; [done|]. intros Hj. rewrite Hj in Hp by lia. done.
    + rewrite IH. split; intros Hj j ?.
      * destruct (decide (j = i)) as [->|]; [done|]. apply Hj; lia.
      * apply Hj; lia.
Qed.

(** ** Arrays

    A zero-initialised C array is a [gmap Z A] read with the total lookup
    [!!!] (absent cells hold the [Inhabited] value, the zeroed cell).
    A loop whose body rewrites only the cell of its own index acts
    pointwise. *)

Lemma for_range_pointwise `{Inhabited A} (g : Z -> A -> A) lo hi
    (body : Z -> gmap Z A -> gmap Z A) (m : gmap Z A) k :
  (forall i t j, lo <= i < hi ->
     body i t !!! j = if decide (j = i) then g i (t !!! j) else t !!! j) ->
  for_range lo hi body m !!! k =
    if decide (lo <= k < hi) then g k (m !!! k) else m !!! k.
Proof.
  intros Hb. destruct (decide (lo <= hi)) as [Hle|Hgt].
  - pose proof (for_range_inv
      (fun n t => forall j, t !!! j =
         if decide (lo <= j < n) then g j (m !!! j) else m !!! j)
      lo hi body m Hle) as Hinv. cbv beta in Hinv. apply Hinv; clear Hinv.
    + intros j. rewrite decide_False by lia. done.
    + intros n t Hn IH j. rewrite Hb by lia. rewrite !IH.
      destruct (decide (j = n)) as [->|].
      * rewrite decide_False, decide_True by lia. done.
      * destruct (decide (lo <= j < n)); [rewrite decide_True by lia|
          rewrite decide_False by lia]; done.
  - unfold for_range. replace (Z.to_nat (hi - lo)) with O by lia. simpl.
    rewrite decide_False by lia. done.
Qed.

(** Cells [base .. base + cnt - 1] of [t] hold [f 0 .. f (cnt - 1)], the other
    cells are those of [t0]. *)
Definition filled `{Inhabited A} (f : Z -> A) (t0 t : gmap Z A) (base cnt : Z) : Prop :=
  forall j, t !!! j = if decide (base <= j < base + cnt) then f (j - base) else t0 !!! j.

Lemma filled_0 `{Inhabited A} (f : Z -> A) t base : filled f t t base 0.
Proof. intros j. by rewrite decide_False by lia. Qed.

Lemma filled_step `{Inhabited A} (f : Z -> A) t0 t base c c' j x :
  c' = c + 1 -> filled f t0 t base c -> 0 <= c -> j = base + c -> x = f c ->
  filled f t0 (<[j := x]> t) base c'.
Proof.
  intros -> Hf Hc -> -> k. rewrite lookup_total_insert, Hf.
  destruct (decide (base + c = k)) as [<-|Hne].
  - rewrite decide_True by lia. f_equal. lia.
  - repeat case_decide; done || lia.
Qed.

Lemma filled_cnt `{Inhabited A} (f : Z -> A) t0 t base c c' : c = c' -> filled f t0 t base c -> filled f t0 t base c'.
Proof. by intros ->. Qed.

(** A loop of stores to consecutive cells. *)
Lemma filled_from `{Inhabited A} (f : Z -> A) t body base lo hi :
  lo <= hi -> (forall j u, lo <= j < hi -> body j u = <[base + (j - lo) := f (j - lo)]> u) ->
  filled f t (for_range lo hi body t) base (hi - lo).
Proof.
  intros Hle Hb. apply (for_range_inv (fun j u => filled f t u base (j - lo))); [done|..].
  - rewrite Z.sub_diag. apply filled_0.
  - intros j u Hj Hu. rewrite Hb by done. eapply filled_step; [|done|lia..|done]. lia.
Qed.

(** ** Memory *)

(** [memcpy] of [n] cells from one array to another. *)
Definition memcpy (dst : gmap Z Z) (d : Z) (src : Z -> Z) (s n : Z) : gmap Z Z :=
  for_range 0 n (fun i t => <[d + i := src (s + i)]> t) dst.

(** A C string argument as an array. *)
Definition chars (c : list Z) (i : Z) : Z := c !!! Z.to_nat i.
Definition cells (t : gmap Z Z) (i : Z) : Z := t !!! i.

Lemma memcpy_cells dst d src s n j :
  0 <= n ->
  memcpy dst d src s n !!! j =
  if decide (d <= j < d + n) then src (s + (j - d)) else dst !!! j.
Proof.
  intros Hn. unfold memcpy.
  rewrite (filled_from (fun i => src (s + i)) dst _ d) by (intros; rewrite ?Z.sub_0_r; done || lia).
  by rewrite Z.sub_0_r.
Qed.


(** The first [m] cells of an array. *)
Definition table_list (t : gmap Z Z) (m : Z) : list Z :=
  map (fun i => t !!! Z.of_nat i) (seq 0 (Z.to_nat m)).

Lemma table_list_take t q m :
  0 <= m <= Z.of_nat (length q) ->
  (forall i, 0 <= i < m -> t !!! i = q !!! Z.to_nat i) ->
  table_list t m = take (Z.to_nat m) q.
Proof.
  intros Hm Ht. apply list_eq. intros i. unfold table_list. rewrite list_lookup_fmap.
  destruct (decide (i < Z.to_nat m)%nat).
  - rewrite lookup_seq_lt, lookup_take_lt by lia. cbn. rewrite Ht by lia. rewrite Nat2Z.id.
    symmetry. apply list_lookup_lookup_total_lt. lia.
  - rewrite lookup_seq_ge, lookup_take_ge by lia. done.
Qed.

(** Filters that agree on the elements of a list. *)
Lemma filter_ext_on {A} (P Q : A -> Prop) `{!forall x, Decision (P x)} `{!forall x, Decision (Q x)} (l : list A) :
  (forall y, y ∈ l -> P y <-> Q y) -> filter P l = filter Q l.
Proof.
  induction l as [|y l IH]; intros Heq; [done|]. rewrite !filter_cons.
  rewrite IH by (intros; apply Heq; by right).
  pose proof (Heq y ltac:(left)). repeat case_decide; naive_solver.
Qed.

Lemma concat_map_in {A B} (f : A -> list B) xs x y : x ∈ xs -> y ∈ f x -> y ∈ concat (map f xs).
Proof.
  intros Hx Hy. induction xs as [|z xs IH]; [by apply elem_of_nil in Hx|]. cbn. apply elem_of_app.
  apply elem_of_cons in Hx as [->|Hx]; [by left|right; auto].
Qed.

Lemma filter_nil_on {A} (P : A -> Prop) `{!forall x, Decision (P x)} (l : list A) :
  (forall y, y ∈ l -> ~ P y) -> filter P l = [].
Proof.
  induction l as [|y l IH]; intros Hn; [done|]. rewrite filter_cons, decide_False by (apply Hn; left).
  apply IH. intros. apply Hn. by right.
Qed.

Lemma filter_id_on {A} (P : A -> Prop) `{!forall x, Decision (P x)} (l : list A) :
  (forall y, y ∈ l -> P y) -> filter P l = l.
Proof.
  induction l as [|y l IH]; intros Hn; [done|]. rewrite filter_cons, decide_True by (apply Hn; left).
  f_equal. apply IH. intros. apply Hn. by right.
Qed.

(** A list of distinct keys of a map. *)
Lemma members_bound {A} (m : gmap Z A) (l : list Z) :
  NoDup l -> (forall t, t ∈ l -> is_Some (m !! t)) -> (length l <= size m)%nat.
Proof.
  intros Hnd Hm. rewrite <- size_dom, <- (size_list_to_set (C := gset Z) l) by done.
  apply subseteq_size. intros t Ht%elem_of_list_to_set. apply elem_of_dom. auto.
Qed.

(** Positions closer than [m] occupy different places of a ring of [m]. *)
Lemma mod_distinct x y m : 0 < y - x < m -> x mod m <> y mod m.
Proof.
  intros Hd E. pose proof (Z.div_mod x m ltac:(lia)). pose proof (Z.div_mod y m ltac:(lia)).
  assert (0 < m * (y / m - x / m) < m) by nia. assert (0 < y / m - x / m < 1) by nia. lia.
Qed.

(** Case analysis on the boolean integer tests of the code. *)
Ltac case_tests :=
  repeat match goal with
  | |- context [Z.eqb ?a ?b] => destruct (Z.eqb_spec a b)
  | |- context [Z.ltb ?a ?b] => destruct (Z.ltb_spec a b)
  | |- context [Z.leb ?a ?b] => destruct (Z.leb_spec a b)
  | |- context [Z.gtb ?a ?b] => rewrite (Z.gtb_ltb a b)
  end.

(** [lia] with division and modulo by eliminating them first. *)
Ltac dlia := Z.div_mod_to_equations; lia.
