(* ===== verification/Bits.v ===== *)
(** * Bits of 64-bit masks

    The bit operations that several components use, with their effect on each
    bit: setting and clearing one bit, the lowest set bit, the number of set
    bits, and rounding up to a power of two. *)

From S2P Require Import Prelude.

Definition rte_is_power_of_2 (n : Z) : bool :=
  negb (n =? 0) && (Z.land n (u32 (n - 1)) =? 0).

(** Rounds up to a power of two. *)
Definition rte_align32pow2 (x : Z) : Z :=
  let x := u32 (x - 1) in
  let x := Z.lor x (Z.shiftr x 1) in
  let x := Z.lor x (Z.shiftr x 2) in
  let x := Z.lor x (Z.shiftr x 4) in
  let x := Z.lor x (Z.shiftr x 8) in
  let x := Z.lor x (Z.shiftr x 16) in
  u32 (x + 1).

(** [__builtin_ctzl] of a non-zero mask, and [__builtin_popcount]. *)
Definition ctz (m : Z) : Z := default 0 (find_up 64 0 (Z.testbit m)).
Definition popcount (m : Z) : Z :=
  Z.of_nat (length (filter (fun i => Z.testbit m i = true) (seqZ 0 64))).
Definition clear_bit (m idx : Z) : Z := Z.land m (u64 (Z.lnot (Z.shiftl 1 idx))).

Lemma testbit_lor_shift m b idx i :
  0 <= idx -> 0 <= i ->
  Z.testbit (Z.lor m (Z.shiftl (Z.b2z b) idx)) i = Z.testbit m i || (bool_decide (i = idx) && b).
Proof.
  intros Hidx Hi. rewrite Z.lor_spec, Z.shiftl_spec by done. f_equal.
  destruct (decide (i = idx)) as [->|Hne].
  - rewrite bool_decide_true, Z.sub_diag, Z.b2z_bit0 by done. done.
  - rewrite bool_decide_false by done. destruct (decide (i < idx)); [by rewrite Z.testbit_neg_r by lia|].
    destruct b; cbn; [|by rewrite Z.bits_0]. destruct (i - idx) as [|p|p] eqn:E; try lia. by destruct p.
Qed.

Lemma clear_bit_spec m idx i :
  0 <= m < 2 ^ 64 -> 0 <= idx -> 0 <= i ->
  Z.testbit (clear_bit m idx) i = Z.testbit m i && negb (bool_decide (i = idx)).
Proof.
  intros Hm Hidx Hi. unfold clear_bit. rewrite land_u64, Z.land_spec, Z.lnot_spec by done. f_equal. f_equal.
  rewrite Z.shiftl_1_l, Z.pow2_bits_eqb by done. case_bool_decide; [subst; apply Z.eqb_refl|]. apply Z.eqb_neq. lia.
Qed.

Lemma clear_bit_range m idx : 0 <= m < 2 ^ 64 -> 0 <= clear_bit m idx < 2 ^ 64.
Proof.
  intros Hm. unfold clear_bit. rewrite Z.land_comm. split; [apply Z.land_nonneg; lia|].
  destruct (decide (Z.land (u64 (Z.lnot (Z.shiftl 1 idx))) m = 0)) as [->|Hne]; [lia|].
  assert (0 <= Z.land (u64 (Z.lnot (Z.shiftl 1 idx))) m) by (apply Z.land_nonneg; lia).
  apply Z.log2_lt_pow2; [lia|]. eapply Z.le_lt_trans; [apply Z.log2_land; [apply u64_range|lia]|].
  eapply Z.le_lt_trans; [apply Z.le_min_r|]. destruct (decide (m = 0)) as [->|]; [done|]. apply Z.log2_lt_pow2; lia.
Qed.

(** The lowest set bit. *)
Lemma ctz_spec m c :
  0 <= c < 64 -> Z.testbit m c = true -> (forall i, 0 <= i < c -> Z.testbit m i = false) -> ctz m = c.
Proof.
  intros Hc Hb Hlow. unfold ctz. replace (find_up 64 0 (Z.testbit m)) with (Some c); [done|].
  symmetry. apply find_up_Some. split; [lia|]. split; [done|]. intros j Hj. apply Hlow. lia.
Qed.

(** A mask whose bits are clear from 64 on is 0 when all others are. *)
Lemma mask_zero m : 0 <= m < 2 ^ 64 -> m = 0 <-> forall i, 0 <= i < 64 -> Z.testbit m i = false.
Proof.
  intros Hm. split; [intros -> i _; apply Z.bits_0|]. intros Hz. apply Z.bits_inj'. intros i Hi. rewrite Z.bits_0.
  destruct (decide (i < 64)); [apply Hz; lia|]. rewrite <- (Z.mod_small m (2 ^ 64)) by done.
  by rewrite Z.mod_pow2_bits_high by lia.
Qed.

Lemma mask_range m : (forall i, 64 <= i -> Z.testbit m i = false) -> 0 <= m < 2 ^ 64.
Proof.
  intros Hz. assert (E : m = m mod 2 ^ 64); [|rewrite E; apply Z.mod_pos_bound; lia].
  apply Z.bits_inj'. intros i Hi. destruct (decide (i < 64)); [by rewrite Z.mod_pow2_bits_low by lia|].
  by rewrite Hz, Z.mod_pow2_bits_high by lia.
Qed.

Lemma high_bit m i : 0 <= m < 2 ^ 64 -> 64 <= i -> Z.testbit m i = false.
Proof. intros Hm Hi. rewrite <- (Z.mod_small m (2 ^ 64)) by done. by rewrite Z.mod_pow2_bits_high by lia. Qed.

(** The lowest bit of a mask without bits below [lo]. *)
Lemma lowest_bit m lo :
  0 <= m < 2 ^ 64 -> m <> 0 -> (forall i, 0 <= i < lo -> Z.testbit m i = false) -> 0 <= lo ->
  lo <= ctz m < 64 /\ Z.testbit m (ctz m) = true /\ (forall i, 0 <= i < ctz m -> Z.testbit m i = false).
Proof.
  intros Hm Hnz Hlo Hl. unfold ctz. destruct (find_up 64 0 (Z.testbit m)) as [x|] eqn:E.
  - apply find_up_Some in E as (Hx&Ht&Hb). change (default 0 (Some x)) with x. split_and!; [|lia|done|intros; apply Hb; lia].
    destruct (decide (lo <= x)); [done|]. by rewrite Hlo in Ht by lia.
  - destruct Hnz. apply mask_zero; [done|]. rewrite find_up_None in E. intros i Hi. apply E. lia.
Qed.

Lemma land_lnot_bit m x i : 0 <= m < 2 ^ 64 -> Z.testbit (Z.land m (u64 (Z.lnot x))) i = Z.testbit m i && negb (Z.testbit x i).
Proof.
  intros Hm. destruct (decide (0 <= i)); [|by rewrite !Z.testbit_neg_r by lia].
  by rewrite land_u64, Z.land_spec, Z.lnot_spec by done.
Qed.

Lemma land_range m x : 0 <= m < 2 ^ 64 -> 0 <= Z.land m x < 2 ^ 64.
Proof.
  intros Hm. apply mask_range. intros i Hi. rewrite Z.land_spec.
  by rewrite high_bit.
Qed.

(** The next power of two. *)
Lemma align32pow2_spec x :
  1 <= x <= 2 ^ 31 -> exists k, 0 <= k <= 31 /\ rte_align32pow2 x = 2 ^ k /\ x <= 2 ^ k < 2 * x.
Proof.
  intros Hx. unfold rte_align32pow2. cbv zeta. rewrite (u32_small (x - 1)) by lia.
  destruct (decide (x = 1)) as [->|Hne]; [by exists 0|].
  set (t := Z.log2 (x - 1)). pose proof (Z.log2_spec (x - 1) ltac:(lia)) as Hlog. fold t in Hlog.
  assert (Ht : 0 <= t < 31) by (split; [apply Z.log2_nonneg|apply Z.log2_lt_pow2; lia]).
  assert (Hrun : run (x - 1) t 1).
  { split; [|intros i Hi1 Hi2; replace i with t by lia; apply Z.bit_log2; lia].
    intros i Hi. apply Z.bits_above_log2; [lia|]. fold t. lia. }
  apply run_double in Hrun; [|lia]. apply (run_double _ _ 2) in Hrun; [|lia]. apply (run_double _ _ 4) in Hrun; [|lia].
  apply (run_double _ _ 8) in Hrun; [|lia]. apply (run_double _ _ 16) in Hrun; [|lia].
  apply run_full in Hrun; [|lia]. rewrite Hrun. exists (t + 1).
  assert (2 ^ (t + 1) <= 2 ^ 31) by (apply Z.pow_le_mono_r; lia).
  replace (Z.succ t) with (t + 1) in Hlog by lia.
  assert (2 ^ (t + 1) = 2 * 2 ^ t) by (rewrite Z.pow_add_r; lia).
  rewrite u32_small by lia. split; [lia|]. split; [lia|]. lia.
Qed.

(** [rte_is_power_of_2] accepts the powers of two. *)
Lemma is_power_of_2_spec n :
  0 <= n < 2 ^ 32 -> rte_is_power_of_2 n = true -> exists k, 0 <= k < 32 /\ n = 2 ^ k.
Proof.
  intros Hn. unfold rte_is_power_of_2. rewrite andb_true_iff, negb_true_iff, Z.eqb_neq, Z.eqb_eq.
  intros [H0 Hl]. rewrite u32_small in Hl by lia. rewrite Z.land_comm in Hl. apply land_pred_pow2; [lia|done].
Qed.
