(* ===== verification/Bitmap.v ===== *)
(** * Hierarchical bitmap: data and operations

    Model of [librte_sched/rte_bitmap.h].  The bits are in 64-bit slabs
    ([array2]), eight slabs are a cache line, and one bit of [array1] tells for
    each line whether it has a set bit.  A scan returns the next slab that is
    not empty, with a cursor that wraps around. *)

From S2P Require Import Prelude Bits.

Definition RTE_CACHE_LINE_SIZE : Z := 64.
Definition RTE_BITMAP_SLAB_BIT_SIZE : Z := 64.
Definition RTE_BITMAP_SLAB_BIT_SIZE_LOG2 : Z := 6.
Definition RTE_BITMAP_SLAB_BIT_MASK : Z := 63.
Definition RTE_BITMAP_CL_BIT_SIZE : Z := 512.
Definition RTE_BITMAP_CL_BIT_SIZE_LOG2 : Z := 9.
Definition RTE_BITMAP_CL_SLAB_SIZE : Z := 8.
Definition RTE_BITMAP_CL_SLAB_SIZE_LOG2 : Z := 3.
Definition RTE_BITMAP_CL_SLAB_MASK : Z := 7.

(** The arrays are maps from the index of a slab. *)
Record rte_bitmap := Bitmap {
  array1 : gmap Z Z;
  array2 : gmap Z Z;
  array1_size : Z;
  array2_size : Z;
  index1 : Z;
  offset1 : Z;
  index2 : Z;
  go2 : Z
}.

Definition sizeof_rte_bitmap : Z := 40.

(** ** Assignments *)

Definition set_scan (b : rte_bitmap) (i1 o1 i2 g : Z) : rte_bitmap :=
  Bitmap (array1 b) (array2 b) (array1_size b) (array2_size b) i1 o1 i2 g.
Definition set_arrays (b : rte_bitmap) (a1 a2 : gmap Z Z) : rte_bitmap :=
  Bitmap a1 a2 (array1_size b) (array2_size b) (index1 b) (offset1 b) (index2 b) (go2 b).

Definition rte_bitmap_index1_inc (b : rte_bitmap) : rte_bitmap :=
  set_scan b (Z.land (u32 (index1 b + 1)) (u32 (array1_size b - 1))) (offset1 b) (index2 b) (go2 b).

(** [(~1lu) << offset1]. *)
Definition rte_bitmap_mask1_get (b : rte_bitmap) : Z := u64 (Z.shiftl (u64 (Z.lnot 1)) (offset1 b)).

Definition rte_bitmap_index2_set (b : rte_bitmap) : rte_bitmap :=
  set_scan b (index1 b) (offset1 b)
    (u32 (Z.shiftl (u32 (u32 (Z.shiftl (index1 b) RTE_BITMAP_SLAB_BIT_SIZE_LOG2) + offset1 b))
       RTE_BITMAP_CL_SLAB_SIZE_LOG2)) (go2 b).

(** The position of the lowest set bit. *)
Definition rte_bsf64 (slab : Z) : option Z := if slab =? 0 then None else Some (ctz slab).

(** ** Creation *)

Record footprint := Footprint {
  n_bytes_total : Z;
  array1_byte_offset : Z;
  array1_slabs : Z;
  array2_byte_offset : Z;
  array2_slabs : Z
}.

Definition get_memory_footprint (n_bits : Z) : footprint :=
  let n_cache_lines_array2 := u32 (n_bits + RTE_BITMAP_CL_BIT_SIZE - 1) / RTE_BITMAP_CL_BIT_SIZE in
  let n_slabs_array1 :=
    u32 (n_cache_lines_array2 + RTE_BITMAP_SLAB_BIT_SIZE - 1) / RTE_BITMAP_SLAB_BIT_SIZE in
  let n_slabs_array1 := rte_align32pow2 n_slabs_array1 in
  let n_slabs_context := (sizeof_rte_bitmap + RTE_BITMAP_SLAB_BIT_SIZE / 8 - 1) / (RTE_BITMAP_SLAB_BIT_SIZE / 8) in
  let n_cache_lines_context_and_array1 :=
    u32 (n_slabs_context + n_slabs_array1 + RTE_BITMAP_CL_SLAB_SIZE - 1) / RTE_BITMAP_CL_SLAB_SIZE in
  Footprint
    (u32 ((n_cache_lines_context_and_array1 + n_cache_lines_array2) * RTE_CACHE_LINE_SIZE))
    (u32 (n_slabs_context * (RTE_BITMAP_SLAB_BIT_SIZE / 8)))
    n_slabs_array1
    (u32 (n_cache_lines_context_and_array1 * RTE_CACHE_LINE_SIZE))
    (u32 (n_cache_lines_array2 * RTE_BITMAP_CL_SLAB_SIZE)).

Definition rte_bitmap_get_memory_footprint (n_bits : Z) : Z :=
  if n_bits =? 0 then 0 else n_bytes_total (get_memory_footprint n_bits).

Definition rte_bitmap_scan_init (b : rte_bitmap) : rte_bitmap :=
  let b1 := rte_bitmap_index2_set
    (set_scan b (u32 (array1_size b - 1)) (RTE_BITMAP_SLAB_BIT_SIZE - 1) (index2 b) (go2 b)) in
  set_scan b1 (index1 b1) (offset1 b1) (u32 (index2 b1 + RTE_BITMAP_CL_SLAB_SIZE)) 0.

(** [mem] is the address of the memory, 0 for NULL.  The memory is not bounded
    by [mem_size]: what a size below the footprint leads to is the subject of
    a finding on the test of [mem_size]. *)
Definition rte_bitmap_init (n_bits mem mem_size : Z) : option rte_bitmap :=
  if n_bits =? 0 then None
  else if (mem =? 0) || negb (Z.land mem (RTE_CACHE_LINE_SIZE - 1) =? 0) then None
  else
    let f := get_memory_footprint n_bits in
    if n_bytes_total f <? mem_size then None
    else Some (rte_bitmap_scan_init (Bitmap empty empty (array1_slabs f) (array2_slabs f) 0 0 0 0)).

Definition rte_bitmap_free (b : option rte_bitmap) : Z := match b with None => -1 | Some _ => 0 end.

(** Clears the cells below [n]. *)
Definition clear_cells (t : gmap Z Z) (n : Z) : gmap Z Z := filter (fun '(i, _) => ~ (0 <= i < n)) t.

Definition rte_bitmap_reset (b : rte_bitmap) : rte_bitmap :=
  rte_bitmap_scan_init
    (set_arrays b (clear_cells (array1 b) (array1_size b)) (clear_cells (array2 b) (array2_size b))).

(** ** Bits *)

Definition pos_index2 (pos : Z) : Z := Z.shiftr pos RTE_BITMAP_SLAB_BIT_SIZE_LOG2.
Definition pos_offset2 (pos : Z) : Z := Z.land pos RTE_BITMAP_SLAB_BIT_MASK.
Definition pos_index1 (pos : Z) : Z := Z.shiftr pos (RTE_BITMAP_SLAB_BIT_SIZE_LOG2 + RTE_BITMAP_CL_BIT_SIZE_LOG2).
Definition pos_offset1 (pos : Z) : Z := Z.land (Z.shiftr pos RTE_BITMAP_CL_BIT_SIZE_LOG2) RTE_BITMAP_SLAB_BIT_MASK.

Definition rte_bitmap_get (b : rte_bitmap) (pos : Z) : Z :=
  Z.land (array2 b !!! pos_index2 pos) (Z.shiftl 1 (pos_offset2 pos)).

(** [*slab |= bits]. *)
Definition or_cell (t : gmap Z Z) (i bits : Z) : gmap Z Z := <[i := Z.lor (t !!! i) bits]> t.

Definition rte_bitmap_set (b : rte_bitmap) (pos : Z) : rte_bitmap :=
  set_arrays b (or_cell (array1 b) (pos_index1 pos) (Z.shiftl 1 (pos_offset1 pos)))
    (or_cell (array2 b) (pos_index2 pos) (Z.shiftl 1 (pos_offset2 pos))).

Definition rte_bitmap_set_slab (b : rte_bitmap) (pos slab : Z) : rte_bitmap :=
  set_arrays b (or_cell (array1 b) (pos_index1 pos) (Z.shiftl 1 (pos_offset1 pos)))
    (or_cell (array2 b) (pos_index2 pos) slab).

Definition rte_bitmap_line_not_empty (t : gmap Z Z) (i : Z) : Z :=
  let v1 := Z.lor (t !!! i) (t !!! (i + 1)) in
  let v2 := Z.lor (t !!! (i + 2)) (t !!! (i + 3)) in
  let v3 := Z.lor (t !!! (i + 4)) (t !!! (i + 5)) in
  let v4 := Z.lor (t !!! (i + 6)) (t !!! (i + 7)) in
  Z.lor (Z.lor v1 v2) (Z.lor v3 v4).

Definition rte_bitmap_clear (b : rte_bitmap) (pos : Z) : rte_bitmap :=
  let i2 := pos_index2 pos in
  let slab2 := clear_bit (array2 b !!! i2) (pos_offset2 pos) in
  let a2 := <[i2 := slab2]> (array2 b) in
  if negb (slab2 =? 0) then set_arrays b (array1 b) a2
  else
    let line := Z.land i2 (u32 (Z.lnot RTE_BITMAP_CL_SLAB_MASK)) in
    if negb (rte_bitmap_line_not_empty a2 line =? 0) then set_arrays b (array1 b) a2
    else
      let i1 := pos_index1 pos in
      set_arrays b (<[i1 := clear_bit (array1 b !!! i1) (pos_offset1 pos)]> (array1 b)) a2.

(** ** Scanning *)

(** [for (i = 0; i < array1_size; i++, index1_inc)]: the bitmap and the result. *)
Fixpoint search_loop (n : nat) (b : rte_bitmap) : rte_bitmap * bool :=
  match n with
  | O => (b, false)
  | S n' =>
      match rte_bsf64 (array1 b !!! index1 b) with
      | Some o => (set_scan b (index1 b) o (index2 b) (go2 b), true)
      | None => search_loop n' (rte_bitmap_index1_inc b)
      end
  end.

Definition rte_bitmap_scan_search (b : rte_bitmap) : rte_bitmap * bool :=
  match rte_bsf64 (Z.land (array1 b !!! index1 b) (rte_bitmap_mask1_get b)) with
  | Some o => (set_scan b (index1 b) o (index2 b) (go2 b), true)
  | None =>
      let b1 := rte_bitmap_index1_inc b in
      let b2 := set_scan b1 (index1 b1) 0 (index2 b1) (go2 b1) in
      search_loop (Z.to_nat (array1_size b2)) b2
  end.

Definition rte_bitmap_scan_read_init (b : rte_bitmap) : rte_bitmap :=
  let b1 := rte_bitmap_index2_set b in set_scan b1 (index1 b1) (offset1 b1) (index2 b1) 1.

(** The increment of the loop: the next slab, and whether it is in the line. *)
Definition next_slab (b : rte_bitmap) : rte_bitmap :=
  let i := u32 (index2 b + 1) in set_scan b (index1 b) (offset1 b) i (Z.land i RTE_BITMAP_CL_SLAB_MASK).

(** The position and the slab, if one was found; a line has eight slabs. *)
Fixpoint scan_read_loop (fuel : nat) (b : rte_bitmap) : rte_bitmap * option (Z * Z) :=
  match fuel with
  | O => (b, None)
  | S fuel' =>
      if go2 b =? 0 then (b, None)
      else
        let slab := array2 b !!! index2 b in
        if negb (slab =? 0) then
          (next_slab b, Some (u32 (Z.shiftl (index2 b) RTE_BITMAP_SLAB_BIT_SIZE_LOG2), slab))
        else scan_read_loop fuel' (next_slab b)
  end.

Definition rte_bitmap_scan_read (b : rte_bitmap) : rte_bitmap * option (Z * Z) := scan_read_loop 9 b.

(** The return value with [*pos] and [*slab]: [Some None] is a return value of
    1 with nothing stored. *)
Definition rte_bitmap_scan (b : rte_bitmap) : rte_bitmap * option (option (Z * Z)) :=
  match rte_bitmap_scan_read b with
  | (b1, Some r) => (b1, Some (Some r))
  | (b1, None) =>
      match rte_bitmap_scan_search b1 with
      | (b2, true) => let '(b3, r) := rte_bitmap_scan_read (rte_bitmap_scan_read_init b2) in (b3, Some r)
      | (b2, false) => (b2, None)
      end
  end.
