(* ===== verification/BitmapProofs.v ===== *)
(** * Hierarchical bitmap: invariant and scan

    The invariant ties every bit of [array1] to its line of [array2].  The scan
    is described by distances in the cyclic order that starts at the cursor. *)

From S2P Require Import Prelude Bits Bitmap.

(** ** Positions *)

Lemma pos_index2_eq pos : pos_index2 pos = pos / 64.
Proof. unfold pos_index2. by rewrite Z.shiftr_div_pow2. Qed.

Lemma pos_offset2_eq pos : pos_offset2 pos = pos mod 64.
Proof. unfold pos_offset2, RTE_BITMAP_SLAB_BIT_MASK. change 63 with (Z.ones 6). by rewrite Z.land_ones. Qed.

Lemma pos_index1_eq pos : pos_index1 pos = pos / 512 / 64.
Proof. unfold pos_index1. rewrite Z.shiftr_div_pow2 by done. by rewrite Zdiv_Zdiv. Qed.

Lemma pos_offset1_eq pos : pos_offset1 pos = (pos / 512) mod 64.
Proof.
  unfold pos_offset1, RTE_BITMAP_SLAB_BIT_MASK, RTE_BITMAP_CL_BIT_SIZE_LOG2. change 63 with (Z.ones 6).
  by rewrite Z.land_ones, Z.shiftr_div_pow2.
Qed.

Create Rewrite HintDb bitmap.
#[export] Hint Rewrite pos_index2_eq pos_offset2_eq pos_index1_eq pos_offset1_eq : bitmap.

(** The line of a slab. *)
Lemma slab_line i : 8 * (i / 8) <= i < 8 * (i / 8) + 8.
Proof. pose proof (Z.div_mod i 8). pose proof (Z.mod_pos_bound i 8). lia. Qed.

Lemma line_of_pos pos : pos / 512 = pos / 64 / 8.
Proof. by rewrite Zdiv_Zdiv. Qed.

(** ** Invariant *)

(** The current line of the scan, and the slab where it goes on. *)
Definition line (b : rte_bitmap) : Z := index1 b * 64 + offset1 b.
Definition cursor (b : rte_bitmap) : Z := if go2 b =? 0 then 8 * (line b + 1) else index2 b.

(** The number of lines and slabs that [array1] describes. *)
Definition lines (b : rte_bitmap) : Z := array1_size b * 64.
Definition slabs (b : rte_bitmap) : Z := array1_size b * 512.

Definition line_bit (b : rte_bitmap) (l : Z) : bool := Z.testbit (array1 b !!! (l / 64)) (l mod 64).

(** The arrays. *)
Record arrays_inv (b : rte_bitmap) : Prop := {
  ba_size : exists k, 0 <= k <= 17 /\ array1_size b = 2 ^ k;
  ba_size2 : 0 < array2_size b <= slabs b;
  ba_zero : forall i, ~ (0 <= i < array2_size b) -> array2 b !!! i = 0;
  ba_range1 : forall i, 0 <= array1 b !!! i < 2 ^ 64;
  ba_range2 : forall i, 0 <= array2 b !!! i < 2 ^ 64;
  ba_lines : forall l, 0 <= l < lines b ->
    line_bit b l = true <-> exists s, s / 8 = l /\ array2 b !!! s <> 0
}.

Record bm_inv (b : rte_bitmap) : Prop := {
  bi_arrays : arrays_inv b;
  bi_index1 : 0 <= index1 b < array1_size b;
  bi_offset1 : 0 <= offset1 b < 64;
  bi_go2 : go2 b <> 0 -> 8 * line b < index2 b < 8 * line b + 8
}.

Lemma arrays_size b : arrays_inv b -> 0 < array1_size b <= 2 ^ 17.
Proof. intros [(k&Hk&->) _ _ _ _ _]. split; [lia|]. apply Z.pow_le_mono_r; lia. Qed.

Lemma slab_range b s : arrays_inv b -> array2 b !!! s <> 0 -> 0 <= s < array2_size b.
Proof. intros HA Hs. destruct (decide (0 <= s < array2_size b)); [done|]. destruct Hs. by apply HA. Qed.

(** A slab that is not empty is in a line whose bit is set. *)
Lemma slab_line_bit b s : arrays_inv b -> array2 b !!! s <> 0 -> 0 <= s / 8 < lines b /\ line_bit b (s / 8) = true.
Proof.
  intros HA Hs. pose proof (slab_range b s HA Hs). pose proof (ba_size2 _ HA). pose proof (slab_line s).
  assert (0 <= s / 8 < lines b) by (unfold lines, slabs in *; lia). split; [done|]. apply HA; [done|]. by exists s.
Qed.

(** ** The cyclic order *)

(** [x] is the first element from [c] on, modulo [n], that satisfies [P]. *)
Definition first_from (n c : Z) (P : Z -> Prop) (x : Z) : Prop :=
  0 <= x < n /\ P x /\ forall y, 0 <= y < n -> P y -> (x - c) mod n <= (y - c) mod n.

(** ** Reading a line *)

Definition at_slab (b : rte_bitmap) (i g : Z) : rte_bitmap := set_scan b (index1 b) (offset1 b) i g.

Lemma land7 i : Z.land i RTE_BITMAP_CL_SLAB_MASK = i mod 8.
Proof. change RTE_BITMAP_CL_SLAB_MASK with (Z.ones 3). by rewrite Z.land_ones. Qed.

Definition read_post (b : rte_bitmap) (l : Z) (res : rte_bitmap * option (Z * Z)) : Prop :=
  match res with
  | (b', Some (pos, slab)) => exists s, index2 b <= s < 8 * l + 8 /\ array2 b !!! s <> 0 /\
      (forall s', index2 b <= s' < s -> array2 b !!! s' = 0) /\
      pos = 64 * s /\ slab = array2 b !!! s /\ b' = at_slab b (s + 1) ((s + 1) mod 8)
  | (b', None) => (forall s', index2 b <= s' < 8 * l + 8 -> array2 b !!! s' = 0) /\
      exists i, b' = at_slab b i 0
  end.

Lemma read_loop_ok fuel b l :
  0 <= l < 2 ^ 23 -> 8 * l <= index2 b <= 8 * l + 8 -> (go2 b = 0 <-> index2 b = 8 * l + 8) ->
  8 * l + 8 - index2 b < Z.of_nat fuel -> read_post b l (scan_read_loop fuel b).
Proof.
  revert b. induction fuel as [|fuel IH]; intros b Hl Hi Hg Hf; [lia|]. cbn [scan_read_loop].
  destruct (Z.eqb_spec (go2 b) 0) as [E|E].
  { split; [intros s' Hs'; lia|]. exists (index2 b). unfold at_slab, set_scan. rewrite <- E. by destruct b. }
  assert (Hlt : index2 b < 8 * l + 8) by lia.
  assert (En : next_slab b = at_slab b (index2 b + 1) ((index2 b + 1) mod 8)).
  { unfold next_slab. rewrite u32_small by lia. by rewrite land7. }
  destruct (Z.eqb_spec (array2 b !!! index2 b) 0) as [Ez|Ez]; cbn [negb].
  - rewrite En. set (b1 := at_slab b _ _).
    assert (Hg1 : go2 b1 = 0 <-> index2 b1 = 8 * l + 8).
    { cbn. pose proof (Z.div_mod (index2 b + 1) 8). pose proof (Z.mod_pos_bound (index2 b + 1) 8). lia. }
    specialize (IH b1 Hl ltac:(cbn; lia) Hg1 ltac:(cbn; lia)).
    destruct (scan_read_loop fuel b1) as [b' [[pos slab]|]]; cbn in IH |- *.
    + destruct IH as (s&Hs&Hnz&Hz&->&->&->). exists s. split; [lia|]. split; [done|]. split; [|done].
      intros s' Hs'. destruct (decide (s' = index2 b)) as [->|]; [done|apply Hz; lia].
    + destruct IH as [Hz (i&->)]. split; [|by exists i].
      intros s' Hs'. destruct (decide (s' = index2 b)) as [->|]; [done|apply Hz; lia].
  - cbn. exists (index2 b). split; [lia|]. split; [done|]. split; [intros; lia|]. split; [|by rewrite En].
    unfold RTE_BITMAP_SLAB_BIT_SIZE_LOG2. rewrite Z.shiftl_mul_pow2 by lia. rewrite u32_small by lia. lia.
Qed.

(** ** Searching [array1] *)

(** The lowest bit of a slab from [lo] on. *)
Lemma bsf64_spec v lo :
  0 <= v < 2 ^ 64 -> 0 <= lo -> (forall i, 0 <= i < lo -> Z.testbit v i = false) ->
  match rte_bsf64 v with
  | Some o => lo <= o < 64 /\ Z.testbit v o = true /\ forall i, 0 <= i < o -> Z.testbit v i = false
  | None => forall i, Z.testbit v i = false
  end.
Proof.
  intros Hv Hlo Hlow. unfold rte_bsf64. destruct (Z.eqb_spec v 0) as [->|Hnz]; [apply Z.bits_0|].
  by apply lowest_bit.
Qed.

(** The bits above the current one. *)
Lemma mask1_bit b i : 0 <= offset1 b < 64 -> 0 <= i < 64 -> Z.testbit (rte_bitmap_mask1_get b) i = (offset1 b <? i).
Proof.
  intros Ho Hi. unfold rte_bitmap_mask1_get, u64, wrap. rewrite Z.mod_pow2_bits_low, Z.shiftl_spec by lia.
  destruct (Z.ltb_spec (offset1 b) i) as [Hl|Hl].
  - rewrite Z.mod_pow2_bits_low, Z.lnot_spec by lia. destruct (i - offset1 b) as [|p|p] eqn:E; [lia| |lia]. by destruct p.
  - destruct (decide (i = offset1 b)) as [->|]; [|by rewrite Z.testbit_neg_r by lia]. by rewrite Z.sub_diag.
Qed.

Lemma inc_ok b : arrays_inv b -> 0 <= index1 b < array1_size b ->
  rte_bitmap_index1_inc b = set_scan b ((index1 b + 1) mod array1_size b) (offset1 b) (index2 b) (go2 b).
Proof.
  intros HA Hi. pose proof (arrays_size b HA). destruct (ba_size _ HA) as (k&Hk&E).
  unfold rte_bitmap_index1_inc. rewrite !u32_small by lia. rewrite E.
  replace (2 ^ k - 1) with (Z.ones k) by (rewrite Z.ones_equiv; lia). by rewrite Z.land_ones by lia.
Qed.

Definition at_line (b : rte_bitmap) (i o : Z) : rte_bitmap := set_scan b i o (index2 b) (go2 b).

(** The loop over [n] slabs of [array1] from [index1]. *)
Definition search_post (b : rte_bitmap) (n : Z) (res : rte_bitmap * bool) : Prop :=
  let slab m := array1 b !!! ((index1 b + m) mod array1_size b) in
  match res with
  | (b', true) => exists m o, 0 <= m < n /\ 0 <= o < 64 /\ Z.testbit (slab m) o = true /\
      (forall m', 0 <= m' < m -> slab m' = 0) /\ (forall i, 0 <= i < o -> Z.testbit (slab m) i = false) /\
      b' = at_line b ((index1 b + m) mod array1_size b) o
  | (b', false) => (forall m', 0 <= m' < n -> slab m' = 0) /\ b' = at_line b ((index1 b + n) mod array1_size b) (offset1 b)
  end.

Lemma at_line_id b : at_line b (index1 b) (offset1 b) = b.
Proof. by destruct b. Qed.

Lemma search_loop_ok n b :
  arrays_inv b -> 0 <= index1 b < array1_size b -> search_post b (Z.of_nat n) (search_loop n b).
Proof.
  revert b. induction n as [|n IH]; intros b HA Hi.
  { cbn. split; [lia|]. rewrite Z.add_0_r, Z.mod_small by done. by rewrite at_line_id. }
  cbn [search_loop]. pose proof (bsf64_spec (array1 b !!! index1 b) 0 (ba_range1 _ HA _) ltac:(lia) ltac:(lia)) as Hb.
  destruct (rte_bsf64 _) as [o|].
  - destruct Hb as (Ho&Ht&Hlow). exists 0, o. rewrite Z.add_0_r, Z.mod_small by done. split; [lia|]. split_and!; try done; lia.
  - rewrite inc_ok by done. set (b1 := set_scan b _ _ _ _).
    assert (Hz : array1 b !!! index1 b = 0) by (apply mask_zero; [apply HA|done]).
    assert (HA1 : arrays_inv b1) by (by destruct HA; split).
    assert (Hi1 : 0 <= index1 b1 < array1_size b1) by (cbn; apply Z.mod_pos_bound; lia).
    specialize (IH b1 HA1 Hi1).
    assert (Em : forall m, (index1 b1 + m) mod array1_size b1 = (index1 b + (m + 1)) mod array1_size b).
    { intros m. cbn. rewrite Zplus_mod_idemp_l. f_equal. lia. }
    unfold search_post in IH |- *. destruct (search_loop n b1) as [b' [|]].
    + destruct IH as (m&o&Hm&Ho&Ht&Hz'&Hlow&->). rewrite Em in *. exists (m + 1), o.
      split; [lia|]. split; [done|]. split; [done|]. split; [|done].
      intros m' Hm'. destruct (decide (m' = 0)) as [->|]; [by rewrite Z.add_0_r, Z.mod_small|].
      specialize (Hz' (m' - 1) ltac:(lia)). rewrite Em, Z.sub_add in Hz'. exact Hz'.
    + destruct IH as [Hz' ->]. rewrite Em. split.
      * intros m' Hm'. destruct (decide (m' = 0)) as [->|]; [by rewrite Z.add_0_r, Z.mod_small|].
        specialize (Hz' (m' - 1) ltac:(lia)). rewrite Em, Z.sub_add in Hz'. exact Hz'.
      * unfold at_line. cbn. f_equal. f_equal. lia.
Qed.

(** A line is [m] slabs of [array1] after the next one; [o] is its bit. *)
Lemma line_distance n i0 off i o m :
  0 < n -> 0 <= i0 < n -> 0 <= off < 64 -> 0 <= o < 64 -> 0 <= m < n -> i = (i0 + 1 + m) mod n ->
  (m = n - 1 -> o <= off) ->
  (i * 64 + o - (i0 * 64 + off + 1)) mod (n * 64) = 64 * (m + 1) + o - off - 1.
Proof.
  intros Hn Hi0 Ho Hof Hm -> Hlast.
  pose proof (Z.div_mod (i0 + 1 + m) n ltac:(lia)). pose proof (Z.mod_pos_bound (i0 + 1 + m) n ltac:(lia)).
  set (q := (i0 + 1 + m) / n) in *. set (r := (i0 + 1 + m) mod n) in *.
  symmetry. apply (Z.mod_unique _ _ (- q)); [left|]; nia.
Qed.

Lemma line_split l : l = l / 64 * 64 + l mod 64 /\ 0 <= l mod 64 < 64.
Proof. pose proof (Z.div_mod l 64). pose proof (Z.mod_pos_bound l 64). lia. Qed.

(** How far the slab [i] of [array1] is from the one after [i0]. *)
Lemma slab_distance n i0 i : 0 < n -> 0 <= i < n ->
  exists m, 0 <= m < n /\ i = (i0 + 1 + m) mod n.
Proof.
  intros Hn Hi. exists ((i - (i0 + 1)) mod n). split; [apply Z.mod_pos_bound; lia|].
  rewrite Zplus_mod_idemp_r. replace (i0 + 1 + (i - (i0 + 1))) with i by lia. by rewrite Z.mod_small.
Qed.

Definition line_post (b : rte_bitmap) (res : rte_bitmap * bool) : Prop :=
  match res with
  | (b', true) => exists l, first_from (lines b) (line b + 1) (fun l => line_bit b l = true) l /\
      b' = at_line b (l / 64) (l mod 64)
  | (b', false) => (forall l, 0 <= l < lines b -> line_bit b l = false) /\
      exists i, 0 <= i < array1_size b /\ b' = at_line b i 0
  end.

Lemma line_of_io i o : 0 <= o < 64 -> (i * 64 + o) / 64 = i /\ (i * 64 + o) mod 64 = o.
Proof. intros Ho. rewrite Z.add_comm, Z.mod_add, Z.div_add by lia. by rewrite Z.div_small, Z.mod_small. Qed.

(** The bits of the current slab above the current line. *)
Lemma masked_bit b i :
  arrays_inv b -> 0 <= offset1 b < 64 -> 0 <= i < 64 ->
  Z.testbit (Z.land (array1 b !!! index1 b) (rte_bitmap_mask1_get b)) i =
  Z.testbit (array1 b !!! index1 b) i && (offset1 b <? i).
Proof. intros HA Ho Hi. by rewrite Z.land_spec, mask1_bit. Qed.

(** The next line is in the current slab. *)
Lemma search_current b o (v := Z.land (array1 b !!! index1 b) (rte_bitmap_mask1_get b)) :
  arrays_inv b -> 0 <= index1 b < array1_size b -> 0 <= offset1 b < 64 -> 0 <= o < 64 ->
  Z.testbit v o = true -> (forall i, 0 <= i < o -> Z.testbit v i = false) ->
  line_post b (at_line b (index1 b) o, true).
Proof.
  intros HA Hi Ho Ho' Ht Hlow. pose proof (arrays_size b HA) as Hn.
  pose proof (fun i => masked_bit b i HA Ho) as Hvb. fold v in Hvb.
  rewrite Hvb in Ht by done. apply andb_true_iff in Ht as [Ht Hgt%Z.ltb_lt].
  exists (index1 b * 64 + o). destruct (line_of_io (index1 b) o Ho') as [E1 E2]. rewrite E1, E2. split; [|done].
  unfold line_bit, lines, line. split; [nia|]. split; [by rewrite E1, E2|]. intros l Hl Hbit.
  destruct (line_split l) as [El Hlo]. set (i' := l / 64) in *. set (o' := l mod 64) in *.
  destruct (slab_distance (array1_size b) (index1 b) i') as (m&Hm&Em); [lia|nia|].
  replace (index1 b * 64 + o - (index1 b * 64 + offset1 b + 1)) with (o - offset1 b - 1) by lia.
  rewrite Z.mod_small by nia.
  destruct (decide (m = array1_size b - 1 /\ offset1 b < o')) as [[Em1 Hoo]|Hno].
  + assert (Ei : i' = index1 b).
    { rewrite Em, Em1. replace (index1 b + 1 + (array1_size b - 1)) with (index1 b + 1 * array1_size b) by lia.
      by rewrite Z_mod_plus_full, Z.mod_small. }
    destruct (decide (o' < o)) as [Hlt|Hge].
    { specialize (Hlow o' ltac:(lia)). rewrite Hvb in Hlow by lia. rewrite Ei in Hbit. rewrite Hbit in Hlow.
      cbn in Hlow. apply Z.ltb_ge in Hlow. lia. }
    rewrite El, Ei. replace (index1 b * 64 + o' - (index1 b * 64 + offset1 b + 1)) with (o' - offset1 b - 1) by lia.
    rewrite Z.mod_small by nia. lia.
  + rewrite El. rewrite (line_distance _ _ _ _ _ m); lia || done.
Qed.

(** The next line is in a later slab, or in the current one below the current
    line. *)
Lemma search_later b (b2 := at_line b ((index1 b + 1) mod array1_size b) 0) :
  arrays_inv b -> 0 <= index1 b < array1_size b -> 0 <= offset1 b < 64 ->
  (forall o, offset1 b < o < 64 -> Z.testbit (array1 b !!! index1 b) o = false) ->
  line_post b (search_loop (Z.to_nat (array1_size b)) b2).
Proof.
  intros HA Hi Ho Habove. pose proof (arrays_size b HA) as Hn. set (n := array1_size b) in *.
  assert (HA2 : arrays_inv b2) by (by destruct HA; split).
  assert (Hi2 : 0 <= index1 b2 < array1_size b2) by (cbn; apply Z.mod_pos_bound; lia).
  pose proof (search_loop_ok (Z.to_nat n) b2 HA2 Hi2) as Hs. rewrite Z2Nat.id in Hs by lia.
  assert (Em : forall m, (index1 b2 + m) mod array1_size b2 = (index1 b + 1 + m) mod n).
  { intros m. cbn. by rewrite Zplus_mod_idemp_l. }
  assert (Hself : forall m, 0 <= m < n -> m = n - 1 -> (index1 b + 1 + m) mod n = index1 b).
  { intros m _ ->. replace (index1 b + 1 + (n - 1)) with (index1 b + 1 * n) by lia. by rewrite Z_mod_plus_full, Z.mod_small. }
  unfold search_post in Hs. destruct (search_loop _ b2) as [b' [|]].
  + destruct Hs as (m&o&Hm&Ho'&Ht&Hz&Hlow&->). change (array1_size b2) with n in *. change (array1 b2) with (array1 b) in *.
    rewrite Em in Ht, Hlow |- *. set (i := (index1 b + 1 + m) mod n) in *.
    assert (Hir : 0 <= i < n) by (apply Z.mod_pos_bound; lia).
    exists (i * 64 + o). destruct (line_of_io i o Ho') as [E1 E2]. rewrite E1, E2. split; [|done].
    unfold line_bit, lines, line. fold n. split; [nia|]. split; [by rewrite E1, E2|]. intros l Hl Hbit.
    assert (Hlast : m = n - 1 -> o <= offset1 b).
    { intros Elast. destruct (decide (o <= offset1 b)); [done|]. unfold i in Ht. rewrite Hself in Ht by done.
      by rewrite Habove in Ht by lia. }
    rewrite (line_distance n (index1 b) (offset1 b) i o m) by (done || lia).
    destruct (line_split l) as [El Hlo]. set (i' := l / 64) in *. set (o' := l mod 64) in *.
    destruct (slab_distance n (index1 b) i') as (m'&Hm'&Em'); [lia|nia|].
    rewrite El, (line_distance n (index1 b) (offset1 b) i' o' m'); try done; try lia.
    * destruct (decide (m' < m)) as [Hlt|Hge].
      { specialize (Hz m' ltac:(lia)). rewrite Em, <- Em' in Hz. rewrite Hz, Z.bits_0 in Hbit. done. }
      destruct (decide (m' = m)) as [->|]; [|lia]. destruct (decide (o' < o)); [|lia].
      specialize (Hlow o' ltac:(lia)). unfold i in Hlow. rewrite <- Em', Hbit in Hlow. done.
    * intros Elast. destruct (decide (o' <= offset1 b)); [done|]. rewrite Em', Hself in Hbit by done.
      by rewrite Habove in Hbit by lia.
  + destruct Hs as [Hz ->]. split.
    * intros l Hl. unfold line_bit. destruct (line_split l) as [El Hlo]. unfold lines in Hl. fold n in Hl.
      destruct (slab_distance n (index1 b) (l / 64)) as (m&Hm&Em'); [lia|nia|].
      specialize (Hz m Hm). rewrite Em, <- Em' in Hz. cbn in Hz. by rewrite Hz, Z.bits_0.
    * eexists. split; [|done]. apply Z.mod_pos_bound. cbn. lia.
Qed.

Lemma scan_search_ok b :
  arrays_inv b -> 0 <= index1 b < array1_size b -> 0 <= offset1 b < 64 -> line_post b (rte_bitmap_scan_search b).
Proof.
  intros HA Hi Ho. unfold rte_bitmap_scan_search. set (v := Z.land _ _).
  pose proof (bsf64_spec v 0 ltac:(apply land_range, HA) ltac:(lia) ltac:(lia)) as Hb. destruct (rte_bsf64 v) as [o|].
  - destruct Hb as (Ho'&Ht&Hlow). by apply search_current.
  - rewrite inc_ok by done. apply search_later; [done|done|done|].
    intros o' Hoo. specialize (Hb o'). unfold v in Hb. rewrite masked_bit, (proj2 (Z.ltb_lt _ _)) in Hb by (done || lia).
    by rewrite andb_true_r in Hb.
Qed.

(** ** The scan *)

(** The distance of a slab from a cursor in line [l0], from the distance of its
    line. *)
Lemma cursor_distance n l0 c s :
  0 < n -> 0 <= l0 < n -> 8 * l0 < c <= 8 * l0 + 8 -> 0 <= s < n * 8 -> (s / 8 = l0 -> s < c) ->
  (s - c) mod (n * 8) = 8 * ((s / 8 - (l0 + 1)) mod n) + (s - 8 * (s / 8)) + (8 * l0 + 8 - c).
Proof.
  intros Hn Hl Hc Hs Hin. pose proof (slab_line s). set (l := s / 8) in *.
  pose proof (Z.div_mod (l - (l0 + 1)) n ltac:(lia)). pose proof (Z.mod_pos_bound (l - (l0 + 1)) n ltac:(lia)).
  set (q := (l - (l0 + 1)) / n) in *. set (d := (l - (l0 + 1)) mod n) in *.
  symmetry. apply (Z.mod_unique _ _ q); [left|]; [|nia]. split; [nia|].
  destruct (decide (d = n - 1)) as [Ed|]; [|nia].
  assert (0 <= l < n) by lia. assert (l - l0 = n * (q + 1)) by lia. assert (q + 1 = 0) by nia.
  specialize (Hin ltac:(lia)). lia.
Qed.

Lemma index2_set_ok b : 0 <= index1 b < 2 ^ 17 -> 0 <= offset1 b < 64 ->
  rte_bitmap_index2_set b = at_slab b (8 * line b) (go2 b).
Proof.
  intros Hi Ho. unfold rte_bitmap_index2_set, at_slab, line, RTE_BITMAP_SLAB_BIT_SIZE_LOG2, RTE_BITMAP_CL_SLAB_SIZE_LOG2.
  rewrite !Z.shiftl_mul_pow2 by lia. rewrite (u32_small (index1 b * 2 ^ 6)), (u32_small (_ + offset1 b)) by lia.
  rewrite u32_small by lia. f_equal. lia.
Qed.

(** The arrays are the same. *)
Definition same_bits (b b' : rte_bitmap) : Prop :=
  array1 b' = array1 b /\ array2 b' = array2 b /\ array1_size b' = array1_size b /\ array2_size b' = array2_size b.

Lemma same_bits_arrays b b' : same_bits b b' -> arrays_inv b -> arrays_inv b'.
Proof.
  intros (E1&E2&E3&E4) [? ? ? ? ? ?]. split; unfold slabs, lines, line_bit in *; rewrite ?E1, ?E2, ?E3, ?E4; done.
Qed.

Definition nonempty (b : rte_bitmap) (s : Z) : Prop := array2 b !!! s <> 0.

Definition scan_post (b : rte_bitmap) (res : rte_bitmap * option (option (Z * Z))) : Prop :=
  let '(b', r) := res in
  bm_inv b' /\ same_bits b b' /\
  match r with
  | Some (Some (pos, slab)) => exists s, first_from (slabs b) (cursor b) (nonempty b) s /\
      pos = 64 * s /\ slab = array2 b !!! s /\ cursor b' = s + 1
  | Some None => False
  | None => forall s, array2 b !!! s = 0
  end.

(** The scan stopped behind the slab [s]. *)
Lemma stop_ok b s :
  arrays_inv b -> 0 <= index1 b < array1_size b -> 0 <= offset1 b < 64 -> s / 8 = line b ->
  let b' := at_slab b (s + 1) ((s + 1) mod 8) in bm_inv b' /\ cursor b' = s + 1.
Proof.
  intros HA Hi Ho Es. cbv zeta. pose proof (slab_line s). rewrite Es in *.
  pose proof (Z.div_mod (s + 1) 8). pose proof (Z.mod_pos_bound (s + 1) 8).
  set (b' := at_slab b (s + 1) ((s + 1) mod 8)).
  assert (El : line b' = line b) by done. split.
  - split; [by apply (same_bits_arrays b)|done|done|]. rewrite El. cbn. lia.
  - unfold cursor. rewrite El. cbn. destruct (Z.eqb_spec ((s + 1) mod 8) 0); [|done]. lia.
Qed.

(** The first slab of the first line after the current one; the slabs from the
    cursor to the end of the current line are empty. *)
Lemma first_of_line b l s :
  bm_inv b -> (forall s', cursor b <= s' < 8 * line b + 8 -> array2 b !!! s' = 0) ->
  first_from (lines b) (line b + 1) (fun l => line_bit b l = true) l ->
  8 * l <= s < 8 * l + 8 -> array2 b !!! s <> 0 -> (forall s', 8 * l <= s' < s -> array2 b !!! s' = 0) ->
  first_from (slabs b) (cursor b) (nonempty b) s.
Proof.
  intros [HA Hi Ho Hg] Hrest (Hl&_&Hmin) Hs Hnz Hz.
  assert (Hc : 8 * line b < cursor b <= 8 * line b + 8).
  { unfold cursor. destruct (Z.eqb_spec (go2 b) 0); [lia|]. specialize (Hg ltac:(done)). lia. }
  assert (Hln : 0 <= line b < lines b) by (unfold line, lines; nia).
  assert (ET : slabs b = lines b * 8) by (unfold slabs, lines; lia).
  assert (Hout : forall s', array2 b !!! s' <> 0 -> s' / 8 = line b -> s' < cursor b).
  { intros s' Hs' El. destruct (decide (s' < cursor b)); [done|]. pose proof (slab_line s').
    destruct Hs'. apply Hrest. lia. }
  assert (Esl : s / 8 = l) by (pose proof (slab_line s); lia).
  split; [rewrite ET; lia|]. split; [done|]. intros s' Hs' Hnz'. rewrite ET in *.
  rewrite !(cursor_distance (lines b) (line b)) by (done || lia || by apply Hout).
  rewrite Esl. destruct (slab_line_bit b s' HA Hnz') as [Hl' Hb']. specialize (Hmin _ Hl' Hb').
  pose proof (slab_line s'). set (l' := s' / 8) in *. unfold lines in *.
  pose proof (Z.mod_pos_bound (l - (line b + 1)) (array1_size b * 64) ltac:(lia)).
  destruct (decide (l' = l)) as [E|Hne].
  - rewrite E in *. destruct (decide (s' < s)); [|lia]. destruct Hnz'. apply Hz. lia.
  - assert ((l - (line b + 1)) mod (array1_size b * 64) <> (l' - (line b + 1)) mod (array1_size b * 64)); [|lia].
    destruct (decide (l < l')); [apply mod_distinct; lia|]. apply not_eq_sym, mod_distinct. lia.
Qed.

(** The scan returns the first slab with a set bit, from the cursor on in
    cyclic order, and moves the cursor behind it. *)
Lemma scan_ok b : bm_inv b -> scan_post b (rte_bitmap_scan b).
Proof.
  intros HI. pose proof HI as [HA Hi Ho Hg]. pose proof (arrays_size b HA) as Hn.
  assert (Hl : 0 <= line b < 2 ^ 23) by (unfold line; nia).
  unfold rte_bitmap_scan. assert (Hread : read_post (at_slab b (cursor b) (go2 b)) (line b) (rte_bitmap_scan_read b)).
  { unfold cursor. destruct (Z.eqb_spec (go2 b) 0) as [E|E].
    - unfold rte_bitmap_scan_read. cbn [scan_read_loop]. rewrite E. cbn. split; [lia|]. exists (index2 b).
      unfold at_slab, set_scan. cbn. rewrite <- E. by destruct b.
    - specialize (Hg E). replace (at_slab b (index2 b) (go2 b)) with b by by destruct b.
      apply read_loop_ok; lia. }
  destruct (rte_bitmap_scan_read b) as [b1 [[pos slab]|]]; cbn in Hread.
  - destruct Hread as (s&Hs&Hnz&Hz&->&->&->).
    assert (Hc : 8 * line b < cursor b) by (unfold cursor in *; destruct (Z.eqb_spec (go2 b) 0); [|specialize (Hg ltac:(done))]; lia).
    assert (Esl : s / 8 = line b) by (pose proof (slab_line s); lia).
    destruct (stop_ok b s HA Hi Ho Esl) as [HI' Hcur]. split; [done|]. split; [done|]. exists s. split; [|done].
    pose proof (slab_range b s HA Hnz). pose proof (ba_size2 _ HA).
    split; [lia|]. split; [done|]. intros y Hy Hny. rewrite (Z.mod_small (s - cursor b)) by lia.
    destruct (decide (y < cursor b)).
    + rewrite <- (Z_mod_plus_full _ 1), Z.mod_small by lia. lia.
    + rewrite Z.mod_small by lia. destruct (decide (y < s)); [|lia]. destruct Hny. apply Hz. lia.
  - destruct Hread as [Hz (i&->)]. change (at_slab (at_slab b _ _) i 0) with (at_slab b i 0). set (b1 := at_slab b i 0).
    assert (HA1 : arrays_inv b1) by (by apply (same_bits_arrays b)).
    pose proof (scan_search_ok b1 HA1 Hi Ho) as Hs. destruct (rte_bitmap_scan_search b1) as [b2 [|]].
    + destruct Hs as (l&Hfirst&->). pose proof Hfirst as (Hlr&Hlb&_). change (lines b1) with (lines b) in Hlr. unfold lines in Hlr.
      destruct (line_split l) as [El Hlo]. set (b2 := at_line b1 (l / 64) (l mod 64)).
      assert (Eline : line b2 = l) by (unfold line; cbn; lia).
      unfold rte_bitmap_scan_read_init. rewrite index2_set_ok by (cbn; lia). rewrite Eline. cbv zeta.
      set (b3 := set_scan _ _ _ _ 1).
      pose proof (read_loop_ok 9 b3 l ltac:(lia) ltac:(cbn; lia) ltac:(cbn; lia) ltac:(cbn; lia)) as Hr.
      unfold rte_bitmap_scan_read. destruct (scan_read_loop 9 b3) as [b4 [[pos slab]|]]; cbn in Hr.
      * destruct Hr as (s&Hs&Hnz&Hzs&->&->&->). assert (Esl : s / 8 = line b3) by (unfold line; cbn; pose proof (slab_line s); lia).
        destruct (stop_ok b3 s) as [HI' Hcur]; [by apply (same_bits_arrays b)|cbn; nia|cbn; lia|done|].
        split; [done|]. split; [done|]. exists s. split; [|done]. by apply (first_of_line b l s).
      * exfalso. destruct Hr as [Hr _]. apply (ba_lines _ HA) in Hlb as (s&Es&Hnz); [|done].
        apply Hnz, Hr. pose proof (slab_line s). lia.
    + destruct Hs as [Hnone (i1&Hi1&->)]. split; [split; [by apply (same_bits_arrays b)|done|cbn; lia|done]|].
      split; [done|]. intros s. destruct (decide (array2 b !!! s = 0)) as [|Hnz]; [done|].
      destruct (slab_line_bit b s HA Hnz) as [Hr Hb]. specialize (Hnone _ Hr). change (line_bit b1) with (line_bit b) in Hnone. congruence.
Qed.

(** ** Changing bits *)

Definition bit (b : rte_bitmap) (pos : Z) : bool := Z.testbit (array2 b !!! (pos / 64)) (pos mod 64).

Lemma or_cell_lookup t i v j : or_cell t i v !!! j = if decide (i = j) then Z.lor (t !!! j) v else t !!! j.
Proof. unfold or_cell. rewrite lookup_total_insert. case_decide; [by subst|done]. Qed.

Lemma lor_range a b : 0 <= a < 2 ^ 64 -> 0 <= b < 2 ^ 64 -> 0 <= Z.lor a b < 2 ^ 64.
Proof. intros Ha Hb. apply mask_range. intros i Hi. rewrite Z.lor_spec, !high_bit by done. done. Qed.

Lemma shift1_range o : 0 <= o < 64 -> 0 <= Z.shiftl 1 o < 2 ^ 64.
Proof. intros Ho. rewrite Z.shiftl_1_l. split; [lia|]. apply Z.pow_lt_mono_r; lia. Qed.

Lemma div64_line l : l / 64 * 64 <= l < l / 64 * 64 + 64.
Proof. pose proof (Z.div_mod l 64). pose proof (Z.mod_pos_bound l 64). lia. Qed.

Lemma set_slab_arrays b pos v :
  arrays_inv b -> 0 <= pos < array2_size b * 64 -> 0 < v < 2 ^ 64 -> arrays_inv (rte_bitmap_set_slab b pos v).
Proof.
  intros HA Hpos Hv. pose proof HA as [Hs Hs2 Hz H1 H2 Hl].
  assert (Hi : 0 <= pos / 64 < array2_size b) by (split; [apply Z.div_pos; lia|apply Z.div_lt_upper_bound; lia]).
  assert (Hlp : 0 <= pos / 512 < lines b).
  { rewrite line_of_pos. pose proof (slab_line (pos / 64)). unfold lines, slabs in *. lia. }
  split; cbn [array1 array2 array1_size array2_size rte_bitmap_set_slab set_arrays]; autorewrite with bitmap; try done.
  - intros i Hi'. rewrite or_cell_lookup, decide_False by lia. by apply Hz.
  - intros i. rewrite or_cell_lookup. case_decide; [|apply H1].
    apply lor_range; [apply H1|apply shift1_range, Z.mod_pos_bound; lia].
  - intros i. rewrite or_cell_lookup. case_decide; [|apply H2]. apply lor_range; [apply H2|lia].
  - intros l Hlr. change (lines _) with (lines b) in Hlr.
    assert (Eb : line_bit (rte_bitmap_set_slab b pos v) l = line_bit b l || bool_decide (l = pos / 512)).
    { unfold line_bit, rte_bitmap_set_slab. cbn [array1 set_arrays]. autorewrite with bitmap. rewrite or_cell_lookup.
      destruct (line_split l) as [El Ho]. destruct (line_split (pos / 512)) as [El' Ho'].
      case_decide as E.
      - change 1 with (Z.b2z true). rewrite testbit_lor_shift by lia. rewrite andb_true_r. f_equal.
        apply bool_decide_ext. lia.
      - rewrite bool_decide_false by congruence. by rewrite orb_false_r. }
    rewrite Eb, orb_true_iff, bool_decide_eq_true, Hl by done. clear Eb. split.
    + intros [(s&Es&Hnz)| ->].
      * exists s. split; [done|]. rewrite or_cell_lookup. case_decide; [|done]. rewrite Z.lor_eq_0_iff. tauto.
      * exists (pos / 64). split; [by rewrite line_of_pos|]. rewrite or_cell_lookup, decide_True by done.
        rewrite Z.lor_eq_0_iff. lia.
    + intros (s&Es&Hnz). rewrite or_cell_lookup in Hnz. case_decide as E; [right|left].
      * by rewrite line_of_pos, E.
      * by exists s.
Qed.

Lemma set_slab_bit b pos v q :
  0 <= v ->
  bit (rte_bitmap_set_slab b pos v) q = bit b q || (bool_decide (q / 64 = pos / 64) && Z.testbit v (q mod 64)).
Proof.
  intros Hv. unfold bit, rte_bitmap_set_slab. cbn [array2 set_arrays]. autorewrite with bitmap. rewrite or_cell_lookup.
  case_decide as E.
  - rewrite bool_decide_true by done. by rewrite Z.lor_spec.
  - rewrite bool_decide_false by congruence. by rewrite orb_false_r.
Qed.

Lemma set_is_slab b pos : rte_bitmap_set b pos = rte_bitmap_set_slab b pos (Z.shiftl 1 (pos_offset2 pos)).
Proof. done. Qed.

Lemma set_bit b pos q : bit (rte_bitmap_set b pos) q = bit b q || bool_decide (q = pos).
Proof.
  rewrite set_is_slab. pose proof (Z.mod_pos_bound pos 64 ltac:(lia)). pose proof (Z.mod_pos_bound q 64 ltac:(lia)).
  autorewrite with bitmap. rewrite set_slab_bit by (apply shift1_range; lia). f_equal.
  rewrite Z.shiftl_1_l, Z.pow2_bits_eqb by lia. apply eq_iff_eq_true.
  rewrite andb_true_iff, !bool_decide_eq_true, Z.eqb_eq.
  pose proof (Z.div_mod pos 64). pose proof (Z.div_mod q 64). split; [|by intros ->]. intros []. lia.
Qed.

Lemma get_bit b pos : rte_bitmap_get b pos <> 0 <-> bit b pos = true.
Proof.
  unfold rte_bitmap_get, bit. autorewrite with bitmap. pose proof (Z.mod_pos_bound pos 64 ltac:(lia)).
  set (x := array2 b !!! (pos / 64)). set (o := pos mod 64) in *. split.
  - intros Hnz. destruct (Z.testbit x o) eqn:E; [done|]. destruct Hnz. apply Z.bits_inj'. intros i Hi.
    rewrite Z.land_spec, Z.shiftl_1_l, Z.pow2_bits_eqb, Z.bits_0 by lia. destruct (Z.eqb_spec o i) as [<-|]; [by rewrite E|apply andb_false_r].
  - intros E Hz. apply (f_equal (fun z => Z.testbit z o)) in Hz.
    rewrite Z.land_spec, Z.shiftl_1_l, Z.pow2_bits_eqb, Z.bits_0, E, Z.eqb_refl in Hz by lia. done.
Qed.

Lemma line_not_empty_spec t i :
  rte_bitmap_line_not_empty t i = 0 <-> forall s, i <= s < i + 8 -> t !!! s = 0.
Proof.
  unfold rte_bitmap_line_not_empty. rewrite !Z.lor_eq_0_iff. split.
  - intros (((?&?)&(?&?))&((?&?)&(?&?))) s Hs.
    assert (s = i \/ s = i + 1 \/ s = i + 2 \/ s = i + 3 \/ s = i + 4 \/ s = i + 5 \/ s = i + 6 \/ s = i + 7) as Hc by lia.
    by destruct Hc as [->|[->|[->|[->|[->|[->|[->| ->]]]]]]].
  - intros Hz. split_and!; apply Hz; lia.
Qed.

Lemma line_start i : 0 <= i < 2 ^ 32 -> Z.land i (u32 (Z.lnot RTE_BITMAP_CL_SLAB_MASK)) = 8 * (i / 8).
Proof.
  intros Hi. unfold u32, wrap. rewrite <- Z.land_ones by lia.
  rewrite (Z.land_comm (Z.lnot _)), Z.land_assoc, (Z.land_ones i), Z.mod_small by lia.
  change (Z.lnot RTE_BITMAP_CL_SLAB_MASK) with (- 2 ^ 3). rewrite land_neg_pow2 by lia. change (2 ^ 3) with 8. lia.
Qed.

(** The slab without the bit, and the line bit cleared when the line is empty. *)
Definition cleared (b : rte_bitmap) (pos : Z) : gmap Z Z :=
  <[pos / 64 := clear_bit (array2 b !!! (pos / 64)) (pos mod 64)]> (array2 b).

Lemma clear_cases b pos (l := pos / 512) :
  0 <= pos < 2 ^ 32 ->
  (rte_bitmap_clear b pos = set_arrays b (array1 b) (cleared b pos) /\
   exists s, s / 8 = l /\ cleared b pos !!! s <> 0) \/
  (rte_bitmap_clear b pos =
     set_arrays b (<[l / 64 := clear_bit (array1 b !!! (l / 64)) (l mod 64)]> (array1 b)) (cleared b pos) /\
   forall s, s / 8 = l -> cleared b pos !!! s = 0).
Proof.
  intros Hpos. unfold rte_bitmap_clear. autorewrite with bitmap. cbv zeta.
  assert (Hi : 0 <= pos / 64 < 2 ^ 32) by (split; [apply Z.div_pos; lia|apply Z.div_lt_upper_bound; lia]).
  fold (cleared b pos). rewrite line_start by done. unfold l. rewrite !line_of_pos. fold l.
  assert (Es : cleared b pos !!! (pos / 64) = clear_bit (array2 b !!! (pos / 64)) (pos mod 64)) by apply lookup_total_insert_eq.
  destruct (Z.eqb_spec (clear_bit (array2 b !!! (pos / 64)) (pos mod 64)) 0) as [E|E]; cbn [negb].
  2:{ left. split; [done|]. exists (pos / 64). split; [done|]. by rewrite Es. }
  destruct (Z.eqb_spec (rte_bitmap_line_not_empty (cleared b pos) (8 * (pos / 64 / 8))) 0) as [En|En]; cbn [negb].
  - right. split; [done|]. rewrite line_not_empty_spec in En. intros s Hs. apply En. pose proof (slab_line s). lia.
  - left. split; [done|]. destruct (decide (Exists (fun s => cleared b pos !!! s <> 0) (seqZ (8 * (pos / 64 / 8)) 8))) as [Hex|Hno].
    + apply Exists_exists in Hex as (s&Hs%elem_of_seqZ&Hnz). exists s. split; [|done]. pose proof (slab_line s). lia.
    + destruct En. apply line_not_empty_spec. intros s Hs. destruct (decide (cleared b pos !!! s = 0)); [done|].
      destruct Hno. apply Exists_exists. exists s. split; [apply elem_of_seqZ; lia|done].
Qed.

Lemma cleared_zero b pos s : array2 b !!! s = 0 -> cleared b pos !!! s = 0.
Proof.
  intros Hz. unfold cleared. rewrite lookup_total_insert. case_decide as E; [|done]. rewrite E, Hz. done.
Qed.

Lemma cleared_range b pos s : arrays_inv b -> 0 <= cleared b pos !!! s < 2 ^ 64.
Proof. intros HA. unfold cleared. rewrite lookup_total_insert. case_decide; [apply clear_bit_range|]; apply HA. Qed.

(** Other lines keep their slabs. *)
Lemma cleared_other b pos s : s / 8 <> pos / 512 -> cleared b pos !!! s = array2 b !!! s.
Proof.
  intros Hs. unfold cleared. rewrite lookup_total_insert_ne; [done|]. intros <-. by rewrite line_of_pos in Hs.
Qed.

Lemma clear_arrays b pos :
  arrays_inv b -> 0 <= pos < array2_size b * 64 -> arrays_inv (rte_bitmap_clear b pos).
Proof.
  intros HA Hpos. pose proof HA as [Hs Hs2 Hz H1 H2 Hl]. pose proof (arrays_size b HA) as Hn.
  assert (Hlp : 0 <= pos / 512 < lines b).
  { rewrite line_of_pos. pose proof (slab_line (pos / 64)).
    assert (0 <= pos / 64 < array2_size b) by (split; [apply Z.div_pos; lia|apply Z.div_lt_upper_bound; lia]).
    unfold lines, slabs in *. lia. }
  destruct (clear_cases b pos) as [[-> Hex]|[-> Hall]]; [unfold slabs in *; lia|..].
  - split; cbn [array1 array2 array1_size array2_size set_arrays]; try done.
    + intros i Hi. by apply cleared_zero, Hz.
    + intros i. by apply cleared_range.
    + intros l Hlr. change (line_bit _ l) with (line_bit b l). rewrite Hl by done.
      destruct (decide (l = pos / 512)) as [->|Hne].
      * split; [done|]. intros _. destruct Hex as (s&Es&Hnz). exists s. split; [done|].
        intros E. by apply Hnz, cleared_zero.
      * split; intros (s&Es&Hnz); exists s; (split; [done|]); [rewrite cleared_other by congruence|rewrite cleared_other in Hnz by congruence]; done.
  - split; cbn [array1 array2 array1_size array2_size set_arrays]; try done.
    + intros i Hi. by apply cleared_zero, Hz.
    + intros i. rewrite lookup_total_insert. case_decide; [apply clear_bit_range|]; apply H1.
    + intros i. by apply cleared_range.
    + intros l Hlr. change (lines _) with (lines b) in Hlr. set (b' := set_arrays _ _ _).
      assert (Eb : line_bit b' l = line_bit b l && negb (bool_decide (l = pos / 512))).
      { unfold line_bit, b'. cbn [array1 set_arrays]. rewrite lookup_total_insert.
        destruct (line_split l) as [El Ho]. destruct (line_split (pos / 512)) as [El' Ho']. case_decide as E.
        - rewrite clear_bit_spec by (apply H1 || lia). rewrite <- E at 1. do 2 f_equal. apply bool_decide_ext. lia.
        - rewrite bool_decide_false by congruence. by rewrite andb_true_r. }
      rewrite Eb, andb_true_iff, negb_true_iff, bool_decide_eq_false, Hl by done. clear Eb. split.
      * intros [(s&Es&Hnz) Hne]. exists s. split; [done|]. by rewrite cleared_other by congruence.
      * intros (s&Es&Hnz). assert (Hne : l <> pos / 512) by (intros ->; by apply Hnz, Hall).
        split; [|done]. exists s. split; [done|]. by rewrite cleared_other in Hnz by congruence.
Qed.

Lemma clear_keeps b pos : 0 <= pos < 2 ^ 32 -> array2 (rte_bitmap_clear b pos) = cleared b pos.
Proof. intros Hp. by destruct (clear_cases b pos Hp) as [[-> _]|[-> _]]. Qed.

Lemma clear_bit_at b pos q :
  arrays_inv b -> 0 <= pos < 2 ^ 32 -> bit (rte_bitmap_clear b pos) q = bit b q && negb (bool_decide (q = pos)).
Proof.
  intros HA Hp. unfold bit. rewrite clear_keeps by done. unfold cleared. rewrite lookup_total_insert.
  pose proof (Z.mod_pos_bound pos 64 ltac:(lia)). pose proof (Z.mod_pos_bound q 64 ltac:(lia)).
  pose proof (Z.div_mod pos 64). pose proof (Z.div_mod q 64). case_decide as E.
  - rewrite clear_bit_spec by (apply HA || lia). rewrite E. do 2 f_equal. apply bool_decide_ext. lia.
  - rewrite bool_decide_false by congruence. by rewrite andb_true_r.
Qed.
