(* ===== verification/BitmapTheorems.v ===== *)
(** * Hierarchical bitmap: the theorems

    A bitmap implements a set of positions with a cursor.  The cursor only
    matters for scanning, which goes round through the slabs. *)

From S2P Require Import Prelude Bits Bitmap BitmapProofs.

(** ** Creation and reset *)

Lemma scan_init_ok b : arrays_inv b -> bm_inv (rte_bitmap_scan_init b) /\ same_bits b (rte_bitmap_scan_init b) /\
  cursor (rte_bitmap_scan_init b) = slabs b.
Proof.
  intros HA. pose proof (arrays_size b HA). unfold rte_bitmap_scan_init, RTE_BITMAP_SLAB_BIT_SIZE.
  rewrite u32_small by lia. rewrite index2_set_ok by (cbn; lia). split; [|split; [done|]].
  - split; cbn; [by apply (same_bits_arrays b)|lia|lia|done].
  - unfold cursor, slabs, line. cbn. lia.
Qed.

(** The sizes that the memory footprint gives. *)
Lemma footprint_ok n_bits (f := get_memory_footprint n_bits) :
  0 < n_bits <= 2 ^ 32 - 512 ->
  (exists k, 0 <= k <= 17 /\ array1_slabs f = 2 ^ k) /\ 0 < array2_slabs f <= array1_slabs f * 512 /\
  n_bits <= array2_slabs f * 64.
Proof.
  intros Hn. unfold f, get_memory_footprint, RTE_BITMAP_CL_BIT_SIZE, RTE_BITMAP_SLAB_BIT_SIZE, RTE_BITMAP_CL_SLAB_SIZE.
  cbn [array1_slabs array2_slabs]. rewrite (u32_small (n_bits + 512 - 1)) by lia.
  pose proof (Z.div_mod (n_bits + 512 - 1) 512). pose proof (Z.mod_pos_bound (n_bits + 512 - 1) 512).
  set (m := (n_bits + 512 - 1) / 512) in *. rewrite (u32_small (m + 64 - 1)) by lia.
  pose proof (Z.div_mod (m + 64 - 1) 64). pose proof (Z.mod_pos_bound (m + 64 - 1) 64).
  set (p := (m + 64 - 1) / 64) in *. rewrite (u32_small (m * 8)) by lia.
  destruct (align32pow2_spec p) as (k&Hk&Ek&Hb); [lia|]. rewrite Ek. split; [|lia].
  exists k. split; [|done]. split; [lia|]. destruct (decide (k <= 17)); [done|].
  assert (2 ^ 18 <= 2 ^ k) by (apply Z.pow_le_mono_r; lia). lia.
Qed.

Lemma empty_arrays s1 s2 :
  (exists k, 0 <= k <= 17 /\ s1 = 2 ^ k) -> 0 < s2 <= s1 * 512 -> arrays_inv (Bitmap empty empty s1 s2 0 0 0 0).
Proof.
  intros Hk Hs. split; cbn; try done; intros; rewrite ?lookup_total_empty; try done.
  unfold line_bit. cbn. rewrite lookup_total_empty, Z.bits_0. split; [done|]. by intros (s&_&?).
Qed.

Definition init_args (n_bits mem mem_size : Z) : Prop :=
  0 < n_bits <= 2 ^ 32 - 512 /\ mem <> 0 /\ Z.land mem (RTE_CACHE_LINE_SIZE - 1) = 0 /\
  mem_size <= rte_bitmap_get_memory_footprint n_bits.

Lemma bitmap_init_ok n_bits mem mem_size :
  init_args n_bits mem mem_size ->
  exists b, rte_bitmap_init n_bits mem mem_size = Some b /\ bm_inv b /\ n_bits <= array2_size b * 64 /\
    (forall q, bit b q = false) /\ cursor b = slabs b.
Proof.
  intros (Hn&Hm&Ha&Hs). destruct (footprint_ok n_bits Hn) as (Hk&H2&Hb).
  unfold rte_bitmap_init, rte_bitmap_get_memory_footprint in *. rewrite (proj2 (Z.eqb_neq n_bits 0)) in * by lia.
  rewrite (proj2 (Z.eqb_neq mem 0)), Ha, (proj2 (Z.ltb_ge _ _)) by done. cbn [orb negb Z.eqb].
  set (b0 := Bitmap _ _ _ _ _ _ _ _). destruct (scan_init_ok b0) as (HI&HS&HC); [by apply empty_arrays|].
  destruct HS as (_&E2&E3&E4). assert (Hb0 : n_bits <= array2_size b0 * 64) by exact Hb.
  assert (Hz : forall i, array2 b0 !!! i = 0) by (intros i; change (array2 b0) with (∅ : gmap Z Z); by rewrite lookup_total_empty).
  clearbody b0. exists (rte_bitmap_scan_init b0). split; [reflexivity|]. split; [exact HI|].
  split; [by rewrite E4|]. split; [intros q; unfold bit; by rewrite E2, Hz, Z.bits_0|].
  rewrite HC. unfold slabs. by rewrite E3.
Qed.

Lemma clear_cells_lookup t n i : clear_cells t n !!! i = if decide (0 <= i < n) then 0 else t !!! i.
Proof.
  unfold clear_cells. rewrite !lookup_total_alt, map_lookup_filter. destruct (t !! i) as [x|]; cbn; [|by case_decide].
  case_decide; [rewrite option_guard_False by tauto|rewrite option_guard_True by tauto]; done.
Qed.

Lemma bitmap_reset_ok b :
  bm_inv b -> bm_inv (rte_bitmap_reset b) /\ array1_size (rte_bitmap_reset b) = array1_size b /\
    array2_size (rte_bitmap_reset b) = array2_size b /\
    (forall q, bit (rte_bitmap_reset b) q = false) /\ cursor (rte_bitmap_reset b) = slabs b.
Proof.
  intros [HA _ _ _]. unfold rte_bitmap_reset. set (b1 := set_arrays _ _ _).
  assert (H2 : forall i, array2 b1 !!! i = 0).
  { intros i. cbn. rewrite clear_cells_lookup. case_decide; [done|]. by apply HA. }
  assert (HA1 : arrays_inv b1).
  { pose proof HA as [Hs Hs2 Hz R1 R2 Hl]. split; [exact Hs|exact Hs2|..].
    - intros i _. apply H2.
    - intros i. unfold b1. cbn [array1 set_arrays]. rewrite clear_cells_lookup. case_decide; [done|apply R1].
    - intros i. by rewrite H2.
    - intros l Hlr. change (lines b1) with (lines b) in Hlr. unfold line_bit. cbn. rewrite clear_cells_lookup, decide_True, Z.bits_0.
      + split; [done|]. intros (s&_&Hnz). destruct Hnz. apply H2.
      + destruct (line_split l). unfold lines in Hlr. lia. }
  destruct (scan_init_ok b1 HA1) as (HI&(_&E2&E3&E4)&HC). split; [exact HI|]. split; [exact E3|]. split; [exact E4|].
  split; [|exact HC]. intros q. unfold bit. by rewrite E2, H2, Z.bits_0.
Qed.

(** ** Executions *)

Inductive bm_op := BSet (pos : Z) | BSetSlab (pos slab : Z) | BClear (pos : Z) | BGet (pos : Z) | BScan | BReset.

(** What an operation returns: nothing, a bit, or a position and a slab. *)
Inductive bm_res := RUnit | RBit (set : bool) | RScan (r : option (option (Z * Z))).

Definition bm_step (b : rte_bitmap) (op : bm_op) : rte_bitmap * bm_res :=
  match op with
  | BSet pos => (rte_bitmap_set b pos, RUnit)
  | BSetSlab pos slab => (rte_bitmap_set_slab b pos slab, RUnit)
  | BClear pos => (rte_bitmap_clear b pos, RUnit)
  | BGet pos => (b, RBit (negb (rte_bitmap_get b pos =? 0)))
  | BScan => let '(b', r) := rte_bitmap_scan b in (b', RScan r)
  | BReset => (rte_bitmap_reset b, RUnit)
  end.

Fixpoint bm_run (b : rte_bitmap) (ops : list bm_op) : rte_bitmap * list bm_res :=
  match ops with
  | [] => (b, [])
  | op :: ops => let '(b1, r) := bm_step b op in let '(b2, rs) := bm_run b1 ops in (b2, r :: rs)
  end.

Definition op_in (n_bits : Z) (op : bm_op) : Prop :=
  match op with
  | BSet pos | BClear pos | BGet pos => 0 <= pos < n_bits
  | BSetSlab pos slab => 0 <= pos < n_bits /\ 0 < slab < 2 ^ 64
  | BScan | BReset => True
  end.

(** ** The abstract bitmap *)

(** The set bits and the slab where the scan goes on. *)
Record bitset := Bitset { members : Z -> bool; from : Z }.

Definition has_member (A : bitset) (s : Z) : Prop := exists q, q / 64 = s /\ members A q = true.

(** [n] is the number of slabs. *)
Inductive set_step (n : Z) (A : bitset) : bm_op -> bm_res -> bitset -> Prop :=
| ss_set pos : set_step n A (BSet pos) RUnit (Bitset (fun q => members A q || bool_decide (q = pos)) (from A))
| ss_set_slab pos slab : set_step n A (BSetSlab pos slab) RUnit
    (Bitset (fun q => members A q || (bool_decide (q / 64 = pos / 64) && Z.testbit slab (q mod 64))) (from A))
| ss_clear pos : set_step n A (BClear pos) RUnit
    (Bitset (fun q => members A q && negb (bool_decide (q = pos))) (from A))
| ss_get pos : set_step n A (BGet pos) (RBit (members A pos)) A
| ss_scan s slab :
    first_from n (from A) (has_member A) s -> 0 <= slab < 2 ^ 64 ->
    (forall i, 0 <= i < 64 -> Z.testbit slab i = members A (64 * s + i)) ->
    set_step n A BScan (RScan (Some (Some (64 * s, slab)))) (Bitset (members A) (s + 1))
| ss_scan_empty c : (forall q, members A q = false) -> set_step n A BScan (RScan None) (Bitset (members A) c)
| ss_reset : set_step n A BReset RUnit (Bitset (fun _ => false) n).

Inductive set_run (n : Z) : bitset -> list bm_op -> list bm_res -> bitset -> Prop :=
| sr_nil A : set_run n A [] [] A
| sr_cons A op r A1 ops rs A2 :
    set_step n A op r A1 -> set_run n A1 ops rs A2 -> set_run n A (op :: ops) (r :: rs) A2.

(** ** The simulation *)

Record bm_sim (n n_bits : Z) (b : rte_bitmap) (A : bitset) : Prop := {
  si_inv : bm_inv b;
  si_slabs : slabs b = n;
  si_bits : n_bits <= array2_size b * 64;
  si_from : from A = cursor b;
  si_members : forall q, bit b q = members A q
}.

Lemma slab_bit s i : 0 <= i < 64 -> (64 * s + i) / 64 = s /\ (64 * s + i) mod 64 = i.
Proof. intros Hi. rewrite Z.mul_comm, Z.add_comm, Z.div_add, Z.mod_add by lia. by rewrite Z.div_small, Z.mod_small. Qed.

Lemma nonempty_bits b s : arrays_inv b -> nonempty b s <-> exists q, q / 64 = s /\ bit b q = true.
Proof.
  intros HA. unfold nonempty, bit. split.
  - intros Hnz. destruct (decide (Exists (fun i => Z.testbit (array2 b !!! s) i = true) (seqZ 0 64))) as [Hex|Hno].
    + apply Exists_exists in Hex as (i&Hi%elem_of_seqZ&Ht). exists (64 * s + i).
      destruct (slab_bit s i) as [E1 E2]; [lia|]. by rewrite E1, E2.
    + destruct Hnz. apply mask_zero; [apply HA|]. intros i Hi. destruct (Z.testbit (array2 b !!! s) i) eqn:E; [|done].
      destruct Hno. apply Exists_exists. exists i. split; [apply elem_of_seqZ; lia|done].
  - intros (q&<-&Ht) E. by rewrite E, Z.bits_0 in Ht.
Qed.

Lemma first_from_ext n c (P Q : Z -> Prop) x : (forall y, P y <-> Q y) -> first_from n c P x -> first_from n c Q x.
Proof. intros HPQ (Hx&HP&Hm). split; [done|]. split; [by apply HPQ|]. intros y Hy HQ. apply Hm; [done|]. by apply HPQ. Qed.

(** Operations that change bits and leave the cursor alone. *)
Lemma set_sim n n_bits b A a1 a2 f :
  bm_sim n n_bits b A -> arrays_inv (set_arrays b a1 a2) -> (forall q, bit (set_arrays b a1 a2) q = f q) ->
  bm_sim n n_bits (set_arrays b a1 a2) (Bitset f (from A)).
Proof. intros [[_ Hi Ho Hg] Hs Hn Hf _] HA Hb. split; [split; done|done|done|done|done]. Qed.

Lemma step_sim n n_bits b A op :
  n_bits <= 2 ^ 32 -> bm_sim n n_bits b A -> op_in n_bits op ->
  let '(b', r) := bm_step b op in exists A', set_step n A op r A' /\ bm_sim n n_bits b' A'.
Proof.
  intros Hnb HS Hop. pose proof HS as [HI Hn Hb Hf Hm]. pose proof (bi_arrays _ HI) as HA.
  destruct op as [pos|pos slab|pos|pos| |]; cbn [bm_step op_in] in *.
  - eexists. split; [constructor|]. pose proof (Z.mod_pos_bound pos 64 ltac:(lia)). apply set_sim; [done|..].
    + apply set_slab_arrays; [done|lia|]. rewrite pos_offset2_eq, Z.shiftl_1_l. split; [lia|]. apply Z.pow_lt_mono_r; lia.
    + intros q. rewrite <- Hm. apply set_bit.
  - eexists. split; [constructor|]. apply set_sim; [done|apply set_slab_arrays; [done|lia|lia]|].
    intros q. rewrite <- Hm. apply set_slab_bit. lia.
  - eexists. split; [constructor|]. assert (HA' : arrays_inv (rte_bitmap_clear b pos)) by (apply clear_arrays; [done|lia]).
    assert (Hbit : forall q, bit (rte_bitmap_clear b pos) q = members A q && negb (bool_decide (q = pos))).
    { intros q. rewrite <- Hm. apply clear_bit_at; [done|lia]. }
    destruct (clear_cases b pos) as [[E _]|[E _]]; [lia|..]; rewrite E in *; by apply set_sim.
  - exists A. split; [|done]. replace (negb (rte_bitmap_get b pos =? 0)) with (members A pos); [constructor|].
    rewrite <- Hm. apply eq_iff_eq_true. rewrite <- get_bit, negb_true_iff, Z.eqb_neq. done.
  - pose proof (scan_ok b HI) as Hscan. destruct (rte_bitmap_scan b) as [b' r]. destruct Hscan as (HI'&(E1&E2&E3&E4)&Hr).
    assert (Hkeep : forall c, c = cursor b' -> bm_sim n n_bits b' (Bitset (members A) c)).
    { intros c ->. split; cbn; try done; [unfold slabs; by rewrite E3|by rewrite E4|].
      intros q. unfold bit. rewrite E2. apply Hm. }
    destruct r as [[[pos slab]|]|]; [|done|].
    + destruct Hr as (s&Hfirst&->&->&Hc). exists (Bitset (members A) (s + 1)). split; [|by apply Hkeep].
      constructor; [|apply HA|].
      * rewrite Hf, <- Hn. eapply first_from_ext; [|done]. intros y. rewrite nonempty_bits by done.
        unfold has_member. by setoid_rewrite Hm.
      * intros i Hi. rewrite <- Hm. unfold bit. by destruct (slab_bit s i Hi) as [-> ->].
    + exists (Bitset (members A) (cursor b')). split; [|by apply Hkeep]. constructor. intros q. rewrite <- Hm.
      unfold bit. by rewrite Hr, Z.bits_0.
  - destruct (bitmap_reset_ok b HI) as (HI'&E1&E2&Hz&Hc). eexists. split; [constructor|].
    split; [exact HI'|unfold slabs in *; by rewrite E1|by rewrite E2|rewrite Hc; by symmetry|exact Hz].
Qed.

Lemma run_sim n n_bits ops b A :
  n_bits <= 2 ^ 32 -> bm_sim n n_bits b A -> Forall (op_in n_bits) ops ->
  exists A', set_run n A ops (bm_run b ops).2 A' /\ bm_sim n n_bits (bm_run b ops).1 A'.
Proof.
  intros Hnb. revert b A. induction ops as [|op ops IH]; intros b A HS Hops; [by exists A; split; [constructor|]|].
  apply Forall_cons in Hops as [Hop Hops]. cbn [bm_run]. pose proof (step_sim n n_bits b A op Hnb HS Hop) as Hst.
  destruct (bm_step b op) as [b1 r]. destruct Hst as (A1&Hstep&HS1). destruct (IH b1 A1 HS1 Hops) as (A2&Hrun&HS2).
  exists A2. destruct (bm_run b1 ops) as [b2 rs]. split; [by econstructor|done].
Qed.

(** C33: Every sequence of sets, clears, gets, scans, resets and of slab sets
    with a slab other than 0, on a new bitmap of up to [2^32 - 512] bits and with
    positions inside it, answers like a set of positions: [rte_bitmap_get]
    reports membership, and [rte_bitmap_scan] returns the first slab that is not
    empty, from the cursor on with wrap-around, with exactly its members, or 0
    when the set is empty.  [rte_bitmap_set_slab] adds the bits of its slab to
    the set: it does not assign the slab, as its documentation says
    ([set_slab_keeps_bits]).  With a slab of 0 it would mark an empty slab, which
    the next scan finds ([empty_slab_scan]); that call is excluded. *)
Theorem bitmap_refines_set n_bits mem mem_size ops :
  init_args n_bits mem mem_size -> Forall (op_in n_bits) ops ->
  exists b A, rte_bitmap_init n_bits mem mem_size = Some b /\
    set_run (slabs b) (Bitset (fun _ => false) (slabs b)) ops (bm_run b ops).2 A.
Proof.
  intros Hargs Hops. pose proof Hargs as (Hn&_). destruct (bitmap_init_ok _ _ _ Hargs) as (b&E&HI&Hb&Hz&Hc).
  destruct (run_sim (slabs b) n_bits ops b (Bitset (fun _ => false) (slabs b))) as (A&HA&_); [lia|by split|done|].
  by exists b, A.
Qed.

Lemma bitmap_refines_set_witness :
  exists b A, rte_bitmap_init 2000 4096 0 = Some b /\
    set_run (slabs b) (Bitset (fun _ => false) (slabs b))
      [BSet 700; BSet 5; BSetSlab 1920 6; BScan; BScan; BClear 5; BScan; BScan; BGet 700; BReset; BScan]
      (bm_run b [BSet 700; BSet 5; BSetSlab 1920 6; BScan; BScan; BClear 5; BScan; BScan; BGet 700; BReset; BScan]).2 A.
Proof.
  apply (bitmap_refines_set 2000 4096 0); [split; [lia|]; split; [lia|]; split; [reflexivity|vm_compute; discriminate]|].
  repeat constructor; cbn; lia.
Defined.

(** ** A round of scans *)

(** The results of [k] scans. *)
Fixpoint scans (k : nat) (b : rte_bitmap) : list (option (option (Z * Z))) :=
  match k with
  | O => []
  | S k' => let '(b', r) := rte_bitmap_scan b in r :: scans k' b'
  end.

(** The slabs between [lo] and [hi] that are not empty, and all of them in the
    order from [c] on. *)
Definition part (b : rte_bitmap) (lo hi : Z) : list Z := filter (fun s => array2 b !!! s <> 0) (seqZ lo (hi - lo)).
Definition round (b : rte_bitmap) (c : Z) : list Z := part b c (slabs b) ++ part b 0 c.

Lemma part_app b lo mid hi : lo <= mid <= hi -> part b lo hi = part b lo mid ++ part b mid hi.
Proof.
  intros Hm. unfold part. replace (hi - lo) with ((mid - lo) + (hi - mid)) by lia.
  rewrite seqZ_app, filter_app by lia. by replace (lo + (mid - lo)) with mid by lia.
Qed.

Lemma part_empty b lo hi : (forall s, lo <= s < hi -> array2 b !!! s = 0) -> part b lo hi = [].
Proof.
  intros Hz. unfold part. destruct (filter _ _) as [|s l] eqn:E; [done|].
  assert (Hin : s ∈ filter (fun s => array2 b !!! s <> 0) (seqZ lo (hi - lo))) by (rewrite E; left).
  apply list_elem_of_filter in Hin as [Hnz Hin%elem_of_seqZ]. destruct Hnz. apply Hz. lia.
Qed.

Lemma part_single b s : array2 b !!! s <> 0 -> part b s (s + 1) = [s].
Proof.
  intros Hnz. unfold part. replace (s + 1 - s) with 1 by lia. change (seqZ s 1) with [s]. by rewrite filter_cons_True.
Qed.

(** A scan takes the first slab of the round and puts it at its end. *)
Lemma round_step b c s :
  0 <= c <= slabs b -> first_from (slabs b) c (nonempty b) s ->
  exists l, round b c = s :: l /\ round b (s + 1) = l ++ [s].
Proof.
  intros Hc (Hs&Hnz&Hmin). unfold nonempty in *. set (T := slabs b) in *.
  assert (Hz : forall y, 0 <= y < T -> (y - c) mod T < (s - c) mod T -> array2 b !!! y = 0).
  { intros y Hy Hlt. destruct (decide (array2 b !!! y = 0)) as [|Hn]; [done|]. specialize (Hmin y Hy Hn). lia. }
  assert (Hwrap : forall y, 0 <= y < c -> (y - c) mod T = y - c + T).
  { intros y Hy. rewrite <- (Z_mod_plus_full _ 1), Z.mod_small; lia. }
  unfold round. fold T. destruct (decide (c <= s)) as [Hge|Hlt].
  - rewrite (Z.mod_small (s - c)) in Hz by lia. exists (part b (s + 1) T ++ part b 0 c).
    assert (Hskip : part b c s = []) by (apply part_empty; intros y Hy; apply Hz; [|rewrite Z.mod_small]; lia).
    rewrite (part_app b c s T), (part_app b s (s + 1) T), (part_app b 0 c (s + 1)), (part_app b c s (s + 1)) by lia.
    rewrite Hskip, part_single by done. cbn [app]. split; [done|]. by rewrite <- app_assoc.
  - rewrite (Hwrap s) in Hz by lia. exists (part b (s + 1) c).
    assert (Hskip1 : part b c T = []) by (apply part_empty; intros y Hy; apply Hz; [|rewrite Z.mod_small]; lia).
    assert (Hskip2 : part b 0 s = []) by (apply part_empty; intros y Hy; apply Hz; [|rewrite Hwrap]; lia).
    rewrite (part_app b 0 s c), (part_app b s (s + 1) c), (part_app b (s + 1) c T), (part_app b 0 s (s + 1)) by lia.
    rewrite Hskip1, Hskip2, part_single by done. cbn [app]. by rewrite app_nil_r.
Qed.

Lemma cursor_range b : bm_inv b -> 0 <= cursor b <= slabs b.
Proof.
  intros [HA Hi Ho Hg]. unfold cursor, slabs, line in *. destruct (Z.eqb_spec (go2 b) 0) as [|E]; [nia|].
  specialize (Hg E). nia.
Qed.

Definition slab_result (b : rte_bitmap) (s : Z) : option (option (Z * Z)) := Some (Some (64 * s, array2 b !!! s)).

Lemma scans_take k b :
  bm_inv b -> (k <= length (round b (cursor b)))%nat -> scans k b = slab_result b <$> take k (round b (cursor b)).
Proof.
  revert b. induction k as [|k IH]; intros b HI Hk; [done|]. cbn [scans].
  pose proof (scan_ok b HI) as Hs. destruct (rte_bitmap_scan b) as [b' r]. destruct Hs as (HI'&(E1&E2&E3&E4)&Hr).
  assert (Er : forall c, round b' c = round b c) by (intros c; unfold round, part, slabs; by rewrite E2, E3).
  destruct r as [[[pos slab]|]|]; [|done|].
  - destruct Hr as (s&Hf&->&->&Hc). destruct (round_step b (cursor b) s (cursor_range b HI) Hf) as (l&El&El').
    rewrite El in *. cbn in Hk |- *. f_equal. rewrite IH, Er, Hc, El'; [|done|rewrite Er, Hc, El', length_app; cbn; lia].
    rewrite take_app_le by lia. apply list_fmap_ext. intros i x _. unfold slab_result. by rewrite E2.
  - exfalso. assert (Hn : round b (cursor b) = []).
    { unfold round. rewrite !part_empty by (intros; apply Hr). done. }
    rewrite Hn in Hk. cbn in Hk. lia.
Qed.

(** C34: Scanning a bitmap that does not change as often as it has slabs with set
    bits returns each of them exactly once, in cyclic order from the cursor. *)
Theorem scan_round n_bits mem mem_size ops b0 (b := (bm_run b0 ops).1) :
  init_args n_bits mem mem_size -> rte_bitmap_init n_bits mem mem_size = Some b0 -> Forall (op_in n_bits) ops ->
  scans (length (part b 0 (slabs b))) b = slab_result b <$> round b (cursor b) /\
  round b (cursor b) ≡ₚ part b 0 (slabs b).
Proof.
  intros Hargs E Hops. destruct (bitmap_init_ok _ _ _ Hargs) as (b'&E'&HI&Hb&Hz&Hc). rewrite E in E'. injection E' as <-.
  destruct Hargs as (Hn&_).
  destruct (run_sim (slabs b0) n_bits ops b0 (Bitset (fun _ => false) (slabs b0))) as (A&_&HS); [lia|by split|done|].
  fold b in HS. pose proof (si_inv _ _ _ _ HS) as HIb. pose proof (cursor_range b HIb).
  assert (HP : round b (cursor b) ≡ₚ part b 0 (slabs b)).
  { unfold round. rewrite (part_app b 0 (cursor b) (slabs b)) by lia. apply Permutation_app_comm. }
  split; [|done]. rewrite <- HP, scans_take by done. by rewrite firstn_all.
Qed.

(** A run of operations on a new bitmap. *)
Definition after (n_bits mem mem_size : Z) (ops : list bm_op) : option rte_bitmap :=
  (fun b => (bm_run b ops).1) <$> rte_bitmap_init n_bits mem mem_size.

Definition demo_ops : list bm_op := [BSet 700; BSet 5; BSetSlab 1920 6; BScan; BScan].

Lemma scan_round_witness :
  exists b0, rte_bitmap_init 2000 4096 0 = Some b0 /\ let b := (bm_run b0 demo_ops).1 in
    scans (length (part b 0 (slabs b))) b = slab_result b <$> round b (cursor b) /\
    round b (cursor b) ≡ₚ part b 0 (slabs b).
Proof.
  eexists. split; [reflexivity|]. apply (scan_round 2000 4096 0); [|reflexivity|repeat constructor; cbn; lia].
  split; [lia|]. split; [lia|]. split; [reflexivity|vm_compute; discriminate].
Defined.

(** The round of the example starts behind the slab of bit 700. *)
Example demo_round : (fun b => scans 4 b) <$> after 2000 4096 0 demo_ops =
  Some [Some (Some (1920, 6)); Some (Some (0, 32)); Some (Some (640, 2 ^ 60)); Some (Some (1920, 6))].
Proof. vm_compute. reflexivity. Qed.

(** ** Where the code falls short *)

(** The size test of [rte_bitmap_init] is inverted: memory that is too small is
    accepted, memory that is larger than needed is refused. *)
Theorem init_size_inverted n_bits mem mem_size :
  0 < n_bits -> mem <> 0 -> Z.land mem (RTE_CACHE_LINE_SIZE - 1) = 0 ->
  (mem_size <= rte_bitmap_get_memory_footprint n_bits -> is_Some (rte_bitmap_init n_bits mem mem_size)) /\
  (rte_bitmap_get_memory_footprint n_bits < mem_size -> rte_bitmap_init n_bits mem mem_size = None).
Proof.
  intros Hn Hm Ha. unfold rte_bitmap_init, rte_bitmap_get_memory_footprint.
  rewrite (proj2 (Z.eqb_neq n_bits 0)), (proj2 (Z.eqb_neq mem 0)), Ha by lia. cbn [orb negb Z.eqb].
  split; intros Hs; [rewrite (proj2 (Z.ltb_ge _ _)) by done; by eexists|by rewrite (proj2 (Z.ltb_lt _ _))].
Qed.

(** [rte_bitmap_set_slab] with an empty slab marks the line as not empty: the
    next scan returns 1 without a position. *)
Theorem empty_slab_scan : (fun b => scans 1 b) <$> after 2000 4096 0 [BSetSlab 64 0] = Some [Some None].
Proof. vm_compute. reflexivity. Qed.

(** [rte_bitmap_set_slab] is documented to assign the slab; the bits that were
    set stay set. *)
Theorem set_slab_keeps_bits :
  (fun b => (rte_bitmap_get b 64, rte_bitmap_get b 65)) <$> after 2000 4096 0 [BSet 64; BSetSlab 64 2] = Some (1, 2).
Proof. vm_compute. reflexivity. Qed.
