(* ===== verification/Lpm.v ===== *)
(** * IPv4 longest prefix match: data and operations

    Model of [librte_lpm/rte_lpm.c] and [rte_lpm.h] (DIR-24-8 table).  The
    library ships every operation twice, for the ABI versions 2.0 ([_v20],
    8-bit next hops, 256 tbl8 groups) and 16.04 ([_v1604], 24-bit next hops,
    a configurable number of tbl8 groups).  The two texts differ only in the
    widths and in where the number of groups comes from, so each operation is
    one definition over an [lpm_version], followed by its two instances. *)

From S2P Require Import Prelude.

(** ** Constants and data *)

Definition MAX_DEPTH_TBL24 : Z := 24.
Definition RTE_LPM_MAX_DEPTH : Z := 32.
Definition RTE_LPM_TBL24_NUM_ENTRIES : Z := 2 ^ 24.
Definition RTE_LPM_TBL8_GROUP_NUM_ENTRIES : Z := 256.
Definition RTE_LPM_MAX_TBL8_NUM_GROUPS : Z := 2 ^ 24.
Definition RTE_LPM_TBL8_NUM_GROUPS : Z := 256.
Definition RTE_LPM_VALID_EXT_ENTRY_BITMASK : Z := 0x03000000.
Definition RTE_LPM_LOOKUP_SUCCESS : Z := 0x01000000.

Inductive lpm_version := V20 | V1604.

(** Width of the [next_hop] bit-field of a table entry. *)
Definition hop_bits (v : lpm_version) : Z :=
  match v with V20 => 8 | V1604 => 24 end.

(** Width of the [next_hop] member of a rule. *)
Definition rule_hop_bits (v : lpm_version) : Z :=
  match v with V20 => 8 | V1604 => 32 end.

(** [struct rte_lpm_tbl_entry]: [e_next_hop] is also the group index of an
    extended tbl24 entry (a union in v20, [#define group_idx next_hop] in
    v1604). *)
Record rte_lpm_tbl_entry := TblEntry {
  e_next_hop : Z;
  e_valid : bool;
  e_valid_group : bool;
  e_depth : Z
}.

Record rte_lpm_rule := Rule { r_ip : Z; r_next_hop : Z }.

Record rte_lpm_rule_info := RuleInfo { used_rules : Z; first_rule : Z }.

#[export] Instance entry_inhabited : Inhabited rte_lpm_tbl_entry :=
  populate (TblEntry 0 false false 0).
#[export] Instance rule_inhabited : Inhabited rte_lpm_rule :=
  populate (Rule 0 0).
#[export] Instance rule_info_inhabited : Inhabited rte_lpm_rule_info :=
  populate (RuleInfo 0 0).

(** [struct rte_lpm] without its name: the arrays are zero-initialised. *)
Record rte_lpm := Lpm {
  max_rules : Z;
  number_tbl8s : Z;
  rule_info : gmap Z rte_lpm_rule_info;
  tbl24 : gmap Z rte_lpm_tbl_entry;
  tbl8 : gmap Z rte_lpm_tbl_entry;
  rules_tbl : gmap Z rte_lpm_rule
}.

Definition set_rule_info (l : rte_lpm) (x : gmap Z rte_lpm_rule_info) : rte_lpm :=
  Lpm (max_rules l) (number_tbl8s l) x (tbl24 l) (tbl8 l) (rules_tbl l).
Definition set_tbl24 (l : rte_lpm) (x : gmap Z rte_lpm_tbl_entry) : rte_lpm :=
  Lpm (max_rules l) (number_tbl8s l) (rule_info l) x (tbl8 l) (rules_tbl l).
Definition set_tbl8 (l : rte_lpm) (x : gmap Z rte_lpm_tbl_entry) : rte_lpm :=
  Lpm (max_rules l) (number_tbl8s l) (rule_info l) (tbl24 l) x (rules_tbl l).
Definition set_rules_tbl (l : rte_lpm) (x : gmap Z rte_lpm_rule) : rte_lpm :=
  Lpm (max_rules l) (number_tbl8s l) (rule_info l) (tbl24 l) (tbl8 l) x.

(** A table entry literal: the bit-fields truncate what is stored in them. *)
Definition mk_entry (v : lpm_version) (hop : Z) (valid valid_group : bool)
    (depth : Z) : rte_lpm_tbl_entry :=
  TblEntry (wrap (hop_bits v) hop) valid valid_group (wrap 6 depth).

(** Assignments to single members of an entry. *)
Definition set_valid (e : rte_lpm_tbl_entry) (b : bool) : rte_lpm_tbl_entry :=
  TblEntry (e_next_hop e) b (e_valid_group e) (e_depth e).
Definition set_valid_group (e : rte_lpm_tbl_entry) (b : bool) : rte_lpm_tbl_entry :=
  TblEntry (e_next_hop e) (e_valid e) b (e_depth e).

(** The number of tbl8 groups: a constant in v20, a member in v1604. *)
Definition num_tbl8s (v : lpm_version) (l : rte_lpm) : Z :=
  match v with V20 => RTE_LPM_TBL8_NUM_GROUPS | V1604 => number_tbl8s l end.

(** ** Depth arithmetic *)

(** [(int)0x80000000 >> (depth - 1)], converted to [uint32_t]. *)
Definition depth_to_mask (depth : Z) : Z := u32 (Z.shiftr (- 2 ^ 31) (depth - 1)).

Definition depth_to_range (depth : Z) : Z :=
  if depth <=? MAX_DEPTH_TBL24 then Z.shiftl 1 (MAX_DEPTH_TBL24 - depth)
  else Z.shiftl 1 (RTE_LPM_MAX_DEPTH - depth).

(** ** The rule table *)

(** Index of the first rule of a group with the given address, as scanned by
    the loops of [rule_add] and [rule_find]. *)
Definition scan_group (l : rte_lpm) (rule_gindex last_rule ip_masked : Z) : option Z :=
  find_up (Z.to_nat (last_rule - rule_gindex)) rule_gindex
    (fun rule_index => r_ip (rules_tbl l !!! rule_index) =? ip_masked).

(** [for (i = depth - 1; i > 0; i--)]: end of the closest non-empty group of
    smaller depth, 0 when there is none. *)
Fixpoint prev_group_end (l : rte_lpm) (i : nat) : Z :=
  match i with
  | O => 0
  | S i' =>
      let info := rule_info l !!! Z.of_nat i' in
      if 0 <? used_rules info then u32 (first_rule info + used_rules info)
      else prev_group_end l i'
  end.

(** [for (i = RTE_LPM_MAX_DEPTH; i > depth; i--)]: shift the groups of larger
    depth by one slot; [false] is the early [return -ENOSPC]. *)
Fixpoint make_room (l : rte_lpm) (n : nat) (i : Z) : rte_lpm * bool :=
  match n with
  | O => (l, true)
  | S n' =>
      let info := rule_info l !!! (i - 1) in
      let group_end := u32 (first_rule info + used_rules info) in
      if group_end =? max_rules l then (l, false)
      else
        let l' :=
          if 0 <? used_rules info then
            let l1 := set_rules_tbl l
              (<[group_end := rules_tbl l !!! first_rule info]> (rules_tbl l)) in
            set_rule_info l1
              (<[i - 1 := RuleInfo (used_rules info) (u32 (first_rule info + 1))]>
                 (rule_info l1))
          else l in
        make_room l' n' (i - 1)
  end.

(** Lines "Make room ..." to the end of [rule_add]. *)
Definition store_rule (v : lpm_version) (l : rte_lpm)
    (ip_masked depth next_hop rule_index : Z) : rte_lpm * Z :=
  match make_room l (Z.to_nat (RTE_LPM_MAX_DEPTH - depth)) RTE_LPM_MAX_DEPTH with
  | (l1, false) => (l1, - ENOSPC)
  | (l1, true) =>
      let l2 := set_rules_tbl l1
        (<[rule_index := Rule ip_masked (wrap (rule_hop_bits v) next_hop)]>
           (rules_tbl l1)) in
      let info := rule_info l2 !!! (depth - 1) in
      (set_rule_info l2
         (<[depth - 1 := RuleInfo (u32 (used_rules info + 1)) (first_rule info)]>
            (rule_info l2)),
       i32 rule_index)
  end.

Definition rule_add (v : lpm_version) (l : rte_lpm)
    (ip_masked depth next_hop : Z) : rte_lpm * Z :=
  let info := rule_info l !!! (depth - 1) in
  if 0 <? used_rules info then
    let rule_gindex := first_rule info in
    let last_rule := u32 (rule_gindex + used_rules info) in
    match scan_group l rule_gindex last_rule ip_masked with
    | Some rule_index =>
        let r := rules_tbl l !!! rule_index in
        (set_rules_tbl l
           (<[rule_index := Rule (r_ip r) (wrap (rule_hop_bits v) next_hop)]>
              (rules_tbl l)),
         i32 rule_index)
    | None =>
        let rule_index := Z.max rule_gindex last_rule in
        if rule_index =? max_rules l then (l, - ENOSPC)
        else store_rule v l ip_masked depth next_hop rule_index
    end
  else
    let rule_index := prev_group_end l (Z.to_nat (depth - 1)) in
    if rule_index =? max_rules l then (l, - ENOSPC)
    else
      let l1 := set_rule_info l
        (<[depth - 1 := RuleInfo (used_rules info) rule_index]> (rule_info l)) in
      store_rule v l1 ip_masked depth next_hop rule_index.

Definition rule_add_v20 := rule_add V20.
Definition rule_add_v1604 := rule_add V1604.

(** Body of the loop of [rule_delete] over the groups of larger depth. *)
Definition close_gap (i : Z) (l : rte_lpm) : rte_lpm :=
  let info := rule_info l !!! i in
  if 0 <? used_rules info then
    let l1 := set_rules_tbl l
      (<[u32 (first_rule info - 1) :=
           rules_tbl l !!! u32 (first_rule info + used_rules info - 1)]>
         (rules_tbl l)) in
    set_rule_info l1
      (<[i := RuleInfo (used_rules info) (u32 (first_rule info - 1))]> (rule_info l1))
  else l.

Definition rule_delete (l : rte_lpm) (rule_index depth : Z) : rte_lpm :=
  let info := rule_info l !!! (depth - 1) in
  let l1 := set_rules_tbl l
    (<[rule_index :=
         rules_tbl l !!! u32 (first_rule info + used_rules info - 1)]>
       (rules_tbl l)) in
  let l2 := for_range depth RTE_LPM_MAX_DEPTH close_gap l1 in
  let info2 := rule_info l2 !!! (depth - 1) in
  set_rule_info l2
    (<[depth - 1 := RuleInfo (u32 (used_rules info2 - 1)) (first_rule info2)]>
       (rule_info l2)).

Definition rule_delete_v20 := rule_delete.
Definition rule_delete_v1604 := rule_delete.

Definition rule_find (l : rte_lpm) (ip_masked depth : Z) : Z :=
  let info := rule_info l !!! (depth - 1) in
  let rule_gindex := first_rule info in
  let last_rule := u32 (rule_gindex + used_rules info) in
  match scan_group l rule_gindex last_rule ip_masked with
  | Some rule_index => i32 rule_index
  | None => - EINVAL
  end.

Definition rule_find_v20 := rule_find.
Definition rule_find_v1604 := rule_find.

(** ** tbl8 groups *)

(** [memset] of one group followed by [tbl8_entry->valid_group = VALID]. *)
Definition tbl8_clean_group (t : gmap Z rte_lpm_tbl_entry) (group_idx : Z) :
    gmap Z rte_lpm_tbl_entry :=
  let start := group_idx * RTE_LPM_TBL8_GROUP_NUM_ENTRIES in
  let t1 := for_range start (start + RTE_LPM_TBL8_GROUP_NUM_ENTRIES)
              (fun i t => <[i := TblEntry 0 false false 0]> t) t in
  <[start := set_valid_group (t1 !!! start) true]> t1.

Definition tbl8_alloc (t : gmap Z rte_lpm_tbl_entry) (number_tbl8s : Z) :
    gmap Z rte_lpm_tbl_entry * Z :=
  match find_up (Z.to_nat number_tbl8s) 0
          (fun group_idx =>
             negb (e_valid_group (t !!! (group_idx * RTE_LPM_TBL8_GROUP_NUM_ENTRIES)))) with
  | Some group_idx => (tbl8_clean_group t group_idx, group_idx)
  | None => (t, - ENOSPC)
  end.

Definition tbl8_alloc_v20 (t : gmap Z rte_lpm_tbl_entry) :=
  tbl8_alloc t RTE_LPM_TBL8_NUM_GROUPS.
Definition tbl8_alloc_v1604 := tbl8_alloc.

Definition tbl8_free (t : gmap Z rte_lpm_tbl_entry) (tbl8_group_start : Z) :
    gmap Z rte_lpm_tbl_entry :=
  <[tbl8_group_start := set_valid_group (t !!! tbl8_group_start) false]> t.

Definition tbl8_free_v20 := tbl8_free.
Definition tbl8_free_v1604 := tbl8_free.

(** ** Adding a route to the tables *)

(** [if (!tbl8[j].valid || tbl8[j].depth <= depth) tbl8[j] = e]. *)
Definition tbl8_put (depth : Z) (e : rte_lpm_tbl_entry -> rte_lpm_tbl_entry)
    (j : Z) (t : gmap Z rte_lpm_tbl_entry) : gmap Z rte_lpm_tbl_entry :=
  if negb (e_valid (t !!! j)) || (e_depth (t !!! j) <=? depth)
  then <[j := e (t !!! j)]> t else t.

(** Loop body of [add_depth_small] for the tbl24 entry [i]. *)
Definition add_small_step (v : lpm_version) (depth next_hop : Z) (i : Z) (l : rte_lpm) :
    rte_lpm :=
  let e := tbl24 l !!! i in
  if negb (e_valid e) || (negb (e_valid_group e) && (e_depth e <=? depth)) then
    set_tbl24 l (<[i := mk_entry v next_hop true false depth]> (tbl24 l))
  else if e_valid_group e then
    let tbl8_index := e_next_hop e * RTE_LPM_TBL8_GROUP_NUM_ENTRIES in
    let tbl8_group_end := tbl8_index + RTE_LPM_TBL8_GROUP_NUM_ENTRIES in
    set_tbl8 l (for_range tbl8_index tbl8_group_end
      (tbl8_put depth (fun _ => mk_entry v next_hop true true depth)) (tbl8 l))
  else l.

Definition add_depth_small (v : lpm_version) (l : rte_lpm) (ip depth next_hop : Z) :
    rte_lpm * Z :=
  let tbl24_index := Z.shiftr ip 8 in
  let tbl24_range := depth_to_range depth in
  (for_range tbl24_index (u32 (tbl24_index + tbl24_range))
     (add_small_step v depth next_hop) l, 0).

Definition add_depth_small_v20 := add_depth_small V20.
Definition add_depth_small_v1604 := add_depth_small V1604.

(** Writing depth, next hop and [VALID] into an entry, its group flag kept. *)
Definition rule_into (v : lpm_version) (depth next_hop : Z) (e : rte_lpm_tbl_entry) :
    rte_lpm_tbl_entry :=
  mk_entry v next_hop true (e_valid_group e) depth.

Definition add_depth_big (v : lpm_version) (l : rte_lpm) (ip_masked depth next_hop : Z) :
    rte_lpm * Z :=
  let tbl24_index := Z.shiftr ip_masked 8 in
  let tbl8_range := depth_to_range depth in
  let e := tbl24 l !!! tbl24_index in
  if negb (e_valid e) then
    let '(t, tbl8_group_index) := tbl8_alloc (tbl8 l) (num_tbl8s v l) in
    if tbl8_group_index <? 0 then (set_tbl8 l t, tbl8_group_index)
    else
      let tbl8_index :=
        tbl8_group_index * RTE_LPM_TBL8_GROUP_NUM_ENTRIES + Z.land ip_masked 0xFF in
      let t1 := for_range tbl8_index (tbl8_index + tbl8_range)
        (fun i t => <[i := rule_into v depth next_hop (t !!! i)]> t) t in
      let l1 := set_tbl8 l t1 in
      (set_tbl24 l1
         (<[tbl24_index := mk_entry v (u8 tbl8_group_index) true true 0]> (tbl24 l1)), 0)
  else if negb (e_valid_group e) then
    let '(t, tbl8_group_index) := tbl8_alloc (tbl8 l) (num_tbl8s v l) in
    if tbl8_group_index <? 0 then (set_tbl8 l t, tbl8_group_index)
    else
      let tbl8_group_start := tbl8_group_index * RTE_LPM_TBL8_GROUP_NUM_ENTRIES in
      let tbl8_group_end := tbl8_group_start + RTE_LPM_TBL8_GROUP_NUM_ENTRIES in
      let t1 := for_range tbl8_group_start tbl8_group_end
        (fun i t => <[i := rule_into v (e_depth e) (e_next_hop e) (t !!! i)]> t) t in
      let tbl8_index := tbl8_group_start + Z.land ip_masked 0xFF in
      let t2 := for_range tbl8_index (tbl8_index + tbl8_range)
        (tbl8_put depth (rule_into v depth next_hop)) t1 in
      let l1 := set_tbl8 l t2 in
      (set_tbl24 l1
         (<[tbl24_index := mk_entry v (u8 tbl8_group_index) true true 0]> (tbl24 l1)), 0)
  else
    let tbl8_group_start := e_next_hop e * RTE_LPM_TBL8_GROUP_NUM_ENTRIES in
    let tbl8_index := tbl8_group_start + Z.land ip_masked 0xFF in
    (set_tbl8 l (for_range tbl8_index (tbl8_index + tbl8_range)
       (tbl8_put depth (rule_into v depth next_hop)) (tbl8 l)), 0).

Definition add_depth_big_v20 := add_depth_big V20.
Definition add_depth_big_v1604 := add_depth_big V1604.

(** ** The public operations

    A table handle is an [option rte_lpm]: [None] is the NULL pointer the
    functions test for. *)

Definition bad_depth (depth : Z) : bool :=
  (depth <? 1) || (RTE_LPM_MAX_DEPTH <? depth).

Definition rte_lpm_add (v : lpm_version) (lpm : option rte_lpm)
    (ip depth next_hop : Z) : option rte_lpm * Z :=
  match lpm with
  | None => (None, - EINVAL)
  | Some l =>
      if bad_depth depth then (Some l, - EINVAL)
      else
        let ip_masked := Z.land ip (depth_to_mask depth) in
        let '(l1, rule_index) := rule_add v l ip_masked depth next_hop in
        if rule_index <? 0 then (Some l1, rule_index)
        else if depth <=? MAX_DEPTH_TBL24 then
          let '(l2, status) := add_depth_small v l1 ip_masked depth next_hop in
          (Some l2, 0)
        else
          let '(l2, status) := add_depth_big v l1 ip_masked depth next_hop in
          if status <? 0 then (Some (rule_delete l2 rule_index depth), status)
          else (Some l2, 0)
  end.

Definition rte_lpm_add_v20 := rte_lpm_add V20.
Definition rte_lpm_add_v1604 := rte_lpm_add V1604.

(** The out parameter is the second component; [None] as an argument is a
    NULL [next_hop] pointer. *)
Definition rte_lpm_is_rule_present (lpm : option rte_lpm) (ip depth : Z)
    (next_hop : option Z) : Z * option Z :=
  match lpm, next_hop with
  | Some l, Some _ =>
      if bad_depth depth then (- EINVAL, next_hop)
      else
        let ip_masked := Z.land ip (depth_to_mask depth) in
        let rule_index := rule_find l ip_masked depth in
        if 0 <=? rule_index
        then (1, Some (r_next_hop (rules_tbl l !!! rule_index)))
        else (0, next_hop)
  | _, _ => (- EINVAL, next_hop)
  end.

Definition rte_lpm_is_rule_present_v20 := rte_lpm_is_rule_present.
Definition rte_lpm_is_rule_present_v1604 := rte_lpm_is_rule_present.

(** The loop over [prev_depth = depth - 1 .. 1]; the result is the rule index
    (or -1) and [*sub_rule_depth], which keeps its value when nothing is
    found. *)
Fixpoint find_previous_rule_loop (l : rte_lpm) (ip : Z) (prev_depth : nat)
    (sub_rule_depth : Z) : Z * Z :=
  match prev_depth with
  | O => (-1, sub_rule_depth)
  | S p =>
      let d := Z.of_nat prev_depth in
      let ip_masked := Z.land ip (depth_to_mask d) in
      let rule_index := rule_find l ip_masked d in
      if 0 <=? rule_index then (rule_index, d)
      else find_previous_rule_loop l ip p sub_rule_depth
  end.

Definition find_previous_rule (l : rte_lpm) (ip depth sub_rule_depth : Z) : Z * Z :=
  find_previous_rule_loop l ip (Z.to_nat (u8 (depth - 1))) sub_rule_depth.

Definition find_previous_rule_v20 := find_previous_rule.
Definition find_previous_rule_v1604 := find_previous_rule.

(** [if (tbl8[j].depth <= depth) tbl8[j] = e]. *)
Definition tbl8_replace (depth : Z) (e : rte_lpm_tbl_entry -> rte_lpm_tbl_entry)
    (j : Z) (t : gmap Z rte_lpm_tbl_entry) : gmap Z rte_lpm_tbl_entry :=
  if e_depth (t !!! j) <=? depth then <[j := e (t !!! j)]> t else t.

(** The two loop bodies of [delete_depth_small] share their shape: [f24] and
    [f8] are the writes to a tbl24 and to a tbl8 entry. *)
Definition delete_small_step (depth : Z)
    (f24 f8 : rte_lpm_tbl_entry -> rte_lpm_tbl_entry) (i : Z) (l : rte_lpm) : rte_lpm :=
  let e := tbl24 l !!! i in
  if negb (e_valid_group e) && (e_depth e <=? depth) then
    set_tbl24 l (<[i := f24 e]> (tbl24 l))
  else if e_valid_group e then
    let tbl8_index := e_next_hop e * RTE_LPM_TBL8_GROUP_NUM_ENTRIES in
    set_tbl8 l (for_range tbl8_index (tbl8_index + RTE_LPM_TBL8_GROUP_NUM_ENTRIES)
      (tbl8_replace depth f8) (tbl8 l))
  else l.

Definition delete_depth_small (v : lpm_version) (l : rte_lpm)
    (ip_masked depth sub_rule_index sub_rule_depth : Z) : rte_lpm * Z :=
  let tbl24_range := depth_to_range depth in
  let tbl24_index := Z.shiftr ip_masked 8 in
  let tbl24_end := u32 (tbl24_index + tbl24_range) in
  if sub_rule_index <? 0 then
    (for_range tbl24_index tbl24_end
       (delete_small_step depth (fun e => set_valid e false) (fun e => set_valid e false)) l,
     0)
  else
    let hop := r_next_hop (rules_tbl l !!! sub_rule_index) in
    let new_tbl24_entry := mk_entry v hop true false sub_rule_depth in
    let new_tbl8_entry := mk_entry v hop true true sub_rule_depth in
    (for_range tbl24_index tbl24_end
       (delete_small_step depth (fun _ => new_tbl24_entry) (fun _ => new_tbl8_entry)) l,
     0).

Definition delete_depth_small_v20 := delete_depth_small V20.
Definition delete_depth_small_v1604 := delete_depth_small V1604.

Definition tbl8_recycle_check (t : gmap Z rte_lpm_tbl_entry) (tbl8_group_start : Z) : Z :=
  let rest := Z.to_nat (RTE_LPM_TBL8_GROUP_NUM_ENTRIES - 1) in
  let first := t !!! tbl8_group_start in
  if e_valid first then
    if e_depth first <? MAX_DEPTH_TBL24 then
      match find_up rest (tbl8_group_start + 1)
              (fun i => negb (e_depth (t !!! i) =? e_depth first)) with
      | Some _ => - EEXIST
      | None => i32 tbl8_group_start
      end
    else - EEXIST
  else
    match find_up rest (tbl8_group_start + 1) (fun i => e_valid (t !!! i)) with
    | Some _ => - EEXIST
    | None => - EINVAL
    end.

Definition tbl8_recycle_check_v20 := tbl8_recycle_check.
Definition tbl8_recycle_check_v1604 := tbl8_recycle_check.

(** The end of [delete_depth_big], from the call of [tbl8_recycle_check] on. *)
Definition recycle_group (v : lpm_version) (l : rte_lpm)
    (tbl24_index tbl8_group_start : Z) : rte_lpm :=
  let tbl8_recycle_index := tbl8_recycle_check (tbl8 l) tbl8_group_start in
  if tbl8_recycle_index =? - EINVAL then
    let l1 := set_tbl24 l
      (<[tbl24_index := set_valid (tbl24 l !!! tbl24_index) false]> (tbl24 l)) in
    set_tbl8 l1 (tbl8_free (tbl8 l1) tbl8_group_start)
  else if -1 <? tbl8_recycle_index then
    let e8 := tbl8 l !!! tbl8_recycle_index in
    let new_tbl24_entry := mk_entry v (e_next_hop e8) true false (e_depth e8) in
    let l1 := set_tbl24 l (<[tbl24_index := new_tbl24_entry]> (tbl24 l)) in
    set_tbl8 l1 (tbl8_free (tbl8 l1) tbl8_group_start)
  else l.

Definition delete_depth_big (v : lpm_version) (l : rte_lpm)
    (ip_masked depth sub_rule_index sub_rule_depth : Z) : rte_lpm * Z :=
  let tbl24_index := Z.shiftr ip_masked 8 in
  let tbl8_group_index := e_next_hop (tbl24 l !!! tbl24_index) in
  let tbl8_group_start := tbl8_group_index * RTE_LPM_TBL8_GROUP_NUM_ENTRIES in
  let tbl8_index := tbl8_group_start + Z.land ip_masked 0xFF in
  let tbl8_range := depth_to_range depth in
  let t :=
    if sub_rule_index <? 0 then
      for_range tbl8_index (tbl8_index + tbl8_range)
        (tbl8_replace depth (fun e => set_valid e false)) (tbl8 l)
    else
      let new_tbl8_entry :=
        mk_entry v (r_next_hop (rules_tbl l !!! sub_rule_index)) true
          (e_valid_group (tbl8 l !!! tbl8_group_start)) sub_rule_depth in
      for_range tbl8_index (tbl8_index + tbl8_range)
        (tbl8_replace depth (fun _ => new_tbl8_entry)) (tbl8 l) in
  (recycle_group v (set_tbl8 l t) tbl24_index tbl8_group_start, 0).

Definition delete_depth_big_v20 := delete_depth_big V20.
Definition delete_depth_big_v1604 := delete_depth_big V1604.

Definition rte_lpm_delete (v : lpm_version) (lpm : option rte_lpm) (ip depth : Z) :
    option rte_lpm * Z :=
  match lpm with
  | None => (None, - EINVAL)
  | Some l =>
      if bad_depth depth then (Some l, - EINVAL)
      else
        let ip_masked := Z.land ip (depth_to_mask depth) in
        let rule_to_delete_index := rule_find l ip_masked depth in
        if rule_to_delete_index <? 0 then (Some l, - EINVAL)
        else
          let l1 := rule_delete l rule_to_delete_index depth in
          let '(sub_rule_index, sub_rule_depth) := find_previous_rule l1 ip depth 0 in
          let '(l2, status) :=
            if depth <=? MAX_DEPTH_TBL24
            then delete_depth_small v l1 ip_masked depth sub_rule_index sub_rule_depth
            else delete_depth_big v l1 ip_masked depth sub_rule_index sub_rule_depth in
          (Some l2, status)
  end.

Definition rte_lpm_delete_v20 := rte_lpm_delete V20.
Definition rte_lpm_delete_v1604 := rte_lpm_delete V1604.

(** [memset] to zero of every array. *)
Definition rte_lpm_delete_all (l : rte_lpm) : rte_lpm :=
  set_rules_tbl (set_tbl8 (set_tbl24 (set_rule_info l empty) empty) empty) empty.

Definition rte_lpm_delete_all_v20 := rte_lpm_delete_all.
Definition rte_lpm_delete_all_v1604 := rte_lpm_delete_all.

(** The zeroed table [rte_lpm_create] returns. *)
Definition empty_lpm (max_rules number_tbl8s : Z) : rte_lpm :=
  Lpm max_rules number_tbl8s empty empty empty empty.

(** ** Lookup (16.04 layout, little endian)

    The functions read an entry through a [const uint32_t *]: [entry_word] is
    the word the bit-fields occupy. *)

Definition entry_word (e : rte_lpm_tbl_entry) : Z :=
  Z.lor (e_next_hop e)
    (Z.lor (Z.shiftl (Z.b2z (e_valid e)) 24)
       (Z.lor (Z.shiftl (Z.b2z (e_valid_group e)) 25) (Z.shiftl (e_depth e) 26))).

Definition is_ext_word (tbl_entry : Z) : bool :=
  Z.land tbl_entry RTE_LPM_VALID_EXT_ENTRY_BITMASK =? RTE_LPM_VALID_EXT_ENTRY_BITMASK.

(** The word the two dependent loads end with. *)
Definition lookup_word (l : rte_lpm) (ip : Z) : Z :=
  let tbl_entry := entry_word (tbl24 l !!! Z.shiftr ip 8) in
  if is_ext_word tbl_entry then
    let tbl8_index :=
      u32 (u8 ip + Z.land tbl_entry 0x00FFFFFF * RTE_LPM_TBL8_GROUP_NUM_ENTRIES) in
    entry_word (tbl8 l !!! tbl8_index)
  else tbl_entry.

(** Result: the return value and [*next_hop]. *)
Definition rte_lpm_lookup (l : rte_lpm) (ip : Z) : Z * Z :=
  let tbl_entry := lookup_word l ip in
  ((if Z.land tbl_entry RTE_LPM_LOOKUP_SUCCESS =? 0 then - ENOENT else 0),
   Z.land tbl_entry 0x00FFFFFF).

(** The filled [next_hops] array; the return value is always 0. *)
Definition rte_lpm_lookup_bulk_func (l : rte_lpm) (ips : list Z) : Z * list Z :=
  (0, map (lookup_word l) ips).

(** One lane of the slow path of [rte_lpm_lookupx4]: [pt_lane] is the part of
    the packed word tested for the extension flags, [tbl_k] the tbl24 word and
    [i8_k] the low byte of the address. *)
Definition x4_lane (l : rte_lpm) (pt_lane tbl_k i8_k : Z) : Z :=
  if is_ext_word pt_lane then
    let i8' := u32 (i8_k + u8 tbl_k * RTE_LPM_TBL8_GROUP_NUM_ENTRIES) in
    entry_word (tbl8 l !!! i8')
  else tbl_k.

Definition x4_hop (defv tbl_k : Z) : Z :=
  if Z.land tbl_k RTE_LPM_LOOKUP_SUCCESS =? 0 then defv else Z.land tbl_k 0x00FFFFFF.

Definition RTE_LPM_MASKX4_RES : Z := 0x00ffffff00ffffff.

(** [rte_lpm_lookupx4] (SSE): four addresses at once, two tbl24 words packed
    in each of [pt] and [pt2]. *)
Definition rte_lpm_lookupx4 (l : rte_lpm) (ip0 ip1 ip2 ip3 defv : Z) : Z * Z * Z * Z :=
  let mask_xv := Z.lor RTE_LPM_VALID_EXT_ENTRY_BITMASK
                   (Z.shiftl RTE_LPM_VALID_EXT_ENTRY_BITMASK 32) in
  let mask_v := Z.lor RTE_LPM_LOOKUP_SUCCESS (Z.shiftl RTE_LPM_LOOKUP_SUCCESS 32) in
  let tbl0 := entry_word (tbl24 l !!! Z.shiftr ip0 8) in
  let tbl1 := entry_word (tbl24 l !!! Z.shiftr ip1 8) in
  let tbl2 := entry_word (tbl24 l !!! Z.shiftr ip2 8) in
  let tbl3 := entry_word (tbl24 l !!! Z.shiftr ip3 8) in
  let pt := Z.lor tbl0 (Z.shiftl tbl1 32) in
  let pt2 := Z.lor tbl2 (Z.shiftl tbl3 32) in
  if (Z.land pt mask_xv =? mask_v) && (Z.land pt2 mask_xv =? mask_v) then
    let h := Z.land pt RTE_LPM_MASKX4_RES in
    let h2 := Z.land pt2 RTE_LPM_MASKX4_RES in
    (u32 h, Z.shiftr h 32, u32 h2, Z.shiftr h2 32)
  else
    let t0 := x4_lane l pt tbl0 (Z.land ip0 0xFF) in
    let t1 := x4_lane l (Z.shiftr pt 32) tbl1 (Z.land ip1 0xFF) in
    let t2 := x4_lane l pt2 tbl2 (Z.land ip2 0xFF) in
    let t3 := x4_lane l (Z.shiftr pt2 32) tbl3 (Z.land ip3 0xFF) in
    (x4_hop defv t0, x4_hop defv t1, x4_hop defv t2, x4_hop defv t3).
