(* ===== verification/LpmRules.v ===== *)
(** * IPv4 LPM: the rule table

    The rule table of [rte_lpm.c] keeps the rules of all depths in one array,
    group after group in the order of the depth.  This file states the layout
    invariant that [rule_add] and [rule_delete] maintain and proves that the
    three operations [rule_add], [rule_delete] and [rule_find] implement
    insertion, removal and search in a finite map from (depth, masked address)
    to next hop. *)

From S2P Require Import Prelude Lpm.

(** ** The abstract rule set *)

Abbreviation routes := (gmap (Z * Z) Z).

(** ** Prefix sums of the group sizes *)

Fixpoint psum_nat (f : Z -> Z) (n : nat) : Z :=
  match n with
  | O => 0
  | S k => psum_nat f k + f (Z.of_nat (S k))
  end.

(** [psum f d] is [f 1 + ... + f d]. *)
Definition psum (f : Z -> Z) (d : Z) : Z := psum_nat f (Z.to_nat d).

Lemma psum_0 f : psum f 0 = 0.
Proof. done. Qed.

Lemma psum_step f d : 1 <= d -> psum f d = psum f (d - 1) + f d.
Proof.
  intros. unfold psum. replace (Z.to_nat d) with (S (Z.to_nat (d - 1))) by lia.
  cbn [psum_nat]. do 2 f_equal. lia.
Qed.

Lemma psum_mono f d d' n :
  (forall k, 1 <= k <= n -> 0 <= f k) -> 0 <= d <= d' -> d' <= n ->
  psum f d <= psum f d'.
Proof.
  intros Hf Hd Hn. replace d' with (d + (d' - d)) in * by lia.
  assert (H : 0 <= d' - d) by lia. revert H Hn. generalize (d' - d).
  apply (natlike_ind (fun x => d + x <= n -> psum f d <= psum f (d + x))).
  - rewrite Z.add_0_r. lia.
  - intros x Hx IH Hn. rewrite (psum_step f (d + Z.succ x)) by lia.
    replace (d + Z.succ x - 1) with (d + x) by lia.
    specialize (Hf (d + Z.succ x)). lia.
Qed.

Lemma psum_change f g k c n :
  (forall d, 1 <= d <= n -> g d = if decide (d = k) then f d + c else f d) ->
  1 <= k -> 0 <= n ->
  psum g n = psum f n + if decide (k <= n) then c else 0.
Proof.
  intros Hg Hk Hn. revert n Hn Hg.
  apply (natlike_ind (fun n => (forall d, 1 <= d <= n -> _) -> _)).
  - intros _. rewrite !psum_0, decide_False by lia. done.
  - intros n Hn IH Hg. rewrite !(psum_step _ (Z.succ n)) by lia.
    replace (Z.succ n - 1) with n by lia. rewrite IH by (intros; apply Hg; lia).
    rewrite Hg by lia. repeat case_decide; lia.
Qed.

(** ** One group of rules *)

(** The slots [f .. f+u-1] hold exactly the rules of [G], each once. *)
Definition grp (rules : gmap Z rte_lpm_rule) (f u : Z) (G : Z -> option Z) : Prop :=
  (forall ip nh, G ip = Some nh <->
     exists j, f <= j < f + u /\ rules !!! j = Rule ip nh) /\
  (forall j k, f <= j < f + u -> f <= k < f + u ->
     r_ip (rules !!! j) = r_ip (rules !!! k) -> j = k).

Lemma rule_eta (r : rte_lpm_rule) : r = Rule (r_ip r) (r_next_hop r).
Proof. by destruct r. Qed.

Lemma grp_at rules f u G j :
  grp rules f u G -> f <= j < f + u ->
  G (r_ip (rules !!! j)) = Some (r_next_hop (rules !!! j)).
Proof. intros [HG _] Hj. apply HG. exists j. split; [done|apply rule_eta]. Qed.

(** Writing outside the slots of a group does not change it. *)
Lemma grp_frame rules f u G x r :
  grp rules f u G -> ~ (f <= x < f + u) -> grp (<[x := r]> rules) f u G.
Proof.
  intros [HG HU] Hx. split.
  - intros ip nh. rewrite HG. split; intros (j & Hj & E); exists j; split; try done.
    + rewrite lookup_total_insert_ne by lia. done.
    + rewrite lookup_total_insert_ne in E by lia. done.
  - intros j k Hj Hk. rewrite !lookup_total_insert_ne by lia. by apply HU.
Qed.

Lemma grp_ext rules f u G G' :
  (forall ip, G ip = G' ip) -> grp rules f u G -> grp rules f u G'.
Proof. intros He [HG HU]. split; [|done]. intros. rewrite <- He. apply HG. Qed.

(** A permutation of the slots of a group: [p] sends the new slots to the old
    ones. *)
Lemma grp_move rules rules' f f' u G (p q : Z -> Z) :
  grp rules f u G ->
  (forall j, f' <= j < f' + u -> f <= p j < f + u /\ rules' !!! j = rules !!! p j) ->
  (forall j, f <= j < f + u -> f' <= q j < f' + u /\ p (q j) = j) ->
  (forall j k, f' <= j < f' + u -> f' <= k < f' + u -> p j = p k -> j = k) ->
  grp rules' f' u G.
Proof.
  intros [HG HU] Hp Hq Hinj. split.
  - intros ip nh. rewrite HG. split; intros (j & Hj & E).
    + destruct (Hq j Hj) as [Hqj Hpq]. exists (q j). split; [done|].
      destruct (Hp _ Hqj) as [_ ->]. by rewrite Hpq.
    + destruct (Hp j Hj) as [Hpj E']. exists (p j). split; [done|congruence].
  - intros j k Hj Hk. destruct (Hp j Hj) as [? ->], (Hp k Hk) as [? ->].
    intros E. apply Hinj; try done. by apply HU.
Qed.

(** Moving the first rule to the slot after the last one. *)
Lemma grp_shift_up rules f u G :
  grp rules f u G -> 0 < u -> grp (<[f + u := rules !!! f]> rules) (f + 1) u G.
Proof.
  intros HG Hu.
  apply (grp_move rules _ f (f + 1) u G
    (fun j => if decide (j = f + u) then f else j)
    (fun j => if decide (j = f) then f + u else j)); [done|..].
  - intros j Hj. rewrite lookup_total_insert. repeat case_decide; split; try lia; done.
  - intros j Hj. repeat case_decide; lia.
  - intros j k Hj Hk. repeat case_decide; lia.
Qed.

(** Moving the last rule to the slot before the first one. *)
Lemma grp_shift_down rules f u G :
  grp rules f u G -> 0 < u ->
  grp (<[f - 1 := rules !!! (f + u - 1)]> rules) (f - 1) u G.
Proof.
  intros HG Hu.
  apply (grp_move rules _ f (f - 1) u G
    (fun j => if decide (j = f - 1) then f + u - 1 else j)
    (fun j => if decide (j = f + u - 1) then f - 1 else j)); [done|..].
  - intros j Hj. rewrite lookup_total_insert. repeat case_decide; split; try lia; done.
  - intros j Hj. repeat case_decide; lia.
  - intros j k Hj Hk. repeat case_decide; lia.
Qed.

(** Appending a rule whose address is new to the group. *)
Lemma grp_append rules f u G ip nh :
  grp rules f u G -> 0 <= u -> G ip = None ->
  grp (<[f + u := Rule ip nh]> rules) f (u + 1)
    (fun a => if decide (a = ip) then Some nh else G a).
Proof.
  intros [HG HU] Hu Hnew.
  assert (Hfresh : forall j, f <= j < f + u -> r_ip (rules !!! j) <> ip).
  { intros j Hj E. pose proof (grp_at _ _ _ _ j (conj HG HU) Hj) as HA. congruence. }
  split.
  - intros a b. case_decide as Ea; [subst a|].
    + split.
      * intros [= ->]. exists (f + u). split; [lia|]. by rewrite lookup_total_insert_eq.
      * intros (j & Hj & E). rewrite lookup_total_insert in E. case_decide; [congruence|].
        exfalso. apply (Hfresh j); [lia|]. by rewrite E.
    + rewrite HG. split; intros (j & Hj & E); exists j.
      * rewrite lookup_total_insert_ne by lia. split; [lia|done].
      * rewrite lookup_total_insert in E. case_decide; [congruence|]. split; [lia|done].
  - intros j k Hj Hk. rewrite !lookup_total_insert.
    repeat case_decide; subst; simpl; intros E; try done.
    + exfalso. apply (Hfresh k); [lia|done].
    + exfalso. apply (Hfresh j); [lia|done].
    + apply HU; [lia..|done].
Qed.

(** Changing the next hop of the rule in slot [x]. *)
Lemma grp_update rules f u G x nh :
  grp rules f u G -> f <= x < f + u ->
  grp (<[x := Rule (r_ip (rules !!! x)) nh]> rules) f u
    (fun a => if decide (a = r_ip (rules !!! x)) then Some nh else G a).
Proof.
  intros [HG HU] Hx. split.
  - intros a b. case_decide as Ea; [subst a|].
    + split.
      * intros [= ->]. exists x. split; [lia|]. by rewrite lookup_total_insert_eq.
      * intros (j & Hj & E). rewrite lookup_total_insert in E. case_decide; [congruence|].
        exfalso. assert (j = x); [|congruence].
        apply HU; [lia..|]. by rewrite E.
    + rewrite HG. split; intros (j & Hj & E); exists j; (split; [done|]).
      * rewrite lookup_total_insert_ne; [done|]. intros ->. rewrite E in Ea. done.
      * rewrite lookup_total_insert in E. case_decide; [congruence|done].
  - intros j k Hj Hk. rewrite !lookup_total_insert.
    repeat case_decide; subst; simpl; intros E; try done; by apply HU.
Qed.

(** Overwriting the rule in slot [x] by the last one and dropping the last
    slot removes the address of slot [x]. *)
Lemma grp_remove rules f u G x :
  grp rules f u G -> f <= x < f + u ->
  grp (<[x := rules !!! (f + u - 1)]> rules) f (u - 1)
    (fun a => if decide (a = r_ip (rules !!! x)) then None else G a).
Proof.
  intros [HG HU] Hx. split.
  - intros a b. case_decide as Ea; [subst a|].
    + split; [done|]. intros (j & Hj & E). exfalso.
      rewrite lookup_total_insert in E. case_decide as Hxj.
      * assert (f + u - 1 = x) by (apply HU; [lia..|by rewrite E]). lia.
      * assert (j = x) by (apply HU; [lia..|by rewrite E]). lia.
    + rewrite HG. split; intros (j & Hj & E).
      * destruct (decide (j = f + u - 1)) as [->|Hne].
        -- exists x. rewrite lookup_total_insert_eq. split; [|done].
           destruct (decide (x = f + u - 1)) as [->|]; [|lia]. rewrite E in Ea. done.
        -- exists j. split; [lia|]. rewrite lookup_total_insert_ne; [done|].
           intros ->. rewrite E in Ea. done.
      * rewrite lookup_total_insert in E. case_decide.
        -- exists (f + u - 1). split; [lia|done].
        -- exists j. split; [lia|done].
  - intros j k Hj Hk. rewrite !lookup_total_insert.
    repeat case_decide; subst; intros E; try done.
    + assert (f + u - 1 = k) by (apply HU; [lia..|done]). lia.
    + assert (j = f + u - 1) by (apply HU; [lia..|done]). lia.
    + apply HU; [lia..|done].
Qed.

(** The scan loops find the slot of an address, or prove that it is absent. *)
Lemma scan_group_Some l f u G ip k :
  grp (rules_tbl l) f u G -> scan_group l f (f + u) ip = Some k ->
  f <= k < f + u /\ r_ip (rules_tbl l !!! k) = ip.
Proof.
  intros _ Hs. apply find_up_Some in Hs as (Hk & E & _). split; [lia|].
  by apply Z.eqb_eq in E.
Qed.

Lemma scan_group_None l f u G ip :
  grp (rules_tbl l) f u G -> 0 <= u -> scan_group l f (f + u) ip = None -> G ip = None.
Proof.
  intros [HG _] Hu Hs. destruct (G ip) as [nh|] eqn:E; [|done].
  apply HG in E as (j & Hj & E). unfold scan_group in Hs.
  rewrite find_up_None in Hs. specialize (Hs j). rewrite E in Hs. simpl in Hs.
  rewrite Z.eqb_refl in Hs. exfalso. assert (true = false) by (apply Hs; lia). done.
Qed.

(** ** Layout of the whole rule table *)

Definition ru (l : rte_lpm) (d : Z) : Z := used_rules (rule_info l !!! (d - 1)).
Definition rf (l : rte_lpm) (d : Z) : Z := first_rule (rule_info l !!! (d - 1)).

(** The layout with every non-empty group [d] displaced by [s d] slots: the
    loops of [rule_add] and [rule_delete] pass through displaced layouts. *)
Record layout (l : rte_lpm) (R : routes) (s : Z -> Z) : Prop := Layout {
  ly_max : 0 < max_rules l < 2 ^ 31;
  ly_used : forall d, 1 <= d <= 32 -> 0 <= ru l d;
  ly_first : forall d, 1 <= d <= 32 -> 0 < ru l d -> rf l d = psum (ru l) (d - 1) + s d;
  ly_stale : forall d, 1 <= d <= 32 -> 0 <= rf l d < max_rules l;
  ly_total : psum (ru l) 32 <= max_rules l;
  ly_grp : forall d, 1 <= d <= 32 ->
    grp (rules_tbl l) (rf l d) (ru l d) (fun ip => R !! (d, ip));
  ly_dom : forall d ip, is_Some (R !! (d, ip)) -> 1 <= d <= 32;
  ly_size : psum (ru l) 32 = Z.of_nat (size R)
}.

(** The invariant of the rule table between two operations. *)
Definition rules_inv (l : rte_lpm) (R : routes) : Prop := layout l R (fun _ => 0).

(** What the rule operations leave alone. *)
Definition same_tables (l l' : rte_lpm) : Prop :=
  max_rules l' = max_rules l /\ number_tbl8s l' = number_tbl8s l /\
  tbl24 l' = tbl24 l /\ tbl8 l' = tbl8 l.

#[export] Instance same_tables_preorder : PreOrder same_tables.
Proof.
  split; [by intros l|]. unfold same_tables. intros a b c (?&?&?&?) (?&?&?&?).
  repeat split; congruence.
Qed.

Section layout_lemmas.
Context (l : rte_lpm) (R : routes) (s : Z -> Z) (HL : layout l R s).

Lemma layout_psum d d' : 0 <= d <= d' -> d' <= 32 -> psum (ru l) d <= psum (ru l) d'.
Proof. intros. apply (psum_mono _ _ _ 32); [apply (ly_used _ _ _ HL)|lia..]. Qed.

Lemma layout_psum_step d : 1 <= d <= 32 -> psum (ru l) d = psum (ru l) (d - 1) + ru l d.
Proof. intros. apply psum_step. lia. Qed.

Lemma layout_psum_bounds d : 0 <= d <= 32 -> 0 <= psum (ru l) d <= max_rules l.
Proof.
  intros. pose proof (layout_psum 0 d). pose proof (layout_psum d 32).
  pose proof (ly_total _ _ _ HL). rewrite psum_0 in *. lia.
Qed.

(** Everything the arithmetic of one group needs. *)
Lemma layout_group d :
  1 <= d <= 32 ->
  0 <= ru l d <= max_rules l /\ 0 <= rf l d < max_rules l /\
  psum (ru l) d = psum (ru l) (d - 1) + ru l d /\
  0 <= psum (ru l) (d - 1) <= max_rules l /\ psum (ru l) d <= max_rules l /\
  (0 < ru l d -> rf l d = psum (ru l) (d - 1) + s d).
Proof.
  intros Hd. pose proof (layout_psum_bounds (d - 1)). pose proof (layout_psum_bounds d).
  pose proof (layout_psum_step d Hd). pose proof (ly_used _ _ _ HL d Hd).
  pose proof (ly_stale _ _ _ HL d Hd). pose proof (ly_first _ _ _ HL d Hd). lia.
Qed.

End layout_lemmas.

(** [prev_group_end] computes the end of the smaller groups. *)
Lemma prev_group_end_spec l R n :
  rules_inv l R -> (n <= 32)%nat -> prev_group_end l n = psum (ru l) (Z.of_nat n).
Proof.
  intros HL. induction n as [|n IH]; intros Hn; [done|]. cbn [prev_group_end].
  pose proof (layout_group _ _ _ HL (Z.of_nat (S n)) ltac:(lia)) as (?&?&E&?&?&?).
  pose proof (ly_max _ _ _ HL).
  unfold ru, rf in *. replace (Z.of_nat (S n) - 1) with (Z.of_nat n) in * by lia.
  destruct (Z.ltb_spec 0 (used_rules (rule_info l !!! Z.of_nat n))).
  - rewrite u32_small by lia. fold (ru l) in *. lia.
  - rewrite IH by lia. fold (ru l) in *. lia.
Qed.

(** Shifting group [i] up by one slot, the body of the make-room loop. *)
Definition shift_up (l : rte_lpm) (i : Z) : rte_lpm :=
  set_rule_info
    (set_rules_tbl l (<[rf l i + ru l i := rules_tbl l !!! rf l i]> (rules_tbl l)))
    (<[i - 1 := RuleInfo (ru l i) (rf l i + 1)]> (rule_info l)).

Lemma info_insert (m : gmap Z rte_lpm_rule_info) d i x :
  <[i - 1 := x]> m !!! (d - 1) = if decide (d = i) then x else m !!! (d - 1).
Proof. rewrite lookup_total_insert. repeat case_decide; lia || done. Qed.

Lemma shift_up_ru l i d : ru (shift_up l i) d = ru l d.
Proof.
  unfold ru at 1, shift_up. cbn. rewrite info_insert. case_decide; [by subst|done].
Qed.

Lemma shift_up_rf l i d :
  rf (shift_up l i) d = if decide (d = i) then rf l i + 1 else rf l d.
Proof. unfold rf at 1, shift_up. cbn. rewrite info_insert. by case_decide. Qed.

Lemma psum_ext f g n :
  (forall d, 1 <= d <= n -> f d = g d) -> 0 <= n -> psum f n = psum g n.
Proof.
  intros H Hn. revert n Hn H. apply (natlike_ind (fun n => (forall d, _ -> _) -> _)).
  - done.
  - intros n Hn IH H. rewrite !(psum_step _ (Z.succ n)) by lia.
    rewrite Z.sub_1_r, Z.pred_succ, IH by (intros; apply H; lia). f_equal. apply H. lia.
Qed.

Lemma shift_up_layout l R i :
  layout l R (fun d => if decide (i < d) then 1 else 0) ->
  1 <= i <= 32 -> 0 < ru l i -> psum (ru l) 32 < max_rules l ->
  layout (shift_up l i) R (fun d => if decide (i - 1 < d) then 1 else 0).
Proof.
  intros HL Hi Hu Ht. pose proof (layout_group _ _ _ HL) as LG.
  pose proof (shift_up_ru l i) as Hru. pose proof (shift_up_rf l i) as Hrf.
  assert (Hps : forall d, 0 <= d -> psum (ru (shift_up l i)) d = psum (ru l) d).
  { intros. apply psum_ext; auto. }
  pose proof (LG i Hi) as (?&?&?&?&?&Hfi). specialize (Hfi Hu).
  rewrite decide_False in Hfi by lia.
  pose proof (layout_psum _ _ _ HL i 32).
  destruct HL as [Hm Hus Hfs Hst Hto Hg Hdom Hsz].
  split; intros; rewrite ?Hru, ?Hrf, ?Hps in * by lia; try done; try (apply Hus; done).
  - case_decide as Ed; [subst d; rewrite decide_True by lia; lia|].
    rewrite Hfs by done. repeat case_decide; lia.
  - change (max_rules (shift_up l i)) with (max_rules l). case_decide; [lia|]. by apply Hst.
  - case_decide as Ed; [subst d; by apply grp_shift_up; [apply Hg|]|].
    apply grp_frame; [by apply Hg|]. intros Hin. pose proof (LG d) as (?&?&?&?&?&Hfd); [done|].
    assert (0 < ru l d) as Hp by lia. specialize (Hfd Hp).
    destruct (decide (i < d)).
    + pose proof (psum_mono (ru l) i (d - 1) 32 Hus). lia.
    + pose proof (psum_mono (ru l) d (i - 1) 32 Hus). lia.
  - by apply Hdom with ip.
Qed.

(** One iteration of the make-room loop, away from 32-bit overflow. *)
Lemma make_room_S l n i :
  0 <= rf l i < 2 ^ 31 -> 0 <= ru l i < 2 ^ 31 ->
  make_room l (S n) i =
    if rf l i + ru l i =? max_rules l then (l, false)
    else make_room (if 0 <? ru l i then shift_up l i else l) n (i - 1).
Proof.
  intros Hf Hu. cbn [make_room]. unfold shift_up. fold (rf l i) (ru l i).
  by rewrite !u32_small by lia.
Qed.

Lemma make_room_ok n l R i :
  layout l R (fun d => if decide (i < d) then 1 else 0) ->
  i <= 32 -> Z.of_nat n <= i -> psum (ru l) 32 < max_rules l ->
  exists l', make_room l n i = (l', true) /\
    layout l' R (fun d => if decide (i - Z.of_nat n < d) then 1 else 0) /\
    same_tables l l' /\ (forall d, ru l' d = ru l d) /\
    (forall d, d <= i - Z.of_nat n -> rf l' d = rf l d).
Proof.
  revert l i. induction n as [|n IH]; intros l i HL Hi Hn Ht.
  - exists l. rewrite Z.sub_0_r. by split_and!.
  - pose proof (layout_group _ _ _ HL i ltac:(lia)) as (?&?&?&?&?&Hfi).
    pose proof (layout_psum _ _ _ HL i 32 ltac:(lia) ltac:(lia)).
    pose proof (ly_max _ _ _ HL). rewrite (decide_False (P := i < i)) in Hfi by lia.
    rewrite make_room_S by lia.
    destruct (Z.eqb_spec (rf l i + ru l i) (max_rules l)); [lia|].
    replace (i - Z.of_nat (S n)) with (i - 1 - Z.of_nat n) by lia.
    destruct (Z.ltb_spec 0 (ru l i)).
    + assert (HL' := shift_up_layout l R i HL ltac:(lia) ltac:(done) Ht).
      destruct (IH (shift_up l i) (i - 1)) as (l' & -> & HLl & Hst & Hr & Hf);
        [done|lia|lia|rewrite (psum_ext _ (ru l)); [done|intros; apply shift_up_ru|lia]|].
      exists l'. split_and!; [done|done|by etrans|..].
      * intros. by rewrite Hr, shift_up_ru.
      * intros. rewrite Hf, shift_up_rf, decide_False by lia. done.
    + destruct (IH l (i - 1)) as (l' & -> & HLl & Hst & Hr & Hf); [|lia..|].
      * destruct HL. split; try done. intros d Hd Hu. rewrite ly_first0 by done.
        f_equal. assert (d <> i) by (intros ->; lia). repeat case_decide; lia.
      * by exists l'.
Qed.

(** With the array full and a non-empty group above [depth], the loop stops
    at that group, before any rule is moved. *)
Lemma make_room_full n l R i :
  rules_inv l R -> i <= 32 -> Z.of_nat n <= i ->
  psum (ru l) i = max_rules l -> psum (ru l) (i - Z.of_nat n) < max_rules l ->
  make_room l n i = (l, false).
Proof.
  intros HL. revert i. induction n as [|n IH]; intros i Hi Hn Hfull Hlow.
  - rewrite Z.sub_0_r in Hlow. lia.
  - pose proof (layout_group _ _ _ HL i ltac:(lia)) as (?&?&?&?&?&Hfi).
    pose proof (ly_max _ _ _ HL). rewrite make_room_S by lia.
    destruct (Z.eqb_spec (rf l i + ru l i) (max_rules l)); [done|].
    destruct (Z.ltb_spec 0 (ru l i)); [lia|].
    apply IH; [lia..|]. by replace (i - 1 - Z.of_nat n) with (i - Z.of_nat (S n)) by lia.
Qed.

(** Writing a new rule into the slot after group [depth], once the larger
    groups have moved. *)
Lemma store_rule_layout l R depth ip nh :
  layout l R (fun d => if decide (depth < d) then 1 else 0) ->
  1 <= depth <= 32 -> rf l depth = psum (ru l) (depth - 1) ->
  psum (ru l) 32 < max_rules l -> R !! (depth, ip) = None ->
  rules_inv
    (set_rule_info
       (set_rules_tbl l (<[rf l depth + ru l depth := Rule ip nh]> (rules_tbl l)))
       (<[depth - 1 := RuleInfo (ru l depth + 1) (rf l depth)]> (rule_info l)))
    (<[(depth, ip) := nh]> R).
Proof.
  intros HL Hd Hrf Ht Hnew. set (l' := set_rule_info _ _).
  pose proof (layout_group _ _ _ HL) as LG.
  assert (Hru' : forall d, ru l' d = if decide (d = depth) then ru l d + 1 else ru l d).
  { intros d. unfold ru at 1, l'. cbn. rewrite info_insert. case_decide; by subst. }
  assert (Hrf' : forall d, rf l' d = rf l d).
  { intros d. unfold rf at 1, l'. cbn. rewrite info_insert. case_decide; by subst. }
  assert (Hps : forall d, 0 <= d <= 32 ->
    psum (ru l') d = psum (ru l) d + if decide (depth <= d) then 1 else 0).
  { intros. apply psum_change; [|lia..]. intros. apply Hru'. }
  pose proof (layout_psum_bounds _ _ _ HL). pose proof (layout_psum _ _ _ HL depth 32).
  destruct HL as [Hm Hus Hfs Hst Hto Hg Hdom Hsz].
  split; try done.
  - intros d Hd'. rewrite Hru'. specialize (Hus d Hd'). case_decide; lia.
  - intros d Hd'. rewrite Hru', Hrf', Hps by lia. intros Hp.
    repeat case_decide; subst; try lia; rewrite Hfs by lia; repeat case_decide; lia.
  - intros. rewrite Hrf'. by apply Hst.
  - rewrite Hps by lia. change (max_rules l') with (max_rules l). case_decide; lia.
  - intros d Hd'. rewrite Hru', Hrf'. change (rules_tbl l') with
      (<[rf l depth + ru l depth := Rule ip nh]> (rules_tbl l)).
    destruct (decide (d = depth)) as [->|Hne].
    + eapply grp_ext; [|apply (grp_append _ _ _ _ ip nh (Hg depth Hd)); auto].
      intros a. rewrite lookup_insert. repeat case_decide; congruence.
    + eapply grp_ext; [|apply grp_frame; [by apply Hg|]].
      * intros a. rewrite lookup_insert_ne by congruence. done.
      * intros Hin. pose proof (LG d Hd') as (?&?&?&?&?&Hfd). pose proof (LG depth Hd).
        specialize (Hfd ltac:(lia)). case_decide.
        -- pose proof (psum_mono (ru l) depth (d - 1) 32 Hus). lia.
        -- pose proof (psum_mono (ru l) d (depth - 1) 32 Hus). lia.
  - intros d a [x Hx]. rewrite lookup_insert in Hx. case_decide as Hk; [injection Hk; lia|eauto].
  - rewrite Hps, map_size_insert_None, decide_True by (done || lia). lia.
Qed.

(** What [rule_add] promises: it is insertion in the map, it fails exactly
    when the rule is new and the array holds [max_rules] rules, and on success
    the result is the slot of the rule. *)
Definition rule_add_post (v : lpm_version) (l : rte_lpm) (R : routes) (ip depth nh : Z)
    (res : rte_lpm * Z) : Prop :=
  let '(l', r) := res in
  same_tables l l' /\
  ((r = - ENOSPC /\ R !! (depth, ip) = None /\
      Z.of_nat (size R) = max_rules l /\ rules_inv l' R) \/
   (rules_inv l' (<[(depth, ip) := wrap (rule_hop_bits v) nh]> R) /\
      (R !! (depth, ip) = None -> Z.of_nat (size R) < max_rules l) /\
      rf l' depth <= r < rf l' depth + ru l' depth /\ r_ip (rules_tbl l' !!! r) = ip)).

Lemma store_rule_spec v l R depth ip nh :
  rules_inv l R -> 1 <= depth <= 32 -> rf l depth = psum (ru l) (depth - 1) ->
  psum (ru l) depth <> max_rules l -> R !! (depth, ip) = None ->
  rule_add_post v l R ip depth nh (store_rule v l ip depth nh (psum (ru l) depth)).
Proof.
  intros HL Hd Hrf Hlt Hnew. unfold store_rule, RTE_LPM_MAX_DEPTH.
  pose proof (layout_group _ _ _ HL depth Hd) as (?&?&?&?&?&?).
  pose proof (ly_max _ _ _ HL). pose proof (ly_total _ _ _ HL). pose proof (ly_size _ _ _ HL).
  destruct (decide (psum (ru l) 32 = max_rules l)) as [Hfull|Hroom].
  - rewrite (make_room_full _ l R) by (done || lia || (rewrite Z2Nat.id by lia;
      replace (32 - (32 - depth)) with depth by lia; lia)).
    split; [done|]. left. split_and!; try done. lia.
  - destruct (make_room_ok (Z.to_nat (32 - depth)) l R 32) as
      (l1 & -> & HL1 & Hst & Hr & Hf); [|lia..|].
    { destruct HL; split; try done. intros d ? ?. rewrite ly_first0, decide_False by lia. done. }
    cbn [rule_info set_rules_tbl].
    replace (32 - Z.of_nat (Z.to_nat (32 - depth))) with depth in * by lia.
    assert (Hi : rule_info l1 !!! (depth - 1) = RuleInfo (ru l depth) (rf l depth)).
    { rewrite <- Hr, <- Hf by lia. unfold ru, rf. by destruct (rule_info l1 !!! (depth - 1)). }
    rewrite Hi. cbn [used_rules first_rule]. rewrite u32_small, i32_small by lia.
    split; [etrans; [exact Hst|done]|]. right.
    replace (psum (ru l) depth) with (rf l1 depth + ru l1 depth) by (rewrite Hf, Hr; lia).
    rewrite <- Hr, <- Hf by lia.
    assert (Hps : forall d, 0 <= d -> psum (ru l1) d = psum (ru l) d)
      by (intros; apply psum_ext; auto).
    split_and!; [|lia|unfold rf, ru; cbn; rewrite lookup_total_insert_eq; cbn..|].
    + apply store_rule_layout; rewrite ?Hf, ?Hps by lia; try done; try lia.
      destruct Hst as [-> _]. lia.
    + fold (ru l1 depth). rewrite Hr. lia.
    + lia.
    + cbn. by rewrite lookup_total_insert_eq.
Qed.

(** Overwriting the next hop of a present rule. *)
Lemma rules_update l R depth k nh :
  rules_inv l R -> 1 <= depth <= 32 -> rf l depth <= k < rf l depth + ru l depth ->
  let ip := r_ip (rules_tbl l !!! k) in
  rules_inv (set_rules_tbl l (<[k := Rule ip nh]> (rules_tbl l))) (<[(depth, ip) := nh]> R).
Proof.
  intros HL Hd Hk ip. pose proof (layout_group _ _ _ HL) as LG.
  pose proof (ly_grp _ _ _ HL depth Hd) as Hgd.
  pose proof (grp_at _ _ _ _ k Hgd Hk) as Hat. cbv beta in Hat. fold ip in Hat.
  destruct HL as [Hm Hus Hfs Hst Hto Hg Hdom Hsz]. split; try done.
  - intros d Hd'. change (ru _ d) with (ru l d). change (rf _ d) with (rf l d).
    destruct (decide (d = depth)) as [->|Hne].
    + eapply grp_ext; [|apply (grp_update _ _ _ _ k nh Hgd Hk)].
      intros a. rewrite lookup_insert. fold ip. repeat case_decide; congruence.
    + eapply grp_ext; [|apply grp_frame; [by apply Hg|]].
      * intros a. rewrite lookup_insert_ne by congruence. done.
      * intros Hin. pose proof (LG d Hd') as (?&?&?&?&?&Hfd). pose proof (LG depth Hd).
        specialize (Hfd ltac:(lia)). destruct (decide (depth < d)).
        -- pose proof (psum_mono (ru l) depth (d - 1) 32 Hus). lia.
        -- pose proof (psum_mono (ru l) d (depth - 1) 32 Hus). lia.
  - intros d a [x Hx]. rewrite lookup_insert in Hx. case_decide as E; [injection E; lia|eauto].
  - change (ru _) with (ru l). rewrite map_size_insert, Hat. simpl. done.
Qed.

(** Setting the start of an empty group. *)
Lemma rules_set_first l R depth f :
  rules_inv l R -> 1 <= depth <= 32 -> ru l depth = 0 -> 0 <= f < max_rules l ->
  let l1 := set_rule_info l
    (<[depth - 1 := RuleInfo (used_rules (rule_info l !!! (depth - 1))) f]> (rule_info l)) in
  rules_inv l1 R /\ (forall d, ru l1 d = ru l d) /\ rf l1 depth = f.
Proof.
  intros HL Hd Hu Hf l1.
  assert (Hru : forall d, ru l1 d = ru l d).
  { intros d. unfold ru, l1. cbn. rewrite info_insert. by case_decide; subst. }
  assert (Hrf : forall d, rf l1 d = if decide (d = depth) then f else rf l d).
  { intros d. unfold rf, l1. cbn. rewrite info_insert. by case_decide. }
  assert (Hps : forall d, 0 <= d -> psum (ru l1) d = psum (ru l) d)
    by (intros; apply psum_ext; auto).
  split_and!; [|done|rewrite Hrf; by case_decide].
  destruct HL. split; intros; rewrite ?Hru, ?Hrf, ?Hps in * by lia; eauto;
    case_decide; subst; eauto; try lia.
  split; [|intros; lia]. intros ip nh. destruct (ly_grp0 depth Hd) as [HG _].
  rewrite HG. rewrite Hu. split; intros (j & ? & _); lia.
Qed.

Lemma rule_add_post_trans v l l1 R ip depth nh res :
  same_tables l l1 -> rule_add_post v l1 R ip depth nh res ->
  rule_add_post v l R ip depth nh res.
Proof.
  destruct res as [l' r]. intros Hst [Hst' H]. split; [by etrans|].
  destruct Hst as [<- _]. done.
Qed.

Lemma rule_add_spec v l R ip depth nh :
  rules_inv l R -> 1 <= depth <= 32 ->
  rule_add_post v l R ip depth nh (rule_add v l ip depth nh).
Proof.
  intros HL Hd. pose proof (layout_group _ _ _ HL depth Hd) as (?&?&?&?&?&Hfd).
  pose proof (ly_max _ _ _ HL). pose proof (ly_grp _ _ _ HL depth Hd) as Hg.
  pose proof (ly_size _ _ _ HL). pose proof (ly_total _ _ _ HL).
  pose proof (layout_psum _ _ _ HL depth 32).
  unfold rule_add. fold (ru l depth) (rf l depth).
  destruct (Z.ltb_spec 0 (ru l depth)) as [Hu|Hu].
  - specialize (Hfd Hu). rewrite u32_small by lia.
    destruct (scan_group _ _ _ _) as [k|] eqn:Hs.
    + destruct (scan_group_Some _ _ _ _ _ _ Hg Hs) as [Hk <-].
      split; [done|]. right. rewrite i32_small by lia. split_and!.
      * by apply rules_update.
      * rewrite (grp_at _ _ _ _ k Hg Hk). done.
      * apply Hk.
      * apply Hk.
      * cbn. by rewrite lookup_total_insert_eq.
    + pose proof (scan_group_None _ _ _ _ _ Hg ltac:(lia) Hs) as Hnew.
      rewrite Z.max_r by lia. replace (rf l depth + ru l depth) with (psum (ru l) depth) by lia.
      destruct (Z.eqb_spec (psum (ru l) depth) (max_rules l)).
      * split; [done|]. left. split_and!; try done. lia.
      * apply store_rule_spec; try done; lia.
  - rewrite (prev_group_end_spec l R) by (done || lia). rewrite Z2Nat.id by lia.
    assert (Hnew : R !! (depth, ip) = None).
    { destruct (R !! (depth, ip)) as [x|] eqn:E; [|done].
      apply (proj1 Hg) in E as (j & ? & _). lia. }
    destruct (Z.eqb_spec (psum (ru l) (depth - 1)) (max_rules l)).
    + split; [done|]. left. split_and!; try done. lia.
    + destruct (rules_set_first l R depth (psum (ru l) (depth - 1))) as (HL1 & Hr & Hf);
        [done|done|lia|lia|].
      set (l1 := set_rule_info _ _) in *.
      assert (Hps : forall d, 0 <= d -> psum (ru l1) d = psum (ru l) d)
        by (intros; apply psum_ext; auto).
      apply (rule_add_post_trans v l l1); [done|].
      replace (psum (ru l) (depth - 1)) with (psum (ru l1) depth) by (rewrite Hps; lia).
      apply store_rule_spec; try done; rewrite ?Hps by lia; try done.
      change (max_rules l1) with (max_rules l). lia.
Qed.

(** ** Deletion *)

(** The last assignment of [rule_delete]. *)
Definition dec_used (l : rte_lpm) (depth : Z) : rte_lpm :=
  let info := rule_info l !!! (depth - 1) in
  set_rule_info l
    (<[depth - 1 := RuleInfo (u32 (used_rules info - 1)) (first_rule info)]> (rule_info l)).

Lemma close_gap_dec_used l depth i :
  depth <= i -> dec_used (close_gap i l) depth = close_gap i (dec_used l depth).
Proof.
  intros Hi. unfold close_gap, dec_used. cbn [rule_info set_rule_info rules_tbl].
  rewrite (lookup_total_insert_ne _ (depth - 1) i) by lia.
  destruct (0 <? used_rules (rule_info l !!! i)); [|done]. cbn.
  rewrite (lookup_total_insert_ne _ i (depth - 1)) by lia.
  unfold set_rule_info, set_rules_tbl; cbn. f_equal. apply insert_insert_ne. lia.
Qed.

(** Shifting group [d] down by one slot. *)
Definition shift_down (l : rte_lpm) (d : Z) : rte_lpm :=
  set_rule_info
    (set_rules_tbl l
       (<[rf l d - 1 := rules_tbl l !!! (rf l d + ru l d - 1)]> (rules_tbl l)))
    (<[d - 1 := RuleInfo (ru l d) (rf l d - 1)]> (rule_info l)).

Lemma shift_down_layout l R i :
  layout l R (fun d => if decide (i - 1 < d) then 1 else 0) ->
  1 <= i <= 32 -> 0 < ru l i ->
  layout (shift_down l i) R (fun d => if decide (i < d) then 1 else 0).
Proof.
  intros HL Hi Hu. pose proof (layout_group _ _ _ HL) as LG.
  assert (Hru : forall d, ru (shift_down l i) d = ru l d).
  { intros d. unfold ru at 1, shift_down. cbn. rewrite info_insert. by case_decide; subst. }
  assert (Hrf : forall d, rf (shift_down l i) d = if decide (d = i) then rf l i - 1 else rf l d).
  { intros d. unfold rf at 1, shift_down. cbn. rewrite info_insert. by case_decide. }
  assert (Hps : forall d, 0 <= d -> psum (ru (shift_down l i)) d = psum (ru l) d).
  { intros. apply psum_ext; auto. }
  pose proof (LG i Hi) as (?&?&?&?&?&Hfi). specialize (Hfi Hu).
  rewrite decide_True in Hfi by lia.
  destruct HL as [Hm Hus Hfs Hst Hto Hg Hdom Hsz].
  split; intros; rewrite ?Hru, ?Hrf, ?Hps in * by lia; try done; try (apply Hus; done).
  - case_decide as Ed; [subst d; rewrite decide_False by lia; lia|].
    rewrite Hfs by done. repeat case_decide; lia.
  - change (max_rules (shift_down l i)) with (max_rules l). case_decide; [lia|]. by apply Hst.
  - case_decide as Ed; [subst d; by apply grp_shift_down; [apply Hg|]|].
    apply grp_frame; [by apply Hg|]. intros Hin. pose proof (LG d) as (?&?&?&?&?&Hfd); [done|].
    assert (0 < ru l d) as Hp by lia. specialize (Hfd Hp).
    destruct (decide (i < d)).
    + pose proof (psum_mono (ru l) i (d - 1) 32 Hus). rewrite decide_True in Hfd by lia. lia.
    + pose proof (psum_mono (ru l) d (i - 1) 32 Hus). rewrite decide_False in Hfd by lia. lia.
  - by apply Hdom with ip.
Qed.

Lemma close_gap_layout l R i :
  layout l R (fun d => if decide (i < d) then 1 else 0) -> 0 <= i < 32 ->
  layout (close_gap i l) R (fun d => if decide (i + 1 < d) then 1 else 0) /\
  same_tables l (close_gap i l).
Proof.
  intros HL Hi. pose proof (layout_group _ _ _ HL (i + 1) ltac:(lia)) as (?&?&?&?&?&Hf).
  pose proof (ly_max _ _ _ HL).
  assert (E : close_gap i l = if 0 <? ru l (i + 1) then shift_down l (i + 1) else l).
  { unfold close_gap, shift_down, ru, rf in *. replace (i + 1 - 1) with i in * by lia.
    destruct (Z.ltb_spec 0 (used_rules (rule_info l !!! i))); [|done].
    rewrite decide_True in Hf by lia. by rewrite !u32_small by lia. }
  rewrite E. destruct (Z.ltb_spec 0 (ru l (i + 1))).
  - split; [|done]. apply shift_down_layout; [|lia..].
    by replace (i + 1 - 1) with i by lia.
  - split; [|done]. destruct HL. split; try done. intros d Hd Hu. rewrite ly_first0 by done.
    f_equal. assert (d <> i + 1) by (intros ->; lia). repeat case_decide; lia.
Qed.

(** Removing slot [k] of group [depth] leaves every larger group one slot too
    high. *)
Lemma remove_slot_layout l R depth k :
  rules_inv l R -> 1 <= depth <= 32 -> rf l depth <= k < rf l depth + ru l depth ->
  layout
    (dec_used (set_rules_tbl l
       (<[k := rules_tbl l !!! (rf l depth + ru l depth - 1)]> (rules_tbl l))) depth)
    (delete (depth, r_ip (rules_tbl l !!! k)) R)
    (fun d => if decide (depth < d) then 1 else 0).
Proof.
  intros HL Hd Hk. set (l' := dec_used _ _). set (ip := r_ip _).
  pose proof (layout_group _ _ _ HL) as LG. pose proof (LG depth Hd).
  pose proof (ly_max _ _ _ HL).
  assert (Hru : forall d, ru l' d = if decide (d = depth) then ru l d + -1 else ru l d).
  { intros d. unfold l', dec_used, ru at 1. cbn. rewrite info_insert. case_decide; [|done].
    subst. cbn. fold (ru l depth). rewrite u32_small; lia. }
  assert (Hrf : forall d, rf l' d = rf l d).
  { intros d. unfold l', dec_used, rf at 1. cbn. rewrite info_insert. by case_decide; subst. }
  assert (Hps : forall d, 0 <= d <= 32 ->
    psum (ru l') d = psum (ru l) d + if decide (depth <= d) then -1 else 0).
  { intros. apply psum_change; [|lia..]. intros. apply Hru. }
  pose proof (ly_grp _ _ _ HL depth Hd) as Hgd.
  pose proof (grp_at _ _ _ _ k Hgd Hk) as Hat. cbv beta in Hat. fold ip in Hat.
  destruct HL as [Hm Hus Hfs Hst Hto Hg Hdom Hsz].
  assert (Hsz' : size R <> 0%nat).
  { intros E. apply map_size_empty_iff in E. rewrite E, lookup_empty in Hat. done. }
  split; try done.
  - intros d Hd'. rewrite Hru. specialize (Hus d Hd'). case_decide; subst; lia.
  - intros d Hd'. rewrite Hru, Hrf, Hps by lia. intros Hp.
    rewrite Hfs by (case_decide; lia). repeat case_decide; lia.
  - intros. rewrite Hrf. by apply Hst.
  - rewrite Hps by lia. change (max_rules l') with (max_rules l). case_decide; lia.
  - intros d Hd'. rewrite Hru, Hrf. change (rules_tbl l') with
      (<[k := rules_tbl l !!! (rf l depth + ru l depth - 1)]> (rules_tbl l)).
    destruct (decide (d = depth)) as [->|Hne].
    + eapply grp_ext; [|apply (grp_remove _ _ _ _ k Hgd Hk)].
      intros a. rewrite lookup_delete. fold ip. repeat case_decide; congruence.
    + eapply grp_ext; [|apply grp_frame; [by apply Hg|]].
      * intros a. rewrite lookup_delete_ne by congruence. done.
      * intros Hin. pose proof (LG d Hd') as (?&?&?&?&?&Hfd).
        specialize (Hfd ltac:(lia)). destruct (decide (depth < d)).
        -- pose proof (psum_mono (ru l) depth (d - 1) 32 Hus). lia.
        -- pose proof (psum_mono (ru l) d (depth - 1) 32 Hus). lia.
  - intros d a [x Hx]. rewrite lookup_delete in Hx. case_decide; [done|eauto].
  - rewrite Hps, map_size_delete, Hat, decide_True by (done || lia). lia.
Qed.

Lemma rule_delete_spec l R depth k :
  rules_inv l R -> 1 <= depth <= 32 -> rf l depth <= k < rf l depth + ru l depth ->
  rules_inv (rule_delete l k depth) (delete (depth, r_ip (rules_tbl l !!! k)) R) /\
  same_tables l (rule_delete l k depth).
Proof.
  intros HL Hd Hk. pose proof (layout_group _ _ _ HL depth Hd). pose proof (ly_max _ _ _ HL).
  unfold rule_delete, RTE_LPM_MAX_DEPTH. fold (ru l depth) (rf l depth).
  rewrite (u32_small (rf l depth + ru l depth - 1)) by lia.
  pose proof (remove_slot_layout l R depth k HL Hd Hk) as Hrm.
  set (l1 := set_rules_tbl _ _) in *. set (l2 := for_range _ _ _ _).
  change (set_rule_info _ _) with (dec_used l2 depth).
  assert (E : dec_used l2 depth = for_range depth 32 close_gap (dec_used l1 depth)).
  { unfold l2, for_range. apply (for_n_comm (fun t => dec_used t depth)).
    intros. by apply close_gap_dec_used. }
  rewrite E. set (R' := delete _ _) in *.
  pose proof (for_range_inv
    (fun i t => layout t R' (fun d => if decide (i < d) then 1 else 0) /\ same_tables l t)
    depth 32 close_gap (dec_used l1 depth)) as Hloop. cbv beta in Hloop.
  destruct Hloop as [HLf Hst]; [lia|done|..].
  - intros i t Hi [HLt Hst]. destruct (close_gap_layout t R' i HLt ltac:(lia)).
    split; [done|by etrans].
  - split; [|done]. destruct HLf. split; try done. intros d ? ?.
    rewrite ly_first0, decide_False by lia. done.
Qed.

(** ** Search *)

Lemma rule_find_spec l R ip depth :
  rules_inv l R -> 1 <= depth <= 32 ->
  (R !! (depth, ip) = None /\ rule_find l ip depth = - EINVAL) \/
  (exists nh, R !! (depth, ip) = Some nh /\ 0 <= rule_find l ip depth /\
     rf l depth <= rule_find l ip depth < rf l depth + ru l depth /\
     rules_tbl l !!! rule_find l ip depth = Rule ip nh).
Proof.
  intros HL Hd. pose proof (layout_group _ _ _ HL depth Hd) as (?&?&?&?&?&?).
  pose proof (ly_max _ _ _ HL). pose proof (ly_grp _ _ _ HL depth Hd) as Hg.
  unfold rule_find. fold (ru l depth) (rf l depth).
  assert (rf l depth + ru l depth < 2 ^ 32) by lia. rewrite u32_small by lia.
  destruct (scan_group _ _ _ _) as [k|] eqn:Hs.
  - right. destruct (scan_group_Some _ _ _ _ _ _ Hg Hs) as [Hk <-].
    assert (k < 2 ^ 31) by (destruct (decide (0 < ru l depth)); lia).
    rewrite i32_small by lia. exists (r_next_hop (rules_tbl l !!! k)).
    split; [by apply (grp_at _ _ _ _ k Hg)|]. split_and!; try lia. apply rule_eta.
  - left. split; [|done]. apply (scan_group_None _ _ _ _ _ Hg); [lia|done].
Qed.
