(* ===== verification/LpmSpec.v ===== *)
(** * IPv4 LPM: the abstract specification

    Longest prefix match over a finite map of routes, and the arithmetic of
    prefixes, masks and table ranges. *)

From S2P Require Import Prelude Lpm LpmRules.

Definition addr (a : Z) : Prop := 0 <= a < 2 ^ 32.

(** The address [a] cut to its first [d] bits, as the code computes it. *)
Definition cut (a d : Z) : Z := Z.land a (depth_to_mask d).

(** [best_match R a n]: the route of largest depth among the depths [n .. 1]
    whose prefix is the one of [a]. *)
Fixpoint best_match {X} (R : gmap (Z * Z) X) (a : Z) (n : nat) : option (Z * X) :=
  match n with
  | O => None
  | S k =>
      match R !! (Z.of_nat n, cut a (Z.of_nat n)) with
      | Some nh => Some (Z.of_nat n, nh)
      | None => best_match R a k
      end
  end.

(** Longest prefix match: the specification of a lookup. *)
Definition lpm_spec {X} (R : gmap (Z * Z) X) (a : Z) : option (Z * X) := best_match R a 32.

Implicit Type (R : routes).

(** Adding a route of depth [d] and next hop [h] to a matching address. *)
Definition join (d h : Z) (o : option (Z * Z)) : option (Z * Z) :=
  match o with
  | Some (d', _) => if d' <=? d then Some (d, h) else o
  | None => Some (d, h)
  end.

(** ** Masks and ranges *)

Lemma shiftr_mask d : 1 <= d <= 32 -> Z.shiftr (- 2 ^ 31) (d - 1) = - 2 ^ (32 - d).
Proof.
  intros. rewrite Z.shiftr_div_pow2 by lia.
  replace (- 2 ^ 31) with (- 2 ^ (32 - d) * 2 ^ (d - 1)).
  - apply Z.div_mul. lia.
  - replace 31 with ((32 - d) + (d - 1)) by lia. rewrite Z.pow_add_r by lia. lia.
Qed.

Lemma cut_div a d : addr a -> 1 <= d <= 32 -> cut a d = a / 2 ^ (32 - d) * 2 ^ (32 - d).
Proof.
  intros Ha Hd. unfold cut, depth_to_mask. rewrite shiftr_mask by done.
  rewrite <- land_neg_pow2 by lia. unfold u32, wrap. rewrite <- Z.land_ones by lia.
  rewrite (Z.land_comm (- _)), Z.land_assoc, Z.land_ones by lia.
  by rewrite Z.mod_small.
Qed.

Lemma cut_range a d : addr a -> 1 <= d <= 32 -> cut a d <= a < cut a d + 2 ^ (32 - d).
Proof.
  intros Ha Hd. rewrite cut_div by done.
  pose proof (Z.div_mod a (2 ^ (32 - d)) ltac:(lia)).
  pose proof (Z.mod_pos_bound a (2 ^ (32 - d)) ltac:(lia)). lia.
Qed.

Lemma cut_addr a d : addr a -> 1 <= d <= 32 -> addr (cut a d).
Proof.
  intros Ha Hd. pose proof (cut_range a d Ha Hd). unfold addr in *.
  rewrite cut_div in * by done. split; [|lia].
  pose proof (Z.div_pos a (2 ^ (32 - d))). nia.
Qed.

(** Two addresses have the same [d]-bit prefix exactly when they lie in the
    same aligned block. *)
Lemma cut_eq_iff a p d :
  addr a -> addr p -> 1 <= d <= 32 ->
  cut a d = cut p d <-> cut p d <= a < cut p d + 2 ^ (32 - d).
Proof.
  intros Ha Hp Hd. pose proof (cut_range a d Ha Hd). split; [lia|].
  intros Hr. rewrite !cut_div in * by done.
  f_equal. set (K := 2 ^ (32 - d)) in *. assert (0 < K) by lia. nia.
Qed.

Lemma cut_cut a d e : addr a -> 1 <= d <= e -> e <= 32 -> cut (cut a e) d = cut a d.
Proof.
  intros Ha Hd He. pose proof (cut_addr a e Ha ltac:(lia)) as Hc. symmetry.
  apply cut_eq_iff; [done|done|lia|].
  pose proof (cut_range (cut a e) d Hc ltac:(lia)).
  pose proof (cut_range a e Ha ltac:(lia)). split; [lia|].
  rewrite (cut_div (cut a e) d Hc) in * by lia. rewrite (cut_div a e) in * by (done || lia).
  replace (32 - d) with ((32 - e) + (e - d)) in * by lia.
  rewrite Z.pow_add_r in * by lia.
  set (K := 2 ^ (32 - e)) in *. set (M := 2 ^ (e - d)) in *.
  assert (0 < K) by (apply Z.pow_pos_nonneg; lia).
  assert (0 < M) by (apply Z.pow_pos_nonneg; lia).
  assert (E : a / K * K / (K * M) = a / K / M).
  { rewrite (Z.mul_comm (a / K)), Z.div_mul_cancel_l by lia. done. }
  rewrite E in *. pose proof (Z.div_mod (a / K) M ltac:(lia)).
  pose proof (Z.mod_pos_bound (a / K) M ltac:(lia)). nia.
Qed.

(** Addresses that agree on [e] bits agree on fewer bits. *)
Lemma cut_eq_shorter a b d e :
  addr a -> addr b -> 1 <= d <= e -> e <= 32 -> cut a e = cut b e -> cut a d = cut b d.
Proof.
  intros Ha Hb Hd He H. rewrite <- (cut_cut a d e), <- (cut_cut b d e) by done. by rewrite H.
Qed.

Lemma depth_to_range_small d : 1 <= d <= 24 -> depth_to_range d = 2 ^ (24 - d).
Proof.
  intros. unfold depth_to_range, MAX_DEPTH_TBL24. destruct (Z.leb_spec d 24); [|lia].
  rewrite Z.shiftl_mul_pow2; lia.
Qed.

Lemma depth_to_range_big d : 25 <= d <= 32 -> depth_to_range d = 2 ^ (32 - d).
Proof.
  intros. unfold depth_to_range, MAX_DEPTH_TBL24, RTE_LPM_MAX_DEPTH.
  destruct (Z.leb_spec d 24); [lia|]. rewrite Z.shiftl_mul_pow2; lia.
Qed.

(** A prefix of depth at most 24 is a range of tbl24 entries ... *)
Lemma small_range ip a d :
  addr ip -> addr a -> 1 <= d <= 24 ->
  let p := cut ip d in
  cut a d = p <-> p / 256 <= a / 256 < p / 256 + depth_to_range d.
Proof.
  intros Hip Ha Hd p. unfold p. rewrite cut_eq_iff, depth_to_range_small by (done || lia).
  assert (exists m, cut ip d = 256 * m) as [m ->].
  { rewrite cut_div by (done || lia). replace (32 - d) with (8 + (24 - d)) by lia.
    rewrite Z.pow_add_r by lia. eexists. rewrite Z.mul_comm, <- Z.mul_assoc. done. }
  replace (32 - d) with (8 + (24 - d)) by lia. rewrite Z.pow_add_r by lia.
  change (2 ^ 8) with 256. generalize (2 ^ (24 - d)) as M. intros M.
  rewrite (Z.mul_comm 256 m), Z.div_mul by lia. dlia.
Qed.

Lemma small_range_end ip d :
  addr ip -> 1 <= d <= 24 ->
  let p := cut ip d in 0 <= p / 256 /\ p / 256 + depth_to_range d <= 2 ^ 24.
Proof.
  intros Hip Hd p. pose proof (cut_addr ip d Hip ltac:(lia)) as Hp. fold p in Hp.
  unfold addr in Hp. split; [dlia|]. rewrite depth_to_range_small by lia.
  unfold p in *. rewrite cut_div in * by (done || lia).
  assert (Hle : ip / 2 ^ (32 - d) < 2 ^ d).
  { apply Z.div_lt_upper_bound; [lia|]. rewrite <- Z.pow_add_r by lia.
    replace (32 - d + d) with 32 by lia. apply Hip. }
  replace (2 ^ 24) with (2 ^ d * 2 ^ (24 - d)) by (rewrite <- Z.pow_add_r by lia; f_equal; lia).
  replace (2 ^ (32 - d)) with (2 ^ (24 - d) * 2 ^ 8) at 2
    by (rewrite <- Z.pow_add_r by lia; f_equal; lia).
  rewrite Z.mul_assoc, Z.div_mul by lia. nia.
Qed.

(** ... and a longer one is a range inside one tbl8 group. *)
Lemma big_range ip a d :
  addr ip -> addr a -> 25 <= d <= 32 ->
  let p := cut ip d in
  (cut a d = p <->
   a / 256 = p / 256 /\ p mod 256 <= a mod 256 < p mod 256 + depth_to_range d) /\
  p mod 256 + depth_to_range d <= 256.
Proof.
  intros Hip Ha Hd p. unfold p. rewrite cut_eq_iff, depth_to_range_big by (done || lia).
  rewrite cut_div by (done || lia). unfold addr in *.
  assert (Hcase : d = 25 \/ d = 26 \/ d = 27 \/ d = 28 \/ d = 29 \/ d = 30 \/ d = 31 \/ d = 32)
    by lia.
  destruct Hcase as [->|[->|[->|[->|[->|[->|[->| ->]]]]]]]; cbn;
    clear; dlia.
Qed.

(** ** Algebra of the specification *)

Lemma best_match_depth R a n d h : best_match R a n = Some (d, h) -> 1 <= d <= Z.of_nat n.
Proof.
  induction n as [|n IH]; cbn [best_match]; [done|].
  destruct (R !! _); [intros [= <- <-]; lia|]. intros H. apply IH in H. lia.
Qed.

Lemma best_match_hit R a n d h :
  best_match R a n = Some (d, h) -> R !! (d, cut a d) = Some h.
Proof.
  induction n as [|n IH]; cbn [best_match]; [done|].
  destruct (R !! (Z.of_nat (S n), _)) eqn:E; [by intros [= <- <-]|done].
Qed.

(** The specification is the longest match: it is a matching route, and no
    matching route is longer. *)
Lemma best_match_longest R a n d h :
  1 <= d <= Z.of_nat n -> R !! (d, cut a d) = Some h ->
  exists d' h', best_match R a n = Some (d', h') /\ d <= d'.
Proof.
  induction n as [|n IH]; intros Hd HR; [lia|]. cbn [best_match].
  destruct (R !! (Z.of_nat (S n), _)) as [x|] eqn:E; [eexists _, _; split; [done|lia]|].
  destruct (decide (d = Z.of_nat (S n))) as [->|]; [congruence|]. apply IH; [lia|done].
Qed.

Lemma best_match_insert_in R a n d h :
  best_match (<[(d, cut a d) := h]> R) a n =
  if decide (1 <= d <= Z.of_nat n) then join d h (best_match R a n) else best_match R a n.
Proof.
  induction n as [|n IH]; [by rewrite decide_False by lia|]. cbn [best_match].
  rewrite lookup_insert. destruct (decide (d = Z.of_nat (S n))) as [->|Hne].
  - rewrite decide_True by done. rewrite decide_True by lia.
    destruct (R !! _); [cbn; by rewrite Z.leb_refl|].
    destruct (best_match R a n) as [[d' h']|] eqn:E; [|done].
    apply best_match_depth in E. cbn. destruct (Z.leb_spec d' (Z.of_nat (S n))); [done|lia].
  - rewrite decide_False by congruence. destruct (R !! (Z.of_nat (S n), _)) eqn:E.
    + clear IH. case_decide; [|done]. cbn [join].
      destruct (Z.leb_spec (Z.of_nat (S n)) d); [lia|done].
    + rewrite IH. repeat case_decide; done || lia.
Qed.

Lemma best_match_insert_out R a n d p h :
  cut a d <> p -> best_match (<[(d, p) := h]> R) a n = best_match R a n.
Proof.
  intros Hp. induction n as [|n IH]; cbn [best_match]; [done|].
  rewrite lookup_insert_ne by congruence. by rewrite IH.
Qed.

Lemma best_match_delete_out R a n d p :
  cut a d <> p -> best_match (delete (d, p) R) a n = best_match R a n.
Proof.
  intros Hp. induction n as [|n IH]; cbn [best_match]; [done|].
  rewrite lookup_delete_ne by congruence. by rewrite IH.
Qed.

Lemma best_match_delete_low R a n d p :
  Z.of_nat n < d -> best_match (delete (d, p) R) a n = best_match R a n.
Proof.
  induction n as [|n IH]; intros Hn; cbn [best_match]; [done|].
  rewrite lookup_delete_ne by (intros [=]; lia). rewrite IH by lia. done.
Qed.

(** Deleting the route of depth [d] that matches [a]: a longer match stays,
    otherwise the next shorter one takes over. *)
Lemma best_match_delete_in R a n d :
  1 <= d <= Z.of_nat n -> is_Some (R !! (d, cut a d)) ->
  best_match (delete (d, cut a d) R) a n =
  match best_match R a n with
  | Some (d', h') => if d' <=? d then best_match R a (Z.to_nat (d - 1)) else Some (d', h')
  | None => None
  end.
Proof.
  induction n as [|n IH]; intros Hd [x Hx]; [lia|]. cbn [best_match].
  destruct (decide (d = Z.of_nat (S n))) as [->|Hne].
  - rewrite lookup_delete_eq, Hx, Z.leb_refl.
    rewrite best_match_delete_low by lia. do 2 f_equal; lia.
  - rewrite lookup_delete_ne by congruence.
    destruct (R !! (Z.of_nat (S n), _)) eqn:E.
    + destruct (Z.leb_spec (Z.of_nat (S n)) d); [lia|done].
    + apply IH; [lia|by exists x].
Qed.

(** Matches shorter than a common prefix are common. *)
Lemma best_match_common R a b n d :
  addr a -> addr b -> Z.of_nat n <= d -> d <= 32 -> cut a d = cut b d ->
  best_match R a n = best_match R b n.
Proof.
  intros Ha Hb Hn Hd Hc. induction n as [|n IH]; cbn [best_match]; [done|].
  rewrite (cut_eq_shorter a b (Z.of_nat (S n)) d) by (done || lia). by rewrite IH by lia.
Qed.
