(* ===== verification/LpmTables.v ===== *)
(** * IPv4 LPM: the lookup tables

    The invariant of tbl24 and tbl8: for every address the entry in charge
    holds the depth and next hop that a function [B] from addresses to
    matches gives, extended tbl24 entries own pairwise distinct tbl8 groups
    that are marked in use.  The file proves what each table operation does to
    [B]; [LpmProofs] instantiates [B] with the longest prefix match. *)

From S2P Require Import Prelude Lpm LpmRules LpmSpec.

Lemma shiftr_8 a : Z.shiftr a 8 = a / 256.
Proof. by rewrite Z.shiftr_div_pow2. Qed.

Lemma land_255 a : Z.land a 0xFF = a mod 256.
Proof. change 0xFF with (Z.ones 8). by rewrite Z.land_ones. Qed.

(** What an entry says about the addresses it is in charge of. *)
Definition entry_res (e : rte_lpm_tbl_entry) : option (Z * Z) :=
  if e_valid e then Some (e_depth e, e_next_hop e) else None.

Definition is_ext (e : rte_lpm_tbl_entry) : bool := e_valid e && e_valid_group e.

(** The result of the table walk for an address. *)
Definition tbl_result (l : rte_lpm) (a : Z) : option (Z * Z) :=
  let e := tbl24 l !!! (a / 256) in
  if is_ext e then entry_res (tbl8 l !!! (e_next_hop e * 256 + a mod 256))
  else entry_res e.

(** The bit-fields hold values of their width. *)
Definition entry_wf (v : lpm_version) (e : rte_lpm_tbl_entry) : Prop :=
  0 <= e_next_hop e < 2 ^ hop_bits v /\ 0 <= e_depth e < 64.

Record tables_inv (v : lpm_version) (l : rte_lpm) (B : Z -> option (Z * Z)) : Prop :=
  TablesInv {
    ti_num : 0 <= num_tbl8s v l <= 256;
    ti_wf24 : forall i, entry_wf v (tbl24 l !!! i);
    ti_wf8 : forall j, entry_wf v (tbl8 l !!! j);
    ti_res : forall a, addr a -> tbl_result l a = B a;
    ti_ext : forall i, 0 <= i < 2 ^ 24 -> is_ext (tbl24 l !!! i) = true ->
      e_next_hop (tbl24 l !!! i) < num_tbl8s v l /\
      e_valid_group (tbl8 l !!! (e_next_hop (tbl24 l !!! i) * 256)) = true;
    ti_inj : forall i j, 0 <= i < 2 ^ 24 -> 0 <= j < 2 ^ 24 ->
      is_ext (tbl24 l !!! i) = true -> is_ext (tbl24 l !!! j) = true ->
      e_next_hop (tbl24 l !!! i) = e_next_hop (tbl24 l !!! j) -> i = j;
    ti_small : forall i, 0 <= i < 2 ^ 24 -> e_valid (tbl24 l !!! i) = true ->
      is_ext (tbl24 l !!! i) = false -> e_depth (tbl24 l !!! i) <= 24
  }.

Lemma tables_inv_ext v l B B' :
  (forall a, addr a -> B a = B' a) -> tables_inv v l B -> tables_inv v l B'.
Proof. intros He []. split; try done. intros. rewrite <- He by done. auto. Qed.

(** The rule operations do not touch what the table invariant reads. *)
Lemma tables_inv_same v l l' B : same_tables l l' -> tables_inv v l B -> tables_inv v l' B.
Proof.
  intros (_ & Hn & H24 & H8) []. assert (Hnum : num_tbl8s v l' = num_tbl8s v l)
    by (by destruct v; cbn).
  split; intros; unfold tbl_result in *; rewrite ?Hnum, ?H24, ?H8 in *; eauto.
Qed.

Lemma mk_entry_wf v h b g d : entry_wf v (mk_entry v h b g d).
Proof.
  split; cbn; apply wrap_range; [by destruct v|lia].
Qed.

Lemma zero_entry_wf v : entry_wf v (TblEntry 0 false false 0).
Proof. split; cbn; [destruct v; cbn|]; lia. Qed.

Create HintDb lpm.
#[export] Hint Resolve mk_entry_wf zero_entry_wf : lpm.

Lemma entry_res_mk v h g d :
  0 <= d < 64 -> entry_res (mk_entry v h true g d) = Some (d, wrap (hop_bits v) h).
Proof. intros. unfold entry_res, mk_entry. cbn. by rewrite (wrap_small 6). Qed.

Section table_updates.
Context (v : lpm_version) (l : rte_lpm) (B B' : Z -> option (Z * Z)) (i : Z).
Context (HT : tables_inv v l B) (Hi : 0 <= i < 2 ^ 24).
Context (Hout : forall a, addr a -> a / 256 <> i -> B' a = B a).

Lemma ext_range j :
  0 <= j < 2 ^ 24 -> is_ext (tbl24 l !!! j) = true ->
  0 <= e_next_hop (tbl24 l !!! j) < num_tbl8s v l.
Proof. intros. pose proof (ti_wf24 _ _ _ HT j) as [? _]. split; [lia|]. by apply HT. Qed.

(** Rewriting the tbl8 group an extended entry owns. *)
Lemma ti_group_update t' :
  let g := e_next_hop (tbl24 l !!! i) in
  is_ext (tbl24 l !!! i) = true ->
  (forall j, ~ (g * 256 <= j < g * 256 + 256) -> t' !!! j = tbl8 l !!! j) ->
  e_valid_group (t' !!! (g * 256)) = true ->
  (forall j, entry_wf v (t' !!! j)) ->
  (forall a, addr a -> a / 256 = i -> entry_res (t' !!! (g * 256 + a mod 256)) = B' a) ->
  tables_inv v (set_tbl8 l t') B'.
Proof.
  intros g Hext Hframe Hflag Hwf Hin.
  assert (Hg : forall j, 0 <= j < 2 ^ 24 -> is_ext (tbl24 l !!! j) = true -> j <> i ->
    e_next_hop (tbl24 l !!! j) <> g).
  { intros j Hj Hje Hne E. apply Hne. by apply (ti_inj _ _ _ HT). }
  split; cbn [tbl24 tbl8 set_tbl8]; try apply HT; try done.
  - intros a Ha. unfold tbl_result. cbn [tbl24 tbl8 set_tbl8].
    assert (0 <= a / 256 < 2 ^ 24) by (unfold addr in Ha; dlia).
    destruct (decide (a / 256 = i)) as [Ea|Ea].
    + rewrite Ea, Hext. by apply Hin.
    + rewrite Hout by done. rewrite <- (ti_res _ _ _ HT) by done. unfold tbl_result.
      destruct (is_ext (tbl24 l !!! (a / 256))) eqn:E; [|done].
      specialize (Hg (a / 256) ltac:(done) E Ea). rewrite Hframe; [done|]. dlia.
  - intros j Hj Hje. split; [by apply HT|].
    destruct (decide (j = i)) as [->|Hne]; [done|].
    specialize (Hg j Hj Hje Hne). rewrite Hframe by lia. by apply HT.
Qed.

(** Overwriting tbl24 entry [i] by one that is not extended; the tbl8 group it
    owned before, if any, becomes free to change. *)
Lemma ti_entry_update e' t' :
  is_ext e' = false -> (e_valid e' = true -> e_depth e' <= 24) -> entry_wf v e' ->
  (forall j, entry_wf v (t' !!! j)) ->
  (forall j, ~ (is_ext (tbl24 l !!! i) = true /\
     e_next_hop (tbl24 l !!! i) * 256 <= j < e_next_hop (tbl24 l !!! i) * 256 + 256) ->
     t' !!! j = tbl8 l !!! j) ->
  (forall a, addr a -> a / 256 = i -> B' a = entry_res e') ->
  tables_inv v (set_tbl8 (set_tbl24 l (<[i := e']> (tbl24 l))) t') B'.
Proof.
  intros Hne Hsm Hwf Hwf8 Hframe Hin.
  split; cbn [tbl24 tbl8 set_tbl8 set_tbl24]; try apply HT; try done.
  - intros j. rewrite lookup_total_insert. case_decide; [done|apply HT].
  - intros a Ha. unfold tbl_result. cbn [tbl24 tbl8 set_tbl8 set_tbl24].
    assert (0 <= a / 256 < 2 ^ 24) by (unfold addr in Ha; dlia).
    rewrite lookup_total_insert. case_decide as Ea.
    + rewrite Hne. symmetry. by apply Hin.
    + rewrite Hout by (done || lia). rewrite <- (ti_res _ _ _ HT) by done. unfold tbl_result.
      destruct (is_ext (tbl24 l !!! (a / 256))) eqn:E; [|done].
      rewrite Hframe; [done|]. intros [Hie Hr].
      apply Ea, (ti_inj _ _ _ HT); try done. dlia.
  - intros j Hj. rewrite lookup_total_insert. case_decide as Ej; [by rewrite Hne|].
    intros Hje. split; [by apply HT|]. rewrite Hframe; [by apply HT|].
    intros [Hie Hr]. apply Ej, (ti_inj _ _ _ HT); try done. lia.
  - intros j k Hj Hk. rewrite !lookup_total_insert. repeat case_decide; try by rewrite Hne.
    by apply HT.
  - intros j Hj. rewrite lookup_total_insert. case_decide; [auto|by apply HT].
Qed.

(** Making tbl24 entry [i], so far not extended, point to the free group [g]. *)
Lemma ti_new_group g t' :
  is_ext (tbl24 l !!! i) = false -> 0 <= g < num_tbl8s v l ->
  e_valid_group (tbl8 l !!! (g * 256)) = false ->
  (forall j, ~ (g * 256 <= j < g * 256 + 256) -> t' !!! j = tbl8 l !!! j) ->
  e_valid_group (t' !!! (g * 256)) = true ->
  (forall j, entry_wf v (t' !!! j)) ->
  (forall a, addr a -> a / 256 = i -> entry_res (t' !!! (g * 256 + a mod 256)) = B' a) ->
  tables_inv v (set_tbl24 (set_tbl8 l t') (<[i := mk_entry v g true true 0]> (tbl24 l))) B'.
Proof.
  intros Hni Hg Hfree Hframe Hflag Hwf Hin.
  pose proof (ti_num _ _ _ HT) as Hnum.
  assert (Hgh : wrap (hop_bits v) g = g).
  { apply wrap_small. split; [lia|]. apply Z.lt_le_trans with (2 ^ 8); [lia|by destruct v]. }
  assert (Hge : forall j, 0 <= j < 2 ^ 24 -> is_ext (tbl24 l !!! j) = true ->
    e_next_hop (tbl24 l !!! j) <> g).
  { intros j Hj Hje E. destruct (ti_ext _ _ _ HT j Hj Hje) as [_ H]. rewrite E in H. congruence. }
  split; cbn [tbl24 tbl8 set_tbl8 set_tbl24]; try apply HT; try done.
  - intros j. rewrite lookup_total_insert. case_decide; [auto with lpm|apply HT].
  - intros a Ha. unfold tbl_result. cbn [tbl24 tbl8 set_tbl8 set_tbl24].
    assert (0 <= a / 256 < 2 ^ 24) by (unfold addr in Ha; dlia).
    rewrite lookup_total_insert. case_decide as Ea.
    + cbn. rewrite Hgh. by apply Hin.
    + rewrite Hout by (done || lia). rewrite <- (ti_res _ _ _ HT) by done. unfold tbl_result.
      destruct (is_ext (tbl24 l !!! (a / 256))) eqn:E; [|done].
      specialize (Hge (a / 256) ltac:(done) E). rewrite Hframe; [done|]. dlia.
  - intros j Hj. rewrite lookup_total_insert. case_decide as Ej.
    + cbn. rewrite Hgh. intros _. split; [apply Hg|done].
    + intros Hje. split; [by apply HT|]. specialize (Hge j Hj Hje).
      rewrite Hframe by lia. by apply HT.
  - intros j k Hj Hk. rewrite !lookup_total_insert.
    repeat case_decide; cbn; rewrite ?Hgh; try congruence.
    + intros _ Hke E. by destruct (Hge k Hk Hke).
    + intros Hje _ E. by destruct (Hge j Hj Hje).
    + by apply HT.
  - intros j Hj. rewrite lookup_total_insert. case_decide; [done|by apply HT].
Qed.

End table_updates.

(** ** The table operations

    Each lemma gives the effect of an operation on the function [B] of the
    invariant. *)

Lemma join_entry v h d g e :
  0 <= d < 64 ->
  entry_res (if negb (e_valid e) || (e_depth e <=? d) then mk_entry v h true g d else e) =
  join d (wrap (hop_bits v) h) (entry_res e).
Proof.
  intros Hd. destruct (e_valid e) eqn:Ev; cbn [negb orb].
  - destruct (e_depth e <=? d) eqn:El.
    + rewrite entry_res_mk by done. unfold entry_res. rewrite Ev. cbn. by rewrite El.
    + unfold entry_res. rewrite Ev. cbn. by rewrite El.
  - rewrite entry_res_mk by done. unfold entry_res. by rewrite Ev.
Qed.

(** The loop over [tbl8_put], pointwise. *)
Lemma tbl8_put_loop depth (f : rte_lpm_tbl_entry -> rte_lpm_tbl_entry) lo hi
    (t : gmap Z rte_lpm_tbl_entry) k :
  for_range lo hi (tbl8_put depth f) t !!! k =
  if decide (lo <= k < hi)
  then if negb (e_valid (t !!! k)) || (e_depth (t !!! k) <=? depth) then f (t !!! k) else t !!! k
  else t !!! k.
Proof.
  apply (for_range_pointwise (fun _ e =>
    if negb (e_valid e) || (e_depth e <=? depth) then f e else e)).
  intros i t' j Hi. unfold tbl8_put.
  destruct (negb (e_valid (t' !!! i)) || (e_depth (t' !!! i) <=? depth)) eqn:E;
    rewrite ?lookup_total_insert; repeat case_decide; subst; rewrite ?E; done || lia.
Qed.

Lemma tbl8_replace_loop depth (f : rte_lpm_tbl_entry -> rte_lpm_tbl_entry) lo hi
    (t : gmap Z rte_lpm_tbl_entry) k :
  for_range lo hi (tbl8_replace depth f) t !!! k =
  if decide (lo <= k < hi)
  then if e_depth (t !!! k) <=? depth then f (t !!! k) else t !!! k
  else t !!! k.
Proof.
  apply (for_range_pointwise (fun _ e => if e_depth e <=? depth then f e else e)).
  intros i t' j Hi. unfold tbl8_replace.
  destruct (e_depth (t' !!! i) <=? depth) eqn:E;
    rewrite ?lookup_total_insert; repeat case_decide; subst; rewrite ?E; done || lia.
Qed.

Lemma tbl8_store_loop (f : rte_lpm_tbl_entry -> rte_lpm_tbl_entry) lo hi
    (t : gmap Z rte_lpm_tbl_entry) k :
  for_range lo hi (fun i t => <[i := f (t !!! i)]> t) t !!! k =
  if decide (lo <= k < hi) then f (t !!! k) else t !!! k.
Proof.
  apply (for_range_pointwise (fun _ e => f e)). intros i t' j Hi.
  rewrite lookup_total_insert. repeat case_decide; subst; done || lia.
Qed.

(** One iteration of [add_depth_small]. *)
Lemma add_small_step_inv v l B depth nh i :
  tables_inv v l B -> 0 <= i < 2 ^ 24 -> 1 <= depth <= 24 ->
  tables_inv v (add_small_step v depth nh i l)
    (fun a => if decide (a / 256 = i) then join depth (wrap (hop_bits v) nh) (B a) else B a).
Proof.
  intros HT Hi Hd. unfold add_small_step. set (e := tbl24 l !!! i).
  assert (Hres : forall a, addr a -> a / 256 = i -> is_ext e = false -> B a = entry_res e).
  { intros a Ha Ea He. rewrite <- (ti_res _ _ _ HT) by done. unfold tbl_result.
    rewrite Ea. fold e. by rewrite He. }
  destruct (negb (e_valid e) || _) eqn:Ew.
  - assert (He : is_ext e = false) by (unfold is_ext; destruct (e_valid e), (e_valid_group e); done).
    apply (ti_entry_update v l B _ i HT Hi); auto with lpm; try apply HT.
    + intros a ? ?. by rewrite decide_False.
    + intros _. cbn. rewrite (wrap_small 6); lia.
    + intros a Ha Ea. rewrite decide_True, (Hres a) by done.
      rewrite <- (join_entry v nh depth false) by lia.
      destruct (e_valid e), (e_valid_group e); cbn in *; by rewrite ?Ew.
  - destruct (e_valid_group e) eqn:Eg.
    + assert (He : is_ext e = true) by (unfold is_ext; destruct (e_valid e), (e_valid_group e); done).
      unfold RTE_LPM_TBL8_GROUP_NUM_ENTRIES.
      apply (ti_group_update v l B _ i HT); try done.
      * intros a ? ?. by rewrite decide_False.
      * intros j Hj. rewrite tbl8_put_loop, decide_False by done. done.
      * rewrite tbl8_put_loop, decide_True by (fold e; lia).
        case_match; [done|]. fold e. by apply (ti_ext _ _ _ HT i).
      * intros j. rewrite tbl8_put_loop. case_decide; [|apply HT].
        case_match; [auto with lpm|apply HT].
      * intros a Ha Ea. fold e. rewrite tbl8_put_loop, decide_True by dlia.
        rewrite join_entry, decide_True by (done || lia). f_equal.
        rewrite <- (ti_res _ _ _ HT) by done. unfold tbl_result. rewrite Ea. fold e.
        by rewrite He.
    + apply (tables_inv_ext v l B); [|done]. intros a Ha. case_decide as Ea; [|done].
      assert (He : is_ext e = false) by (unfold is_ext; rewrite Eg; by destruct (e_valid e)).
      rewrite (Hres a) by done. destruct (e_valid e) eqn:Ev; [|done].
      unfold entry_res. rewrite Ev. cbn in Ew |- *. by rewrite Ew.
Qed.

Lemma add_depth_small_inv v l B ip depth nh :
  tables_inv v l B -> addr ip -> 1 <= depth <= 24 ->
  let p := cut ip depth in
  tables_inv v (fst (add_depth_small v l p depth nh))
    (fun a => if decide (cut a depth = p) then join depth (wrap (hop_bits v) nh) (B a) else B a).
Proof.
  intros HT Hip Hd p. unfold add_depth_small. cbn [fst]. rewrite shiftr_8.
  pose proof (small_range_end ip depth Hip Hd) as [Hlo Hhi]. fold p in Hlo, Hhi.
  rewrite u32_small by (pose proof (depth_to_range_small depth Hd); lia).
  apply (tables_inv_ext _ _ (fun a => if decide (p / 256 <= a / 256 < p / 256 + depth_to_range depth)
    then join depth (wrap (hop_bits v) nh) (B a) else B a)).
  { intros a Ha. pose proof (small_range ip a depth Hip Ha Hd) as Hr. cbv zeta in Hr. fold p in Hr.
    repeat case_decide; done || tauto. }
  pose proof (depth_to_range_small depth Hd).
  pose proof (for_range_inv (fun n t => tables_inv v t (fun a =>
    if decide (p / 256 <= a / 256 < n) then join depth (wrap (hop_bits v) nh) (B a) else B a))
    (p / 256) (p / 256 + depth_to_range depth) (add_small_step v depth nh) l) as Hloop.
  cbv beta in Hloop. apply Hloop; clear Hloop; [lia|..].
  - apply (tables_inv_ext _ _ B); [|done]. intros. by rewrite decide_False by lia.
  - intros k t Hk Ht. eapply tables_inv_ext; [|apply (add_small_step_inv v t _ depth nh k Ht)]; [|lia..].
    intros a Ha. cbv beta. repeat case_decide; try lia; done.
Qed.

(** Allocation of a tbl8 group. *)
Lemma tbl8_alloc_spec t n :
  (tbl8_alloc t n = (t, - ENOSPC) /\
   forall g, 0 <= g < n -> e_valid_group (t !!! (g * 256)) = true) \/
  exists t' g, tbl8_alloc t n = (t', g) /\ 0 <= g < n /\
    e_valid_group (t !!! (g * 256)) = false /\
    (forall k, t' !!! k =
       if decide (g * 256 <= k < g * 256 + 256)
       then TblEntry 0 false (bool_decide (k = g * 256)) 0 else t !!! k).
Proof.
  unfold tbl8_alloc, RTE_LPM_TBL8_GROUP_NUM_ENTRIES.
  destruct (find_up _ _ _) as [g|] eqn:E; [right|left].
  2: { split; [done|]. intros g Hg. rewrite find_up_None in E.
       apply negb_false_iff, E. lia. }
  apply find_up_Some in E as (Hg & Hf & _). exists (tbl8_clean_group t g), g.
  split; [done|]. split; [lia|]. split; [by apply negb_true_iff in Hf|]. intros k.
  unfold tbl8_clean_group, RTE_LPM_TBL8_GROUP_NUM_ENTRIES.
  rewrite lookup_total_insert, !(tbl8_store_loop (fun _ => TblEntry 0 false false 0)).
  case_decide as Ek.
  - subst. rewrite !decide_True, bool_decide_true by lia. done.
  - case_decide; [|done]. by rewrite bool_decide_false by lia.
Qed.

(** ** Prefixes longer than 24 bits *)

Section big_prefix.
Context (v : lpm_version) (l : rte_lpm) (B : Z -> option (Z * Z)).
Context (ip depth : Z).
Context (HT : tables_inv v l B) (Hip : addr ip) (Hd : 25 <= depth <= 32).

Let p := cut ip depth.
Let i := p / 256.
Let lo := p mod 256.
Let e := tbl24 l !!! i.

Lemma big_prefix_facts :
  addr p /\ 0 <= i < 2 ^ 24 /\ 0 <= lo < 256 /\ 0 < depth_to_range depth /\
  lo + depth_to_range depth <= 256.
Proof.
  pose proof (cut_addr ip depth Hip ltac:(lia)) as Hp.
  pose proof (big_range ip p depth Hip Hp Hd) as [_ Hend].
  pose proof (depth_to_range_big depth Hd). fold p in Hp, Hend.
  unfold addr, i, lo in *. split_and!; try dlia.
Qed.

(** The addresses of the prefix, in terms of the tables. *)
Lemma big_prefix_cells a :
  addr a -> cut a depth = p <-> a / 256 = i /\ lo <= a mod 256 < lo + depth_to_range depth.
Proof. intros Ha. apply (proj1 (big_range ip a depth Hip Ha Hd)). Qed.

Lemma big_prefix_res a :
  addr a -> a / 256 = i ->
  B a = if is_ext e then entry_res (tbl8 l !!! (e_next_hop e * 256 + a mod 256)) else entry_res e.
Proof. intros Ha Ea. rewrite <- (ti_res _ _ _ HT) by done. unfold tbl_result. by rewrite Ea. Qed.

(** [B] with the matches of the prefix changed by [f]. *)
Definition on_prefix (f : option (Z * Z) -> option (Z * Z)) (a : Z) : option (Z * Z) :=
  if decide (cut a depth = p) then f (B a) else B a.

Lemma on_prefix_out f a : addr a -> a / 256 <> i -> on_prefix f a = B a.
Proof.
  intros Ha Hne. unfold on_prefix. rewrite decide_False; [done|].
  rewrite big_prefix_cells by done. tauto.
Qed.

(** A freshly allocated group, filled from the old tbl24 entry. *)
Lemma big_prefix_new_group f g t' :
  is_ext e = false -> 0 <= g < num_tbl8s v l ->
  e_valid_group (tbl8 l !!! (g * 256)) = false ->
  (forall j, ~ (g * 256 <= j < g * 256 + 256) -> t' !!! j = tbl8 l !!! j) ->
  (forall j, entry_wf v (t' !!! j)) ->
  (forall k, 0 <= k < 256 ->
     e_valid_group (t' !!! (g * 256 + k)) = bool_decide (k = 0) /\
     entry_res (t' !!! (g * 256 + k)) =
     if decide (lo <= k < lo + depth_to_range depth) then f (entry_res e) else entry_res e) ->
  tables_inv v (set_tbl24 (set_tbl8 l t') (<[i := mk_entry v (u8 g) true true 0]> (tbl24 l)))
    (on_prefix f).
Proof.
  intros He Hg Hfree Hframe Hwf Hcells. pose proof (ti_num _ _ _ HT).
  rewrite u8_small by lia.
  apply (ti_new_group v l B _ i HT); try done.
  - apply big_prefix_facts.
  - apply on_prefix_out.
  - rewrite <- (Z.add_0_r (g * 256)). by rewrite (proj1 (Hcells 0 ltac:(lia))).
  - intros a Ha Ea. rewrite (proj2 (Hcells (a mod 256) ltac:(dlia))).
    unfold on_prefix. pose proof (big_prefix_cells a Ha).
    rewrite (big_prefix_res a), He by done. repeat case_decide; done || tauto.
Qed.

(** Rewriting the range of the prefix in the group of an extended entry. *)
Lemma big_prefix_in_group f t' :
  is_ext e = true ->
  (forall j, ~ (e_next_hop e * 256 <= j < e_next_hop e * 256 + 256) -> t' !!! j = tbl8 l !!! j) ->
  (forall j, entry_wf v (t' !!! j)) ->
  (forall k, 0 <= k < 256 ->
     e_valid_group (t' !!! (e_next_hop e * 256 + k)) =
       e_valid_group (tbl8 l !!! (e_next_hop e * 256 + k)) \/
     e_valid_group (t' !!! (e_next_hop e * 256 + k)) = true) ->
  (forall k, 0 <= k < 256 ->
     entry_res (t' !!! (e_next_hop e * 256 + k)) =
     let o := entry_res (tbl8 l !!! (e_next_hop e * 256 + k)) in
     if decide (lo <= k < lo + depth_to_range depth) then f o else o) ->
  tables_inv v (set_tbl8 l t') (on_prefix f).
Proof.
  intros He Hframe Hwf Hflag Hcells. destruct big_prefix_facts as (_ & Hi & _).
  apply (ti_group_update v l B _ i HT); try done.
  - apply on_prefix_out.
  - destruct (ti_ext _ _ _ HT i Hi He) as [_ Hf]. fold e in Hf |- *.
    specialize (Hflag 0 ltac:(lia)). rewrite Z.add_0_r in Hflag. destruct Hflag; congruence.
  - intros a Ha Ea. fold e. rewrite Hcells by dlia.
    unfold on_prefix. pose proof (big_prefix_cells a Ha).
    rewrite (big_prefix_res a), He by done. repeat case_decide; done || tauto.
Qed.

End big_prefix.

Lemma rule_into_wf v depth nh e : entry_wf v (rule_into v depth nh e).
Proof. apply mk_entry_wf. Qed.

Lemma entry_res_rule_into v depth nh e :
  0 <= depth < 64 -> entry_res (rule_into v depth nh e) = Some (depth, wrap (hop_bits v) nh).
Proof. apply entry_res_mk. Qed.

#[export] Hint Resolve rule_into_wf : lpm.

(** The branch test of a cell in terms of its position in the group. *)
Lemma cell_range g k lo len :
  (g * 256 + lo <= g * 256 + k < g * 256 + lo + len) <-> (lo <= k < lo + len).
Proof. lia. Qed.

Lemma add_depth_big_inv v l B ip depth nh :
  tables_inv v l B -> addr ip -> 25 <= depth <= 32 ->
  let p := cut ip depth in
  (add_depth_big v l p depth nh = (l, - ENOSPC) /\ is_ext (tbl24 l !!! (p / 256)) = false /\
   forall g, 0 <= g < num_tbl8s v l -> e_valid_group (tbl8 l !!! (g * 256)) = true) \/
  (snd (add_depth_big v l p depth nh) = 0 /\
   tables_inv v (fst (add_depth_big v l p depth nh))
     (on_prefix B ip depth (join depth (wrap (hop_bits v) nh)))).
Proof.
  intros HT Hip Hd p. pose proof (big_prefix_facts ip depth Hip Hd) as (Hp & Hi & Hlo & Hrg & Hend).
  unfold add_depth_big, RTE_LPM_TBL8_GROUP_NUM_ENTRIES. rewrite shiftr_8, land_255.
  fold p in Hp, Hi, Hlo, Hend. set (e := tbl24 l !!! (p / 256)).
  pose proof (ti_wf24 _ _ _ HT (p / 256)) as [Hhop Hdep]. fold e in Hhop, Hdep.
  destruct (negb (e_valid e)) eqn:Ev; [|destruct (negb (e_valid_group e)) eqn:Eg].
  - assert (He : is_ext e = false) by (unfold is_ext; by destruct (e_valid e)).
    assert (Hn : entry_res e = None) by (unfold entry_res; by destruct (e_valid e)).
    destruct (tbl8_alloc_spec (tbl8 l) (num_tbl8s v l)) as
      [[-> Hall]|(t & g & -> & Hg & Hfree & Ht)]; [left; by destruct l|right].
    destruct (Z.ltb_spec g 0); [lia|]. split; [done|]. cbn [fst tbl24 set_tbl8].
    apply (big_prefix_new_group v l B ip depth HT Hip Hd _ g); fold p e; try done;
      [intros j Hj|intros j|intros k Hk]; rewrite ?(tbl8_store_loop (rule_into v depth nh)).
    + by rewrite Ht, !decide_False by lia.
    + case_decide; [auto with lpm|]. rewrite Ht. case_decide; [|apply HT].
      split; cbn; [destruct v; cbn|]; lia.
    + rewrite Ht, (decide_True (P := _ <= _ < _ + 256)), Hn by lia. split.
      * case_decide; cbn; apply bool_decide_ext; lia.
      * destruct (decide (p mod 256 <= k < _)) as [Hin|Hin]; rewrite <- (cell_range g) in Hin.
        -- by rewrite decide_True, entry_res_rule_into by (done || lia).
        -- by rewrite decide_False by done.
  - assert (He : is_ext e = false) by (unfold is_ext; by destruct (e_valid e), (e_valid_group e)).
    destruct (tbl8_alloc_spec (tbl8 l) (num_tbl8s v l)) as
      [[-> Hall]|(t & g & -> & Hg & Hfree & Ht)]; [left; by destruct l|right].
    destruct (Z.ltb_spec g 0); [lia|]. split; [done|]. cbn [fst tbl24 set_tbl8].
    apply (big_prefix_new_group v l B ip depth HT Hip Hd _ g); fold p e; try done;
      [intros j Hj|intros j|intros k Hk];
      rewrite ?tbl8_put_loop, ?(tbl8_store_loop (rule_into v (e_depth e) (e_next_hop e))).
    + by rewrite Ht, !decide_False by lia.
    + repeat case_decide; repeat case_match; auto with lpm; rewrite Ht, decide_False by lia; apply HT.
    + rewrite !(decide_True (P := _ <= _ < _ + 256)) by lia.
      rewrite Ht, (decide_True (P := _ <= _ < _ + 256)) by lia. split.
      * destruct (decide (g * 256 + p mod 256 <= _ < _)); [destruct (_ || _)|]; cbn;
          apply bool_decide_ext; lia.
      * set (c := rule_into v (e_depth e) _ _).
        assert (Hc : entry_res c = entry_res e).
        { unfold c. rewrite entry_res_rule_into by done. unfold entry_res.
          rewrite wrap_small by done. by destruct (e_valid e). }
        rewrite <- Hc. destruct (decide (p mod 256 <= k < _)) as [Hin|Hin];
          rewrite <- (cell_range g) in Hin.
        -- rewrite decide_True by done. apply (join_entry v nh depth (e_valid_group c)). lia.
        -- by rewrite decide_False by done.
  - assert (He : is_ext e = true) by (unfold is_ext; by destruct (e_valid e), (e_valid_group e)).
    right. split; [done|]. cbn [fst].
    apply (big_prefix_in_group v l B ip depth HT Hip Hd); fold p e; try done;
      [intros j Hj|intros j|intros k Hk..]; rewrite ?tbl8_put_loop.
    + by rewrite decide_False by lia.
    + repeat case_decide; repeat case_match; auto with lpm; apply HT.
    + repeat case_decide; repeat case_match; auto.
    + cbv zeta. set (c := tbl8 l !!! _).
      destruct (decide (p mod 256 <= k < _)) as [Hin|Hin];
        rewrite <- (cell_range (e_next_hop e)) in Hin.
      * rewrite decide_True by done. apply (join_entry v nh depth (e_valid_group c)). lia.
      * by rewrite decide_False by done.
Qed.

(** ** Deletion *)

(** Removing a route of depth [d] from the match of an address: a longer match
    stays, otherwise the replacement [s] takes over. *)
Definition repl (d : Z) (s o : option (Z * Z)) : option (Z * Z) :=
  match o with
  | Some (d', _) => if d' <=? d then s else o
  | None => o
  end.

(** A write to an entry whose effect is the replacement [s]. *)
Record writes_res (v : lpm_version) (s : option (Z * Z))
    (f : rte_lpm_tbl_entry -> rte_lpm_tbl_entry) : Prop := {
  wr_res : forall e, entry_res (f e) = s;
  wr_wf : forall e, entry_wf v e -> entry_wf v (f e)
}.

Lemma writes_invalid v : writes_res v None (fun e => set_valid e false).
Proof. split; [done|]. intros e []. done. Qed.

Lemma writes_entry v h g d :
  0 <= d < 64 ->
  writes_res v (Some (d, wrap (hop_bits v) h)) (fun _ => mk_entry v h true g d).
Proof. intros. split; intros; [by apply entry_res_mk|auto with lpm]. Qed.

Lemma repl_entry v s f d e :
  writes_res v s f -> is_Some (entry_res e) ->
  entry_res (if e_depth e <=? d then f e else e) = repl d s (entry_res e).
Proof.
  intros [Hf _] [x Hx]. unfold entry_res in Hx |- * at 2. destruct (e_valid e) eqn:Ev; [|done].
  cbn. destruct (e_depth e <=? d); [apply Hf|]. unfold entry_res. by rewrite Ev.
Qed.

(** One iteration of [delete_depth_small]; [f24] and [f8] write the
    replacement and keep the kind of the entry. *)
Lemma delete_small_step_inv v l B depth f24 f8 s i :
  tables_inv v l B -> 0 <= i < 2 ^ 24 -> depth <= 24 ->
  (forall a, addr a -> a / 256 = i -> is_Some (B a)) ->
  writes_res v s f24 -> writes_res v s f8 ->
  (forall e, e_valid_group e = false -> e_valid_group (f24 e) = false) ->
  (forall e, e_valid_group e = true -> e_valid_group (f8 e) = true) ->
  (forall d h, s = Some (d, h) -> d <= 24) ->
  tables_inv v (delete_small_step depth f24 f8 i l)
    (fun a => if decide (a / 256 = i) then repl depth s (B a) else B a).
Proof.
  intros HT Hi Hd Hval W24 W8 G24 G8 Hs. unfold delete_small_step. set (e := tbl24 l !!! i).
  assert (HB : forall a, addr a -> a / 256 = i -> B a =
    if is_ext e then entry_res (tbl8 l !!! (e_next_hop e * 256 + a mod 256)) else entry_res e).
  { intros a Ha Ea. rewrite <- (ti_res _ _ _ HT) by done. unfold tbl_result. by rewrite Ea. }
  assert (Hv : e_valid e = true).
  { assert (Ha : addr (i * 256)) by (unfold addr; lia).
    assert (Ei : i * 256 / 256 = i) by (apply Z.div_mul; lia).
    destruct (Hval _ Ha Ei) as [x Hx]. rewrite HB in Hx by done.
    unfold is_ext, entry_res in Hx. by destruct (e_valid e). }
  assert (Hx : is_ext e = e_valid_group e) by (unfold is_ext; by rewrite Hv).
  rewrite Hx in HB.
  destruct (e_valid_group e) eqn:Eg; cbn [negb andb].
  - unfold RTE_LPM_TBL8_GROUP_NUM_ENTRIES.
    apply (ti_group_update v l B _ i HT); fold e; try done.
    + intros a ? ?. by rewrite decide_False.
    + intros j Hj. by rewrite tbl8_replace_loop, decide_False by done.
    + destruct (ti_ext _ _ _ HT i Hi Hx) as [_ Hf]. fold e in Hf.
      rewrite tbl8_replace_loop, decide_True by lia. case_match; auto.
    + intros j. rewrite tbl8_replace_loop. case_decide; [|apply HT].
      case_match; [apply W8|]; apply HT.
    + intros a Ha Ea. rewrite tbl8_replace_loop, decide_True by dlia.
      rewrite (decide_True (P := _ = i)), HB by done. apply (repl_entry v); [done|].
      rewrite <- HB by done. by apply Hval.
  - assert (He : is_Some (entry_res e)) by (unfold entry_res; rewrite Hv; by eexists).
    destruct (e_depth e <=? depth) eqn:El.
    + apply (ti_entry_update v l B _ i HT Hi); fold e; try apply HT; try done.
      * intros a ? ?. by rewrite decide_False.
      * unfold is_ext. rewrite G24 by done. apply andb_false_r.
      * intros Hvf. eapply Hs. rewrite <- (wr_res _ _ _ W24 e). unfold entry_res. by rewrite Hvf.
      * apply W24, HT.
      * intros a Ha Ea. rewrite decide_True, HB, <- (repl_entry v s f24) by done. by rewrite El.
    + apply (tables_inv_ext v l B); [|done]. intros a Ha. case_decide; [|done].
      rewrite HB, <- (repl_entry v s f24) by done. by rewrite El.
Qed.

Lemma delete_small_loop v l B ip depth f24 f8 s :
  tables_inv v l B -> addr ip -> 1 <= depth <= 24 ->
  let p := cut ip depth in
  (forall a, addr a -> cut a depth = p -> is_Some (B a)) ->
  writes_res v s f24 -> writes_res v s f8 ->
  (forall e, e_valid_group e = false -> e_valid_group (f24 e) = false) ->
  (forall e, e_valid_group e = true -> e_valid_group (f8 e) = true) ->
  (forall d h, s = Some (d, h) -> d <= 24) ->
  tables_inv v
    (for_range (p / 256) (u32 (p / 256 + depth_to_range depth)) (delete_small_step depth f24 f8) l)
    (on_prefix B ip depth (repl depth s)).
Proof.
  intros HT Hip Hd p Hval W24 W8 G24 G8 Hs.
  pose proof (small_range_end ip depth Hip Hd) as [Hlo Hhi]. fold p in Hlo, Hhi.
  pose proof (depth_to_range_small depth Hd). rewrite u32_small by lia.
  assert (Hr : forall a, addr a ->
    cut a depth = p <-> p / 256 <= a / 256 < p / 256 + depth_to_range depth).
  { intros a Ha. apply (small_range ip a depth Hip Ha Hd). }
  apply (tables_inv_ext _ _ (fun a => if decide (p / 256 <= a / 256 < p / 256 + depth_to_range depth)
    then repl depth s (B a) else B a)).
  { intros a Ha. unfold on_prefix. fold p. specialize (Hr a Ha). repeat case_decide; done || tauto. }
  pose proof (for_range_inv (fun n t => tables_inv v t (fun a =>
    if decide (p / 256 <= a / 256 < n) then repl depth s (B a) else B a))
    (p / 256) (p / 256 + depth_to_range depth) (delete_small_step depth f24 f8) l) as Hloop.
  cbv beta in Hloop. apply Hloop; clear Hloop; [lia|..].
  - apply (tables_inv_ext _ _ B); [|done]. intros. by rewrite decide_False by lia.
  - intros k t Hk Ht. eapply tables_inv_ext;
      [|apply (delete_small_step_inv v t _ depth f24 f8 s k Ht); try done; try lia].
    + intros a Ha. cbv beta. repeat case_decide; done || lia.
    + intros a Ha Ea. rewrite decide_False by lia. apply Hval; [done|]. apply Hr; [done|lia].
Qed.

(** [delete_depth_small]: [s] is what the rule table gives as replacement. *)
Lemma delete_depth_small_inv v l B ip depth idx sd s :
  tables_inv v l B -> addr ip -> 1 <= depth <= 24 ->
  let p := cut ip depth in
  (forall a, addr a -> cut a depth = p -> is_Some (B a)) ->
  ((idx < 0 /\ s = None) \/
   (0 <= idx /\ 0 <= sd <= 24 /\
    s = Some (sd, wrap (hop_bits v) (r_next_hop (rules_tbl l !!! idx))))) ->
  tables_inv v (fst (delete_depth_small v l p depth idx sd)) (on_prefix B ip depth (repl depth s)).
Proof.
  intros HT Hip Hd p Hval Hs. unfold delete_depth_small. rewrite shiftr_8.
  destruct Hs as [[Hidx ->]|(Hidx & Hsd & ->)]; destruct (Z.ltb_spec idx 0); try lia; cbn [fst].
  - apply delete_small_loop; try done; apply writes_invalid.
  - apply delete_small_loop; try done; try (apply writes_entry; lia). intros d h [= <- _]. lia.
Qed.

(** What the recycling of a tbl8 group relies on: a match of depth below 24
    of the first address of a /24 block is shared by the whole block. *)
Definition block_ok (B : Z -> option (Z * Z)) (i : Z) : Prop :=
  forall d0 h0, B (i * 256) = Some (d0, h0) -> d0 < 24 ->
  forall a, addr a -> a / 256 = i ->
  exists d h, B a = Some (d, h) /\ d0 <= d /\ (d = d0 -> h = h0).

Lemma block_first i a :
  addr a -> a / 256 = i -> addr (i * 256) /\ i * 256 / 256 = i /\ (i * 256) mod 256 = 0.
Proof.
  intros Ha Ea. unfold addr in *. split; [dlia|]. split; [apply Z.div_mul; lia|].
  apply Z.mod_mul. lia.
Qed.

Lemma recycle_group_inv v l B i :
  tables_inv v l B -> 0 <= i < 2 ^ 24 -> is_ext (tbl24 l !!! i) = true -> block_ok B i ->
  tables_inv v (recycle_group v l i (e_next_hop (tbl24 l !!! i) * 256)) B.
Proof.
  intros HT Hi Hext Hblk. set (e := tbl24 l !!! i) in *.
  pose proof (ext_range v l B HT i Hi Hext) as Hg. pose proof (ti_num _ _ _ HT) as Hnum.
  fold e in Hg. set (g := e_next_hop e) in *.
  assert (HB : forall a, addr a -> a / 256 = i -> B a = entry_res (tbl8 l !!! (g * 256 + a mod 256))).
  { intros a Ha Ea. rewrite <- (ti_res _ _ _ HT) by done. unfold tbl_result.
    rewrite Ea. fold e. by rewrite Hext. }
  assert (Hfree_wf : forall j, entry_wf v (tbl8_free (tbl8 l) (g * 256) !!! j)).
  { intros j. unfold tbl8_free. rewrite lookup_total_insert. case_decide; [|apply HT].
    apply (ti_wf8 _ _ _ HT). }
  assert (Hframe : forall j, ~ (is_ext e = true /\ g * 256 <= j < g * 256 + 256) ->
    tbl8_free (tbl8 l) (g * 256) !!! j = tbl8 l !!! j).
  { intros j Hj. unfold tbl8_free. rewrite lookup_total_insert_ne; [done|].
    intros <-. apply Hj. split; [done|lia]. }
  unfold recycle_group, tbl8_recycle_check, RTE_LPM_TBL8_GROUP_NUM_ENTRIES, MAX_DEPTH_TBL24.
  set (c0 := tbl8 l !!! (g * 256)).
  destruct (e_valid c0) eqn:E0.
  - destruct (Z.ltb_spec (e_depth c0) 24) as [Hlt|]; [|done].
    destruct (find_up _ _ _) eqn:Ef; [done|]. rewrite find_up_None in Ef.
    rewrite i32_small by lia. destruct (Z.eqb_spec (g * 256) (- EINVAL)); [unfold EINVAL in *; lia|].
    destruct (Z.ltb_spec (-1) (g * 256)); [|lia]. fold c0.
    assert (Hc0 : entry_res c0 = Some (e_depth c0, e_next_hop c0))
      by (unfold entry_res; by rewrite E0).
    assert (Hwf0 : entry_wf v c0) by apply HT.
    assert (Hmk : entry_res (mk_entry v (e_next_hop c0) true false (e_depth c0)) = entry_res c0).
    { destruct Hwf0. by rewrite entry_res_mk, wrap_small. }
    apply (ti_entry_update v l B B i HT Hi); fold e; auto with lpm.
    + intros _. cbn. destruct Hwf0. rewrite (wrap_small 6); lia.
    + intros a Ha Ea. rewrite Hmk, Hc0.
      destruct (block_first i a Ha Ea) as (Ha0 & E1 & E2).
      assert (HB0 := HB _ Ha0 E1). rewrite E2, Z.add_0_r in HB0. fold c0 in HB0.
      rewrite Hc0 in HB0. destruct (Hblk _ _ HB0 Hlt a Ha Ea) as (d & h & HBa & Hle & Hh).
      rewrite HBa. rewrite HB in HBa by done. unfold entry_res in HBa.
      destruct (e_valid (tbl8 l !!! _)); [|done]. injection HBa as Hd Hh'.
      assert (d = e_depth c0) as ->; [|by rewrite Hh].
      destruct (decide (a mod 256 = 0)) as [Em|Em].
      { rewrite Em, Z.add_0_r in Hd. by fold c0 in Hd. }
      specialize (Ef (g * 256 + a mod 256)). rewrite Hd in Ef.
      rewrite negb_false_iff, Z.eqb_eq in Ef. apply Ef. dlia.
  - destruct (find_up _ _ _) eqn:Ef; [done|]. rewrite find_up_None in Ef.
    apply (ti_entry_update v l B B i HT Hi); fold e; try done.
    + apply (ti_wf24 _ _ _ HT i).
    + intros a Ha Ea. rewrite HB by done. unfold entry_res at 1.
      destruct (decide (a mod 256 = 0)) as [->|Em].
      * rewrite Z.add_0_r. fold c0. by rewrite E0.
      * rewrite Ef by dlia. done.
Qed.

(** A match longer than 24 bits lives in a tbl8 group. *)
Lemma deep_match_ext v l B a d h :
  tables_inv v l B -> addr a -> B a = Some (d, h) -> 25 <= d ->
  is_ext (tbl24 l !!! (a / 256)) = true.
Proof.
  intros HT Ha Hb Hd. destruct (is_ext _) eqn:He; [done|exfalso].
  assert (Hi : 0 <= a / 256 < 2 ^ 24) by (unfold addr in Ha; dlia).
  rewrite <- (ti_res _ _ _ HT) in Hb by done. unfold tbl_result, entry_res in Hb.
  rewrite He in Hb. destruct (e_valid (tbl24 l !!! (a / 256))) eqn:Ev; [|done].
  injection Hb as Hd' _. pose proof (ti_small _ _ _ HT _ Hi Ev He). lia.
Qed.

(** The write of [delete_depth_big] to the cells of the prefix. *)
Lemma delete_depth_big_write v l p depth idx sd s :
  let e := tbl24 l !!! (p / 256) in
  ((idx < 0 /\ s = None) \/
   (0 <= idx /\ 0 <= sd < 64 /\
    s = Some (sd, wrap (hop_bits v) (r_next_hop (rules_tbl l !!! idx))))) ->
  exists f, writes_res v s f /\
    (forall c, e_valid_group (f c) = e_valid_group c \/
               e_valid_group (f c) = e_valid_group (tbl8 l !!! (e_next_hop e * 256))) /\
    fst (delete_depth_big v l p depth idx sd) =
      recycle_group v (set_tbl8 l (for_range (e_next_hop e * 256 + p mod 256)
        (e_next_hop e * 256 + p mod 256 + depth_to_range depth) (tbl8_replace depth f) (tbl8 l)))
        (p / 256) (e_next_hop e * 256).
Proof.
  intros e Hs. unfold delete_depth_big. rewrite shiftr_8, land_255. cbn [fst]. fold e.
  destruct Hs as [[Hidx ->]|(Hidx & Hsd & ->)]; destruct (Z.ltb_spec idx 0); try lia.
  - exists (fun c => set_valid c false). split; [apply writes_invalid|]. split; [by left|done].
  - eexists (fun _ => _). split; [by apply writes_entry|]. split; [by right|done].
Qed.

Lemma delete_depth_big_inv v l B ip depth idx sd s :
  tables_inv v l B -> addr ip -> 25 <= depth <= 32 ->
  let p := cut ip depth in
  (forall a, addr a -> cut a depth = p -> exists d h, B a = Some (d, h) /\ depth <= d) ->
  ((idx < 0 /\ s = None) \/
   (0 <= idx /\ 0 <= sd < 64 /\
    s = Some (sd, wrap (hop_bits v) (r_next_hop (rules_tbl l !!! idx))))) ->
  block_ok (on_prefix B ip depth (repl depth s)) (p / 256) ->
  tables_inv v (fst (delete_depth_big v l p depth idx sd)) (on_prefix B ip depth (repl depth s)).
Proof.
  intros HT Hip Hd p Hval Hs Hblk.
  pose proof (big_prefix_facts ip depth Hip Hd) as (Hp & Hi & Hlo & Hrg & Hend).
  fold p in Hp, Hi, Hlo, Hend. set (i := p / 256) in *. set (e := tbl24 l !!! i).
  assert (HB := big_prefix_res v l B ip depth HT). fold p i e in HB.
  assert (He : is_ext e = true).
  { destruct (Hval p Hp) as (d & h & Hb & Hle); [by apply cut_cut; [|lia..]|].
    apply (deep_match_ext v l B p d h); done || lia. }
  assert (Hcell : forall k, p mod 256 <= k < p mod 256 + depth_to_range depth ->
    is_Some (entry_res (tbl8 l !!! (e_next_hop e * 256 + k)))).
  { intros k Hk. assert (Ha : addr (i * 256 + k)) by (unfold addr in *; lia).
    assert (Ei : (i * 256 + k) / 256 = i) by dlia. assert (Em : (i * 256 + k) mod 256 = k) by dlia.
    destruct (Hval (i * 256 + k) Ha) as (d & h & Hb & _).
    { apply big_prefix_cells; [done..|]. fold p i. by rewrite Em. }
    rewrite HB, He, Em in Hb by done. rewrite Hb. by eexists. }
  destruct (delete_depth_big_write v l p depth idx sd s Hs) as (f & Wf & Gf & ->). fold i e in Gf |- *.
  destruct (ti_ext _ _ _ HT i Hi He) as [_ Hflag]. fold e in Hflag. rewrite Hflag in Gf.
  set (t' := for_range _ _ _ _).
  assert (HT' : tables_inv v (set_tbl8 l t') (on_prefix B ip depth (repl depth s))).
  { apply (big_prefix_in_group v l B ip depth HT Hip Hd); fold p i e; try done;
      unfold t'; [intros j Hj|intros j|intros k Hk..]; rewrite ?tbl8_replace_loop.
    - by rewrite decide_False by lia.
    - repeat case_decide; repeat case_match; try apply Wf; apply HT.
    - repeat case_decide; repeat case_match; auto.
    - cbv zeta. destruct (decide (p mod 256 <= k < _)) as [Hin|Hin].
      + rewrite decide_True by lia. apply (repl_entry v); auto.
      + by rewrite decide_False by lia. }
  apply (recycle_group_inv v (set_tbl8 l t') _ i HT' Hi); done.
Qed.
