(* ===== verification/LpmProofs.v ===== *)
(** * IPv4 LPM: correctness of the public operations

    The refinement of the DIR-24-8 implementation to the map of routes: the
    invariant [lpm_inv] relates a table to its routes, every public operation
    preserves it and acts on the routes as specified, and the lookups return
    the longest prefix match. *)

From S2P Require Import Prelude Lpm LpmRules LpmSpec LpmTables.

Implicit Type (R : routes).

(** The longest match as the tables can represent it: the next hop keeps the
    bits of the entry's bit-field. *)
Definition matches (v : lpm_version) (R : routes) (a : Z) : option (Z * Z) :=
  (fun x => (fst x, wrap (hop_bits v) (snd x))) <$> lpm_spec R a.

(** The invariant of a table that holds the routes [R]. *)
Definition lpm_inv (v : lpm_version) (l : rte_lpm) (R : routes) : Prop :=
  rules_inv l R /\ tables_inv v l (matches v R).

(** Addresses below a prefix share its routes of smaller depth; the public
    operations mask with [cut]. *)

Lemma hop_wrap v nh : wrap (hop_bits v) (wrap (rule_hop_bits v) nh) = wrap (hop_bits v) nh.
Proof. apply wrap_wrap_le. destruct v; cbn; lia. Qed.

Lemma matches_join v R a d h :
  1 <= d <= 32 ->
  matches v (<[(d, cut a d) := wrap (rule_hop_bits v) h]> R) a =
  join d (wrap (hop_bits v) h) (matches v R a).
Proof.
  intros Hd. unfold matches, lpm_spec. rewrite best_match_insert_in, decide_True by lia.
  destruct (best_match R a 32) as [[d' h']|]; cbn; [|by rewrite hop_wrap].
  destruct (d' <=? d); cbn; by rewrite ?hop_wrap.
Qed.

Lemma matches_insert v R a d p h :
  1 <= d <= 32 ->
  matches v (<[(d, p) := wrap (rule_hop_bits v) h]> R) a =
  if decide (cut a d = p) then join d (wrap (hop_bits v) h) (matches v R a) else matches v R a.
Proof.
  intros Hd. case_decide as Hp; [subst; by apply matches_join|].
  unfold matches, lpm_spec. by rewrite best_match_insert_out.
Qed.

(** The next shorter route of an address, in table representation. *)
Definition shorter (v : lpm_version) (R : routes) (a d : Z) : option (Z * Z) :=
  (fun x => (fst x, wrap (hop_bits v) (snd x))) <$> best_match R a (Z.to_nat (d - 1)).

Lemma matches_present v R a d :
  1 <= d <= 32 -> is_Some (R !! (d, cut a d)) ->
  exists d' h', matches v R a = Some (d', h') /\ d <= d'.
Proof.
  intros Hd [h Hh]. destruct (best_match_longest R a 32 d h) as (d'&h'&E&?); [lia|done|].
  unfold matches, lpm_spec. rewrite E. by eexists _, _.
Qed.

Lemma matches_delete v R a d p :
  1 <= d <= 32 -> is_Some (R !! (d, p)) ->
  matches v (delete (d, p) R) a =
  if decide (cut a d = p) then repl d (shorter v R a d) (matches v R a) else matches v R a.
Proof.
  intros Hd HR. unfold matches, lpm_spec. case_decide as Hp.
  - subst p. rewrite best_match_delete_in by (done || lia).
    destruct (best_match R a 32) as [[d' h']|]; [|done]. cbn. by destruct (d' <=? d).
  - by rewrite best_match_delete_out.
Qed.

(** Any longest-match function satisfies what recycling a group relies on. *)
Lemma matches_block_ok v R i : block_ok (matches v R) i.
Proof.
  intros d0 h0 Hf Hd0 a Ha Hai. destruct (block_first i a Ha Hai) as (Hi&Hii&_).
  unfold matches, lpm_spec in *.
  destruct (best_match R (i * 256) 32) as [[d0' h0']|] eqn:E; [|done].
  cbn in Hf. injection Hf as -> <-. pose proof (best_match_depth _ _ _ _ _ E).
  assert (Hc : cut a d0 = cut (i * 256) d0).
  { apply (cut_eq_shorter a (i * 256) d0 24); [done|done|lia|lia|].
    apply (small_range (i * 256) a 24); [done..|lia|]. rewrite depth_to_range_small by lia.
    rewrite cut_div by (done || lia). change (2 ^ (32 - 24)) with 256. cbn [Z.sub].
    change (2 ^ (24 - 24)) with 1. dlia. }
  pose proof (best_match_hit _ _ _ _ _ E) as Hh. rewrite <- Hc in Hh.
  destruct (best_match_longest R a 32 d0 h0') as (d&h&E'&?); [lia|done|].
  rewrite E'. exists d, (wrap (hop_bits v) h). split_and!; [done|done|].
  intros ->. apply best_match_hit in E'. congruence.
Qed.

(** ** The search for the covering route *)

Lemma find_previous_rule_spec l R ip depth :
  rules_inv l R -> 1 <= depth <= 32 ->
  let '(idx, sd) := find_previous_rule l ip depth 0 in
  match best_match R ip (Z.to_nat (depth - 1)) with
  | None => idx < 0
  | Some (d, h) => 0 <= idx /\ sd = d /\ r_next_hop (rules_tbl l !!! idx) = h
  end.
Proof.
  intros HL Hd. unfold find_previous_rule. rewrite u8_small by lia.
  assert (Hn : (Z.to_nat (depth - 1) <= 32)%nat) by lia.
  revert Hn. generalize (Z.to_nat (depth - 1)) as n.
  induction n as [|n IH]; intros Hn; cbn [find_previous_rule_loop best_match]; [done|].
  fold (cut ip (Z.of_nat (S n))).
  destruct (rule_find_spec l R (cut ip (Z.of_nat (S n))) (Z.of_nat (S n)) HL ltac:(lia))
    as [[E ->]|(nh&E&Hpos&_&Hr)]; rewrite E.
  - cbn. apply IH. lia.
  - destruct (Z.leb_spec 0 (rule_find l (cut ip (Z.of_nat (S n))) (Z.of_nat (S n)))); [|lia].
    by rewrite Hr.
Qed.

Lemma block_ok_ext B B' i :
  (forall a, addr a -> B a = B' a) -> block_ok B i -> block_ok B' i.
Proof.
  intros HB Hok d0 h0 Hf Hd0 a Ha Hai. destruct (block_first i a Ha Hai) as (Hi&_&_).
  rewrite <- HB in * by done. by eapply Hok.
Qed.

(** ** The empty table *)

Lemma best_match_empty {X} a n : best_match (empty : gmap _ X) a n = None.
Proof. induction n as [|n IH]; cbn [best_match]; [done|]. by rewrite lookup_empty. Qed.

Lemma psum_zero f d : (forall k, 1 <= k -> f k = 0) -> psum f d = 0.
Proof.
  intros Hf. unfold psum. induction (Z.to_nat d) as [|n IH]; [done|]. cbn [psum_nat].
  rewrite IH, Hf by lia. done.
Qed.

Lemma zeroed_rules_inv l :
  0 < max_rules l < 2 ^ 31 -> rule_info l = empty -> rules_inv l empty.
Proof.
  intros Hm Hri.
  assert (Hu : forall d, ru l d = 0) by (intros d; unfold ru; by rewrite Hri, lookup_total_empty).
  assert (Hf : forall d, rf l d = 0) by (intros d; unfold rf; by rewrite Hri, lookup_total_empty).
  split; try done.
  - intros d _. rewrite Hu. lia.
  - intros d _. rewrite Hu. lia.
  - intros d _. rewrite Hf. lia.
  - rewrite psum_zero; [lia|]. intros. apply Hu.
  - intros d _. rewrite Hu, Hf. split; [|lia]. intros ip nh. rewrite lookup_empty.
    split; [done|]. intros (j&?&_). lia.
  - intros d ip [x Hx]. by rewrite lookup_empty in Hx.
  - rewrite psum_zero; [done|]. intros. apply Hu.
Qed.

Lemma zeroed_tables_inv v l :
  0 <= num_tbl8s v l <= 256 -> tbl24 l = empty -> tbl8 l = empty ->
  tables_inv v l (matches v empty).
Proof.
  intros Hn H24 H8. split; rewrite ?H24, ?H8; [done|..].
  - intros i. rewrite lookup_total_empty. apply zero_entry_wf.
  - intros j. rewrite lookup_total_empty. apply zero_entry_wf.
  - intros a _. unfold tbl_result, matches, lpm_spec. rewrite H24, best_match_empty.
    by rewrite lookup_total_empty.
  - intros i _. by rewrite lookup_total_empty.
  - intros i j _ _. by rewrite !lookup_total_empty.
  - intros i _ _. by rewrite !lookup_total_empty.
Qed.

Lemma zeroed_lpm_inv v l :
  0 < max_rules l < 2 ^ 31 -> 0 <= num_tbl8s v l <= 256 ->
  rule_info l = empty -> tbl24 l = empty -> tbl8 l = empty -> lpm_inv v l empty.
Proof. intros. split; [by apply zeroed_rules_inv|by apply zeroed_tables_inv]. Qed.

(** ** Adding a route *)

(** All tbl8 groups of the table are marked as used. *)
Definition groups_full (v : lpm_version) (l : rte_lpm) : Prop :=
  forall g, 0 <= g < num_tbl8s v l -> e_valid_group (tbl8 l !!! (g * 256)) = true.

Definition same_config (l l' : rte_lpm) : Prop :=
  max_rules l' = max_rules l /\ number_tbl8s l' = number_tbl8s l.

(** Outcome of [rte_lpm_add]: the route is stored, or there is no space for a
    new one, for a stated reason, and nothing changes. *)
Definition add_post (v : lpm_version) (l : rte_lpm) (R : routes) (ip depth nh : Z)
    (res : option rte_lpm * Z) : Prop :=
  exists l', fst res = Some l' /\ same_config l l' /\
  ((snd res = 0 /\
    lpm_inv v l' (<[(depth, cut ip depth) := wrap (rule_hop_bits v) nh]> R)) \/
   (snd res = - ENOSPC /\ R !! (depth, cut ip depth) = None /\ lpm_inv v l' R /\
    (Z.of_nat (size R) = max_rules l \/ (25 <= depth /\ groups_full v l)))).

Lemma lpm_inv_range v l R : lpm_inv v l R -> 0 < max_rules l < 2 ^ 31.
Proof. intros [HL _]. apply HL. Qed.

Lemma bad_depth_false depth : 1 <= depth <= 32 -> bad_depth depth = false.
Proof. intros. unfold bad_depth, RTE_LPM_MAX_DEPTH. case_tests; done || lia. Qed.

Lemma bad_depth_true depth : ~ (1 <= depth <= 32) -> bad_depth depth = true.
Proof. intros. unfold bad_depth, RTE_LPM_MAX_DEPTH. case_tests; done || lia. Qed.

(** What the table operations leave alone. *)
Definition same_rules (l l' : rte_lpm) : Prop :=
  max_rules l' = max_rules l /\ number_tbl8s l' = number_tbl8s l /\
  rule_info l' = rule_info l /\ rules_tbl l' = rules_tbl l.

Lemma rules_inv_same l l' R : same_rules l l' -> rules_inv l R -> rules_inv l' R.
Proof.
  destruct l, l'. unfold same_rules. cbn. intros (->&->&->&->) HL.
  destruct HL. split; done.
Qed.

Lemma same_rules_loop l lo hi body t :
  (forall k s, same_rules l s -> same_rules l (body k s)) ->
  same_rules l t -> same_rules l (for_range lo hi body t).
Proof.
  intros Hb. unfold for_range. generalize (Z.to_nat (hi - lo)) as n. intros n.
  revert lo t. induction n as [|n IH]; intros i t Ht; cbn [for_n]; [done|].
  apply IH. by apply Hb.
Qed.

Ltac same_rules_cases :=
  unfold same_rules in *; cbn;
  repeat (case_match; cbn in * ); simplify_eq; cbn; tauto.

Lemma add_small_same v l p depth nh :
  same_rules l (fst (add_depth_small v l p depth nh)).
Proof.
  apply same_rules_loop; [|done]. intros k s Hs. unfold add_small_step. same_rules_cases.
Qed.

Lemma add_big_same v l p depth nh :
  same_rules l (fst (add_depth_big v l p depth nh)).
Proof. unfold add_depth_big. same_rules_cases. Qed.

Lemma delete_small_same v l p depth i d :
  same_rules l (fst (delete_depth_small v l p depth i d)).
Proof.
  unfold delete_depth_small. case_match; apply same_rules_loop; try done;
    intros k s Hs; unfold delete_small_step; same_rules_cases.
Qed.

Lemma delete_big_same v l p depth i d :
  same_rules l (fst (delete_depth_big v l p depth i d)).
Proof. unfold delete_depth_big, recycle_group. same_rules_cases. Qed.

#[export] Hint Resolve add_small_same add_big_same delete_small_same delete_big_same : lpm.

Lemma tables_inv_insert v l R ip depth nh :
  1 <= depth <= 32 ->
  tables_inv v l (on_prefix (matches v R) ip depth (join depth (wrap (hop_bits v) nh))) ->
  tables_inv v l (matches v (<[(depth, cut ip depth) := wrap (rule_hop_bits v) nh]> R)).
Proof.
  intros Hd. apply tables_inv_ext. intros a _. rewrite matches_insert by done. done.
Qed.

Lemma same_config_trans l l1 l2 : same_tables l l1 -> same_rules l1 l2 -> same_config l l2.
Proof. intros (?&?&_) (?&?&_). split; congruence. Qed.

(** A tbl24 entry that is not extended holds no route of depth above 24. *)
Lemma not_ext_no_route v l R ip depth :
  tables_inv v l (matches v R) -> addr ip -> 24 < depth <= 32 ->
  is_ext (tbl24 l !!! (cut ip depth / 256)) = false -> R !! (depth, cut ip depth) = None.
Proof.
  intros HT Hip Hd Hext. destruct (R !! (depth, cut ip depth)) eqn:Ep; [|done]. exfalso.
  pose proof (cut_addr ip depth Hip ltac:(lia)) as Hp.
  assert (Ec : cut (cut ip depth) depth = cut ip depth) by (apply cut_cut; done || lia).
  destruct (matches_present v R (cut ip depth) depth) as (d'&h'&Em&?); [lia|by rewrite Ec, Ep|].
  apply (deep_match_ext v l _ _ d' h' HT Hp) in Em; [congruence|lia].
Qed.

Lemma add_ok v l R ip depth nh :
  lpm_inv v l R -> addr ip -> 1 <= depth <= 32 ->
  add_post v l R ip depth nh (rte_lpm_add v (Some l) ip depth nh).
Proof.
  intros [HR HT] Hip Hd. unfold rte_lpm_add. rewrite bad_depth_false by done.
  fold (cut ip depth). set (p := cut ip depth) in *.
  pose proof (rule_add_spec v l R p depth nh HR Hd) as Hadd. unfold rule_add_post in Hadd.
  destruct (rule_add v l p depth nh) as [l1 r].
  destruct Hadd as (Hs&[(->&Hnone&Hsz&HR1)|(HR1&_&Hr&Hrip)]).
  { exists l1. cbn. split; [done|]. split; [by destruct Hs as (?&?&_)|]. right.
    split_and!; [done|done|split; [done|by eapply tables_inv_same]|by left]. }
  apply (tables_inv_same _ _ _ _ Hs) in HT.
  pose proof (ly_stale _ _ _ HR1 depth Hd). destruct (Z.ltb_spec r 0); [lia|].
  unfold MAX_DEPTH_TBL24. destruct (Z.leb_spec depth 24) as [Hsm|Hbig].
  - pose proof (add_depth_small_inv v l1 _ ip depth nh HT Hip ltac:(lia)) as HT2.
    pose proof (add_small_same v l1 p depth nh) as Hsr. cbv zeta in HT2. fold p in HT2.
    destruct (add_depth_small v l1 p depth nh) as [l2 st]. exists l2. cbn.
    split; [done|]. split; [by eapply same_config_trans|]. left. split_and!; [done|split; [by eapply rules_inv_same|]].
    apply tables_inv_insert; done.
  - pose proof (add_big_same v l1 p depth nh) as Hsr.
    destruct (add_depth_big_inv v l1 _ ip depth nh HT Hip ltac:(lia))
      as [(E&Hext&Hfull)|[E HT2]]; fold p in E.
    + rewrite E. cbn. exists (rule_delete l1 r depth). split; [done|].
      destruct (rule_delete_spec l1 _ depth r HR1 Hd Hr) as [HR2 Hs2].
      split; [by destruct Hs as (?&?&_), Hs2 as (?&?&_); split; congruence|]. right.
      pose proof (not_ext_no_route _ _ _ _ _ HT Hip (conj Hbig (proj2 Hd)) Hext) as Hnone.
      rewrite Hrip, delete_insert_id in HR2 by done.
      split_and!; [done|done|split; [done|by eapply tables_inv_same]|].
      right. split; [lia|]. destruct Hs as (_&En&_&E8). unfold groups_full.
      destruct v; cbn in *; rewrite ?En, ?E8 in Hfull; done.
    + fold p in HT2. destruct (add_depth_big v l1 p depth nh) as [l2 st]. cbn in E. subst st.
      cbn. exists l2. split; [done|]. split; [by eapply same_config_trans|]. left.
      split_and!; [done|split; [by eapply rules_inv_same|]]. by apply tables_inv_insert.
Qed.

(** ** Deleting a route *)

Lemma shorter_common v R a ip depth :
  addr a -> addr ip -> 1 <= depth <= 32 -> cut a depth = cut ip depth ->
  shorter v R a depth = shorter v R ip depth.
Proof.
  intros Ha Hip Hd Hc. unfold shorter. f_equal.
  apply (best_match_common R a ip _ depth); done || lia.
Qed.

Lemma matches_delete_on v R ip depth a :
  addr a -> addr ip -> 1 <= depth <= 32 -> is_Some (R !! (depth, cut ip depth)) ->
  on_prefix (matches v R) ip depth (repl depth (shorter v R ip depth)) a =
  matches v (delete (depth, cut ip depth) R) a.
Proof.
  intros Ha Hip Hd HR. rewrite matches_delete by done. unfold on_prefix.
  case_decide as Hc; [|done]. by rewrite (shorter_common v R a ip).
Qed.

(** The result of [find_previous_rule] in the form the deletions use. *)
Lemma covering_rule v l R ip depth :
  rules_inv l (delete (depth, cut ip depth) R) -> 1 <= depth <= 32 ->
  let '(idx, sd) := find_previous_rule l ip depth 0 in
  let s := shorter v R ip depth in
  (idx < 0 /\ s = None) \/
  (0 <= idx /\ 0 <= sd < depth /\
   s = Some (sd, wrap (hop_bits v) (r_next_hop (rules_tbl l !!! idx)))).
Proof.
  intros HR Hd. pose proof (find_previous_rule_spec l _ ip depth HR Hd) as H.
  destruct (find_previous_rule l ip depth 0) as [idx sd].
  rewrite best_match_delete_low in H by lia. unfold shorter.
  destruct (best_match R ip (Z.to_nat (depth - 1))) as [[d h]|] eqn:E; [|by left].
  right. destruct H as (?&->&<-). apply best_match_depth in E. cbn. split_and!; done || lia.
Qed.

Lemma delete_tables v l R ip depth :
  tables_inv v l (matches v R) -> rules_inv l (delete (depth, cut ip depth) R) ->
  addr ip -> 1 <= depth <= 32 -> is_Some (R !! (depth, cut ip depth)) ->
  let '(idx, sd) := find_previous_rule l ip depth 0 in
  let l' := fst (if depth <=? MAX_DEPTH_TBL24
                 then delete_depth_small v l (cut ip depth) depth idx sd
                 else delete_depth_big v l (cut ip depth) depth idx sd) in
  tables_inv v l' (matches v (delete (depth, cut ip depth) R)).
Proof.
  intros HT HR Hip Hd Hin. pose proof (covering_rule v l R ip depth HR Hd) as Hcov.
  destruct (find_previous_rule l ip depth 0) as [idx sd]. cbv zeta in *.
  assert (Hpres : forall a, addr a -> cut a depth = cut ip depth ->
    exists d h, matches v R a = Some (d, h) /\ depth <= d).
  { intros a _ Hc. apply matches_present; [done|by rewrite Hc]. }
  eapply tables_inv_ext; [intros a Ha; apply matches_delete_on; done|].
  unfold MAX_DEPTH_TBL24. destruct (Z.leb_spec depth 24).
  - apply delete_depth_small_inv; [done|done|lia|..].
    + intros a Ha Hc. destruct (Hpres a Ha Hc) as (?&?&->&_). done.
    + destruct Hcov as [|(?&?&?)]; [by left|right]. split_and!; done || lia.
  - apply delete_depth_big_inv; [done|done|lia|done|..].
    + destruct Hcov as [|(?&?&?)]; [by left|right]. split_and!; done || lia.
    + eapply block_ok_ext; [intros a Ha; symmetry; by apply matches_delete_on|].
      apply matches_block_ok.
Qed.

(** Outcome of [rte_lpm_delete]. *)
Definition delete_post (v : lpm_version) (l : rte_lpm) (R : routes) (ip depth : Z)
    (res : option rte_lpm * Z) : Prop :=
  let key := (depth, cut ip depth) in
  (R !! key = None /\ res = (Some l, - EINVAL)) \/
  (is_Some (R !! key) /\
   exists l', res = (Some l', 0) /\ lpm_inv v l' (delete key R)).

Lemma delete_ok v l R ip depth :
  lpm_inv v l R -> addr ip -> 1 <= depth <= 32 ->
  delete_post v l R ip depth (rte_lpm_delete v (Some l) ip depth).
Proof.
  intros [HR HT] Hip Hd. unfold rte_lpm_delete, delete_post. rewrite bad_depth_false by done.
  fold (cut ip depth). set (p := cut ip depth) in *.
  destruct (rule_find_spec l R p depth HR Hd) as [[E ->]|(nh&E&Hpos&Hk&Hr)]; [by left|right].
  split; [by rewrite E|]. destruct (Z.ltb_spec (rule_find l p depth) 0); [lia|].
  destruct (rule_delete_spec l R depth _ HR Hd Hk) as [HR1 Hs]. rewrite Hr in HR1. cbn in HR1.
  set (l1 := rule_delete l (rule_find l p depth) depth) in *.
  apply (tables_inv_same _ _ _ _ Hs) in HT.
  pose proof (delete_tables v l1 R ip depth HT HR1 Hip Hd (mk_is_Some _ _ E)) as Hdel.
  destruct (find_previous_rule l1 ip depth 0) as [idx sd]. cbv zeta in Hdel. fold p in Hdel.
  destruct (depth <=? MAX_DEPTH_TBL24).
  - pose proof (delete_small_same v l1 p depth idx sd) as Hsr.
    assert (E0 : snd (delete_depth_small v l1 p depth idx sd) = 0)
      by (unfold delete_depth_small; by case_match).
    destruct (delete_depth_small _ _ _ _ _ _) as [l2 st]. cbn in *. subst st.
    eexists. split; [done|]. split; [by eapply rules_inv_same|done].
  - pose proof (delete_big_same v l1 p depth idx sd) as Hsr.
    assert (E0 : snd (delete_depth_big v l1 p depth idx sd) = 0) by done.
    destruct (delete_depth_big _ _ _ _ _ _) as [l2 st]. cbn in *. subst st.
    eexists. split; [done|]. split; [by eapply rules_inv_same|done].
Qed.

(** ** The rule table answers exact matches *)

Lemma present_ok v l R ip d o :
  lpm_inv v l R -> 1 <= d <= 32 ->
  rte_lpm_is_rule_present (Some l) ip d (Some o) =
    match R !! (d, cut ip d) with Some nh => (1, Some nh) | None => (0, Some o) end.
Proof.
  intros [HR _] Hd. unfold rte_lpm_is_rule_present. rewrite bad_depth_false by done.
  fold (cut ip d).
  destruct (rule_find_spec l R (cut ip d) d HR Hd) as [[-> ->]|(nh&->&Hpos&_&->)]; [done|].
  destruct (Z.leb_spec 0 (rule_find l (cut ip d) d)); [done|lia].
Qed.

Lemma lpm_inv_size v l R : lpm_inv v l R -> Z.of_nat (size R) <= max_rules l < 2 ^ 31.
Proof.
  intros HI. pose proof (lpm_inv_range v l R HI). destruct HI as [HL _].
  rewrite <- (ly_size _ _ _ HL). pose proof (ly_total _ _ _ HL). lia.
Qed.
