(* ===== verification/LpmLookup.v ===== *)
(** * IPv4 LPM: the lookup functions

    [rte_lpm_lookup], [rte_lpm_lookup_bulk_func] and the SSE
    [rte_lpm_lookupx4] read the table entries as 32-bit words; here they are
    related to the table walk [tbl_result] and through it to the longest
    prefix match. *)

From S2P Require Import Prelude Lpm LpmRules LpmSpec LpmTables LpmProofs.

(** ** Packed words

    [Z.lor a (Z.shiftl b k)] with [a] below [2^k]: two fields side by side. *)

Lemma testbit_high a k n : 0 <= a < 2 ^ k -> k <= n -> Z.testbit a n = false.
Proof.
  intros Ha Hn. destruct (decide (0 <= k)); [|rewrite Z.pow_neg_r in Ha; lia].
  rewrite <- (Z.mod_small a (2 ^ k)) by done. apply Z.mod_pow2_bits_high. lia.
Qed.

Lemma pack_land k a b m n :
  0 <= k -> 0 <= a < 2 ^ k -> 0 <= m < 2 ^ k ->
  Z.land (Z.lor a (Z.shiftl b k)) (Z.lor m (Z.shiftl n k)) =
  Z.lor (Z.land a m) (Z.shiftl (Z.land b n) k).
Proof.
  intros Hk Ha Hm. apply Z.bits_inj'. intros i Hi.
  rewrite !Z.land_spec, !Z.lor_spec, !Z.shiftl_spec, !Z.land_spec by done.
  destruct (decide (i < k)).
  - rewrite !(Z.testbit_neg_r _ (i - k)) by lia. cbn. by rewrite !orb_false_r.
  - rewrite (testbit_high a k i), (testbit_high m k i) by (done || lia). done.
Qed.

Lemma pack_low k a b : 0 <= k -> 0 <= a < 2 ^ k -> wrap k (Z.lor a (Z.shiftl b k)) = a.
Proof.
  intros Hk Ha. unfold wrap. rewrite <- Z.land_ones by done.
  replace (Z.ones k) with (Z.lor (Z.ones k) (Z.shiftl 0 k)) by (by rewrite Z.shiftl_0_l, Z.lor_0_r).
  rewrite pack_land by (rewrite ?Z.ones_equiv; done || lia).
  rewrite Z.land_0_r, Z.shiftl_0_l, Z.lor_0_r, Z.land_ones by done. by apply Z.mod_small.
Qed.

Lemma pack_high k a b : 0 <= k -> 0 <= a < 2 ^ k -> Z.shiftr (Z.lor a (Z.shiftl b k)) k = b.
Proof.
  intros Hk Ha. rewrite Z.shiftr_lor, Z.shiftr_shiftl_l, Z.sub_diag, Z.shiftl_0_r by done.
  rewrite Z.shiftr_div_pow2, Z.div_small by done. done.
Qed.

Lemma pack_range k j a b :
  0 <= k -> 0 <= j -> 0 <= a < 2 ^ k -> 0 <= b < 2 ^ j ->
  0 <= Z.lor a (Z.shiftl b k) < 2 ^ (k + j).
Proof.
  intros Hk Hj Ha Hb. rewrite <- Z.add_nocarry_lor.
  - rewrite Z.shiftl_mul_pow2, Z.pow_add_r by done. nia.
  - apply Z.bits_inj'. intros i Hi. rewrite Z.land_spec, Z.shiftl_spec, Z.bits_0 by done.
    destruct (decide (i < k)); [by rewrite (Z.testbit_neg_r _ (i - k)), andb_false_r by lia|].
    by rewrite (testbit_high a k i) by (done || lia).
Qed.

Lemma pack_eq k a b a' b' :
  0 <= k -> 0 <= a < 2 ^ k -> 0 <= a' < 2 ^ k ->
  Z.lor a (Z.shiftl b k) = Z.lor a' (Z.shiftl b' k) <-> a = a' /\ b = b'.
Proof.
  intros Hk Ha Ha'. split; [|by intros [-> ->]]. intros E. split.
  - rewrite <- (pack_low k a b), <- (pack_low k a' b') by done. by rewrite E.
  - rewrite <- (pack_high k a b), <- (pack_high k a' b') by done. by rewrite E.
Qed.

(** ** The entry word *)

(** The two flag bits of an entry word, and the rest above them. *)
Definition flags (e : rte_lpm_tbl_entry) : Z := Z.b2z (e_valid e) + 2 * Z.b2z (e_valid_group e).

Lemma entry_word_pack e :
  entry_word e =
  Z.lor (e_next_hop e) (Z.shiftl (Z.lor (flags e) (Z.shiftl (e_depth e) 2)) 24).
Proof.
  unfold entry_word, flags. f_equal. rewrite Z.shiftl_lor, Z.shiftl_shiftl by lia.
  rewrite Z.lor_assoc. f_equal. by destruct (e_valid e), (e_valid_group e).
Qed.

Section entry_words.
Context (e : rte_lpm_tbl_entry) (He : entry_wf V1604 e).

Lemma flags_range : 0 <= flags e < 2 ^ 2.
Proof. unfold flags. destruct (e_valid e), (e_valid_group e); cbn; lia. Qed.

Lemma entry_word_range : 0 <= entry_word e < 2 ^ 32.
Proof.
  destruct He as [Hh Hd]. cbn in Hh. rewrite entry_word_pack.
  apply (pack_range 24 8); [lia|lia|done|]. apply (pack_range 2 6); [lia|lia|apply flags_range|lia].
Qed.

Lemma entry_word_hop : Z.land (entry_word e) 0x00FFFFFF = e_next_hop e.
Proof.
  destruct He as [Hh _]. change 0x00FFFFFF with (Z.ones 24).
  rewrite Z.land_ones, entry_word_pack by lia. by apply (pack_low 24).
Qed.

(** Masking with a mask of the two flag bits. *)
Lemma entry_word_mask m :
  0 <= m < 4 -> Z.land (entry_word e) (Z.shiftl m 24) = Z.shiftl (Z.land (flags e) m) 24.
Proof.
  intros Hm. destruct He as [Hh _]. cbn in Hh. rewrite entry_word_pack.
  rewrite <- (Z.lor_0_l (Z.shiftl m 24)) at 1. rewrite pack_land by lia.
  rewrite Z.land_0_r, Z.lor_0_l. f_equal.
  rewrite <- (Z.lor_0_r m) at 1. rewrite <- (Z.shiftl_0_l 2).
  rewrite pack_land by (apply flags_range || lia).
  by rewrite Z.land_0_r, Z.shiftl_0_l, Z.lor_0_r.
Qed.

Lemma entry_word_ext : is_ext_word (entry_word e) = is_ext e.
Proof.
  unfold is_ext_word, RTE_LPM_VALID_EXT_ENTRY_BITMASK.
  change 0x03000000 with (Z.shiftl 3 24) at 1. rewrite entry_word_mask by lia.
  unfold flags, is_ext. by destruct (e_valid e), (e_valid_group e).
Qed.

Lemma entry_word_valid :
  (Z.land (entry_word e) RTE_LPM_LOOKUP_SUCCESS =? 0) = negb (e_valid e).
Proof.
  unfold RTE_LPM_LOOKUP_SUCCESS. change 0x01000000 with (Z.shiftl 1 24).
  rewrite entry_word_mask by lia. unfold flags. by destruct (e_valid e), (e_valid_group e).
Qed.
End entry_words.

(** ** The table walk *)

(** The entry a lookup ends in. *)
Definition walk (l : rte_lpm) (a : Z) : rte_lpm_tbl_entry :=
  let e := tbl24 l !!! (a / 256) in
  if is_ext e then tbl8 l !!! (e_next_hop e * 256 + a mod 256) else e.

Lemma walk_result l a : tbl_result l a = entry_res (walk l a).
Proof. unfold tbl_result, walk. by destruct (is_ext _). Qed.

Section walking.
Context (l : rte_lpm) (B : Z -> option (Z * Z)) (HT : tables_inv V1604 l B).

Lemma walk_wf a : entry_wf V1604 (walk l a).
Proof. unfold walk. destruct (is_ext _); apply HT. Qed.

Lemma lookup_word_walk a : addr a -> lookup_word l a = entry_word (walk l a).
Proof.
  intros Ha. unfold lookup_word, walk, RTE_LPM_TBL8_GROUP_NUM_ENTRIES. rewrite shiftr_8.
  pose proof (ti_wf24 _ _ _ HT (a / 256)) as Hwf. destruct (Hwf) as [Hh _]. cbn in Hh.
  rewrite entry_word_ext, entry_word_hop by done. destruct (is_ext _); [|done].
  unfold u8, wrap. change (2 ^ 8) with 256. rewrite u32_small by dlia. do 2 f_equal. lia.
Qed.

Lemma walk_spec a :
  addr a ->
  match B a with
  | Some (d, h) => e_valid (walk l a) = true /\ e_next_hop (walk l a) = h
  | None => e_valid (walk l a) = false
  end.
Proof.
  intros Ha. rewrite <- (ti_res _ _ _ HT a Ha), walk_result. unfold entry_res.
  by destruct (e_valid (walk l a)).
Qed.
End walking.

(** The lookup result the routes prescribe: return value and next hop (the
    next hop only when the lookup hits). *)
Definition lookup_post (R : routes) (a : Z) (res : Z * Z) : Prop :=
  match lpm_spec R a with
  | Some (_, nh) => res = (0, wrap 24 nh)
  | None => fst res = - ENOENT
  end.

Lemma matches_V1604 R a :
  matches V1604 R a = (fun x => (fst x, wrap 24 (snd x))) <$> lpm_spec R a.
Proof. done. Qed.

Lemma lookup_ok l R a : lpm_inv V1604 l R -> addr a -> lookup_post R a (rte_lpm_lookup l a).
Proof.
  intros [_ HT] Ha. unfold rte_lpm_lookup, lookup_post.
  pose proof (walk_wf _ _ HT a) as Hwf. pose proof (walk_spec _ _ HT a Ha) as Hw.
  rewrite (lookup_word_walk _ _ HT a Ha), entry_word_valid, entry_word_hop by done.
  rewrite matches_V1604 in Hw. destruct (lpm_spec R a) as [[d nh]|]; cbn in *.
  - destruct Hw as [-> ->]. done.
  - by rewrite Hw.
Qed.

(** ** Four lookups at once *)

(** The next hop of a hit and the default otherwise: what one lane must be. *)
Definition lane_spec (R : routes) (defv a : Z) : Z :=
  match lpm_spec R a with Some (_, nh) => wrap 24 nh | None => defv end.

Section lanes.
Context (l : rte_lpm) (R : routes) (HI : lpm_inv V1604 l R).

Let HT : tables_inv V1604 l (matches V1604 R) := proj2 HI.

Definition word24 (a : Z) : Z := entry_word (tbl24 l !!! (a / 256)).

Lemma word24_range a : 0 <= word24 a < 2 ^ 32.
Proof. apply entry_word_range, HT. Qed.

Lemma x4_hop_walk defv a :
  addr a -> x4_hop defv (entry_word (walk l a)) = lane_spec R defv a.
Proof.
  intros Ha. pose proof (walk_wf _ _ HT a). pose proof (walk_spec _ _ HT a Ha) as Hw.
  unfold x4_hop, lane_spec. rewrite entry_word_valid, entry_word_hop by done.
  rewrite matches_V1604 in Hw. destruct (lpm_spec R a) as [[d nh]|]; cbn in *.
  - destruct Hw as [-> ->]. done.
  - by rewrite Hw.
Qed.

(** A lane of the slow path, tested on a packed word whose low half agrees
    with the lane's word on the flag bits. *)
Lemma x4_lane_walk pt a :
  addr a -> is_ext_word pt = is_ext_word (word24 a) ->
  x4_lane l pt (word24 a) (Z.land a 0xFF) = entry_word (walk l a).
Proof.
  intros Ha Ept. unfold x4_lane, walk, RTE_LPM_TBL8_GROUP_NUM_ENTRIES. rewrite Ept.
  unfold word24 at 1. pose proof (ti_wf24 _ _ _ HT (a / 256)) as Hwf.
  rewrite entry_word_ext by done. destruct (is_ext _) eqn:Hext; [|done].
  assert (0 <= a / 256 < 2 ^ 24) by (unfold addr in Ha; dlia).
  pose proof (ext_range _ _ _ HT (a / 256) ltac:(done) Hext) as Hg.
  pose proof (ti_num _ _ _ HT).
  assert (E8 : u8 (word24 a) = e_next_hop (tbl24 l !!! (a / 256))).
  { rewrite <- (entry_word_hop _ Hwf). change 0x00FFFFFF with (Z.ones 24).
    rewrite Z.land_ones by lia. fold (wrap 24 (entry_word (tbl24 l !!! (a / 256)))).
    unfold u8. rewrite <- (wrap_wrap_le 8 24) by lia. apply (wrap_small 8).
    unfold wrap. rewrite <- Z.land_ones by lia. change (Z.ones 24) with 0x00FFFFFF.
    unfold word24. rewrite entry_word_hop by done. lia. }
  rewrite E8, land_255, u32_small by dlia. do 2 f_equal. lia.
Qed.
End lanes.

Lemma ext_word_low t0 t1 :
  0 <= t0 < 2 ^ 32 -> is_ext_word (Z.lor t0 (Z.shiftl t1 32)) = is_ext_word t0.
Proof.
  intros H0. unfold is_ext_word. f_equal.
  rewrite <- (Z.lor_0_r RTE_LPM_VALID_EXT_ENTRY_BITMASK) at 1. rewrite <- (Z.shiftl_0_l 32).
  rewrite pack_land by (done || lia). by rewrite Z.land_0_r, Z.shiftl_0_l, Z.lor_0_r.
Qed.

Lemma ext_word_high t0 t1 :
  0 <= t0 < 2 ^ 32 -> is_ext_word (Z.shiftr (Z.lor t0 (Z.shiftl t1 32)) 32) = is_ext_word t1.
Proof. intros. by rewrite pack_high by lia. Qed.

(** The fast-path test of a pair of lanes: both entries valid and neither
    extended. *)
Lemma fast_pair t0 t1 :
  0 <= t0 < 2 ^ 32 ->
  let X := RTE_LPM_VALID_EXT_ENTRY_BITMASK in
  let S := RTE_LPM_LOOKUP_SUCCESS in
  (Z.land (Z.lor t0 (Z.shiftl t1 32)) (Z.lor X (Z.shiftl X 32)) =? Z.lor S (Z.shiftl S 32)) = true ->
  Z.land t0 X = S /\ Z.land t1 X = S.
Proof.
  intros H0 X S. rewrite pack_land by (done || lia). rewrite Z.eqb_eq.
  assert (HX : 0 <= Z.land t0 X < 2 ^ 32).
  { split; [apply Z.land_nonneg; lia|]. apply Z.le_lt_trans with X; [|done].
    apply Z.ldiff_le; [done|]. rewrite Z.ldiff_land. 
    rewrite <- Z.land_assoc. by rewrite Z.land_lnot_diag, Z.land_0_r. }
  intros E. by apply pack_eq in E; [|lia|done|done].
Qed.

(** A lane of the fast path. *)
Lemma fast_lane l R defv a :
  lpm_inv V1604 l R -> addr a ->
  Z.land (word24 l a) RTE_LPM_VALID_EXT_ENTRY_BITMASK = RTE_LPM_LOOKUP_SUCCESS ->
  Z.land (word24 l a) 0x00FFFFFF = lane_spec R defv a.
Proof.
  intros HI Ha Hf. pose proof (proj2 HI) as HT.
  rewrite <- (x4_hop_walk l R HI defv a Ha). unfold walk, word24 in *.
  pose proof (ti_wf24 _ _ _ HT (a / 256)) as Hwf. pose proof (entry_word_ext _ Hwf) as Hx.
  unfold is_ext_word in Hx. rewrite Hf in Hx. cbn in Hx. rewrite <- Hx.
  unfold x4_hop. rewrite entry_word_valid, entry_word_hop by done.
  revert Hf. unfold RTE_LPM_VALID_EXT_ENTRY_BITMASK. change 0x03000000 with (Z.shiftl 3 24).
  rewrite entry_word_mask by done || lia. unfold flags.
  by destruct (e_valid _), (e_valid_group _).
Qed.

Lemma fast_pair_hops t0 t1 :
  0 <= t0 < 2 ^ 32 ->
  let h := Z.land (Z.lor t0 (Z.shiftl t1 32)) RTE_LPM_MASKX4_RES in
  u32 h = Z.land t0 0x00FFFFFF /\ Z.shiftr h 32 = Z.land t1 0x00FFFFFF.
Proof.
  intros H0 h. unfold h.
  change RTE_LPM_MASKX4_RES with (Z.lor 0x00FFFFFF (Z.shiftl 0x00FFFFFF 32)).
  rewrite pack_land by (done || lia).
  assert (0 <= Z.land t0 0x00FFFFFF < 2 ^ 32).
  { change 0x00FFFFFF with (Z.ones 24). rewrite Z.land_ones by lia. dlia. }
  split; [by apply (pack_low 32)|by apply (pack_high 32)].
Qed.

Lemma x4_ok l R a0 a1 a2 a3 defv :
  lpm_inv V1604 l R -> addr a0 -> addr a1 -> addr a2 -> addr a3 ->
  rte_lpm_lookupx4 l a0 a1 a2 a3 defv =
  (lane_spec R defv a0, lane_spec R defv a1, lane_spec R defv a2, lane_spec R defv a3).
Proof.
  intros HI H0 H1 H2 H3. unfold rte_lpm_lookupx4. rewrite !shiftr_8.
  fold (word24 l a0) (word24 l a1) (word24 l a2) (word24 l a3).
  pose proof (word24_range l R HI) as HW.
  destruct (_ && _) eqn:Hfast.
  - apply andb_true_iff in Hfast as [Hf Hf2].
    apply fast_pair in Hf as [? ?]; [|done]. apply fast_pair in Hf2 as [? ?]; [|done].
    destruct (fast_pair_hops (word24 l a0) (word24 l a1)) as [-> ->]; [done|].
    destruct (fast_pair_hops (word24 l a2) (word24 l a3)) as [-> ->]; [done|].
    by rewrite !(fast_lane l R defv) by done.
  - rewrite !(x4_lane_walk l R HI)
      by (done || (by apply ext_word_low) || (by rewrite ext_word_high)).
    by rewrite !(x4_hop_walk l R HI) by done.
Qed.
