(* ===== verification/LpmTheorems.v ===== *)
(** * IPv4 LPM: the theorems

    The contract of the library as its users see it: whatever sequence of
    public calls is made on a created table, lookups return the longest prefix
    match among the routes the calls have left in it. *)

From S2P Require Import Prelude Lpm LpmRules LpmSpec LpmTables LpmProofs LpmLookup.

(** ** Sequences of calls *)

Inductive lpm_op :=
| OpAdd (ip depth next_hop : Z)
| OpDelete (ip depth : Z)
| OpDeleteAll.

(** One call on the implementation, with its return value. *)
Definition run_op (v : lpm_version) (l : rte_lpm) (op : lpm_op) : rte_lpm * Z :=
  match op with
  | OpAdd ip depth nh =>
      let '(l', r) := rte_lpm_add v (Some l) ip depth nh in (default l l', r)
  | OpDelete ip depth =>
      let '(l', r) := rte_lpm_delete v (Some l) ip depth in (default l l', r)
  | OpDeleteAll => (rte_lpm_delete_all l, 0)
  end.

Fixpoint run_ops (v : lpm_version) (l : rte_lpm) (ops : list lpm_op) : rte_lpm * list Z :=
  match ops with
  | [] => (l, [])
  | op :: rest =>
      let '(l1, r) := run_op v l op in
      let '(l2, rs) := run_ops v l1 rest in (l2, r :: rs)
  end.

(** The routes after a call that returned [r]: the abstract state machine. *)
Definition route_step (v : lpm_version) (R : routes) (op : lpm_op) (r : Z) : routes :=
  if decide (r = 0) then
    match op with
    | OpAdd ip depth nh => <[(depth, cut ip depth) := wrap (rule_hop_bits v) nh]> R
    | OpDelete ip depth => delete (depth, cut ip depth) R
    | OpDeleteAll => empty
    end
  else R.

Fixpoint replay (v : lpm_version) (R : routes) (ops : list lpm_op) (rs : list Z) : routes :=
  match ops, rs with
  | op :: ops', r :: rs' => replay v (route_step v R op r) ops' rs'
  | _, _ => R
  end.

(** The addresses passed are [uint32_t] values; depths are unrestricted. *)
Definition op_ok (op : lpm_op) : Prop :=
  match op with OpAdd ip _ _ | OpDelete ip _ => addr ip | OpDeleteAll => True end.

Lemma add_bad_depth v l ip depth nh :
  ~ (1 <= depth <= 32) -> rte_lpm_add v (Some l) ip depth nh = (Some l, - EINVAL).
Proof. intros. unfold rte_lpm_add. by rewrite bad_depth_true. Qed.

Lemma delete_bad_depth v l ip depth :
  ~ (1 <= depth <= 32) -> rte_lpm_delete v (Some l) ip depth = (Some l, - EINVAL).
Proof. intros. unfold rte_lpm_delete. by rewrite bad_depth_true. Qed.

Lemma delete_all_ok v l R : lpm_inv v l R -> lpm_inv v (rte_lpm_delete_all l) empty.
Proof.
  intros HI. pose proof (lpm_inv_range v l R HI). pose proof (ti_num _ _ _ (proj2 HI)).
  by apply zeroed_lpm_inv; [|destruct v|..].
Qed.

(** One call preserves the invariant and moves the routes as specified. *)
Lemma run_op_ok v l R op :
  lpm_inv v l R -> op_ok op ->
  lpm_inv v (fst (run_op v l op)) (route_step v R op (snd (run_op v l op))).
Proof.
  intros HI Hop. destruct op as [ip depth nh|ip depth|]; cbn [run_op].
  - destruct (decide (1 <= depth <= 32)); [|by rewrite add_bad_depth].
    pose proof (add_ok v l R ip depth nh HI Hop ltac:(done)) as (l'&E&_&Hc).
    destruct (rte_lpm_add v (Some l) ip depth nh) as [o r]. cbn in *. subst o. cbn.
    by destruct Hc as [[-> ?]|(->&_&?&_)].
  - destruct (decide (1 <= depth <= 32)); [|by rewrite delete_bad_depth].
    by destruct (delete_ok v l R ip depth HI Hop ltac:(done)) as [[_ ->]|(_&l'&->&?)].
  - by apply (delete_all_ok v l R).
Qed.

Lemma run_ops_ok v ops l R :
  lpm_inv v l R -> Forall op_ok ops ->
  lpm_inv v (fst (run_ops v l ops)) (replay v R ops (snd (run_ops v l ops))).
Proof.
  revert l R. induction ops as [|op ops IH]; intros l R HI Hok; [done|].
  apply Forall_cons in Hok as [Hop Hok]. cbn [run_ops].
  pose proof (run_op_ok v l R op HI Hop) as H1.
  destruct (run_op v l op) as [l1 r]. cbn in H1. specialize (IH l1 _ H1 Hok).
  by destruct (run_ops v l1 ops) as [l2 rs].
Qed.

Lemma created_ok v n g : 0 < n < 2 ^ 31 -> 0 <= g <= 256 -> lpm_inv v (empty_lpm n g) empty.
Proof. intros. apply zeroed_lpm_inv; try done. by destruct v; cbn. Qed.

(** ** The theorems *)

(** C1: For every sequence of [rte_lpm_add], [rte_lpm_delete] and
    [rte_lpm_delete_all] calls on a new table (at most 256 tbl8 groups), with
    any depths and next hops, each call succeeding or failing as it does, a
    lookup of any address afterwards returns the longest prefix match over the
    routes of the calls that returned 0: the DIR-24-8 tables implement the map
    of routes. *)
Theorem lpm_refines_routes (n g : Z) (ops : list lpm_op) (a : Z) :
  0 < n < 2 ^ 31 -> 0 <= g <= 256 -> Forall op_ok ops -> addr a ->
  let '(l, rs) := run_ops V1604 (empty_lpm n g) ops in
  lookup_post (replay V1604 empty ops rs) a (rte_lpm_lookup l a).
Proof.
  intros Hn Hg Hops Ha.
  pose proof (run_ops_ok V1604 ops _ _ (created_ok V1604 n g Hn Hg) Hops) as HI.
  destruct (run_ops _ _ _) as [l rs]. by apply lookup_ok.
Qed.

Definition demo_ops : list lpm_op :=
  [OpAdd 0x0a000000 8 1; OpAdd 0x0a010000 16 2; OpAdd 0x0a010180 25 3; OpAdd 0 40 9;
   OpDelete 0x0a010000 16; OpDelete 0x0b000000 8].

Lemma lpm_refines_routes_witness :
  let '(l, rs) := run_ops V1604 (empty_lpm 8 4) demo_ops in
  lookup_post (replay V1604 empty demo_ops rs) 0x0a010181 (rte_lpm_lookup l 0x0a010181).
Proof.
  apply (lpm_refines_routes 8 4 demo_ops 0x0a010181); [lia|lia| |unfold addr; lia].
  repeat constructor; unfold op_ok, addr; lia.
Defined.

(** C2: A lookup that returns 0 returns the next hop of a route that covers the
    address such that no longer route covers it; a lookup that returns -ENOENT
    means that no route covers the address.  There is no third outcome. *)
Theorem lookup_longest_match (l : rte_lpm) (R : routes) (a : Z) :
  lpm_inv V1604 l R -> addr a ->
  let '(rc, nh) := rte_lpm_lookup l a in
  (rc = 0 /\ exists d h, R !! (d, cut a d) = Some h /\ nh = wrap 24 h /\
     forall d', d < d' <= 32 -> R !! (d', cut a d') = None) \/
  (rc = - ENOENT /\ forall d, R !! (d, cut a d) = None).
Proof.
  intros HI Ha. pose proof (lookup_ok l R a HI Ha) as Hl. unfold lookup_post, lpm_spec in Hl.
  pose proof (fun d h => best_match_longest R a 32 d h) as Hlong.
  destruct (rte_lpm_lookup l a) as [rc nh]. destruct (best_match R a 32) as [[d h]|] eqn:E.
  - left. injection Hl as -> ->. split; [done|]. exists d, h.
    split_and!; [by eapply best_match_hit|done|]. intros d' Hd'.
    destruct (R !! (d', _)) as [h'|] eqn:E'; [|done].
    apply best_match_depth in E. destruct (Hlong d' h') as (d2&h2&[= <- <-]&?); [lia|done|lia].
  - right. split; [done|]. intros d. destruct (R !! (d, _)) as [h|] eqn:E'; [|done].
    pose proof (ly_dom _ _ _ (proj1 HI) d (cut a d) (mk_is_Some _ _ E')).
    destruct (Hlong d h) as (d2&h2&[=]&?); [lia|done].
Qed.

(** A table with two nested routes, one of them in a tbl8 group. *)
Definition demo_table : rte_lpm :=
  fst (run_ops V1604 (empty_lpm 8 4) [OpAdd 0x0a010100 24 7; OpAdd 0x0a010180 26 3]).
Definition demo_routes : routes :=
  replay V1604 empty [OpAdd 0x0a010100 24 7; OpAdd 0x0a010180 26 3] [0; 0].

Lemma demo_table_ok : lpm_inv V1604 demo_table demo_routes.
Proof.
  pose proof (run_ops_ok V1604 [OpAdd 0x0a010100 24 7; OpAdd 0x0a010180 26 3]
    _ _ (created_ok V1604 8 4 ltac:(lia) ltac:(lia))) as H.
  apply H. repeat constructor; unfold op_ok, addr; lia.
Qed.

Lemma lookup_longest_match_witness :
  rte_lpm_lookup demo_table 0x0a010181 = (0, 3) /\
  let '(rc, nh) := rte_lpm_lookup demo_table 0x0a010181 in
  (rc = 0 /\ exists d h, demo_routes !! (d, cut 0x0a010181 d) = Some h /\ nh = wrap 24 h /\
     forall d', d < d' <= 32 -> demo_routes !! (d', cut 0x0a010181 d') = None) \/
  (rc = - ENOENT /\ forall d, demo_routes !! (d, cut 0x0a010181 d) = None).
Proof.
  split; [vm_compute; reflexivity|].
  apply (lookup_longest_match demo_table demo_routes 0x0a010181);
    [apply demo_table_ok|unfold addr; lia].
Defined.

(** C3: [rte_lpm_add] with a valid depth either stores or updates the route and
    returns 0, or returns -ENOSPC, which happens only for a new route when the
    rule table holds [max_rules] routes or, for depths above 24, when every
    tbl8 group is in use; in that case the routes are unchanged.  For depths
    up to 24 it succeeds exactly when the route is present or the rule table
    is not full. *)
Theorem rte_lpm_add_correct (v : lpm_version) (l : rte_lpm) (R : routes) (ip depth nh : Z) :
  lpm_inv v l R -> addr ip -> 1 <= depth <= 32 ->
  add_post v l R ip depth nh (rte_lpm_add v (Some l) ip depth nh) /\
  (depth <= 24 ->
   snd (rte_lpm_add v (Some l) ip depth nh) = 0 <->
   is_Some (R !! (depth, cut ip depth)) \/ Z.of_nat (size R) < max_rules l).
Proof.
  intros HI Hip Hd. pose proof (add_ok v l R ip depth nh HI Hip Hd) as Hadd.
  split; [done|]. intros Hsm. destruct Hadd as (l'&_&[Hm _]&Hc). rewrite <- Hm in *.
  destruct Hc as [[E HI']|(E&Hnone&_&[Hfull|[? _]])]; [| |lia]; rewrite E.
  - split; [intros _|done]. destruct (R !! (depth, cut ip depth)) eqn:Ek; [by left|right].
    pose proof (ly_total _ _ _ (proj1 HI')) as Ht. pose proof (ly_size _ _ _ (proj1 HI')) as Hsz.
    rewrite map_size_insert_None in Hsz by done. lia.
  - split; [done|]. rewrite Hnone. intros [[? ?]|?]; [done|lia].
Qed.

Lemma rte_lpm_add_correct_witness :
  add_post V1604 demo_table demo_routes 0x0a010101 32 5
    (rte_lpm_add V1604 (Some demo_table) 0x0a010101 32 5) /\
  (32 <= 24 ->
   snd (rte_lpm_add V1604 (Some demo_table) 0x0a010101 32 5) = 0 <->
   is_Some (demo_routes !! (32, cut 0x0a010101 32)) \/
   Z.of_nat (size demo_routes) < max_rules demo_table).
Proof.
  apply (rte_lpm_add_correct V1604 demo_table demo_routes 0x0a010101 32 5);
    [apply demo_table_ok|unfold addr; lia|lia].
Defined.

(** C4: [rte_lpm_delete] of a route that is not in the table returns -EINVAL
    and leaves the table as it is; of a route that is, it returns 0 and the
    table holds exactly the other routes. *)
Theorem rte_lpm_delete_correct (v : lpm_version) (l : rte_lpm) (R : routes) (ip depth : Z) :
  lpm_inv v l R -> addr ip -> 1 <= depth <= 32 ->
  delete_post v l R ip depth (rte_lpm_delete v (Some l) ip depth).
Proof. apply delete_ok. Qed.

Lemma rte_lpm_delete_correct_witness :
  delete_post V1604 demo_table demo_routes 0x0a010180 26
    (rte_lpm_delete V1604 (Some demo_table) 0x0a010180 26).
Proof.
  apply (rte_lpm_delete_correct V1604 demo_table demo_routes 0x0a010180 26);
    [apply demo_table_ok|unfold addr; lia|lia].
Defined.

(** The next hop a caller that substitutes [defv] on a miss uses. *)
Definition hop_or (defv : Z) (res : Z * Z) : Z := if fst res =? 0 then snd res else defv.

Lemma lane_lookup l R defv a :
  lpm_inv V1604 l R -> addr a -> lane_spec R defv a = hop_or defv (rte_lpm_lookup l a).
Proof.
  intros HI Ha. pose proof (lookup_ok l R a HI Ha) as Hl. unfold lookup_post in Hl.
  unfold lane_spec, hop_or. destruct (lpm_spec R a) as [[d nh]|]; [by rewrite Hl|].
  by rewrite Hl.
Qed.

(** C5: The SSE routine that looks up four addresses at once, with its packed
    fast path, agrees with four calls of [rte_lpm_lookup]. *)
Theorem lookupx4_equiv (l : rte_lpm) (R : routes) (a0 a1 a2 a3 defv : Z) :
  lpm_inv V1604 l R -> addr a0 -> addr a1 -> addr a2 -> addr a3 ->
  rte_lpm_lookupx4 l a0 a1 a2 a3 defv =
  (hop_or defv (rte_lpm_lookup l a0), hop_or defv (rte_lpm_lookup l a1),
   hop_or defv (rte_lpm_lookup l a2), hop_or defv (rte_lpm_lookup l a3)).
Proof.
  intros HI H0 H1 H2 H3. rewrite (x4_ok l R) by done. by rewrite !(lane_lookup l R defv) by done.
Qed.

Lemma lookupx4_equiv_witness :
  rte_lpm_lookupx4 demo_table 0x0a010181 0x0a010101 0x0a010201 0 99 = (3, 7, 99, 99) /\
  rte_lpm_lookupx4 demo_table 0x0a010181 0x0a010101 0x0a010201 0 99 =
  (hop_or 99 (rte_lpm_lookup demo_table 0x0a010181), hop_or 99 (rte_lpm_lookup demo_table 0x0a010101),
   hop_or 99 (rte_lpm_lookup demo_table 0x0a010201), hop_or 99 (rte_lpm_lookup demo_table 0)).
Proof.
  split; [vm_compute; reflexivity|].
  apply (lookupx4_equiv demo_table demo_routes); [apply demo_table_ok|unfold addr; lia..].
Defined.

(** [rte_lpm_lookup_bulk_func] returns 0 and fills one word per address;
    a word carries [RTE_LPM_LOOKUP_SUCCESS] exactly when the address has a
    longest match, and its low 24 bits are then the next hop. *)
Theorem lookup_bulk_correct (l : rte_lpm) (R : routes) (ips : list Z) :
  lpm_inv V1604 l R -> Forall addr ips ->
  let '(rc, words) := rte_lpm_lookup_bulk_func l ips in
  rc = 0 /\
  Forall2 (fun a w =>
    match lpm_spec R a with
    | Some (_, nh) =>
        Z.land w RTE_LPM_LOOKUP_SUCCESS <> 0 /\ Z.land w 0x00FFFFFF = wrap 24 nh
    | None => Z.land w RTE_LPM_LOOKUP_SUCCESS = 0
    end) ips words.
Proof.
  intros HI Hips. split; [done|]. apply Forall2_fmap_r. apply Forall_Forall2_diag.
  eapply Forall_impl; [exact Hips|]. intros a Ha.
  pose proof (lookup_ok l R a HI Ha) as Hl. unfold lookup_post, rte_lpm_lookup in Hl.
  destruct (lpm_spec R a) as [[d nh]|]; cbn in Hl |- *;
    destruct (Z.eqb_spec (Z.land (lookup_word l a) RTE_LPM_LOOKUP_SUCCESS) 0); try done.
  by injection Hl.
Qed.

Lemma lookup_bulk_correct_witness :
  let '(rc, words) := rte_lpm_lookup_bulk_func demo_table [0x0a010181; 0] in
  rc = 0 /\
  Forall2 (fun a w =>
    match lpm_spec demo_routes a with
    | Some (_, nh) =>
        Z.land w RTE_LPM_LOOKUP_SUCCESS <> 0 /\ Z.land w 0x00FFFFFF = wrap 24 nh
    | None => Z.land w RTE_LPM_LOOKUP_SUCCESS = 0
    end) [0x0a010181; 0] words.
Proof.
  apply (lookup_bulk_correct demo_table demo_routes [0x0a010181; 0]);
    [apply demo_table_ok|repeat constructor; unfold addr; lia].
Defined.

(** [rte_lpm_is_rule_present] returns 1 and the stored next hop exactly for
    the routes of the table (exact match, not longest match), 0 without
    touching the output otherwise, and -EINVAL for a NULL argument or a depth
    outside 1..32. *)
Theorem is_rule_present_correct (v : lpm_version) (l : rte_lpm) (R : routes)
    (ip depth out : Z) :
  lpm_inv v l R ->
  rte_lpm_is_rule_present (Some l) ip depth (Some out) =
    (if decide (1 <= depth <= 32) then
       match R !! (depth, cut ip depth) with
       | Some nh => (1, Some nh)
       | None => (0, Some out)
       end
     else (- EINVAL, Some out)) /\
  (forall o, rte_lpm_is_rule_present None ip depth o = (- EINVAL, o)) /\
  rte_lpm_is_rule_present (Some l) ip depth None = (- EINVAL, None).
Proof.
  intros HI. split_and!; [|by intros []|done].
  case_decide as Hd; [by apply (present_ok v)|].
  unfold rte_lpm_is_rule_present. by rewrite bad_depth_true.
Qed.

Lemma is_rule_present_correct_witness :
  rte_lpm_is_rule_present (Some demo_table) 0x0a010180 26 (Some 0) =
    (if decide (1 <= 26 <= 32) then
       match demo_routes !! (26, cut 0x0a010180 26) with
       | Some nh => (1, Some nh)
       | None => (0, Some 0)
       end
     else (- EINVAL, Some 0)) /\
  (forall o, rte_lpm_is_rule_present None 0x0a010180 26 o = (- EINVAL, o)) /\
  rte_lpm_is_rule_present (Some demo_table) 0x0a010180 26 None = (- EINVAL, None).
Proof. apply (is_rule_present_correct V1604 demo_table demo_routes), demo_table_ok. Defined.

(** Adding a new route and deleting it again gives back a table in which
    every address has the match it had before, in both ABI versions. *)
Theorem add_delete_roundtrip (v : lpm_version) (l l1 : rte_lpm) (R : routes) (ip depth nh : Z) :
  lpm_inv v l R -> addr ip -> 1 <= depth <= 32 -> R !! (depth, cut ip depth) = None ->
  rte_lpm_add v (Some l) ip depth nh = (Some l1, 0) ->
  exists l2, rte_lpm_delete v (Some l1) ip depth = (Some l2, 0) /\ lpm_inv v l2 R /\
    forall a, addr a -> tbl_result l2 a = tbl_result l a.
Proof.
  intros HI Hip Hd Hnew Hadd.
  destruct (add_ok v l R ip depth nh HI Hip Hd) as (l'&E&_&Hc). rewrite Hadd in E, Hc.
  injection E as <-. destruct Hc as [[_ HI1]|(Hr&_)]; [|done].
  destruct (delete_ok v l1 _ ip depth HI1 Hip Hd) as [[Hno _]|(_&l2&Hdel&HI2)].
  { by rewrite lookup_insert_eq in Hno. }
  rewrite delete_insert_id in HI2 by done. exists l2. split_and!; [done..|].
  intros a Ha. by rewrite (ti_res _ _ _ (proj2 HI2) a Ha), (ti_res _ _ _ (proj2 HI) a Ha).
Qed.

Lemma add_delete_roundtrip_witness :
  exists l1, rte_lpm_add V1604 (Some demo_table) 0x0a0101c0 27 5 = (Some l1, 0) /\
  exists l2, rte_lpm_delete V1604 (Some l1) 0x0a0101c0 27 = (Some l2, 0) /\
    lpm_inv V1604 l2 demo_routes /\ forall a, addr a -> tbl_result l2 a = tbl_result demo_table a.
Proof.
  eexists. split; [vm_compute; reflexivity|].
  apply (add_delete_roundtrip V1604 demo_table _ demo_routes 0x0a0101c0 27 5);
    [apply demo_table_ok|unfold addr; lia|lia|vm_compute; reflexivity|vm_compute; reflexivity].
Defined.

(** ** The group index is stored through [uint8_t]

    [add_depth_big] casts the index of a new tbl8 group to [uint8_t] in the
    16.04 version too, where the member has 24 bits and a table may have up to
    [2^24] groups. *)

(** [k] /25 routes in distinct /24 blocks. *)
Definition many_blocks (k : nat) : list lpm_op :=
  map (fun i => OpAdd (Z.of_nat i * 256) 25 (Z.of_nat i + 1)) (seq 0 k).

(** With 257 tbl8 groups the truncation shows: after 257 successful
    additions of /25 routes in distinct blocks, the lookup of an address of
    the last route returns the next hop of the first one, which does not cover
    the address.  The bound on the number of groups in the other theorems is
    needed. *)
Theorem tbl8_index_truncated :
  let '(l, rs) := run_ops V1604 (empty_lpm 300 257) (many_blocks 257) in
  rs = repeat 0 257 /\
  lpm_spec (replay V1604 empty (many_blocks 257) rs) 0x00010001 = Some (25, 257) /\
  rte_lpm_lookup l 0x00010001 = (0, 1).
Proof.
  destruct (run_ops _ _ _) as [l rs] eqn:E.
  assert (Hrs : rs = repeat 0 257) by
    (change rs with (snd (l, rs)); rewrite <- E; vm_compute; reflexivity).
  assert (Hl : rte_lpm_lookup l 0x00010001 = (0, 1)) by
    (change l with (fst (l, rs)); rewrite <- E; vm_compute; reflexivity).
  rewrite Hrs. split_and!; [done|vm_compute; reflexivity|done].
Qed.

(** ** Recycling of tbl8 groups *)

(** A tbl8 group whose last route of depth above 24 is deleted is not
    recycled when the block is covered by a route of depth exactly 24: with
    one group, after adding a /24 and a /25 inside it and deleting the /25, no
    route of depth above 24 remains and yet a /25 in another block is refused
    with -ENOSPC. *)
Theorem tbl8_group_not_recycled :
  let '(l, rs) := run_ops V1604 (empty_lpm 8 1)
    [OpAdd 0x0a010100 24 7; OpAdd 0x0a010180 25 3; OpDelete 0x0a010180 25] in
  rs = [0; 0; 0] /\
  e_valid_group (tbl24 l !!! 0x0a0101) = true /\
  snd (rte_lpm_add V1604 (Some l) 0x0a020200 25 1) = - ENOSPC.
Proof. vm_compute. split_and!; reflexivity. Qed.
