(* ===== verification/PrefixTable.v ===== *)
(** * The interface of a longest-prefix-match table

    What [librte_table] relies on when it uses a longest-prefix-match table:
    the operations it calls, and the laws that relate them to a map of routes.
    The IPv4 table of [rte_lpm.c] (ABI 16.04) is an instance; the clients are
    proved against the laws. *)

From S2P Require Import Prelude Lpm LpmRules LpmSpec LpmTables LpmProofs LpmLookup.

(** The operations on a table [T], with the C return value; [pt_present] takes
    and returns the content of the out parameter. *)
Class PrefixTable (T : Type) := {
  pt_add : T -> Z -> Z -> Z -> T * Z;
  pt_delete : T -> Z -> Z -> T * Z;
  pt_present : T -> Z -> Z -> Z -> Z * Z;
  pt_lookup : T -> Z -> Z * Z
}.

(** [pt_repr t R]: the table [t] holds the routes [R].  Next hops are the
    24-bit numbers the clients store.  [pt_full t n d]: the table [t] with [n]
    routes has no room for another one of depth [d]; only then may it refuse a
    new route. *)
Class PrefixTableLaws (T : Type) `{PrefixTable T} := {
  pt_repr : T -> routes -> Prop;
  pt_full : T -> nat -> Z -> Prop;
  pt_repr_small t R : pt_repr t R -> Z.of_nat (size R) < 2 ^ 31;
  pt_add_law t R ip d h :
    pt_repr t R -> addr ip -> 1 <= d <= 32 -> 0 <= h < 2 ^ 24 ->
    exists t' rc, pt_add t ip d h = (t', rc) /\
      ((rc = 0 /\ pt_repr t' (<[(d, cut ip d) := h]> R)) \/
       (rc < 0 /\ pt_repr t' R /\ R !! (d, cut ip d) = None /\ pt_full t (size R) d));
  pt_delete_law t R ip d :
    pt_repr t R -> addr ip -> 1 <= d <= 32 -> is_Some (R !! (d, cut ip d)) ->
    exists t', pt_delete t ip d = (t', 0) /\ pt_repr t' (delete (d, cut ip d) R);
  pt_present_law t R ip d o :
    pt_repr t R -> 1 <= d <= 32 ->
    pt_present t ip d o =
      match R !! (d, cut ip d) with Some h => (1, h) | None => (0, o) end;
  pt_lookup_law t R a :
    pt_repr t R -> addr a ->
    match lpm_spec R a with
    | Some (_, h) => pt_lookup t a = (0, wrap 24 h)
    | None => fst (pt_lookup t a) <> 0
    end
}.

(** ** The IPv4 table of 16.04 *)

(** The out parameter of [rte_lpm_is_rule_present]. *)
#[export] Instance lpm_prefix_table : PrefixTable rte_lpm := {
  pt_add l ip d h := let '(o, rc) := rte_lpm_add_v1604 (Some l) ip d h in (default l o, rc);
  pt_delete l ip d := let '(o, rc) := rte_lpm_delete_v1604 (Some l) ip d in (default l o, rc);
  pt_present l ip d o :=
    let '(rc, out) := rte_lpm_is_rule_present_v1604 (Some l) ip d (Some o) in (rc, default o out);
  pt_lookup := rte_lpm_lookup
}.

(** No room: the rule table is full, or the route needs a tbl8 group and every
    group is in use. *)
Definition lpm_full (l : rte_lpm) (n : nat) (d : Z) : Prop :=
  Z.of_nat n = max_rules l \/ (25 <= d /\ groups_full V1604 l).

#[export] Instance lpm_prefix_table_laws : PrefixTableLaws rte_lpm.
Proof.
  refine {| pt_repr := lpm_inv V1604; pt_full := lpm_full |}.
  - intros l R HI. pose proof (lpm_inv_size _ _ _ HI). lia.
  - intros l R ip d h HI Hip Hd Hh. unfold pt_add, lpm_prefix_table, rte_lpm_add_v1604.
    destruct (add_ok V1604 l R ip d h HI Hip Hd) as (l'&E&_&Hc).
    destruct (rte_lpm_add V1604 (Some l) ip d h) as [o rc]. cbn in *. subst o.
    eexists _, _. split; [done|]. rewrite wrap_small in Hc by lia.
    destruct Hc as [[-> ?]|(->&?&?&?)]; [by left|right]. split_and!; [|done..].
    unfold ENOSPC. lia.
  - intros l R ip d HI Hip Hd [h Hh]. unfold pt_delete, lpm_prefix_table, rte_lpm_delete_v1604.
    destruct (delete_ok V1604 l R ip d HI Hip Hd) as [[? _]|(_&l'&->&?)]; [congruence|].
    by eexists.
  - intros l R ip d o HI Hd. unfold pt_present, lpm_prefix_table, rte_lpm_is_rule_present_v1604.
    rewrite (present_ok V1604 l R) by done. by destruct (R !! _).
  - intros l R a HI Ha. pose proof (lookup_ok l R a HI Ha) as Hl. unfold lookup_post in Hl.
    change (pt_lookup l a) with (rte_lpm_lookup l a).
    destruct (lpm_spec R a) as [[d h]|]; [done|]. by rewrite Hl.
Defined.
