(* ===== verification/TableLpm.v ===== *)
(** * The LPM table of librte_table

    Model of [librte_table/rte_table_lpm.c]: a table of user entries keyed by
    IP prefixes, built from a longest-prefix-match table and a next hop table
    (NHT) whose entries are shared and reference-counted.  The low-level table
    is any [PrefixTable].

    The NHT is the tail of the memory block of the structure, [nht_size] bytes
    behind it.  [uint32_t nht[0]] is indexed with [pos * entry_size], so entry
    [pos] starts at byte [4 * (pos * entry_size)].  An access outside the block
    is undefined behaviour: the operation has no result ([None]). *)

From S2P Require Import Prelude PrefixTable.

Definition RTE_TABLE_LPM_MAX_NEXT_HOPS : Z := 256.
Definition RTE_PORT_IN_BURST_SIZE_MAX : Z := 64.

Record rte_table_stats := TableStats { n_pkts_in : Z; n_pkts_lookup_miss : Z }.

Record rte_table_lpm (T : Type) := TableLpm {
  stats : rte_table_stats;
  entry_size : Z;
  entry_unique_size : Z;
  n_rules : Z;
  offset : Z;
  lpm : T;
  nht_users : gmap Z Z;
  nht : gmap Z Z;
  nht_size : Z
}.

Arguments TableLpm {T}.
Arguments stats {T}.
Arguments entry_size {T}.
Arguments entry_unique_size {T}.
Arguments n_rules {T}.
Arguments offset {T}.
Arguments lpm {T}.
Arguments nht_users {T}.
Arguments nht {T}.
Arguments nht_size {T}.

Record rte_table_lpm_key := TableKey { k_ip : Z; k_depth : Z }.

Section table.
Context {T : Type} `{PrefixTable T}.
Implicit Type (t : rte_table_lpm T).

Definition set_lpm t (l : T) : rte_table_lpm T :=
  TableLpm (stats t) (entry_size t) (entry_unique_size t) (n_rules t) (offset t) l
    (nht_users t) (nht t) (nht_size t).
Definition set_nht t (m : gmap Z Z) : rte_table_lpm T :=
  TableLpm (stats t) (entry_size t) (entry_unique_size t) (n_rules t) (offset t) (lpm t)
    (nht_users t) m (nht_size t).
Definition set_users t (pos x : Z) : rte_table_lpm T :=
  TableLpm (stats t) (entry_size t) (entry_unique_size t) (n_rules t) (offset t) (lpm t)
    (<[pos := u32 x]> (nht_users t)) (nht t) (nht_size t).

(** Byte position of [&lpm->nht[pos * lpm->entry_size]] in the NHT. *)
Definition nht_offset t (pos : Z) : Z := 4 * u32 (pos * entry_size t).

Definition in_block t (off n : Z) : bool := off + n <=? nht_size t.

Definition read_bytes (m : gmap Z Z) (off n : Z) : list Z :=
  map (fun i => m !!! (off + Z.of_nat i)) (seq 0 (Z.to_nat n)).

(** [memcmp(nht_entry, entry, lpm->entry_unique_size) == 0]. *)
Definition nht_same t (pos : Z) (entry : list Z) : option bool :=
  if in_block t (nht_offset t pos) (entry_unique_size t) then
    Some (bool_decide (read_bytes (nht t) (nht_offset t pos) (entry_unique_size t) =
                       take (Z.to_nat (entry_unique_size t)) entry))
  else None.

(** [memcpy(nht_entry, entry, lpm->entry_size)]. *)
Definition nht_store t (pos : Z) (entry : list Z) : option (rte_table_lpm T) :=
  if in_block t (nht_offset t pos) (entry_size t) then
    Some (set_nht t (memcpy (nht t) (nht_offset t pos) (chars entry) 0 (entry_size t)))
  else None.

Definition nht_find_free t : option Z :=
  find_up (Z.to_nat RTE_TABLE_LPM_MAX_NEXT_HOPS) 0 (fun i => nht_users t !!! i =? 0).

Fixpoint nht_find_from t (entry : list Z) (n : nat) (i : Z) : option (option Z) :=
  match n with
  | O => Some None
  | S n' =>
      if 0 <? nht_users t !!! i then
        match nht_same t i entry with
        | None => None
        | Some true => Some (Some i)
        | Some false => nht_find_from t entry n' (i + 1)
        end
      else nht_find_from t entry n' (i + 1)
  end.

Definition nht_find_existing t (entry : list Z) : option (option Z) :=
  nht_find_from t entry (Z.to_nat RTE_TABLE_LPM_MAX_NEXT_HOPS) 0.

(** "Find existing or free NHT entry": the table with the entry stored when it
    is new, and its position; [inr] is the early [return -1]. *)
Definition nht_get t (entry : list Z) : option (rte_table_lpm T * Z + unit) :=
  match nht_find_existing t entry with
  | None => None
  | Some (Some nht_pos) => Some (inl (t, nht_pos))
  | Some None =>
      match nht_find_free t with
      | None => Some (inr tt)
      | Some nht_pos =>
          match nht_store t nht_pos entry with
          | None => None
          | Some t' => Some (inl (t', nht_pos))
          end
      end
  end.

Definition bad_key_depth (key : rte_table_lpm_key) : bool :=
  (k_depth key =? 0) || (32 <? k_depth key).

(** Result: the table, the return value, and [*key_found] with the byte
    position behind [*entry_ptr] when they are written. *)
Definition rte_table_lpm_entry_add (table : option (rte_table_lpm T))
    (key : option rte_table_lpm_key) (entry : option (list Z)) :
    option (option (rte_table_lpm T) * Z * option (Z * Z)) :=
  match table, key, entry with
  | Some t, Some ip_prefix, Some entry =>
      if bad_key_depth ip_prefix then Some (table, - EINVAL, None)
      else
        let '(status, nht_pos0) := pt_present (lpm t) (k_ip ip_prefix) (k_depth ip_prefix) 0 in
        let nht_pos0_valid := Z.b2z (0 <? status) in
        match nht_get t entry with
        | None => None
        | Some (inr _) => Some (table, -1, None)
        | Some (inl (t1, nht_pos)) =>
            let '(l, rc) := pt_add (lpm t1) (k_ip ip_prefix) (k_depth ip_prefix) nht_pos in
            let t2 := set_lpm t1 l in
            if rc <? 0 then Some (Some t2, -1, None)
            else
              let t3 := set_users t2 nht_pos (nht_users t2 !!! nht_pos + 1) in
              let t4 := set_users t3 nht_pos0 (nht_users t3 !!! nht_pos0 - nht_pos0_valid) in
              Some (Some t4, 0, Some (nht_pos0_valid, nht_offset t4 nht_pos))
        end
  | _, _, _ => Some (table, - EINVAL, None)
  end.

(** [want]: the caller passes a buffer for the deleted entry.  Result: the
    table, the return value, [*key_found] and the content of the buffer, when
    they are written. *)
Definition rte_table_lpm_entry_delete (table : option (rte_table_lpm T))
    (key : option rte_table_lpm_key) (want : bool) :
    option (option (rte_table_lpm T) * Z * option Z * option (list Z)) :=
  match table, key with
  | Some t, Some ip_prefix =>
      if bad_key_depth ip_prefix then Some (table, - EINVAL, None, None)
      else
        let '(status, nht_pos) := pt_present (lpm t) (k_ip ip_prefix) (k_depth ip_prefix) 0 in
        if status <? 0 then Some (table, -1, None, None)
        else if status =? 0 then Some (table, 0, Some 0, None)
        else
          let '(l, rc) := pt_delete (lpm t) (k_ip ip_prefix) (k_depth ip_prefix) in
          let t1 := set_lpm t l in
          if negb (rc =? 0) then Some (Some t1, -1, None, None)
          else
            let t2 := set_users t1 nht_pos (nht_users t1 !!! nht_pos - 1) in
            if want then
              if in_block t2 (nht_offset t2 nht_pos) (entry_size t2) then
                Some (Some t2, 0, Some 1,
                      Some (read_bytes (nht t2) (nht_offset t2 nht_pos) (entry_size t2)))
              else None
            else Some (Some t2, 0, Some 1, None)
  | _, _ => Some (table, - EINVAL, None, None)
  end.

(** ** Lookup of a burst of packets *)

Definition rte_bswap32 (x : Z) : Z :=
  u32 (Z.lor (Z.shiftl (Z.land x 0xff) 24)
         (Z.lor (Z.shiftl (Z.land x 0xff00) 8)
            (Z.lor (Z.shiftr (Z.land x 0xff0000) 8) (Z.shiftr (Z.land x 0xff000000) 24)))).

(** Loop body for packet [i]; the state is [pkts_out_mask] and the array
    [entries] of byte positions.  [meta i] is
    [RTE_MBUF_METADATA_UINT32(pkts[i], lpm->offset)]. *)
Definition lookup_step t (meta : Z -> Z) (pkts_mask : Z) (i : Z) (s : Z * gmap Z Z) :
    Z * gmap Z Z :=
  let '(pkts_out_mask, entries) := s in
  let pkt_mask := Z.shiftl 1 i in
  if Z.land pkt_mask pkts_mask =? 0 then s
  else
    let '(status, nht_pos) := pt_lookup (lpm t) (rte_bswap32 (meta i)) in
    if status =? 0
    then (Z.lor pkts_out_mask pkt_mask, <[i := nht_offset t nht_pos]> entries)
    else s.

(** [__builtin_clzll] is undefined for 0: no result for the empty mask.  For
    other masks [64 - __builtin_clzll(pkts_mask)] is [Z.log2 pkts_mask + 1].
    Result: the return value, [*lookup_hit_mask] and [entries]. *)
Definition rte_table_lpm_lookup t (meta : Z -> Z) (pkts_mask : Z) (entries : gmap Z Z) :
    option (Z * Z * gmap Z Z) :=
  if pkts_mask =? 0 then None
  else
    let '(pkts_out_mask, entries') :=
      for_range 0 (Z.log2 pkts_mask + 1) (lookup_step t meta pkts_mask) (0, entries) in
    Some (0, pkts_out_mask, entries').

(** ** Statistics *)

(** [want]: [stats] is not NULL.  Result: the table and the copied counters. *)
Definition rte_table_lpm_stats_read t (want clear : bool) :
    rte_table_lpm T * option rte_table_stats * Z :=
  let t' := if clear
    then TableLpm (TableStats 0 0) (entry_size t) (entry_unique_size t) (n_rules t) (offset t)
           (lpm t) (nht_users t) (nht t) (nht_size t)
    else t in
  (t', if want then Some (stats t) else None, 0).

End table.
