(* ===== verification/TableLpmProofs.v ===== *)
(** * The LPM table of librte_table: invariant and operations

    The reference counts of the next hop table count the routes of the
    low-level table; an entry in use is never overwritten; the table holds a
    map from prefixes to the identifying bytes of the entries. *)

From S2P Require Import Prelude LpmRules LpmSpec PrefixTable TableLpm.

(** ** Counting the routes that use a next hop *)

Definition hop_count (R : routes) (i : Z) : Z :=
  Z.of_nat (size (filter (fun kv => snd kv = i) R)).

Section counting.
Implicit Type (R : routes).

Lemma hop_count_insert R k h i :
  R !! k = None ->
  hop_count (<[k := h]> R) i = hop_count R i + Z.b2z (bool_decide (h = i)).
Proof.
  intros Hk. unfold hop_count. rewrite map_filter_insert. cbn.
  case_decide; case_bool_decide; try done; cbn.
  - rewrite map_size_insert_None; [lia|]. apply map_lookup_filter_None. by left.
  - rewrite delete_id by done. lia.
Qed.

Lemma hop_count_delete R k h i :
  R !! k = Some h ->
  hop_count (delete k R) i = hop_count R i - Z.b2z (bool_decide (h = i)).
Proof.
  intros Hk. rewrite <- (insert_delete_id R k h Hk) at 2.
  rewrite hop_count_insert by apply lookup_delete_eq. lia.
Qed.

Lemma hop_count_nonneg R i : 0 <= hop_count R i.
Proof. unfold hop_count. lia. Qed.

Lemma hop_count_pos R i : 0 < hop_count R i <-> exists k, R !! k = Some i.
Proof.
  unfold hop_count. split.
  - intros Hp. destruct (decide (filter (fun kv => snd kv = i) R = empty)) as [E|[k [x Hx]]%map_choose].
    + rewrite E, map_size_empty in Hp. lia.
    + apply map_lookup_filter_Some in Hx as [Hx E]. cbn in E. subst. eauto.
  - intros [k Hk]. assert (filter (fun kv => snd kv = i) R <> empty) as Hne%map_size_non_empty_iff.
    { intros E. eapply (map_filter_empty_not_lookup _ _ k i E); done. }
    lia.
Qed.

Lemma hop_count_le R i : hop_count R i <= Z.of_nat (size R).
Proof. unfold hop_count. pose proof (map_size_filter (fun kv => snd kv = i) R). lia. Qed.
End counting.

(** Replacing a route moves one unit from its old next hop to the new one. *)
Lemma hop_count_replace R k h0 h i :
  R !! k = Some h0 ->
  hop_count (<[k := h]> R) i =
  hop_count R i + Z.b2z (bool_decide (h = i)) - Z.b2z (bool_decide (h0 = i)).
Proof.
  intros Hk. rewrite <- insert_delete_eq, hop_count_insert by apply lookup_delete_eq.
  rewrite (hop_count_delete R k h0) by done. lia.
Qed.

(** ** Bytes of the next hop table *)

Lemma read_bytes_ext m m' off n :
  (forall i, off <= i < off + n -> m !!! i = m' !!! i) -> read_bytes m off n = read_bytes m' off n.
Proof.
  intros Hm. unfold read_bytes. apply map_ext_in. intros i Hi%in_seq. apply Hm. lia.
Qed.

Lemma read_memcpy_other m d src s k off n :
  0 <= k -> off + n <= d \/ d + k <= off ->
  read_bytes (memcpy m d src s k) off n = read_bytes m off n.
Proof.
  intros Hk Hd. apply read_bytes_ext. intros i Hi. rewrite memcpy_cells by done.
  by rewrite decide_False by lia.
Qed.

Lemma read_memcpy_same m d (entry : list Z) k n :
  0 <= n <= k -> k = Z.of_nat (length entry) ->
  read_bytes (memcpy m d (chars entry) 0 k) d n = take (Z.to_nat n) entry.
Proof.
  intros Hn Hk. apply list_eq. intros i. unfold read_bytes. rewrite list_lookup_fmap.
  destruct (decide (i < Z.to_nat n)%nat).
  - rewrite lookup_seq_lt, lookup_take_lt by lia. cbn. rewrite memcpy_cells by lia.
    rewrite decide_True by lia. unfold chars.
    replace (Z.to_nat (0 + (d + Z.of_nat i - d))) with i by lia.
    symmetry. apply list_lookup_lookup_total_lt. lia.
  - rewrite lookup_seq_ge, lookup_take_ge by lia. done.
Qed.

Section table.
Context {T : Type} `{PrefixTableLaws T}.
Implicit Type (t : rte_table_lpm T) (A : gmap (Z * Z) (list Z)) (R : routes).

(** The identifying bytes of the entry at a position. *)
Definition slot t (pos : Z) : list Z :=
  read_bytes (nht t) (nht_offset t pos) (entry_unique_size t).

(** The memory of a table: entries of at most a megabyte, and [256 *
    entry_size] bytes for the NHT. *)
Definition tl_geometry t : Prop :=
  0 < entry_unique_size t <= entry_size t /\ entry_size t <= 2 ^ 20 /\
  nht_size t = 256 * entry_size t.

(** The routes [R] of the low-level table and the map [A] from prefixes to
    identifying bytes that the table holds.  Positions in use are below 64: the
    block has no room for others. *)
Record tl_inv t R A : Prop := {
  tl_geo : tl_geometry t;
  tl_repr : pt_repr (lpm t) R;
  tl_hops : forall k h, R !! k = Some h -> 0 <= h < 64;
  tl_users : forall i, 0 <= i < 256 -> nht_users t !!! i = hop_count R i;
  tl_map : A = slot t <$> R;
  tl_distinct : forall i j, (exists k, R !! k = Some i) -> (exists k, R !! k = Some j) ->
    slot t i = slot t j -> i = j
}.

Lemma nht_offset_small t pos :
  tl_geometry t -> 0 <= pos < 256 -> nht_offset t pos = 4 * (pos * entry_size t).
Proof.
  intros (?&?&?) ?. unfold nht_offset. rewrite u32_small; [done|]. split; [nia|].
  assert (pos * entry_size t <= 256 * 2 ^ 20) by nia. lia.
Qed.

Lemma in_block_spec t pos n :
  tl_geometry t -> 0 <= pos < 64 -> 0 <= n <= entry_size t ->
  in_block t (nht_offset t pos) n = true.
Proof.
  intros Hg ? ?. unfold in_block. rewrite nht_offset_small by (done || lia).
  destruct Hg as (?&?&->). apply Z.leb_le. nia.
Qed.

(** Storing an entry at a position leaves the others alone. *)
Lemma store_slot t pos entry :
  tl_geometry t -> 0 <= pos < 64 -> entry_size t = Z.of_nat (length entry) ->
  exists t', nht_store t pos entry = Some t' /\
    (exists m, t' = set_nht t m) /\
    slot t' pos = take (Z.to_nat (entry_unique_size t)) entry /\
    (forall q, 0 <= q < 64 -> q <> pos -> slot t' q = slot t q).
Proof.
  intros Hg Hp Hlen. pose proof Hg as (?&?&?). unfold nht_store. rewrite in_block_spec by (done || lia).
  eexists. split; [done|]. split_and!; [by eexists|apply read_memcpy_same; [cbn; lia|done]|].
  intros q Hq Hne. unfold slot. change (nht_offset (set_nht t _) q) with (nht_offset t q).
  apply read_memcpy_other; [lia|]. change (entry_unique_size (set_nht t _)) with (entry_unique_size t).
  rewrite !nht_offset_small by (done || lia).
  destruct (decide (q < pos)); [left|right]; nia.
Qed.

(** ** Searching the next hop table *)

Lemma tl_used t R A i :
  tl_inv t R A -> 0 <= i < 256 -> 0 < nht_users t !!! i <-> exists k, R !! k = Some i.
Proof. intros HI Hi. rewrite (tl_users _ _ _ HI) by done. apply hop_count_pos. Qed.

Lemma nht_find_from_spec t R A entry n i :
  tl_inv t R A -> 0 <= i -> i + Z.of_nat n = 256 ->
  (exists j, i <= j < 256 /\ nht_find_from t entry n i = Some (Some j) /\
     (exists k, R !! k = Some j) /\ slot t j = take (Z.to_nat (entry_unique_size t)) entry) \/
  (nht_find_from t entry n i = Some None /\
   forall j, i <= j < 256 -> (exists k, R !! k = Some j) ->
     slot t j <> take (Z.to_nat (entry_unique_size t)) entry).
Proof.
  intros HI. revert i. induction n as [|n IH]; intros i Hi Hn; cbn [nht_find_from].
  { right. split; [done|]. lia. }
  pose proof (tl_used t R A i HI ltac:(lia)) as Hu.
  pose proof (IH (i + 1) ltac:(lia) ltac:(lia)) as IH'.
  destruct (Z.ltb_spec 0 (nht_users t !!! i)) as [Hpos|Hz].
  - apply Hu in Hpos as Hk. pose proof Hk as [k Hk']. apply (tl_hops _ _ _ HI) in Hk' as Hlt.
    unfold nht_same. pose proof (tl_geo _ _ _ HI) as Hg.
    rewrite in_block_spec by (done || destruct Hg; lia). fold (slot t i).
    case_bool_decide as Es.
    + left. exists i. split_and!; done || lia.
    + destruct IH' as [(j&?&?&?&?)|[-> Hno]]; [left; exists j; split_and!; done || lia|right].
      split; [done|]. intros j Hj. destruct (decide (j = i)) as [->|]; [done|]. apply Hno. lia.
  - destruct IH' as [(j&?&?&?&?)|[-> Hno]]; [left; exists j; split_and!; done || lia|right].
    split; [done|]. intros j Hj Hex. destruct (decide (j = i)) as [->|]; [apply Hu in Hex; lia|].
    apply Hno; [lia|done].
Qed.

(** Entries of 64 positions in use are 64 different entries. *)
Lemma many_slots t R A :
  tl_inv t R A -> (forall i, 0 <= i < 64 -> exists k, R !! k = Some i) ->
  (64 <= size (map_img A : gset (list Z)))%nat.
Proof.
  intros HI Hall. set (L := (fun i => slot t (Z.of_nat i)) <$> seq 0 64).
  assert (HL : NoDup L).
  { apply NoDup_fmap_2_strong; [|apply NoDup_seq]. intros x y Hx Hy E.
    apply elem_of_seq in Hx, Hy.
    assert (Z.of_nat x = Z.of_nat y); [|lia].
    apply (tl_distinct _ _ _ HI); [apply Hall; lia..|done]. }
  change 64%nat with (length L). rewrite <- (size_list_to_set (C := gset (list Z)) L HL).
  apply subseteq_size. intros e He%elem_of_list_to_set.
  apply list_elem_of_fmap in He as (i&->&Hi%elem_of_seq).
  destruct (Hall (Z.of_nat i) ltac:(lia)) as [k Hk].
  apply elem_of_map_img. exists k. by rewrite (tl_map _ _ _ HI), lookup_fmap, Hk.
Qed.

Lemma free_position t R A :
  tl_inv t R A -> (size (map_img A : gset (list Z)) < 64)%nat ->
  exists pos, nht_find_free t = Some pos /\ 0 <= pos < 64 /\ ~ exists k, R !! k = Some pos.
Proof.
  intros HI Hsz. unfold nht_find_free.
  assert (Hz : forall i, 0 <= i < 256 -> (nht_users t !!! i =? 0) = false <-> exists k, R !! k = Some i).
  { intros i Hi. rewrite (tl_users _ _ _ HI), <- hop_count_pos by done.
    pose proof (hop_count_nonneg R i). rewrite Z.eqb_neq. lia. }
  destruct (find_up _ _ _) as [pos|] eqn:E.
  - apply find_up_Some in E as (Hp&Hf&Hbefore).
    change (0 + Z.of_nat (Z.to_nat RTE_TABLE_LPM_MAX_NEXT_HOPS)) with 256 in Hp. exists pos.
    split; [done|]. split; [|intros Hk; apply Hz in Hk; [congruence|lia]].
    destruct (decide (pos < 64)) as [|Hge]; [lia|].
    assert (64 <= size (map_img A : gset (list Z)))%nat; [|lia].
    eapply many_slots; [done|]. intros i Hi. apply Hz; [lia|]. apply Hbefore. lia.
  - assert (64 <= size (map_img A : gset (list Z)))%nat; [|lia].
    pose proof (proj1 (find_up_None _ _ _) E) as Hno.
    eapply many_slots; [done|]. intros i Hi. apply Hz; [lia|]. apply Hno.
    change (0 + Z.of_nat (Z.to_nat RTE_TABLE_LPM_MAX_NEXT_HOPS)) with 256. lia.
Qed.

(** The invariant only looks at the slots in use. *)
Lemma tl_inv_nht t m R A :
  tl_inv t R A -> (forall i, (exists k, R !! k = Some i) -> slot (set_nht t m) i = slot t i) ->
  tl_inv (set_nht t m) R A.
Proof.
  intros [] Hs. split; try done.
  - subst A. apply map_eq. intros k. rewrite !lookup_fmap.
    destruct (R !! k) as [h|] eqn:E; [|done]. cbn. f_equal. symmetry. apply Hs. by exists k.
  - intros i j Hi Hj. rewrite !Hs by done. by apply tl_distinct0.
Qed.

Lemma set_nht_same t : set_nht t (nht t) = t.
Proof. by destruct t. Qed.

(** The NHT has a position for the entry: the one in use for the same
    identifying bytes, or a new one. *)
Lemma nht_get_spec t R A entry (e := take (Z.to_nat (entry_unique_size t)) entry) :
  tl_inv t R A -> entry_size t = Z.of_nat (length entry) ->
  (size (map_img A : gset (list Z)) < 64)%nat \/ e ∈ (map_img A : gset (list Z)) ->
  exists m pos, let t1 := set_nht t m in nht_get t entry = Some (inl (t1, pos)) /\
    0 <= pos < 64 /\ tl_inv t1 R A /\ slot t1 pos = e /\
    (forall q, (exists k, R !! k = Some q) -> slot t1 q = e -> q = pos).
Proof.
  intros HI Hlen Hroom. unfold nht_get, nht_find_existing.
  destruct (nht_find_from_spec t R A entry (Z.to_nat RTE_TABLE_LPM_MAX_NEXT_HOPS) 0 HI
    ltac:(lia) ltac:(done)) as [(j&Hj&->&Hk&Es)|[-> Hno]].
  - exists (nht t), j. rewrite set_nht_same. destruct Hk as [k Hk].
    split_and!; try done; try apply (tl_hops _ _ _ HI k j Hk).
    intros q Hq E. apply (tl_distinct _ _ _ HI); [done|by exists k|by rewrite E, Es].
  - destruct Hroom as [Hsz|Hin].
    + destruct (free_position t R A HI Hsz) as (pos&->&Hp&Hfree).
      destruct (store_slot t pos entry (tl_geo _ _ _ HI) Hp Hlen) as (t'&->&[m ->]&Es&Eo).
      exists m, pos. cbn zeta.
      assert (Hsame : forall i, (exists k, R !! k = Some i) -> slot (set_nht t m) i = slot t i).
      { intros i [k Hk]. apply Eo; [by eapply (tl_hops _ _ _ HI)|]. intros ->. apply Hfree. eauto. }
      split_and!; try done; [lia..|by apply tl_inv_nht|].
      intros q Hq E. rewrite Hsame in E by done. destruct Hq as [k Hk].
      pose proof (tl_hops _ _ _ HI k q Hk). destruct (Hno q ltac:(lia)); [by exists k|done].
    + apply elem_of_map_img in Hin as [k Hk]. rewrite (tl_map _ _ _ HI), lookup_fmap in Hk.
      destruct (R !! k) as [h|] eqn:E; [|done]. cbn in Hk. injection Hk as Hk.
      pose proof (tl_hops _ _ _ HI k h E). destruct (Hno h ltac:(lia)); [by exists k|done].
Qed.

(** ** The reference counts *)

Definition counts (u : gmap Z Z) R : Prop := forall i, 0 <= i < 256 -> u !!! i = hop_count R i.

Lemma counts_add u R k pos p0 v :
  counts u R -> Z.of_nat (size R) < 2 ^ 31 -> 0 <= pos < 256 ->
  match R !! k with Some h0 => p0 = h0 /\ v = 1 | None => p0 = 0 /\ v = 0 end -> 0 <= p0 < 256 ->
  let u1 := <[pos := u32 (u !!! pos + 1)]> u in
  counts (<[p0 := u32 (u1 !!! p0 - v)]> u1) (<[k := pos]> R).
Proof.
  intros Hu Hsz Hp Hk Hp0 u1.
  assert (Hu1 : forall i, 0 <= i < 256 -> u1 !!! i = hop_count R i + Z.b2z (bool_decide (pos = i))).
  { intros i Hi. unfold u1. rewrite lookup_total_insert. pose proof (hop_count_le R i).
    pose proof (hop_count_nonneg R i).
    case_decide; case_bool_decide; try done; subst; rewrite !Hu by done; cbn [Z.b2z]; [|lia].
    rewrite u32_small; lia. }
  intros i Hi. rewrite lookup_total_insert, !Hu1 by done.
  pose proof (hop_count_le R p0). pose proof (hop_count_nonneg R p0).
  assert (Hb : 0 <= Z.b2z (bool_decide (pos = p0)) <= 1) by (case_bool_decide; cbn [Z.b2z]; lia).
  destruct (R !! k) as [h0|] eqn:E; destruct Hk as [-> ->].
  - rewrite (hop_count_replace R k h0) by done.
    assert (0 < hop_count R h0) by (apply hop_count_pos; eauto).
    destruct (decide (h0 = i)) as [->|]; [rewrite (bool_decide_true (i = i)) by done|
      rewrite (bool_decide_false (h0 = i)) by done; cbn [Z.b2z]; lia].
    rewrite u32_small; cbn [Z.b2z]; lia.
  - rewrite hop_count_insert by done. destruct (decide (0 = i)) as [<-|]; [|done].
    rewrite u32_small; lia.
Qed.

Lemma counts_delete u R k h :
  counts u R -> Z.of_nat (size R) < 2 ^ 31 -> R !! k = Some h ->
  counts (<[h := u32 (u !!! h - 1)]> u) (delete k R).
Proof.
  intros Hu Hsz Hk i Hi. rewrite lookup_total_insert, (hop_count_delete R k h) by done.
  destruct (decide (h = i)) as [->|]; [rewrite bool_decide_true by done|
    rewrite bool_decide_false by done; cbn [Z.b2z]; rewrite Hu by done; lia].
  assert (0 < hop_count R i) by (apply hop_count_pos; eauto).
  pose proof (hop_count_le R i). rewrite Hu, u32_small by (done || lia). cbn [Z.b2z]. lia.
Qed.

(** ** The operations *)

Lemma bad_key_depth_false key : 1 <= k_depth key <= 32 -> bad_key_depth key = false.
Proof. intros. unfold bad_key_depth. case_tests; done || lia. Qed.

(** Outcome of an addition: the prefix maps to the identifying bytes, which
    [*entry_ptr] points to, or the low-level table had no room. *)
Definition table_add_post t A (key : Z * Z) (e : list Z)
    (res : option (option (rte_table_lpm T) * Z * option (Z * Z))) : Prop :=
  exists t' R', entry_size t' = entry_size t /\ entry_unique_size t' = entry_unique_size t /\
  ((exists ptr, res = Some (Some t', 0, Some (Z.b2z (bool_decide (is_Some (A !! key))), ptr)) /\
      tl_inv t' R' (<[key := e]> A) /\ read_bytes (nht t') ptr (entry_unique_size t) = e) \/
   (res = Some (Some t', -1, None) /\ A !! key = None /\ pt_full (lpm t) (size A) (fst key) /\ tl_inv t' R' A)).

(** The route [key] gets the next hop [pos] whose slot holds [e]. *)
Lemma tl_inv_commit t R A t' key pos e :
  tl_inv t R A -> tl_geometry t' -> slot t pos = e ->
  (forall q, (exists k, R !! k = Some q) -> slot t q = e -> q = pos) -> 0 <= pos < 64 ->
  pt_repr (lpm t') (<[key := pos]> R) -> (forall i, slot t' i = slot t i) ->
  counts (nht_users t') (<[key := pos]> R) ->
  tl_inv t' (<[key := pos]> R) (<[key := e]> A).
Proof.
  intros HI Hg Es Huniq Hp Hr Hs Hc. split; [done|done|..|done| |].
  - intros k h. rewrite lookup_insert_Some. intros [[_ <-]|[_ Hh]]; [lia|].
    by eapply (tl_hops _ _ _ HI).
  - rewrite fmap_insert, (tl_map _ _ _ HI), Hs, Es. f_equal. apply map_eq. intros k.
    rewrite !lookup_fmap. destruct (R !! k); [cbn; by rewrite Hs|done].
  - assert (Hin : forall i, (exists k, <[key:=pos]> R !! k = Some i) ->
       i = pos \/ exists k, R !! k = Some i).
    { intros i [k Hk]. apply lookup_insert_Some in Hk as [[_ ->]|[_ ?]]; eauto. }
    intros i j Hi Hj. rewrite !Hs. intros E. apply Hin in Hi as [->|Hi], Hj as [->|Hj];
      [done| | |by apply (tl_distinct _ _ _ HI)].
    + symmetry. apply Huniq; [done|]. by rewrite <- E.
    + apply Huniq; [done|]. by rewrite E.
Qed.

Lemma table_add_ok t R A ip d entry :
  tl_inv t R A -> addr ip -> 1 <= d <= 32 -> entry_size t = Z.of_nat (length entry) ->
  (size (map_img A : gset (list Z)) < 64)%nat \/
    take (Z.to_nat (entry_unique_size t)) entry ∈ (map_img A : gset (list Z)) ->
  table_add_post t A (d, cut ip d) (take (Z.to_nat (entry_unique_size t)) entry)
    (rte_table_lpm_entry_add (Some t) (Some (TableKey ip d)) (Some entry)).
Proof.
  intros HI Hip Hd Hlen Hroom. unfold rte_table_lpm_entry_add, table_add_post.
  rewrite bad_key_depth_false by done. cbn [k_ip k_depth]. set (key := (d, cut ip d)).
  rewrite (pt_present_law _ R) by (apply HI || done). fold key.
  destruct (nht_get_spec t R A entry HI Hlen Hroom) as (m&pos&->&Hp&HI1&Es&Huniq).
  set (t1 := set_nht t m) in *. set (e := take _ entry) in *.
  destruct (pt_add_law (lpm t1) R ip d pos) as (l&rc&->&Hadd); [apply HI1|done..|lia|].
  fold key in Hadd. pose proof (pt_repr_small _ _ (tl_repr _ _ _ HI1)) as Hsz.
  assert (HA : forall k, A !! k = slot t1 <$> (R !! k))
    by (intros k; by rewrite (tl_map _ _ _ HI1), lookup_fmap).
  destruct Hadd as [[-> Hr]|(Hrc&Hr&Hk&Hfull)].
  2:{ rewrite Hk. cbn zeta. destruct (Z.ltb_spec rc 0); [|lia]. exists (set_lpm t1 l), R.
      split_and!; [done..|right]. split_and!; [done|by rewrite HA, Hk| |by destruct HI1; split].
      by rewrite (tl_map _ _ _ HI1), map_size_fmap. }
  destruct (match R !! key with Some h => (1, h) | None => (0, 0) end) as [st p0] eqn:Est.
  cbn zeta. rewrite (proj2 (Z.ltb_ge 0 0)) by lia.
  assert (Hst : match R !! key with Some h0 => p0 = h0 /\ st = 1 | None => p0 = 0 /\ st = 0 end)
    by (destruct (R !! key); by injection Est).
  assert (Hv : Z.b2z (0 <? st) = st /\ bool_decide (is_Some (A !! key)) = (0 <? st)).
  { rewrite HA. destruct (R !! key); destruct Hst as [-> ->]; cbn; split; try done. }
  destruct Hv as [Hv1 Hv2]. rewrite Hv2, Hv1.
  assert (Hp0 : 0 <= p0 < 256).
  { destruct (R !! key) as [h|] eqn:E; destruct Hst as [-> _]; [|lia].
    pose proof (tl_hops _ _ _ HI1 _ _ E). lia. }
  eexists _, (<[key := pos]> R). split; [|split; [|left; eexists; split; [done|]]]; [done..|].
  split; [|exact Es]. apply (tl_inv_commit t1 R); [done|exact (tl_geo _ _ _ HI1)|exact Es|done|lia|exact Hr|..]; try done.
  apply (counts_add _ R key pos p0 st); [exact (tl_users _ _ _ HI1)|lia..|done|done].
Qed.

Lemma read_bytes_take m off n k :
  0 <= n <= k -> take (Z.to_nat n) (read_bytes m off k) = read_bytes m off n.
Proof.
  intros Hn. unfold read_bytes. rewrite <- fmap_take, take_seq. do 2 f_equal. lia.
Qed.

(** Outcome of a deletion. *)
Definition table_delete_post t A (key : Z * Z) (want : bool)
    (res : option (option (rte_table_lpm T) * Z * option Z * option (list Z))) : Prop :=
  match A !! key with
  | None => res = Some (Some t, 0, Some 0, None)
  | Some e => exists t' R' out, res = Some (Some t', 0, Some 1, out) /\
      entry_size t' = entry_size t /\ entry_unique_size t' = entry_unique_size t /\
      tl_inv t' R' (delete key A) /\
      (want = true -> exists bytes, out = Some bytes /\
         Z.of_nat (length bytes) = entry_size t /\
         take (Z.to_nat (entry_unique_size t)) bytes = e)
  end.

Lemma tl_inv_remove t R A t' key h :
  tl_inv t R A -> tl_geometry t' -> R !! key = Some h ->
  pt_repr (lpm t') (delete key R) -> (forall i, slot t' i = slot t i) ->
  counts (nht_users t') (delete key R) ->
  tl_inv t' (delete key R) (delete key A).
Proof.
  intros HI Hg Hk Hr Hs Hc. split; [done|done|..|done| |].
  - intros k x [_ Hx]%lookup_delete_Some. by eapply (tl_hops _ _ _ HI).
  - rewrite fmap_delete, (tl_map _ _ _ HI). f_equal. apply map_eq. intros k.
    rewrite !lookup_fmap. destruct (R !! k); [cbn; by rewrite Hs|done].
  - intros i j [k [_ Hi]%lookup_delete_Some] [k' [_ Hj]%lookup_delete_Some]. rewrite !Hs.
    apply (tl_distinct _ _ _ HI); eauto.
Qed.

Lemma table_delete_ok t R A ip d want :
  tl_inv t R A -> addr ip -> 1 <= d <= 32 ->
  table_delete_post t A (d, cut ip d) want
    (rte_table_lpm_entry_delete (Some t) (Some (TableKey ip d)) want).
Proof.
  intros HI Hip Hd. unfold rte_table_lpm_entry_delete, table_delete_post.
  rewrite bad_key_depth_false by done. cbn [k_ip k_depth]. set (key := (d, cut ip d)).
  rewrite (pt_present_law _ R) by (apply HI || done). fold key.
  rewrite (tl_map _ _ _ HI), lookup_fmap.
  destruct (R !! key) as [h|] eqn:Hk; [|done]. cbn [fmap option_fmap option_map].
  destruct (pt_delete_law (lpm t) R ip d) as (l&->&Hr); [apply HI|done..|by exists h|].
  fold key in Hr. change (1 <? 0) with false. change (1 =? 0) with false.
  change (negb (0 =? 0)) with false. cbv iota zeta.
  pose proof (tl_hops _ _ _ HI _ _ Hk) as Hh. pose proof (tl_geo _ _ _ HI) as Hg.
  set (t2 := set_users _ _ _).
  assert (HI2 : tl_inv t2 (delete key R) (delete key (slot t <$> R))).
  { rewrite <- (tl_map _ _ _ HI). apply (tl_inv_remove t R A t2 key h HI); [done..|].
    apply counts_delete; [exact (tl_users _ _ _ HI)| |done].
    apply (pt_repr_small _ _ (tl_repr _ _ _ HI)). }
  destruct want; [|by eexists _, _, _].
  rewrite (in_block_spec t2 h) by (exact Hg || lia || (destruct Hg; cbn; lia)).
  eexists _, _, _. split; [done|]. split_and!; try done. intros _. eexists. split; [done|].
  destruct Hg as (?&?&?). split.
  - unfold read_bytes. rewrite length_map, length_seq. cbn. lia.
  - by rewrite read_bytes_take by (cbn; lia).
Qed.

(** ** Lookup *)

Lemma lpm_spec_fmap {X Y} (f : X -> Y) (M : gmap (Z * Z) X) a :
  lpm_spec (f <$> M) a = (fun x => (fst x, f (snd x))) <$> lpm_spec M a.
Proof.
  unfold lpm_spec. generalize 32%nat as n. induction n as [|n IH]; cbn [best_match]; [done|].
  rewrite lookup_fmap. by destruct (M !! _).
Qed.

(** What the lookup of a burst must leave for the packet [i]. *)
Definition pkt_post t A (meta : Z -> Z) (entries : gmap Z Z) (hit : Z) (entries' : gmap Z Z)
    (selected : bool) (i : Z) : Prop :=
  match (if selected then lpm_spec A (rte_bswap32 (meta i)) else None) with
  | Some (_, e) => Z.testbit hit i = true /\ exists ptr, entries' !! i = Some ptr /\
      read_bytes (nht t) ptr (entry_unique_size t) = e
  | None => Z.testbit hit i = false /\ entries' !! i = entries !! i
  end.

Lemma lookup_step_ok t R A meta mask entries i hit cur :
  tl_inv t R A -> 0 <= i ->
  (forall j, 0 <= j -> pkt_post t A meta entries hit cur (Z.testbit mask j && (j <? i)) j) ->
  let '(hit', cur') := lookup_step t meta mask i (hit, cur) in
  forall j, 0 <= j -> pkt_post t A meta entries hit' cur' (Z.testbit mask j && (j <? i + 1)) j.
Proof.
  intros HI Hi Hinv. unfold lookup_step. rewrite land_bit by done.
  assert (Hother : forall j, j <> i -> (j <? i + 1) = (j <? i)).
  { intros j Hj. destruct (Z.ltb_spec j (i + 1)), (Z.ltb_spec j i); done || lia. }
  destruct (Z.testbit mask i) eqn:Em; cbn [negb].
  2:{ intros j Hj. destruct (decide (j = i)) as [->|]; [|rewrite Hother by done; by apply Hinv].
      pose proof (Hinv i Hj) as Hp. by rewrite Em in *. }
  pose proof (pt_lookup_law (lpm t) R (rte_bswap32 (meta i)) (tl_repr _ _ _ HI) (u32_range _)) as Hl.
  assert (HA : lpm_spec A (rte_bswap32 (meta i)) =
    (fun x => (fst x, slot t (snd x))) <$> lpm_spec R (rte_bswap32 (meta i)))
    by (rewrite (tl_map _ _ _ HI); apply lpm_spec_fmap).
  pose proof (Hinv i Hi) as Hpi. rewrite Z.ltb_irrefl, andb_false_r in Hpi.
  destruct (lpm_spec R (rte_bswap32 (meta i))) as [[d h]|] eqn:Es.
  - rewrite Hl. cbn [Z.eqb]. apply best_match_hit in Es as Hh.
    apply (tl_hops _ _ _ HI) in Hh. rewrite wrap_small by lia.
    intros j Hj. unfold pkt_post. rewrite Z.lor_spec, Z.shiftl_1_l, Z.pow2_bits_eqb by done.
    destruct (decide (j = i)) as [->|Hne].
    + rewrite Em, (proj2 (Z.ltb_lt i (i + 1))) by lia. cbn [andb]. rewrite HA. cbn.
      rewrite Z.eqb_refl, orb_true_r. split; [done|]. eexists. by rewrite lookup_insert_eq.
    + rewrite Hother by done. rewrite (proj2 (Z.eqb_neq i j)), orb_false_r by done.
      rewrite lookup_insert_ne by done. by apply Hinv.
  - destruct (pt_lookup _ _) as [st nh]. cbn in Hl. rewrite (proj2 (Z.eqb_neq st 0)) by done.
    intros j Hj. destruct (decide (j = i)) as [->|]; [|rewrite Hother by done; by apply Hinv].
    unfold pkt_post. rewrite Em, (proj2 (Z.ltb_lt i (i + 1))) by lia. cbn [andb]. by rewrite HA.
Qed.

Lemma table_lookup_ok t R A meta mask entries :
  tl_inv t R A -> 0 < mask < 2 ^ 64 ->
  exists hit entries', rte_table_lpm_lookup t meta mask entries = Some (0, hit, entries') /\
    forall i, 0 <= i -> pkt_post t A meta entries hit entries' (Z.testbit mask i) i.
Proof.
  intros HI Hm. unfold rte_table_lpm_lookup. rewrite (proj2 (Z.eqb_neq mask 0)) by lia.
  pose proof (Z.log2_nonneg mask).
  pose proof (for_range_inv (fun k s => forall i, 0 <= i ->
      pkt_post t A meta entries (fst s) (snd s) (Z.testbit mask i && (i <? k)) i)
    0 (Z.log2 mask + 1) (lookup_step t meta mask) (0, entries) ltac:(lia)) as Hloop.
  cbv beta in Hloop. destruct (for_range _ _ _ _) as [hit entries'].
  exists hit, entries'. split; [done|]. intros i Hi.
  replace (Z.testbit mask i) with (Z.testbit mask i && (i <? Z.log2 mask + 1)).
  - apply Hloop; [| |done]; cbn [fst snd].
    + intros j Hj. rewrite (proj2 (Z.ltb_ge j 0)), andb_false_r by done.
      unfold pkt_post. by rewrite Z.bits_0.
    + intros k [h c] Hk Hinv. pose proof (lookup_step_ok t R A meta mask entries k h c HI
        ltac:(lia) Hinv) as Hs. by destruct (lookup_step _ _ _ _ _).
  - destruct (Z.ltb_spec i (Z.log2 mask + 1)); [by rewrite andb_true_r|].
    rewrite Z.bits_above_log2 by lia. done.
Qed.

End table.
