(* ===== verification/TableLpmTheorems.v ===== *)
(** * The LPM table of librte_table: theorems

    For every low-level table that satisfies the laws of [PrefixTable]. *)

From S2P Require Import Prelude Lpm LpmRules LpmSpec LpmProofs LpmTheorems PrefixTable TableLpm TableLpmProofs.

Inductive table_op :=
| TAdd (ip depth : Z) (entry : list Z)
| TDelete (ip depth : Z).

(** A call, with its return value and [*key_found] when it is written. *)
Definition table_step {T} `{PrefixTable T} (t : rte_table_lpm T) (op : table_op) :
    option (rte_table_lpm T * (Z * option Z)) :=
  match op with
  | TAdd ip d e =>
      match rte_table_lpm_entry_add (Some t) (Some (TableKey ip d)) (Some e) with
      | Some (Some t', rc, out) => Some (t', (rc, fst <$> out))
      | _ => None
      end
  | TDelete ip d =>
      match rte_table_lpm_entry_delete (Some t) (Some (TableKey ip d)) false with
      | Some (Some t', rc, key_found, _) => Some (t', (rc, key_found))
      | _ => None
      end
  end.

Fixpoint table_run {T} `{PrefixTable T} (t : rte_table_lpm T) (ops : list table_op) :
    option (rte_table_lpm T * list (Z * option Z)) :=
  match ops with
  | [] => Some (t, [])
  | op :: ops' =>
      match table_step t op with
      | Some (t1, out) =>
          match table_run t1 ops' with
          | Some (t2, outs) => Some (t2, out :: outs)
          | None => None
          end
      | None => None
      end
  end.

(** The specification: a map from prefixes to identifying bytes ([u] of them).
    [map_step u full A op out A']: the outcome [out] of [op] is one the map [A]
    allows, and [A'] is the map afterwards.  An addition may be refused only for
    a new prefix and only when the low-level table is [full]. *)
Definition map_step (u : Z) (full : Prop) (A : gmap (Z * Z) (list Z)) (op : table_op) (out : Z * option Z)
    (A' : gmap (Z * Z) (list Z)) : Prop :=
  let found key := Some (Z.b2z (bool_decide (is_Some (A !! key)))) in
  match op with
  | TAdd ip d e =>
      let key := (d, cut ip d) in
      (out = (0, found key) /\ A' = <[key := take (Z.to_nat u) e]> A) \/
      (out = (-1, None) /\ A !! key = None /\ full /\ A' = A)
  | TDelete ip d => let key := (d, cut ip d) in out = (0, found key) /\ A' = delete key A
  end.

Definition op_depth (op : table_op) : Z := match op with TAdd _ d _ => d | TDelete _ d => d end.

(** Every call of a run agrees with the map. *)
Fixpoint map_run {T} `{PrefixTableLaws T} (u : Z) (t : rte_table_lpm T) (A : gmap (Z * Z) (list Z))
    (ops : list table_op) (outs : list (Z * option Z)) (A' : gmap (Z * Z) (list Z)) : Prop :=
  match ops, outs with
  | [], [] => A' = A
  | op :: ops', out :: outs' =>
      exists t1 A1, table_step t op = Some (t1, out) /\
        map_step u (pt_full (lpm t) (size A) (op_depth op)) A op out A1 /\ map_run u t1 A1 ops' outs' A'
  | _, _ => False
  end.

Definition table_op_ok (es : Z) (op : table_op) : Prop :=
  match op with
  | TAdd ip d e => addr ip /\ 1 <= d <= 32 /\ Z.of_nat (length e) = es
  | TDelete ip d => addr ip /\ 1 <= d <= 32
  end.

(** The identifying bytes of the entries a sequence of calls adds. *)
Definition added (u : Z) (ops : list table_op) : gset (list Z) :=
  list_to_set (omap (fun op =>
    match op with TAdd _ _ e => Some (take (Z.to_nat u) e) | TDelete _ _ => None end) ops).

Lemma added_cons u op ops : added u (op :: ops) = added u [op] ∪ added u ops.
Proof. unfold added. rewrite <- list_to_set_app_L. by destruct op. Qed.

(** The table [rte_table_lpm_create] returns around the low-level table [l]. *)
Definition new_table {T} (l : T) (es u rules off : Z) : rte_table_lpm T :=
  TableLpm (TableStats 0 0) es u rules off l empty empty (256 * es).

Section refinement.
Context {T : Type} `{PrefixTableLaws T}.
Implicit Type (t : rte_table_lpm T) (A : gmap (Z * Z) (list Z)) (R : routes).

Lemma new_table_inv (l : T) es u rules off :
  pt_repr l empty -> 0 < u <= es -> es <= 2 ^ 20 -> tl_inv (new_table l es u rules off) empty empty.
Proof.
  intros. split.
  - unfold tl_geometry. cbn. lia.
  - done.
  - intros k h. by rewrite lookup_empty.
  - intros i Hi. cbn. unfold hop_count. by rewrite map_filter_empty, map_size_empty, lookup_total_empty.
  - by rewrite fmap_empty.
  - intros i j [k Hk]. by rewrite lookup_empty in Hk.
Qed.

(** Room for an entry: it is in use, or fewer than 64 are. *)
Lemma room_for (S : gset (list Z)) A (e : list Z) :
  (size S <= 64)%nat -> map_img A ⊆ S -> e ∈ S ->
  (size (map_img A : gset (list Z)) < 64)%nat \/ e ∈ (map_img A : gset (list Z)).
Proof.
  intros Hs Hsub He. destruct (decide (e ∈ (map_img A : gset (list Z)))); [by right|left].
  assert (map_img A ⊂ S) as Hlt%subset_size; [|lia]. split; [done|]. set_solver.
Qed.

Lemma map_img_delete_sub k A : (map_img (delete k A) : gset (list Z)) ⊆ map_img A.
Proof.
  intros e [k' Hk]%elem_of_map_img. apply lookup_delete_Some in Hk as [_ ?].
  apply elem_of_map_img. eauto.
Qed.

(** One call agrees with the map. *)
Lemma table_step_ok t R A (es u : Z) (op : table_op) (S : gset (list Z)) :
  tl_inv t R A -> entry_size t = es -> entry_unique_size t = u -> table_op_ok es op ->
  (size S <= 64)%nat -> map_img A ⊆ S -> added u [op] ⊆ S ->
  exists t' out A' R', table_step t op = Some (t', out) /\ map_step u (pt_full (lpm t) (size A) (op_depth op)) A op out A' /\
    tl_inv t' R' A' /\ entry_size t' = es /\ entry_unique_size t' = u /\ map_img A' ⊆ S.
Proof.
  intros HI <- <- Hok HS HA Hadd. destruct op as [ip d e|ip d]; cbn [table_step map_step].
  - destruct Hok as (Hip&Hd&Hlen). assert (He : take (Z.to_nat (entry_unique_size t)) e ∈ S).
    { clear - Hadd. apply Hadd. unfold added. set_solver. }
    destruct (table_add_ok t R A ip d e HI Hip Hd (eq_sym Hlen) (room_for S A _ HS HA He))
      as (t'&R'&?&?&[(ptr&->&HI'&_)|(->&Hk&Hfull&HI')]); cbn zeta.
    + eexists t', _, _, R'. split; [done|]. split; [by left|]. split_and!; try done. rewrite map_img_insert. intros x [->%elem_of_singleton|Hx]%elem_of_union; [done|].
      apply HA. by eapply map_img_delete_sub.
    + eexists t', _, A, R'. split; [done|]. split; [by right|done].
  - destruct Hok as (Hip&Hd). pose proof (table_delete_ok t R A ip d false HI Hip Hd) as Hpost.
    unfold table_delete_post in Hpost. cbn zeta.
    destruct (A !! (d, cut ip d)) as [e|] eqn:Ek.
    + destruct Hpost as (t'&R'&out&->&?&?&HI'&_). eexists t', _, _, R'. split; [done|]. cbv beta iota.
      rewrite bool_decide_true by done. split_and!; try done.
      etrans; [apply map_img_delete_sub|done].
    + rewrite Hpost. eexists t, _, _, R. split; [done|]. cbv beta iota.
      rewrite bool_decide_false by (by intros []). rewrite delete_id by done. done.
Qed.

Lemma table_run_ok (es u : Z) (S : gset (list Z)) (ops : list table_op) t R A :
  tl_inv t R A -> entry_size t = es -> entry_unique_size t = u -> Forall (table_op_ok es) ops ->
  (size S <= 64)%nat -> map_img A ⊆ S -> added u ops ⊆ S ->
  exists t' outs A' R', table_run t ops = Some (t', outs) /\ map_run u t A ops outs A' /\
    tl_inv t' R' A'.
Proof.
  intros HI Hes Hu Hok HS. revert t R A HI Hes Hu Hok.
  induction ops as [|op ops IH]; intros t R A HI Hes Hu Hok HA Hadd; [by eexists t, [], A, R|].
  apply Forall_cons in Hok as [Hop Hok].
  destruct (table_step_ok t R A es u op S) as (t1&out&A1&R1&E1&M1&HI1&?&?&?); try done.
  { clear - Hadd. rewrite added_cons in Hadd. set_solver. }
  destruct (IH t1 R1 A1) as (t2&outs&A2&R2&E2&M2&HI2); try done.
  { clear - Hadd. rewrite added_cons in Hadd. set_solver. }
  exists t2, (out :: outs), A2, R2. cbn [table_run map_run]. rewrite E1, E2. split_and!; [done| |done].
  by exists t1, A1.
Qed.
End refinement.

(** ** The theorems *)

(** C30: Every sequence of additions and deletions on a new table, with at most
    64 different next hops, makes only accesses inside the memory of the table
    and reports [key_found] as a map from prefixes does.  Deletions always return
    0; an addition returns 0 and enters the prefix, except that one of a new
    prefix may be refused with -1, leaving the map as it is, but only when the
    low-level table is full; for the IPv4 table ([lpm_full]): [max_rules] routes,
    or a depth above 24 and no free tbl8 group.  A lookup of a burst of
    packets afterwards sets exactly the hit bits of the selected packets whose
    address has a longest match, and points each hit to an entry with the
    identifying bytes that were added for that prefix.  It holds over every
    longest-prefix-match table that satisfies the interface. *)
Theorem table_lpm_refines_map {T : Type} `{PrefixTableLaws T} (l : T) (es u rules off : Z)
    (ops : list table_op) :
  pt_repr l empty -> 0 < u <= es -> es <= 2 ^ 20 -> Forall (table_op_ok es) ops ->
  (size (added u ops) <= 64)%nat ->
  exists t outs A, table_run (new_table l es u rules off) ops = Some (t, outs) /\
    map_run u (new_table l es u rules off) empty ops outs A /\
    forall meta mask entries, 0 < mask < 2 ^ 64 ->
      exists hit entries', rte_table_lpm_lookup t meta mask entries = Some (0, hit, entries') /\
        forall i, 0 <= i -> pkt_post t A meta entries hit entries' (Z.testbit mask i) i.
Proof.
  intros Hl Hu Hes Hok Hsz.
  destruct (table_run_ok es u (added u ops) ops (new_table l es u rules off) empty empty)
    as (t&outs&A&R&Hrun&Hmap&HI); try done; [by apply new_table_inv|].
  exists t, outs, A. split_and!; [done..|]. intros. by eapply table_lookup_ok.
Qed.

Definition demo_entry (x : Z) : list Z := [x; 0; 0; 0; 0; 0; 0; 0].

Definition demo_table_ops : list table_op :=
  [TAdd 0x0a000000 8 (demo_entry 1); TAdd 0x0a010000 16 (demo_entry 2);
   TAdd 0x0b000000 8 (demo_entry 1); TDelete 0x0a000000 8; TDelete 0x0c000000 8].

Lemma table_lpm_refines_map_witness :
  exists t outs A,
    table_run (new_table (empty_lpm 16 4) 8 4 16 0) demo_table_ops = Some (t, outs) /\
    outs = [(0, Some 0); (0, Some 0); (0, Some 0); (0, Some 1); (0, Some 0)] /\
    map_run 4 (new_table (empty_lpm 16 4) 8 4 16 0) empty demo_table_ops outs A /\
    forall meta mask entries, 0 < mask < 2 ^ 64 ->
      exists hit entries', rte_table_lpm_lookup t meta mask entries = Some (0, hit, entries') /\
        forall i, 0 <= i -> pkt_post t A meta entries hit entries' (Z.testbit mask i) i.
Proof.
  destruct (table_lpm_refines_map (empty_lpm 16 4) 8 4 16 0 demo_table_ops) as (t&outs&A&E&H); try lia.
  - apply created_ok; lia.
  - repeat constructor; cbn; unfold addr; lia.
  - vm_compute. lia.
  - exists t, outs, A. split; [exact E|]. split; [|exact H].
    assert (Ho : snd <$> table_run (new_table (empty_lpm 16 4) 8 4 16 0) demo_table_ops =
      Some [(0, Some 0); (0, Some 0); (0, Some 0); (0, Some 1); (0, Some 0)]) by (vm_compute; reflexivity).
    rewrite E in Ho. injection Ho as Ho. exact Ho.
Defined.

(** A deletion of a prefix that is not in the table reports it and changes
    nothing; a deletion of one that is returns the bytes of its entry, with the
    identifying bytes it was added with, and removes it. *)
Theorem table_lpm_delete_correct {T : Type} `{PrefixTableLaws T} (t : rte_table_lpm T)
    (R : routes) (A : gmap (Z * Z) (list Z)) (ip d : Z) :
  tl_inv t R A -> addr ip -> 1 <= d <= 32 ->
  match A !! (d, cut ip d), rte_table_lpm_entry_delete (Some t) (Some (TableKey ip d)) true with
  | None, Some (Some t', rc, key_found, out) => t' = t /\ rc = 0 /\ key_found = Some 0 /\ out = None
  | Some e, Some (Some t', rc, key_found, Some bytes) =>
      rc = 0 /\ key_found = Some 1 /\ Z.of_nat (length bytes) = entry_size t /\
      take (Z.to_nat (entry_unique_size t)) bytes = e /\
      exists R', tl_inv t' R' (delete (d, cut ip d) A)
  | _, _ => False
  end.
Proof.
  intros HI Hip Hd. pose proof (table_delete_ok t R A ip d true HI Hip Hd) as Hp.
  unfold table_delete_post in Hp. destruct (A !! (d, cut ip d)) as [e|]; [|by rewrite Hp].
  destruct Hp as (t'&R'&out&->&_&_&HI'&Hout). destruct (Hout eq_refl) as (bytes&->&?&?).
  split_and!; eauto.
Qed.

Definition demo_new_table : rte_table_lpm rte_lpm := new_table (empty_lpm 16 4) 8 4 16 0.

Lemma table_lpm_delete_correct_witness :
  exists t, fst <$> table_run demo_new_table [TAdd 0x0a000000 24 (demo_entry 7)] = Some t /\
  match rte_table_lpm_entry_delete (Some t) (Some (TableKey 0x0a000000 24)) true with
  | Some (Some _, rc, key_found, Some bytes) =>
      rc = 0 /\ key_found = Some 1 /\ take 4 bytes = [7; 0; 0; 0]
  | _ => False
  end.
Proof.
  destruct (table_add_ok demo_new_table empty empty 0x0a000000 24 (demo_entry 7))
    as (t&R&Es&Eu&[(ptr&E&HI&_)|(E&_&_)]);
    [apply new_table_inv; [apply created_ok|..]; lia|unfold addr; lia|lia|done|left; vm_compute; lia|..].
  2:{ vm_compute in E. discriminate. }
  exists t. split; [unfold table_run, table_step; by rewrite E|].
  pose proof (table_lpm_delete_correct t R _ 0x0a000000 24 HI ltac:(unfold addr; lia) ltac:(lia)) as Hp.
  rewrite lookup_insert_eq in Hp. rewrite Eu in Hp.
  set (res := rte_table_lpm_entry_delete _ _ _) in *. clearbody res. clear HI E Es Eu.
  destruct res as [[[[[t'|] rc] kf] [bytes|]]|]; try contradiction.
  destruct Hp as (?&?&_&?&_). split_and!; assumption.
Defined.

(** The next hop table is declared as 256 entries but indexes a [uint32_t]
    array by bytes: after 64 successful additions of different 8-byte entries,
    the 65th addition writes outside the memory of the table. *)
Theorem nht_overflow :
  match table_run (new_table (empty_lpm 300 1) 8 4 300 0)
    (map (fun i => TAdd (256 * i) 24 (demo_entry i)) (seqZ 0 64)) with
  | Some (t, outs) => outs = repeat (0, Some 0) 64 /\
      nht_find_free t = Some 64 /\ table_step t (TAdd 0x0a000000 24 (demo_entry 64)) = None
  | None => False
  end.
Proof. vm_compute. split_and!; reflexivity. Qed.
