(* ===== verification/Ring.v ===== *)
(** * The ring: data and operations

    Model of [librte_ring/rte_ring.h] and of [rte_ring_get_memsize],
    [rte_ring_init] and [rte_ring_set_water_mark] of [rte_ring.c].  The four
    indexes are 32-bit counters that are never reduced to the ring size; the
    ring cells are an array indexed from 0.  Objects are pointers, modelled by
    integers.  The debug statistics, which are compiled out by default, are
    left out.

    The multi-producer and multi-consumer operations are here as one thread
    executes them; the file RingConc runs them interleaved. *)

From S2P Require Import Prelude.

(** ** Data *)

Definition RING_F_SP_ENQ : Z := 0x0001.
Definition RING_F_SC_DEQ : Z := 0x0002.
Definition RTE_RING_QUOT_EXCEED : Z := 2 ^ 31.
Definition RTE_RING_SZ_MASK : Z := 0x0fffffff.

Inductive rte_ring_queue_behavior := RTE_RING_QUEUE_FIXED | RTE_RING_QUEUE_VARIABLE.

(** [struct prod] and [struct cons] of the ring. *)
Record prod_status := Prod {
  watermark : Z;
  sp_enqueue : bool;
  p_size : Z;
  p_mask : Z;
  p_head : Z;
  p_tail : Z
}.

Record cons_status := Cons {
  sc_dequeue : bool;
  c_size : Z;
  c_mask : Z;
  c_head : Z;
  c_tail : Z
}.

Record rte_ring := Ring {
  flags : Z;
  prod : prod_status;
  cons : cons_status;
  ring : gmap Z Z
}.

Definition set_p_head (r : rte_ring) (x : Z) : rte_ring :=
  let p := prod r in
  Ring (flags r) (Prod (watermark p) (sp_enqueue p) (p_size p) (p_mask p) x (p_tail p))
    (cons r) (ring r).
Definition set_p_tail (r : rte_ring) (x : Z) : rte_ring :=
  let p := prod r in
  Ring (flags r) (Prod (watermark p) (sp_enqueue p) (p_size p) (p_mask p) (p_head p) x)
    (cons r) (ring r).
Definition set_watermark (r : rte_ring) (x : Z) : rte_ring :=
  let p := prod r in
  Ring (flags r) (Prod x (sp_enqueue p) (p_size p) (p_mask p) (p_head p) (p_tail p))
    (cons r) (ring r).
Definition set_c_head (r : rte_ring) (x : Z) : rte_ring :=
  let c := cons r in
  Ring (flags r) (prod r) (Cons (sc_dequeue c) (c_size c) (c_mask c) x (c_tail c)) (ring r).
Definition set_c_tail (r : rte_ring) (x : Z) : rte_ring :=
  let c := cons r in
  Ring (flags r) (prod r) (Cons (sc_dequeue c) (c_size c) (c_mask c) (c_head c) x) (ring r).
Definition set_ring (r : rte_ring) (t : gmap Z Z) : rte_ring :=
  Ring (flags r) (prod r) (cons r) t.

(** ** Creation *)

(** [sizeof(struct rte_ring)] on x86-64 with 64-byte cache lines. *)
Definition sizeof_rte_ring : Z := 128.
Definition sizeof_ptr : Z := 8.
Definition RTE_CACHE_LINE_SIZE : Z := 64.

Definition POWEROF2 (x : Z) : bool := Z.land (u32 (x - 1)) x =? 0.

(** [RTE_ALIGN_CEIL]. *)
Definition RTE_ALIGN (val align : Z) : Z := Z.land (val + align - 1) (Z.lnot (align - 1)).

Definition rte_ring_get_memsize (count : Z) : Z :=
  if negb (POWEROF2 count) || (RTE_RING_SZ_MASK <? count) then - EINVAL
  else RTE_ALIGN (sizeof_rte_ring + count * sizeof_ptr) RTE_CACHE_LINE_SIZE.

(** The ring after [rte_ring_init]; the memory of the cells keeps what it
    held ([mem]). *)
Definition rte_ring_init (mem : gmap Z Z) (count fl : Z) : rte_ring * Z :=
  let sp := negb (Z.land fl RING_F_SP_ENQ =? 0) in
  let sc := negb (Z.land fl RING_F_SC_DEQ =? 0) in
  (Ring fl (Prod count sp count (u32 (count - 1)) 0 0)
     (Cons sc count (u32 (count - 1)) 0 0) mem, 0).

Definition rte_ring_set_water_mark (r : rte_ring) (count : Z) : rte_ring * Z :=
  if p_size (prod r) <=? count then (r, - EINVAL)
  else
    let count' := if count =? 0 then p_size (prod r) else count in
    (set_watermark r count', 0).

(** ** Copying pointers *)

(** [r->ring[idx] = obj_table[i]]. *)
Definition put (obj_table : list Z) (idx i : Z) (t : gmap Z Z) : gmap Z Z :=
  <[idx := obj_table !!! Z.to_nat i]> t.

(** The macro [ENQUEUE_PTRS]: copies unrolled by four when the objects fit
    before the end of the array, two loops otherwise. *)
Definition ENQUEUE_PTRS (r : rte_ring) (obj_table : list Z) (prod_head n mask : Z) :
    gmap Z Z :=
  let size := p_size (prod r) in
  let idx := Z.land prod_head mask in
  let st := put obj_table in
  if u32 (idx + n) <? size then
    let m := Z.land n (u32 (Z.lnot 3)) in
    let t := for_n (Z.to_nat (Z.shiftr m 2)) 0
      (fun q t =>
         let i := 4 * q in let j := idx + 4 * q in
         st (j + 3) (i + 3) (st (j + 2) (i + 2) (st (j + 1) (i + 1) (st j i t))))
      (ring r) in
    let j := idx + m in
    match Z.land n 3 with
    | 3 => st (j + 2) (m + 2) (st (j + 1) (m + 1) (st j m t))
    | 2 => st (j + 1) (m + 1) (st j m t)
    | 1 => st j m t
    | _ => t
    end
  else
    let i := size - idx in
    let t := for_range idx size (fun j t => st j (j - idx) t) (ring r) in
    for_range 0 (n - i) (fun j t => st j (i + j) t) t.

(** [obj_table[i] = r->ring[idx]]. *)
Definition get (r : rte_ring) (i idx : Z) (t : gmap Z Z) : gmap Z Z :=
  <[i := ring r !!! idx]> t.

(** The macro [DEQUEUE_PTRS]; the result is the caller's [obj_table]. *)
Definition DEQUEUE_PTRS (r : rte_ring) (obj_table : gmap Z Z) (cons_head n mask : Z) :
    gmap Z Z :=
  let idx := Z.land cons_head mask in
  let size := c_size (cons r) in
  let ld := get r in
  if u32 (idx + n) <? size then
    let m := Z.land n (u32 (Z.lnot 3)) in
    let t := for_n (Z.to_nat (Z.shiftr m 2)) 0
      (fun q t =>
         let i := 4 * q in let j := idx + 4 * q in
         ld (i + 3) (j + 3) (ld (i + 2) (j + 2) (ld (i + 1) (j + 1) (ld i j t))))
      obj_table in
    let j := idx + m in
    match Z.land n 3 with
    | 3 => ld (m + 2) (j + 2) (ld (m + 1) (j + 1) (ld m j t))
    | 2 => ld (m + 1) (j + 1) (ld m j t)
    | 1 => ld m j t
    | _ => t
    end
  else
    let i := size - idx in
    let t := for_range idx size (fun j t => ld (j - idx) j t) obj_table in
    for_range 0 (n - i) (fun j t => ld (i + j) j t) t.

(** ** Enqueue *)

(** "check that we have enough room in ring": the early return value, or the
    number of objects to enqueue. *)
Definition enq_room (free_entries n : Z) (behavior : rte_ring_queue_behavior) : Z + Z :=
  if free_entries <? n then
    match behavior with
    | RTE_RING_QUEUE_FIXED => inl (- ENOBUFS)
    | RTE_RING_QUEUE_VARIABLE => if free_entries =? 0 then inl 0 else inr free_entries
    end
  else inr n.

(** "if we exceed the watermark": the return value. *)
Definition enq_ret (r : rte_ring) (mask free_entries n : Z)
    (behavior : rte_ring_queue_behavior) : Z :=
  if watermark (prod r) <? u32 (mask + 1 - free_entries + n) then
    match behavior with
    | RTE_RING_QUEUE_FIXED => - EDQUOT
    | RTE_RING_QUEUE_VARIABLE => i32 (Z.lor n RTE_RING_QUOT_EXCEED)
    end
  else
    match behavior with
    | RTE_RING_QUEUE_FIXED => 0
    | RTE_RING_QUEUE_VARIABLE => n
    end.

Definition rte_ring_sp_do_enqueue (r : rte_ring) (obj_table : list Z) (n : Z)
    (behavior : rte_ring_queue_behavior) : rte_ring * Z :=
  let mask := p_mask (prod r) in
  let prod_head := p_head (prod r) in
  let cons_tail := c_tail (cons r) in
  let free_entries := u32 (mask + cons_tail - prod_head) in
  match enq_room free_entries n behavior with
  | inl ret => (r, ret)
  | inr n =>
      let prod_next := u32 (prod_head + n) in
      let r1 := set_p_head r prod_next in
      let r2 := set_ring r1 (ENQUEUE_PTRS r1 obj_table prod_head n mask) in
      let ret := enq_ret r2 mask free_entries n behavior in
      (set_p_tail r2 prod_next, ret)
  end.

(** [rte_atomic32_cmpset] on the producer and on the consumer head. *)
Definition cmpset_p_head (r : rte_ring) (exp src : Z) : rte_ring * bool :=
  if p_head (prod r) =? exp then (set_p_head r src, true) else (r, false).
Definition cmpset_c_head (r : rte_ring) (exp src : Z) : rte_ring * bool :=
  if c_head (cons r) =? exp then (set_c_head r src, true) else (r, false).

(** The [do .. while (success == 0)] loop that moves the producer head:
    [None] when the fuel ends, an early return, or [prod_head], [n] and
    [free_entries] of the claimed range. *)
Fixpoint mp_move_head (fuel : nat) (r : rte_ring) (max : Z)
    (behavior : rte_ring_queue_behavior) : option (rte_ring * (Z + Z * Z * Z)) :=
  match fuel with
  | O => None
  | S fuel' =>
      let prod_head := p_head (prod r) in
      let cons_tail := c_tail (cons r) in
      let free_entries := u32 (p_mask (prod r) + cons_tail - prod_head) in
      match enq_room free_entries max behavior with
      | inl ret => Some (r, inl ret)
      | inr n =>
          match cmpset_p_head r prod_head (u32 (prod_head + n)) with
          | (r1, true) => Some (r1, inr (prod_head, n, free_entries))
          | (r1, false) => mp_move_head fuel' r1 max behavior
          end
      end
  end.

(** [while (r->prod.tail != prod_head) rte_pause();]: alone, the thread sees
    the same tail in every iteration, so it spins forever unless the first
    test fails. *)
Definition wait_tail (tail head : Z) : option unit :=
  if tail =? head then Some () else None.

Definition rte_ring_mp_do_enqueue (fuel : nat) (r : rte_ring) (obj_table : list Z) (n : Z)
    (behavior : rte_ring_queue_behavior) : option (rte_ring * Z) :=
  if n =? 0 then Some (r, 0)
  else
    let mask := p_mask (prod r) in
    '(r1, res) ← mp_move_head fuel r n behavior;
    match res with
    | inl ret => Some (r1, ret)
    | inr (prod_head, n, free_entries) =>
        let prod_next := u32 (prod_head + n) in
        let r2 := set_ring r1 (ENQUEUE_PTRS r1 obj_table prod_head n mask) in
        let ret := enq_ret r2 mask free_entries n behavior in
        _ ← wait_tail (p_tail (prod r2)) prod_head;
        Some (set_p_tail r2 prod_next, ret)
    end.

(** ** Dequeue *)

(** "Set the actual entries for dequeue". *)
Definition deq_avail (entries n : Z) (behavior : rte_ring_queue_behavior) : Z + Z :=
  if entries <? n then
    match behavior with
    | RTE_RING_QUEUE_FIXED => inl (- ENOENT)
    | RTE_RING_QUEUE_VARIABLE => if entries =? 0 then inl 0 else inr entries
    end
  else inr n.

Definition deq_ret (n : Z) (behavior : rte_ring_queue_behavior) : Z :=
  match behavior with RTE_RING_QUEUE_FIXED => 0 | RTE_RING_QUEUE_VARIABLE => n end.

(** Result: the ring, the caller's object table and the return value. *)
Definition rte_ring_sc_do_dequeue (r : rte_ring) (obj_table : gmap Z Z) (n : Z)
    (behavior : rte_ring_queue_behavior) : rte_ring * gmap Z Z * Z :=
  let mask := p_mask (prod r) in
  let cons_head := c_head (cons r) in
  let prod_tail := p_tail (prod r) in
  let entries := u32 (prod_tail - cons_head) in
  match deq_avail entries n behavior with
  | inl ret => (r, obj_table, ret)
  | inr n =>
      let cons_next := u32 (cons_head + n) in
      let r1 := set_c_head r cons_next in
      let t := DEQUEUE_PTRS r1 obj_table cons_head n mask in
      (set_c_tail r1 cons_next, t, deq_ret n behavior)
  end.

Fixpoint mc_move_head (fuel : nat) (r : rte_ring) (max : Z)
    (behavior : rte_ring_queue_behavior) : option (rte_ring * (Z + Z * Z)) :=
  match fuel with
  | O => None
  | S fuel' =>
      let cons_head := c_head (cons r) in
      let prod_tail := p_tail (prod r) in
      let entries := u32 (prod_tail - cons_head) in
      match deq_avail entries max behavior with
      | inl ret => Some (r, inl ret)
      | inr n =>
          match cmpset_c_head r cons_head (u32 (cons_head + n)) with
          | (r1, true) => Some (r1, inr (cons_head, n))
          | (r1, false) => mc_move_head fuel' r1 max behavior
          end
      end
  end.

Definition rte_ring_mc_do_dequeue (fuel : nat) (r : rte_ring) (obj_table : gmap Z Z) (n : Z)
    (behavior : rte_ring_queue_behavior) : option (rte_ring * gmap Z Z * Z) :=
  if n =? 0 then Some (r, obj_table, 0)
  else
    let mask := p_mask (prod r) in
    '(r1, res) ← mc_move_head fuel r n behavior;
    match res with
    | inl ret => Some (r1, obj_table, ret)
    | inr (cons_head, n) =>
        let cons_next := u32 (cons_head + n) in
        let t := DEQUEUE_PTRS r1 obj_table cons_head n mask in
        _ ← wait_tail (c_tail (cons r1)) cons_head;
        Some (set_c_tail r1 cons_next, t, deq_ret n behavior)
    end.

(** ** The public operations *)

Definition rte_ring_mp_enqueue_bulk (fuel : nat) (r : rte_ring) (obj_table : list Z) (n : Z) :=
  rte_ring_mp_do_enqueue fuel r obj_table n RTE_RING_QUEUE_FIXED.
Definition rte_ring_sp_enqueue_bulk (r : rte_ring) (obj_table : list Z) (n : Z) :=
  rte_ring_sp_do_enqueue r obj_table n RTE_RING_QUEUE_FIXED.
Definition rte_ring_enqueue_bulk (fuel : nat) (r : rte_ring) (obj_table : list Z) (n : Z) :
    option (rte_ring * Z) :=
  if sp_enqueue (prod r) then Some (rte_ring_sp_enqueue_bulk r obj_table n)
  else rte_ring_mp_enqueue_bulk fuel r obj_table n.

Definition rte_ring_mp_enqueue (fuel : nat) (r : rte_ring) (obj : Z) :=
  rte_ring_mp_enqueue_bulk fuel r [obj] 1.
Definition rte_ring_sp_enqueue (r : rte_ring) (obj : Z) :=
  rte_ring_sp_enqueue_bulk r [obj] 1.
Definition rte_ring_enqueue (fuel : nat) (r : rte_ring) (obj : Z) : option (rte_ring * Z) :=
  if sp_enqueue (prod r) then Some (rte_ring_sp_enqueue r obj)
  else rte_ring_mp_enqueue fuel r obj.

Definition rte_ring_mc_dequeue_bulk (fuel : nat) (r : rte_ring) (obj_table : gmap Z Z) (n : Z) :=
  rte_ring_mc_do_dequeue fuel r obj_table n RTE_RING_QUEUE_FIXED.
Definition rte_ring_sc_dequeue_bulk (r : rte_ring) (obj_table : gmap Z Z) (n : Z) :=
  rte_ring_sc_do_dequeue r obj_table n RTE_RING_QUEUE_FIXED.
Definition rte_ring_dequeue_bulk (fuel : nat) (r : rte_ring) (obj_table : gmap Z Z) (n : Z) :
    option (rte_ring * gmap Z Z * Z) :=
  if sc_dequeue (cons r) then Some (rte_ring_sc_dequeue_bulk r obj_table n)
  else rte_ring_mc_dequeue_bulk fuel r obj_table n.

Definition rte_ring_mc_dequeue (fuel : nat) (r : rte_ring) (obj_p : gmap Z Z) :=
  rte_ring_mc_dequeue_bulk fuel r obj_p 1.
Definition rte_ring_sc_dequeue (r : rte_ring) (obj_p : gmap Z Z) :=
  rte_ring_sc_dequeue_bulk r obj_p 1.
Definition rte_ring_dequeue (fuel : nat) (r : rte_ring) (obj_p : gmap Z Z) :
    option (rte_ring * gmap Z Z * Z) :=
  if sc_dequeue (cons r) then Some (rte_ring_sc_dequeue r obj_p)
  else rte_ring_mc_dequeue fuel r obj_p.

(** The burst functions return the result as [unsigned]. *)
Definition rte_ring_mp_enqueue_burst (fuel : nat) (r : rte_ring) (obj_table : list Z) (n : Z) :
    option (rte_ring * Z) :=
  '(r', ret) ← rte_ring_mp_do_enqueue fuel r obj_table n RTE_RING_QUEUE_VARIABLE;
  Some (r', u32 ret).
Definition rte_ring_sp_enqueue_burst (r : rte_ring) (obj_table : list Z) (n : Z) : rte_ring * Z :=
  let '(r', ret) := rte_ring_sp_do_enqueue r obj_table n RTE_RING_QUEUE_VARIABLE in
  (r', u32 ret).
Definition rte_ring_enqueue_burst (fuel : nat) (r : rte_ring) (obj_table : list Z) (n : Z) :
    option (rte_ring * Z) :=
  if sp_enqueue (prod r) then Some (rte_ring_sp_enqueue_burst r obj_table n)
  else rte_ring_mp_enqueue_burst fuel r obj_table n.

Definition rte_ring_mc_dequeue_burst (fuel : nat) (r : rte_ring) (obj_table : gmap Z Z) (n : Z) :=
  rte_ring_mc_do_dequeue fuel r obj_table n RTE_RING_QUEUE_VARIABLE.
Definition rte_ring_sc_dequeue_burst (r : rte_ring) (obj_table : gmap Z Z) (n : Z) :=
  rte_ring_sc_do_dequeue r obj_table n RTE_RING_QUEUE_VARIABLE.
Definition rte_ring_dequeue_burst (fuel : nat) (r : rte_ring) (obj_table : gmap Z Z) (n : Z) :
    option (rte_ring * gmap Z Z * Z) :=
  if sc_dequeue (cons r) then Some (rte_ring_sc_dequeue_burst r obj_table n)
  else rte_ring_mc_dequeue_burst fuel r obj_table n.

(** ** Observers *)

Definition rte_ring_full (r : rte_ring) : bool :=
  Z.land (u32 (c_tail (cons r) - p_tail (prod r) - 1)) (p_mask (prod r)) =? 0.
Definition rte_ring_empty (r : rte_ring) : bool := c_tail (cons r) =? p_tail (prod r).
Definition rte_ring_count (r : rte_ring) : Z :=
  Z.land (u32 (p_tail (prod r) - c_tail (cons r))) (p_mask (prod r)).
Definition rte_ring_free_count (r : rte_ring) : Z :=
  Z.land (u32 (c_tail (cons r) - p_tail (prod r) - 1)) (p_mask (prod r)).
