(* ===== verification/RingProofs.v ===== *)
(** * The ring: a bounded FIFO queue

    The invariant [ring_inv r q] says that the ring [r], with no operation in
    progress, holds the objects [q] in order.  Every enqueue and dequeue is
    shown to act on [q] as on a queue of capacity [size - 1], whatever the
    position of the 32-bit indexes, wrap-around included. *)

From S2P Require Import Prelude Ring.

(** ** Copies *)

(** Peels the stores of an unrolled copy. *)
Ltac fill :=
  repeat (eapply filled_step; [reflexivity| |first [lia|dlia]|lia|first [done|f_equal; lia]]).

Lemma land_not3 n : 0 <= n < 2 ^ 32 -> Z.land n (u32 (Z.lnot 3)) = n / 4 * 4.
Proof.
  intros Hn. unfold u32, wrap. rewrite <- Z.land_ones by lia.
  rewrite (Z.land_comm (Z.lnot 3)), Z.land_assoc, Z.land_ones, Z.mod_small by lia.
  change (Z.lnot 3) with (Z.lnot (Z.ones 2)). rewrite <- Z.ldiff_land, Z.ldiff_ones_r by lia.
  by rewrite Z.shiftl_mul_pow2, Z.shiftr_div_pow2 by lia.
Qed.

Lemma land_3 n : Z.land n 3 = n mod 4.
Proof. change 3 with (Z.ones 2). by rewrite Z.land_ones by lia. Qed.

(** The unrolled copy of both macros: [st c d] is the copy between position
    [c] of the object table and position [d] of the ring. *)
Definition copy4 (st : Z -> Z -> gmap Z Z -> gmap Z Z) (idx n : Z) (t : gmap Z Z) : gmap Z Z :=
  let m := Z.land n (u32 (Z.lnot 3)) in
  let t := for_n (Z.to_nat (Z.shiftr m 2)) 0
    (fun q t =>
       let i := 4 * q in let j := idx + 4 * q in
       st (i + 3) (j + 3) (st (i + 2) (j + 2) (st (i + 1) (j + 1) (st i j t)))) t in
  let j := idx + m in
  match Z.land n 3 with
  | 3 => st (m + 2) (j + 2) (st (m + 1) (j + 1) (st m j t))
  | 2 => st (m + 1) (j + 1) (st m j t)
  | 1 => st m j t
  | _ => t
  end.

Lemma copy4_filled f base st idx n t :
  0 <= n < 2 ^ 32 -> (forall c d u, d = idx + c -> st c d u = <[base + c := f c]> u) ->
  filled f t (copy4 st idx n t) base n.
Proof.
  intros Hn Hst. unfold copy4. rewrite land_not3, land_3 by done.
  assert (Hs : Z.shiftr (n / 4 * 4) 2 = n / 4).
  { rewrite Z.shiftr_div_pow2 by lia. apply Z.div_mul. lia. }
  rewrite Hs. set (u := for_n _ _ _ _).
  assert (Hu : filled f t u base (4 * (n / 4))).
  { apply (filled_cnt _ _ _ _ (4 * (0 + Z.of_nat (Z.to_nat (n / 4))))); [dlia|].
    apply (for_n_inv (fun q u => filled f t u base (4 * q))); [apply filled_0|].
    intros q w Hq Hw. cbv zeta.
    rewrite !Hst by lia. apply (filled_cnt _ _ _ _ (4 * q + 1 + 1 + 1 + 1)); [lia|].
    fill. done. }
  assert (Hr : n mod 4 = 0 \/ n mod 4 = 1 \/ n mod 4 = 2 \/ n mod 4 = 3) by dlia.
  apply (filled_cnt _ _ _ _ (4 * (n / 4) + n mod 4)); [dlia|].
  destruct Hr as [E|[E|[E|E]]]; rewrite E; cbn [Z.add]; rewrite ?Hst by lia.
  - rewrite Z.add_0_r. done.
  - fill. done.
  - apply (filled_cnt _ _ _ _ (4 * (n / 4) + 1 + 1)); [lia|]. fill. done.
  - apply (filled_cnt _ _ _ _ (4 * (n / 4) + 1 + 1 + 1)); [lia|]. fill. done.
Qed.

(** ** Positions

    The geometry of a ring of [2^k] cells: a 32-bit index [x] addresses the
    cell [x mod 2^k]. *)

Lemma land_mask x k : 0 <= k -> Z.land x (2 ^ k - 1) = x mod 2 ^ k.
Proof. intros. rewrite <- Z.land_ones by done. by rewrite Z.ones_equiv. Qed.

Lemma u32_mod_pow x k : 0 <= k <= 32 -> u32 x mod 2 ^ k = x mod 2 ^ k.
Proof. intros. apply (wrap_wrap_le k 32). done. Qed.

Section copies.
Context (r : rte_ring) (k : Z) (Hk : 0 <= k <= 27).

Let size := 2 ^ k.

Lemma size_range : 1 <= size <= 2 ^ 27.
Proof. unfold size. split; [lia|]. apply Z.pow_le_mono_r; lia. Qed.

Lemma land_size x : Z.land x (size - 1) = x mod size.
Proof. apply land_mask. lia. Qed.

(** How far behind the cell of [head] the cell [j] lies. *)
Lemma cell_offset head j :
  0 <= j < size ->
  (j - head) mod size = if decide (head mod size <= j) then j - head mod size
                        else j + size - head mod size.
Proof.
  intros Hj. pose proof size_range. pose proof (Z.mod_pos_bound head size ltac:(lia)).
  rewrite <- Zminus_mod_idemp_r. case_decide; [by apply Z.mod_small; lia|].
  rewrite <- (Z_mod_plus_full _ 1). rewrite Z.mod_small by lia. lia.
Qed.

(** The macro [ENQUEUE_PTRS] writes object [o] to the cell [o] places after
    the head, modulo the size, and nothing else. *)
Lemma ENQUEUE_PTRS_cells objs head n j :
  p_size (prod r) = size -> 0 <= n <= size ->
  ENQUEUE_PTRS r objs head n (size - 1) !!! j =
  let o := (j - head) mod size in
  if decide (0 <= j < size /\ o < n) then objs !!! Z.to_nat o else ring r !!! j.
Proof.
  intros Hs Hn. pose proof size_range. pose proof (Z.mod_pos_bound head size ltac:(lia)).
  pose proof (cell_offset head j) as Ho. unfold ENQUEUE_PTRS.
  rewrite land_size, Hs. set (idx := head mod size) in *.
  rewrite u32_small by lia. set (f := fun c : Z => objs !!! Z.to_nat c).
  destruct (Z.ltb_spec (idx + n) size) as [Hlt|Hge].
  - etransitivity; [apply (copy4_filled f idx (fun i j => put objs j i) idx n (ring r));
    [lia|by intros ??? ->]|].
    destruct (decide (0 <= j < size)) as [Hj|Hj]; [rewrite Ho by done|].
    + repeat case_decide; try lia; done.
    + rewrite !decide_False by lia. done.
  - rewrite (filled_from (fun c => f (size - idx + c)) _ _ 0); [|lia|].
    2: { intros; unfold put, f; do 3 f_equal; lia. }
    rewrite (filled_from f _ _ idx); [|lia|intros; unfold put; f_equal; lia].
    destruct (decide (0 <= j < size)) as [Hj|Hj]; [rewrite Ho by done|].
    + repeat case_decide; try lia; unfold f; first [done|do 2 f_equal; lia].
    + rewrite !decide_False by lia. done.
Qed.

(** The macro [DEQUEUE_PTRS] reads the [n] cells from the head on, modulo the
    size, into the first [n] places of the object table. *)
Lemma DEQUEUE_PTRS_cells t head n i :
  c_size (cons r) = size -> 0 <= n <= size ->
  DEQUEUE_PTRS r t head n (size - 1) !!! i =
  if decide (0 <= i < n) then ring r !!! ((head + i) mod size) else t !!! i.
Proof.
  intros Hs Hn. pose proof size_range. pose proof (Z.mod_pos_bound head size ltac:(lia)).
  unfold DEQUEUE_PTRS. rewrite land_size, Hs.
  rewrite <- Zplus_mod_idemp_l. set (idx := head mod size) in *.
  rewrite u32_small by lia. set (f := fun c : Z => ring r !!! (idx + c)).
  destruct (Z.ltb_spec (idx + n) size) as [Hlt|Hge].
  - etransitivity; [apply (copy4_filled f 0 (get r) idx n t); [lia|by intros ??? ->]|].
    repeat case_decide; try lia; try done. unfold f. rewrite Z.mod_small by lia. f_equal. lia.
  - rewrite (filled_from (fun c => ring r !!! c) _ _ (size - idx)); [|lia|].
    2: { intros; unfold get; do 2 f_equal; lia. }
    rewrite (filled_from f _ _ 0); [|lia|intros; unfold get, f; do 2 f_equal; lia].
    unfold f. repeat case_decide; try lia; try done; f_equal.
    + rewrite <- (Z_mod_plus_full _ (-1)), Z.mod_small by lia. lia.
    + rewrite Z.mod_small by lia. lia.
Qed.
End copies.

(** ** The invariant *)

Record ring_inv (r : rte_ring) (q : list Z) : Prop := RingInv {
  ri_size : exists k, 0 <= k <= 27 /\ p_size (prod r) = 2 ^ k;
  ri_csize : c_size (cons r) = p_size (prod r);
  ri_mask : p_mask (prod r) = p_size (prod r) - 1;
  ri_prod : p_head (prod r) = p_tail (prod r) /\ 0 <= p_tail (prod r) < 2 ^ 32;
  ri_cons : c_head (cons r) = c_tail (cons r) /\ 0 <= c_tail (cons r) < 2 ^ 32;
  ri_len : u32 (p_tail (prod r) - c_tail (cons r)) = Z.of_nat (length q);
  ri_cap : Z.of_nat (length q) < p_size (prod r);
  ri_cells : forall i, 0 <= i < Z.of_nat (length q) ->
    ring r !!! ((c_tail (cons r) + i) mod p_size (prod r)) = q !!! Z.to_nat i;
  ri_wm : 0 < watermark (prod r) <= p_size (prod r)
}.

(** What enqueue and dequeue leave alone. *)
Definition same_geometry (r r' : rte_ring) : Prop :=
  flags r' = flags r /\ p_size (prod r') = p_size (prod r) /\
  p_mask (prod r') = p_mask (prod r) /\ watermark (prod r') = watermark (prod r) /\
  sp_enqueue (prod r') = sp_enqueue (prod r) /\
  c_size (cons r') = c_size (cons r) /\ c_mask (cons r') = c_mask (cons r) /\
  sc_dequeue (cons r') = sc_dequeue (cons r).

(** Free entries, as the code computes them. *)
Definition free_of (r : rte_ring) (q : list Z) : Z :=
  p_size (prod r) - 1 - Z.of_nat (length q).

Lemma inv_size r q : ring_inv r q -> 1 <= p_size (prod r) <= 2 ^ 27.
Proof. intros HI. destruct (ri_size _ _ HI) as (k&Hk&->). by apply size_range. Qed.

Lemma inv_free r q :
  ring_inv r q ->
  u32 (p_mask (prod r) + c_tail (cons r) - p_head (prod r)) = free_of r q /\
  0 <= free_of r q < p_size (prod r).
Proof.
  intros HI. pose proof (inv_size r q HI). destruct HI. unfold free_of.
  split; [|lia]. rewrite ri_mask0. destruct ri_prod0 as [-> _].
  replace (p_size (prod r) - 1 + c_tail (cons r) - p_tail (prod r))
    with (p_size (prod r) - 1 - (p_tail (prod r) - c_tail (cons r))) by lia.
  rewrite <- u32_sub_r, ri_len0, u32_small; lia.
Qed.

Lemma i32_quot m : 0 <= m < 2 ^ 31 -> i32 (Z.lor m RTE_RING_QUOT_EXCEED) = m - 2 ^ 31.
Proof.
  intros Hm. unfold RTE_RING_QUOT_EXCEED.
  replace (Z.lor m (2 ^ 31)) with (m + 2 ^ 31).
  - unfold i32. rewrite u32_small by lia. destruct (Z.ltb_spec (m + 2 ^ 31) (2 ^ 31)); lia.
  - apply Z.add_nocarry_lor, Z.bits_inj'. intros i Hi.
    rewrite Z.land_spec, Z.bits_0, Z.pow2_bits_eqb by lia.
    destruct (Z.eqb_spec 31 i) as [<-|]; [|by rewrite andb_false_r].
    rewrite <- (Z.mod_small m (2 ^ 31)) by done.
    by rewrite Z.mod_pow2_bits_high by lia.
Qed.

(** ** Enqueue *)

(** The queue operation: how many objects go in, and the return value. *)
Definition enq_result (r : rte_ring) (q : list Z) (n : Z) (b : rte_ring_queue_behavior) :
    option Z * Z :=
  let free := free_of r q in
  let quota m := watermark (prod r) <=? Z.of_nat (length q) + m in
  match b with
  | RTE_RING_QUEUE_FIXED =>
      if n <=? free then (Some n, if quota n then - EDQUOT else 0) else (None, - ENOBUFS)
  | RTE_RING_QUEUE_VARIABLE =>
      let m := Z.min n free in
      if (m =? 0) && negb (n =? 0) then (None, 0)
      else (Some m, if quota m then m - 2 ^ 31 else m)
  end.

Definition enq_post (r : rte_ring) (q objs : list Z) (n : Z) (b : rte_ring_queue_behavior)
    (res : rte_ring * Z) : Prop :=
  match enq_result r q n b with
  | (Some m, ret) =>
      snd res = ret /\ same_geometry r (fst res) /\
      ring_inv (fst res) (q ++ take (Z.to_nat m) objs)
  | (None, ret) => res = (r, ret)
  end.

(** Moving the producer index over [m] new objects. *)
Lemma push_inv r q objs m :
  ring_inv r q -> 0 <= m <= free_of r q -> m <= Z.of_nat (length objs) ->
  let r1 := set_p_head r (u32 (p_head (prod r) + m)) in
  let r2 := set_ring r1 (ENQUEUE_PTRS r1 objs (p_head (prod r)) m (p_mask (prod r))) in
  ring_inv (set_p_tail r2 (u32 (p_head (prod r) + m))) (q ++ take (Z.to_nat m) objs).
Proof.
  intros HI Hm Hlen r1 r2. pose proof (inv_size r q HI) as Hsz.
  destruct HI as [(k&Hk&Hs) Hcs Hmask [Hph Hpt] [Hch Hct] Hl Hcap Hcells Hwm].
  unfold free_of in Hm.
  assert (Hq : Z.of_nat (length (q ++ take (Z.to_nat m) objs)) = Z.of_nat (length q) + m)
    by (rewrite length_app, length_take; lia).
  split; cbn; rewrite ?Hq; try done.
  - by exists k.
  - split; [done|]. apply u32_range.
  - autorewrite with ints. rewrite Hph.
    replace (p_tail (prod r) + m - c_tail (cons r))
      with (p_tail (prod r) - c_tail (cons r) + m) by lia.
    rewrite <- u32_add_l, Hl, u32_small; lia.
  - lia.
  - intros i Hi. rewrite Hmask, Hs. rewrite (ENQUEUE_PTRS_cells r1 k Hk) by (done || lia).
    cbn. rewrite <- Hs.
    assert (Hoff : ((c_tail (cons r) + i) mod p_size (prod r) - p_head (prod r))
              mod p_size (prod r) = (i - Z.of_nat (length q)) mod p_size (prod r)).
    { rewrite Zminus_mod_idemp_l, Hph, <- Hl, Hs.
      rewrite <- (Zminus_mod_idemp_r i (u32 _)), u32_mod_pow, Zminus_mod_idemp_r by lia.
      f_equal. lia. }
    pose proof (Z.mod_pos_bound (c_tail (cons r) + i) (p_size (prod r)) ltac:(lia)).
    rewrite Hoff. destruct (decide (i < Z.of_nat (length q))).
    + rewrite <- (Z_mod_plus_full (i - _) 1), (Z.mod_small (_ + _ * _)), decide_False by lia.
      rewrite Hcells, lookup_total_app_l by lia. done.
    + rewrite (Z.mod_small (i - _)), decide_True by lia.
      rewrite lookup_total_app_r by lia.
      rewrite !list_lookup_total_alt, lookup_take_lt by lia. do 2 f_equal. lia.
Qed.

(** The watermark test counts one object too many: [mask + 1 - free_entries]
    is the number of used entries plus one. *)
Lemma enq_ret_inv r q m b r2 :
  ring_inv r q -> 0 <= m <= free_of r q -> watermark (prod r2) = watermark (prod r) ->
  enq_ret r2 (p_mask (prod r)) (free_of r q) m b =
  let quota := watermark (prod r) <=? Z.of_nat (length q) + m in
  match b with
  | RTE_RING_QUEUE_FIXED => if quota then - EDQUOT else 0
  | RTE_RING_QUEUE_VARIABLE => if quota then m - 2 ^ 31 else m
  end.
Proof.
  intros HI Hm Hw. pose proof (inv_size r q HI). pose proof (ri_wm _ _ HI).
  unfold enq_ret. rewrite Hw, (ri_mask _ _ HI). unfold free_of in *.
  rewrite u32_small by lia.
  replace (p_size (prod r) - 1 + 1 - (p_size (prod r) - 1 - Z.of_nat (length q)) + m)
    with (Z.of_nat (length q) + m + 1) by lia.
  destruct (Z.ltb_spec (watermark (prod r)) (Z.of_nat (length q) + m + 1)),
    (Z.leb_spec (watermark (prod r)) (Z.of_nat (length q) + m)); try lia; destruct b; try done.
  apply i32_quot. lia.
Qed.

Lemma sp_enqueue_ok r q objs n b :
  ring_inv r q -> 0 <= n <= Z.of_nat (length objs) ->
  enq_post r q objs n b (rte_ring_sp_do_enqueue r objs n b).
Proof.
  intros HI Hn. destruct (inv_free r q HI) as [Hf Hfr].
  unfold rte_ring_sp_do_enqueue, enq_post, enq_result, enq_room. rewrite Hf.
  assert (Hpush : forall m, 0 <= m <= free_of r q -> m <= n ->
    let res := match inr m : Z + Z with
      | inl ret => (r, ret)
      | inr m =>
          let r1 := set_p_head r (u32 (p_head (prod r) + m)) in
          let r2 := set_ring r1 (ENQUEUE_PTRS r1 objs (p_head (prod r)) m (p_mask (prod r))) in
          (set_p_tail r2 (u32 (p_head (prod r) + m)),
           enq_ret r2 (p_mask (prod r)) (free_of r q) m b)
      end in
    (snd res = enq_ret r (p_mask (prod r)) (free_of r q) m b /\ same_geometry r (fst res)) /\
    ring_inv (fst res) (q ++ take (Z.to_nat m) objs)).
  { intros m Hm Hmn. cbn. split; [done|]. by apply push_inv; try lia. }
  destruct b.
  - destruct (Z.leb_spec n (free_of r q)), (Z.ltb_spec (free_of r q) n); try lia; [|done].
    destruct (Hpush n) as [[Hret Hg] Hinv]; [lia|lia|]. cbv zeta in *. rewrite Hret.
    by rewrite (enq_ret_inv r q) by (done || lia).
  - destruct (Z.ltb_spec (free_of r q) n) as [Hlt|Hge].
    + rewrite Z.min_r by lia. destruct (Z.eqb_spec (free_of r q) 0) as [->|Hz]; cbn [andb].
      * by destruct (Z.eqb_spec n 0); [lia|].
      * destruct (Hpush (free_of r q)) as [[Hret Hg] Hinv]; [lia|lia|]. cbv zeta in *.
        rewrite Hret. by rewrite (enq_ret_inv r q) by (done || lia).
    + rewrite Z.min_l by lia.
      assert (Hnz : (n =? 0) && negb (n =? 0) = false) by (by destruct (n =? 0)).
      rewrite Hnz. destruct (Hpush n) as [[Hret Hg] Hinv]; [lia|lia|]. cbv zeta in *.
      rewrite Hret. by rewrite (enq_ret_inv r q) by (done || lia).
Qed.

(** Without interference the compare-and-set succeeds at once and no earlier
    enqueue is waited for. *)
Lemma mp_enqueue_alone fuel r q objs n b :
  ring_inv r q -> n <> 0 ->
  rte_ring_mp_do_enqueue (S fuel) r objs n b = Some (rte_ring_sp_do_enqueue r objs n b).
Proof.
  intros HI Hn. destruct (ri_prod _ _ HI) as [Hph _].
  unfold rte_ring_mp_do_enqueue, rte_ring_sp_do_enqueue.
  destruct (Z.eqb_spec n 0); [done|]. cbn [mp_move_head].
  set (res := enq_room _ _ _). destruct res as [ret|m]; [done|].
  unfold cmpset_p_head. rewrite Z.eqb_refl. cbn. unfold wait_tail.
  by rewrite Hph, Z.eqb_refl.
Qed.

(** ** Dequeue *)

Definition deq_result (q : list Z) (n : Z) (b : rte_ring_queue_behavior) : option Z * Z :=
  let len := Z.of_nat (length q) in
  match b with
  | RTE_RING_QUEUE_FIXED => if n <=? len then (Some n, 0) else (None, - ENOENT)
  | RTE_RING_QUEUE_VARIABLE =>
      let m := Z.min n len in
      if (m =? 0) && negb (n =? 0) then (None, 0) else (Some m, m)
  end.

(** The first [m] objects move to the first [m] places of the table. *)
Definition deq_post (r : rte_ring) (q : list Z) (t : gmap Z Z) (n : Z)
    (b : rte_ring_queue_behavior) (res : rte_ring * gmap Z Z * Z) : Prop :=
  match deq_result q n b with
  | (Some m, ret) =>
      let '(r', t', ret') := res in
      ret' = ret /\ same_geometry r r' /\ ring_inv r' (drop (Z.to_nat m) q) /\
      forall i, t' !!! i = if decide (0 <= i < m) then q !!! Z.to_nat i else t !!! i
  | (None, ret) => res = (r, t, ret)
  end.

Lemma pop_inv r q t m :
  ring_inv r q -> 0 <= m <= Z.of_nat (length q) ->
  let r1 := set_c_head r (u32 (c_head (cons r) + m)) in
  let t' := DEQUEUE_PTRS r1 t (c_head (cons r)) m (p_mask (prod r)) in
  ring_inv (set_c_tail r1 (u32 (c_head (cons r) + m))) (drop (Z.to_nat m) q) /\
  forall i, t' !!! i = if decide (0 <= i < m) then q !!! Z.to_nat i else t !!! i.
Proof.
  intros HI Hm r1 t'. pose proof (inv_size r q HI) as Hsz.
  destruct HI as [(k&Hk&Hs) Hcs Hmask [Hph Hpt] [Hch Hct] Hl Hcap Hcells Hwm].
  assert (Hq : Z.of_nat (length (drop (Z.to_nat m) q)) = Z.of_nat (length q) - m)
    by (rewrite length_drop; lia).
  split; [split|]; cbn; rewrite ?Hq; try done.
  - by exists k.
  - split; [done|]. apply u32_range.
  - autorewrite with ints. rewrite Hch.
    replace (p_tail (prod r) - (c_tail (cons r) + m))
      with (p_tail (prod r) - c_tail (cons r) - m) by lia.
    rewrite <- u32_sub_l, Hl, u32_small; lia.
  - lia.
  - intros i Hi. rewrite lookup_total_drop, Hch.
    replace (Z.to_nat m + Z.to_nat i)%nat with (Z.to_nat (m + i)) by lia.
    rewrite <- Hcells by lia. f_equal. rewrite Hs.
    rewrite <- Zplus_mod_idemp_l, u32_mod_pow, Zplus_mod_idemp_l by lia. f_equal. lia.
  - intros i. unfold t'. rewrite Hmask, Hs, (DEQUEUE_PTRS_cells r1 k Hk); [|cbn; congruence|lia].
    case_decide; [|done]. cbn. rewrite Hch, <- Hs. apply Hcells. lia.
Qed.

Lemma sc_dequeue_ok r q t n b :
  ring_inv r q -> 0 <= n -> deq_post r q t n b (rte_ring_sc_do_dequeue r t n b).
Proof.
  intros HI Hn. assert (He : u32 (p_tail (prod r) - c_head (cons r)) = Z.of_nat (length q)).
  { destruct (ri_cons _ _ HI) as [-> _]. apply HI. }
  unfold rte_ring_sc_do_dequeue, deq_post, deq_result, deq_avail. rewrite He.
  assert (Hpop : forall m, 0 <= m <= Z.of_nat (length q) ->
    let r1 := set_c_head r (u32 (c_head (cons r) + m)) in
    same_geometry r (set_c_tail r1 (u32 (c_head (cons r) + m))) /\
    ring_inv (set_c_tail r1 (u32 (c_head (cons r) + m))) (drop (Z.to_nat m) q) /\
    forall i, DEQUEUE_PTRS r1 t (c_head (cons r)) m (p_mask (prod r)) !!! i =
      if decide (0 <= i < m) then q !!! Z.to_nat i else t !!! i).
  { intros m Hm. split; [done|]. by apply pop_inv. }
  destruct b.
  - destruct (Z.leb_spec n (Z.of_nat (length q))), (Z.ltb_spec (Z.of_nat (length q)) n);
      try lia; [|done]. split; [done|]. by apply Hpop.
  - destruct (Z.ltb_spec (Z.of_nat (length q)) n) as [Hlt|Hge].
    + rewrite Z.min_r by lia. destruct (Z.eqb_spec (Z.of_nat (length q)) 0) as [E|Hz]; cbn [andb].
      * by destruct (Z.eqb_spec n 0); [lia|].
      * split; [done|]. apply Hpop. lia.
    + rewrite Z.min_l by lia.
      assert (Hnz : (n =? 0) && negb (n =? 0) = false) by (by destruct (n =? 0)).
      rewrite Hnz. split; [done|]. apply Hpop. lia.
Qed.

Lemma mc_dequeue_alone fuel r q t n b :
  ring_inv r q -> n <> 0 ->
  rte_ring_mc_do_dequeue (S fuel) r t n b = Some (rte_ring_sc_do_dequeue r t n b).
Proof.
  intros HI Hn. destruct (ri_cons _ _ HI) as [Hch _].
  unfold rte_ring_mc_do_dequeue, rte_ring_sc_do_dequeue.
  destruct (Z.eqb_spec n 0); [done|]. cbn [mc_move_head].
  set (res := deq_avail _ _ _). destruct res as [ret|m]; [done|].
  unfold cmpset_c_head. rewrite Z.eqb_refl. cbn. unfold wait_tail.
  by rewrite Hch, Z.eqb_refl.
Qed.

(** ** Creation and observers *)

Lemma POWEROF2_spec x : 0 < x < 2 ^ 32 -> POWEROF2 x = true -> exists k, 0 <= k < 32 /\ x = 2 ^ k.
Proof.
  intros Hx. unfold POWEROF2. rewrite u32_small by lia. rewrite Z.eqb_eq. by apply land_pred_pow2.
Qed.

Lemma init_ok mem count fl :
  0 < count < 2 ^ 32 -> 0 <= rte_ring_get_memsize count ->
  ring_inv (fst (rte_ring_init mem count fl)) [].
Proof.
  intros Hc Hm. unfold rte_ring_get_memsize in Hm.
  destruct (negb (POWEROF2 count) || (RTE_RING_SZ_MASK <? count)) eqn:E; [done|].
  apply orb_false_iff in E as [Hp Hmax]. apply negb_false_iff in Hp.
  destruct (POWEROF2_spec count Hc Hp) as (k&Hk&->). unfold RTE_RING_SZ_MASK in Hmax.
  apply Z.ltb_ge in Hmax.
  assert (k < 28) by (apply (Z.pow_lt_mono_r_iff 2); lia).
  split; cbn; try done; try lia.
  - exists k. split; [lia|done].
  - apply u32_small. lia.
Qed.
