(* ===== verification/RingTheorems.v ===== *)
(** * The ring: the theorems about one thread

    An abstract bounded queue with a high water mark, the refinement of the
    ring to it for every sequence of calls, and the facts about the copies, the
    observers and the creation. *)

From S2P Require Import Prelude Ring RingProofs.

(** ** The abstract queue *)

(** [aq_single]: the ring was created for a single producer. *)
Record aqueue := AQueue { aq_cap : Z; aq_mark : Z; aq_single : bool; aq_items : list Z }.

Inductive ring_op :=
| OpEnqueue (b : rte_ring_queue_behavior) (objs : list Z)
| OpDequeue (b : rte_ring_queue_behavior) (n : Z)
| OpWaterMark (count : Z).

(** The return value and the objects handed to the caller. *)
Definition outcome : Type := Z * list Z.

Definition aq_enqueue (a : aqueue) (b : rte_ring_queue_behavior) (objs : list Z) :
    aqueue * outcome :=
  let n := Z.of_nat (length objs) in
  let used := Z.of_nat (length (aq_items a)) in
  let free := aq_cap a - used in
  let put m := AQueue (aq_cap a) (aq_mark a) (aq_single a) (aq_items a ++ take (Z.to_nat m) objs) in
  let marked m := aq_mark a <=? used + m in
  if negb (aq_single a) && (n =? 0) then (a, (0, []))
  else
    match b with
    | RTE_RING_QUEUE_FIXED =>
        if free <? n then (a, (- ENOBUFS, [])) else (put n, (if marked n then - EDQUOT else 0, []))
    | RTE_RING_QUEUE_VARIABLE =>
        let m := Z.min n free in
        if (m =? 0) && negb (n =? 0) then (a, (0, []))
        else (put m, (if marked m then m + 2 ^ 31 else m, []))
    end.

Definition aq_dequeue (a : aqueue) (b : rte_ring_queue_behavior) (n : Z) : aqueue * outcome :=
  let used := Z.of_nat (length (aq_items a)) in
  let m := match b with
           | RTE_RING_QUEUE_FIXED => if n <=? used then n else 0
           | RTE_RING_QUEUE_VARIABLE => Z.min n used
           end in
  let a' := AQueue (aq_cap a) (aq_mark a) (aq_single a) (drop (Z.to_nat m) (aq_items a)) in
  let out := take (Z.to_nat m) (aq_items a) in
  match b with
  | RTE_RING_QUEUE_FIXED => if n <=? used then (a', (0, out)) else (a, (- ENOENT, []))
  | RTE_RING_QUEUE_VARIABLE => (a', (m, out))
  end.

Definition aq_water_mark (a : aqueue) (count : Z) : aqueue * outcome :=
  if aq_cap a <? count then (a, (- EINVAL, []))
  else
    let mark := if count =? 0 then aq_cap a + 1 else count in
    (AQueue (aq_cap a) mark (aq_single a) (aq_items a), (0, [])).

Definition aq_step (a : aqueue) (op : ring_op) : aqueue * outcome :=
  match op with
  | OpEnqueue b objs => aq_enqueue a b objs
  | OpDequeue b n => aq_dequeue a b n
  | OpWaterMark count => aq_water_mark a count
  end.

Fixpoint aq_run (a : aqueue) (ops : list ring_op) : aqueue * list outcome :=
  match ops with
  | [] => (a, [])
  | op :: rest =>
      let '(a1, o) := aq_step a op in
      let '(a2, os) := aq_run a1 rest in (a2, o :: os)
  end.

(** ** The same calls on the ring *)

(** The public call for an operation (bulk for a fixed, burst for a variable
    number of objects), with the objects the caller finds in a fresh table. *)
Definition ring_step (r : rte_ring) (op : ring_op) : option (rte_ring * outcome) :=
  match op with
  | OpEnqueue RTE_RING_QUEUE_FIXED objs =>
      '(r', ret) ← rte_ring_enqueue_bulk 1 r objs (Z.of_nat (length objs));
      Some (r', (ret, []))
  | OpEnqueue RTE_RING_QUEUE_VARIABLE objs =>
      '(r', ret) ← rte_ring_enqueue_burst 1 r objs (Z.of_nat (length objs));
      Some (r', (ret, []))
  | OpDequeue RTE_RING_QUEUE_FIXED n =>
      '(r', t, ret) ← rte_ring_dequeue_bulk 1 r empty n;
      Some (r', (ret, table_list t (if ret =? 0 then n else 0)))
  | OpDequeue RTE_RING_QUEUE_VARIABLE n =>
      '(r', t, ret) ← rte_ring_dequeue_burst 1 r empty n;
      Some (r', (ret, table_list t ret))
  | OpWaterMark count =>
      let '(r', ret) := rte_ring_set_water_mark r count in Some (r', (ret, []))
  end.

Fixpoint ring_run (r : rte_ring) (ops : list ring_op) : option (rte_ring * list outcome) :=
  match ops with
  | [] => Some (r, [])
  | op :: rest =>
      '(r1, o) ← ring_step r op;
      '(r2, os) ← ring_run r1 rest;
      Some (r2, o :: os)
  end.

(** [unsigned] arguments; fewer than [2^31] objects, so that the number of
    objects and the quota bit do not overlap. *)
Definition op_args_ok (op : ring_op) : Prop :=
  match op with
  | OpEnqueue _ objs => Z.of_nat (length objs) < 2 ^ 31
  | OpDequeue _ n => 0 <= n < 2 ^ 32
  | OpWaterMark count => 0 <= count < 2 ^ 32
  end.

(** The abstract view of a ring. *)
Definition abs (r : rte_ring) (q : list Z) : aqueue :=
  AQueue (p_size (prod r) - 1) (watermark (prod r)) (sp_enqueue (prod r)) q.

Lemma abs_geometry r r' q : same_geometry r r' -> abs r' q = abs r q.
Proof. intros (_&E1&_&E2&E3&_). unfold abs. by rewrite E1, E2, E3. Qed.

(** The dispatch on the creation flags makes no difference to one thread, but
    for the early return of the multi-producer and multi-consumer variants when
    there is nothing to do. *)
Lemma enqueue_dispatch r q objs n :
  ring_inv r q ->
  if negb (sp_enqueue (prod r)) && (n =? 0) then
    rte_ring_enqueue_bulk 1 r objs n = Some (r, 0) /\ rte_ring_enqueue_burst 1 r objs n = Some (r, 0)
  else
    rte_ring_enqueue_bulk 1 r objs n =
      Some (rte_ring_sp_do_enqueue r objs n RTE_RING_QUEUE_FIXED) /\
    rte_ring_enqueue_burst 1 r objs n =
      let '(r', ret) := rte_ring_sp_do_enqueue r objs n RTE_RING_QUEUE_VARIABLE in
      Some (r', u32 ret).
Proof.
  intros HI. unfold rte_ring_enqueue_bulk, rte_ring_enqueue_burst,
    rte_ring_mp_enqueue_bulk, rte_ring_mp_enqueue_burst, rte_ring_sp_enqueue_burst.
  destruct (sp_enqueue (prod r)); cbn [negb andb]; [by destruct (rte_ring_sp_do_enqueue _ _ _ RTE_RING_QUEUE_VARIABLE)|].
  destruct (Z.eqb_spec n 0) as [->|Hn]; [done|]. rewrite !(mp_enqueue_alone _ _ q) by done. cbn.
  by destruct (rte_ring_sp_do_enqueue _ _ _ RTE_RING_QUEUE_VARIABLE).
Qed.

Lemma dequeue_dispatch r q t n :
  ring_inv r q ->
  if negb (sc_dequeue (cons r)) && (n =? 0) then
    rte_ring_dequeue_bulk 1 r t n = Some (r, t, 0) /\ rte_ring_dequeue_burst 1 r t n = Some (r, t, 0)
  else
    rte_ring_dequeue_bulk 1 r t n = Some (rte_ring_sc_do_dequeue r t n RTE_RING_QUEUE_FIXED) /\
    rte_ring_dequeue_burst 1 r t n = Some (rte_ring_sc_do_dequeue r t n RTE_RING_QUEUE_VARIABLE).
Proof.
  intros HI. unfold rte_ring_dequeue_bulk, rte_ring_dequeue_burst,
    rte_ring_mc_dequeue_bulk, rte_ring_mc_dequeue_burst.
  destruct (sc_dequeue (cons r)); cbn [negb andb]; [done|].
  destruct (Z.eqb_spec n 0) as [->|Hn]; [done|]. by rewrite !(mc_dequeue_alone _ _ q).
Qed.

(** One call: the ring moves as the abstract queue, with the same outcome. *)
Definition simulates (r : rte_ring) (q : list Z) (op : ring_op) : Prop :=
  exists r' q', ring_step r op = Some (r', snd (aq_step (abs r q) op)) /\
    ring_inv r' q' /\ abs r' q' = fst (aq_step (abs r q) op).

Lemma enqueue_step_ok r q b objs :
  ring_inv r q -> op_args_ok (OpEnqueue b objs) -> simulates r q (OpEnqueue b objs).
Proof.
  intros HI Hop. cbn in Hop. set (n := Z.of_nat (length objs)) in *.
  destruct (inv_free r q HI) as [_ Hfr]. pose proof (inv_size r q HI).
  pose proof (enqueue_dispatch r q objs n HI) as Hdisp.
  pose proof (sp_enqueue_ok r q objs n b HI ltac:(lia)) as Hpost.
  unfold simulates, enq_post, enq_result in *. cbn [aq_step]. unfold aq_enqueue.
  cbn [aq_cap aq_mark aq_single aq_items abs]. fold n (free_of r q).
  destruct (negb (sp_enqueue (prod r)) && (n =? 0)) eqn:E0; destruct Hdisp as [Hbulk Hburst].
  { exists r, q. destruct b; cbn [ring_step]; fold n; by rewrite ?Hbulk, ?Hburst. }
  destruct b; cbn [ring_step]; fold n; rewrite ?Hbulk, ?Hburst; clear Hbulk Hburst.
  - destruct (rte_ring_sp_do_enqueue r objs n RTE_RING_QUEUE_FIXED) as [r' ret]; cbn.
    destruct (Z.leb_spec n (free_of r q)), (Z.ltb_spec (free_of r q) n); try lia.
    + destruct Hpost as (E&Hg&Hinv). cbn in E, Hg, Hinv. subst ret.
      exists r', (q ++ take (Z.to_nat n) objs). by rewrite (abs_geometry r r').
    + injection Hpost as -> ->. by exists r, q.
  - destruct (rte_ring_sp_do_enqueue r objs n RTE_RING_QUEUE_VARIABLE) as [r' ret]; cbn.
    destruct ((Z.min n (free_of r q) =? 0) && negb (n =? 0)).
    + injection Hpost as -> ->. by exists r, q.
    + destruct Hpost as (E&Hg&Hinv). cbn in E, Hg, Hinv. subst ret.
      exists r', (q ++ take (Z.to_nat (Z.min n (free_of r q))) objs).
      rewrite (abs_geometry r r') by done. split_and!; [|done|done]. cbn. do 3 f_equal.
      case_match; [|apply u32_small; lia]. rewrite <- (u32_add_multiple _ 1). rewrite u32_small; lia.
Qed.

Lemma dequeue_step_ok r q b n :
  ring_inv r q -> op_args_ok (OpDequeue b n) -> simulates r q (OpDequeue b n).
Proof.
  intros HI Hop. cbn in Hop. pose proof (inv_size r q HI).
  pose proof (dequeue_dispatch r q empty n HI) as Hdisp.
  pose proof (sc_dequeue_ok r q empty n b HI ltac:(lia)) as Hpost.
  unfold simulates, deq_post, deq_result in *. cbn [aq_step]. unfold aq_dequeue.
  cbn [aq_cap aq_mark aq_single aq_items abs].
  destruct (negb (sc_dequeue (cons r)) && (n =? 0)) eqn:E0; destruct Hdisp as [Hbulk Hburst].
  { apply andb_true_iff in E0 as [_ ->%Z.eqb_eq]. exists r, q.
    destruct b; cbn [ring_step]; rewrite ?Hbulk, ?Hburst; cbn; rewrite ?(proj2 (Z.leb_le 0 _)), ?Z.min_l by lia; done. }
  destruct b; cbn [ring_step]; rewrite ?Hbulk, ?Hburst; clear Hbulk Hburst.
  - destruct (rte_ring_sc_do_dequeue r empty n RTE_RING_QUEUE_FIXED) as [[r' t] ret]; cbn.
    destruct (Z.leb_spec n (Z.of_nat (length q))).
    + destruct Hpost as (->&Hg&Hinv&Ht). exists r', (drop (Z.to_nat n) q).
      rewrite (abs_geometry r r') by done. split_and!; [|done|done]. cbn.
      rewrite (table_list_take t q n); [done|lia|]. intros i Hi. by rewrite Ht, decide_True.
    + injection Hpost as -> -> ->. by exists r, q.
  - destruct (rte_ring_sc_do_dequeue r empty n RTE_RING_QUEUE_VARIABLE) as [[r' t] ret]; cbn.
    destruct ((Z.min n (Z.of_nat (length q)) =? 0) && negb (n =? 0)) eqn:E1.
    + apply andb_true_iff in E1 as [E1%Z.eqb_eq _]. injection Hpost as -> -> ->. exists r, q. rewrite E1. by destruct q.
    + destruct Hpost as (->&Hg&Hinv&Ht). exists r', (drop (Z.to_nat (Z.min n (Z.of_nat (length q)))) q).
      rewrite (abs_geometry r r') by done. split_and!; [|done|done]. cbn.
      rewrite (table_list_take t q); [done|lia|]. intros i Hi. by rewrite Ht, decide_True.
Qed.

Lemma water_mark_step_ok r q count :
  ring_inv r q -> op_args_ok (OpWaterMark count) -> simulates r q (OpWaterMark count).
Proof.
  intros HI Hop. cbn in Hop. pose proof (inv_size r q HI). unfold simulates. cbn.
  unfold rte_ring_set_water_mark, aq_water_mark. cbn.
  destruct (Z.leb_spec (p_size (prod r)) count), (Z.ltb_spec (p_size (prod r) - 1) count);
    try lia; [by exists r, q|]. cbn. destruct (Z.eqb_spec count 0).
  - eexists _, q. split_and!; [done| |unfold abs; cbn; f_equal; lia]. destruct HI. split; try done. cbn. lia.
  - eexists _, q. split_and!; [done| |done]. destruct HI. split; try done. cbn. lia.
Qed.

Lemma ring_run_ok ops r q :
  ring_inv r q -> Forall op_args_ok ops ->
  exists r' q', ring_run r ops = Some (r', snd (aq_run (abs r q) ops)) /\
    ring_inv r' q' /\ abs r' q' = fst (aq_run (abs r q) ops).
Proof.
  revert r q. induction ops as [|op ops IH]; intros r q HI Hok; [by exists r, q|].
  apply Forall_cons in Hok as [Hop Hok].
  assert (Hsim : simulates r q op).
  { destruct op; [by apply enqueue_step_ok|by apply dequeue_step_ok|by apply water_mark_step_ok]. }
  destruct Hsim as (r1&q1&E1&HI1&Ha1). destruct (IH r1 q1 HI1 Hok) as (r2&q2&E2&HI2&Ha2).
  cbn [ring_run aq_run]. rewrite E1. cbn. rewrite E2. rewrite Ha1 in Ha2 |- *.
  destruct (aq_step (abs r q) op) as [a1 o1]. cbn in *.
  destruct (aq_run a1 ops) as [a2 os]. cbn in *. by exists r2, q2.
Qed.

(** ** The theorems *)

(** C6: On a ring created with a valid size and any flags, every sequence of
    bulk and burst enqueues (of fewer than [2^31] objects), dequeues and water
    mark changes, calls for no object included, terminates and gives exactly
    the return values and objects of a bounded FIFO queue of capacity
    [count - 1], across any number of wrap-arounds of the array and of the
    32-bit indexes.  An enqueue of no object returns 0 on a multi-producer ring,
    and reports the water mark on a single-producer ring. *)
Theorem ring_refines_queue (mem : gmap Z Z) (count fl : Z) (ops : list ring_op) :
  0 < count < 2 ^ 32 -> 0 <= rte_ring_get_memsize count -> Forall op_args_ok ops ->
  let start := AQueue (count - 1) count (negb (Z.land fl RING_F_SP_ENQ =? 0)) [] in
  exists r', ring_run (fst (rte_ring_init mem count fl)) ops = Some (r', snd (aq_run start ops)) /\
    ring_inv r' (aq_items (fst (aq_run start ops))).
Proof.
  intros Hc Hm Hops start. pose proof (init_ok mem count fl Hc Hm) as HI.
  destruct (ring_run_ok ops _ [] HI Hops) as (r'&q'&E&HI'&Ha).
  exists r'. change (abs _ []) with start in E, Ha. by rewrite <- Ha.
Qed.

Definition demo_ring_ops : list ring_op :=
  [OpEnqueue RTE_RING_QUEUE_FIXED [1; 2; 3; 4; 5]; OpDequeue RTE_RING_QUEUE_FIXED 4;
   OpEnqueue RTE_RING_QUEUE_VARIABLE [6; 7; 8; 9; 10; 11; 12; 13]; OpEnqueue RTE_RING_QUEUE_FIXED [];
   OpDequeue RTE_RING_QUEUE_VARIABLE 20; OpDequeue RTE_RING_QUEUE_FIXED 0].

Lemma ring_refines_queue_witness :
  exists r', ring_run (fst (rte_ring_init empty 8 0)) demo_ring_ops =
      Some (r', [(0, []); (0, [1; 2; 3; 4]); (6, []); (0, []); (7, [5; 6; 7; 8; 9; 10; 11]); (0, [])]) /\
    ring_inv r' [].
Proof.
  apply (ring_refines_queue empty 8 0 demo_ring_ops); [lia|vm_compute; discriminate|].
  repeat constructor; cbn; lia.
Defined.

(** A single-producer enqueue on every branch: a fixed enqueue takes all
    objects or none (-ENOBUFS), a variable one as many as fit; the objects are
    appended in order; and a successful enqueue reports the quota exactly when
    the ring then holds at least [watermark] objects. *)
Theorem sp_enqueue_correct (r : rte_ring) (q objs : list Z) (n : Z)
    (b : rte_ring_queue_behavior) :
  ring_inv r q -> 0 <= n <= Z.of_nat (length objs) ->
  enq_post r q objs n b (rte_ring_sp_do_enqueue r objs n b).
Proof. apply sp_enqueue_ok. Qed.

Definition demo_ring : rte_ring := fst (rte_ring_init empty 8 0).

Lemma demo_ring_inv : ring_inv demo_ring [].
Proof. apply init_ok; [lia|vm_compute; discriminate]. Qed.

Lemma sp_enqueue_correct_witness :
  enq_post demo_ring [] [4; 5; 6] 3 RTE_RING_QUEUE_FIXED
    (rte_ring_sp_do_enqueue demo_ring [4; 5; 6] 3 RTE_RING_QUEUE_FIXED).
Proof.
  apply (sp_enqueue_correct demo_ring [] [4; 5; 6] 3 RTE_RING_QUEUE_FIXED);
    [apply demo_ring_inv|cbn; lia].
Defined.

(** The unrolled and wrapping copy macros are the plain modular copies,
    and they stay inside the array: [ENQUEUE_PTRS] changes only the [n] cells
    from the head on, modulo the size, and [DEQUEUE_PTRS] reads exactly those
    cells into the first [n] places of the table. *)
Theorem copies_are_modular (r : rte_ring) (k head n : Z) (objs : list Z) (t : gmap Z Z) :
  0 <= k <= 27 -> p_size (prod r) = 2 ^ k -> c_size (cons r) = 2 ^ k -> 0 <= n <= 2 ^ k ->
  (forall o, 0 <= o < n ->
     ENQUEUE_PTRS r objs head n (2 ^ k - 1) !!! ((head + o) mod 2 ^ k) = objs !!! Z.to_nat o) /\
  (forall j, ~ (0 <= j < 2 ^ k /\ (j - head) mod 2 ^ k < n) ->
     ENQUEUE_PTRS r objs head n (2 ^ k - 1) !!! j = ring r !!! j) /\
  (forall i, DEQUEUE_PTRS r t head n (2 ^ k - 1) !!! i =
     if decide (0 <= i < n) then ring r !!! ((head + i) mod 2 ^ k) else t !!! i).
Proof.
  intros Hk Hp Hc Hn. split_and!.
  - intros o Ho. rewrite (ENQUEUE_PTRS_cells r k Hk) by done. cbv zeta.
    rewrite Zminus_mod_idemp_l. replace (head + o - head) with o by lia.
    pose proof (Z.mod_pos_bound (head + o) (2 ^ k) ltac:(lia)).
    by rewrite (Z.mod_small o), decide_True by lia.
  - intros j Hj. rewrite (ENQUEUE_PTRS_cells r k Hk) by done. cbv zeta. by rewrite decide_False.
  - intros i. by apply DEQUEUE_PTRS_cells.
Qed.

Lemma copies_are_modular_witness :
  ENQUEUE_PTRS demo_ring [1; 2; 3; 4; 5; 6] 5 6 7 !!! ((5 + 4) mod 2 ^ 3) = 5.
Proof.
  destruct (copies_are_modular demo_ring 3 5 6 [1; 2; 3; 4; 5; 6] empty) as [H _];
    [lia|reflexivity|reflexivity|lia|]. apply (H 4). lia.
Defined.

(** The observers report the queue: count, free count, full and empty. *)
Theorem observers_correct (r : rte_ring) (q : list Z) :
  ring_inv r q ->
  rte_ring_count r = Z.of_nat (length q) /\
  rte_ring_free_count r = free_of r q /\
  (rte_ring_empty r = true <-> q = []) /\
  (rte_ring_full r = true <-> Z.of_nat (length q) = p_size (prod r) - 1).
Proof.
  intros HI. pose proof (inv_size r q HI).
  destruct HI as [(k&Hk&Hs) Hcs Hmask [_ Hpt] [_ Hct] Hl Hcap _ _].
  assert (Hfree : rte_ring_free_count r = free_of r q).
  { unfold rte_ring_free_count, free_of. rewrite Hmask, Hs, land_mask by lia.
    replace (c_tail (cons r) - p_tail (prod r) - 1)
      with (- (1 + (p_tail (prod r) - c_tail (cons r)))) by lia.
    rewrite u32_mod_pow by lia. rewrite <- (Z_mod_plus_full _ 1), <- Hs.
    set (c := p_tail (prod r) - c_tail (cons r)) in *. unfold u32, wrap in Hl.
    replace (- (1 + c) + 1 * p_size (prod r)) with (p_size (prod r) - 1 - c) by lia.
    rewrite <- Zminus_mod_idemp_r. rewrite Hs at 2. rewrite <- (u32_mod_pow c k) by lia.
    unfold u32, wrap. rewrite Hl, <- Hs. rewrite (Z.mod_small (Z.of_nat _)) by lia.
    apply Z.mod_small. lia. }
  split_and!; [|done|..].
  - unfold rte_ring_count. rewrite Hmask, Hl, Hs, land_mask by lia. apply Z.mod_small. lia.
  - unfold rte_ring_empty. rewrite Z.eqb_eq. split.
    + intros E. rewrite E, Z.sub_diag in Hl. by destruct q.
    + intros ->. cbn in Hl. unfold u32, wrap in Hl. apply Z.mod_divide in Hl as [x Hx]; lia.
  - unfold rte_ring_full. change (Z.land _ _) with (rte_ring_free_count r).
    rewrite Hfree, Z.eqb_eq. unfold free_of. lia.
Qed.

Lemma observers_correct_witness :
  rte_ring_count demo_ring = 0 /\ rte_ring_free_count demo_ring = free_of demo_ring [] /\
  (rte_ring_empty demo_ring = true <-> ([] : list Z) = []) /\
  (rte_ring_full demo_ring = true <-> Z.of_nat 0 = p_size (prod demo_ring) - 1).
Proof. apply (observers_correct demo_ring [] demo_ring_inv). Defined.

(** [rte_ring_get_memsize] accepts a count of 0, which is not a power of
    two; the ring made with it has no cells and a mask of [2^32 - 1], and an
    enqueue of one object on it succeeds and writes the cell 0, past the end
    of the memory of the ring. *)
Theorem ring_of_size_zero (fl x : Z) :
  rte_ring_get_memsize 0 = sizeof_rte_ring /\
  let r := fst (rte_ring_init empty 0 fl) in
  p_size (prod r) = 0 /\
  let '(r', ret) := rte_ring_sp_do_enqueue r [x] 1 RTE_RING_QUEUE_FIXED in
  ring r' !! 0 = Some x /\ ret <> - ENOBUFS.
Proof. split; [done|]. split; [done|]. cbn. split; [done|]. discriminate. Qed.
