(* ===== verification/SlotQueue.v ===== *)
(** * The interface of the queue of free slots

    What [librte_hash] relies on when it keeps the free slots of its key table
    in a ring: the ring operations it calls and the laws that relate them to a
    list of bounded length.  The ring of [rte_ring.h], used by one thread and
    without a water mark, is an instance. *)

From S2P Require Import Prelude Ring RingProofs.

(** [sq_dequeue] gives the object when the call returns 0; the burst functions
    fill the first places of the object table and return how many. *)
Class SlotQueue (Q : Type) := {
  sq_sp_enqueue : Q -> Z -> Q;
  sq_sc_dequeue : Q -> Q * option Z;
  sq_dequeue : Q -> Q * option Z;
  sq_mp_enqueue_burst : Q -> list Z -> Z -> Q * Z;
  sq_mc_dequeue_burst : Q -> gmap Z Z -> Z -> Q * gmap Z Z * Z
}.

(** [sq_repr q c l]: the queue [q] of capacity [c] holds the slots [l]. *)
Class SlotQueueLaws (Q : Type) `{SlotQueue Q} := {
  sq_repr : Q -> Z -> list Z -> Prop;
  sq_length_law q c l : sq_repr q c l -> Z.of_nat (length l) <= c;
  sq_enqueue_law q c l x :
    sq_repr q c l -> Z.of_nat (length l) < c -> sq_repr (sq_sp_enqueue q x) c (l ++ [x]);
  sq_sc_dequeue_law q c l :
    sq_repr q c l -> exists q', sq_sc_dequeue q = (q', head l) /\ sq_repr q' c (tail l);
  sq_dequeue_law q c l :
    sq_repr q c l -> exists q', sq_dequeue q = (q', head l) /\ sq_repr q' c (tail l);
  sq_enqueue_burst_law q c l objs n :
    sq_repr q c l -> 0 < n <= Z.of_nat (length objs) -> Z.of_nat (length l) + n <= c ->
    exists q', sq_mp_enqueue_burst q objs n = (q', n) /\ sq_repr q' c (l ++ take (Z.to_nat n) objs);
  sq_dequeue_burst_law q c l t n (m := Z.min n (Z.of_nat (length l))) :
    sq_repr q c l -> 0 < n -> exists q' t', sq_mc_dequeue_burst q t n = (q', t', m) /\
      sq_repr q' c (drop (Z.to_nat m) l) /\
      forall i, t' !!! i = if decide (0 <= i < m) then l !!! Z.to_nat i else t !!! i
}.

(** ** The ring *)

(** A dequeue of one object through the out parameter. *)
Definition one_obj (res : rte_ring * gmap Z Z * Z) : rte_ring * option Z :=
  let '(r, t, ret) := res in (r, if ret =? 0 then Some (t !!! 0) else None).

#[export] Instance ring_slot_queue : SlotQueue rte_ring := {
  sq_sp_enqueue r x := (rte_ring_sp_enqueue r x).1;
  sq_sc_dequeue r := one_obj (rte_ring_sc_dequeue r empty);
  sq_dequeue r := default (r, None) (one_obj <$> rte_ring_dequeue 1 r empty);
  sq_mp_enqueue_burst r objs n := default (r, 0) (rte_ring_mp_enqueue_burst 1 r objs n);
  sq_mc_dequeue_burst r t n := default (r, t, 0) (rte_ring_mc_dequeue_burst 1 r t n)
}.

(** A ring whose water mark is its size. *)
Definition ring_repr (r : rte_ring) (c : Z) (l : list Z) : Prop :=
  ring_inv r l /\ c = p_size (prod r) - 1 /\ watermark (prod r) = p_size (prod r).

Lemma ring_repr_step r c l r' l' :
  ring_repr r c l -> same_geometry r r' -> ring_inv r' l' -> ring_repr r' c l'.
Proof. intros (_&->&Hw) (_&Hs&_&Hw'&_) HI. split; [done|]. rewrite Hs, Hw'. done. Qed.

Lemma sc_dequeue_one r c l :
  ring_repr r c l ->
  exists r', one_obj (rte_ring_sc_dequeue r empty) = (r', head l) /\ ring_repr r' c (tail l).
Proof.
  intros HR. pose proof HR as [HI _].
  pose proof (sc_dequeue_ok r l empty 1 RTE_RING_QUEUE_FIXED HI ltac:(lia)) as Hd.
  unfold rte_ring_sc_dequeue, rte_ring_sc_dequeue_bulk. destruct (rte_ring_sc_do_dequeue _ _ _ _) as [[r' t] ret].
  unfold deq_post, deq_result in Hd. destruct l as [|x l]; cbn in Hd.
  - injection Hd as -> -> ->. by exists r.
  - rewrite (proj2 (Z.leb_le 1 _)) in Hd by lia. destruct Hd as (->&Hg&HI'&Ht).
    exists r'. cbn. rewrite Ht. cbn. split; [done|]. by eapply ring_repr_step.
Qed.

#[export] Instance ring_slot_queue_laws : SlotQueueLaws rte_ring.
Proof.
  refine {| sq_repr := ring_repr |}.
  - intros r c l (HI&->&_). pose proof (ri_cap _ _ HI). lia.
  - intros r c l x HR Hl. pose proof HR as (HI&Hc&_).
    pose proof (sp_enqueue_ok r l [x] 1 RTE_RING_QUEUE_FIXED HI ltac:(cbn; lia)) as He.
    unfold enq_post, enq_result, free_of in He. rewrite (proj2 (Z.leb_le 1 _)) in He by lia.
    destruct He as (_&Hg&HI'). by eapply ring_repr_step.
  - apply sc_dequeue_one.
  - intros r c l HR. destruct (sc_dequeue_one r c l HR) as (r'&E&HR'). exists r'. split; [|done].
    unfold sq_dequeue, ring_slot_queue, rte_ring_dequeue, rte_ring_mc_dequeue, rte_ring_mc_dequeue_bulk.
    rewrite (mc_dequeue_alone 0 r l) by (apply HR || done). by destruct (sc_dequeue (cons r)).
  - intros r c l objs n HR Hn Hc. pose proof HR as (HI&Ec&Hw).
    unfold sq_mp_enqueue_burst, ring_slot_queue, rte_ring_mp_enqueue_burst. rewrite (mp_enqueue_alone 0 r l) by (done || lia).
    pose proof (sp_enqueue_ok r l objs n RTE_RING_QUEUE_VARIABLE HI ltac:(lia)) as He.
    unfold enq_post, enq_result, free_of in He. rewrite Z.min_l in He by lia.
    rewrite (proj2 (Z.eqb_neq n 0)) in He by lia. cbn [andb] in He.
    rewrite (proj2 (Z.leb_gt (watermark (prod r)) _)) in He by lia.
    destruct (rte_ring_sp_do_enqueue _ _ _ _) as [r' ret]. cbn in *. destruct He as (->&Hg&HI').
    exists r'. pose proof (inv_size _ _ HI). rewrite u32_small by lia. split; [done|]. by eapply ring_repr_step.
  - intros r c l t n m HR Hn. pose proof HR as (HI&Ec&Hw).
    unfold sq_mc_dequeue_burst, ring_slot_queue, rte_ring_mc_dequeue_burst. rewrite (mc_dequeue_alone 0 r l) by (done || lia).
    pose proof (sc_dequeue_ok r l t n RTE_RING_QUEUE_VARIABLE HI ltac:(lia)) as Hd.
    unfold deq_post, deq_result in Hd. fold m in Hd. cbn.
    destruct (rte_ring_sc_do_dequeue _ _ _ _) as [[r' t'] ret].
    destruct ((m =? 0) && negb (n =? 0)) eqn:E.
    + injection Hd as -> -> ->. apply andb_true_iff in E as [->%Z.eqb_eq _]. exists r, t.
      split; [done|]. split; [done|]. intros i. by rewrite decide_False by lia.
    + destruct Hd as (->&Hg&HI'&Ht). exists r', t'. split; [done|]. split; [|done]. by eapply ring_repr_step.
Defined.
