(* ===== verification/Hash.v ===== *)
(** * The cuckoo hash table: data and operations

    Model of [librte_hash/rte_cuckoo_hash.c] (without [RTE_LIBRTE_HASH_DEBUG]:
    the parameter tests are compiled out).  A key hashes to a primary and a
    secondary bucket of four entries; an entry holds both signatures and the
    index of a slot in the key table.  The free slots of the key table are in a
    queue [Q] (the ring of [rte_ring.h]), and with transactional memory support
    also in a cache per core.

    The arrays of the buckets are maps from (bucket, entry); the key table is a
    map from the byte offset of a slot, because the code computes that offset
    in two different widths.  Keys are the [key_len] bytes the caller passes;
    zeroed memory is the default of the maps. *)

From S2P Require Import Prelude Bits SlotQueue.

Definition RTE_HASH_BUCKET_ENTRIES : Z := 4.
Definition LCORE_CACHE_SIZE : Z := 8.
Definition RTE_MAX_LCORE : Z := 128.
Definition RTE_HASH_ENTRIES_MAX : Z := 2 ^ 30.
Definition RTE_HASH_LOOKUP_BULK_MAX : Z := 64.

Inductive cmp_jump_table_case :=
  KEY_CUSTOM | KEY_16_BYTES | KEY_32_BYTES | KEY_48_BYTES | KEY_64_BYTES | KEY_80_BYTES
| KEY_96_BYTES | KEY_112_BYTES | KEY_128_BYTES | KEY_OTHER_BYTES.

Record lcore_cache := LCache { len : Z; objs : gmap Z Z }.

#[export] Instance lcore_cache_inhabited : Inhabited lcore_cache := populate (LCache 0 empty).

(** [struct rte_hash_signatures]; the member [sig] is both halves. *)
Record rte_hash_signatures := Sig { current : Z; alt : Z }.

#[export] Instance signatures_inhabited : Inhabited rte_hash_signatures := populate (Sig 0 0).

(** [sig == NULL_SIGNATURE]. *)
Definition null_sig (s : rte_hash_signatures) : bool := (current s =? 0) && (alt s =? 0).

Record rte_hash_key := HKey { pdata : Z; hkey : list Z }.

#[export] Instance hash_key_inhabited : Inhabited rte_hash_key := populate (HKey 0 []).

Record rte_hash (Q : Type) := Hash {
  entries : Z;
  num_buckets : Z;
  key_len : Z;
  hash_func : list Z -> Z -> Z -> Z;
  hash_func_init_val : Z;
  rte_hash_custom_cmp_eq : list Z -> list Z -> Z -> Z;
  cmp_jump_table_idx : cmp_jump_table_case;
  bucket_bitmask : Z;
  key_entry_size : Z;
  free_slots : Q;
  key_store : gmap Z rte_hash_key;
  signatures : gmap (Z * Z) rte_hash_signatures;
  key_idx : gmap (Z * Z) Z;
  flag : gmap (Z * Z) Z;
  hw_trans_mem_support : bool;
  local_free_slots : gmap Z lcore_cache
}.

Arguments Hash {Q}.
Arguments entries {Q}.
Arguments num_buckets {Q}.
Arguments key_len {Q}.
Arguments hash_func {Q}.
Arguments hash_func_init_val {Q}.
Arguments rte_hash_custom_cmp_eq {Q}.
Arguments cmp_jump_table_idx {Q}.
Arguments bucket_bitmask {Q}.
Arguments key_entry_size {Q}.
Arguments free_slots {Q}.
Arguments key_store {Q}.
Arguments signatures {Q}.
Arguments key_idx {Q}.
Arguments flag {Q}.
Arguments hw_trans_mem_support {Q}.
Arguments local_free_slots {Q}.

(** ** Key comparison *)

(** The first [n] bytes of memory that starts with [k] and goes on with zeros. *)
Definition bytes (n : Z) (k : list Z) : list Z := resize (Z.to_nat n) 0 k.

(** [memcmp] and the vector compare functions: 0 when [n] bytes are equal. *)
Definition cmp_bytes (n : Z) (k1 k2 : list Z) : Z :=
  if bool_decide (bytes n k1 = bytes n k2) then 0 else 1.

Definition cmp_jump_table (c : cmp_jump_table_case) (key1 key2 : list Z) (key_len : Z) : Z :=
  match c with
  | KEY_16_BYTES => cmp_bytes 16 key1 key2
  | KEY_32_BYTES => cmp_bytes 32 key1 key2
  | KEY_48_BYTES => cmp_bytes 48 key1 key2
  | KEY_64_BYTES => cmp_bytes 64 key1 key2
  | KEY_80_BYTES => cmp_bytes 80 key1 key2
  | KEY_96_BYTES => cmp_bytes 96 key1 key2
  | KEY_112_BYTES => cmp_bytes 112 key1 key2
  | KEY_128_BYTES => cmp_bytes 128 key1 key2
  | KEY_OTHER_BYTES | KEY_CUSTOM => cmp_bytes key_len key1 key2
  end.

(** The selection in [rte_hash_create]. *)
Definition select_cmp (key_len : Z) : cmp_jump_table_case :=
  if key_len =? 16 then KEY_16_BYTES
  else if key_len =? 32 then KEY_32_BYTES
  else if key_len =? 48 then KEY_48_BYTES
  else if key_len =? 64 then KEY_64_BYTES
  else if key_len =? 80 then KEY_80_BYTES
  else if key_len =? 96 then KEY_96_BYTES
  else if key_len =? 112 then KEY_112_BYTES
  else if key_len =? 128 then KEY_128_BYTES
  else KEY_OTHER_BYTES.

Definition rte_hash_secondary_hash (primary_hash : Z) : Z :=
  let tag := Z.shiftr primary_hash 12 in
  Z.lxor primary_hash (u32 ((tag + 1) * 0x5bd1e995)).

Section operations.
Context {Q : Type} `{SlotQueue Q}.
Implicit Type (h : rte_hash Q).

(** ** Assignments *)

Definition set_buckets h (s : gmap (Z * Z) rte_hash_signatures) (k : gmap (Z * Z) Z) : rte_hash Q :=
  Hash (entries h) (num_buckets h) (key_len h) (hash_func h) (hash_func_init_val h)
    (rte_hash_custom_cmp_eq h) (cmp_jump_table_idx h) (bucket_bitmask h) (key_entry_size h)
    (free_slots h) (key_store h) s k (flag h) (hw_trans_mem_support h) (local_free_slots h).
Definition set_flags h (f : gmap (Z * Z) Z) : rte_hash Q :=
  Hash (entries h) (num_buckets h) (key_len h) (hash_func h) (hash_func_init_val h)
    (rte_hash_custom_cmp_eq h) (cmp_jump_table_idx h) (bucket_bitmask h) (key_entry_size h)
    (free_slots h) (key_store h) (signatures h) (key_idx h) f (hw_trans_mem_support h)
    (local_free_slots h).
Definition set_keys h (k : gmap Z rte_hash_key) : rte_hash Q :=
  Hash (entries h) (num_buckets h) (key_len h) (hash_func h) (hash_func_init_val h)
    (rte_hash_custom_cmp_eq h) (cmp_jump_table_idx h) (bucket_bitmask h) (key_entry_size h)
    (free_slots h) k (signatures h) (key_idx h) (flag h) (hw_trans_mem_support h)
    (local_free_slots h).
Definition set_free h (q : Q) (c : gmap Z lcore_cache) : rte_hash Q :=
  Hash (entries h) (num_buckets h) (key_len h) (hash_func h) (hash_func_init_val h)
    (rte_hash_custom_cmp_eq h) (cmp_jump_table_idx h) (bucket_bitmask h) (key_entry_size h)
    q (key_store h) (signatures h) (key_idx h) (flag h) (hw_trans_mem_support h) c.
Definition set_entry h (b i : Z) (s : rte_hash_signatures) (k : Z) : rte_hash Q :=
  set_buckets h (<[(b, i) := s]> (signatures h)) (<[(b, i) := k]> (key_idx h)).

Definition rte_hash_set_cmp_func h (func : list Z -> list Z -> Z -> Z) : rte_hash Q :=
  Hash (entries h) (num_buckets h) (key_len h) (hash_func h) (hash_func_init_val h)
    func (cmp_jump_table_idx h) (bucket_bitmask h) (key_entry_size h)
    (free_slots h) (key_store h) (signatures h) (key_idx h) (flag h) (hw_trans_mem_support h)
    (local_free_slots h).

Definition rte_hash_cmp_eq (key1 key2 : list Z) h : Z :=
  match cmp_jump_table_idx h with
  | KEY_CUSTOM => rte_hash_custom_cmp_eq h key1 key2 (key_len h)
  | c => cmp_jump_table c key1 key2 (key_len h)
  end.

Definition rte_hash_hash h (key : list Z) : Z := hash_func h key (key_len h) (hash_func_init_val h).

Definition bucket h (sig : Z) : Z := Z.land sig (bucket_bitmask h).

(** The slot of an entry: the offset is a 32-bit product. *)
Definition entry_key h (b i : Z) : rte_hash_key :=
  key_store h !!! u32 (key_idx h !!! (b, i) * key_entry_size h).

(** The first of the four entries that satisfies a test. *)
Definition find_entry (p : Z -> bool) : option Z := find_up 4 0 p.

(** ** Free slots *)

(** A slot for a new key; [None] when there is none. *)
Definition get_slot h (lcore_id : Z) : rte_hash Q * option Z :=
  if hw_trans_mem_support h then
    let c := local_free_slots h !!! lcore_id in
    let '(q, c1) :=
      if len c =? 0 then
        let '(q, t, n_slots) := sq_mc_dequeue_burst (free_slots h) (objs c) LCORE_CACHE_SIZE in
        (q, LCache n_slots t)
      else (free_slots h, c) in
    if len c1 =? 0 then (set_free h q (local_free_slots h), None)
    else
      let l := len c1 - 1 in
      (set_free h q (<[lcore_id := LCache l (objs c1)]> (local_free_slots h)), Some (objs c1 !!! l))
  else
    let '(q, x) := sq_sc_dequeue (free_slots h) in (set_free h q (local_free_slots h), x).

Definition enqueue_slot_back h (lcore_id slot_id : Z) : rte_hash Q :=
  if hw_trans_mem_support h then
    let c := local_free_slots h !!! lcore_id in
    set_free h (free_slots h)
      (<[lcore_id := LCache (len c + 1) (<[len c := slot_id]> (objs c))]> (local_free_slots h))
  else set_free h (sq_sp_enqueue (free_slots h) slot_id) (local_free_slots h).

(** ** Making space *)

(** The first entry of the bucket whose alternative bucket has an empty entry. *)
Definition room h (bkt i : Z) : option Z :=
  find_entry (fun j => null_sig (signatures h !!! (bucket h (alt (signatures h !!! (bkt, i))), j))).
Definition first_room h (bkt : Z) : option Z :=
  find_entry (fun i => match room h bkt i with Some _ => true | None => false end).

(** The three assignments that copy entry [i] of [bkt] to entry [j] of its
    alternative bucket [nb], with its signatures exchanged. *)
Definition push_entry h (bkt i nb j : Z) : rte_hash Q :=
  let s := signatures h in
  let s1 := <[(nb, j) := Sig (current (s !!! (nb, j))) (current (s !!! (bkt, i)))]> s in
  let s2 := <[(nb, j) := Sig (alt (s1 !!! (bkt, i))) (alt (s1 !!! (nb, j)))]> s1 in
  set_buckets h s2 (<[(nb, j) := key_idx h !!! (bkt, i)]> (key_idx h)).

Definition set_flag h (b i x : Z) : rte_hash Q := set_flags h (<[(b, i) := x]> (flag h)).

Fixpoint make_space_bucket (fuel : nat) h (bkt : Z) : option (rte_hash Q * Z) :=
  match fuel with
  | O => None
  | S fuel' =>
      let next_bkt i := bucket h (alt (signatures h !!! (bkt, i))) in
      match first_room h bkt with
      | Some i =>
          let j := default 0 (room h bkt i) in
          Some (push_entry h bkt i (next_bkt i) j, i)
      | None =>
          match find_entry (fun i => flag h !!! (bkt, i) =? 0) with
          | None => Some (h, - ENOSPC)
          | Some i =>
              '(h2, ret) ← make_space_bucket fuel' (set_flag h bkt i 1) (next_bkt i);
              let h3 := set_flag h2 bkt i 0 in
              Some (if 0 <=? ret then (push_entry h3 bkt i (next_bkt i) ret, i) else (h3, ret))
          end
      end
  end.

(** ** Adding a key *)

(** The entry that holds the key in its primary or in its secondary bucket. *)
Definition add_find_prim h (key : list Z) (sig alt_hash : Z) : option Z :=
  let b := bucket h sig in
  find_entry (fun i =>
    let s := signatures h !!! (b, i) in
    (current s =? sig) && (alt s =? alt_hash) &&
    (rte_hash_cmp_eq key (hkey (entry_key h b i)) h =? 0)).
Definition add_find_sec h (key : list Z) (sig alt_hash : Z) : option Z :=
  let b := bucket h alt_hash in
  find_entry (fun i =>
    let s := signatures h !!! (b, i) in
    (alt s =? sig) && (current s =? alt_hash) &&
    (rte_hash_cmp_eq key (hkey (entry_key h b i)) h =? 0)).

(** The key is there: the slot goes back and the data is updated. *)
Definition update_data h (lcore_id slot_id b i data : Z) : rte_hash Q * Z :=
  let h1 := enqueue_slot_back h lcore_id slot_id in
  let off := u32 (key_idx h !!! (b, i) * key_entry_size h) in
  (set_keys h1 (<[off := HKey data (hkey (entry_key h b i))]> (key_store h1)),
   key_idx h !!! (b, i) - 1).

(** Every push of [make_space_bucket] sets one flag of the table. *)
Definition space_fuel h : nat := Z.to_nat (num_buckets h * RTE_HASH_BUCKET_ENTRIES + 1).

Definition rte_hash_add_key_with_hash_ h (lcore_id : Z) (key : list Z) (sig data : Z) :
    option (rte_hash Q * Z) :=
  let prim := bucket h sig in
  let alt_hash := rte_hash_secondary_hash sig in
  let sec := bucket h alt_hash in
  match get_slot h lcore_id with
  | (h, None) => Some (h, - ENOSPC)
  | (h, Some slot_id) =>
      let new_idx := u32 slot_id in
      match add_find_prim h key sig alt_hash with
      | Some i => Some (update_data h lcore_id slot_id prim i data)
      | None =>
          match add_find_sec h key sig alt_hash with
          | Some i => Some (update_data h lcore_id slot_id sec i data)
          | None =>
              let h1 := set_keys h
                (<[u64 (slot_id * key_entry_size h) := HKey data (bytes (key_len h) key)]>
                   (key_store h)) in
              match find_entry (fun i => null_sig (signatures h1 !!! (prim, i))) with
              | Some i => Some (set_entry h1 prim i (Sig sig alt_hash) new_idx, new_idx - 1)
              | None =>
                  '(h2, ret) ← make_space_bucket (space_fuel h1) h1 prim;
                  Some (if 0 <=? ret
                        then (set_entry h2 prim ret (Sig sig alt_hash) new_idx, new_idx - 1)
                        else (enqueue_slot_back h2 lcore_id new_idx, ret))
              end
          end
      end
  end.

Definition rte_hash_add_key_with_hash h (lcore_id : Z) (key : list Z) (sig : Z) :=
  rte_hash_add_key_with_hash_ h lcore_id key sig 0.
Definition rte_hash_add_key h (lcore_id : Z) (key : list Z) :=
  rte_hash_add_key_with_hash_ h lcore_id key (rte_hash_hash h key) 0.
Definition rte_hash_add_key_with_hash_data h (lcore_id : Z) (key : list Z) (sig data : Z) :
    option (rte_hash Q * Z) :=
  '(h', ret) ← rte_hash_add_key_with_hash_ h lcore_id key sig data;
  Some (h', if 0 <=? ret then 0 else ret).
Definition rte_hash_add_key_data h (lcore_id : Z) (key : list Z) (data : Z) :
    option (rte_hash Q * Z) :=
  '(h', ret) ← rte_hash_add_key_with_hash_ h lcore_id key (rte_hash_hash h key) data;
  Some (h', if 0 <=? ret then 0 else ret).

(** ** Lookup *)

Definition find_prim h (key : list Z) (sig : Z) : option Z :=
  let b := bucket h sig in
  find_entry (fun i =>
    let s := signatures h !!! (b, i) in
    (current s =? sig) && negb (null_sig s) &&
    (rte_hash_cmp_eq key (hkey (entry_key h b i)) h =? 0)).

Definition lookup_find_sec h (key : list Z) (sig : Z) : option Z :=
  let alt_hash := rte_hash_secondary_hash sig in
  let b := bucket h alt_hash in
  find_entry (fun i =>
    let s := signatures h !!! (b, i) in
    (current s =? alt_hash) && (alt s =? sig) &&
    (rte_hash_cmp_eq key (hkey (entry_key h b i)) h =? 0)).

(** The return value and what is stored in [*data]. *)
Definition rte_hash_lookup_with_hash_ h (key : list Z) (sig : Z) : Z * option Z :=
  match find_prim h key sig with
  | Some i =>
      let b := bucket h sig in
      (key_idx h !!! (b, i) - 1, Some (pdata (entry_key h b i)))
  | None =>
      match lookup_find_sec h key sig with
      | Some i =>
          let b := bucket h (rte_hash_secondary_hash sig) in
          (key_idx h !!! (b, i) - 1, Some (pdata (entry_key h b i)))
      | None => (- ENOENT, None)
      end
  end.

Definition rte_hash_lookup_with_hash h (key : list Z) (sig : Z) : Z :=
  (rte_hash_lookup_with_hash_ h key sig).1.
Definition rte_hash_lookup h (key : list Z) : Z :=
  (rte_hash_lookup_with_hash_ h key (rte_hash_hash h key)).1.
Definition rte_hash_lookup_with_hash_data h (key : list Z) (sig : Z) : Z * option Z :=
  rte_hash_lookup_with_hash_ h key sig.
Definition rte_hash_lookup_data h (key : list Z) : Z * option Z :=
  rte_hash_lookup_with_hash_ h key (rte_hash_hash h key).

(** ** Deletion *)

Definition remove_entry h (lcore_id bkt i : Z) : rte_hash Q :=
  let h1 := set_buckets h (<[(bkt, i) := Sig 0 0]> (signatures h)) (key_idx h) in
  let slot := key_idx h !!! (bkt, i) in
  if hw_trans_mem_support h then
    let c := local_free_slots h !!! lcore_id in
    let '(q, c1) :=
      if len c =? LCORE_CACHE_SIZE then
        let '(q, n_slots) :=
          sq_mp_enqueue_burst (free_slots h) ((fun i => objs c !!! i) <$> seqZ 0 LCORE_CACHE_SIZE)
            LCORE_CACHE_SIZE in
        (q, LCache (len c - n_slots) (objs c))
      else (free_slots h, c) in
    set_free h1 q
      (<[lcore_id := LCache (len c1 + 1) (<[len c1 := slot]> (objs c1))]> (local_free_slots h))
  else set_free h1 (sq_sp_enqueue (free_slots h) slot) (local_free_slots h).

Definition del_find_sec h (key : list Z) (sig : Z) : option Z :=
  let alt_hash := rte_hash_secondary_hash sig in
  let b := bucket h alt_hash in
  find_entry (fun i =>
    let s := signatures h !!! (b, i) in
    (current s =? alt_hash) && negb (null_sig s) &&
    (rte_hash_cmp_eq key (hkey (entry_key h b i)) h =? 0)).

Definition rte_hash_del_key_with_hash h (lcore_id : Z) (key : list Z) (sig : Z) : rte_hash Q * Z :=
  match find_prim h key sig with
  | Some i =>
      let b := bucket h sig in (remove_entry h lcore_id b i, key_idx h !!! (b, i) - 1)
  | None =>
      match del_find_sec h key sig with
      | Some i =>
          let b := bucket h (rte_hash_secondary_hash sig) in
          (remove_entry h lcore_id b i, key_idx h !!! (b, i) - 1)
      | None => (h, - ENOENT)
      end
  end.

Definition rte_hash_del_key h (lcore_id : Z) (key : list Z) : rte_hash Q * Z :=
  rte_hash_del_key_with_hash h lcore_id key (rte_hash_hash h key).

(** ** Creation and reset *)

(** "populate the free slots ring": the slots 1 to [n]. *)
Definition populate_slots (q : Q) (n : Z) : Q := fold_left sq_sp_enqueue (seqZ 1 n) q.

(** The checks of the parameters. *)
Definition hash_params_ok (n klen : Z) : bool :=
  negb ((RTE_HASH_ENTRIES_MAX <? n) || (n <? RTE_HASH_BUCKET_ENTRIES) || (klen =? 0)).

(** The size of the key table in slots, and of the ring. *)
Definition num_key_slots (hw : bool) (n : Z) : Z :=
  if hw then u32 (n + (RTE_MAX_LCORE - 1) * LCORE_CACHE_SIZE + 1) else u32 (n + 1).

(** The table [rte_hash_create] sets up in zeroed memory, with the empty ring [r]. *)
Definition hash_setup (r : Q) (n klen : Z) (f : list Z -> Z -> Z -> Z) (init : Z) (hw : bool) : rte_hash Q :=
  let nb := rte_align32pow2 n / RTE_HASH_BUCKET_ENTRIES in
  Hash n nb klen f init (fun _ _ _ => 0) (select_cmp klen) (u32 (nb - 1)) (u32 (16 + klen))
    (populate_slots r n) empty empty empty empty hw empty.

(** [while (rte_ring_dequeue(h->free_slots, &ptr) == 0)]. *)
Fixpoint drain_slots (fuel : nat) (q : Q) : option Q :=
  match fuel with
  | O => None
  | S fuel' =>
      match sq_dequeue q with
      | (q', Some _) => drain_slots fuel' q'
      | (q', None) => Some q'
      end
  end.

(** The key table is cleared up to a 32-bit size. *)
Definition rte_hash_reset (fuel : nat) (ho : option (rte_hash Q)) : option (option (rte_hash Q)) :=
  match ho with
  | None => Some None
  | Some h =>
      q ← drain_slots fuel (free_slots h);
      let cleared := u32 (key_entry_size h * u32 (entries h + 1)) in
      let h1 := set_flags (set_buckets h empty empty) empty in
      let h2 := set_keys h1 (filter (fun '(off, _) => cleared <= off) (key_store h)) in
      let caches := if hw_trans_mem_support h
        then (fun c => LCache 0 (objs c)) <$> local_free_slots h else local_free_slots h in
      Some (Some (set_free h2 (populate_slots q (entries h)) caches))
  end.

(** ** Iteration *)

(** The result: the return value, the key and the data, and the new [*next]. *)
Fixpoint iterate_from (fuel : nat) h (next : Z) : Z * option (list Z * Z) * Z :=
  let total_entries := u32 (num_buckets h * RTE_HASH_BUCKET_ENTRIES) in
  let b := next / RTE_HASH_BUCKET_ENTRIES in
  let idx := next mod RTE_HASH_BUCKET_ENTRIES in
  if null_sig (signatures h !!! (b, idx)) then
    match fuel with
    | O => (- ENOENT, None, next)
    | S fuel' =>
        if next + 1 =? total_entries then (- ENOENT, None, next + 1)
        else iterate_from fuel' h (next + 1)
    end
  else
    let k := entry_key h b idx in
    (key_idx h !!! (b, idx) - 1, Some (hkey k, pdata k), next + 1).

Definition rte_hash_iterate h (next : Z) : Z * option (list Z * Z) * Z :=
  let total_entries := u32 (num_buckets h * RTE_HASH_BUCKET_ENTRIES) in
  if total_entries <=? next then (- ENOENT, None, next)
  else iterate_from (Z.to_nat (total_entries - next)) h next.

(** ** Bulk lookup

    The code looks up the keys in four stages, two keys side by side, so that
    the memory of one stage is fetched while the others run. *)

(** The variables all stages share; [b_data] is the caller's array, if any. *)
Record bulk := Bulk {
  lookup_mask : Z;
  hits : Z;
  extra_hits_mask : Z;
  positions : gmap Z Z;
  b_data : option (gmap Z Z);
  hash_vals : gmap Z Z
}.

(** What stage 1 hands to stage 2. *)
Record lane := Lane { prim_hash : Z; sec_hash : Z; primary_bkt : Z; secondary_bkt : Z }.

Section bulk.
Variable (keys : Z -> list Z).

Definition lookup_stage0 (s : bulk) : bulk * Z :=
  let idx := if lookup_mask s =? 0 then 0 else ctz (lookup_mask s) in
  (Bulk (clear_bit (lookup_mask s) idx) (hits s) (extra_hits_mask s) (positions s) (b_data s)
     (hash_vals s), idx).

Definition lookup_stage1 h (s : bulk) (idx : Z) : bulk * lane :=
  let p := rte_hash_hash h (keys idx) in
  let q := rte_hash_secondary_hash p in
  (Bulk (lookup_mask s) (hits s) (extra_hits_mask s) (positions s) (b_data s)
     (<[idx := p]> (hash_vals s)), Lane p q (bucket h p) (bucket h q)).

(** The match bits of a bucket, with a sentinel behind the entries. *)
Definition hash_matches h (b sig : Z) : Z :=
  fold_left (fun m i => Z.lor m (Z.shiftl (Z.b2z (sig =? current (signatures h !!! (b, i)))) i))
    [0; 1; 2; 3] (Z.shiftl 1 RTE_HASH_BUCKET_ENTRIES).

(** The result is the index of the key slot. *)
Definition lookup_stage2 h (s : bulk) (idx : Z) (l : lane) : bulk * Z :=
  let prim := hash_matches h (primary_bkt l) (prim_hash l) in
  let sec := hash_matches h (secondary_bkt l) (sec_hash l) in
  let k := key_idx h !!! (primary_bkt l, ctz prim) in
  let k := if k =? 0 then key_idx h !!! (secondary_bkt l, ctz sec) else k in
  let total := Z.lor prim (Z.shiftl sec (RTE_HASH_BUCKET_ENTRIES + 1)) in
  (Bulk (lookup_mask s) (hits s)
     (Z.lor (extra_hits_mask s) (Z.shiftl (Z.b2z (3 <? popcount total)) idx))
     (<[idx := i32 (k - 1)]> (positions s)) (b_data s) (hash_vals s), k).

Definition lookup_stage3 h (s : bulk) (idx k : Z) : bulk :=
  let slot := key_store h !!! u32 (k * key_entry_size h) in
  let hit := rte_hash_cmp_eq (hkey slot) (keys idx) h =? 0 in
  let key_idx := u32 (positions s !!! idx + 1) in
  Bulk (lookup_mask s)
    (Z.lor (hits s) (Z.shiftl (Z.b2z (hit && negb (key_idx =? 0))) idx))
    (extra_hits_mask s) (positions s) ((fun d => <[idx := pdata slot]> d) <$> b_data s) (hash_vals s).

(** The two keys of each stage. *)
Definition stage0_pair (s : bulk) : bulk * (Z * Z) :=
  let '(s, i0) := lookup_stage0 s in
  let '(s, i1) := lookup_stage0 s in (s, (i0, i1)).
Definition stage1_pair h (s : bulk) (idx : Z * Z) : bulk * (lane * lane) :=
  let '(s, l0) := lookup_stage1 h s idx.1 in
  let '(s, l1) := lookup_stage1 h s idx.2 in (s, (l0, l1)).
Definition stage2_pair h (s : bulk) (idx : Z * Z) (l : lane * lane) : bulk * (Z * Z) :=
  let '(s, k0) := lookup_stage2 h s idx.1 l.1 in
  let '(s, k1) := lookup_stage2 h s idx.2 l.2 in (s, (k0, k1)).
Definition stage3_pair h (s : bulk) (idx k : Z * Z) : bulk :=
  lookup_stage3 h (lookup_stage3 h s idx.1 k.1) idx.2 k.2.

(** [while (lookup_mask)], with the variables of the stages in flight. *)
Fixpoint bulk_loop (fuel : nat) h (s : bulk) (idx0 idx1 idx2 : Z * Z) (p1 : lane * lane) (k2 : Z * Z) :
    option (bulk * (Z * Z) * (Z * Z) * (Z * Z) * (lane * lane) * (Z * Z)) :=
  if lookup_mask s =? 0 then Some (s, idx0, idx1, idx2, p1, k2)
  else
    match fuel with
    | O => None
    | S fuel' =>
        let k3 := k2 in let idx3 := idx2 in
        let p2 := p1 in
        let idx2 := idx1 in let idx1 := idx0 in
        let '(s, idx0) := stage0_pair s in
        let '(s, p1) := stage1_pair h s idx1 in
        let '(s, k2) := stage2_pair h s idx2 p2 in
        bulk_loop fuel' h (stage3_pair h s idx3 k3) idx0 idx1 idx2 p1 k2
    end.

(** The prologue, the loop and the epilogue. *)
Definition bulk_stages (fuel : nat) h (s : bulk) : option bulk :=
  let '(s, idx1) := stage0_pair s in
  let '(s, idx0) := stage0_pair s in
  let '(s, p1) := stage1_pair h s idx1 in
  let p2 := p1 in let idx2 := idx1 in let idx1 := idx0 in
  let '(s, idx0) := stage0_pair s in
  let '(s, p1) := stage1_pair h s idx1 in
  let '(s, k2) := stage2_pair h s idx2 p2 in
  '(s, idx0, idx1, idx2, p1, k2) ← bulk_loop fuel h s idx0 idx1 idx2 p1 k2;
  let k3 := k2 in let idx3 := idx2 in let p2 := p1 in let idx2 := idx1 in let idx1 := idx0 in
  let '(s, p1) := stage1_pair h s idx1 in
  let '(s, k2) := stage2_pair h s idx2 p2 in
  let s := stage3_pair h s idx3 k3 in
  let k3 := k2 in let idx3 := idx2 in let p2 := p1 in let idx2 := idx1 in
  let '(s, k2) := stage2_pair h s idx2 p2 in
  let s := stage3_pair h s idx3 k3 in
  Some (stage3_pair h s idx2 k2).

(** "run a single search for each remaining item". *)
Fixpoint extra_loop (fuel : nat) h (s : bulk) (extra : Z) : bulk :=
  match fuel with
  | O => s
  | S fuel' =>
      if extra =? 0 then s
      else
        let idx := ctz extra in
        let '(ret, d) := rte_hash_lookup_with_hash_ h (keys idx) (hash_vals s !!! idx) in
        let pos := match b_data s with Some _ => positions s | None => <[idx := ret]> (positions s) end in
        let dat := match d with Some v => (fun t => <[idx := v]> t) <$> b_data s | None => b_data s end in
        let hit := if 0 <=? ret then Z.lor (hits s) (Z.shiftl 1 idx) else hits s in
        extra_loop fuel' h (Bulk (lookup_mask s) hit (extra_hits_mask s) pos dat (hash_vals s))
          (clear_bit extra idx)
  end.

Fixpoint miss_loop (fuel : nat) (pos : gmap Z Z) (miss_mask : Z) : gmap Z Z :=
  match fuel with
  | O => pos
  | S fuel' =>
      if miss_mask =? 0 then pos
      else
        let idx := ctz miss_mask in
        miss_loop fuel' (<[idx := - ENOENT]> pos) (clear_bit miss_mask idx)
  end.

(** The positions, the hit mask and the data. *)
Definition rte_hash_lookup_bulk_ h (num_keys : Z) (pos : gmap Z Z) (data : option (gmap Z Z)) :
    option (gmap Z Z * Z * option (gmap Z Z)) :=
  let mask := Z.shiftr (2 ^ 64 - 1) (64 - num_keys) in
  s ← bulk_stages 64 h (Bulk mask 0 0 pos data empty);
  let extra := Z.land (extra_hits_mask s) (u64 (Z.lnot (hits s))) in
  let s := extra_loop 64 h s extra in
  let pos := miss_loop 64 (positions s) (Z.land mask (u64 (Z.lnot (hits s)))) in
  Some (pos, hits s, b_data s).

Definition rte_hash_lookup_bulk h (num_keys : Z) (pos : gmap Z Z) : option (gmap Z Z * Z) :=
  '(pos, _, _) ← rte_hash_lookup_bulk_ h num_keys pos None; Some (pos, 0).

Definition rte_hash_lookup_bulk_data h (num_keys : Z) (data : gmap Z Z) : option (Z * gmap Z Z * Z) :=
  '(_, hit_mask, d) ← rte_hash_lookup_bulk_ h num_keys empty (Some data);
  Some (hit_mask, default data d, popcount hit_mask).

End bulk.

End operations.
