(* ===== verification/HashProofs.v ===== *)
(** * The cuckoo hash table: invariant and the search for space

    The entries of the buckets are described by the set [I] of the key slots
    they point to: every used entry is in the bucket of its current signature,
    holds the two signatures of its key, and no two entries share a slot.  While
    [make_space_bucket] moves entries, one entry is a hole: its content has
    been copied and is about to be overwritten. *)

From S2P Require Import Prelude SlotQueue Hash.

Section proofs.
Context {Q : Type} `{SlotQueue Q}.
Implicit Type (h : rte_hash Q).

(** ** Configuration *)

(** Sizes are powers of two, offsets of key slots fit into 32 bits. *)
Record hash_cfg h : Prop := {
  hc_mask : exists k, 0 <= k <= 28 /\ num_buckets h = 2 ^ k /\ bucket_bitmask h = 2 ^ k - 1;
  hc_klen : 0 < key_len h;
  hc_size : key_entry_size h = 16 + key_len h;
  hc_entries : 0 < entries h;
  hc_store : (entries h + 1) * key_entry_size h <= 2 ^ 32;
  hc_cmp : cmp_jump_table_idx h = select_cmp (key_len h)
}.

Definition key_ok h (key : list Z) : Prop := Z.of_nat (length key) = key_len h.

Lemma bytes_id h key : key_ok h key -> bytes (key_len h) key = key.
Proof. intros Hk. unfold bytes. apply resize_all_alt. unfold key_ok in Hk. lia. Qed.

Lemma cmp_eq_spec h k1 k2 :
  hash_cfg h -> key_ok h k1 -> key_ok h k2 -> (rte_hash_cmp_eq k1 k2 h =? 0) = bool_decide (k1 = k2).
Proof.
  intros HC H1 H2. unfold rte_hash_cmp_eq, cmp_jump_table. rewrite (hc_cmp _ HC). unfold select_cmp.
  pose proof (bytes_id _ _ H1) as E1. pose proof (bytes_id _ _ H2) as E2.
  assert (Hc : forall n, key_len h = n -> (cmp_bytes n k1 k2 =? 0) = bool_decide (k1 = k2)).
  { intros n <-. unfold cmp_bytes. rewrite E1, E2. by case_bool_decide. }
  repeat match goal with |- context [key_len h =? ?n] => destruct (Z.eqb_spec (key_len h) n); [by apply Hc|] end.
  by apply Hc.
Qed.

Lemma bucket_range h sig : hash_cfg h -> 0 <= bucket h sig < num_buckets h.
Proof.
  intros HC. destruct (hc_mask _ HC) as (k&Hk&->&E). unfold bucket. rewrite E. replace (2 ^ k - 1) with (Z.ones k) by (rewrite Z.ones_equiv; lia).
  rewrite Z.land_ones by lia. apply Z.mod_pos_bound. lia.
Qed.

(** The offset of a slot does not wrap. *)
Lemma slot_offset h idx : hash_cfg h -> 0 <= idx <= entries h ->
  u32 (idx * key_entry_size h) = idx * key_entry_size h /\ u64 (idx * key_entry_size h) = idx * key_entry_size h.
Proof.
  intros [_ Hk Hs He Hst _] Hi. rewrite u32_small, u64_small; [done|nia|nia].
Qed.

(** The content of a key slot. *)
Definition key_at h (idx : Z) : rte_hash_key := key_store h !!! (idx * key_entry_size h).

Lemma secondary_not_null sig : null_sig (Sig sig (rte_hash_secondary_hash sig)) = false.
Proof.
  unfold null_sig. cbn. destruct (Z.eqb_spec sig 0) as [->|]; [done|done].
Qed.

(** ** Entries *)

Definition used (S : gmap (Z * Z) rte_hash_signatures) (p : Z * Z) : Prop := null_sig (S !!! p) = false.

Definition in_tbl h (p : Z * Z) : Prop := 0 <= p.1 < num_buckets h /\ 0 <= p.2 < 4.

(** An entry in bucket [b] with signatures [s] for the slot [idx]. *)
Definition valid h (b : Z) (s : rte_hash_signatures) (idx : Z) : Prop :=
  let k := hkey (key_at h idx) in
  let p := rte_hash_hash h k in
  1 <= idx <= entries h /\ key_ok h k /\ b = bucket h (current s) /\
  ((current s = p /\ alt s = rte_hash_secondary_hash p) \/
   (current s = rte_hash_secondary_hash p /\ alt s = p)).

Record tbl_inv h (S : gmap (Z * Z) rte_hash_signatures) (K : gmap (Z * Z) Z)
    (hole : option (Z * Z)) (I : Z -> Prop) : Prop := {
  ti_valid : forall p, Some p <> hole -> used S p -> in_tbl h p /\ valid h p.1 (S !!! p) (K !!! p);
  ti_idx : forall idx, I idx <-> exists p, Some p <> hole /\ used S p /\ K !!! p = idx;
  ti_uniq : forall p q, Some p <> hole -> Some q <> hole -> used S p -> used S q ->
    K !!! p = K !!! q -> p = q;
  ti_dummy : forall b, K !!! (b, RTE_HASH_BUCKET_ENTRIES) = 0
}.

(** The entry with its signatures exchanged. *)
Definition swap (s : rte_hash_signatures) : rte_hash_signatures := Sig (alt s) (current s).

Lemma swap_used s : null_sig (swap s) = null_sig s.
Proof. unfold null_sig. cbn. apply andb_comm. Qed.

Lemma swap_valid h b s idx : valid h b s idx -> valid h (bucket h (alt s)) (swap s) idx.
Proof. intros (?&?&_&Hc). split; [done|]. split; [done|]. split; [done|]. destruct Hc; [right|left]; tauto. Qed.

(** Filling an empty entry (or the hole) with the exchanged content of an
    entry [p] makes [p] the hole. *)
Lemma move_inv h S K hole I p q :
  hash_cfg h -> tbl_inv h S K hole I -> Some p <> hole -> used S p -> p <> q ->
  (Some q = hole \/ hole = None /\ ~ used S q) -> q.1 = bucket h (alt (S !!! p)) -> 0 <= q.2 < 4 ->
  tbl_inv h (<[q := swap (S !!! p)]> S) (<[q := K !!! p]> K) (Some p) I.
Proof.
  intros HC [Hv Hi Hu Hd] Hp Hup Hpq Hq Hb Hq2. destruct (Hv p Hp Hup) as [_ Hvp].
  assert (Hlk : forall r, used (<[q := swap (S !!! p)]> S) r <-> r = q \/ (r <> q /\ used S r)).
  { intros r. unfold used. destruct (decide (r = q)) as [->|Hne].
    - rewrite lookup_total_insert_eq, swap_used. tauto.
    - rewrite lookup_total_insert_ne by congruence. tauto. }
  assert (Hnh : forall r, used S r -> r <> q -> Some r <> hole).
  { intros r Hr Hne. destruct Hq as [<-|[-> _]]; [congruence|done]. }
  assert (HK : forall r, r <> q -> <[q := K !!! p]> K !!! r = K !!! r).
  { intros r Hr. by rewrite lookup_total_insert_ne by congruence. }
  split.
  - intros r Hr [->|[Hne Hr']]%Hlk.
    + rewrite !lookup_total_insert_eq. split; [split; [|done]|].
      * rewrite Hb. by apply bucket_range.
      * rewrite Hb. by eapply swap_valid.
    + rewrite lookup_total_insert_ne, HK by congruence. apply Hv; [by apply Hnh|done].
  - intros idx. rewrite Hi. split.
    + intros (r&Hr&Hur&E). destruct (decide (r = p)) as [->|Hrp].
      * exists q. rewrite Hlk, lookup_total_insert_eq. split_and!; [congruence|by left|done].
      * exists r. assert (r <> q).
        { intros ->. destruct Hq as [<-|[_ ?]]; done. }
        rewrite Hlk, HK by done. split_and!; [congruence|by right|done].
    + intros (r&Hr&[->|[Hne Hur]]%Hlk&E).
      * rewrite lookup_total_insert_eq in E. by exists p.
      * rewrite HK in E by done. exists r. split_and!; [by apply Hnh|done..].
  - assert (Hkey : forall r, r <> q -> Some r <> Some p -> used S r -> K !!! r <> K !!! p).
    { intros r Hrq Hrp Hur E. apply Hrp. f_equal. apply Hu; try done. by apply Hnh. }
    intros r t Hr Ht [->|[Hne Hur]]%Hlk [->|[Hne' Hut]]%Hlk; [done| | |].
    + rewrite lookup_total_insert_eq, HK by done. intros E. by destruct (Hkey t Hne' Ht Hut).
    + rewrite lookup_total_insert_eq, HK by done. intros E. by destruct (Hkey r Hne Hr Hur).
    + rewrite !HK by done. apply Hu; [by apply Hnh..|done|done].
  - intros b. rewrite HK; [apply Hd|]. intros <-. cbn in Hq2. unfold RTE_HASH_BUCKET_ENTRIES in Hq2. lia.
Qed.

(** ** The search for space *)

(** The table with other buckets and flags. *)
Definition rebucket h S K F : rte_hash Q := set_flags (set_buckets h S K) F.

Lemma rebucket_inv h S K F S' K' hole I : tbl_inv (rebucket h S K F) S' K' hole I <-> tbl_inv h S' K' hole I.
Proof. split; intros []; by split. Qed.

Lemma rebucket_cfg h S K F : hash_cfg h -> hash_cfg (rebucket h S K F).
Proof. intros []. by split. Qed.

Lemma find_entry_Some p i :
  find_entry p = Some i <-> 0 <= i < 4 /\ p i = true /\ (forall j, 0 <= j < i -> p j = false).
Proof. unfold find_entry. rewrite find_up_Some. done. Qed.

Lemma find_entry_None p : find_entry p = None <-> forall j, 0 <= j < 4 -> p j = false.
Proof. unfold find_entry. rewrite find_up_None. done. Qed.

Lemma first_room_Some h bkt i :
  first_room h bkt = Some i ->
  exists j, 0 <= i < 4 /\ room h bkt i = Some j /\ 0 <= j < 4 /\
    ~ used (signatures h) (bucket h (alt (signatures h !!! (bkt, i))), j).
Proof.
  unfold first_room. rewrite find_entry_Some. intros (Hi&Hr&_). destruct (room h bkt i) as [j|] eqn:E; [|done].
  exists j. split_and!; try done; unfold room in E; apply find_entry_Some in E as (Hj&Hn&_); [lia..|].
  unfold used. by rewrite Hn.
Qed.

Lemma first_room_None h bkt i j :
  first_room h bkt = None -> 0 <= i < 4 -> 0 <= j < 4 ->
  used (signatures h) (bucket h (alt (signatures h !!! (bkt, i))), j).
Proof.
  unfold first_room. rewrite find_entry_None. intros Hr Hi Hj. specialize (Hr i Hi).
  destruct (room h bkt i) as [|] eqn:E; [done|]. unfold room in E. rewrite find_entry_None in E. by apply E.
Qed.

Lemma push_entry_eq h bkt i nb j :
  (bkt, i) <> (nb, j) ->
  push_entry h bkt i nb j = set_buckets h (<[(nb, j) := swap (signatures h !!! (bkt, i))]> (signatures h))
    (<[(nb, j) := key_idx h !!! (bkt, i)]> (key_idx h)).
Proof.
  intros Hne. unfold push_entry, swap. cbv zeta. rewrite lookup_total_insert_eq, lookup_total_insert_ne by congruence.
  by rewrite insert_insert_eq.
Qed.

(** The entries that are not on the path of the search. *)
Definition all_pos h : list (Z * Z) := b ← seqZ 0 (num_buckets h); i ← seqZ 0 4; [(b, i)].
Definition unflagged h (F : gmap (Z * Z) Z) : nat := length (filter (fun p => F !!! p = 0) (all_pos h)).

Lemma all_pos_spec h p : p ∈ all_pos h <-> in_tbl h p.
Proof.
  unfold all_pos, in_tbl. destruct p as [b i]. rewrite list_elem_of_bind. setoid_rewrite list_elem_of_bind.
  setoid_rewrite elem_of_seqZ. setoid_rewrite list_elem_of_singleton. cbn. split.
  - intros (b'&(i'&[= -> ->]&?)&?). lia.
  - intros [? ?]. exists b. split; [exists i; split; [done|lia]|lia].
Qed.

Lemma filter_length_lt {A} (P P' : A -> Prop) `{!forall x, Decision (P x), !forall x, Decision (P' x)} l x :
  (forall y, P' y -> P y) -> x ∈ l -> P x -> ~ P' x -> (length (filter P' l) < length (filter P l))%nat.
Proof.
  intros Hsub. assert (Hle : forall k, (length (filter P' k) <= length (filter P k))%nat).
  { induction k as [|y k IH]; [done|]. rewrite !filter_cons.
    destruct (decide (P' y)), (decide (P y)); cbn; [lia|naive_solver|lia..]. }
  induction l as [|y l IH]; [by intros ?%not_elem_of_nil|]. intros [->|Hin]%elem_of_cons Hx Hx'.
  - rewrite !filter_cons, decide_False, decide_True by done. cbn. specialize (Hle l). lia.
  - specialize (IH Hin Hx Hx'). rewrite !filter_cons.
    destruct (decide (P' y)), (decide (P y)); cbn; [lia|naive_solver|lia..].
Qed.

(** The flagged entries are on the path: they are used and their alternative
    bucket is full. *)
Definition flagged_ok h : Prop := forall p, flag h !!! p <> 0 ->
  used (signatures h) p /\
  forall j, 0 <= j < 4 -> used (signatures h) (bucket h (alt (signatures h !!! p)), j).

Definition space_post h (I : Z -> Prop) (bkt : Z) (res : rte_hash Q * Z) : Prop :=
  exists S K F, res.1 = rebucket h S K F /\ (forall p, F !!! p = flag h !!! p) /\
  ((res.2 = - ENOSPC /\ S = signatures h /\ K = key_idx h) \/
   (0 <= res.2 < 4 /\ flag h !!! (bkt, res.2) = 0 /\ tbl_inv h S K (Some (bkt, res.2)) I /\
    forall p, flag h !!! p <> 0 -> S !!! p = signatures h !!! p /\ K !!! p = key_idx h !!! p)).

Lemma make_space_ok fuel h I bkt :
  hash_cfg h -> tbl_inv h (signatures h) (key_idx h) None I -> flagged_ok h ->
  0 <= bkt < num_buckets h -> (forall i, 0 <= i < 4 -> used (signatures h) (bkt, i)) ->
  (unflagged h (flag h) < fuel)%nat ->
  exists res, make_space_bucket fuel h bkt = Some res /\ space_post h I bkt res.
Proof.
  revert h bkt. induction fuel as [|fuel IH]; intros h bkt HC HI HF Hb Hfull Hfu; [lia|].
  cbn [make_space_bucket]. destruct (first_room h bkt) as [i|] eqn:Er.
  - destruct (first_room_Some _ _ _ Er) as (j&Hi&->&Hj&Hnu). change (default 0 (Some j)) with j. eexists. split; [done|].
    rewrite push_entry_eq by (intros E; rewrite <- E in Hnu; by apply Hnu, Hfull).
    set (q := (bucket h _, j)) in *.
    exists (<[q := swap (signatures h !!! (bkt, i))]> (signatures h)), (<[q := key_idx h !!! (bkt, i)]> (key_idx h)), (flag h).
    split; [done|]. split; [done|]. right. cbn [snd].
    assert (Hunf : flag h !!! (bkt, i) = 0).
    { destruct (decide (flag h !!! (bkt, i) = 0)) as [|Hf]; [done|]. destruct (HF _ Hf) as [_ Hf2].
      by destruct Hnu; apply Hf2. }
    split; [done|]. split; [done|]. split.
    + eapply move_inv; [done|done|done|by apply Hfull| |by right|done|done].
      intros E. rewrite <- E in Hnu. by apply Hnu, Hfull.
    + intros p Hp. assert (p <> q) by (intros ->; apply Hnu; by apply (HF _ Hp)).
      by rewrite !lookup_total_insert_ne by congruence.
  - destruct (find_entry _) as [i|] eqn:Ef.
    2:{ eexists. split; [done|]. exists (signatures h), (key_idx h), (flag h). split; [by destruct h|]. auto. }
    apply find_entry_Some in Ef as (Hi&Hfl%Z.eqb_eq&_).
    set (nb := bucket h (alt (signatures h !!! (bkt, i)))). set (h1 := set_flag h bkt i 1).
    assert (Hnext : forall j, 0 <= j < 4 -> used (signatures h) (nb, j)).
    { intros j Hj. by apply first_room_None. }
    destruct (IH h1 nb) as ([h2 ret]&->&Hpost); 
      [by apply (rebucket_cfg h _ _ _)|by apply (rebucket_inv h _ _ _)| |by apply (bucket_range h)|done| |].
    { intros p Hp. cbn in Hp |- *. destruct (decide ((bkt, i) = p)) as [<-|Hne].
      - split; [by apply Hfull|done].
      - rewrite lookup_total_insert_ne in Hp by done. by apply HF. }
    { cut (unflagged h (flag h1) < unflagged h (flag h))%nat; [change (unflagged h1 (flag h1)) with (unflagged h (flag h1)); lia|].
      apply (filter_length_lt _ _ _ (bkt, i)); cbn.
      - intros p. rewrite lookup_total_insert. case_decide; [subst|]; done.
      - by apply all_pos_spec.
      - done.
      - by rewrite lookup_total_insert_eq. }
    destruct Hpost as (S&K&F&E2&HF2&Hpost). cbn [fst snd] in *. cbn [mbind option_bind].
    eexists. split; [done|]. subst h2.
    assert (HF3 : forall p, <[(bkt, i) := 0]> F !!! p = flag h !!! p).
    { intros p. rewrite lookup_total_insert. case_decide as E; [by rewrite <- E|]. rewrite HF2. cbn.
      by rewrite lookup_total_insert_ne by done. }
    destruct Hpost as [(->&->&->)|(Hret&Hfr&HI2%(rebucket_inv h (signatures h) (key_idx h))&Hkeep)].
    + exists (signatures h), (key_idx h), (<[(bkt, i) := 0]> F). split; [done|]. split; [exact HF3|]. by left.
    + rewrite (proj2 (Z.leb_le 0 ret)) by lia.
      assert (Hne : (bkt, i) <> (nb, ret)).
      { intros E. rewrite <- E in Hfr. cbn in Hfr. by rewrite lookup_total_insert_eq in Hfr. }
      rewrite push_entry_eq by done. cbn [fst snd].
      destruct (Hkeep (bkt, i)) as [Hs Hk]; [cbn; by rewrite lookup_total_insert_eq|].
      exists (<[(nb, ret) := swap (S !!! (bkt, i))]> S), (<[(nb, ret) := K !!! (bkt, i)]> K), (<[(bkt, i) := 0]> F).
      split; [done|]. split; [exact HF3|]. right. split; [done|]. split; [done|]. split.
      * eapply (move_inv h S K (Some (nb, ret)) I (bkt, i) (nb, ret)); [done|done|congruence| |done|by left| |done].
        -- unfold used. rewrite Hs. by apply Hfull.
        -- cbn [fst]. by rewrite Hs.
      * intros p Hp. assert (Hpf : flag h1 !!! p <> 0).
        { cbn. rewrite lookup_total_insert. by case_decide. }
        destruct (Hkeep p Hpf) as [Hs' Hk']. cbn.
        rewrite !lookup_total_insert_ne; [done|intros <-; done..].
Qed.

(** ** Finding a key *)

(** The slots a map of keys uses. *)
Definition idx_of (M : gmap (list Z) (Z * Z)) (idx : Z) : Prop := exists k d, M !! k = Some (idx, d).

(** The entries and the key table hold the map [M] from keys to slot and data. *)
Record keys_inv h (M : gmap (list Z) (Z * Z)) : Prop := {
  ky_cfg : hash_cfg h;
  ky_tbl : tbl_inv h (signatures h) (key_idx h) None (idx_of M);
  ky_map : forall k idx d, M !! k = Some (idx, d) -> key_at h idx = HKey d k
}.

Lemma used_sound h M p :
  keys_inv h M -> used (signatures h) p ->
  exists d, M !! hkey (key_at h (key_idx h !!! p)) = Some (key_idx h !!! p, d) /\
    key_at h (key_idx h !!! p) = HKey d (hkey (key_at h (key_idx h !!! p))).
Proof.
  intros [HC HT HM] Hu. assert (Hi : idx_of M (key_idx h !!! p)) by (apply (ti_idx _ _ _ _ _ HT); by exists p).
  destruct Hi as (k&d&E). pose proof (HM _ _ _ E) as Ek. exists d. rewrite Ek. done.
Qed.

Lemma entry_key_at h M p :
  keys_inv h M -> used (signatures h) p -> entry_key h p.1 p.2 = key_at h (key_idx h !!! p).
Proof.
  intros [HC HT _] Hu. destruct (ti_valid _ _ _ _ _ HT p ltac:(done) Hu) as [_ [Hi _]].
  unfold entry_key, key_at. destruct p as [b i]. cbn in *. destruct (slot_offset h (key_idx h !!! (b, i)) HC) as [-> _]; [lia|done].
Qed.

(** The test of one entry: the signatures, then the key. *)
Lemma entry_test h M key p (st : bool) :
  keys_inv h M -> key_ok h key -> (st = true -> used (signatures h) p) ->
  st && (rte_hash_cmp_eq key (hkey (entry_key h p.1 p.2)) h =? 0) = true <->
  st = true /\ exists d, M !! key = Some (key_idx h !!! p, d) /\ entry_key h p.1 p.2 = HKey d key.
Proof.
  intros HK Hkey Hst. rewrite andb_true_iff.
  destruct st; [|split; intros [? _]; done]. specialize (Hst eq_refl).
  destruct (used_sound h M p HK Hst) as (d&Hd&Ek). rewrite (entry_key_at h M p HK Hst).
  pose proof (ti_valid _ _ _ _ _ (ky_tbl _ _ HK) p ltac:(done) Hst) as [_ (_&Hok&_)].
  rewrite cmp_eq_spec by (done || apply HK). rewrite bool_decide_eq_true. split.
  - intros [_ ->]. split; [done|]. by exists d.
  - intros [_ (d'&_&E)]. split; [done|]. by rewrite E.
Qed.

(** Where the key is: in its primary or in its secondary bucket. *)
Lemma key_place h M key idx d (sig := rte_hash_hash h key) (alt_hash := rte_hash_secondary_hash sig) :
  keys_inv h M -> M !! key = Some (idx, d) ->
  exists b i, 0 <= i < 4 /\ used (signatures h) (b, i) /\ key_idx h !!! (b, i) = idx /\
    entry_key h b i = HKey d key /\
    ((b = bucket h sig /\ signatures h !!! (b, i) = Sig sig alt_hash) \/
     (b = bucket h alt_hash /\ signatures h !!! (b, i) = Sig alt_hash sig)).
Proof.
  intros HK E. pose proof HK as [HC HT HM]. destruct (proj1 (ti_idx _ _ _ _ _ HT idx)) as ([b i]&_&Hu&Ei); [by exists key, d|].
  destruct (ti_valid _ _ _ _ _ HT (b, i) ltac:(done) Hu) as [[_ Hi] (_&_&Hb&Hc)]. cbn in Hi, Hb.
  rewrite Ei, (HM _ _ _ E) in Hc. cbn in Hc. fold sig alt_hash in Hc.
  pose proof (entry_key_at h M (b, i) HK Hu) as Ek. cbn [fst snd] in Ek. rewrite Ei, (HM _ _ _ E) in Ek.
  exists b, i. do 4 (split; [done|]).
  destruct (signatures h !!! (b, i)) as [c a]. cbn in *. destruct Hc as [[-> ->]|[-> ->]]; auto.
Qed.

(** A scan of the four entries of a bucket for a key. *)
Definition scan h (key : list Z) (b : Z) (st : rte_hash_signatures -> bool) : option Z :=
  find_entry (fun i => st (signatures h !!! (b, i)) &&
    (rte_hash_cmp_eq key (hkey (entry_key h b i)) h =? 0)).

Lemma scan_Some h M key b st i :
  keys_inv h M -> key_ok h key -> (forall s, st s = true -> null_sig s = false) ->
  scan h key b st = Some i ->
  exists d, 0 <= i < 4 /\ used (signatures h) (b, i) /\ M !! key = Some (key_idx h !!! (b, i), d) /\
    entry_key h b i = HKey d key.
Proof.
  unfold scan. intros HK Hkey Hst [Hi [Ht _]]%find_entry_Some.
  apply (entry_test h M key (b, i)) in Ht as (Hs&d&E&Ek); [|done|done|apply Hst].
  exists d. split; [done|]. split; [by apply Hst|]. done.
Qed.

Lemma scan_None h M key b st i idx d :
  keys_inv h M -> key_ok h key -> (forall s, st s = true -> null_sig s = false) ->
  scan h key b st = None -> M !! key = Some (idx, d) -> 0 <= i < 4 ->
  used (signatures h) (b, i) -> key_idx h !!! (b, i) = idx -> st (signatures h !!! (b, i)) = false.
Proof.
  intros HK Hkey Hst Hn E Hi Hu Ei. unfold scan in Hn. rewrite find_entry_None in Hn. specialize (Hn i Hi).
  destruct (st (signatures h !!! (b, i))) eqn:Es; [|done]. exfalso. cbn [andb] in Hn.
  pose proof (proj2 (entry_test h M key (b, i) true HK Hkey (fun _ => Hu))) as Ht. cbn [fst snd] in Ht.
  rewrite andb_true_l in Ht. rewrite Ht in Hn; [done|]. split; [done|]. exists d. rewrite Ei.
  split; [done|]. pose proof (entry_key_at h M (b, i) HK Hu) as Ek. cbn [fst snd] in Ek.
  rewrite Ek, Ei. by apply (ky_map _ _ HK).
Qed.

(** The scan of the primary and then of the secondary bucket. *)
Definition scan2 h (key : list Z) (st1 st2 : rte_hash_signatures -> bool) : option (Z * Z) :=
  let sig := rte_hash_hash h key in
  let alt_hash := rte_hash_secondary_hash sig in
  match scan h key (bucket h sig) st1 with
  | Some i => Some (bucket h sig, i)
  | None =>
      match scan h key (bucket h alt_hash) st2 with
      | Some i => Some (bucket h alt_hash, i)
      | None => None
      end
  end.

Lemma scan2_ok h M key st1 st2 (sig := rte_hash_hash h key) (alt_hash := rte_hash_secondary_hash sig) :
  keys_inv h M -> key_ok h key ->
  (forall s, st1 s = true -> null_sig s = false) -> (forall s, st2 s = true -> null_sig s = false) ->
  st1 (Sig sig alt_hash) = true -> st2 (Sig alt_hash sig) = true ->
  match M !! key with
  | Some (idx, d) => exists b i, scan2 h key st1 st2 = Some (b, i) /\ 0 <= i < 4 /\
      used (signatures h) (b, i) /\ key_idx h !!! (b, i) = idx /\ entry_key h b i = HKey d key
  | None => scan2 h key st1 st2 = None
  end.
Proof.
  intros HK Hkey N1 N2 A1 A2. unfold scan2. fold sig alt_hash.
  destruct (scan h key (bucket h sig) st1) as [i|] eqn:E1.
  { destruct (scan_Some _ _ _ _ _ _ HK Hkey N1 E1) as (d&Hi&Hu&->&Ek). by exists (bucket h sig), i. }
  destruct (scan h key (bucket h alt_hash) st2) as [i|] eqn:E2.
  { destruct (scan_Some _ _ _ _ _ _ HK Hkey N2 E2) as (d&Hi&Hu&->&Ek). by exists (bucket h alt_hash), i. }
  destruct (M !! key) as [[idx d]|] eqn:E; [exfalso|done].
  destruct (key_place h M key idx d HK E) as (b&i&Hi&Hu&Ei&_&[[-> Es]|[-> Es]]).
  - pose proof (scan_None _ _ _ _ _ _ _ _ HK Hkey N1 E1 E Hi Hu Ei) as Hf. fold sig alt_hash in Hf, Es. by rewrite Es, A1 in Hf.
  - pose proof (scan_None _ _ _ _ _ _ _ _ HK Hkey N2 E2 E Hi Hu Ei) as Hf. fold sig alt_hash in Hf, Es. by rewrite Es, A2 in Hf.
Qed.

(** The tests of the entries in the code. *)
Definition st_current (x : Z) (s : rte_hash_signatures) : bool := (current s =? x) && negb (null_sig s).
Definition st_both (x y : Z) (s : rte_hash_signatures) : bool := (current s =? x) && (alt s =? y).

Lemma st_current_used x s : st_current x s = true -> null_sig s = false.
Proof. unfold st_current. rewrite andb_true_iff, negb_true_iff. tauto. Qed.

Lemma st_both_used x y s : null_sig (Sig x y) = false -> st_both x y s = true -> null_sig s = false.
Proof.
  unfold st_both. rewrite andb_true_iff, !Z.eqb_eq. destruct s as [c a]. cbn. by intros ? [-> ->].
Qed.

Lemma st_both_refl x y : st_both x y (Sig x y) = true.
Proof. unfold st_both. cbn. by rewrite !Z.eqb_refl. Qed.

Lemma secondary_swap_not_null sig : null_sig (Sig (rte_hash_secondary_hash sig) sig) = false.
Proof. rewrite <- (secondary_not_null sig). unfold null_sig. cbn. apply andb_comm. Qed.

(** ** Lookup *)

Lemma hash_lookup_ok h M key :
  keys_inv h M -> key_ok h key ->
  rte_hash_lookup_with_hash_ h key (rte_hash_hash h key) =
    match M !! key with Some (idx, d) => (idx - 1, Some d) | None => (- ENOENT, None) end.
Proof.
  intros HK Hkey. set (sig := rte_hash_hash h key). set (alt_hash := rte_hash_secondary_hash sig).
  pose proof (scan2_ok h M key (st_current sig) (st_both alt_hash sig) HK Hkey (st_current_used sig)
    (fun s => st_both_used _ _ s (secondary_swap_not_null sig))) as Hs.
  fold sig alt_hash in Hs. specialize (Hs ltac:(unfold st_current; cbn [current]; by rewrite Z.eqb_refl, secondary_not_null)
    (st_both_refl _ _)).
  unfold rte_hash_lookup_with_hash_. change (find_prim h key sig) with (scan h key (bucket h sig) (st_current sig)).
  change (lookup_find_sec h key sig) with (scan h key (bucket h alt_hash) (st_both alt_hash sig)).
  unfold scan2 in Hs. fold sig alt_hash in Hs. destruct (M !! key) as [[idx d]|].
  - destruct Hs as (b&i&Hs&_&_&Ei&Ek).
    destruct (scan _ _ _ (st_current sig)); [simplify_eq; by rewrite Ek|].
    destruct (scan _ _ _ _); [simplify_eq; fold alt_hash; by rewrite Ek|done].
  - destruct (scan _ _ _ (st_current sig)); [done|]. by destruct (scan _ _ _ _).
Qed.

End proofs.
