(* ===== verification/HashSlots.v ===== *)
(** * The cuckoo hash table: the free slots

    The slots of the key table that are not in use are in the ring and in the
    caches of the cores; the lemmas say what taking and returning a slot does
    to that set, against the interface of the ring. *)

From S2P Require Import Prelude SlotQueue Hash.

(** ** The caches *)

Definition cache_list (c : lcore_cache) : list Z := (fun i => objs c !!! i) <$> seqZ 0 (len c).

Definition cached (m : gmap Z lcore_cache) : list Z :=
  lc ← seqZ 0 RTE_MAX_LCORE; cache_list (m !!! lc).

Lemma seqZ_snoc n : 0 <= n -> seqZ 0 (n + 1) = seqZ 0 n ++ [n].
Proof.
  intros Hn. replace (n + 1) with (Z.of_nat (S (Z.to_nat n))) by lia. rewrite seqZ_S.
  rewrite Z2Nat.id by lia. done.
Qed.

Lemma cache_list_snoc n o : 0 <= n -> cache_list (LCache (n + 1) o) = cache_list (LCache n o) ++ [o !!! n].
Proof. intros Hn. unfold cache_list. cbn. by rewrite seqZ_snoc, fmap_app. Qed.

Lemma cache_list_ext n o o' :
  (forall i, 0 <= i < n -> o !!! i = o' !!! i) -> cache_list (LCache n o) = cache_list (LCache n o').
Proof. intros He. unfold cache_list. cbn. apply list_fmap_ext. intros _ i Hi%list_elem_of_lookup_2%elem_of_seqZ. apply He. lia. Qed.

Lemma cache_list_push n o x : 0 <= n -> cache_list (LCache (n + 1) (<[n := x]> o)) = cache_list (LCache n o) ++ [x].
Proof.
  intros Hn. rewrite cache_list_snoc, lookup_total_insert_eq by done. f_equal.
  apply cache_list_ext. intros i Hi. by rewrite lookup_total_insert_ne by lia.
Qed.

Lemma cache_list_take t l m :
  0 <= m <= Z.of_nat (length l) -> (forall i, 0 <= i < m -> t !!! i = l !!! Z.to_nat i) ->
  cache_list (LCache m t) = take (Z.to_nat m) l.
Proof.
  intros Hm Ht. apply list_eq. intros i. unfold cache_list. cbn.
  rewrite list_lookup_fmap. destruct (decide (Z.of_nat i < m)) as [Hi|Hi].
  - rewrite lookup_seqZ_lt by lia. cbn. rewrite Ht by lia. rewrite lookup_take_lt by lia.
    replace (Z.to_nat (0 + Z.of_nat i)) with i by lia. symmetry. apply list_lookup_lookup_total_lt. lia.
  - rewrite lookup_seqZ_ge by lia. rewrite lookup_take_ge by lia. done.
Qed.

(** The caches around the one of core [lc]. *)
Lemma cached_split m lc :
  0 <= lc < RTE_MAX_LCORE ->
  exists A B, forall c, cached (<[lc := c]> m) = A ++ cache_list c ++ B.
Proof.
  intros Hlc. assert (Hin : lc ∈ seqZ 0 RTE_MAX_LCORE) by (apply elem_of_seqZ; lia).
  pose proof (NoDup_seqZ 0 RTE_MAX_LCORE) as Hnd. unfold cached.
  apply list_elem_of_split in Hin as (l1&l2&E). rewrite E in *.
  exists (lc ← l1; cache_list (m !!! lc)), (lc ← l2; cache_list (m !!! lc)). intros c.
  assert (Hsame : forall l, lc ∉ l -> (x ← l; cache_list (<[lc := c]> m !!! x)) = (x ← l; cache_list (m !!! x))).
  { intros l Hl. apply Forall_bind_ext, Forall_forall. intros x Hx. rewrite lookup_total_insert_ne; [done|].
    by intros ->. }
  rewrite bind_app, bind_cons, lookup_total_insert_eq.
  apply NoDup_app in Hnd as (_&Hd&Hnd). apply NoDup_cons in Hnd as [Hl2 _].
  rewrite !Hsame; [done|done|]. intros Hl1. by apply (Hd lc Hl1), elem_of_cons; left.
Qed.

Lemma cached_at m lc : cached (<[lc := m !!! lc]> m) = cached m.
Proof.
  unfold cached. apply list_bind_ext; [|done]. intros x. rewrite lookup_total_insert. by case_decide; subst.
Qed.

(** ** The free slots *)

Section slots.
Context {Q : Type} `{SlotQueueLaws Q}.
Implicit Type (h : rte_hash Q).

Definition cached_of h : list Z := if hw_trans_mem_support h then cached (local_free_slots h) else [].

(** The free slots are [L]; the ring has room for [c]. *)
Record slots_inv h (c : Z) (L : list Z) : Prop := {
  sl_ring : exists l, sq_repr (free_slots h) c l /\ L ≡ₚ l ++ cached_of h;
  sl_len : hw_trans_mem_support h = true -> forall lc, 0 <= len (local_free_slots h !!! lc) <= LCORE_CACHE_SIZE
}.

Lemma slots_inv_perm h c L L' : L ≡ₚ L' -> slots_inv h c L -> slots_inv h c L'.
Proof. intros HP [(l&Hl&E) Hlen]. split; [|done]. exists l. split; [done|]. by rewrite <- HP. Qed.

Lemma len_insert (m : gmap Z lcore_cache) lc c :
  (forall x, 0 <= len (m !!! x) <= LCORE_CACHE_SIZE) -> 0 <= len c <= LCORE_CACHE_SIZE ->
  forall x, 0 <= len (<[lc := c]> m !!! x) <= LCORE_CACHE_SIZE.
Proof. intros Hm Hc x. rewrite lookup_total_insert. by case_decide. Qed.

(** Taking a slot. *)
Lemma get_slot_ok h c L lc :
  slots_inv h c L -> 0 <= lc < RTE_MAX_LCORE ->
  exists q cs x, get_slot h lc = (set_free h q cs, x) /\
    match x with
    | None => slots_inv (set_free h q cs) c L /\ (hw_trans_mem_support h = false -> L = [])
    | Some x => exists L', L ≡ₚ x :: L' /\ slots_inv (set_free h q cs) c L' /\
        (hw_trans_mem_support h = true -> len (cs !!! lc) < LCORE_CACHE_SIZE)
    end.
Proof.
  intros [(l&Hl&HP) Hlen] Hlc. unfold get_slot, cached_of in *.
  destruct (hw_trans_mem_support h) eqn:Ehw.
  2:{ destruct (sq_sc_dequeue_law _ _ _ Hl) as (q&->&Hq). eexists q, _, _. split; [done|].
      rewrite app_nil_r in HP. destruct l as [|x l]; cbn in *.
      - split; [|by intros _; apply Permutation_nil_r in HP]. split; cbn; [|by rewrite Ehw].
        exists []. unfold cached_of. cbn. by rewrite Ehw.
      - exists l. split; [done|]. split; [|done]. split; cbn; [|by rewrite Ehw].
        exists l. unfold cached_of. cbn. by rewrite Ehw, app_nil_r. }
  specialize (Hlen eq_refl). set (m := local_free_slots h) in *. destruct (cached_split m lc Hlc) as (A&B&Hcs).
  assert (HPc : L ≡ₚ l ++ A ++ cache_list (m !!! lc) ++ B) by (by rewrite HP, <- (cached_at m lc), Hcs).
  (* taking the last slot of the cache [c1] when the ring holds [l1] *)
  assert (Htake : forall q l1 c1, sq_repr q c l1 -> 0 < len c1 <= LCORE_CACHE_SIZE ->
    L ≡ₚ l1 ++ A ++ cache_list c1 ++ B ->
    exists L', L ≡ₚ objs c1 !!! (len c1 - 1) :: L' /\
      slots_inv (set_free h q (<[lc := LCache (len c1 - 1) (objs c1)]> m)) c L' /\
      len (<[lc := LCache (len c1 - 1) (objs c1)]> m !!! lc) < LCORE_CACHE_SIZE).
  { intros q l1 [n o] Hq Hn HL. cbn in *. exists (l1 ++ A ++ cache_list (LCache (n - 1) o) ++ B). split_and!.
    - rewrite HL. replace n with (n - 1 + 1) at 1 by lia. rewrite cache_list_snoc by lia. solve_Permutation.
    - split; cbn; [|intros _; apply len_insert; [done|cbn; lia]]. exists l1. split; [done|].
      unfold cached_of. cbn. by rewrite Ehw, Hcs.
    - rewrite lookup_total_insert_eq. cbn. lia. }
  destruct (Z.eqb_spec (len (m !!! lc)) 0) as [E0|E0].
  - destruct (sq_dequeue_burst_law _ _ _ (objs (m !!! lc)) LCORE_CACHE_SIZE Hl) as (q&t&->&Hq&Ht); [done|].
    set (n := Z.min LCORE_CACHE_SIZE (Z.of_nat (length l))) in *. cbn [len objs].
    assert (Hnil : cache_list (m !!! lc) = []) by (unfold cache_list; by rewrite E0).
    assert (Hct : cache_list (LCache n t) = take (Z.to_nat n) l).
    { apply cache_list_take; [unfold n, LCORE_CACHE_SIZE; lia|]. intros i Hi. by rewrite Ht, decide_True. }
    destruct (Z.eqb_spec n 0) as [En|En].
    + exists q, m, None. split; [done|]. split; [|done]. split; cbn; [|done]. exists l. rewrite En in Hq.
      split; [done|]. unfold cached_of. cbn. by rewrite Ehw.
    + eexists q, _, _. split; [done|]. cbn. rewrite Hnil in HPc.
      destruct (Htake q (drop (Z.to_nat n) l) (LCache n t) Hq) as (L'&H1&H2&H3); [cbn; unfold n, LCORE_CACHE_SIZE in *; lia| |].
      { rewrite HPc, Hct. rewrite <- (take_drop (Z.to_nat n) l) at 1. solve_Permutation. }
      exists L'. split; [done|]. split; [done|]. by intros _.
  - specialize (Hlen lc). rewrite (proj2 (Z.eqb_neq _ _) E0). eexists _, _, _. split; [done|]. cbn.
    destruct (Htake (free_slots h) l (m !!! lc) Hl) as (L'&H1&H2&H3); [lia|done|].
    exists L'. split; [done|]. split; [done|]. by intros _.
Qed.

(** Returning a slot to a cache with room, or to the ring. *)
Lemma slot_back_ok h c L lc x :
  slots_inv h c L -> 0 <= lc < RTE_MAX_LCORE -> Z.of_nat (length L) < c ->
  (hw_trans_mem_support h = true -> len (local_free_slots h !!! lc) < LCORE_CACHE_SIZE) ->
  exists q cs, enqueue_slot_back h lc x = set_free h q cs /\ slots_inv (set_free h q cs) c (x :: L).
Proof.
  intros [(l&Hl&HP) Hlen] Hlc Hc Hroom. unfold enqueue_slot_back, cached_of in *.
  destruct (hw_trans_mem_support h) eqn:Ehw; eexists _, _; (split; [done|]).
  - specialize (Hlen eq_refl). specialize (Hroom eq_refl). set (m := local_free_slots h) in *.
    destruct (cached_split m lc Hlc) as (A&B&Hcs). pose proof (Hlen lc).
    split; cbn; [|intros _; apply len_insert; [done|cbn; lia]]. exists l. split; [done|].
    unfold cached_of. cbn. rewrite Ehw, Hcs, HP, cache_list_push, <- (cached_at m lc), Hcs by lia.
    destruct (m !!! lc). cbn. solve_Permutation.
  - rewrite app_nil_r in HP. split; cbn; [|by rewrite Ehw]. exists (l ++ [x]). split.
    + apply sq_enqueue_law; [done|]. by rewrite <- HP.
    + unfold cached_of. cbn. rewrite Ehw, HP. solve_Permutation.
Qed.

Lemma slots_inv_ext h h' c L :
  free_slots h' = free_slots h -> hw_trans_mem_support h' = hw_trans_mem_support h ->
  local_free_slots h' = local_free_slots h -> slots_inv h c L -> slots_inv h' c L.
Proof.
  intros E1 E2 E3 [Hr Hl]. split.
  - unfold cached_of in *. by rewrite E1, E2, E3.
  - by rewrite E2, E3.
Qed.

(** Deleting an entry returns its slot; a full cache is emptied first. *)
Lemma remove_entry_ok h c L lc b i (x := key_idx h !!! (b, i)) :
  slots_inv h c L -> 0 <= lc < RTE_MAX_LCORE -> Z.of_nat (length L) < c ->
  exists q cs, remove_entry h lc b i =
      set_free (set_buckets h (<[(b, i) := Sig 0 0]> (signatures h)) (key_idx h)) q cs /\
    slots_inv (set_free h q cs) c (x :: L).
Proof.
  intros HS Hlc Hc. destruct (hw_trans_mem_support h) eqn:Ehw.
  2:{ destruct (slot_back_ok h c L lc x HS Hlc Hc) as (q&cs&E&HI); [by rewrite Ehw|].
      unfold enqueue_slot_back in E. rewrite Ehw in E. unfold remove_entry. rewrite Ehw.
      exists (sq_sp_enqueue (free_slots h) x), (local_free_slots h). split; [done|].
      fold x. by rewrite <- E in HI. }
  unfold remove_entry. rewrite Ehw. fold x. set (m := local_free_slots h) in *.
  destruct (Z.eqb_spec (len (m !!! lc)) LCORE_CACHE_SIZE) as [E8|E8].
  2:{ destruct (slot_back_ok h c L lc x HS Hlc Hc) as (q&cs&E&HI).
      { intros _. pose proof (sl_len _ _ _ HS Ehw lc) as Hx. fold m in Hx |- *. lia. }
      unfold enqueue_slot_back in E. rewrite Ehw in E. eexists _, _. split; [done|]. by rewrite <- E in HI. }
  destruct HS as [(l&Hl&HP) Hlen]. specialize (Hlen Ehw). unfold cached_of in HP. rewrite Ehw in HP.
  destruct (cached_split m lc Hlc) as (A&B&Hcs). rewrite <- (cached_at _ lc), Hcs in HP. fold m in HP.
  change ((fun i => objs (m !!! lc) !!! i) <$> seqZ 0 LCORE_CACHE_SIZE) with (cache_list (LCache LCORE_CACHE_SIZE (objs (m !!! lc)))).
  rewrite <- E8. replace (LCache (len (m !!! lc)) (objs (m !!! lc))) with (m !!! lc) by (by destruct (m !!! lc)).
  assert (Hll : length (cache_list (m !!! lc)) = 8%nat).
  { unfold cache_list. rewrite length_fmap, length_seqZ, E8. done. }
  destruct (sq_enqueue_burst_law _ _ _ (cache_list (m !!! lc)) (len (m !!! lc)) Hl) as (q&->&Hq).
  { rewrite E8. unfold LCORE_CACHE_SIZE. lia. }
  { rewrite HP in Hc. rewrite !length_app in Hc. rewrite E8. unfold LCORE_CACHE_SIZE. lia. }
  rewrite take_ge in Hq by (rewrite E8; unfold LCORE_CACHE_SIZE; lia). cbn [len objs].
  rewrite Z.sub_diag. eexists q, _. split; [done|].
  split; cbn; [|intros _; apply len_insert; [done|cbn; unfold LCORE_CACHE_SIZE; lia]].
  eexists. split; [done|]. unfold cached_of. cbn. rewrite Ehw, Hcs, HP.
  rewrite (cache_list_push 0) by lia. change (cache_list (LCache 0 _)) with (@nil Z). solve_Permutation.
Qed.

(** ** The slots in the ring of a new table *)

Lemma populate_from_ok q c l n :
  sq_repr q c l -> Z.of_nat (length l) + Z.of_nat (length n) <= c ->
  sq_repr (fold_left sq_sp_enqueue n q) c (l ++ n).
Proof.
  revert q l. induction n as [|x n IH]; intros q l Hq Hc; cbn; [by rewrite app_nil_r|].
  cbn in Hc. rewrite cons_middle, app_assoc. apply IH.
  - apply sq_enqueue_law; [done|]. lia.
  - rewrite length_app. cbn. lia.
Qed.

Lemma populate_ok q c n : sq_repr q c [] -> 0 <= n <= c -> sq_repr (populate_slots q n) c (seqZ 1 n).
Proof. intros Hq Hn. apply (populate_from_ok q c []); [done|]. rewrite length_seqZ. cbn. lia. Qed.

Lemma hash_drain_ok q c l fuel :
  sq_repr q c l -> (length l < fuel)%nat -> exists q', drain_slots fuel q = Some q' /\ sq_repr q' c [].
Proof.
  revert q l. induction fuel as [|fuel IH]; intros q l Hq Hf; [lia|]. cbn.
  destruct (sq_dequeue_law _ _ _ Hq) as (q'&->&Hq'). destruct l as [|x l]; cbn in *; [by exists q'|].
  apply (IH q' l); [done|lia].
Qed.

End slots.
