(* ===== verification/HashOps.v ===== *)
(** * The cuckoo hash table: the operations keep a map from keys to data *)

From S2P Require Import Prelude Bits SlotQueue Hash HashProofs HashSlots.

Section ops.
Context {Q : Type} `{SlotQueueLaws Q}.
Implicit Type (h : rte_hash Q).

(** ** Changing the table *)

(** The parts of the table the entries depend on. *)
Definition same_static h h' : Prop :=
  num_buckets h' = num_buckets h /\ bucket_bitmask h' = bucket_bitmask h /\ entries h' = entries h /\
  key_len h' = key_len h /\ key_entry_size h' = key_entry_size h /\
  cmp_jump_table_idx h' = cmp_jump_table_idx h /\ (forall k, rte_hash_hash h' k = rte_hash_hash h k).

Lemma cfg_ext h h' : same_static h h' -> hash_cfg h -> hash_cfg h'.
Proof. intros (E1&E2&E3&E4&E5&E6&_) [? ? ? ? ? ?]. split; rewrite ?E1, ?E2, ?E3, ?E4, ?E5, ?E6; done. Qed.

Lemma tbl_ext h h' S K hole (I I' : Z -> Prop) :
  same_static h h' -> (forall idx, I idx -> hkey (key_at h' idx) = hkey (key_at h idx)) ->
  (forall idx, I' idx <-> I idx) -> tbl_inv h S K hole I -> tbl_inv h' S K hole I'.
Proof.
  intros (E1&E2&E3&E4&E5&E6&E7) Hk HI [Hv Hi Hu Hd]. split; [|by intros idx; rewrite HI|done|done].
  intros p Hp Hup. destruct (Hv p Hp Hup) as [[? ?] (?&?&?&?)].
  assert (Hkp : hkey (key_at h' (K !!! p)) = hkey (key_at h (K !!! p))) by (apply Hk, Hi; by exists p).
  unfold in_tbl, valid, bucket, key_ok. rewrite Hkp, E1, E2, E3, E4, !E7. done.
Qed.

(** A used entry in place of the hole or of an empty entry. *)
Lemma fill_inv h S K hole I q s x :
  tbl_inv h S K hole I -> (Some q = hole \/ hole = None /\ ~ used S q) -> in_tbl h q ->
  valid h q.1 s x -> null_sig s = false -> ~ I x ->
  tbl_inv h (<[q := s]> S) (<[q := x]> K) None (fun y => I y \/ y = x).
Proof.
  intros [Hv Hi Hu Hd] Hq Hin Hvx Hs HIx.
  assert (Hlk : forall r, used (<[q := s]> S) r <-> r = q \/ (r <> q /\ used S r)).
  { intros r. unfold used. rewrite lookup_total_insert. case_decide; naive_solver. }
  assert (Hnh : forall r, used S r -> r <> q -> Some r <> hole).
  { intros r Hr Hne. destruct Hq as [<-|[-> _]]; [congruence|done]. }
  assert (HK : forall r, r <> q -> <[q := x]> K !!! r = K !!! r).
  { intros r Hr. by rewrite lookup_total_insert_ne by congruence. }
  assert (Hold : forall r, r <> q -> used S r -> I (K !!! r)).
  { intros r Hr Hur. apply Hi. exists r. split; [by apply Hnh|done]. }
  split.
  - intros r _ [->|[Hne Hr]]%Hlk; [by rewrite !lookup_total_insert_eq|].
    rewrite lookup_total_insert_ne, HK by congruence. apply Hv; [by apply Hnh|done].
  - intros y. split.
    + intros [Hy| ->]; [|exists q; rewrite Hlk, lookup_total_insert_eq; auto].
      apply Hi in Hy as (r&Hr&Hur&<-). assert (r <> q) by (intros ->; destruct Hq as [<-|[_ ?]]; done).
      exists r. rewrite Hlk, HK by done. auto.
    + intros (r&_&[->|[Hne Hur]]%Hlk&<-); [rewrite lookup_total_insert_eq; by right|].
      rewrite HK by done. left. by apply Hold.
  - intros r t _ _ [->|[Hne Hur]]%Hlk [->|[Hne' Hut]]%Hlk; [done|..]; rewrite ?lookup_total_insert_eq, ?HK by done.
    + intros E. destruct HIx. rewrite E. by apply Hold.
    + intros E. destruct HIx. rewrite <- E. by apply Hold.
    + apply Hu; [by apply Hnh..|done|done].
  - intros b. rewrite HK; [apply Hd|]. intros <-. destruct Hin as [_ Hin]. cbn in Hin. unfold RTE_HASH_BUCKET_ENTRIES in Hin. lia.
Qed.

(** Emptying an entry. *)
Lemma clear_inv h S K I p :
  tbl_inv h S K None I -> used S p ->
  tbl_inv h (<[p := Sig 0 0]> S) K None (fun y => I y /\ y <> K !!! p).
Proof.
  intros [Hv Hi Hu Hd] Hp.
  assert (Hlk : forall r, used (<[p := Sig 0 0]> S) r <-> r <> p /\ used S r).
  { intros r. unfold used. rewrite lookup_total_insert. case_decide; naive_solver. }
  split.
  - intros r Hr [Hne Hur]%Hlk. rewrite lookup_total_insert_ne by congruence. by apply Hv.
  - intros y. rewrite Hi. split.
    + intros [(r&Hr&Hur&<-) Hne]. exists r. rewrite Hlk. split_and!; congruence.
    + intros (r&_&[Hne Hur]%Hlk&<-). split; [by exists r|]. intros E. by apply Hne, Hu.
  - intros r t Hr Ht [_ Hur]%Hlk [_ Hut]%Hlk. by apply Hu.
  - done.
Qed.

(** ** The invariant *)

Record hash_inv h (c : Z) (M : gmap (list Z) (Z * Z)) : Prop := {
  hn_keys : keys_inv h M;
  hn_flags : forall p, flag h !!! p = 0;
  hn_free : exists L, slots_inv h c L /\ NoDup L /\
    forall x, x ∈ L <-> 1 <= x <= entries h /\ ~ idx_of M x;
  hn_cap : entries h <= c
}.

Lemma length_bound L n : NoDup L -> (forall x, x ∈ L -> 1 <= x <= n) -> Z.of_nat (length L) <= Z.max 0 n.
Proof.
  intros Hnd Hin. assert (Hs : L ⊆+ seqZ 1 n).
  { apply NoDup_submseteq; [done|]. intros x Hx%Hin. apply elem_of_seqZ. lia. }
  apply submseteq_length in Hs. rewrite length_seqZ in Hs. lia.
Qed.

(** Room in the ring for one more slot. *)
Lemma hash_room_for h c M L x :
  hash_inv h c M -> NoDup L -> (forall y, y ∈ L -> 1 <= y <= entries h) -> x ∉ L -> 1 <= x <= entries h ->
  Z.of_nat (length L) < c.
Proof.
  intros HI Hnd Hin Hx Hr. pose proof (length_bound (x :: L) (entries h)) as Hb. pose proof (hn_cap _ _ _ HI).
  cbn in Hb. assert (Z.of_nat (S (length L)) <= Z.max 0 (entries h)); [|lia].
  apply Hb; [by apply NoDup_cons|]. intros y [->|Hy]%elem_of_cons; auto.
Qed.

Lemma idx_of_range h M x : keys_inv h M -> idx_of M x -> 1 <= x <= entries h.
Proof.
  intros HK Hx. apply (ti_idx _ _ _ _ _ (ky_tbl _ _ HK)) in Hx as (p&_&Hu&<-).
  by destruct (ti_valid _ _ _ _ _ (ky_tbl _ _ HK) p ltac:(done) Hu) as [_ [? _]].
Qed.

(** Slots are at different offsets. *)
Lemma key_at_write h idx idx' k :
  0 < key_entry_size h ->
  key_at (set_keys h (<[idx * key_entry_size h := k]> (key_store h))) idx' =
    if decide (idx' = idx) then k else key_at h idx'.
Proof.
  intros Hs. unfold key_at. cbn. rewrite lookup_total_insert. repeat case_decide; subst; try done. nia.
Qed.

(** Writing a slot that is not in use. *)
Lemma keys_write_free h M x k :
  keys_inv h M -> ~ idx_of M x -> keys_inv (set_keys h (<[x * key_entry_size h := k]> (key_store h))) M.
Proof.
  intros [HC HT HM] Hx. assert (Hs : 0 < key_entry_size h) by (destruct HC; lia).
  assert (Hkeep : forall idx, idx_of M idx -> key_at (set_keys h (<[x * key_entry_size h := k]> (key_store h))) idx = key_at h idx).
  { intros idx Hi. rewrite key_at_write, decide_False; [done|by intros ->|done]. }
  split.
  - by apply (cfg_ext h).
  - apply (tbl_ext h _ _ _ _ (idx_of M)); [done| |done|exact HT]. intros idx Hi. by rewrite Hkeep.
  - intros kk idx d E. rewrite Hkeep; [by apply HM|]. by exists kk, d.
Qed.

(** The invariant only looks at the slots through [slots_inv]. *)
Lemma keys_set_free h M q cs : keys_inv h M -> keys_inv (set_free h q cs) M.
Proof. intros [HC HT HM]. split; [by apply (cfg_ext h)|by apply (tbl_ext h _ _ _ _ (idx_of M))|done]. Qed.

(** ** Adding a key *)

(** The state after a slot was taken. *)
Record taken h (c : Z) (M : gmap (list Z) (Z * Z)) (lc slot : Z) (L : list Z) : Prop := {
  tk_keys : keys_inv h M;
  tk_flags : forall p, flag h !!! p = 0;
  tk_slots : slots_inv h c L;
  tk_nodup : NoDup (slot :: L);
  tk_free : forall x, x ∈ slot :: L <-> 1 <= x <= entries h /\ ~ idx_of M x;
  tk_cap : entries h <= c;
  tk_core : 0 <= lc < RTE_MAX_LCORE;
  tk_cache : hw_trans_mem_support h = true -> len (local_free_slots h !!! lc) < LCORE_CACHE_SIZE
}.

Lemma taken_slot h c M lc slot L : taken h c M lc slot L -> 1 <= slot <= entries h /\ ~ idx_of M slot.
Proof. intros HT. apply (tk_free _ _ _ _ _ _ HT). by left. Qed.

(** Giving the slot back. *)
Lemma taken_back h c M lc slot L :
  taken h c M lc slot L -> exists q cs, enqueue_slot_back h lc slot = set_free h q cs /\
    slots_inv (set_free h q cs) c (slot :: L).
Proof.
  intros [HK _ HS Hnd Hfr Hcap Hlc Hcache]. apply slot_back_ok; [done|done| |done].
  pose proof (length_bound (slot :: L) (entries h) Hnd) as Hb. cbn in Hb.
  assert (forall x, x ∈ slot :: L -> 1 <= x <= entries h) by (intros x Hx; by apply Hfr). specialize (Hb H1).
  destruct HK as [[] _ _]. lia.
Qed.

(** The slots of a map whose key is overwritten, or new. *)
Lemma idx_of_update M key idx d d' y :
  M !! key = Some (idx, d) -> idx_of (<[key := (idx, d')]> M) y <-> idx_of M y.
Proof.
  intros E. unfold idx_of. split; intros (k&z&Hk).
  - apply lookup_insert_Some in Hk as [[<- [= <- _]]|[_ Hk]]; eauto.
  - destruct (decide (k = key)) as [->|Hne]; [simplify_eq; exists key, d'; by rewrite lookup_insert_eq|].
    exists k, z. by rewrite lookup_insert_ne.
Qed.

Lemma idx_of_insert M key x d y :
  M !! key = None -> idx_of (<[key := (x, d)]> M) y <-> idx_of M y \/ y = x.
Proof.
  intros E. unfold idx_of. split.
  - intros (k&z&Hk). apply lookup_insert_Some in Hk as [[<- [= <- _]]|[_ Hk]]; eauto.
  - intros [(k&z&Hk)| ->]; [|exists key, d; by rewrite lookup_insert_eq].
    exists k, z. rewrite lookup_insert_ne; [done|]. congruence.
Qed.

(** New data for a key that is there. *)
Lemma keys_update h M key idx d data :
  keys_inv h M -> M !! key = Some (idx, d) ->
  keys_inv (set_keys h (<[idx * key_entry_size h := HKey data key]> (key_store h))) (<[key := (idx, data)]> M).
Proof.
  intros [HC HT HM] E. assert (Hs : 0 < key_entry_size h) by (destruct HC; lia). split.
  - by apply (cfg_ext h).
  - apply (tbl_ext h _ _ _ _ (idx_of M)); [done| |by intros; eapply idx_of_update|done].
    intros i _. rewrite key_at_write by done. case_decide; [subst; by rewrite (HM _ _ _ E)|done].
  - intros k i z Hk. rewrite key_at_write by done. apply lookup_insert_Some in Hk as [[<- [= <- <-]]|[Hne Hk]].
    + by rewrite decide_True.
    + rewrite decide_False; [by apply HM|]. intros ->. pose proof (HM _ _ _ Hk) as E1. rewrite (HM _ _ _ E) in E1. congruence.
Qed.

Lemma update_ok h c M lc slot L key b i idx d data :
  taken h c M lc slot L -> M !! key = Some (idx, d) -> key_idx h !!! (b, i) = idx ->
  entry_key h b i = HKey d key ->
  exists h', update_data h lc slot b i data = (h', idx - 1) /\ same_static h h' /\
    hw_trans_mem_support h' = hw_trans_mem_support h /\ hash_inv h' c (<[key := (idx, data)]> M).
Proof.
  intros HT E Ei Ek. destruct (taken_back _ _ _ _ _ _ HT) as (q&cs&Eb&Hback).
  unfold update_data. rewrite Eb, Ei, Ek. cbn [hkey].
  assert (Hr : 1 <= idx <= entries h) by (eapply idx_of_range; [apply HT|by exists key, d]).
  destruct (slot_offset h idx (ky_cfg _ _ (tk_keys _ _ _ _ _ _ HT))) as [-> _]; [lia|].
  eexists. split; [done|]. split; [done|]. split; [done|]. destruct HT as [HK Hfl HS Hnd Hfr Hcap Hlc Hcache]. split.
  - apply (keys_update (set_free h q cs) M key idx d); [by apply keys_set_free|done].
  - done.
  - exists (slot :: L). split; [by eapply slots_inv_ext; [| | |exact Hback]|]. split; [done|].
    intros x. rewrite (idx_of_update _ _ _ _ _ _ E). apply Hfr.
  - done.
Qed.

(** A new entry for the key in its primary bucket. *)
Lemma hash_insert_ok h c M lc slot L key data S K F hole i (sig := rte_hash_hash h key) :
  taken h c M lc slot L -> key_ok h key -> M !! key = None -> key_at h slot = HKey data key ->
  0 <= i < 4 -> tbl_inv h S K hole (idx_of M) ->
  (Some (bucket h sig, i) = hole \/ hole = None /\ ~ used S (bucket h sig, i)) ->
  (forall p, F !!! p = 0) ->
  hash_inv (set_entry (rebucket h S K F) (bucket h sig) i (Sig sig (rte_hash_secondary_hash sig)) slot) c
    (<[key := (slot, data)]> M).
Proof.
  intros HT Hkey E Ek Hi Htbl Hhole HF. destruct (taken_slot _ _ _ _ _ _ HT) as [Hsl Hnu].
  destruct HT as [HK Hfl HS Hnd Hfr Hcap Hlc Hcache]. pose proof HK as [HC _ HM]. split; [split|..].
  - by apply (cfg_ext h).
  - apply (tbl_ext h _ _ _ _ (fun y => idx_of M y \/ y = slot)); [done|done|by intros; apply idx_of_insert|].
    eapply fill_inv; [exact Htbl|done| | |apply secondary_not_null|done].
    + split; [by apply bucket_range|done].
    + unfold valid. rewrite Ek. cbn. split_and!; [lia|lia|done|done|]. by left.
  - intros k idx d Hk. apply lookup_insert_Some in Hk as [[<- [= <- <-]]|[_ Hk]]; [done|]. by apply HM.
  - done.
  - exists L. split; [by eapply slots_inv_ext; [| | |exact HS]|]. apply NoDup_cons in Hnd as [Hn HndL]. split; [done|].
    intros x. rewrite idx_of_insert by done. change (entries (set_entry _ _ _ _ _)) with (entries h).
    specialize (Hfr x). rewrite elem_of_cons in Hfr. split.
    + intros Hx. destruct (proj1 Hfr (or_intror Hx)). split; [done|]. intros [?| ->]; done.
    + intros [Hr Hno]. destruct (proj2 Hfr) as [->|?]; [tauto| |done]. destruct Hno. by right.
  - done.
Qed.

(** The outcomes of an addition. *)
Definition add_post h (c : Z) (M : gmap (list Z) (Z * Z)) (key : list Z) (data : Z) (res : rte_hash Q * Z) : Prop :=
  let '(h', ret) := res in
  same_static h h' /\ hw_trans_mem_support h' = hw_trans_mem_support h /\
  match M !! key with
  | Some (idx, _) =>
      (ret = idx - 1 /\ hash_inv h' c (<[key := (idx, data)]> M)) \/
      (ret = - ENOSPC /\ hash_inv h' c M /\
       (hw_trans_mem_support h = false -> forall x, 1 <= x <= entries h -> idx_of M x))
  | None =>
      (exists idx, 1 <= idx <= entries h /\ ~ idx_of M idx /\ ret = idx - 1 /\
         hash_inv h' c (<[key := (idx, data)]> M)) \/
      (ret = - ENOSPC /\ hash_inv h' c M /\
       (hw_trans_mem_support h = false -> (forall x, 1 <= x <= entries h -> idx_of M x) \/
          forall i, 0 <= i < 4 -> used (signatures h) (bucket h (rte_hash_hash h key), i)))
  end.

(** The tests of the entries when a key is added. *)
Definition st_sec (sig alt_hash : Z) (s : rte_hash_signatures) : bool := (alt s =? sig) && (current s =? alt_hash).

Lemma st_sec_both sig alt_hash s : st_sec sig alt_hash s = st_both alt_hash sig s.
Proof. apply andb_comm. Qed.

Lemma add_scan h M key (sig := rte_hash_hash h key) (alt_hash := rte_hash_secondary_hash sig) :
  keys_inv h M -> key_ok h key ->
  match M !! key with
  | Some (idx, d) => exists b i, key_idx h !!! (b, i) = idx /\ entry_key h b i = HKey d key /\
      ((add_find_prim h key sig alt_hash = Some i /\ b = bucket h sig) \/
       (add_find_prim h key sig alt_hash = None /\ add_find_sec h key sig alt_hash = Some i /\ b = bucket h alt_hash))
  | None => add_find_prim h key sig alt_hash = None /\ add_find_sec h key sig alt_hash = None
  end.
Proof.
  intros HK Hkey.
  pose proof (scan2_ok h M key (st_both sig alt_hash) (st_sec sig alt_hash) HK Hkey
    (fun s => st_both_used _ _ s (secondary_not_null sig))) as Hs. fold sig alt_hash in Hs.
  assert (N2 : forall s, st_sec sig alt_hash s = true -> null_sig s = false).
  { intros s. rewrite st_sec_both. apply st_both_used, secondary_swap_not_null. }
  specialize (Hs N2 (st_both_refl _ _)). rewrite st_sec_both in Hs. specialize (Hs (st_both_refl _ _)).
  unfold scan2 in Hs. fold sig alt_hash in Hs.
  change (scan h key (bucket h sig) (st_both sig alt_hash)) with (add_find_prim h key sig alt_hash) in Hs.
  change (scan h key (bucket h alt_hash) (st_sec sig alt_hash)) with (add_find_sec h key sig alt_hash) in Hs.
  destruct (M !! key) as [[idx d]|].
  - destruct Hs as (b&i&Hs&_&_&Ei&Ek). exists b, i. split; [done|]. split; [done|].
    destruct (add_find_prim _ _ _ _); [simplify_eq; auto|]. destruct (add_find_sec _ _ _ _); simplify_eq. auto.
  - destruct (add_find_prim _ _ _ _); [done|]. by destruct (add_find_sec _ _ _ _).
Qed.

Lemma idx_of_dec (M : gmap (list Z) (Z * Z)) x : {idx_of M x} + {~ idx_of M x}.
Proof.
  destruct (decide (Exists (fun kv => kv.2.1 = x) (map_to_list M))) as [Hx|Hx]; [left|right].
  - apply Exists_exists in Hx as ([k [i d]]&Hin%elem_of_map_to_list&<-). by exists k, d.
  - intros (k&d&E). apply Hx, Exists_exists. exists (k, (x, d)). by rewrite elem_of_map_to_list.
Qed.

Lemma flags_ok h : (forall p, flag h !!! p = 0) -> flagged_ok h.
Proof. intros HF p Hp. by rewrite HF in Hp. Qed.

Lemma unflagged_bound h F : 0 <= num_buckets h -> (unflagged h F < space_fuel h)%nat.
Proof.
  intros Hn. unfold unflagged, space_fuel, RTE_HASH_BUCKET_ENTRIES.
  assert (Hl : length (all_pos h) = (4 * length (seqZ 0 (num_buckets h)))%nat).
  { unfold all_pos. induction (seqZ 0 (num_buckets h)) as [|b l IH]; [done|]. rewrite bind_cons, length_app, IH.
    change (length (i ← seqZ 0 4; [(b, i)])) with 4%nat. cbn [length]. lia. }
  rewrite length_seqZ in Hl.
  pose proof (length_filter (fun p => F !!! p = 0) (all_pos h)). lia.
Qed.

(** A key that is not there, with a slot taken and the key stored. *)
Lemma hash_place_ok h c M lc slot L key data (sig := rte_hash_hash h key) :
  taken h c M lc slot L -> key_ok h key -> M !! key = None -> key_at h slot = HKey data key ->
  exists res, (match find_entry (fun i => null_sig (signatures h !!! (bucket h sig, i))) with
    | Some i => Some (set_entry h (bucket h sig) i (Sig sig (rte_hash_secondary_hash sig)) slot, slot - 1)
    | None =>
        '(h2, ret) ← make_space_bucket (space_fuel h) h (bucket h sig);
        Some (if 0 <=? ret
              then (set_entry h2 (bucket h sig) ret (Sig sig (rte_hash_secondary_hash sig)) slot, slot - 1)
              else (enqueue_slot_back h2 lc slot, ret))
    end) = Some res /\ add_post h c M key data res.
Proof.
  intros HT Hkey E Ek. destruct (taken_slot _ _ _ _ _ _ HT) as [Hsl Hnu]. unfold add_post. rewrite E.
  pose proof HT as [HK Hfl HS Hnd Hfr Hcap Hlc Hcache]. pose proof (ky_cfg _ _ HK) as HC.
  pose proof (bucket_range h sig HC) as Hb.
  assert (Hself : h = rebucket h (signatures h) (key_idx h) (flag h)) by (by destruct h).
  destruct (find_entry _) as [i|] eqn:Ef.
  - apply find_entry_Some in Ef as (Hi&Hn&_). eexists. split; [done|]. split; [done|]. split; [done|]. left.
    exists slot. do 3 (split; [done|]). rewrite Hself at 1.
    apply (hash_insert_ok h c M lc slot L key data (signatures h) (key_idx h) (flag h) None i); try done; [apply HK|].
    right. split; [done|]. unfold used. cbv zeta. fold sig. by rewrite Hn.
  - rewrite find_entry_None in Ef.
    destruct (make_space_ok (space_fuel h) h (idx_of M) (bucket h sig)) as ([h2 ret]&->&Hpost);
      [done|apply HK|by apply flags_ok|done|done|apply unflagged_bound; lia|].
    destruct Hpost as (S&K&F&Eh&HF&Hpost). cbn [fst snd] in *. subst h2. cbn [mbind option_bind].
    assert (HF0 : forall p, F !!! p = 0) by (intros p; rewrite HF; apply Hfl).
    destruct Hpost as [(->&->&->)|(Hret&_&Htbl&_)].
    + eexists. split; [done|]. destruct (taken_back _ _ _ _ _ _ HT) as (q&cs&Eb&Hback).
      assert (Eb' : enqueue_slot_back (rebucket h (signatures h) (key_idx h) F) lc slot =
        set_free (rebucket h (signatures h) (key_idx h) F) q cs).
      { unfold enqueue_slot_back in *. cbn. destruct (hw_trans_mem_support h); by injection Eb as -> ->. }
      change (0 <=? - ENOSPC) with false. cbv iota. rewrite Eb'. split; [done|]. split; [done|]. right.
      split; [done|]. split; [split|by intros _; right].
      * apply keys_set_free. split; [by apply (cfg_ext h)| |apply HK]. apply (tbl_ext h _ _ _ _ (idx_of M)); try done. apply HK.
      * done.
      * exists (slot :: L). split; [by eapply slots_inv_ext; [| | |exact Hback]|done].
      * done.
    + rewrite (proj2 (Z.leb_le 0 ret)) by lia. eexists. split; [done|]. split; [done|]. split; [done|]. left.
      exists slot. do 3 (split; [done|]). apply (hash_insert_ok h c M lc slot L key data S K F (Some (bucket h sig, ret)) ret); try done. by left.
Qed.

Lemma hash_add_ok h c M lc key data :
  hash_inv h c M -> 0 <= lc < RTE_MAX_LCORE -> key_ok h key ->
  exists res, rte_hash_add_key_with_hash_ h lc key (rte_hash_hash h key) data = Some res /\
    add_post h c M key data res.
Proof.
  intros HI Hlc Hkey. pose proof HI as [HK Hfl (L&HS&Hnd&Hfr) Hcap]. pose proof (ky_cfg _ _ HK) as HC.
  destruct (get_slot_ok h c L lc HS Hlc) as (q&cs&x&Eg&Hx).
  unfold rte_hash_add_key_with_hash_. rewrite Eg. set (h1 := set_free h q cs) in *.
  set (sig := rte_hash_hash h key) in *.
  destruct x as [slot|].
  2:{ destruct Hx as [HS1 Hnil]. eexists. split; [done|]. split; [done|]. split; [done|].
      assert (HI1 : hash_inv h1 c M) by (split; [by apply keys_set_free|done|by exists L|done]).
      assert (Hall : hw_trans_mem_support h = false -> forall y, 1 <= y <= entries h -> idx_of M y).
      2:{ destruct (M !! key) as [[idx d]|]; right; (split; [done|]); (split; [done|]); auto. }
      intros Hhw y Hy. destruct (idx_of_dec M y) as [|Hno]; [done|].
      assert (Hin : y ∈ L) by (by apply Hfr). rewrite (Hnil Hhw) in Hin. by apply not_elem_of_nil in Hin. }
  destruct Hx as (L'&HP&HS1&Hcache).
  assert (HT : taken h1 c M lc slot L').
  { split; [by apply keys_set_free|done|done|by rewrite <- HP|by intros x; rewrite <- HP; apply Hfr|done..]. }
  destruct (taken_slot _ _ _ _ _ _ HT) as [Hsl Hnu]. cbn in Hsl.
  assert (Eidx : u32 slot = slot) by (apply u32_small; destruct HC; nia). rewrite Eidx.
  pose proof (add_scan h1 M key (tk_keys _ _ _ _ _ _ HT) Hkey) as Hscan.
  change (rte_hash_hash h1 key) with sig in Hscan. unfold add_post.
  destruct (M !! key) as [[idx d]|] eqn:E.
  - destruct Hscan as (b&i&Ei&Ek&Hfound).
    destruct (update_ok h1 c M lc slot L' key b i idx d data HT E Ei Ek) as (h'&Eu&Hst&Hhw&HI').
    exists (h', idx - 1). split; [|by split_and!; try done; left].
    destruct Hfound as [[-> ->]|(->&->&->)]; [by rewrite <- Eu|by rewrite <- Eu].
  - destruct Hscan as [-> ->]. set (h2 := set_keys h1 _).
    destruct (slot_offset h slot HC) as [_ Eoff]; [lia|].
    assert (Ek : key_at h2 slot = HKey data key).
    { unfold key_at, h2. cbn. rewrite Eoff, lookup_total_insert_eq. by rewrite bytes_id. }
    assert (HT2 : taken h2 c M lc slot L').
    { destruct HT as [HK1 Hfl1 _ ? ? ? ? ?]. split; try done.
      - unfold h2. change (key_entry_size h1) with (key_entry_size h). rewrite Eoff. by apply (keys_write_free h1).
      - by eapply slots_inv_ext; [| | |exact HS1]. }
    destruct (hash_place_ok h2 c M lc slot L' key data HT2 Hkey E Ek) as (res&Er&Hres).
    exists res. split; [exact Er|]. unfold add_post in Hres. by rewrite E in Hres.
Qed.

(** ** Deletion *)

Lemma idx_of_delete h M key idx d y :
  keys_inv h M -> M !! key = Some (idx, d) -> idx_of (delete key M) y <-> idx_of M y /\ y <> idx.
Proof.
  intros HK E. unfold idx_of. split.
  - intros (k&z&[Hne Hk]%lookup_delete_Some). split; [by exists k, z|]. intros ->.
    pose proof (ky_map _ _ HK _ _ _ Hk) as E1. rewrite (ky_map _ _ HK _ _ _ E) in E1. congruence.
  - intros [(k&z&Hk) Hne]. exists k, z. apply lookup_delete_Some. split; [|done]. intros <-. congruence.
Qed.

Lemma keys_delete h M key p d :
  keys_inv h M -> M !! key = Some (key_idx h !!! p, d) -> used (signatures h) p ->
  keys_inv (set_buckets h (<[p := Sig 0 0]> (signatures h)) (key_idx h)) (delete key M).
Proof.
  intros HK E Hu. pose proof HK as [HC HT HM]. split; [by apply (cfg_ext h)| |].
  - apply (tbl_ext h _ _ _ _ (fun y => idx_of M y /\ y <> key_idx h !!! p)); [done|done| |by apply clear_inv].
    intros y. by eapply idx_of_delete.
  - intros k i z [_ Hk]%lookup_delete_Some. by apply HM.
Qed.

Lemma del_ok h c M lc key :
  hash_inv h c M -> 0 <= lc < RTE_MAX_LCORE -> key_ok h key ->
  let '(h', ret) := rte_hash_del_key_with_hash h lc key (rte_hash_hash h key) in
  same_static h h' /\ hw_trans_mem_support h' = hw_trans_mem_support h /\
  match M !! key with
  | Some (idx, _) => ret = idx - 1 /\ hash_inv h' c (delete key M)
  | None => ret = - ENOENT /\ h' = h
  end.
Proof.
  intros HI Hlc Hkey. pose proof HI as [HK Hfl (L&HS&Hnd&Hfr) Hcap].
  set (sig := rte_hash_hash h key). set (alt_hash := rte_hash_secondary_hash sig).
  pose proof (scan2_ok h M key (st_current sig) (st_current alt_hash) HK Hkey (st_current_used sig)
    (st_current_used alt_hash)) as Hs. fold sig alt_hash in Hs.
  specialize (Hs ltac:(unfold st_current; cbn [current]; by rewrite Z.eqb_refl, secondary_not_null)
    ltac:(unfold st_current, alt_hash; cbn [current]; by rewrite Z.eqb_refl, secondary_swap_not_null)).
  assert (Hdel : forall b i d, used (signatures h) (b, i) -> M !! key = Some (key_idx h !!! (b, i), d) ->
    hash_inv (remove_entry h lc b i) c (delete key M) /\ same_static h (remove_entry h lc b i) /\
    hw_trans_mem_support (remove_entry h lc b i) = hw_trans_mem_support h).
  { intros b i d Hu E. set (x := key_idx h !!! (b, i)) in *.
    assert (Hix : idx_of M x) by (by exists key, d). pose proof (idx_of_range _ _ _ HK Hix) as Hr.
    assert (HxL : x ∉ L) by (intros Hin; apply Hfr in Hin; tauto).
    destruct (remove_entry_ok h c L lc b i HS Hlc) as (q&cs&->&HS').
    { apply (hash_room_for h c M L x HI Hnd); [intros y Hy; by apply Hfr|done|done]. }
    split; [|done]. split.
    - apply keys_set_free. by apply (keys_delete h M key (b, i) d).
    - done.
    - exists (x :: L). split; [by eapply slots_inv_ext; [| | |exact HS']|]. split; [by apply NoDup_cons|].
      intros y. rewrite elem_of_cons, (idx_of_delete h M key x d y HK E), Hfr. cbn. split.
      + intros [->|[? ?]]; split; try done; tauto.
      + intros [? Hno]. destruct (decide (y = x)) as [->|]; [by left|right]. split; [done|]. intros ?. by apply Hno.
    - done. }
  unfold rte_hash_del_key_with_hash. change (find_prim h key sig) with (scan h key (bucket h sig) (st_current sig)).
  change (del_find_sec h key sig) with (scan h key (bucket h alt_hash) (st_current alt_hash)).
  unfold scan2 in Hs. fold sig alt_hash in Hs. destruct (M !! key) as [[idx d]|] eqn:E.
  - destruct Hs as (b&i&Hs&_&Hu&<-&_). destruct (Hdel b i d Hu eq_refl) as (?&?&?).
    destruct (scan _ _ _ (st_current sig)); [by simplify_eq|].
    destruct (scan _ _ _ _); [by simplify_eq|done].
  - destruct (scan _ _ _ (st_current sig)); [done|]. by destruct (scan _ _ _ _).
Qed.

(** ** Creation *)

Lemma empty_tbl h : tbl_inv h empty empty None (fun _ => False).
Proof.
  split; [done| |done|]; [|by intros b; rewrite lookup_total_empty]. intros idx. split; [done|]. by intros (p&_&?&_).
Qed.

(** A new table holds the empty map, and every slot is free. *)
Lemma setup_ok (r : Q) c n klen f init hw :
  sq_repr r c [] -> hash_params_ok n klen = true -> n <= c -> 0 <= klen ->
  (n + 1) * (16 + klen) <= 2 ^ 32 ->
  hash_inv (hash_setup r n klen f init hw) c empty.
Proof.
  intros Hr Hp Hc Hk Hst. unfold hash_params_ok, RTE_HASH_ENTRIES_MAX, RTE_HASH_BUCKET_ENTRIES in Hp.
  rewrite negb_true_iff, !orb_false_iff, !Z.ltb_ge, Z.eqb_neq in Hp. destruct Hp as [[Hn1 Hn2] Hk0].
  assert (Hsize : u32 (16 + klen) = 16 + klen) by (apply u32_small; nia).
  set (h := hash_setup r n klen f init hw).
  assert (HC : hash_cfg h).
  { destruct (align32pow2_spec n) as (k&Hkr&Ek&Hb); [lia|].
    assert (2 <= k) by (destruct (decide (2 <= k)); [done|]; assert (2 ^ k <= 2 ^ 1) by (apply Z.pow_le_mono_r; lia); lia).
    assert (k <= 30).
    { destruct (decide (k <= 30)); [done|]. assert (2 ^ 31 <= 2 ^ k) by (apply Z.pow_le_mono_r; lia). lia. }
    assert (Enb : rte_align32pow2 n / RTE_HASH_BUCKET_ENTRIES = 2 ^ (k - 2)).
    { rewrite Ek. unfold RTE_HASH_BUCKET_ENTRIES. change 4 with (2 ^ 2). rewrite <- Z.pow_sub_r by lia. done. }
    assert (2 ^ (k - 2) <= 2 ^ 28) by (apply Z.pow_le_mono_r; lia).
    split; cbn; try done; try lia.
    exists (k - 2). rewrite Enb. split; [lia|]. split; [done|]. rewrite u32_small by lia. done. }
  assert (Hno : forall x, ~ idx_of empty x) by (intros x (k&d&?); done).
  split; [split|..].
  - done.
  - apply (tbl_ext h _ _ _ _ (fun _ => False)); [done|done| |apply empty_tbl]. intros x. split; [by intros ?%Hno|done].
  - done.
  - intros p. change (flag h) with (∅ : gmap (Z * Z) Z). by rewrite lookup_total_empty.
  - exists (seqZ 1 n). split; [|split; [apply NoDup_seqZ|]].
    + split; [|intros _ lc; cbn; rewrite lookup_total_empty; cbn; unfold LCORE_CACHE_SIZE; lia].
      exists (seqZ 1 n). split; [apply populate_ok; [done|lia]|]. unfold cached_of. cbn.
      destruct hw; [|by rewrite app_nil_r]. unfold cached.
      replace (lc ← seqZ 0 RTE_MAX_LCORE; cache_list ((∅ : gmap Z lcore_cache) !!! lc)) with (@nil Z); [by rewrite app_nil_r|].
      induction (seqZ 0 RTE_MAX_LCORE) as [|x l IH]; [done|]. by rewrite bind_cons, lookup_total_empty.
    + intros x. rewrite elem_of_seqZ. cbn. pose proof (Hno x). split; [intros; split; [lia|done]|lia].
  - done.
Qed.

(** ** Reset *)

Lemma reset_ok h c M fuel :
  hash_inv h c M -> c < Z.of_nat fuel ->
  exists h', rte_hash_reset fuel (Some h) = Some (Some h') /\ same_static h h' /\
    hw_trans_mem_support h' = hw_trans_mem_support h /\ hash_inv h' c empty.
Proof.
  intros HI Hf. pose proof HI as [HK Hfl (L&HS&_&_) Hcap]. destruct HS as [(l&Hl&_) Hcl].
  destruct (hash_drain_ok _ _ _ fuel Hl) as (q&Eq&Hq); [pose proof (sq_length_law _ _ _ Hl); lia|].
  unfold rte_hash_reset. rewrite Eq. cbn [mbind option_bind]. eexists. split; [done|]. split; [done|]. split; [done|].
  assert (Hno : forall x, ~ idx_of empty x) by (intros x (k&d&?); done).
  pose proof (ky_cfg _ _ HK) as HC. pose proof (hc_entries _ HC). split; [split|..].
  - by apply (cfg_ext h).
  - apply (tbl_ext h _ _ _ _ (fun _ => False)); [done|done| |apply empty_tbl]. intros x. split; [by intros ?%Hno|done].
  - done.
  - intros p. cbn. by rewrite lookup_total_empty.
  - exists (seqZ 1 (entries h)). split; [|split; [apply NoDup_seqZ|]].
    2:{ intros x. rewrite elem_of_seqZ. cbn. pose proof (Hno x). split; [intros; split; [lia|done]|lia]. }
    assert (Hcs : hw_trans_mem_support h = true -> forall lc,
      cache_list (((fun c => LCache 0 (objs c)) <$> local_free_slots h) !!! lc) = []).
    { intros _ lc. rewrite lookup_total_alt, lookup_fmap. by destruct (local_free_slots h !! lc). }
    split.
    + exists (seqZ 1 (entries h)). split; [apply populate_ok; [done|lia]|]. unfold cached_of. cbn.
      destruct (hw_trans_mem_support h); [|by rewrite app_nil_r]. unfold cached. specialize (Hcs eq_refl).
      assert (E : forall l, (lc ← l; cache_list (((fun c => LCache 0 (objs c)) <$> local_free_slots h) !!! lc)) = []).
      { induction l0 as [|x l0 IH]; [done|]. by rewrite bind_cons, Hcs. }
      by rewrite E, app_nil_r.
    + cbn. intros -> lc. rewrite lookup_total_alt, lookup_fmap.
      destruct (local_free_slots h !! lc); cbn; unfold LCORE_CACHE_SIZE; lia.
  - done.
Qed.

End ops.
