(* ===== verification/HashIterate.v ===== *)
(** * The cuckoo hash table: iteration visits every key once *)

From S2P Require Import Prelude SlotQueue Hash HashProofs HashSlots HashOps.

Section iterate.
Context {Q : Type} `{SlotQueueLaws Q}.
Implicit Type (h : rte_hash Q).

(** The entry number [n] of the table. *)
Definition nth_entry (n : Z) : Z * Z := (n / RTE_HASH_BUCKET_ENTRIES, n mod RTE_HASH_BUCKET_ENTRIES).

Definition total_entries h : Z := num_buckets h * RTE_HASH_BUCKET_ENTRIES.

(** What a call reports for an entry. *)
Definition report h (p : Z * Z) : Z * (list Z * Z) :=
  (key_idx h !!! p - 1, (hkey (entry_key h p.1 p.2), pdata (entry_key h p.1 p.2))).

(** The calls of a program that visits the table until -ENOENT. *)
Fixpoint iterate_all (fuel : nat) h (next : Z) : list (Z * (list Z * Z)) :=
  match fuel with
  | O => []
  | S fuel' =>
      match rte_hash_iterate h next with
      | (ret, Some kd, next') => (ret, kd) :: iterate_all fuel' h next'
      | (_, None, _) => []
      end
  end.

Lemma total_small h : hash_cfg h -> 0 < total_entries h <= 2 ^ 30 /\ u32 (total_entries h) = total_entries h.
Proof.
  intros HC. destruct (hc_mask _ HC) as (k&Hk&E&_). unfold total_entries, RTE_HASH_BUCKET_ENTRIES.
  assert (0 < 2 ^ k) by lia. assert (2 ^ k <= 2 ^ 28) by (apply Z.pow_le_mono_r; lia).
  rewrite E. split; [lia|]. rewrite u32_small; lia.
Qed.

(** The numbers of the used entries from [next] on. *)
Definition used_from h (next : Z) : list Z :=
  filter (fun n => null_sig (signatures h !!! nth_entry n) = false) (seqZ next (total_entries h - next)).

Lemma used_from_step h next :
  next < total_entries h ->
  used_from h next = (if null_sig (signatures h !!! nth_entry next) then [] else [next]) ++ used_from h (next + 1).
Proof.
  intros Hn. unfold used_from. rewrite seqZ_cons by lia. rewrite filter_cons.
  replace (Z.pred (total_entries h - next)) with (total_entries h - (next + 1)) by lia.
  replace (Z.succ next) with (next + 1) by lia.
  by destruct (null_sig _).
Qed.

(** One call: the first used entry. *)
Lemma iterate_from_ok fuel h next :
  hash_cfg h -> 0 <= next < total_entries h -> (Z.to_nat (total_entries h - next) <= fuel)%nat ->
  match used_from h next with
  | [] => iterate_from fuel h next = (- ENOENT, None, total_entries h)
  | n :: l => iterate_from fuel h next =
      ((report h (nth_entry n)).1, Some (report h (nth_entry n)).2, n + 1) /\
      next <= n < total_entries h /\ l = used_from h (n + 1)
  end.
Proof.
  intros HC. destruct (total_small h HC) as [Ht Eu]. revert next. induction fuel as [|fuel IH]; intros next Hn Hf; [lia|].
  rewrite used_from_step by lia. cbn [iterate_from]. fold (total_entries h). rewrite Eu.
  change (signatures h !!! (next / RTE_HASH_BUCKET_ENTRIES, next mod RTE_HASH_BUCKET_ENTRIES))
    with (signatures h !!! nth_entry next).
  destruct (null_sig (signatures h !!! nth_entry next)); [|by split_and!; cbn; try lia].
  cbn [app]. destruct (Z.eqb_spec (next + 1) (total_entries h)) as [E|E].
  - unfold used_from. rewrite E, Z.sub_diag. done.
  - specialize (IH (next + 1) ltac:(lia) ltac:(lia)).
    destruct (used_from h (next + 1)); [done|]. destruct IH as (?&?&?). split_and!; try done; lia.
Qed.

Lemma iterate_all_eq fuel h next :
  hash_cfg h -> 0 <= next <= total_entries h -> (length (used_from h next) < fuel)%nat ->
  iterate_all fuel h next = report h ∘ nth_entry <$> used_from h next.
Proof.
  intros HC. destruct (total_small h HC) as [Ht Eu]. revert next. induction fuel as [|fuel IH]; intros next Hn Hf; [lia|].
  cbn [iterate_all]. unfold rte_hash_iterate. fold (total_entries h). rewrite Eu.
  destruct (Z.leb_spec (total_entries h) next) as [Hge|Hlt].
  { unfold used_from. rewrite seqZ_nil by lia. done. }
  pose proof (iterate_from_ok (Z.to_nat (total_entries h - next)) h next HC ltac:(lia) ltac:(lia)) as Hi.
  destruct (used_from h next) as [|n l]; [by rewrite Hi|]. destruct Hi as (->&Hn'&->). cbn in Hf |- *.
  f_equal. apply IH; lia.
Qed.

(** Every key of the table is visited exactly once, with its position and data. *)
Lemma iterate_all_perm h c M :
  hash_inv h c M ->
  iterate_all (Z.to_nat (total_entries h + 1)) h 0 ≡ₚ
    (fun '(k, (idx, d)) => (idx - 1, (k, d))) <$> map_to_list M.
Proof.
  intros HI. pose proof (hn_keys _ _ _ HI) as HK. pose proof (ky_cfg _ _ HK) as HC. pose proof (ky_tbl _ _ HK) as HT.
  destruct (total_small h HC) as [Ht _].
  assert (Hlen : (length (used_from h 0) <= Z.to_nat (total_entries h))%nat).
  { unfold used_from. etrans; [apply length_filter|]. rewrite length_seqZ. lia. }
  rewrite iterate_all_eq by (done || lia).
  assert (Hu : forall n, n ∈ used_from h 0 <-> 0 <= n < total_entries h /\ used (signatures h) (nth_entry n)).
  { intros n. unfold used_from. rewrite list_elem_of_filter, elem_of_seqZ. unfold used. intuition lia. }
  assert (Hrep : forall n, n ∈ used_from h 0 -> exists k d, M !! k = Some (key_idx h !!! nth_entry n, d) /\
    report h (nth_entry n) = (key_idx h !!! nth_entry n - 1, (k, d))).
  { intros n [_ Hn]%Hu. destruct (used_sound h M _ HK Hn) as (d&E&Ek). exists (hkey (key_at h (key_idx h !!! nth_entry n))), d.
    split; [done|]. unfold report. rewrite (entry_key_at h M (nth_entry n) HK Hn), Ek. done. }
  assert (Hinj : forall n n', nth_entry n = nth_entry n' -> n = n').
  { intros n n' [= E1 E2]. unfold RTE_HASH_BUCKET_ENTRIES in *. dlia. }
  apply NoDup_Permutation.
  - apply NoDup_fmap_2_strong; [|apply NoDup_filter, NoDup_seqZ]. intros n n' Hn Hn' E. apply Hinj.
    destruct (Hrep n Hn) as (k&d&_&E1), (Hrep n' Hn') as (k'&d'&_&E2). apply Hu in Hn as [_ Hn], Hn' as [_ Hn'].
    apply (ti_uniq _ _ _ _ _ HT); [done..|]. cbn in E. rewrite E1, E2 in E. injection E. lia.
  - apply NoDup_fmap_2_strong; [|apply NoDup_map_to_list].
    intros [k [i d]] [k' [i' d']] Hk%elem_of_map_to_list Hk'%elem_of_map_to_list [= E -> ->].
    rewrite Hk' in Hk. congruence.
  - intros [z [k d]]. rewrite !list_elem_of_fmap. split.
    + intros (n&->&Hn). destruct (Hrep n Hn) as (k'&d'&E&E'). cbn in *. 
      exists (k', (key_idx h !!! nth_entry n, d')). rewrite elem_of_map_to_list. done.
    + intros ([k' [idx d']]&[= -> -> ->]&E%elem_of_map_to_list).
      destruct (proj1 (ti_idx _ _ _ _ _ HT idx)) as ([b i]&_&Hub&Ei); [by exists k', d'|].
      destruct (ti_valid _ _ _ _ _ HT (b, i) ltac:(done) Hub) as [[Hb Hi] _]. cbn in Hb, Hi.
      assert (Hn : nth_entry (b * 4 + i) = (b, i)).
      { unfold nth_entry, RTE_HASH_BUCKET_ENTRIES. f_equal; dlia. }
      exists (b * 4 + i). assert (Hin : b * 4 + i ∈ used_from h 0).
      { apply Hu. rewrite Hn. split; [|done]. unfold total_entries, RTE_HASH_BUCKET_ENTRIES. lia. }
      split; [|done]. destruct (Hrep _ Hin) as (k2&d2&E2&E3). cbn. rewrite E3, Hn, Ei in *.
      pose proof (ky_map _ _ HK _ _ _ E) as K1. rewrite (ky_map _ _ HK _ _ _ E2) in K1. by injection K1 as -> ->.
Qed.

End iterate.
