(* ===== verification/HashBulk.v ===== *)
(** * The cuckoo hash table: bulk lookup

    The four stages of a key are the same functions of the key whenever they
    run, so the software pipeline is described by the sets of keys that have
    passed each stage; at the end every key has passed all of them. *)

From S2P Require Import Prelude Bits SlotQueue Hash HashProofs HashSlots HashOps.

(** ** Bits *)

(** The match bits of four entries and of two buckets. *)
Definition bits4 (a b c d : bool) : Z :=
  16 + Z.b2z a + 2 * Z.b2z b + 4 * Z.b2z c + 8 * Z.b2z d.

Definition first4 (a b c d : bool) : Z :=
  if a then 0 else if b then 1 else if c then 2 else if d then 3 else 4.

Definition count4 (a b c d : bool) : Z := Z.b2z a + Z.b2z b + Z.b2z c + Z.b2z d.

Lemma ctz_bits4 a b c d : ctz (bits4 a b c d) = first4 a b c d.
Proof. by destruct a, b, c, d. Qed.

Lemma popcount_bits4 a b c d e f g i :
  popcount (Z.lor (bits4 a b c d) (Z.shiftl (bits4 e f g i) 5)) = 2 + count4 a b c d + count4 e f g i.
Proof. by destruct a, b, c, d, e, f, g, i; vm_compute. Qed.

Lemma passed_bit (f : Z -> bool) (D : gset Z) idx i :
  bool_decide (i ∈ D) && f i || (bool_decide (i = idx) && f idx) = bool_decide (i ∈ {[idx]} ∪ D) && f i.
Proof.
  assert (E : bool_decide (i ∈ {[idx]} ∪ D) = bool_decide (i = idx) || bool_decide (i ∈ D)).
  { rewrite <- bool_decide_or. apply bool_decide_ext. set_solver. }
  rewrite E. destruct (decide (i = idx)) as [->|Hne].
  - rewrite (bool_decide_true (idx = idx)) by done. by destruct (bool_decide (idx ∈ D)), (f idx).
  - rewrite (bool_decide_false (i = idx)) by done. by rewrite orb_false_r.
Qed.

Section bulk.
Context {Q : Type} `{SlotQueueLaws Q}.
Context (h : rte_hash Q) (keys : Z -> list Z) (n : Z).
Hypothesis (Hn : 0 < n <= 64).

(** The tests of the entries of a bucket. *)
Definition tests (b sig : Z) (j : Z) : bool := sig =? current (signatures h !!! (b, j)).

Lemma hash_matches_bits b sig :
  hash_matches h b sig = bits4 (tests b sig 0) (tests b sig 1) (tests b sig 2) (tests b sig 3).
Proof.
  unfold hash_matches, RTE_HASH_BUCKET_ENTRIES, tests. cbn [fold_left].
  destruct (sig =? _), (sig =? _), (sig =? _), (sig =? _); done.
Qed.

(** ** The stages of a key *)

Definition sig_of (i : Z) : Z := rte_hash_hash h (keys i).
Definition sec_of (i : Z) : Z := rte_hash_secondary_hash (sig_of i).
Definition lane_of (i : Z) : lane := Lane (sig_of i) (sec_of i) (bucket h (sig_of i)) (bucket h (sec_of i)).

Definition prim_bits (i : Z) : Z := hash_matches h (bucket h (sig_of i)) (sig_of i).
Definition sec_bits (i : Z) : Z := hash_matches h (bucket h (sec_of i)) (sec_of i).

Definition slot_idx (i : Z) : Z :=
  let k := key_idx h !!! (bucket h (sig_of i), ctz (prim_bits i)) in
  if k =? 0 then key_idx h !!! (bucket h (sec_of i), ctz (sec_bits i)) else k.

Definition more (i : Z) : bool := 3 <? popcount (Z.lor (prim_bits i) (Z.shiftl (sec_bits i) 5)).

Definition slot_of (i : Z) : rte_hash_key := key_store h !!! u32 (slot_idx i * key_entry_size h).

Definition hit_of (i : Z) : bool :=
  (rte_hash_cmp_eq (hkey (slot_of i)) (keys i) h =? 0) && negb (u32 (i32 (slot_idx i - 1) + 1) =? 0).

(** The keys of [D1], [D2] and [D3] have passed the stages 1, 2 and 3. *)
Record stages (s : bulk) (D1 D2 D3 : gset Z) (wd : bool) : Prop := {
  sg_hash : forall i, i ∈ D1 -> hash_vals s !!! i = sig_of i;
  sg_pos : forall i, i ∈ D2 -> positions s !!! i = i32 (slot_idx i - 1);
  sg_extra : forall i, 0 <= i -> Z.testbit (extra_hits_mask s) i = bool_decide (i ∈ D2) && more i;
  sg_hits : forall i, 0 <= i -> Z.testbit (hits s) i = bool_decide (i ∈ D3) && hit_of i;
  sg_wd : wd = match b_data s with Some _ => true | None => false end;
  sg_data : forall d i, b_data s = Some d -> i ∈ D3 -> d !!! i = pdata (slot_of i)
}.

(** The mask holds the keys from [c] on. *)
Definition mask_from (s : bulk) (c : Z) : Prop :=
  0 <= lookup_mask s < 2 ^ 64 /\ forall i, 0 <= i -> Z.testbit (lookup_mask s) i = (c <=? i) && (i <? n).

Lemma stage1_ok s D1 D2 D3 wd idx :
  stages s D1 D2 D3 wd ->
  let '(s', l) := lookup_stage1 keys h s idx in
  l = lane_of idx /\ stages s' ({[idx]} ∪ D1) D2 D3 wd /\ lookup_mask s' = lookup_mask s.
Proof.
  intros []. cbn. split; [done|]. split; [|done]. split; cbn; try done.
  intros i. rewrite lookup_total_insert. case_decide as E; [by subst|]. intros Hi. apply sg_hash0. set_solver.
Qed.

Lemma stage2_ok s D1 D2 D3 wd idx :
  stages s D1 D2 D3 wd -> 0 <= idx ->
  let '(s', k) := lookup_stage2 h s idx (lane_of idx) in
  k = slot_idx idx /\ stages s' D1 ({[idx]} ∪ D2) D3 wd /\ lookup_mask s' = lookup_mask s.
Proof.
  intros [] Hidx. cbn. split; [done|]. split; [|done]. split; cbn; try done.
  - intros i. rewrite lookup_total_insert. case_decide as E; [by subst|]. intros Hi. apply sg_pos0. set_solver.
  - intros i Hi. change (4 + 1) with 5. rewrite testbit_lor_shift, sg_extra0 by done.
    apply (passed_bit more).
Qed.

Lemma stage3_ok s D1 D2 D3 wd idx :
  stages s D1 D2 D3 wd -> 0 <= idx -> idx ∈ D2 ->
  stages (lookup_stage3 keys h s idx (slot_idx idx)) D1 D2 ({[idx]} ∪ D3) wd /\
  lookup_mask (lookup_stage3 keys h s idx (slot_idx idx)) = lookup_mask s.
Proof.
  intros [] Hidx Hin. split; [|done]. split; cbn; try done.
  - intros i Hi. rewrite sg_pos0 by done. change (_ && negb _) with (hit_of idx).
    rewrite testbit_lor_shift, sg_hits0 by done. apply passed_bit.
  - by destruct (b_data s).
  - intros d i Hd Hi. destruct (b_data s) as [d0|] eqn:E; [|done]. cbn in Hd. injection Hd as <-.
    rewrite lookup_total_insert. case_decide as Ei; [by subst|]. apply sg_data0; [done|set_solver].
Qed.

(** ** The pipeline *)

Definition drawn (c : Z) : Z := if c <? n then c else 0.
Definition next_c (c : Z) : Z := if c <? n then c + 1 else c.

Lemma mask_empty s c : mask_from s c -> 0 <= c -> lookup_mask s = 0 <-> n <= c.
Proof.
  intros [Hr Hm] Hc. rewrite mask_zero by done. split.
  - intros Hz. destruct (decide (n <= c)); [done|]. specialize (Hz c ltac:(lia)). rewrite Hm in Hz by done.
    apply andb_false_iff in Hz as [?%Z.leb_gt|?%Z.ltb_ge]; lia.
  - intros Hle i Hi. rewrite Hm by lia. destruct (Z.leb_spec c i), (Z.ltb_spec i n); done || lia.
Qed.

Lemma stage0_ok s c D1 D2 D3 wd :
  mask_from s c -> 0 <= c -> stages s D1 D2 D3 wd ->
  let '(s', idx) := lookup_stage0 s in
  idx = drawn c /\ mask_from s' (next_c c) /\ stages s' D1 D2 D3 wd.
Proof.
  intros Hmask Hc Hst. pose proof Hmask as [Hr Hm]. unfold lookup_stage0.
  assert (Eidx : (if lookup_mask s =? 0 then 0 else ctz (lookup_mask s)) = drawn c).
  { unfold drawn. destruct (Z.eqb_spec (lookup_mask s) 0) as [E|E].
    - rewrite (mask_empty s c Hmask Hc) in E. destruct (Z.ltb_spec c n); [lia|done].
    - destruct (Z.ltb_spec c n); [|by destruct E; apply (mask_empty s c)].
      apply ctz_spec; [lia| |].
      + rewrite Hm by done. destruct (Z.leb_spec c c), (Z.ltb_spec c n); done || lia.
      + intros i Hi. rewrite Hm by lia. destruct (Z.leb_spec c i); done || lia. }
  rewrite Eidx. split; [done|]. split; [split|by destruct Hst; split]; cbn; [by apply clear_bit_range|].
  intros i Hi. rewrite clear_bit_spec, Hm by (done || unfold drawn; destruct (c <? n); lia).
  unfold drawn, next_c. apply eq_iff_eq_true.
  rewrite !andb_true_iff, negb_true_iff, bool_decide_eq_false, !Z.leb_le, !Z.ltb_lt.
  destruct (Z.ltb_spec c n); lia.
Qed.

Lemma drawn_range c : 0 <= c -> 0 <= drawn c < n.
Proof. unfold drawn. destruct (Z.ltb_spec c n); lia. Qed.

Lemma next_c_ge c : c <= next_c c /\ (forall i, c <= i < next_c c -> i = drawn c).
Proof. unfold next_c, drawn. destruct (Z.ltb_spec c n); (split; [lia|intros; lia]). Qed.

Lemma next_c_lt c : c < n -> c < next_c c.
Proof. unfold next_c. destruct (Z.ltb_spec c n); lia. Qed.

(** The two keys of a pair are in range, and have passed a stage. *)
Definition pair_in (idx : Z * Z) (D : gset Z) : Prop := idx.1 ∈ D /\ idx.2 ∈ D.
Definition pair_ok (idx : Z * Z) : Prop := 0 <= idx.1 < n /\ 0 <= idx.2 < n.
Definition lanes (idx : Z * Z) : lane * lane := (lane_of idx.1, lane_of idx.2).
Definition slots2 (idx : Z * Z) : Z * Z := (slot_idx idx.1, slot_idx idx.2).
Definition pset (idx : Z * Z) : gset Z := {[idx.1; idx.2]}.

Lemma stage0_pair_ok s c D1 D2 D3 wd :
  mask_from s c -> 0 <= c -> stages s D1 D2 D3 wd ->
  exists s' idx c', stage0_pair s = (s', idx) /\ pair_ok idx /\ mask_from s' c' /\ c <= c' /\
    (c < n -> c < c') /\ (forall i, c <= i < c' -> i ∈ pset idx) /\ stages s' D1 D2 D3 wd.
Proof.
  intros Hm Hc Hst. unfold stage0_pair.
  pose proof (stage0_ok s c _ _ _ _ Hm Hc Hst) as H1. destruct (lookup_stage0 s) as [s1 i1]. destruct H1 as (->&Hm1&Hst1).
  pose proof (next_c_ge c) as [Hge1 Hdr1].
  pose proof (stage0_ok s1 _ _ _ _ _ Hm1 ltac:(lia) Hst1) as H2. destruct (lookup_stage0 s1) as [s2 i2]. destruct H2 as (->&Hm2&Hst2).
  pose proof (next_c_ge (next_c c)) as [Hge2 Hdr2].
  eexists _, _, _. split; [done|]. split; [split; apply drawn_range; lia|]. split; [done|]. split; [lia|]. split.
  { intros Hlt%next_c_lt. lia. }
  split; [|done]. intros i Hi. unfold pset. cbn. destruct (decide (i < next_c c)).
  - rewrite (Hdr1 i) by lia. set_solver.
  - rewrite (Hdr2 i) by lia. set_solver.
Qed.

Lemma stage1_pair_ok s D1 D2 D3 wd idx :
  stages s D1 D2 D3 wd ->
  exists s', stage1_pair keys h s idx = (s', lanes idx) /\ stages s' (pset idx ∪ D1) D2 D3 wd /\
    lookup_mask s' = lookup_mask s.
Proof.
  intros Hst. unfold stage1_pair.
  pose proof (stage1_ok s _ _ _ _ idx.1 Hst) as H1. destruct (lookup_stage1 keys h s idx.1) as [s1 l1]. destruct H1 as (->&Hst1&E1).
  pose proof (stage1_ok s1 _ _ _ _ idx.2 Hst1) as H2. destruct (lookup_stage1 keys h s1 idx.2) as [s2 l2]. destruct H2 as (->&Hst2&E2).
  exists s2. split; [done|]. split; [|congruence]. replace (pset idx ∪ D1) with ({[idx.2]} ∪ ({[idx.1]} ∪ D1)); [done|].
  unfold pset. apply leibniz_equiv. set_solver.
Qed.

Lemma stage2_pair_ok s D1 D2 D3 wd idx :
  stages s D1 D2 D3 wd -> pair_ok idx ->
  exists s', stage2_pair h s idx (lanes idx) = (s', slots2 idx) /\ stages s' D1 (pset idx ∪ D2) D3 wd /\
    lookup_mask s' = lookup_mask s.
Proof.
  intros Hst [Hr1 Hr2]. unfold stage2_pair, lanes. cbn [fst snd].
  pose proof (stage2_ok s _ _ _ _ idx.1 Hst ltac:(lia)) as H1. destruct (lookup_stage2 h s idx.1 _) as [s1 l1]. destruct H1 as (->&Hst1&E1).
  pose proof (stage2_ok s1 _ _ _ _ idx.2 Hst1 ltac:(lia)) as H2. destruct (lookup_stage2 h s1 idx.2 _) as [s2 l2]. destruct H2 as (->&Hst2&E2).
  exists s2. split; [done|]. split; [|congruence]. replace (pset idx ∪ D2) with ({[idx.2]} ∪ ({[idx.1]} ∪ D2)); [done|].
  unfold pset. apply leibniz_equiv. set_solver.
Qed.

Lemma stage3_pair_ok s D1 D2 D3 wd idx :
  stages s D1 D2 D3 wd -> pair_ok idx -> pset idx ⊆ D2 ->
  stages (stage3_pair keys h s idx (slots2 idx)) D1 D2 (pset idx ∪ D3) wd /\
  lookup_mask (stage3_pair keys h s idx (slots2 idx)) = lookup_mask s.
Proof.
  intros Hst [Hr1 Hr2] Hin. unfold stage3_pair, slots2. cbn [fst snd]. unfold pset in Hin.
  destruct (stage3_ok s _ _ _ _ idx.1 Hst) as [Hst1 E1]; [lia|set_solver|].
  destruct (stage3_ok _ _ _ _ _ idx.2 Hst1) as [Hst2 E2]; [lia|set_solver|].
  split; [|congruence]. replace (pset idx ∪ D3) with ({[idx.2]} ∪ ({[idx.1]} ∪ D3)); [done|].
  unfold pset. apply leibniz_equiv. set_solver.
Qed.

(** The stages in flight: [idx0] has been drawn, [idx1] has passed stage 1 and
    [idx2] stage 2. *)
Record pipe_inv (s : bulk) (idx0 idx1 idx2 : Z * Z) (c : Z) (wd : bool) (D1 D2 D3 : gset Z) : Prop := {
  pv_stages : stages s D1 D2 D3 wd;
  pv_mask : mask_from s c;
  pv_c : 0 <= c;
  pv_pairs : pair_ok idx0 /\ pair_ok idx1 /\ pair_ok idx2;
  pv_in : pset idx1 ⊆ D1 /\ pset idx2 ⊆ D2 /\ D2 ⊆ D1 /\ D3 ⊆ D2;
  pv_range : forall i, i ∈ D2 -> 0 <= i < n;
  pv_cover : forall i, 0 <= i < n -> c <= i \/ i ∈ pset idx0 ∪ pset idx1 ∪ pset idx2 ∪ D3
}.

Lemma pset_range idx i : pair_ok idx -> i ∈ pset idx -> 0 <= i < n.
Proof. intros [? ?]. unfold pset. rewrite elem_of_union, !elem_of_singleton. intros [->| ->]; done. Qed.

(** The drawn pair enters stage 1, the pair in stage 1 stage 2, and the pair in
    stage 2 stage 3. *)
Lemma advance_ok s s1 idxn idx0 idx1 idx2 c c' wd D1 D2 D3 :
  pipe_inv s idx0 idx1 idx2 c wd D1 D2 D3 -> stages s1 D1 D2 D3 wd -> mask_from s1 c' -> c <= c' ->
  pair_ok idxn -> (forall i, c <= i < c' -> i ∈ pset idxn) ->
  exists s2 s3, stage1_pair keys h s1 idx0 = (s2, lanes idx0) /\
    stage2_pair h s2 idx1 (lanes idx1) = (s3, slots2 idx1) /\
    pipe_inv (stage3_pair keys h s3 idx2 (slots2 idx2)) idxn idx0 idx1 c' wd
      (pset idx0 ∪ D1) (pset idx1 ∪ D2) (pset idx2 ∪ D3).
Proof.
  intros [_ _ Hc (Hp0&Hp1&Hp2) (Hi1&Hi2&H21&H32) Hr Hcov] Hst1 Hm1 Hcc Hpn Hdr.
  destruct (stage1_pair_ok s1 _ _ _ _ idx0 Hst1) as (s2&->&Hst2&E2).
  destruct (stage2_pair_ok s2 _ _ _ _ idx1 Hst2 Hp1) as (s3&E3&Hst3&E3m).
  destruct (stage3_pair_ok s3 _ _ _ _ idx2 Hst3 Hp2) as [Hst4 E4]; [set_solver|].
  exists s2, s3. split; [done|]. split; [done|]. split; try done.
  - destruct Hm1 as [Hm1 Hm2]. split; rewrite E4, E3m, E2; done.
  - lia.
  - set_solver.
  - intros i [Hi|Hi]%elem_of_union; [by apply (pset_range idx1)|by apply Hr].
  - intros i Hi. destruct (Hcov i Hi) as [Hci|Hin]; [|right; set_solver].
    destruct (decide (c' <= i)); [by left|right]. pose proof (Hdr i ltac:(lia)). set_solver.
Qed.

Lemma bulk_loop_ok fuel s idx0 idx1 idx2 c wd D1 D2 D3 :
  pipe_inv s idx0 idx1 idx2 c wd D1 D2 D3 -> n - c <= Z.of_nat fuel ->
  exists s' i0 i1 i2 c' D1' D2' D3',
    bulk_loop keys fuel h s idx0 idx1 idx2 (lanes idx1) (slots2 idx2) = Some (s', i0, i1, i2, lanes i1, slots2 i2) /\
    pipe_inv s' i0 i1 i2 c' wd D1' D2' D3' /\ n <= c'.
Proof.
  revert s idx0 idx1 idx2 c D1 D2 D3. induction fuel as [|fuel IH]; intros s idx0 idx1 idx2 c D1 D2 D3 HP Hf.
  - cbn [bulk_loop]. pose proof HP as [_ Hm Hc _ _ _ _]. rewrite (proj2 (Z.eqb_eq _ 0)); [|apply (mask_empty s c Hm Hc); lia].
    eexists _, _, _, _, _, _, _, _. split; [done|]. split; [done|lia].
  - cbn [bulk_loop]. pose proof HP as [Hst Hm Hc _ _ _ _]. destruct (Z.eqb_spec (lookup_mask s) 0) as [E|E].
    + rewrite (mask_empty s c Hm Hc) in E. eexists _, _, _, _, _, _, _, _. split; [done|]. split; [done|lia].
    + rewrite (mask_empty s c Hm Hc) in E.
      destruct (stage0_pair_ok s c _ _ _ _ Hm Hc Hst) as (s1&idxn&c'&->&Hpn&Hm1&Hcc&Hlt&Hdr&Hst1).
      destruct (advance_ok s s1 idxn idx0 idx1 idx2 c c' wd D1 D2 D3 HP Hst1 Hm1 Hcc Hpn Hdr) as (s2&s3&->&->&HP').
      eapply IH; [exact HP'|]. specialize (Hlt ltac:(lia)). lia.
Qed.

(** After the epilogue every key has passed all stages. *)
Lemma bulk_stages_ok s0 wd fuel :
  stages s0 empty empty empty wd -> mask_from s0 0 -> n <= Z.of_nat fuel ->
  exists s D1 D2 D3, bulk_stages keys fuel h s0 = Some s /\ stages s D1 D2 D3 wd /\ D2 ⊆ D1 /\
    (forall i, i ∈ D2 -> 0 <= i < n) /\ (forall i, 0 <= i < n -> i ∈ D3) /\ D3 ⊆ D2.
Proof.
  intros Hst Hm Hf. unfold bulk_stages.
  destruct (stage0_pair_ok s0 0 _ _ _ _ Hm ltac:(lia) Hst) as (s1&ia&ca&->&Hpa&Hma&Hca&_&Hda&Hst1).
  destruct (stage0_pair_ok s1 ca _ _ _ _ Hma ltac:(lia) Hst1) as (s2&ib&cb&->&Hpb&Hmb&Hcb&_&Hdb&Hst2).
  destruct (stage1_pair_ok s2 _ _ _ _ ia Hst2) as (s3&->&Hst3&E3).
  assert (Hm3 : mask_from s3 cb) by (destruct Hmb; split; rewrite E3; done).
  destruct (stage0_pair_ok s3 cb _ _ _ _ Hm3 ltac:(lia) Hst3) as (s4&ic&cc&->&Hpc&Hmc&Hcc&_&Hdc&Hst4).
  destruct (stage1_pair_ok s4 _ _ _ _ ib Hst4) as (s5&->&Hst5&E5).
  destruct (stage2_pair_ok s5 _ _ _ _ ia Hst5 Hpa) as (s6&->&Hst6&E6).
  set (D1 := pset ib ∪ (pset ia ∪ ∅)) in *. set (D2 := pset ia ∪ ∅) in *.
  assert (HP : pipe_inv s6 ic ib ia cc wd D1 D2 empty).
  { split; try done.
    - destruct Hmc. split; rewrite E6, E5; done.
    - lia.
    - unfold D1, D2. set_solver.
    - intros i Hi. apply (pset_range ia); [done|]. unfold D2 in Hi. set_solver.
    - intros i Hi. destruct (decide (cc <= i)); [by left|right].
      destruct (decide (i < ca)); [pose proof (Hda i ltac:(lia)); set_solver|].
      destruct (decide (i < cb)); [pose proof (Hdb i ltac:(lia)); set_solver|].
      pose proof (Hdc i ltac:(lia)). set_solver. }
  destruct (bulk_loop_ok fuel _ _ _ _ _ _ _ _ _ HP) as (s7&i0&i1&i2&c'&E1&E2&E4&->&HP'&Hc'); [lia|].
  cbn [mbind option_bind].
  pose proof HP' as [Hst7 Hm7 _ (Hp0&Hp1&Hp2) (Hi1&Hi2&H21&H32) Hr Hcov].
  destruct (stage1_pair_ok s7 _ _ _ _ i0 Hst7) as (s8&->&Hst8&E8).
  destruct (stage2_pair_ok s8 _ _ _ _ i1 Hst8 Hp1) as (s9&->&Hst9&E9).
  destruct (stage3_pair_ok s9 _ _ _ _ i2 Hst9 Hp2) as [Hst10 E10]; [set_solver|].
  destruct (stage2_pair_ok _ _ _ _ _ i0 Hst10 Hp0) as (s11&->&Hst11&E11).
  destruct (stage3_pair_ok s11 _ _ _ _ i1 Hst11 Hp1) as [Hst12 E12]; [set_solver|].
  destruct (stage3_pair_ok _ _ _ _ _ i0 Hst12 Hp0) as [Hst13 E13]; [set_solver|].
  eexists _, _, _, _. split; [done|]. split; [exact Hst13|]. split; [set_solver|]. split; [|split; [|set_solver]].
  - intros i Hi. rewrite !elem_of_union in Hi. destruct Hi as [Hi|[Hi|Hi]]; [by apply (pset_range i0)|by apply (pset_range i1)|by apply Hr].
  - intros i Hi. destruct (Hcov i Hi); [lia|]. set_solver.
Qed.

(** ** What the stages find *)

Lemma first4_spec (t : Z -> bool) (f := first4 (t 0) (t 1) (t 2) (t 3)) :
  (0 <= f < 4 /\ t f = true) \/ (f = 4 /\ forall j, 0 <= j < 4 -> t j = false).
Proof.
  unfold f, first4. destruct (t 0) eqn:E0; [left; split; [lia|done]|].
  destruct (t 1) eqn:E1; [left; split; [lia|done]|]. destruct (t 2) eqn:E2; [left; split; [lia|done]|].
  destruct (t 3) eqn:E3; [left; split; [lia|done]|right]. split; [done|]. intros j Hj.
  assert (j = 0 \/ j = 1 \/ j = 2 \/ j = 3) as [->|[->|[->| ->]]] by lia; done.
Qed.

Lemma count4_spec (t : Z -> bool) j (f := first4 (t 0) (t 1) (t 2) (t 3)) :
  0 <= j < 4 -> t j = true ->
  1 <= count4 (t 0) (t 1) (t 2) (t 3) /\ (j <> f -> 2 <= count4 (t 0) (t 1) (t 2) (t 3)).
Proof.
  intros Hj Ht. unfold f. assert (j = 0 \/ j = 1 \/ j = 2 \/ j = 3) as [->|[->|[->| ->]]] by lia; rewrite Ht;
    unfold count4, first4; cbn [Z.b2z]; destruct (t 0), (t 1), (t 2), (t 3); cbn; lia.
Qed.

Context (c : Z) (M : gmap (list Z) (Z * Z)).
Hypothesis (HI : hash_inv h c M).

Let HK := hn_keys _ _ _ HI.

Definition first_match (b sig : Z) : Z := ctz (hash_matches h b sig).

Lemma first_match_spec b sig (f := first_match b sig) :
  sig <> 0 ->
  (0 <= f < 4 /\ used (signatures h) (b, f) /\ 1 <= key_idx h !!! (b, f) <= entries h) \/
  (key_idx h !!! (b, f) = 0 /\ forall j, 0 <= j < 4 -> tests b sig j = false).
Proof.
  intros Hs. unfold f, first_match. rewrite hash_matches_bits, ctz_bits4.
  destruct (first4_spec (tests b sig)) as [[Hf Ht]|[Ef Hall]].
  - left. set (g := first4 _ _ _ _) in *. split; [done|].
    assert (Hu : used (signatures h) (b, g)).
    { unfold used, null_sig. unfold tests in Ht. apply Z.eqb_eq in Ht. rewrite <- Ht.
      by rewrite (proj2 (Z.eqb_neq sig 0)). }
    split; [done|]. by destruct (ti_valid _ _ _ _ _ (ky_tbl _ _ HK) (b, g) ltac:(done) Hu) as [_ [? _]].
  - right. rewrite Ef. split; [apply (ti_dummy _ _ _ _ _ (ky_tbl _ _ HK))|done].
Qed.

Lemma slot_idx_spec i :
  sig_of i <> 0 -> sec_of i <> 0 ->
  (exists p, used (signatures h) p /\ key_idx h !!! p = slot_idx i /\ 1 <= slot_idx i <= entries h) \/ slot_idx i = 0.
Proof.
  intros H1 H2. unfold slot_idx. cbv zeta.
  change (ctz (prim_bits i)) with (first_match (bucket h (sig_of i)) (sig_of i)).
  change (ctz (sec_bits i)) with (first_match (bucket h (sec_of i)) (sec_of i)).
  destruct (first_match_spec (bucket h (sig_of i)) (sig_of i) H1) as [(_&Hu&Hr)|[E _]].
  - rewrite (proj2 (Z.eqb_neq _ 0)) by lia. left. by eexists.
  - rewrite E, Z.eqb_refl. destruct (first_match_spec (bucket h (sec_of i)) (sec_of i) H2) as [(_&Hu&Hr)|[E' _]]; [left|by right].
    by eexists.
Qed.

Lemma position_of i : sig_of i <> 0 -> sec_of i <> 0 -> slot_idx i <> 0 -> i32 (slot_idx i - 1) = slot_idx i - 1.
Proof.
  intros H1 H2 H3. destruct (slot_idx_spec i H1 H2) as [(p&_&_&Hr)|?]; [|done].
  destruct (ky_cfg _ _ HK). apply i32_small. nia.
Qed.

Lemma hit_sound i :
  key_ok h (keys i) -> sig_of i <> 0 -> sec_of i <> 0 -> hit_of i = true ->
  exists d, M !! keys i = Some (slot_idx i, d) /\ slot_of i = HKey d (keys i) /\ slot_idx i <> 0.
Proof.
  intros Hk H1 H2 Hh. unfold hit_of in Hh. apply andb_true_iff in Hh as [Hc Hz].
  destruct (slot_idx_spec i H1 H2) as [(p&Hu&Ep&Hr)|E0]; [|by rewrite E0 in Hz].
  destruct (used_sound h M p HK Hu) as (d&E&Ek). rewrite Ep in E, Ek.
  pose proof (ti_valid _ _ _ _ _ (ky_tbl _ _ HK) p ltac:(done) Hu) as [_ (_&Hok&_)]. rewrite Ep in Hok.
  assert (Es : slot_of i = key_at h (slot_idx i)).
  { unfold slot_of, key_at. destruct (slot_offset h (slot_idx i) (ky_cfg _ _ HK)) as [-> _]; [lia|done]. }
  rewrite Es in Hc. rewrite cmp_eq_spec, bool_decide_eq_true in Hc by (done || apply HK). rewrite Hc in *.
  exists d. rewrite Es. split; [done|]. split; [done|lia].
Qed.

(** A key that is there but not found by the first match has more matches. *)
Lemma miss_more i idx d :
  key_ok h (keys i) -> sig_of i <> 0 -> sec_of i <> 0 -> hit_of i = false ->
  M !! keys i = Some (idx, d) -> more i = true.
Proof.
  intros Hk H1 H2 Hh E. unfold more, prim_bits, sec_bits. rewrite !hash_matches_bits, popcount_bits4. apply Z.ltb_lt.
  set (tp := tests _ _). set (ts := tests (bucket h (sec_of i)) _).
  assert (Hcnt : forall t : Z -> bool, 0 <= count4 (t 0) (t 1) (t 2) (t 3)).
  { intros t. unfold count4. destruct (t 0), (t 1), (t 2), (t 3); cbn; lia. }
  destruct (key_place h M (keys i) idx d HK E) as (b&j&Hj&Hu&Ei&Eek&Hplace).
  pose proof (idx_of_range h M idx HK) as Hr. specialize (Hr ltac:(by exists (keys i), d)).
  (* a first match at the place of the key is a hit *)
  assert (Hnot : slot_idx i <> idx).
  { intros Es. assert (Hso : slot_of i = HKey d (keys i)).
    { unfold slot_of. rewrite Es. destruct (slot_offset h idx (ky_cfg _ _ HK)) as [-> _]; [lia|]. by apply (ky_map _ _ HK). }
    unfold hit_of in Hh. rewrite Hso in Hh. cbn [hkey] in Hh. rewrite cmp_eq_spec, bool_decide_true in Hh by (done || apply HK).
    rewrite position_of, Es, Z.sub_add in Hh by (lia || done).
    rewrite u32_small in Hh by (destruct (ky_cfg _ _ HK); nia). rewrite (proj2 (Z.eqb_neq idx 0)) in Hh by lia. done. }
  destruct Hplace as [[-> Es]|[-> Es]].
  - assert (Ht : tp j = true) by (unfold tp, tests, sig_of; rewrite Es; apply Z.eqb_refl).
    destruct (count4_spec tp j Hj Ht) as [_ Hc2]. specialize (Hcnt ts).
    assert (j <> first4 (tp 0) (tp 1) (tp 2) (tp 3)); [|lia]. intros Ej. apply Hnot. unfold slot_idx, prim_bits. cbv zeta.
    rewrite hash_matches_bits, ctz_bits4. fold tp. rewrite <- Ej.
    change (sig_of i) with (rte_hash_hash h (keys i)). rewrite Ei. rewrite (proj2 (Z.eqb_neq idx 0)) by lia. done.
  - assert (Ht : ts j = true) by (unfold ts, tests, sec_of, sig_of; rewrite Es; apply Z.eqb_refl).
    destruct (count4_spec ts j Hj Ht) as [Hc1 Hc2].
    destruct (first_match_spec (bucket h (sig_of i)) (sig_of i) H1) as [(Hf&Hu'&_)|[E0 _]].
    + assert (Htp : exists j', 0 <= j' < 4 /\ tp j' = true).
      { destruct (first4_spec tp) as [[? ?]|[E4 _]]; [by eexists|]. exfalso.
        unfold first_match in Hf. rewrite hash_matches_bits, ctz_bits4 in Hf.
        fold tp in Hf. rewrite E4 in Hf. lia. }
      destruct Htp as (j'&Hj'&Ht'). destruct (count4_spec tp j' Hj' Ht') as [? _]. lia.
    + specialize (Hcnt tp). assert (j <> first4 (ts 0) (ts 1) (ts 2) (ts 3)); [|lia]. intros Ej. apply Hnot.
      unfold slot_idx. cbv zeta. change (ctz (prim_bits i)) with (first_match (bucket h (sig_of i)) (sig_of i)).
      rewrite E0, Z.eqb_refl. unfold sec_bits. rewrite hash_matches_bits, ctz_bits4.
      fold ts. rewrite <- Ej. done.
Qed.

(** ** The loops over the remaining keys *)

Lemma clear_low m i :
  0 <= m < 2 ^ 64 -> Z.testbit m (ctz m) = true -> (forall i, 0 <= i < ctz m -> Z.testbit m i = false) ->
  0 <= ctz m -> 0 <= i < ctz m + 1 -> Z.testbit (clear_bit m (ctz m)) i = false.
Proof.
  intros Hm _ Hb Hc Hi. rewrite clear_bit_spec by (done || lia). destruct (decide (i = ctz m)) as [->|].
  - rewrite bool_decide_true by done. apply andb_false_r.
  - by rewrite Hb by lia.
Qed.

(** The single lookup of a key. *)
Definition single (s : bulk) (i : Z) : Z * option Z :=
  rte_hash_lookup_with_hash_ h (keys i) (hash_vals s !!! i).

Lemma extra_loop_ok fuel s extra lo (s' := extra_loop keys fuel h s extra) :
  0 <= extra < 2 ^ 64 -> (forall i, 0 <= i < lo -> Z.testbit extra i = false) -> 0 <= lo -> 64 - lo <= Z.of_nat fuel ->
  (forall i, 0 <= i -> Z.testbit (hits s') i = Z.testbit (hits s) i || (Z.testbit extra i && (0 <=? (single s i).1))) /\
  (b_data s = None -> forall i, 0 <= i < 64 ->
     positions s' !!! i = if Z.testbit extra i then (single s i).1 else positions s !!! i) /\
  match b_data s, b_data s' with
  | Some t, Some t' => forall i, 0 <= i < 64 -> t' !!! i =
      match (single s i).2 with Some v => if Z.testbit extra i then v else t !!! i | None => t !!! i end
  | None, None => True
  | _, _ => False
  end.
Proof.
  unfold s'. clear s'. revert s extra lo. induction fuel as [|fuel IH]; intros s extra lo Hr Hlow Hlo Hf.
  - cbn. assert (Hz : forall i, 0 <= i -> Z.testbit extra i = false).
    { intros i Hi. destruct (decide (i < 64)); [apply Hlow; lia|apply high_bit; done || lia]. }
   
    split_and!; [intros i Hi; by rewrite Hz, orb_false_r|intros _ i Hi; by rewrite Hz by lia|].
    destruct (b_data s); [|done]. intros i Hi. rewrite Hz by lia. by destruct (single s i).2.
  - cbn [extra_loop]. destruct (Z.eqb_spec extra 0) as [->|Hnz].
    { split_and!; [intros i Hi; by rewrite Z.bits_0, orb_false_r|intros _ i Hi; by rewrite Z.bits_0|].
      destruct (b_data s); [|done]. intros i Hi. rewrite Z.bits_0. by destruct (single s i).2. }
    destruct (lowest_bit extra lo Hr Hnz Hlow Hlo) as (Hx&Hb&Hbel). set (x := ctz extra) in *.
    fold (single s x). destruct (single s x) as [ret d] eqn:Es.
    set (s1 := Bulk _ _ _ _ _ _).
    assert (Hs1 : forall i, single s1 i = single s i) by done.
    destruct (IH s1 (clear_bit extra x) (x + 1)) as (IH1&IH2&IH3);
      [by apply clear_bit_range|intros i Hi; apply clear_low; done || lia|lia|lia|].
    assert (Hcb : forall i, 0 <= i -> Z.testbit (clear_bit extra x) i = Z.testbit extra i && negb (bool_decide (i = x)))
      by (intros i Hi; apply clear_bit_spec; done || lia).
    split_and!.
    + intros i Hi. rewrite IH1, Hcb, Hs1 by done. unfold s1. cbn [hits].
      assert (Eh : Z.testbit (if 0 <=? ret then Z.lor (hits s) (Z.shiftl 1 x) else hits s) i =
        Z.testbit (hits s) i || (bool_decide (i = x) && (0 <=? ret))).
      { destruct (0 <=? ret); [|by rewrite andb_false_r, orb_false_r].
        change 1 with (Z.b2z true). by rewrite testbit_lor_shift by lia. }
      rewrite Eh. destruct (decide (i = x)) as [->|Hne].
      * rewrite bool_decide_true, Es, Hb by done. cbn. by rewrite andb_false_r || rewrite orb_false_r.
      * rewrite bool_decide_false by done. cbn. by rewrite orb_false_r, andb_true_r.
    + intros Hn0 i Hi. rewrite IH2, Hcb, Hs1 by (try lia; try done; unfold s1; cbn; rewrite Hn0; by destruct d).
      unfold s1. cbn [positions]. rewrite Hn0. destruct (decide (i = x)) as [->|Hne].
      * rewrite bool_decide_true, andb_false_r, lookup_total_insert_eq, Hb, Es by done. done.
      * rewrite bool_decide_false, andb_true_r, lookup_total_insert_ne by done. done.
    + assert (Ed : b_data s1 = match d with Some v => (fun t => <[x := v]> t) <$> b_data s | None => b_data s end) by done.
      rewrite Ed in IH3. destruct (b_data s) as [t|]; [|by destruct d]. destruct (b_data (extra_loop _ _ _ _ _)) as [t'|]; [|by destruct d].
      intros i Hi. destruct (decide (i = x)) as [->|Hne].
      * rewrite Es, Hb. cbn [snd]. destruct d as [v|]; cbn in IH3; rewrite (IH3 x Hi), Hs1, Es, Hcb, bool_decide_true, andb_false_r by (done || lia); cbn [snd]; [|done].
        by rewrite lookup_total_insert_eq.
      * destruct d as [v|]; cbn in IH3; rewrite (IH3 i Hi), Hs1, Hcb, bool_decide_false, andb_true_r by (done || lia); [|done].
        by rewrite lookup_total_insert_ne by done.
Qed.

Lemma miss_loop_ok fuel pos miss lo :
  0 <= miss < 2 ^ 64 -> (forall i, 0 <= i < lo -> Z.testbit miss i = false) -> 0 <= lo -> 64 - lo <= Z.of_nat fuel ->
  forall i, 0 <= i < 64 -> miss_loop fuel pos miss !!! i = if Z.testbit miss i then - ENOENT else pos !!! i.
Proof.
  revert pos miss lo. induction fuel as [|fuel IH]; intros pos miss lo Hr Hlow Hlo Hf i Hi.
  - cbn. by rewrite Hlow by lia.
  - cbn [miss_loop]. destruct (Z.eqb_spec miss 0) as [->|Hnz]; [by rewrite Z.bits_0|].
    destruct (lowest_bit miss lo Hr Hnz Hlow Hlo) as (Hx&Hb&Hbel). set (x := ctz miss) in *.
    rewrite (IH _ (clear_bit miss x) (x + 1));
      [|by apply clear_bit_range|intros j Hj; apply clear_low; done || lia|lia|lia|done].
    rewrite clear_bit_spec by (done || lia). destruct (decide (i = x)) as [->|Hne].
    + rewrite bool_decide_true, andb_false_r, Hb, lookup_total_insert_eq by done. done.
    + rewrite bool_decide_false, andb_true_r, lookup_total_insert_ne by done. done.
Qed.

Lemma full_mask_bit i : 0 <= i -> Z.testbit (Z.shiftr (2 ^ 64 - 1) (64 - n)) i = (i <? n).
Proof.
  intros Hi. rewrite Z.shiftr_spec by done. change (2 ^ 64 - 1) with (Z.ones 64). rewrite Z.testbit_ones by lia.
  destruct (Z.leb_spec 0 (i + (64 - n))), (Z.ltb_spec (i + (64 - n)) 64), (Z.ltb_spec i n); done || lia.
Qed.

Lemma single_ok s D1 D2 D3 wd i :
  stages s D1 D2 D3 wd -> i ∈ D1 -> key_ok h (keys i) ->
  single s i = match M !! keys i with Some (idx, d) => (idx - 1, Some d) | None => (- ENOENT, None) end.
Proof. intros Hst Hi Hk. unfold single. rewrite (sg_hash _ _ _ _ _ Hst i Hi). by apply hash_lookup_ok. Qed.

Lemma single_hit s D1 D2 D3 wd i :
  stages s D1 D2 D3 wd -> i ∈ D1 -> key_ok h (keys i) ->
  (0 <=? (single s i).1) = bool_decide (is_Some (M !! keys i)).
Proof.
  intros Hst Hi Hk. rewrite (single_ok s _ _ _ _ i Hst Hi Hk). destruct (M !! keys i) as [[idx d]|] eqn:E.
  - rewrite bool_decide_true by done. cbn. apply Z.leb_le.
    pose proof (idx_of_range h M idx HK ltac:(by exists (keys i), d)). lia.
  - rewrite bool_decide_false by by intros []. done.
Qed.

(** The keys whose hashes the bulk lookup can tell from an empty entry. *)
Definition bulk_key (i : Z) : Prop := key_ok h (keys i) /\ sig_of i <> 0 /\ sec_of i <> 0.

Lemma hit_bit s D1 D2 D3 wd i (e := Z.land (extra_hits_mask s) (u64 (Z.lnot (hits s)))) :
  stages s D1 D2 D3 wd -> i ∈ D1 -> i ∈ D2 -> i ∈ D3 -> 0 <= i -> bulk_key i -> 0 <= extra_hits_mask s < 2 ^ 64 ->
  Z.testbit (hits s) i || (Z.testbit e i && (0 <=? (single s i).1)) = bool_decide (is_Some (M !! keys i)).
Proof.
  intros Hst H1 H2 H3 Hi (Hk&Hs1&Hs2) Hr. rewrite (single_hit s D1 D2 D3 wd) by done. unfold e.
  rewrite land_lnot_bit by done. rewrite (sg_hits _ _ _ _ _ Hst), (sg_extra _ _ _ _ _ Hst) by done.
  rewrite !bool_decide_true by done. cbn [andb]. destruct (hit_of i) eqn:Eh; cbn [orb negb].
  - destruct (hit_sound i Hk Hs1 Hs2 Eh) as (d&E&_). by rewrite E, bool_decide_true.
  - rewrite andb_true_r. destruct (M !! keys i) as [[idx d]|] eqn:E.
    + by rewrite (miss_more i idx d Hk Hs1 Hs2 Eh E).
    + rewrite bool_decide_false by by intros []. apply andb_false_r.
Qed.

(** The state after the pipeline: every key has passed all stages. *)
Record staged (s : bulk) (D1 D2 D3 : gset Z) (wd : bool) : Prop := {
  sd_stages : stages s D1 D2 D3 wd;
  sd_sub : D3 ⊆ D2 /\ D2 ⊆ D1;
  sd_range : forall i, i ∈ D2 -> 0 <= i < n;
  sd_all : forall i, 0 <= i < n -> i ∈ D3
}.

Lemma pipeline_ok pos data (mask := Z.shiftr (2 ^ 64 - 1) (64 - n)) :
  0 <= mask < 2 ^ 64 /\
  exists s D1 D2 D3, bulk_stages keys 64 h (Bulk mask 0 0 pos data empty) = Some s /\
    staged s D1 D2 D3 (match data with Some _ => true | None => false end).
Proof.
  assert (Hmr : 0 <= mask < 2 ^ 64).
  { apply mask_range. intros i Hi. unfold mask. rewrite full_mask_bit by lia. apply Z.ltb_ge. lia. }
  split; [done|]. set (s0 := Bulk _ _ _ _ _ _). set (wd := match data with Some _ => true | None => false end).
  assert (Hst0 : stages s0 empty empty empty wd).
  { split; try done; intros; cbn; apply Z.bits_0. }
  assert (Hm0 : mask_from s0 0).
  { split; [done|]. intros i Hi. cbn. unfold mask. rewrite full_mask_bit by done. by rewrite (proj2 (Z.leb_le 0 i)). }
  destruct (bulk_stages_ok s0 wd 64 Hst0 Hm0 ltac:(lia)) as (s&D1&D2&D3&->&Hst&H21&Hr2&Hall&H32).
  exists s, D1, D2, D3. split; [done|]. by split.
Qed.

Lemma staged_mask s D1 D2 D3 wd m (D : gset Z) f :
  staged s D1 D2 D3 wd -> D ⊆ D2 -> (forall i, 0 <= i -> Z.testbit m i = bool_decide (i ∈ D) && f i) -> 0 <= m < 2 ^ 64.
Proof.
  intros [_ _ Hr _] HD Hb. apply mask_range. intros i Hi. rewrite Hb by lia.
  rewrite bool_decide_false; [done|]. intros ?%HD%Hr. lia.
Qed.

(** The key data of a hit, and of a key the single lookup finds. *)
Lemma staged_data s D1 D2 D3 wd t i idx d :
  staged s D1 D2 D3 wd -> b_data s = Some t -> 0 <= i < n -> bulk_key i -> hit_of i = true -> M !! keys i = Some (idx, d) ->
  t !!! i = d.
Proof.
  intros [Hst _ _ Hall] Et Hi (Hk&Hs1&Hs2) Hh E. destruct (hit_sound i Hk Hs1 Hs2 Hh) as (d'&E'&Es&_).
  rewrite (sg_data _ _ _ _ _ Hst t i Et (Hall i Hi)), Es. cbn. congruence.
Qed.

Lemma staged_pos s D1 D2 D3 wd i idx d :
  staged s D1 D2 D3 wd -> 0 <= i < n -> bulk_key i -> hit_of i = true -> M !! keys i = Some (idx, d) ->
  positions s !!! i = idx - 1.
Proof.
  intros [Hst [H32 _] _ Hall] Hi (Hk&Hs1&Hs2) Hh E. destruct (hit_sound i Hk Hs1 Hs2 Hh) as (d'&E'&_&Hnz).
  rewrite (sg_pos _ _ _ _ _ Hst i (H32 _ (Hall i Hi))), position_of by done. congruence.
Qed.

(** The keys that the loop over the remaining matches visits. *)
Lemma extra_bit s D1 D2 D3 wd i (e := Z.land (extra_hits_mask s) (u64 (Z.lnot (hits s)))) :
  staged s D1 D2 D3 wd -> 0 <= i < n -> Z.testbit e i = more i && negb (hit_of i).
Proof.
  intros Hsd Hi. pose proof Hsd as [Hst [H32 _] _ Hall]. unfold e. rewrite land_lnot_bit.
  - rewrite (sg_hits _ _ _ _ _ Hst), (sg_extra _ _ _ _ _ Hst) by lia.
    rewrite (bool_decide_true (i ∈ D2)) by set_solver. by rewrite (bool_decide_true (i ∈ D3)) by set_solver.
  - by eapply (staged_mask s _ _ _ _ _ D2); [done|done|apply Hst].
Qed.

(** What the bulk lookup reports of the key [i]. *)
Definition bulk_data_ok (data data' : option (gmap Z Z)) : Prop :=
  match data, data' with
  | Some _, Some t => forall i idx d, 0 <= i < n -> M !! keys i = Some (idx, d) -> t !!! i = d
  | None, None => True
  | _, _ => False
  end.

Definition bulk_pos_ok (pos : gmap Z Z) : Prop :=
  forall i, 0 <= i < n -> pos !!! i = match M !! keys i with Some (idx, _) => idx - 1 | None => - ENOENT end.

Definition bulk_hits_ok (hm : Z) : Prop :=
  forall i, 0 <= i -> Z.testbit hm i = (i <? n) && bool_decide (is_Some (M !! keys i)).

Lemma bulk_ok pos data :
  (forall i, 0 <= i < n -> bulk_key i) ->
  exists pos' hm data', rte_hash_lookup_bulk_ keys h n pos data = Some (pos', hm, data') /\
    0 <= hm < 2 ^ 64 /\ bulk_hits_ok hm /\ (data = None -> bulk_pos_ok pos') /\ bulk_data_ok data data'.
Proof.
  intros Hkeys. unfold rte_hash_lookup_bulk_. cbv zeta.
  destruct (pipeline_ok pos data) as (Hmr&s&D1&D2&D3&->&Hsd). set (mask := Z.shiftr _ _) in *.
  cbn [mbind option_bind]. pose proof Hsd as [Hst [H32 H21] Hr Hall].
  pose proof (staged_mask s _ _ _ _ _ D2 _ Hsd ltac:(done) (sg_extra _ _ _ _ _ Hst)) as Hxr.
  set (e := Z.land _ _). assert (Her : 0 <= e < 2 ^ 64) by by apply land_range.
  destruct (extra_loop_ok 64 s e 0 Her) as (Eh&Ep&Ed); [lia|lia|lia|].
  set (s' := extra_loop _ _ _ _ _) in *. pose proof (sg_wd _ _ _ _ _ Hst) as Hwd.
  assert (Hin : forall i, 0 <= i < n -> i ∈ D1 /\ i ∈ D2 /\ i ∈ D3).
  { intros i Hi. pose proof (Hall i Hi). split_and!; auto. }
  assert (Hh : bulk_hits_ok (hits s')).
  { intros i Hi. rewrite Eh by done. destruct (Z.ltb_spec i n).
    - destruct (Hin i ltac:(lia)) as (?&?&?). apply (hit_bit s D1 D2 D3 _ i Hst); try done. apply Hkeys. lia.
    - assert (i ∉ D2) by (intros ?%Hr; lia). unfold e. rewrite land_lnot_bit by done.
      rewrite (sg_hits _ _ _ _ _ Hst), (sg_extra _ _ _ _ _ Hst), !bool_decide_false by auto. done. }
  eexists _, _, _. split; [done|]. split; [|split; [done|split]].
  - apply mask_range. intros i Hi. rewrite Hh by lia. by rewrite (proj2 (Z.ltb_ge i n)) by lia.
  - intros -> i Hi. assert (Hbd : b_data s = None) by by destruct (b_data s).
    rewrite (miss_loop_ok 64 _ _ 0) by (lia || by apply land_range).
    rewrite land_lnot_bit, Hh by (done || lia). unfold mask. rewrite full_mask_bit, (proj2 (Z.ltb_lt i n)) by lia.
    rewrite Ep by (done || lia). unfold e. rewrite (extra_bit s D1 D2 D3 _ i Hsd Hi).
    destruct (M !! keys i) as [[idx d]|] eqn:E; [|by rewrite bool_decide_false by by intros []].
    rewrite bool_decide_true by done. cbn [andb negb]. destruct (Hkeys i Hi) as (Hk&Hs1&Hs2).
    destruct (hit_of i) eqn:Eho; cbn [negb].
    + rewrite andb_false_r. by apply (staged_pos s D1 D2 D3 false i idx d).
    + rewrite (miss_more i idx d Hk Hs1 Hs2 Eho E). cbn [andb].
      by rewrite (single_ok s D1 D2 D3 false i Hst), E by (done || apply Hin; lia).
  - unfold bulk_data_ok. destruct data as [t0|], (b_data s) as [t|] eqn:Et, (b_data s') as [t'|]; try done.
    intros i idx d Hi E. rewrite Ed by lia. destruct (Hkeys i Hi) as (Hk&Hs1&Hs2).
    rewrite (single_ok s D1 D2 D3 _ i Hst), E by (done || apply Hin; lia). cbn [snd]. unfold e.
    rewrite (extra_bit s D1 D2 D3 _ i Hsd Hi).
    destruct (hit_of i) eqn:Eho; [rewrite andb_false_r; by apply (staged_data s D1 D2 D3 true t i idx d)|].
    by rewrite (miss_more i idx d Hk Hs1 Hs2 Eho E).
Qed.

End bulk.
