(* ===== verification/HashTheorems.v ===== *)
(** * The cuckoo hash table: the theorems

    The table over the ring of free slots, as [rte_hash_create] makes it.  The
    abstract view is the map that the return values of the calls describe: a
    key is there from the call that reported its position until a call that
    deleted it or reset the table. *)

From S2P Require Import Prelude Bits Ring RingProofs SlotQueue Hash HashProofs HashSlots HashOps HashIterate HashBulk.

(** ** Executions *)

Inductive hash_op :=
| OAdd (lcore_id : Z) (key : list Z) (data : Z)
| ODel (lcore_id : Z) (key : list Z)
| OLookup (key : list Z)
| OReset.

(** The return value, and what a lookup stores in its data argument. *)
Definition hash_res : Type := Z * option Z.

(** A reset empties the ring: one iteration per object. *)
Definition reset_fuel (h : rte_hash rte_ring) : nat := Z.to_nat (p_size (prod (free_slots h)) + 1).

Definition hash_step (h : rte_hash rte_ring) (op : hash_op) : option (rte_hash rte_ring * hash_res) :=
  match op with
  | OAdd lc key data =>
      '(h', ret) ← rte_hash_add_key_with_hash_ h lc key (rte_hash_hash h key) data; Some (h', (ret, None))
  | ODel lc key => let '(h', ret) := rte_hash_del_key h lc key in Some (h', (ret, None))
  | OLookup key => Some (h, rte_hash_lookup_data h key)
  | OReset =>
      ho ← rte_hash_reset (reset_fuel h) (Some h); h' ← ho; Some (h', (0, None))
  end.

Fixpoint hash_run (h : rte_hash rte_ring) (ops : list hash_op) : option (rte_hash rte_ring * list hash_res) :=
  match ops with
  | [] => Some (h, [])
  | op :: ops => '(h', r) ← hash_step h op; '(h'', rs) ← hash_run h' ops; Some (h'', r :: rs)
  end.

(** The table of [rte_hash_create]: the ring has room for all key slots. *)
Definition hash_ring (mem : gmap Z Z) (n : Z) (hw : bool) : rte_ring :=
  (rte_ring_init mem (rte_align32pow2 (num_key_slots hw n)) 0).1.

(** The parameters are accepted, the ring can be made, and the offsets of the
    key slots fit into the 32 bits that the operations compute them in. *)
Record create_ok (n klen : Z) (hw : bool) : Prop := {
  co_params : hash_params_ok n klen = true;
  co_klen : 0 <= klen;
  co_ring : 0 <= rte_ring_get_memsize (rte_align32pow2 (num_key_slots hw n));
  co_store : (n + 1) * (16 + klen) <= 2 ^ 32
}.

Definition op_ok (klen : Z) (op : hash_op) : Prop :=
  match op with
  | OAdd lc key _ | ODel lc key => 0 <= lc < RTE_MAX_LCORE /\ Z.of_nat (length key) = klen
  | OLookup key => Z.of_nat (length key) = klen
  | OReset => True
  end.

(** ** The abstract table *)

Abbreviation keymap := (gmap (list Z) (Z * Z)).

(** The map after an operation with a result. *)
Definition track (M : keymap) (op : hash_op) (r : hash_res) : keymap :=
  match op with
  | OAdd _ key data => if 0 <=? r.1 then <[key := (r.1 + 1, data)]> M else M
  | ODel _ key => if 0 <=? r.1 then delete key M else M
  | OLookup _ => M
  | OReset => empty
  end.

Fixpoint tracked (M : keymap) (ops : list hash_op) (rs : list hash_res) : keymap :=
  match ops, rs with
  | op :: ops, r :: rs => tracked (track M op r) ops rs
  | _, _ => M
  end.

Section spec.
Context (n klen : Z) (hw : bool) (f : list Z -> Z -> Z -> Z) (init : Z).

(** The two buckets of a key. *)
Definition bucket_of (sig : Z) : Z := Z.land sig (rte_align32pow2 n / RTE_HASH_BUCKET_ENTRIES - 1).
Definition primary_of (key : list Z) : Z := bucket_of (f key klen init).
Definition secondary_of (key : list Z) : Z := bucket_of (rte_hash_secondary_hash (f key klen init)).

Definition full (M : keymap) : Prop := forall x, 1 <= x <= n -> idx_of M x.

(** Four keys of the table compete for a bucket. *)
Definition crowded (M : keymap) (b : Z) : Prop :=
  exists ks, length ks = 4%nat /\ NoDup ks /\
    forall k, k ∈ ks -> is_Some (M !! k) /\ (primary_of k = b \/ secondary_of k = b).

(** The results the map allows. *)
Definition answer (M : keymap) (op : hash_op) (r : hash_res) : Prop :=
  match op with
  | OAdd _ key _ =>
      r.2 = None /\
      match M !! key with
      | Some (idx, _) => r.1 = idx - 1 \/ (r.1 = - ENOSPC /\ (hw = false -> full M))
      | None =>
          (1 <= r.1 + 1 <= n /\ ~ idx_of M (r.1 + 1)) \/
          (r.1 = - ENOSPC /\ (hw = false -> full M \/ crowded M (primary_of key)))
      end
  | ODel _ key => r = (match M !! key with Some (idx, _) => idx - 1 | None => - ENOENT end, None)
  | OLookup key => r = match M !! key with Some (idx, d) => (idx - 1, Some d) | None => (- ENOENT, None) end
  | OReset => r = (0, None)
  end.

Fixpoint answers (M : keymap) (ops : list hash_op) (rs : list hash_res) : Prop :=
  match ops, rs with
  | [], [] => True
  | op :: ops, r :: rs => answer M op r /\ answers (track M op r) ops rs
  | _, _ => False
  end.

(** ** The simulation *)

(** The parameters of the table. *)
Record static (h : rte_hash rte_ring) : Prop := {
  ss_entries : entries h = n;
  ss_klen : key_len h = klen;
  ss_mask : forall sig, bucket h sig = bucket_of sig;
  ss_hash : forall k, rte_hash_hash h k = f k klen init;
  ss_hw : hw_trans_mem_support h = hw
}.

Lemma static_step h h' :
  static h -> same_static h h' -> hw_trans_mem_support h' = hw_trans_mem_support h -> static h'.
Proof.
  intros [En Ek Em Eh Ew] (_&E2&E3&E4&_&_&E7) E8. split; try congruence.
  intros sig. rewrite <- Em. unfold bucket. by rewrite E2.
Qed.

(** The table [h] was made with these parameters and holds [M]. *)
Record sim (h : rte_hash rte_ring) (M : keymap) : Prop := {
  sm_inv : exists c, hash_inv h c M;
  sm_static : static h
}.

Lemma setup_static r :
  hash_params_ok n klen = true -> static (hash_setup r n klen f init hw).
Proof.
  intros Hp. unfold hash_params_ok, RTE_HASH_ENTRIES_MAX, RTE_HASH_BUCKET_ENTRIES in Hp.
  rewrite negb_true_iff, !orb_false_iff, !Z.ltb_ge, Z.eqb_neq in Hp. destruct Hp as [[Hn1 Hn2] _].
  unfold hash_setup. split; try reflexivity. intros sig. unfold bucket, bucket_of. cbn [bucket_bitmask].
  destruct (align32pow2_spec n) as (k&Hkr&Ek&Hb); [lia|]. rewrite Ek. unfold RTE_HASH_BUCKET_ENTRIES.
  assert (1 <= 2 ^ k / 4) by (apply Z.div_le_lower_bound; lia).
  assert (2 ^ k <= 2 ^ 31) by (apply Z.pow_le_mono_r; lia).
  assert (2 ^ k / 4 <= 2 ^ k) by (apply Z.div_le_upper_bound; lia). by rewrite u32_small by lia.
Qed.

(** The ring has a place for every slot. *)
Lemma hash_ring_ok mem :
  create_ok n klen hw -> exists c, n <= c /\ ring_repr (hash_ring mem n hw) c [].
Proof.
  intros [Hp Hk Hr Hs]. unfold hash_params_ok, RTE_HASH_ENTRIES_MAX, RTE_HASH_BUCKET_ENTRIES in Hp.
  rewrite negb_true_iff, !orb_false_iff, !Z.ltb_ge, Z.eqb_neq in Hp. destruct Hp as [[Hn1 Hn2] _].
  assert (Hks : n + 1 <= num_key_slots hw n <= 2 ^ 31).
  { unfold num_key_slots, RTE_MAX_LCORE, LCORE_CACHE_SIZE. destruct hw; rewrite u32_small by lia; lia. }
  destruct (align32pow2_spec (num_key_slots hw n)) as (k&Hkr&Ek&Hb); [lia|].
  exists (2 ^ k - 1). split; [lia|]. unfold hash_ring. rewrite Ek in *. split; [|by split].
  apply init_ok; [|done]. assert (2 ^ k <= 2 ^ 31) by (apply Z.pow_le_mono_r; lia). lia.
Qed.

Lemma setup_sim mem : create_ok n klen hw -> sim (hash_setup (hash_ring mem n hw) n klen f init hw) empty.
Proof.
  intros HC. destruct (hash_ring_ok mem HC) as (c&Hc&Hr). destruct HC as [Hp Hk _ Hs].
  split; [|by apply setup_static]. exists c. apply (setup_ok (hash_ring mem n hw)); assumption.
Qed.

(** Four used entries of a bucket are four keys. *)
Lemma used_crowded h c M b :
  hash_inv h c M -> static h -> (forall i, 0 <= i < 4 -> used (signatures h) (b, i)) -> crowded M b.
Proof.
  intros HI [_ Ek Em Eh _] Hu. pose proof (hn_keys _ _ _ HI) as HK.
  pose proof (ky_tbl _ _ HK) as [Hv _ Hun _]. set (kf := fun i => hkey (key_at h (key_idx h !!! (b, i)))).
  exists (kf <$> seqZ 0 4). split; [done|]. split.
  - apply NoDup_fmap_2_strong; [|apply NoDup_seqZ]. intros i j Hi Hj E. rewrite elem_of_seqZ in Hi, Hj.
    destruct (used_sound h M (b, i) HK (Hu i ltac:(lia))) as (d1&E1&_).
    destruct (used_sound h M (b, j) HK (Hu j ltac:(lia))) as (d2&E2&_).
    fold (kf i) in E1. fold (kf j) in E2. rewrite E, E2 in E1. injection E1 as Ei _.
    assert (Ep : (b, i) = (b, j)) by (apply Hun; auto with lia). congruence.
  - intros k (i&->&Hi%elem_of_seqZ)%list_elem_of_fmap. pose proof (Hu i ltac:(lia)) as Hui.
    destruct (used_sound h M (b, i) HK Hui) as (d&E&_). split; [by eexists|].
    destruct (Hv (b, i) ltac:(done) Hui) as [_ (_&_&Hb&Hc)]. cbn in Hb. rewrite Em in Hb.
    unfold primary_of, secondary_of. rewrite <- Eh. fold (kf i) in Hc.
    destruct Hc as [[<- _]|[<- _]]; [by left|by right].
Qed.

Lemma add_step h M lc key data :
  sim h M -> op_ok klen (OAdd lc key data) ->
  exists h' r, hash_step h (OAdd lc key data) = Some (h', r) /\
    answer M (OAdd lc key data) r /\ sim h' (track M (OAdd lc key data) r).
Proof.
  intros [[c HI] HS] [Hlc Hk]. assert (Hkey : key_ok h key) by (unfold key_ok; by rewrite (ss_klen _ HS)).
  destruct (hash_add_ok h c M lc key data HI Hlc Hkey) as ([h' ret]&E&Hst&Hw&Hpost).
  pose proof (static_step h h' HS Hst Hw) as HS'. exists h', (ret, None). split; [cbn; by rewrite E|].
  rewrite (ss_entries _ HS), (ss_hw _ HS) in Hpost. cbn [answer track fst snd].
  destruct (M !! key) as [[idx d]|] eqn:EM.
  - pose proof (idx_of_range h M idx (hn_keys _ _ _ HI) ltac:(by exists key, d)) as Hr.
    destruct Hpost as [[-> HI']|(->&HI'&Hf)].
    + split; [split; [done|by left]|]. rewrite (proj2 (Z.leb_le 0 _)), Z.sub_add by lia. split; [by exists c|done].
    + split; [split; [done|by right]|]. cbn. split; [by exists c|done].
  - destruct Hpost as [(idx&Hr&Hno&->&HI')|(->&HI'&Hf)].
    + rewrite Z.sub_add. rewrite (proj2 (Z.leb_le 0 _)) by lia. split; [split; [done|by left]|].
      split; [by exists c|done].
    + cbn. split; [|split; [by exists c|done]]. split; [done|]. right. split; [done|]. intros E0.
      destruct (Hf E0) as [?|Hu]; [by left|right]. unfold primary_of. rewrite <- (ss_hash _ HS), <- (ss_mask _ HS).
      by apply (used_crowded h c).
Qed.

Lemma hash_step_ok h M op :
  sim h M -> op_ok klen op ->
  exists h' r, hash_step h op = Some (h', r) /\ answer M op r /\ sim h' (track M op r).
Proof.
  intros HM Hop. destruct op as [lc key data|lc key|key|]; [by apply add_step|..]; destruct HM as [[c HI] HS].
  - destruct Hop as [Hlc Hk]. assert (Hkey : key_ok h key) by (unfold key_ok; by rewrite (ss_klen _ HS)).
    pose proof (del_ok h c M lc key HI Hlc Hkey) as Hd. unfold hash_step, rte_hash_del_key.
    destruct (rte_hash_del_key_with_hash h lc key _) as [h' ret]. destruct Hd as (Hst&Hw&Hd).
    exists h', (ret, None). split; [done|]. pose proof (static_step h h' HS Hst Hw) as HS'. cbn [answer track fst].
    destruct (M !! key) as [[idx d]|] eqn:EM; destruct Hd as [-> Hd].
    + pose proof (idx_of_range h M idx (hn_keys _ _ _ HI) ltac:(by exists key, d)) as Hr.
      split; [done|]. rewrite (proj2 (Z.leb_le 0 _)) by lia. split; [by exists c|done].
    + split; [done|]. cbn. subst h'. split; [by exists c|done].
  - assert (Hkey : key_ok h key) by (unfold key_ok; by rewrite (ss_klen _ HS)). eexists _, _. split; [done|].
    split; [|split; [by exists c|done]]. unfold rte_hash_lookup_data. cbn [answer].
    by rewrite (hash_lookup_ok h M key (hn_keys _ _ _ HI) Hkey).
  - destruct (reset_ok h c M (reset_fuel h) HI) as (h'&E&Hst&Hw&HI').
    { destruct (hn_free _ _ _ HI) as (L&[(l&Hl&_) _]&_). destruct Hl as (_&->&_). unfold reset_fuel. lia. }
    exists h', (0, None). split; [cbn [hash_step]; by rewrite E|]. split; [done|]. split; [by exists c|].
    by apply (static_step h).
Qed.

Lemma run_ok ops h M :
  sim h M -> Forall (op_ok klen) ops ->
  exists h' rs, hash_run h ops = Some (h', rs) /\ answers M ops rs /\ sim h' (tracked M ops rs).
Proof.
  revert h M. induction ops as [|op ops IH]; intros h M HM Hops; [by exists h, []|].
  apply Forall_cons in Hops as [Hop Hops]. destruct (hash_step_ok h M op HM Hop) as (h1&r&E&Ha&HM1).
  destruct (IH h1 _ HM1 Hops) as (h'&rs&Er&Hr&HM'). exists h', (r :: rs). cbn [hash_run]. rewrite E. cbn [mbind option_bind].
  by rewrite Er.
Qed.

End spec.

Lemma created_run mem n klen f init hw ops h rs :
  create_ok n klen hw -> Forall (op_ok klen) ops ->
  hash_run (hash_setup (hash_ring mem n hw) n klen f init hw) ops = Some (h, rs) ->
  sim n klen hw f init h (tracked empty ops rs).
Proof.
  intros HC Hops E. destruct (run_ok n klen hw f init ops _ _ (setup_sim n klen hw f init mem HC) Hops) as (h'&rs'&E'&_&HM).
  rewrite E in E'. by injection E' as -> ->.
Qed.

(** C31: Any sequence of additions, deletions, lookups and resets on a table that
    [rte_hash_create] made runs to its end, and every result is the one of a
    map from keys to a slot and data: an added key keeps its position, a new
    key gets a slot no other key has, deletions and lookups return the position
    of the key and its data or [-ENOENT], and (without transactional memory) an
    addition fails only when all slots are taken or four keys fill the primary
    bucket. *)
Theorem hash_refines_map mem n klen f init hw ops :
  create_ok n klen hw -> Forall (op_ok klen) ops ->
  exists h rs, hash_run (hash_setup (hash_ring mem n hw) n klen f init hw) ops = Some (h, rs) /\
    answers n klen hw f init empty ops rs.
Proof.
  intros HC Hops. destruct (run_ok n klen hw f init ops _ _ (setup_sim n klen hw f init mem HC) Hops) as (h&rs&E&Ha&_).
  by exists h, rs.
Qed.

(** A hash function of the demonstration: the sum of the bytes. *)
Definition demo_hash (key : list Z) (_ init : Z) : Z := u32 (foldr Z.add init key).

Definition demo_ops : list hash_op :=
  [OAdd 0 [1; 2] 10; OAdd 0 [2; 1] 20; OAdd 0 [3; 0] 30; OAdd 1 [0; 3] 40; OAdd 1 [1; 2] 11; OLookup [2; 1];
   ODel 0 [3; 0]; OLookup [3; 0]; OAdd 2 [4; 4] 50; OLookup [1; 2]].

Lemma demo_create hw : create_ok 8 2 hw.
Proof. split; [reflexivity|lia|by destruct hw|lia]. Qed.

Lemma hash_refines_map_witness :
  exists h rs, hash_run (hash_setup (hash_ring empty 8 false) 8 2 demo_hash 7 false) demo_ops = Some (h, rs) /\
    answers 8 2 false demo_hash 7 empty demo_ops rs.
Proof. apply hash_refines_map; [apply demo_create|]. repeat constructor; lia. Defined.

(** The table and the results after a run that ends. *)
Definition table_after (h : rte_hash rte_ring) (ops : list hash_op) : rte_hash rte_ring :=
  default h (fst <$> hash_run h ops).
Definition results_after (h : rte_hash rte_ring) (ops : list hash_op) : list hash_res :=
  default [] (snd <$> hash_run h ops).

Lemma run_after h ops :
  match hash_run h ops with Some _ => true | None => false end = true ->
  hash_run h ops = Some (table_after h ops, results_after h ops).
Proof. unfold table_after, results_after. destruct (hash_run h ops) as [[h' rs]|]; [done|discriminate]. Qed.

Abbreviation demo_start := (hash_setup (hash_ring empty 8 false) 8 2 demo_hash 7 false).
Abbreviation demo_table := (table_after demo_start demo_ops).
Abbreviation demo_results := (results_after demo_start demo_ops).

Example demo_results_eq : demo_results =
  [(0, None); (1, None); (2, None); (3, None); (0, None); (1, Some 20); (2, None); (- ENOENT, None); (5, None);
   (0, Some 11)].
Proof. vm_compute. reflexivity. Qed.

Lemma demo_run_eq : hash_run demo_start demo_ops = Some (demo_table, demo_results).
Proof. apply run_after. vm_compute. reflexivity. Qed.

(** Iterating from 0 until [-ENOENT] visits every key of the table exactly
    once, with its position and its data. *)
Theorem iterate_visits_once mem n klen f init hw ops h rs :
  create_ok n klen hw -> Forall (op_ok klen) ops ->
  hash_run (hash_setup (hash_ring mem n hw) n klen f init hw) ops = Some (h, rs) ->
  iterate_all (Z.to_nat (total_entries h + 1)) h 0 ≡ₚ
    (fun '(k, (idx, d)) => (idx - 1, (k, d))) <$> map_to_list (tracked empty ops rs).
Proof. intros HC Hops E. destruct (created_run _ _ _ _ _ _ _ _ _ HC Hops E) as [[c HI] _]. by eapply iterate_all_perm. Qed.

Lemma iterate_visits_once_witness :
  iterate_all (Z.to_nat (total_entries demo_table + 1)) demo_table 0 ≡ₚ
    (fun '(k, (idx, d)) => (idx - 1, (k, d))) <$> map_to_list (tracked empty demo_ops demo_results).
Proof.
  apply (iterate_visits_once empty 8 2 demo_hash 7 false); [apply demo_create|repeat constructor; lia|exact demo_run_eq].
Defined.

(** C32: The bulk lookup of up to 64 keys, none of which hashes to 0, reports the
    same positions, hit mask, number of hits and data as single lookups. *)
Theorem lookup_bulk_equiv mem n klen f init hw ops h rs (keys : Z -> list Z) num pos data :
  create_ok n klen hw -> Forall (op_ok klen) ops ->
  hash_run (hash_setup (hash_ring mem n hw) n klen f init hw) ops = Some (h, rs) ->
  0 < num <= RTE_HASH_LOOKUP_BULK_MAX ->
  (forall i, 0 <= i < num -> Z.of_nat (length (keys i)) = klen /\ rte_hash_hash h (keys i) <> 0 /\
     rte_hash_secondary_hash (rte_hash_hash h (keys i)) <> 0) ->
  (exists pos', rte_hash_lookup_bulk keys h num pos = Some (pos', 0) /\
     forall i, 0 <= i < num -> pos' !!! i = rte_hash_lookup h (keys i)) /\
  (exists hm data', rte_hash_lookup_bulk_data keys h num data = Some (hm, data', popcount hm) /\
     (forall i, 0 <= i -> Z.testbit hm i = (i <? num) && (0 <=? rte_hash_lookup h (keys i))) /\
     forall i d, 0 <= i < num -> (rte_hash_lookup_data h (keys i)).2 = Some d -> data' !!! i = d).
Proof.
  intros HC Hops E Hnum Hkeys. destruct (created_run _ _ _ _ _ _ _ _ _ HC Hops E) as [[c HI] HS].
  assert (Hk : forall i, 0 <= i < num -> bulk_key h keys i).
  { intros i Hi. destruct (Hkeys i Hi) as (Hl&?&?). split; [|done]. unfold key_ok. by rewrite (ss_klen _ _ _ _ _ _ HS). }
  assert (Hlk : forall i, 0 <= i < num -> rte_hash_lookup_data h (keys i) =
    match tracked empty ops rs !! keys i with Some (idx, d) => (idx - 1, Some d) | None => (- ENOENT, None) end).
  { intros i Hi. apply hash_lookup_ok; [apply HI|]. by apply Hk. }
  assert (Hpos : forall i, 0 <= i < num -> rte_hash_lookup h (keys i) = (rte_hash_lookup_data h (keys i)).1) by done.
  split.
  - destruct (bulk_ok h keys num Hnum c _ HI pos None Hk) as (pos'&hm&data'&Eb&_&_&Hp&_).
    exists pos'. unfold rte_hash_lookup_bulk. rewrite Eb. split; [done|]. intros i Hi. rewrite (Hp eq_refl i Hi), Hpos, Hlk by done.
    by destruct (tracked empty ops rs !! keys i) as [[idx d]|].
  - destruct (bulk_ok h keys num Hnum c _ HI empty (Some data) Hk) as (pos'&hm&[data'|]&Eb&_&Hh&_&Hd).
    2:{ exact (False_ind _ Hd). }
    exists hm, data'. unfold rte_hash_lookup_bulk_data. rewrite Eb. split; [done|]. split.
    + intros i Hi. rewrite Hh by done. destruct (Z.ltb_spec i num); [|done]. rewrite Hpos, Hlk by lia. cbn [andb].
      destruct (tracked empty ops rs !! keys i) as [[idx d]|] eqn:Ei.
      * pose proof (idx_of_range h _ idx (hn_keys _ _ _ HI) ltac:(by exists (keys i), d)).
        rewrite bool_decide_true by done. cbn. symmetry. apply Z.leb_le. lia.
      * by rewrite bool_decide_false by by intros [].
    + intros i d Hi. rewrite Hlk by done. destruct (tracked empty ops rs !! keys i) as [[idx d']|] eqn:Ei; [|done].
      intros [= <-]. by eapply Hd.
Qed.

(** Three keys, the last of which was deleted. *)
Definition demo_keys (i : Z) : list Z := if i =? 0 then [1; 2] else if i =? 1 then [2; 1] else [3; 0].

Lemma lookup_bulk_equiv_witness :
  (exists pos', rte_hash_lookup_bulk demo_keys demo_table 3 empty = Some (pos', 0) /\
     forall i, 0 <= i < 3 -> pos' !!! i = rte_hash_lookup demo_table (demo_keys i)) /\
  (exists hm data', rte_hash_lookup_bulk_data demo_keys demo_table 3 empty = Some (hm, data', popcount hm) /\
     (forall i, 0 <= i -> Z.testbit hm i = (i <? 3) && (0 <=? rte_hash_lookup demo_table (demo_keys i))) /\
     forall i d, 0 <= i < 3 -> (rte_hash_lookup_data demo_table (demo_keys i)).2 = Some d -> data' !!! i = d).
Proof.
  apply (lookup_bulk_equiv empty 8 2 demo_hash 7 false demo_ops demo_table demo_results);
    [apply demo_create|repeat constructor; lia|exact demo_run_eq|done|].
  intros i Hi. assert (i = 0 \/ i = 1 \/ i = 2) as [->|[->| ->]] by lia; vm_compute; split; [|split| |split| |split]; congruence.
Defined.

(** ** What the theorems leave out *)

(** [rte_hash_set_cmp_func] has no effect: no table has the compare case
    [KEY_CUSTOM]. *)
Theorem set_cmp_func_ignored (r : rte_ring) n klen f init hw func k1 k2 :
  let h := hash_setup r n klen f init hw in
  rte_hash_cmp_eq k1 k2 (rte_hash_set_cmp_func h func) = rte_hash_cmp_eq k1 k2 h.
Proof.
  unfold rte_hash_cmp_eq, rte_hash_set_cmp_func, hash_setup. cbn [cmp_jump_table_idx key_len]. unfold select_cmp.
  by repeat match goal with |- context [klen =? ?x] => destruct (klen =? x); [done|] end.
Qed.

(** The bulk lookup finds a deleted key whose hash is 0: the signature of the
    emptied entry matches, and its key index and key slot are still there. *)
Theorem bulk_finds_deleted (h0 := hash_setup (hash_ring empty 8 false) 8 1 (fun _ _ _ => 0) 0 false) :
  (fun '(h, _) => (rte_hash_lookup h [5], (fun p => p.1 !!! 0) <$> rte_hash_lookup_bulk (fun _ => [5]) h 1 empty)) <$>
    hash_run h0 [OAdd 0 [5] 77; ODel 0 [5]] = Some (- ENOENT, Some 0).
Proof. vm_compute. reflexivity. Qed.

(** Updating the data of a key that is there fails when no slot is free: a
    slot for a new key is taken before the key is searched. *)
Theorem update_needs_free_slot (h0 := hash_setup (hash_ring empty 4 false) 4 1 demo_hash 0 false) :
  snd <$> hash_run h0 [OAdd 0 [1] 10; OAdd 0 [2] 20; OAdd 0 [3] 30; OAdd 0 [4] 40; OAdd 0 [1] 11; OLookup [1]] =
  Some [(0, None); (1, None); (2, None); (3, None); (- ENOSPC, None); (0, Some 10)].
Proof. vm_compute. reflexivity. Qed.
