(* ===== verification/RingConc.v ===== *)
(** * The ring shared by many producers and consumers

    [__rte_ring_mp_do_enqueue] and [__rte_ring_mc_do_dequeue] of [rte_ring.h]
    as threads that interleave at every access to the shared ring: reading the
    head, reading the opposite tail, the compare-and-set, each copied cell and
    each test of the tail are separate steps.  Memory is sequentially
    consistent (the code relies on x86 ordering and [rte_smp_wmb]).

    The state carries history variables, written and never tested: the objects
    in the order in which producers claimed their cells, the number of cells
    claimed by consumers, the objects in the order of the completions of
    enqueues and of dequeues, and for every operation the unbounded position
    at which it read the head. *)

From S2P Require Import Prelude Ring.

(** Where a thread is in its operation.  [hd] is the 32-bit head it read,
    [pos] its position. *)
Inductive thread :=
| Idle
| Done (ret : Z) (objs : list Z)
| EnqHead (objs : list Z) (b : rte_ring_queue_behavior)
| EnqTail (objs : list Z) (b : rte_ring_queue_behavior) (hd pos : Z)
| EnqCas (objs : list Z) (b : rte_ring_queue_behavior) (hd pos n free_entries : Z)
| EnqCopy (objs : list Z) (b : rte_ring_queue_behavior) (hd pos n free_entries i : Z)
| EnqWait (objs : list Z) (b : rte_ring_queue_behavior) (hd pos n free_entries : Z)
| DeqHead (max : Z) (b : rte_ring_queue_behavior)
| DeqTail (max : Z) (b : rte_ring_queue_behavior) (hd pos : Z)
| DeqCas (max : Z) (b : rte_ring_queue_behavior) (hd pos n : Z)
| DeqCopy (b : rte_ring_queue_behavior) (hd pos n : Z) (acc : list Z)
| DeqWait (b : rte_ring_queue_behavior) (hd pos n : Z) (acc : list Z).

#[export] Instance thread_inhabited : Inhabited thread := populate Idle.

Record cstate := CState {
  shared : rte_ring;
  threads : gmap nat thread;
  claimed : list Z;
  taken : Z;
  published : list Z;
  received : list Z
}.

Definition set_shared (s : cstate) (r : rte_ring) : cstate :=
  CState r (threads s) (claimed s) (taken s) (published s) (received s).
Definition set_thread (s : cstate) (tid : nat) (t : thread) : cstate :=
  CState (shared s) (<[tid := t]> (threads s)) (claimed s) (taken s) (published s) (received s).

(** The cell of the [i]-th object of a range that starts at the head [hd]. *)
Definition cell (r : rte_ring) (hd i : Z) : Z := Z.land (u32 (hd + i)) (p_mask (prod r)).

(** One step of a thread inside [__rte_ring_mp_do_enqueue] or
    [__rte_ring_mc_do_dequeue].  At the end of a call the successful test of
    the tail, the store of the new tail and the test of the water mark, which
    no thread changes, are one step: once the tail is at its range only this
    thread writes it. *)
Definition tstep (s : cstate) (t : thread) : cstate * thread :=
  let r := shared s in
  match t with
  | Idle | Done _ _ => (s, t)
  | EnqHead objs b =>
      if (length objs =? 0)%nat then (s, Done 0 [])
      else (s, EnqTail objs b (p_head (prod r)) (Z.of_nat (length (claimed s))))
  | EnqTail objs b hd pos =>
      let free_entries := u32 (p_mask (prod r) + c_tail (cons r) - hd) in
      match enq_room free_entries (Z.of_nat (length objs)) b with
      | inl ret => (s, Done ret [])
      | inr n => (s, EnqCas objs b hd pos n free_entries)
      end
  | EnqCas objs b hd pos n free_entries =>
      match cmpset_p_head r hd (u32 (hd + n)) with
      | (r1, true) =>
          (CState r1 (threads s) (claimed s ++ take (Z.to_nat n) objs) (taken s)
             (published s) (received s), EnqCopy objs b hd pos n free_entries 0)
      | (r1, false) => (set_shared s r1, EnqHead objs b)
      end
  | EnqCopy objs b hd pos n free_entries i =>
      if i <? n then
        (set_shared s (set_ring r (put objs (cell r hd i) i (ring r))),
         EnqCopy objs b hd pos n free_entries (i + 1))
      else (s, EnqWait objs b hd pos n free_entries)
  | EnqWait objs b hd pos n free_entries =>
      if p_tail (prod r) =? hd then
        (CState (set_p_tail r (u32 (hd + n))) (threads s) (claimed s) (taken s)
           (published s ++ take (Z.to_nat n) objs) (received s),
         Done (enq_ret r (p_mask (prod r)) free_entries n b) [])
      else (s, t)
  | DeqHead max b =>
      if max =? 0 then (s, Done 0 [])
      else (s, DeqTail max b (c_head (cons r)) (taken s))
  | DeqTail max b hd pos =>
      let entries := u32 (p_tail (prod r) - hd) in
      match deq_avail entries max b with
      | inl ret => (s, Done ret [])
      | inr n => (s, DeqCas max b hd pos n)
      end
  | DeqCas max b hd pos n =>
      match cmpset_c_head r hd (u32 (hd + n)) with
      | (r1, true) =>
          (CState r1 (threads s) (claimed s) (taken s + n) (published s) (received s),
           DeqCopy b hd pos n [])
      | (r1, false) => (set_shared s r1, DeqHead max b)
      end
  | DeqCopy b hd pos n acc =>
      if Z.of_nat (length acc) <? n then
        (s, DeqCopy b hd pos n (acc ++ [ring r !!! cell r hd (Z.of_nat (length acc))]))
      else (s, DeqWait b hd pos n acc)
  | DeqWait b hd pos n acc =>
      if c_tail (cons r) =? hd then
        (CState (set_c_tail r (u32 (hd + n))) (threads s) (claimed s) (taken s)
           (published s) (received s ++ acc),
         Done (deq_ret n b) acc)
      else (s, t)
  end.

(** A step of the thread [tid]. *)
Definition cstep (s : cstate) (tid : nat) : cstate :=
  let '(s', t') := tstep s (threads s !!! tid) in set_thread s' tid t'.

(** The calls a thread that is not inside an operation can make; the numbers
    of objects are [unsigned]. *)
Inductive call : thread -> Prop :=
| call_enqueue objs b : Z.of_nat (length objs) < 2 ^ 32 -> call (EnqHead objs b)
| call_dequeue n b : 0 <= n < 2 ^ 32 -> call (DeqHead n b).

Definition at_rest (t : thread) : Prop :=
  match t with Idle | Done _ _ => True | _ => False end.

Inductive step (s : cstate) : cstate -> Prop :=
| step_call tid t : at_rest (threads s !!! tid) -> call t -> step s (set_thread s tid t)
| step_run tid : step s (cstep s tid).

(** No thread has read a head and been delayed until [2^32] more objects had
    been claimed: the 32-bit compare-and-set cannot detect that. *)
Definition no_lap (s : cstate) : Prop :=
  forall tid,
    match threads s !!! tid with
    | EnqTail _ _ _ pos | EnqCas _ _ _ pos _ _ =>
        Z.of_nat (length (claimed s)) - pos < 2 ^ 32
    | DeqTail _ _ _ pos | DeqCas _ _ _ pos _ => taken s - pos < 2 ^ 32
    | _ => True
    end.

(** A ring just initialised, with no thread inside an operation. *)
Definition start (r : rte_ring) : cstate := CState r empty [] 0 [] [].

Inductive reachable (r : rte_ring) : cstate -> Prop :=
| reach_start : reachable r (start r)
| reach_step s s' : reachable r s -> no_lap s -> step s s' -> reachable r s'.
