(* ===== verification/RingConcProofs.v ===== *)
(** * The shared ring: invariant

    The invariant of the interleaved producers and consumers and its
    preservation by every step.  Positions are unbounded; the 32-bit indexes
    are their remainders. *)

From S2P Require Import Prelude Ring RingProofs RingConc.

(** ** Claimed ranges

    The ranges [(pos, n)] claimed by the threads tile the interval between a
    tail and its head. *)

Record tiles (c : nat -> option (Z * Z)) (lo hi : Z) : Prop := Tiles {
  tl_le : lo <= hi;
  tl_in : forall t p n, c t = Some (p, n) -> lo <= p /\ 0 < n /\ p + n <= hi;
  tl_disj : forall t u p n p' n', t <> u -> c t = Some (p, n) -> c u = Some (p', n') ->
    p + n <= p' \/ p' + n' <= p;
  tl_cover : forall x, lo <= x < hi -> exists t p n, c t = Some (p, n) /\ p <= x < p + n
}.

Lemma tiles_ext c c' lo hi : (forall t, c' t = c t) -> tiles c lo hi -> tiles c' lo hi.
Proof.
  intros E []. split; [done|..].
  - intros t p n. rewrite E. apply tl_in0.
  - intros t u p n p' n'. rewrite !E. apply tl_disj0.
  - intros x Hx. destruct (tl_cover0 x Hx) as (t&p&n&?&?). exists t, p, n. by rewrite E.
Qed.

(** A thread claims [n] positions at the head. *)
Lemma tiles_claim c c' lo hi tid n :
  tiles c lo hi -> 0 < n -> c tid = None ->
  (forall t, c' t = if decide (t = tid) then Some (hi, n) else c t) ->
  tiles c' lo (hi + n).
Proof.
  intros [Hle Hin Hdisj Hcov] Hn Hnone E. split; [lia|..].
  - intros t p m. rewrite E. case_decide; [intros [= <- <-]; lia|].
    intros Hc. apply Hin in Hc. lia.
  - intros t u p m p' m' Hne. rewrite !E. repeat case_decide; try congruence.
    + intros [= <- <-] Hc. apply Hin in Hc. lia.
    + intros Hc [= <- <-]. apply Hin in Hc. lia.
    + by apply Hdisj.
  - intros x Hx. destruct (decide (hi <= x)) as [Hhi|Hhi].
    + exists tid, hi, n. rewrite E, decide_True by done. split; [done|lia].
    + destruct (Hcov x ltac:(lia)) as (t&p&m&Ht&?). exists t, p, m.
      rewrite E, decide_False by congruence. done.
Qed.

(** The thread whose range starts at the tail completes. *)
Lemma tiles_release c c' lo hi tid n :
  tiles c lo hi -> c tid = Some (lo, n) ->
  (forall t, c' t = if decide (t = tid) then None else c t) ->
  tiles c' (lo + n) hi.
Proof.
  intros [Hle Hin Hdisj Hcov] Hc E. pose proof (Hin _ _ _ Hc). split; [lia|..].
  - intros t p m. rewrite E. case_decide as Hne; [done|]. intros Ht.
    pose proof (Hin _ _ _ Ht). destruct (Hdisj _ _ _ _ _ _ Hne Ht Hc); lia.
  - intros t u p m p' m' Hne. rewrite !E. repeat case_decide; try done. by apply Hdisj.
  - intros x Hx. destruct (Hcov x ltac:(lia)) as (t&p&m&Ht&?). exists t, p, m.
    rewrite E. case_decide as Hne; [|done]. subst t. rewrite Hc in Ht.
    injection Ht as <- <-. lia.
Qed.

(** ** Logs *)

Definition at_pos (l : list Z) (p : Z) : Z := l !!! Z.to_nat p.

Definition len (l : list Z) : Z := Z.of_nat (length l).

(** [l] is the part of the log [c] that starts at [pos]. *)
Definition agrees (l : list Z) (pos : Z) (c : list Z) : Prop :=
  0 <= pos /\ pos + len l <= len c /\
  forall j, 0 <= j < len l -> at_pos l j = at_pos c (pos + j).

Lemma len_app l m : len (l ++ m) = len l + len m.
Proof. unfold len. rewrite length_app. lia. Qed.

Lemma at_pos_app_l l m p : 0 <= p < len l -> at_pos (l ++ m) p = at_pos l p.
Proof. intros Hp. unfold at_pos, len in *. by rewrite lookup_total_app_l by lia. Qed.

Lemma at_pos_app_r l m p : len l <= p -> at_pos (l ++ m) p = at_pos m (p - len l).
Proof.
  intros Hp. unfold at_pos, len in *. rewrite lookup_total_app_r by lia. f_equal. lia.
Qed.

Lemma agrees_extend l pos c d : agrees l pos c -> agrees l pos (c ++ d).
Proof.
  intros (H0&H1&H2). split_and!; [done|rewrite len_app; unfold len in *; lia|].
  intros j Hj. rewrite at_pos_app_l by lia. by apply H2.
Qed.

Lemma agrees_app l m pos c :
  agrees l pos c -> agrees m (pos + len l) c -> agrees (l ++ m) pos c.
Proof.
  intros (H0&H1&H2) (H3&H4&H5). split_and!; [done|rewrite len_app; lia|].
  intros j Hj. rewrite len_app in Hj. destruct (decide (j < len l)).
  - rewrite at_pos_app_l by lia. apply H2. lia.
  - rewrite at_pos_app_r, H5 by lia. f_equal. lia.
Qed.

Lemma agrees_last l c : agrees l (len c) (c ++ l).
Proof.
  split_and!; [unfold len; lia|rewrite len_app; lia|].
  intros j Hj. rewrite at_pos_app_r by lia. f_equal. lia.
Qed.

Lemma agrees_snoc l pos c x :
  agrees l pos c -> pos + len l < len c -> x = at_pos c (pos + len l) ->
  agrees (l ++ [x]) pos c.
Proof.
  intros Hl Hlt ->. apply agrees_app; [done|]. destruct Hl as (H0&_&_).
  split_and!; [unfold len; lia|unfold len in *; cbn; lia|].
  intros j Hj. assert (j = 0) as -> by (unfold len in Hj; cbn in Hj; lia).
  by rewrite Z.add_0_r.
Qed.

(** Two parts of a log that start together are prefixes of one another. *)
Lemma agrees_prefix l m c : agrees l 0 c -> agrees m 0 c -> len l <= len m -> l `prefix_of` m.
Proof.
  intros (_&Hl&El) (_&Hm&Em) Hle. exists (drop (length l) m).
  apply list_eq. intros i. unfold len, at_pos in *.
  destruct (decide (i < length l)%nat).
  - rewrite lookup_app_l by lia. rewrite !list_lookup_lookup_total_lt by lia. f_equal.
    specialize (El (Z.of_nat i) ltac:(lia)). specialize (Em (Z.of_nat i) ltac:(lia)).
    rewrite !Nat2Z.id in *. congruence.
  - rewrite lookup_app_r, lookup_drop by lia. f_equal. lia.
Qed.

(** ** Positions *)

Lemma u32_inj x y : u32 x = u32 y -> 0 <= y - x < 2 ^ 32 -> x = y.
Proof.
  unfold u32, wrap. intros E Hd. pose proof (Z.div_mod x (2 ^ 32) ltac:(lia)).
  pose proof (Z.div_mod y (2 ^ 32) ltac:(lia)). rewrite E in *.
  assert (y / 2 ^ 32 = x / 2 ^ 32) by nia. lia.
Qed.

Definition PH (s : cstate) : Z := len (claimed s).
Definition PT (s : cstate) : Z := len (published s).
Definition CT (s : cstate) : Z := len (received s).

(** ** The invariant *)

(** The ranges threads have claimed and not yet released. *)
Definition pclaim (t : thread) : option (Z * Z) :=
  match t with
  | EnqCopy _ _ _ pos n _ _ | EnqWait _ _ _ pos n _ => Some (pos, n)
  | _ => None
  end.
Definition cclaim (t : thread) : option (Z * Z) :=
  match t with
  | DeqCopy _ _ pos n _ | DeqWait _ _ pos n _ => Some (pos, n)
  | _ => None
  end.

(** The cells of [pos .. pos + i - 1] hold their objects. *)
Definition written (k : Z) (s : cstate) (pos i : Z) : Prop :=
  forall x, pos <= x < pos + i ->
    ring (shared s) !!! (x mod 2 ^ k) = at_pos (claimed s) x.

(** What a thread knows, by the point it has reached. *)
Definition tinv (k : Z) (s : cstate) (t : thread) : Prop :=
  match t with
  | Idle | Done _ _ => True
  | EnqHead objs _ => len objs < 2 ^ 32
  | EnqTail objs _ hd pos => 0 < len objs < 2 ^ 32 /\ hd = u32 pos /\ 0 <= pos <= PH s
  | EnqCas objs _ hd pos n _ =>
      hd = u32 pos /\ 0 <= pos <= PH s /\ 0 < n <= len objs /\ len objs < 2 ^ 32 /\
      exists c, c <= CT s /\ pos <= c + (2 ^ k - 1) /\ n <= u32 (2 ^ k - 1 + c - pos)
  | EnqCopy objs _ hd pos n _ i =>
      hd = u32 pos /\ 0 <= i <= n /\ n <= len objs /\
      agrees (take (Z.to_nat n) objs) pos (claimed s) /\ written k s pos i
  | EnqWait objs _ hd pos n _ =>
      hd = u32 pos /\ n <= len objs /\
      agrees (take (Z.to_nat n) objs) pos (claimed s) /\ written k s pos n
  | DeqHead max _ => 0 <= max < 2 ^ 32
  | DeqTail max _ hd pos => 0 < max < 2 ^ 32 /\ hd = u32 pos /\ 0 <= pos <= taken s
  | DeqCas max _ hd pos n =>
      hd = u32 pos /\ 0 <= pos <= taken s /\ 0 < n /\ 0 <= max < 2 ^ 32 /\
      exists p, pos <= p <= PT s /\ n <= u32 (p - pos)
  | DeqCopy _ hd pos n acc => hd = u32 pos /\ len acc <= n /\ agrees acc pos (claimed s)
  | DeqWait _ hd pos n acc => hd = u32 pos /\ len acc = n /\ agrees acc pos (claimed s)
  end.

Record cinv (k : Z) (s : cstate) : Prop := CInv {
  ci_k : 0 <= k <= 27;
  ci_mask : p_mask (prod (shared s)) = 2 ^ k - 1;
  ci_geom : p_size (prod (shared s)) = 2 ^ k /\ c_size (cons (shared s)) = 2 ^ k /\
    0 < watermark (prod (shared s)) <= 2 ^ k;
  ci_ph : p_head (prod (shared s)) = u32 (PH s);
  ci_pt : p_tail (prod (shared s)) = u32 (PT s);
  ci_ch : c_head (cons (shared s)) = u32 (taken s);
  ci_ct : c_tail (cons (shared s)) = u32 (CT s);
  ci_pub : agrees (published s) 0 (claimed s);
  ci_rcv : agrees (received s) 0 (claimed s);
  ci_ord : taken s <= PT s;
  ci_cap : PH s <= CT s + (2 ^ k - 1);
  ci_prod : tiles (fun t => pclaim (threads s !!! t)) (PT s) (PH s);
  ci_cons : tiles (fun t => cclaim (threads s !!! t)) (CT s) (taken s);
  ci_cells : forall p, CT s <= p < PT s ->
    ring (shared s) !!! (p mod 2 ^ k) = at_pos (claimed s) p;
  ci_thr : forall tid, tinv k s (threads s !!! tid)
}.

Lemma cinv_order k s :
  cinv k s -> 0 <= CT s /\ CT s <= taken s <= PT s /\ PT s <= PH s <= CT s + (2 ^ k - 1) /\
  1 <= 2 ^ k <= 2 ^ 27.
Proof.
  intros HI. pose proof (tl_le _ _ _ (ci_prod _ _ HI)). pose proof (tl_le _ _ _ (ci_cons _ _ HI)).
  pose proof (ci_ord _ _ HI). pose proof (ci_cap _ _ HI). pose proof (size_range k (ci_k _ _ HI)).
  unfold CT, len in *. lia.
Qed.

(** Progress of the shared state keeps what the other threads know. *)
Lemma tinv_mono k s s' t d :
  claimed s' = claimed s ++ d -> taken s <= taken s' -> PT s <= PT s' -> CT s <= CT s' ->
  (forall p n x, pclaim t = Some (p, n) -> p <= x < p + n ->
     ring (shared s') !!! (x mod 2 ^ k) = ring (shared s) !!! (x mod 2 ^ k)) ->
  tinv k s t -> tinv k s' t.
Proof.
  intros Hd Ht Hp Hc Hcell.
  assert (HPH : PH s <= PH s') by (unfold PH; rewrite Hd, len_app; unfold len; lia).
  assert (Hag : forall l pos, agrees l pos (claimed s) -> agrees l pos (claimed s'))
    by (intros; rewrite Hd; by apply agrees_extend).
  assert (Hwr : forall objs pos n i, pclaim t = Some (pos, n) -> i <= n -> n <= len objs ->
    agrees (take (Z.to_nat n) objs) pos (claimed s) -> written k s pos i -> written k s' pos i).
  { intros objs pos n i Hcl Hi Hn (H0&Hl&_) Hw x Hx. rewrite (Hcell pos n) by (done || lia).
    rewrite Hw, Hd, at_pos_app_l; [done| |done].
    unfold len in *. rewrite length_take in Hl. lia. }
  destruct t; cbn [tinv]; try done.
  - intros (?&?&?). split_and!; try done; lia.
  - intros (?&?&?&?&c&?&?&?). split_and!; try done; try lia. exists c. split_and!; try done. lia.
  - intros (?&?&?&?&?). split_and!; try done; try lia; [by apply Hag|]. eapply Hwr; try done. lia.
  - intros (?&?&?&?). split_and!; try done; [by apply Hag|]. by eapply Hwr.
  - intros (?&?&?). split_and!; try done; lia.
  - intros (?&?&?&?&p&?&?). split_and!; try done; try lia. exists p. split_and!; done || lia.
  - intros (?&?&?). split_and!; try done. by apply Hag.
  - intros (?&?&?). split_and!; try done. by apply Hag.
Qed.

(** ** Preservation *)

Lemma thread_insert {A} (f : thread -> A) (m : gmap nat thread) tid t u :
  f (<[tid := t]> m !!! u) = if decide (u = tid) then f t else f (m !!! u).
Proof. rewrite lookup_total_insert. repeat case_decide; congruence || done. Qed.

(** A step that only changes what one thread knows. *)
Lemma local_step k s tid t' :
  cinv k s -> pclaim t' = pclaim (threads s !!! tid) -> cclaim t' = cclaim (threads s !!! tid) ->
  tinv k s t' -> cinv k (set_thread s tid t').
Proof.
  intros HI Hp Hc Ht. destruct HI. split; try done.
  - eapply tiles_ext; [|done]. intros u. cbn. rewrite (thread_insert pclaim).
    case_decide; [by subst|done].
  - eapply tiles_ext; [|done]. intros u. cbn. rewrite (thread_insert cclaim).
    case_decide; [by subst|done].
  - intros u. cbn. rewrite (thread_insert (tinv k _)). case_decide; [done|]. apply ci_thr0.
Qed.

Lemma enq_room_inr free n b m :
  enq_room free n b = inr m -> 0 <= free -> 0 < n -> 0 < m <= n /\ m <= free.
Proof.
  unfold enq_room. destruct (Z.ltb_spec free n); [|intros [= <-]; lia].
  destruct b; [done|]. destruct (Z.eqb_spec free 0); [done|]. intros [= <-]. lia.
Qed.

Lemma deq_avail_inr entries n b m :
  deq_avail entries n b = inr m -> 0 <= entries -> 0 < n -> 0 < m <= n /\ m <= entries.
Proof.
  unfold deq_avail. destruct (Z.ltb_spec entries n); [|intros [= <-]; lia].
  destruct b; [done|]. destruct (Z.eqb_spec entries 0); [done|]. intros [= <-]. lia.
Qed.

Lemma len_take n objs : 0 <= n <= len objs -> len (take (Z.to_nat n) objs) = n.
Proof. unfold len. intros. rewrite length_take. lia. Qed.

Section steps.
Context (k : Z) (s : cstate) (HI : cinv k s) (tid : nat).

Let r := shared s.

Lemma cell_pos pos i : cell r (u32 pos) i = (pos + i) mod 2 ^ k.
Proof.
  unfold cell, r. pose proof (ci_k _ _ HI). rewrite (ci_mask _ _ HI).
  rewrite u32_add_l, land_mask, u32_mod_pow by lia. done.
Qed.

(** Progress of the other threads when [tid] moves the shared state. *)
Lemma others_keep s' t' d :
  threads s' = threads s -> claimed s' = claimed s ++ d -> taken s <= taken s' ->
  PT s <= PT s' -> CT s <= CT s' ->
  (forall u p n x, u <> tid -> pclaim (threads s !!! u) = Some (p, n) -> p <= x < p + n ->
     ring (shared s') !!! (x mod 2 ^ k) = ring (shared s) !!! (x mod 2 ^ k)) ->
  tinv k s' t' ->
  forall u, tinv k (set_thread s' tid t') (threads (set_thread s' tid t') !!! u).
Proof.
  intros Hth Hd Ht Hp Hc Hcell Hself u. cbn. rewrite Hth, (thread_insert (tinv k _)).
  case_decide as Hu; [done|].
  eapply (tinv_mono k s _ _ d); try done; [|apply (ci_thr _ _ HI)]. intros; cbn. by eapply Hcell.
Qed.

(** The compare-and-set of a producer succeeds. *)
Lemma enq_claim_step objs b hd pos n fe :
  no_lap s -> threads s !!! tid = EnqCas objs b hd pos n fe -> p_head (prod r) = hd ->
  cinv k (set_thread
    (CState (set_p_head r (u32 (hd + n))) (threads s) (claimed s ++ take (Z.to_nat n) objs)
       (taken s) (published s) (received s)) tid (EnqCopy objs b hd pos n fe 0)).
Proof.
  intros Hlap Ht Hcas. specialize (Hlap tid). rewrite Ht in Hlap.
  pose proof (ci_thr _ _ HI tid) as Hk. rewrite Ht in Hk.
  destruct Hk as (->&Hpos&Hn&Hlen&c&Hc&Hpc&Hnf). pose proof (cinv_order _ _ HI) as Hord.
  assert (pos = PH s) as ->.
  { apply u32_inj; [|unfold PH, len in *; lia]. unfold r in Hcas. by rewrite <- Hcas, (ci_ph _ _ HI). }
  rewrite u32_small in Hnf by lia.
  set (s' := CState _ _ _ _ _ _).
  assert (HPH : PH s' = PH s + n) by (unfold PH; cbn; rewrite len_app, len_take; lia).
  split; try apply HI.
  - change (u32 (u32 (PH s) + n) = u32 (PH s')). by rewrite HPH, u32_add_l.
  - apply agrees_extend, (ci_pub _ _ HI).
  - apply agrees_extend, (ci_rcv _ _ HI).
  - change (PH s' <= CT s + (2 ^ k - 1)). lia.
  - replace (PH (set_thread s' tid _)) with (PH s + n) by done.
    eapply (tiles_claim _ _ _ _ tid); [apply (ci_prod _ _ HI)|lia|by cbv beta; rewrite Ht|].
    intros u. apply (thread_insert pclaim).
  - eapply tiles_ext; [|apply (ci_cons _ _ HI)]. intros u. cbn. rewrite (thread_insert cclaim).
    case_decide; [subst; by rewrite Ht|done].
  - intros p Hp. cbn. rewrite at_pos_app_l; [by apply (ci_cells _ _ HI)|].
    change (CT s <= p < PT s) in Hp. fold (PH s). lia.
  - apply (others_keep s' _ (take (Z.to_nat n) objs)); try done; try (cbn; lia).
    cbn. split_and!; [done|lia|lia|lia|apply agrees_last|]. intros x Hx. lia.
Qed.

(** A producer copies one object. *)
Lemma enq_copy_step objs b hd pos n fe i :
  threads s !!! tid = EnqCopy objs b hd pos n fe i -> i < n ->
  cinv k (set_thread (set_shared s (set_ring r (put objs (cell r hd i) i (ring r)))) tid
    (EnqCopy objs b hd pos n fe (i + 1))).
Proof.
  intros Ht Hlt. pose proof (ci_thr _ _ HI tid) as Hk. rewrite Ht in Hk.
  destruct Hk as (->&Hi&Hn&Hag&Hw). pose proof (cinv_order _ _ HI) as Hord.
  assert (Hcl : pclaim (threads s !!! tid) = Some (pos, n)) by (by rewrite Ht).
  pose proof (tl_in _ _ _ (ci_prod _ _ HI) tid _ _ Hcl) as Hrange.
  rewrite cell_pos.
  assert (Hother : forall x, x <> pos + i -> CT s <= x < PH s ->
    put objs ((pos + i) mod 2 ^ k) i (ring r) !!! (x mod 2 ^ k) = ring r !!! (x mod 2 ^ k)).
  { intros x Hne Hx. unfold put. rewrite lookup_total_insert_ne; [done|].
    destruct (decide (x < pos + i)); [apply not_eq_sym|]; apply mod_distinct; lia. }
  split; try apply HI.
  - eapply tiles_ext; [|apply (ci_prod _ _ HI)]. intros u. cbn. rewrite (thread_insert pclaim).
    case_decide; [subst; by rewrite Ht|done].
  - eapply tiles_ext; [|apply (ci_cons _ _ HI)]. intros u. cbn. rewrite (thread_insert cclaim).
    case_decide; [subst; by rewrite Ht|done].
  - intros p Hp. change (CT s <= p < PT s) in Hp. cbn. rewrite Hother by lia.
    by apply (ci_cells _ _ HI).
  - apply (others_keep _ _ []); try done; [by rewrite app_nil_r|..].
    + intros u p m x Hu Hcu Hx. cbn. pose proof (tl_in _ _ _ (ci_prod _ _ HI) u _ _ Hcu).
      pose proof (tl_disj _ _ _ (ci_prod _ _ HI) u tid _ _ _ _ Hu Hcu Hcl). apply Hother; lia.
    + cbn. split_and!; [done|lia|lia|done|done|]. intros x Hx. cbn.
      destruct (decide (x = pos + i)) as [->|Hne]; [|rewrite Hother by lia; apply Hw; lia].
      unfold put. rewrite lookup_total_insert_eq. destruct Hag as (_&_&Hag).
      rewrite <- Hag by (rewrite len_take; lia). unfold at_pos.
      by rewrite !list_lookup_total_alt, lookup_take_lt by lia.
Qed.

(** A producer publishes its range. *)
Lemma enq_publish_step objs b hd pos n fe ret :
  threads s !!! tid = EnqWait objs b hd pos n fe -> p_tail (prod r) = hd ->
  cinv k (set_thread
    (CState (set_p_tail r (u32 (hd + n))) (threads s) (claimed s) (taken s)
       (published s ++ take (Z.to_nat n) objs) (received s)) tid (Done ret [])).
Proof.
  intros Ht Htail. pose proof (ci_thr _ _ HI tid) as Hk. rewrite Ht in Hk.
  destruct Hk as (->&Hn&Hag&Hw). pose proof (cinv_order _ _ HI) as Hord.
  assert (Hcl : pclaim (threads s !!! tid) = Some (pos, n)) by (by rewrite Ht).
  pose proof (tl_in _ _ _ (ci_prod _ _ HI) tid _ _ Hcl) as Hrange.
  assert (pos = PT s) as ->.
  { symmetry. apply u32_inj; [|lia]. unfold r in Htail. by rewrite <- Htail, (ci_pt _ _ HI). }
  set (s' := CState _ _ _ _ _ _).
  assert (HPT : PT s' = PT s + n) by (unfold PT; cbn; rewrite len_app, len_take; lia).
  split; try apply HI.
  - change (u32 (u32 (PT s) + n) = u32 (PT s')). by rewrite HPT, u32_add_l.
  - apply agrees_app; [apply (ci_pub _ _ HI)|]. done.
  - change (taken s <= PT s'). lia.
  - replace (PT (set_thread s' tid _)) with (PT s + n) by done.
    eapply (tiles_release _ _ _ _ tid); [apply (ci_prod _ _ HI)|done|].
    intros u. apply (thread_insert pclaim).
  - eapply tiles_ext; [|apply (ci_cons _ _ HI)]. intros u. cbn. rewrite (thread_insert cclaim).
    case_decide; [subst; by rewrite Ht|done].
  - intros p Hp. change (CT s <= p < PT s') in Hp. cbn.
    destruct (decide (p < PT s)); [apply (ci_cells _ _ HI); lia|apply Hw; lia].
  - apply (others_keep s' _ []); try done; [by rewrite app_nil_r|lia].
Qed.

(** The compare-and-set of a consumer succeeds. *)
Lemma deq_claim_step max b hd pos n :
  no_lap s -> threads s !!! tid = DeqCas max b hd pos n -> c_head (cons r) = hd ->
  cinv k (set_thread
    (CState (set_c_head r (u32 (hd + n))) (threads s) (claimed s) (taken s + n)
       (published s) (received s)) tid (DeqCopy b hd pos n [])).
Proof.
  intros Hlap Ht Hcas. specialize (Hlap tid). rewrite Ht in Hlap.
  pose proof (ci_thr _ _ HI tid) as Hk. rewrite Ht in Hk.
  destruct Hk as (->&Hpos&Hn&Hmax&p&Hp&Hnp). pose proof (cinv_order _ _ HI) as Hord.
  assert (pos = taken s) as ->.
  { apply u32_inj; [|lia]. unfold r in Hcas. by rewrite <- Hcas, (ci_ch _ _ HI). }
  rewrite u32_small in Hnp by lia. set (s' := CState _ _ _ _ _ _).
  split; try apply HI.
  - cbn. by rewrite u32_add_l.
  - cbn. unfold PT in *. cbn. lia.
  - eapply tiles_ext; [|apply (ci_prod _ _ HI)]. intros u. cbn. rewrite (thread_insert pclaim).
    case_decide; [subst; by rewrite Ht|done].
  - eapply (tiles_claim _ _ _ _ tid); [apply (ci_cons _ _ HI)|lia|by cbv beta; rewrite Ht|].
    intros u. apply (thread_insert cclaim).
  - apply (others_keep s' _ []); try done; [by rewrite app_nil_r|cbn; lia|].
    cbn. split_and!; [done|unfold len; cbn; lia|]. split_and!; [lia| |].
    + unfold PH, PT, len in *. cbn. lia.
    + intros j Hj. unfold len in Hj. cbn in Hj. lia.
Qed.

(** A consumer copies one object. *)
Lemma deq_copy_step b hd pos n acc :
  threads s !!! tid = DeqCopy b hd pos n acc -> len acc < n ->
  cinv k (set_thread s tid (DeqCopy b hd pos n (acc ++ [ring r !!! cell r hd (len acc)]))).
Proof.
  intros Ht Hlt. pose proof (ci_thr _ _ HI tid) as Hk. rewrite Ht in Hk.
  destruct Hk as (->&Hle&Hag). pose proof (cinv_order _ _ HI) as Hord.
  assert (Hcl : cclaim (threads s !!! tid) = Some (pos, n)) by (by rewrite Ht).
  pose proof (tl_in _ _ _ (ci_cons _ _ HI) tid _ _ Hcl) as Hrange.
  apply local_step; [done|by rewrite Ht|by rewrite Ht|]. cbn. rewrite cell_pos.
  assert (0 <= len acc) by (unfold len; lia).
  split_and!; [done|rewrite len_app; unfold len in *; cbn; lia|].
  apply agrees_snoc; [done|fold (PH s); lia|]. apply (ci_cells _ _ HI). lia.
Qed.

(** A consumer releases its range. *)
Lemma deq_release_step b hd pos n acc ret :
  threads s !!! tid = DeqWait b hd pos n acc -> c_tail (cons r) = hd ->
  cinv k (set_thread
    (CState (set_c_tail r (u32 (hd + n))) (threads s) (claimed s) (taken s)
       (published s) (received s ++ acc)) tid (Done ret acc)).
Proof.
  intros Ht Htail. pose proof (ci_thr _ _ HI tid) as Hk. rewrite Ht in Hk.
  destruct Hk as (->&Hn&Hag). pose proof (cinv_order _ _ HI) as Hord.
  assert (Hcl : cclaim (threads s !!! tid) = Some (pos, n)) by (by rewrite Ht).
  pose proof (tl_in _ _ _ (ci_cons _ _ HI) tid _ _ Hcl) as Hrange.
  assert (pos = CT s) as ->.
  { symmetry. apply u32_inj; [|lia]. unfold r in Htail. by rewrite <- Htail, (ci_ct _ _ HI). }
  set (s' := CState _ _ _ _ _ _).
  assert (HCT : CT s' = CT s + n) by (unfold CT; cbn; rewrite len_app; lia).
  split; try apply HI.
  - change (u32 (u32 (CT s) + n) = u32 (CT s')). by rewrite HCT, u32_add_l.
  - apply agrees_app; [apply (ci_rcv _ _ HI)|]. done.
  - change (PH s <= CT s' + (2 ^ k - 1)). lia.
  - eapply tiles_ext; [|apply (ci_prod _ _ HI)]. intros u. cbn. rewrite (thread_insert pclaim).
    case_decide; [subst; by rewrite Ht|done].
  - replace (CT (set_thread s' tid _)) with (CT s + n) by done.
    eapply (tiles_release _ _ _ _ tid); [apply (ci_cons _ _ HI)|done|].
    intros u. apply (thread_insert cclaim).
  - intros p Hp. change (CT s' <= p < PT s) in Hp. apply (ci_cells _ _ HI). lia.
  - apply (others_keep s' _ []); try done; [by rewrite app_nil_r|lia].
Qed.
End steps.

Lemma set_shared_same s : set_shared s (shared s) = s.
Proof. by destruct s. Qed.

Lemma producer_step k s tid :
  cinv k s -> no_lap s ->
  match threads s !!! tid with
  | EnqHead _ _ | EnqTail _ _ _ _ | EnqCas _ _ _ _ _ _
  | EnqCopy _ _ _ _ _ _ _ | EnqWait _ _ _ _ _ _ => cinv k (cstep s tid)
  | _ => True
  end.
Proof.
  intros HI Hlap. pose proof (ci_thr _ _ HI tid) as Hk. pose proof (cinv_order _ _ HI) as Hord.
  unfold cstep, tstep. destruct (threads s !!! tid) as [| |objs b|objs b hd pos|objs b hd pos n fe
    |objs b hd pos n fe i|objs b hd pos n fe| | | | |] eqn:Ht; try done; cbn in Hk.
  - destruct (Nat.eqb_spec (length objs) 0); apply local_step; try done; rewrite ?Ht; try done.
    cbn. rewrite (ci_ph _ _ HI). unfold PH, len in *. split_and!; done || lia.
  - destruct Hk as (Hlen&->&Hpos). destruct (enq_room _ _ _) as [ret|n] eqn:E;
      apply local_step; try done; rewrite ?Ht; try done.
    apply enq_room_inr in E; [|apply u32_range|unfold len in *; lia]. cbn. unfold len in *.
    split_and!; try done; try lia. exists (CT s). split_and!; [lia|lia|].
    rewrite (ci_mask _ _ HI), (ci_ct _ _ HI), u32_sub_r in E.
    rewrite <- Z.add_sub_assoc, (Z.add_comm (2 ^ k - 1)) in E.
    replace (u32 (CT s) - pos + (2 ^ k - 1)) with (u32 (CT s) + (2 ^ k - 1 - pos)) in E by lia.
    rewrite u32_add_l in E.
    replace (CT s + (2 ^ k - 1 - pos)) with (2 ^ k - 1 + CT s - pos) in E by lia. lia.
  - unfold cmpset_p_head. destruct (Z.eqb_spec (p_head (prod (shared s))) hd).
    + by apply enq_claim_step.
    + rewrite set_shared_same. apply local_step; rewrite ?Ht; try done. cbn. tauto.
  - destruct (Z.ltb_spec i n); [by apply enq_copy_step|].
    apply local_step; rewrite ?Ht; try done. cbn. destruct Hk as (?&?&?&?&?).
    assert (i = n) as <- by lia. done.
  - destruct (Z.eqb_spec (p_tail (prod (shared s))) hd); [by eapply enq_publish_step|].
    apply local_step; rewrite ?Ht; done.
Qed.

Lemma consumer_step k s tid :
  cinv k s -> no_lap s ->
  match threads s !!! tid with
  | DeqHead _ _ | DeqTail _ _ _ _ | DeqCas _ _ _ _ _
  | DeqCopy _ _ _ _ _ | DeqWait _ _ _ _ _ => cinv k (cstep s tid)
  | _ => True
  end.
Proof.
  intros HI Hlap. pose proof (ci_thr _ _ HI tid) as Hk. pose proof (cinv_order _ _ HI) as Hord.
  unfold cstep, tstep. destruct (threads s !!! tid) as [| | | | | | |max b|max b hd pos|max b hd pos n
    |b hd pos n acc|b hd pos n acc] eqn:Ht; try done; cbn in Hk.
  - destruct (Z.eqb_spec max 0); apply local_step; try done; rewrite ?Ht; try done.
    cbn. rewrite (ci_ch _ _ HI). split_and!; done || lia.
  - destruct Hk as (Hmax&->&Hpos). destruct (deq_avail _ _ _) as [ret|n] eqn:E;
      apply local_step; try done; rewrite ?Ht; try done.
    apply deq_avail_inr in E; [|apply u32_range|lia].
    cbn. split_and!; try done; try lia. exists (PT s).
    rewrite (ci_pt _ _ HI), u32_sub_l, u32_sub_r in E. split; lia.
  - unfold cmpset_c_head. destruct (Z.eqb_spec (c_head (cons (shared s))) hd).
    + by apply (deq_claim_step k s HI tid max).
    + rewrite set_shared_same. apply local_step; rewrite ?Ht; try done. cbn. tauto.
  - destruct (Z.ltb_spec (Z.of_nat (length acc)) n); [by apply (deq_copy_step k s HI tid b)|].
    apply local_step; rewrite ?Ht; try done. cbn. unfold len in *. destruct Hk as (?&?&?).
    split_and!; done || lia.
  - destruct (Z.eqb_spec (c_tail (cons (shared s))) hd); [by eapply deq_release_step|].
    apply local_step; rewrite ?Ht; done.
Qed.

Lemma step_ok k s s' : cinv k s -> no_lap s -> step s s' -> cinv k s'.
Proof.
  intros HI Hlap Hs. destruct Hs as [tid t Hrest Hcall|tid].
  - assert (Hn : pclaim (threads s !!! tid) = None /\ cclaim (threads s !!! tid) = None)
      by (by destruct (threads s !!! tid)).
    destruct Hn as [Hp Hc]. apply local_step; [done|..]; rewrite ?Hp, ?Hc; by destruct Hcall.
  - pose proof (producer_step k s tid HI Hlap). pose proof (consumer_step k s tid HI Hlap).
    destruct (threads s !!! tid) eqn:Ht; try done;
      unfold cstep; rewrite Ht; cbn; apply local_step; rewrite ?Ht; done.
Qed.

Lemma start_ok r : ring_inv r [] -> p_tail (prod r) = 0 -> exists k, cinv k (start r).
Proof.
  intros HI H0. destruct HI as [(k&Hk&Hs) Hcs Hmask [Hph _] [Hch Hct] Hl _ _ Hwm]. exists k.
  rewrite H0 in *. cbn in Hl. unfold u32, wrap in Hl.
  assert (Hc0 : c_tail (cons r) = 0) by (apply Z.mod_divide in Hl as [x Hx]; lia).
  assert (Hnone : forall t, (empty : gmap nat thread) !!! t = Idle)
    by (intros; by rewrite lookup_total_empty).
  assert (Htl : forall f : thread -> option (Z * Z), f Idle = None ->
    tiles (fun t => f ((empty : gmap nat thread) !!! t)) 0 0).
  { intros f Hf. split; [done|..]; intros *; rewrite ?Hnone, ?Hf; try done. lia. }
  split; cbn; try done; try (by rewrite ?Hph, ?Hch, ?H0, ?Hc0).
  - congruence.
  - rewrite <- Hs. split_and!; done || lia.
  - unfold PH, CT, len. cbn. lia.
  - by apply (Htl pclaim).
  - by apply (Htl cclaim).
  - unfold CT, PT, len. cbn. lia.
Qed.

Lemma reachable_ok r s :
  ring_inv r [] -> p_tail (prod r) = 0 -> reachable r s -> exists k, cinv k s.
Proof.
  intros HI H0 Hr. induction Hr as [|s s' _ [k IH] Hlap Hstep]; [by apply start_ok|].
  exists k. by eapply step_ok.
Qed.

(** ** Consequences *)

(** A tiling without ranges is empty. *)
Lemma tiles_none c lo hi : tiles c lo hi -> (forall t, c t = None) -> lo = hi.
Proof.
  intros HT Hn. pose proof (tl_le _ _ _ HT). destruct (decide (lo = hi)) as [|Hne]; [done|].
  destruct (tl_cover _ _ _ HT lo ltac:(lia)) as (t&p&n&Ht&_). by rewrite Hn in Ht.
Qed.

(** The oldest range starts at the tail. *)
Lemma tiles_first c lo hi t p n :
  tiles c lo hi -> c t = Some (p, n) -> exists u m, c u = Some (lo, m).
Proof.
  intros HT Ht. pose proof (tl_in _ _ _ HT _ _ _ Ht).
  destruct (tl_cover _ _ _ HT lo ltac:(lia)) as (u&q&m&Hu&?).
  pose proof (tl_in _ _ _ HT _ _ _ Hu). exists u, m. by replace lo with q by lia.
Qed.

Lemma cinv_prefix k s : cinv k s -> received s `prefix_of` published s.
Proof.
  intros HI. eapply agrees_prefix; [apply (ci_rcv _ _ HI)|apply (ci_pub _ _ HI)|].
  pose proof (cinv_order _ _ HI). unfold CT, PT in *. lia.
Qed.

(** With no operation in progress the ring holds what was published and not
    received. *)
Lemma cinv_quiescent k s q :
  cinv k s -> (forall tid, at_rest (threads s !!! tid)) -> published s = received s ++ q ->
  ring_inv (shared s) q.
Proof.
  intros HI Hrest Hq. pose proof (cinv_order _ _ HI) as Hord. pose proof (ci_k _ _ HI).
  destruct (ci_geom _ _ HI) as (Hs&Hcs&Hwm).
  assert (HP : PT s = PH s).
  { eapply tiles_none; [apply (ci_prod _ _ HI)|]. intros t. specialize (Hrest t).
    cbv beta. by destruct (threads s !!! t). }
  assert (HC : CT s = taken s).
  { eapply tiles_none; [apply (ci_cons _ _ HI)|]. intros t. specialize (Hrest t).
    cbv beta. by destruct (threads s !!! t). }
  assert (Hlen : PT s = CT s + len q) by (unfold PT, CT; by rewrite Hq, len_app).
  assert (0 <= len q) by (unfold len; lia).
  split; rewrite ?Hs, ?Hcs, ?(ci_mask _ _ HI), ?(ci_ph _ _ HI), ?(ci_pt _ _ HI),
    ?(ci_ch _ _ HI), ?(ci_ct _ _ HI); try done.
  - by exists k.
  - split; [congruence|apply u32_range].
  - split; [congruence|apply u32_range].
  - rewrite u32_sub_l, u32_sub_r. fold (len q). rewrite u32_small; lia.
  - fold (len q). lia.
  - intros i Hi. fold (len q) in Hi.
    rewrite <- Zplus_mod_idemp_l, u32_mod_pow, Zplus_mod_idemp_l by lia.
    rewrite (ci_cells _ _ HI) by lia. destruct (ci_pub _ _ HI) as (_&_&Hpub).
    pose proof (Hpub (CT s + i)) as E. rewrite Z.add_0_l in E. rewrite <- E by (fold (PT s); lia).
    rewrite Hq, at_pos_app_r by (fold (CT s); lia). fold (CT s). unfold at_pos. f_equal. lia.
Qed.
