(* ===== verification/RingConcTheorems.v ===== *)
(** * The shared ring: the theorems

    Safety and progress of the multi-producer multi-consumer operations under
    every interleaving, and schedules that run them. *)

From S2P Require Import Prelude Ring RingProofs RingConc RingConcProofs.

(** ** Schedules *)

Inductive action := Call (tid : nat) (t : thread) | Run (tid : nat).

Definition act (s : cstate) (a : action) : cstate :=
  match a with Call tid t => set_thread s tid t | Run tid => cstep s tid end.

Definition restb (t : thread) : bool :=
  match t with Idle | Done _ _ => true | _ => false end.

Definition callb (t : thread) : bool :=
  match t with
  | EnqHead objs _ => len objs <? 2 ^ 32
  | DeqHead n _ => (0 <=? n) && (n <? 2 ^ 32)
  | _ => false
  end.

(** The action is possible and fewer than [2^32] objects have passed. *)
Definition allowed (s : cstate) (a : action) : bool :=
  (PH s <? 2 ^ 32) &&
  match a with Call tid t => restb (threads s !!! tid) && callb t | Run _ => true end.

Fixpoint run_schedule (s : cstate) (acts : list action) : option cstate :=
  match acts with
  | [] => Some s
  | a :: rest => if allowed s a then run_schedule (act s a) rest else None
  end.

Lemma no_lap_early k s : cinv k s -> PH s < 2 ^ 32 -> no_lap s.
Proof.
  intros HI HP tid. pose proof (cinv_order _ _ HI). pose proof (ci_thr _ _ HI tid) as Ht.
  unfold PH, len in *. destruct (threads s !!! tid); cbn in Ht; try done; unfold PH, len in *; lia.
Qed.

Lemma run_schedule_reachable r acts s s' :
  ring_inv r [] -> p_tail (prod r) = 0 -> reachable r s ->
  run_schedule s acts = Some s' -> reachable r s'.
Proof.
  intros HI H0. revert s. induction acts as [|a acts IH]; intros s Hr; cbn [run_schedule].
  - by intros [= <-].
  - destruct (allowed s a) eqn:E; [|done]. apply IH.
    destruct (reachable_ok r s HI H0 Hr) as [k Hk]. apply andb_true_iff in E as [HP E].
    apply Z.ltb_lt in HP. eapply reach_step; [done|by eapply no_lap_early|].
    destruct a as [tid t|tid]; [|apply step_run]. apply andb_true_iff in E as [Hrest Hcall].
    apply step_call; [by destruct (threads s !!! tid)|].
    destruct t; try done; cbn in Hcall; constructor; unfold len in *; lia.
Qed.

(** Two producers and a consumer: the second producer claims its cells after
    the first, completes its copy before it and waits for it. *)
Definition demo_start : cstate := start (fst (rte_ring_init empty 8 0)).
Definition demo_schedule : list action :=
  [Call 1 (EnqHead [10; 11; 12] RTE_RING_QUEUE_FIXED);
   Call 2 (EnqHead [20; 21] RTE_RING_QUEUE_FIXED)] ++
  map Run [1; 2; 1; 2; 1; 2; 2; 2; 2; 2; 2; 2; 2; 2; 2; 2; 1; 1; 1; 1; 1]%nat ++
  [Call 3 (DeqHead 4 RTE_RING_QUEUE_VARIABLE)] ++
  map Run [3; 3; 3; 2; 3; 3; 3; 3; 3; 3; 3; 3]%nat.

(** ** The theorems *)

(** C7: Whatever the interleaving of any number of multi-producer enqueues and
    multi-consumer dequeues, the objects received, in the order in which the
    dequeues complete, are a prefix of the objects published, in the order in
    which the enqueues complete: FIFO order, nothing lost, duplicated or
    corrupted.  No more than [size - 1] objects are in the ring. *)
Theorem shared_ring_fifo (r : rte_ring) (s : cstate) :
  ring_inv r [] -> p_tail (prod r) = 0 -> reachable r s ->
  received s `prefix_of` published s /\
  len (published s) - len (received s) <= p_mask (prod (shared s)).
Proof.
  intros HI H0 Hr. destruct (reachable_ok r s HI H0 Hr) as [k Hk].
  split; [by eapply cinv_prefix|]. pose proof (cinv_order _ _ Hk).
  rewrite (ci_mask _ _ Hk). unfold PT, CT in *. lia.
Qed.

Lemma demo_run : { s : cstate | run_schedule demo_start demo_schedule = Some s }.
Proof. eexists. vm_compute. reflexivity. Defined.

Lemma shared_ring_fifo_witness :
  (received (proj1_sig demo_run), published (proj1_sig demo_run)) =
    ([10; 11; 12], [10; 11; 12; 20; 21]) /\
  received (proj1_sig demo_run) `prefix_of` published (proj1_sig demo_run) /\
  len (published (proj1_sig demo_run)) - len (received (proj1_sig demo_run)) <=
    p_mask (prod (shared (proj1_sig demo_run))).
Proof.
  split; [vm_compute; reflexivity|].
  apply (shared_ring_fifo (fst (rte_ring_init empty 8 0))).
  - apply init_ok; [lia|vm_compute; discriminate].
  - reflexivity.
  - apply (run_schedule_reachable _ demo_schedule demo_start).
    + apply init_ok; [lia|vm_compute; discriminate].
    + reflexivity.
    + apply reach_start.
    + apply (proj2_sig demo_run).
Defined.

(** When no operation is in progress, the shared ring is a queue that
    holds exactly the objects published and not yet received, in order. *)
Theorem shared_ring_quiescent (r : rte_ring) (s : cstate) :
  ring_inv r [] -> p_tail (prod r) = 0 -> reachable r s ->
  (forall tid, at_rest (threads s !!! tid)) ->
  exists q, published s = received s ++ q /\ ring_inv (shared s) q.
Proof.
  intros HI H0 Hr Hrest. destruct (reachable_ok r s HI H0 Hr) as [k Hk].
  destruct (cinv_prefix k s Hk) as [q Hq]. exists q. split; [done|].
  by apply (cinv_quiescent k s q).
Qed.

Lemma demo_at_rest tid : at_rest (threads (proj1_sig demo_run) !!! tid).
Proof.
  destruct (threads (proj1_sig demo_run) !! tid) as [t|] eqn:E.
  - rewrite (lookup_total_correct _ _ _ E).
    assert (Hall : map_Forall (fun _ t => restb t = true) (threads (proj1_sig demo_run)))
      by (apply (bool_decide_eq_true_1 _); vm_compute; reflexivity).
    specialize (Hall tid t E). by destruct t.
  - rewrite lookup_total_alt, E. done.
Qed.

Lemma shared_ring_quiescent_witness :
  exists q, published (proj1_sig demo_run) = received (proj1_sig demo_run) ++ q /\
    ring_inv (shared (proj1_sig demo_run)) q.
Proof.
  assert (Hi : ring_inv (fst (rte_ring_init empty 8 0)) [])
    by (apply init_ok; [lia|vm_compute; discriminate]).
  apply (shared_ring_quiescent (fst (rte_ring_init empty 8 0)) (proj1_sig demo_run) Hi eq_refl).
  - apply (run_schedule_reachable _ demo_schedule demo_start _ Hi eq_refl);
      [apply reach_start|apply (proj2_sig demo_run)].
  - apply demo_at_rest.
Defined.

(** C8: A producer that is about to copy an object never overwrites a cell
    that holds a published object not yet released by its consumer, nor a cell
    claimed by another producer. *)
Theorem shared_ring_no_overwrite (r : rte_ring) (s : cstate) (tid : nat)
    (objs : list Z) (b : rte_ring_queue_behavior) (hd pos n fe i : Z) :
  ring_inv r [] -> p_tail (prod r) = 0 -> reachable r s ->
  threads s !!! tid = EnqCopy objs b hd pos n fe i -> i < n ->
  let size := p_size (prod (shared s)) in
  (forall p, len (received s) <= p < len (published s) ->
     cell (shared s) hd i <> p mod size) /\
  (forall u objs' b' hd' pos' n' fe' i' j, u <> tid ->
     threads s !!! u = EnqCopy objs' b' hd' pos' n' fe' i' -> 0 <= j < n' ->
     cell (shared s) hd i <> cell (shared s) hd' j).
Proof.
  intros HI H0 Hr Ht Hi. destruct (reachable_ok r s HI H0 Hr) as [k Hk].
  destruct (ci_geom _ _ Hk) as (Hs&_). cbv zeta. rewrite Hs.
  pose proof (cinv_order _ _ Hk) as Hord. pose proof (ci_thr _ _ Hk tid) as Htid.
  rewrite Ht in Htid. destruct Htid as (->&Hin&_).
  assert (Hc : pclaim (threads s !!! tid) = Some (pos, n)) by (by rewrite Ht).
  pose proof (tl_in _ _ _ (ci_prod _ _ Hk) tid _ _ Hc). rewrite (cell_pos k s Hk).
  fold (CT s) (PT s). split.
  - intros p Hp. apply not_eq_sym, mod_distinct. lia.
  - intros u objs' b' hd' pos' n' fe' i' j Hu Htu Hj.
    pose proof (ci_thr _ _ Hk u) as Hu'. rewrite Htu in Hu'. destruct Hu' as (->&_).
    assert (Hcu : pclaim (threads s !!! u) = Some (pos', n')) by (by rewrite Htu).
    pose proof (tl_in _ _ _ (ci_prod _ _ Hk) u _ _ Hcu).
    pose proof (tl_disj _ _ _ (ci_prod _ _ Hk) u tid _ _ _ _ Hu Hcu Hc).
    rewrite (cell_pos k s Hk). destruct (decide (pos + i < pos' + j));
      [|apply not_eq_sym]; apply mod_distinct; lia.
Qed.

(** The run stopped while both producers copy. *)
Lemma demo_copying : { s : cstate | run_schedule demo_start (take 12 demo_schedule) = Some s }.
Proof. eexists. vm_compute. reflexivity. Defined.

Lemma shared_ring_no_overwrite_witness :
  let s := proj1_sig demo_copying in
  threads s !!! 2%nat = EnqCopy [20; 21] RTE_RING_QUEUE_FIXED 3 3 2 4 1 /\
  (forall p, len (received s) <= p < len (published s) ->
     cell (shared s) 3 1 <> p mod p_size (prod (shared s))) /\
  (forall u objs' b' hd' pos' n' fe' i' j, u <> 2%nat ->
     threads s !!! u = EnqCopy objs' b' hd' pos' n' fe' i' -> 0 <= j < n' ->
     cell (shared s) 3 1 <> cell (shared s) hd' j).
Proof.
  split; [vm_compute; reflexivity|].
  assert (Hi : ring_inv (fst (rte_ring_init empty 8 0)) [])
    by (apply init_ok; [lia|vm_compute; discriminate]).
  apply (shared_ring_no_overwrite (fst (rte_ring_init empty 8 0)) (proj1_sig demo_copying) 2
    [20; 21] RTE_RING_QUEUE_FIXED 3 3 2 4 1 Hi eq_refl).
  - apply (run_schedule_reachable _ (take 12 demo_schedule) demo_start _ Hi eq_refl);
      [apply reach_start|apply (proj2_sig demo_copying)].
  - vm_compute. reflexivity.
  - lia.
Defined.

(** C9: No deadlock: whenever a thread is inside an operation, some thread can
    make a step that is not a spin on a tail.  The wait loops at the end of
    the operations always wait for a thread that can go on. *)
Theorem shared_ring_no_deadlock (r : rte_ring) (s : cstate) (tid : nat) :
  ring_inv r [] -> p_tail (prod r) = 0 -> reachable r s ->
  ~ at_rest (threads s !!! tid) ->
  exists u, tstep s (threads s !!! u) <> (s, threads s !!! u).
Proof.
  intros HI H0 Hr Hbusy. destruct (reachable_ok r s HI H0 Hr) as [k Hk].
  assert (Hprod : forall t p n, pclaim (threads s !!! t) = Some (p, n) ->
    exists u, tstep s (threads s !!! u) <> (s, threads s !!! u)).
  { intros t p n Hc. destruct (tiles_first _ _ _ _ _ _ (ci_prod _ _ Hk) Hc) as (u&m&Hu).
    exists u. pose proof (ci_thr _ _ Hk u) as Htu. unfold tstep.
    destruct (threads s !!! u) eqn:E; try done; injection Hu as -> ->; cbn in Htu.
    - destruct (_ <? _); [|done]. intros [=]. lia.
    - destruct Htu as (->&_). by rewrite (ci_pt _ _ Hk), Z.eqb_refl. }
  assert (Hcons : forall t p n, cclaim (threads s !!! t) = Some (p, n) ->
    exists u, tstep s (threads s !!! u) <> (s, threads s !!! u)).
  { intros t p n Hc. destruct (tiles_first _ _ _ _ _ _ (ci_cons _ _ Hk) Hc) as (u&m&Hu).
    exists u. pose proof (ci_thr _ _ Hk u) as Htu. unfold tstep.
    destruct (threads s !!! u) as [| | | | | | | | | |b hd pos n' acc|] eqn:E; try done;
      injection Hu as -> ->; cbn in Htu.
    - destruct (_ <? _); [|done]. intros [= Ha]. apply (f_equal length) in Ha.
      rewrite length_app in Ha. cbn in Ha. lia.
    - destruct Htu as (->&_). by rewrite (ci_ct _ _ Hk), Z.eqb_refl. }
  destruct (threads s !!! tid) eqn:E; try (exfalso; by apply Hbusy);
    try (eapply (Hprod tid); by rewrite E); try (eapply (Hcons tid); by rewrite E);
    exists tid; rewrite E; unfold tstep, cmpset_p_head, cmpset_c_head;
    repeat case_match; simplify_eq; done.
Qed.

Lemma shared_ring_no_deadlock_witness :
  let s := proj1_sig demo_copying in
  exists u, tstep s (threads s !!! u) <> (s, threads s !!! u).
Proof.
  assert (Hi : ring_inv (fst (rte_ring_init empty 8 0)) [])
    by (apply init_ok; [lia|vm_compute; discriminate]).
  apply (shared_ring_no_deadlock (fst (rte_ring_init empty 8 0)) (proj1_sig demo_copying) 1 Hi eq_refl).
  - apply (run_schedule_reachable _ (take 12 demo_schedule) demo_start _ Hi eq_refl);
      [apply reach_start|apply (proj2_sig demo_copying)].
  - vm_compute. intros H. exact H.
Defined.
