(* ===== verification/Meter.v ===== *)
(** * Traffic metering: srTCM and trTCM token buckets

    Model of [librte_meter/rte_meter.h] and [rte_meter.c].  All members are
    [uint64_t]; sums and products wrap.  Doubles, used once to derive the
    refill period, are binary64 [spec_float] values. *)

From Stdlib Require Import SpecFloat.
From S2P Require Import Prelude.

(** ** Data *)

Inductive rte_meter_color := e_RTE_METER_GREEN | e_RTE_METER_YELLOW | e_RTE_METER_RED.

#[export] Instance color_eq_dec : EqDecision rte_meter_color.
Proof. solve_decision. Defined.

Record rte_meter_srtcm_params := SrtcmParams { sp_cir : Z; sp_cbs : Z; sp_ebs : Z }.
Record rte_meter_trtcm_params := TrtcmParams {
  tp_cir : Z; tp_pir : Z; tp_cbs : Z; tp_pbs : Z
}.

Record rte_meter_srtcm := Srtcm {
  s_time : Z;
  s_tc : Z;
  s_te : Z;
  s_cbs : Z;
  s_ebs : Z;
  s_cir_period : Z;
  s_cir_bytes_per_period : Z
}.

Record rte_meter_trtcm := Trtcm {
  t_time_tc : Z;
  t_time_tp : Z;
  t_tc : Z;
  t_tp : Z;
  t_cbs : Z;
  t_pbs : Z;
  t_cir_period : Z;
  t_cir_bytes_per_period : Z;
  t_pir_period : Z;
  t_pir_bytes_per_period : Z
}.

(** ** Configuration *)

(** Conversions between [uint64_t] and [double]. *)
Definition double_of (x : Z) : spec_float := binary_normalize 53 1024 x 0 false.
Definition ddiv (x y : spec_float) : spec_float := SFdiv 53 1024 x y.

Definition trunc_of (f : spec_float) : Z :=
  match f with S754_finite false m e => Z.shiftl (Zpos m) e | _ => 0 end.
Definition ceil_of (f : spec_float) : Z :=
  match f with
  | S754_finite false m e => - Z.shiftl (Zneg m) e
  | _ => 0
  end.

Definition RTE_METER_TB_PERIOD_MIN : Z := 100.

(** Result: [*tb_period] and [*tb_bytes_per_period]. *)
Definition rte_meter_get_tb_params (hz rate : Z) : Z * Z :=
  let period := ddiv (double_of hz) (double_of rate) in
  if SFleb (double_of RTE_METER_TB_PERIOD_MIN) period then (trunc_of period, 1)
  else
    let bytes := ceil_of (ddiv (double_of RTE_METER_TB_PERIOD_MIN) period) in
    (u64 (hz * bytes) / rate, bytes).

(** [hz] and [cycles] are what [rte_get_tsc_hz] and [rte_get_tsc_cycles]
    return; NULL pointers are [None]. *)
Definition rte_meter_srtcm_config (hz cycles : Z) (m : option rte_meter_srtcm)
    (params : option rte_meter_srtcm_params) : option rte_meter_srtcm * Z :=
  match m, params with
  | Some _, Some p =>
      if (sp_cir p =? 0) || ((sp_cbs p =? 0) && (sp_ebs p =? 0)) then (m, -2)
      else
        let '(period, bytes) := rte_meter_get_tb_params hz (sp_cir p) in
        (Some (Srtcm cycles (sp_cbs p) (sp_ebs p) (sp_cbs p) (sp_ebs p) period bytes), 0)
  | _, _ => (m, -1)
  end.

Definition rte_meter_trtcm_config (hz cycles : Z) (m : option rte_meter_trtcm)
    (params : option rte_meter_trtcm_params) : option rte_meter_trtcm * Z :=
  match m, params with
  | Some _, Some p =>
      if (tp_cir p =? 0) || (tp_pir p =? 0) || (tp_pir p <? tp_cir p) ||
         (tp_cbs p =? 0) || (tp_pbs p =? 0)
      then (m, -2)
      else
        let '(cp, cb) := rte_meter_get_tb_params hz (tp_cir p) in
        let '(pp, pb) := rte_meter_get_tb_params hz (tp_pir p) in
        (Some (Trtcm cycles cycles (tp_cbs p) (tp_pbs p) (tp_cbs p) (tp_pbs p) cp cb pp pb), 0)
  | _, _ => (m, -1)
  end.

(** ** Metering *)

(** [tokens + n_periods * bytes], limited to the bucket size. *)
Definition refill (tokens n_periods bytes limit : Z) : Z :=
  let t := u64 (tokens + u64 (n_periods * bytes)) in
  if limit <? t then limit else t.

(** The srTCM with the buckets and the time of the update replaced. *)
Definition srtcm_set (m : rte_meter_srtcm) (time tc te : Z) : rte_meter_srtcm :=
  Srtcm time tc te (s_cbs m) (s_ebs m) (s_cir_period m) (s_cir_bytes_per_period m).

Definition rte_meter_srtcm_color_blind_check (m : rte_meter_srtcm) (time pkt_len : Z) :
    rte_meter_srtcm * rte_meter_color :=
  let time_diff := u64 (time - s_time m) in
  let n_periods := time_diff / s_cir_period m in
  let time' := u64 (s_time m + u64 (n_periods * s_cir_period m)) in
  let tc := refill (s_tc m) n_periods (s_cir_bytes_per_period m) (s_cbs m) in
  let te := refill (s_te m) n_periods (s_cir_bytes_per_period m) (s_ebs m) in
  if pkt_len <=? tc then (srtcm_set m time' (tc - pkt_len) te, e_RTE_METER_GREEN)
  else if pkt_len <=? te then (srtcm_set m time' tc (te - pkt_len), e_RTE_METER_YELLOW)
  else (srtcm_set m time' tc te, e_RTE_METER_RED).

Definition rte_meter_srtcm_color_aware_check (m : rte_meter_srtcm) (time pkt_len : Z)
    (pkt_color : rte_meter_color) : rte_meter_srtcm * rte_meter_color :=
  let time_diff := u64 (time - s_time m) in
  let n_periods := time_diff / s_cir_period m in
  let time' := u64 (s_time m + u64 (n_periods * s_cir_period m)) in
  let tc := refill (s_tc m) n_periods (s_cir_bytes_per_period m) (s_cbs m) in
  let te := refill (s_te m) n_periods (s_cir_bytes_per_period m) (s_ebs m) in
  if bool_decide (pkt_color = e_RTE_METER_GREEN) && (pkt_len <=? tc) then
    (srtcm_set m time' (tc - pkt_len) te, e_RTE_METER_GREEN)
  else if negb (bool_decide (pkt_color = e_RTE_METER_RED)) && (pkt_len <=? te) then
    (srtcm_set m time' tc (te - pkt_len), e_RTE_METER_YELLOW)
  else (srtcm_set m time' tc te, e_RTE_METER_RED).

Definition trtcm_set (m : rte_meter_trtcm) (time_tc time_tp tc tp : Z) : rte_meter_trtcm :=
  Trtcm time_tc time_tp tc tp (t_cbs m) (t_pbs m) (t_cir_period m) (t_cir_bytes_per_period m)
    (t_pir_period m) (t_pir_bytes_per_period m).

Definition rte_meter_trtcm_color_blind_check (m : rte_meter_trtcm) (time pkt_len : Z) :
    rte_meter_trtcm * rte_meter_color :=
  let n_periods_tc := u64 (time - t_time_tc m) / t_cir_period m in
  let n_periods_tp := u64 (time - t_time_tp m) / t_pir_period m in
  let time_tc := u64 (t_time_tc m + u64 (n_periods_tc * t_cir_period m)) in
  let time_tp := u64 (t_time_tp m + u64 (n_periods_tp * t_pir_period m)) in
  let tc := refill (t_tc m) n_periods_tc (t_cir_bytes_per_period m) (t_cbs m) in
  let tp := refill (t_tp m) n_periods_tp (t_pir_bytes_per_period m) (t_pbs m) in
  if tp <? pkt_len then (trtcm_set m time_tc time_tp tc tp, e_RTE_METER_RED)
  else if tc <? pkt_len then
    (trtcm_set m time_tc time_tp tc (tp - pkt_len), e_RTE_METER_YELLOW)
  else (trtcm_set m time_tc time_tp (tc - pkt_len) (tp - pkt_len), e_RTE_METER_GREEN).

Definition rte_meter_trtcm_color_aware_check (m : rte_meter_trtcm) (time pkt_len : Z)
    (pkt_color : rte_meter_color) : rte_meter_trtcm * rte_meter_color :=
  let n_periods_tc := u64 (time - t_time_tc m) / t_cir_period m in
  let n_periods_tp := u64 (time - t_time_tp m) / t_pir_period m in
  let time_tc := u64 (t_time_tc m + u64 (n_periods_tc * t_cir_period m)) in
  let time_tp := u64 (t_time_tp m + u64 (n_periods_tp * t_pir_period m)) in
  let tc := refill (t_tc m) n_periods_tc (t_cir_bytes_per_period m) (t_cbs m) in
  let tp := refill (t_tp m) n_periods_tp (t_pir_bytes_per_period m) (t_pbs m) in
  if bool_decide (pkt_color = e_RTE_METER_RED) || (tp <? pkt_len) then
    (trtcm_set m time_tc time_tp tc tp, e_RTE_METER_RED)
  else if bool_decide (pkt_color = e_RTE_METER_YELLOW) || (tc <? pkt_len) then
    (trtcm_set m time_tc time_tp tc (tp - pkt_len), e_RTE_METER_YELLOW)
  else (trtcm_set m time_tc time_tp (tc - pkt_len) (tp - pkt_len), e_RTE_METER_GREEN).

(** ** Runs of a meter *)

(** A packet: arrival time, length and colour on input. *)
Definition packet : Type := Z * Z * rte_meter_color.

Section runs.
Context {M : Type} (check : M -> Z -> Z -> rte_meter_color -> M * rte_meter_color).

Fixpoint meter_run (m : M) (pkts : list packet) : M * list (Z * rte_meter_color) :=
  match pkts with
  | [] => (m, [])
  | (time, pkt_len, c) :: rest =>
      let '(m1, c') := check m time pkt_len c in
      let '(m2, out) := meter_run m1 rest in (m2, (pkt_len, c') :: out)
  end.
End runs.

(** Bytes that left with one of the given colours. *)
Fixpoint bytes_of (cs : list rte_meter_color) (out : list (Z * rte_meter_color)) : Z :=
  match out with
  | [] => 0
  | (n, c) :: rest => (if decide (c ∈ cs) then n else 0) + bytes_of cs rest
  end.

(** Arrival times do not decrease from [now] to [last], the TSC does not wrap,
    lengths are not negative. *)
Fixpoint arrivals (now last : Z) (pkts : list packet) : Prop :=
  match pkts with
  | [] => now <= last < 2 ^ 64
  | (time, pkt_len, _) :: rest => now <= time /\ 0 <= pkt_len /\ arrivals time last rest
  end.

Lemma arrivals_last now last pkts : arrivals now last pkts -> now <= last < 2 ^ 64.
Proof.
  revert now. induction pkts as [|[[t n] c] pkts IH]; intros now; cbn; [done|].
  intros (?&_&H). apply IH in H. lia.
Qed.

(** ** Token buckets *)

Lemma u64_le x : 0 <= x -> 0 <= u64 x <= x.
Proof. intros. pose proof (u64_range x). split; [lia|]. by apply Z.mod_le. Qed.

Lemma refill_bounds tokens n bytes limit :
  0 <= tokens -> 0 <= n * bytes -> 0 <= limit ->
  0 <= refill tokens n bytes limit <= limit /\
  refill tokens n bytes limit <= tokens + n * bytes.
Proof.
  intros Ht Hn Hl. unfold refill. pose proof (u64_le (n * bytes) Hn).
  pose proof (u64_le (tokens + u64 (n * bytes)) ltac:(lia)). case_match eqn:E.
  - apply Z.ltb_lt in E. lia.
  - apply Z.ltb_ge in E. lia.
Qed.

(** The clock of a bucket advances by whole periods and never passes the
    present. *)
Lemma clock_step last time period :
  0 <= last <= time -> time < 2 ^ 64 -> 0 < period ->
  let n := u64 (time - last) / period in
  0 <= n /\ u64 (last + u64 (n * period)) = last + n * period /\ last + n * period <= time.
Proof.
  intros Hl Ht Hp n. unfold n. rewrite (u64_small (time - last)) by lia.
  pose proof (Z.div_pos (time - last) period ltac:(lia) Hp).
  pose proof (Z.mul_div_le (time - last) period Hp).
  rewrite (u64_small (_ * _)), u64_small by nia. lia.
Qed.

(** ** srTCM *)

Record srtcm_inv (m : rte_meter_srtcm) : Prop := SrtcmInv {
  sm_time : 0 <= s_time m;
  sm_tc : 0 <= s_tc m <= s_cbs m;
  sm_te : 0 <= s_te m <= s_ebs m;
  sm_period : 0 < s_cir_period m;
  sm_bytes : 0 <= s_cir_bytes_per_period m
}.

(** What a stretch of [n] refill periods has done to the meter. *)
Definition srtcm_progress (m m' : rte_meter_srtcm) (n green yellow : Z) : Prop :=
  0 <= n /\ s_time m' = s_time m + n * s_cir_period m /\
  s_cbs m' = s_cbs m /\ s_ebs m' = s_ebs m /\ s_cir_period m' = s_cir_period m /\
  s_cir_bytes_per_period m' = s_cir_bytes_per_period m /\
  green + s_tc m' <= s_tc m + n * s_cir_bytes_per_period m /\
  yellow + s_te m' <= s_te m + n * s_cir_bytes_per_period m.

Definition bytes_if (c c' : rte_meter_color) (n : Z) : Z := if decide (c = c') then n else 0.

Ltac progress_cases :=
  unfold bytes_if; repeat case_decide; try congruence; split_and!; cbn; try done; lia.

Lemma srtcm_step m time n c :
  srtcm_inv m -> s_time m <= time < 2 ^ 64 -> 0 <= n ->
  let '(m', c') := rte_meter_srtcm_color_aware_check m time n c in
  srtcm_inv m' /\ s_time m' <= time /\
  exists k, srtcm_progress m m' k (bytes_if c' e_RTE_METER_GREEN n) (bytes_if c' e_RTE_METER_YELLOW n).
Proof.
  intros [Ht Htc Hte Hp Hb] Htime Hn. unfold rte_meter_srtcm_color_aware_check.
  destruct (clock_step (s_time m) time (s_cir_period m)) as (Hk&Hclk&Hle); [lia..|].
  rewrite Hclk. set (k := u64 _ / _) in *.
  pose proof (refill_bounds (s_tc m) k (s_cir_bytes_per_period m) (s_cbs m)) as [Hc1 Hc2]; [nia..|].
  pose proof (refill_bounds (s_te m) k (s_cir_bytes_per_period m) (s_ebs m)) as [He1 He2]; [nia..|].
  set (tc := refill (s_tc m) _ _ _) in *. set (te := refill (s_te m) _ _ _) in *.
  assert (Hpos : 0 <= k * s_cir_period m) by nia.
  destruct (_ && (n <=? tc)) eqn:E1; [|destruct (_ && (n <=? te)) eqn:E2].
  - apply andb_true_iff in E1 as [_ E1]. apply Z.leb_le in E1.
    split; [split; cbn; lia|]. split; [cbn; lia|]. exists k. progress_cases.
  - apply andb_true_iff in E2 as [_ E2]. apply Z.leb_le in E2.
    split; [split; cbn; lia|]. split; [cbn; lia|]. exists k. progress_cases.
  - split; [split; cbn; lia|]. split; [cbn; lia|]. exists k. progress_cases.
Qed.

Lemma bytes_of_cons c c' n out : bytes_of [c] ((n, c') :: out) = bytes_if c' c n + bytes_of [c] out.
Proof.
  cbn. unfold bytes_if. destruct (decide (c' ∈ [c])) as [H|H], (decide (c' = c)); set_solver.
Qed.

Lemma srtcm_run_ok m pkts last :
  srtcm_inv m -> arrivals (s_time m) last pkts ->
  let '(m', out) := meter_run rte_meter_srtcm_color_aware_check m pkts in
  srtcm_inv m' /\ s_time m' <= last /\
  exists k, srtcm_progress m m' k (bytes_of [e_RTE_METER_GREEN] out) (bytes_of [e_RTE_METER_YELLOW] out).
Proof.
  revert m. induction pkts as [|[[time n] c] pkts IH]; intros m HI Harr; cbn [meter_run].
  - split_and!; [done|cbn in Harr; lia|]. exists 0. unfold srtcm_progress. cbn. lia.
  - destruct Harr as (Hle&Hn&Harr). pose proof (arrivals_last _ _ _ Harr).
    pose proof (srtcm_step m time n c HI ltac:(lia) Hn) as Hs.
    destruct (rte_meter_srtcm_color_aware_check m time n c) as [m1 c1].
    destruct Hs as (HI1&Hle1&k1&Hp1).
    assert (Harr1 : arrivals (s_time m1) last pkts).
    { destruct pkts as [|[[t2 n2] c2] pkts]; cbn in *; lia || (split_and!; tauto || lia). }
    specialize (IH m1 HI1 Harr1). destruct (meter_run _ m1 pkts) as [m2 out].
    destruct IH as (HI2&Hle2&k2&Hp2). split_and!; [done|done|]. exists (k1 + k2).
    rewrite !bytes_of_cons. unfold srtcm_progress in *.
    destruct Hp1 as (?&?&?&?&Ep&Eb&?&?), Hp2 as (?&?&?&?&?&?&?&?). rewrite Ep, Eb in *.
    split_and!; congruence || lia.
Qed.

(** ** trTCM *)

Record trtcm_inv (m : rte_meter_trtcm) : Prop := TrtcmInv {
  tm_time_tc : 0 <= t_time_tc m;
  tm_time_tp : 0 <= t_time_tp m;
  tm_tc : 0 <= t_tc m <= t_cbs m;
  tm_tp : 0 <= t_tp m <= t_pbs m;
  tm_periods : 0 < t_cir_period m /\ 0 < t_pir_period m;
  tm_bytes : 0 <= t_cir_bytes_per_period m /\ 0 <= t_pir_bytes_per_period m
}.

Definition trtcm_progress (m m' : rte_meter_trtcm) (kc kp green passed : Z) : Prop :=
  (0 <= kc /\ t_time_tc m' = t_time_tc m + kc * t_cir_period m) /\
  (0 <= kp /\ t_time_tp m' = t_time_tp m + kp * t_pir_period m) /\
  (t_cbs m' = t_cbs m /\ t_pbs m' = t_pbs m) /\
  (t_cir_period m' = t_cir_period m /\ t_pir_period m' = t_pir_period m) /\
  (t_cir_bytes_per_period m' = t_cir_bytes_per_period m /\
   t_pir_bytes_per_period m' = t_pir_bytes_per_period m) /\
  green + t_tc m' <= t_tc m + kc * t_cir_bytes_per_period m /\
  passed + t_tp m' <= t_tp m + kp * t_pir_bytes_per_period m.

(** Bytes of a packet that is not red. *)
Definition bytes_passed (c : rte_meter_color) (n : Z) : Z :=
  if decide (c = e_RTE_METER_RED) then 0 else n.

Lemma trtcm_step m time n c :
  trtcm_inv m -> t_time_tc m <= time -> t_time_tp m <= time -> time < 2 ^ 64 -> 0 <= n ->
  let '(m', c') := rte_meter_trtcm_color_aware_check m time n c in
  trtcm_inv m' /\ (t_time_tc m' <= time /\ t_time_tp m' <= time) /\
  exists kc kp, trtcm_progress m m' kc kp (bytes_if c' e_RTE_METER_GREEN n) (bytes_passed c' n).
Proof.
  intros [Htc0 Htp0 Htc Htp [Hpc Hpp] [Hbc Hbp]] Hc Hp Htime Hn.
  unfold rte_meter_trtcm_color_aware_check.
  destruct (clock_step (t_time_tc m) time (t_cir_period m)) as (Hkc&Hclkc&Hlec); [lia..|].
  destruct (clock_step (t_time_tp m) time (t_pir_period m)) as (Hkp&Hclkp&Hlep); [lia..|].
  rewrite Hclkc, Hclkp. set (kc := u64 (time - t_time_tc m) / _) in *.
  set (kp := u64 (time - t_time_tp m) / _) in *.
  pose proof (refill_bounds (t_tc m) kc (t_cir_bytes_per_period m) (t_cbs m)) as [Hc1 Hc2]; [nia..|].
  pose proof (refill_bounds (t_tp m) kp (t_pir_bytes_per_period m) (t_pbs m)) as [Hp1 Hp2]; [nia..|].
  set (tc := refill (t_tc m) _ _ _) in *. set (tp := refill (t_tp m) _ _ _) in *.
  assert (0 <= kc * t_cir_period m) by nia. assert (0 <= kp * t_pir_period m) by nia.
  destruct (_ || (tp <? n)) eqn:E1; [|destruct (_ || (tc <? n)) eqn:E2].
  - split; [split; cbn; lia|]. split; [cbn; lia|]. exists kc, kp. unfold bytes_passed. progress_cases.
  - apply orb_false_iff in E1 as [_ E1]. apply Z.ltb_ge in E1.
    split; [split; cbn; lia|]. split; [cbn; lia|]. exists kc, kp. unfold bytes_passed. progress_cases.
  - apply orb_false_iff in E1 as [_ E1], E2 as [_ E2]. apply Z.ltb_ge in E1, E2.
    split; [split; cbn; lia|]. split; [cbn; lia|]. exists kc, kp. unfold bytes_passed. progress_cases.
Qed.

Lemma bytes_passed_cons c n out :
  bytes_of [e_RTE_METER_GREEN; e_RTE_METER_YELLOW] ((n, c) :: out) =
  bytes_passed c n + bytes_of [e_RTE_METER_GREEN; e_RTE_METER_YELLOW] out.
Proof.
  cbn. unfold bytes_passed. case_decide as H1; destruct c; rewrite ?decide_True by done; try done;
    rewrite ?decide_False by done; set_solver.
Qed.

Lemma trtcm_run_ok m pkts last now :
  trtcm_inv m -> t_time_tc m <= now -> t_time_tp m <= now -> arrivals now last pkts ->
  let '(m', out) := meter_run rte_meter_trtcm_color_aware_check m pkts in
  trtcm_inv m' /\ (t_time_tc m' <= last /\ t_time_tp m' <= last) /\
  exists kc kp, trtcm_progress m m' kc kp (bytes_of [e_RTE_METER_GREEN] out)
    (bytes_of [e_RTE_METER_GREEN; e_RTE_METER_YELLOW] out).
Proof.
  revert m now. induction pkts as [|[[time n] c] pkts IH]; intros m now HI Hnc Hnp Harr;
    cbn [meter_run].
  - cbn in Harr. split_and!; [done|lia|lia|]. exists 0, 0. unfold trtcm_progress. cbn.
    split_and!; done || lia.
  - destruct Harr as (Hle&Hn&Harr). pose proof (arrivals_last _ _ _ Harr).
    pose proof (trtcm_step m time n c HI ltac:(lia) ltac:(lia) ltac:(lia) Hn) as Hs.
    destruct (rte_meter_trtcm_color_aware_check m time n c) as [m1 c1].
    destruct Hs as (HI1&[? ?]&kc1&kp1&Hp1).
    specialize (IH m1 time HI1 ltac:(lia) ltac:(lia) Harr). destruct (meter_run _ m1 pkts) as [m2 out].
    destruct IH as (HI2&Hle2&kc2&kp2&Hp2). split_and!; [done|apply Hle2..|].
    exists (kc1 + kc2), (kp1 + kp2).
    rewrite bytes_of_cons, bytes_passed_cons. unfold trtcm_progress in *.
    destruct Hp1 as ([? ?]&[? ?]&[? ?]&[Ep1 Ep2]&[Eb1 Eb2]&?&?), Hp2 as ([? ?]&[? ?]&[? ?]&[? ?]&[? ?]&?&?).
    rewrite Ep1, Ep2, Eb1, Eb2 in *. split_and!; congruence || lia.
Qed.

(** ** The theorems *)

(** C24: Over any sequence of packets metered by the colour-aware srTCM, with
    times that do not decrease, the green bytes are at most the committed
    bucket plus [cir_bytes_per_period] for every whole period between the
    start and the last arrival, and the yellow bytes at most the excess bucket
    plus the same; 64-bit overflow of the token sums does not break it. *)
Theorem srtcm_conformance (m : rte_meter_srtcm) (pkts : list packet) (last : Z) :
  srtcm_inv m -> arrivals (s_time m) last pkts ->
  let '(m', out) := meter_run rte_meter_srtcm_color_aware_check m pkts in
  let periods := (last - s_time m) / s_cir_period m in
  srtcm_inv m' /\
  bytes_of [e_RTE_METER_GREEN] out <= s_cbs m + periods * s_cir_bytes_per_period m /\
  bytes_of [e_RTE_METER_YELLOW] out <= s_ebs m + periods * s_cir_bytes_per_period m.
Proof.
  intros HI Harr. pose proof (srtcm_run_ok m pkts last HI Harr) as H.
  destruct (meter_run _ m pkts) as [m' out].
  destruct H as (HI'&Hle&k&Hk&Htime&_&_&_&_&Hg&Hy). destruct HI as [? ? ? Hp ?], HI'.
  assert (k <= (last - s_time m) / s_cir_period m) by (apply Z.div_le_lower_bound; lia).
  split; [done|]. split; nia.
Qed.

Definition demo_srtcm : rte_meter_srtcm := Srtcm 0 100 200 100 200 10 5.
Definition demo_packets : list packet :=
  [(3, 60, e_RTE_METER_GREEN); (12, 60, e_RTE_METER_GREEN); (25, 90, e_RTE_METER_YELLOW);
   (26, 500, e_RTE_METER_GREEN)].

Lemma srtcm_conformance_witness :
  snd (meter_run rte_meter_srtcm_color_aware_check demo_srtcm demo_packets) =
    [(60, e_RTE_METER_GREEN); (60, e_RTE_METER_YELLOW); (90, e_RTE_METER_YELLOW);
     (500, e_RTE_METER_RED)] /\
  let '(m', out) := meter_run rte_meter_srtcm_color_aware_check demo_srtcm demo_packets in
  let periods := (26 - s_time demo_srtcm) / s_cir_period demo_srtcm in
  srtcm_inv m' /\
  bytes_of [e_RTE_METER_GREEN] out <= s_cbs demo_srtcm + periods * s_cir_bytes_per_period demo_srtcm /\
  bytes_of [e_RTE_METER_YELLOW] out <= s_ebs demo_srtcm + periods * s_cir_bytes_per_period demo_srtcm.
Proof.
  split; [vm_compute; reflexivity|].
  apply (srtcm_conformance demo_srtcm demo_packets 26); [split; cbn; lia|cbn; lia].
Defined.

(** Over any sequence of packets metered by the colour-aware trTCM, the
    green bytes obey the committed rate and burst, and the green and yellow
    bytes together obey the peak rate and burst. *)
Theorem trtcm_conformance (m : rte_meter_trtcm) (pkts : list packet) (last now : Z) :
  trtcm_inv m -> t_time_tc m <= now -> t_time_tp m <= now -> arrivals now last pkts ->
  let '(m', out) := meter_run rte_meter_trtcm_color_aware_check m pkts in
  trtcm_inv m' /\
  bytes_of [e_RTE_METER_GREEN] out <=
    t_cbs m + (last - t_time_tc m) / t_cir_period m * t_cir_bytes_per_period m /\
  bytes_of [e_RTE_METER_GREEN; e_RTE_METER_YELLOW] out <=
    t_pbs m + (last - t_time_tp m) / t_pir_period m * t_pir_bytes_per_period m.
Proof.
  intros HI Hc Hp Harr. pose proof (trtcm_run_ok m pkts last now HI Hc Hp Harr) as H.
  destruct (meter_run _ m pkts) as [m' out].
  destruct H as (HI'&[Hlc Hlp]&kc&kp&[? Etc]&[? Etp]&_&_&_&Hg&Hy).
  destruct HI as [? ? ? ? [Hpc Hpp] [? ?]], HI'.
  assert (kc <= (last - t_time_tc m) / t_cir_period m) by (apply Z.div_le_lower_bound; lia).
  assert (kp <= (last - t_time_tp m) / t_pir_period m) by (apply Z.div_le_lower_bound; lia).
  split; [done|]. split; nia.
Qed.

Definition demo_trtcm : rte_meter_trtcm := Trtcm 0 0 100 200 100 200 10 5 10 9.

Lemma trtcm_conformance_witness :
  let '(m', out) := meter_run rte_meter_trtcm_color_aware_check demo_trtcm demo_packets in
  trtcm_inv m' /\
  bytes_of [e_RTE_METER_GREEN] out <=
    t_cbs demo_trtcm + (26 - t_time_tc demo_trtcm) / t_cir_period demo_trtcm *
      t_cir_bytes_per_period demo_trtcm /\
  bytes_of [e_RTE_METER_GREEN; e_RTE_METER_YELLOW] out <=
    t_pbs demo_trtcm + (26 - t_time_tp demo_trtcm) / t_pir_period demo_trtcm *
      t_pir_bytes_per_period demo_trtcm.
Proof.
  apply (trtcm_conformance demo_trtcm demo_packets 26 0);
    [split; cbn; lia|cbn; lia|cbn; lia|cbn; lia].
Defined.

(** The colour-blind checks are the colour-aware ones on green packets,
    for both meters and every state, time and length. *)
Theorem blind_is_aware_green (m : rte_meter_srtcm) (m2 : rte_meter_trtcm) (time n : Z) :
  rte_meter_srtcm_color_blind_check m time n =
    rte_meter_srtcm_color_aware_check m time n e_RTE_METER_GREEN /\
  rte_meter_trtcm_color_blind_check m2 time n =
    rte_meter_trtcm_color_aware_check m2 time n e_RTE_METER_GREEN.
Proof.
  split; reflexivity.
Qed.

Definition severity (c : rte_meter_color) : Z :=
  match c with e_RTE_METER_GREEN => 0 | e_RTE_METER_YELLOW => 1 | e_RTE_METER_RED => 2 end.

(** A colour-aware check never improves the colour a packet arrives with,
    and a packet that stays red consumes no tokens. *)
Theorem aware_never_promotes (m : rte_meter_srtcm) (m2 : rte_meter_trtcm) (time n : Z)
    (c : rte_meter_color) :
  severity c <= severity (snd (rte_meter_srtcm_color_aware_check m time n c)) /\
  severity c <= severity (snd (rte_meter_trtcm_color_aware_check m2 time n c)) /\
  (forall n', snd (rte_meter_srtcm_color_aware_check m time n e_RTE_METER_RED) = e_RTE_METER_RED /\
     fst (rte_meter_srtcm_color_aware_check m time n e_RTE_METER_RED) =
       fst (rte_meter_srtcm_color_aware_check m time n' e_RTE_METER_RED)).
Proof.
  unfold rte_meter_srtcm_color_aware_check, rte_meter_trtcm_color_aware_check.
  split_and!; [| |done]; destruct c; repeat case_match; cbn; done || lia.
Qed.

(** The srTCM refills both buckets at the committed rate, where RFC 2697,
    which the library names as its specification, adds to the excess bucket
    only what overflows the committed one: with empty buckets of 1000 bytes
    and 10 bytes per period, a 10-byte packet passes green and another one
    yellow after a single period. *)
Theorem srtcm_doubles_refill :
  let m := Srtcm 0 0 0 1000 1000 100 10 in
  let '(m1, c1) := rte_meter_srtcm_color_blind_check m 100 10 in
  let '(m2, c2) := rte_meter_srtcm_color_blind_check m1 100 10 in
  c1 = e_RTE_METER_GREEN /\ c2 = e_RTE_METER_YELLOW.
Proof. vm_compute. split; reflexivity. Qed.

(** The parameters the two configurations accept. *)
Definition srtcm_params_ok (p : rte_meter_srtcm_params) : Prop :=
  sp_cir p <> 0 /\ (sp_cbs p <> 0 \/ sp_ebs p <> 0).
Definition trtcm_params_ok (p : rte_meter_trtcm_params) : Prop :=
  tp_cir p <> 0 /\ tp_pir p <> 0 /\ tp_cir p <= tp_pir p /\ tp_cbs p <> 0 /\ tp_pbs p <> 0.

(** A period and its bytes are those derived for a rate. *)
Lemma tb_bytes_nonneg hz rate : 0 <= snd (rte_meter_get_tb_params hz rate).
Proof.
  unfold rte_meter_get_tb_params. case_match; cbn; [lia|].
  unfold ceil_of. case_match; try lia. case_match; [lia|].
  apply Z.opp_nonneg_nonpos. destruct (Z.shiftl_neg (Zneg m) e) as [_ Hneg].
  specialize (Hneg ltac:(lia)). lia.
Qed.

(** C25: Configuration.  A NULL argument gives -1, and parameters that are not
    allowed give -2, without touching the meter.  The srTCM is configured
    (result 0) exactly for a non-zero rate with at least one non-zero burst
    size, the trTCM exactly for non-zero rates and burst sizes with the
    committed rate at most the peak rate.  Then every bucket starts full, all
    times are the present time, the limits are the burst sizes, the periods are
    those [rte_meter_get_tb_params] derives from the rates, the bytes per period
    are not negative, and the invariant of the meter holds whenever the derived
    periods are not zero. *)
Theorem meter_config_correct (hz cycles : Z) (m : rte_meter_srtcm) (m2 : rte_meter_trtcm)
    (p : rte_meter_srtcm_params) (p2 : rte_meter_trtcm_params) :
  0 <= cycles -> 0 <= sp_cbs p -> 0 <= sp_ebs p -> 0 <= tp_cbs p2 -> 0 <= tp_pbs p2 ->
  (srtcm_params_ok p -> exists m', rte_meter_srtcm_config hz cycles (Some m) (Some p) = (Some m', 0) /\
     s_time m' = cycles /\ s_tc m' = sp_cbs p /\ s_te m' = sp_ebs p /\ s_cbs m' = sp_cbs p /\ s_ebs m' = sp_ebs p /\
     (s_cir_period m', s_cir_bytes_per_period m') = rte_meter_get_tb_params hz (sp_cir p) /\
     0 <= s_cir_bytes_per_period m' /\ (0 < s_cir_period m' -> srtcm_inv m')) /\
  (~ srtcm_params_ok p -> rte_meter_srtcm_config hz cycles (Some m) (Some p) = (Some m, -2)) /\
  (trtcm_params_ok p2 -> exists m', rte_meter_trtcm_config hz cycles (Some m2) (Some p2) = (Some m', 0) /\
     t_time_tc m' = cycles /\ t_time_tp m' = cycles /\ t_tc m' = tp_cbs p2 /\ t_tp m' = tp_pbs p2 /\
     t_cbs m' = tp_cbs p2 /\ t_pbs m' = tp_pbs p2 /\
     (t_cir_period m', t_cir_bytes_per_period m') = rte_meter_get_tb_params hz (tp_cir p2) /\
     (t_pir_period m', t_pir_bytes_per_period m') = rte_meter_get_tb_params hz (tp_pir p2) /\
     0 <= t_cir_bytes_per_period m' /\ 0 <= t_pir_bytes_per_period m' /\
     (0 < t_cir_period m' -> 0 < t_pir_period m' -> trtcm_inv m')) /\
  (~ trtcm_params_ok p2 -> rte_meter_trtcm_config hz cycles (Some m2) (Some p2) = (Some m2, -2)) /\
  (forall o, rte_meter_srtcm_config hz cycles None o = (None, -1)) /\
  rte_meter_srtcm_config hz cycles (Some m) None = (Some m, -1) /\
  (forall o, rte_meter_trtcm_config hz cycles None o = (None, -1)) /\
  rte_meter_trtcm_config hz cycles (Some m2) None = (Some m2, -1).
Proof.
  intros Hcyc Hcbs Hebs Hc2 Hp2. unfold srtcm_params_ok, trtcm_params_ok, rte_meter_srtcm_config, rte_meter_trtcm_config.
  pose proof (tb_bytes_nonneg hz (sp_cir p)). pose proof (tb_bytes_nonneg hz (tp_cir p2)).
  pose proof (tb_bytes_nonneg hz (tp_pir p2)).
  destruct (rte_meter_get_tb_params hz (sp_cir p)) as [period bytes].
  destruct (rte_meter_get_tb_params hz (tp_cir p2)) as [cp cb].
  destruct (rte_meter_get_tb_params hz (tp_pir p2)) as [pp pb]. cbn [snd] in *.
  split; [|split; [|split; [|split; [|done]]]].
  - intros Hok. destruct (_ || _) eqn:E; [lia|]. eexists. split_and!; done || (intros; split; cbn in *; lia).
  - intros Hno. destruct (_ || _) eqn:E; [done|lia].
  - intros Hok. destruct (_ || _) eqn:E; [lia|]. eexists. split_and!; done || (intros; split; cbn in *; lia).
  - intros Hno. destruct (_ || _) eqn:E; [done|lia].
Qed.

Lemma meter_config_correct_witness :
  rte_meter_srtcm_config 2000000000 7 (Some demo_srtcm) (Some (SrtcmParams 1000000 64 64)) =
    (Some (Srtcm 7 64 64 64 64 2000 1), 0) /\
  rte_meter_trtcm_config 2000000000 7 (Some demo_trtcm) (Some (TrtcmParams 2 1 3 4)) = (Some demo_trtcm, -2).
Proof.
  destruct (meter_config_correct 2000000000 7 demo_srtcm demo_trtcm (SrtcmParams 1000000 64 64)
    (TrtcmParams 2 1 3 4)) as (Hs&_&_&Ht&_); [cbn; lia..|].
  split; [|apply Ht; intros (_&_&H&_); cbn in H; lia].
  destruct Hs as ([tm tc te cbs ebs pd by']&E&H1&H2&H3&H4&H5&H6&_); [split; [|left]; discriminate|].
  cbn in H1, H2, H3, H4, H5. subst. vm_compute in H6. injection H6 as -> ->. exact E.
Defined.
