(* ===== verification/Approx.v ===== *)
(** * Rational approximation

    Model of [librte_sched/rte_approx.c]: the fraction of smallest denominator
    within a given distance of a number, by steps in the tree of fractions.
    All integers are [uint32_t]; a division by zero is a trap.  The arguments
    of [rte_approx] are binary64 values.

    The two halves of the loop differ only in the side of the target they
    approach, so the proofs are about one half with a sign. *)

From Stdlib Require Import SpecFloat.
From S2P Require Import Prelude Meter.

(** ** Operations *)

(** Compares [a/b] and [c/d]. *)
Definition less (a b c d : Z) : bool := u32 (a * d) <? u32 (b * c).
Definition less_or_equal (a b c d : Z) : bool := u32 (a * d) <=? u32 (b * c).

(** Is [a/b] a valid approximation? *)
Definition matches (a b alpha_num d_num denum : Z) : bool :=
  if less_or_equal a b (u32 (alpha_num - d_num)) denum then false
  else less a b (u32 (alpha_num + d_num)) denum.

Definition find_exact_solution_left (p_a q_a p_b q_b alpha_num d_num denum : Z) : option (Z * Z) :=
  let k_num := u32 (denum * p_b - (alpha_num + d_num) * q_b) in
  let k_denum := u32 ((alpha_num + d_num) * q_a - denum * p_a) in
  if k_denum =? 0 then None
  else
    let k := u32 (k_num / k_denum + 1) in
    Some (u32 (p_b + k * p_a), u32 (q_b + k * q_a)).

Definition find_exact_solution_right (p_a q_a p_b q_b alpha_num d_num denum : Z) : option (Z * Z) :=
  let k_num := u32 (- denum * p_b + (alpha_num - d_num) * q_b) in
  let k_denum := u32 (- (alpha_num - d_num) * q_a + denum * p_a) in
  if k_denum =? 0 then None
  else
    let k := u32 (k_num / k_denum + 1) in
    Some (u32 (p_b + k * p_a), u32 (q_b + k * q_a)).

(** The interval of the search. *)
Record interval := Interval { p_a : Z; q_a : Z; p_b : Z; q_b : Z }.

(** What half an iteration does: it divides by zero, it finds the result, or it
    goes on with a new interval. *)
Inductive half_result := DivZero | Found (p q : Z) | Next (s : interval).

Section iteration.
Context (alpha_num d_num denum : Z).

(** The number of steps [x] is known: test two candidates, then go on. *)
Definition half_step (exact : Z -> Z -> Z -> Z -> Z -> Z -> Z -> option (Z * Z)) (s : interval)
    (x_num x_denum : Z) : half_result :=
  if x_denum =? 0 then DivZero
  else
    let x := u32 (x_num + x_denum - 1) / x_denum in
    let px := u32 (p_b s + x * p_a s) in
    let qx := u32 (q_b s + x * q_a s) in
    let py := u32 (p_b s + (x - 1) * p_a s) in
    let qy := u32 (q_b s + (x - 1) * q_a s) in
    let aa := matches px qx alpha_num d_num denum in
    let bb := matches py qy alpha_num d_num denum in
    if aa || bb then
      match exact (p_a s) (q_a s) (p_b s) (q_b s) alpha_num d_num denum with
      | Some (p, q) => Found p q
      | None => DivZero
      end
    else Next (Interval py qy px qx).

Definition left_step (s : interval) : half_result :=
  half_step find_exact_solution_left s
    (u32 (denum * p_b s - alpha_num * q_b s)) (u32 (- denum * p_a s + alpha_num * q_a s)).
Definition right_step (s : interval) : half_result :=
  half_step find_exact_solution_right s
    (u32 (alpha_num * q_b s - denum * p_b s)) (u32 (- alpha_num * q_a s + denum * p_a s)).

(** [while (1)]; [None] is running out of fuel. *)
Fixpoint approx_loop (fuel : nat) (s : interval) : option half_result :=
  match fuel with
  | O => None
  | S fuel' =>
      match left_step s with
      | Next s1 =>
          match right_step s1 with
          | Next s2 => approx_loop fuel' s2
          | r => Some r
          end
      | r => Some r
      end
  end.

End iteration.

(** The return value, with [*p] and [*q]. *)
Inductive approx_result := Trap | Ret (ret : Z) (pq : option (Z * Z)).

Definition find_best_rational_approximation (fuel : nat) (alpha_num d_num denum : Z) : option approx_result :=
  if negb ((0 <? d_num) && (d_num <? alpha_num) && (alpha_num <? denum) && (u32 (d_num + alpha_num) <? denum))
  then Some (Ret (-1) None)
  else
    r ← approx_loop alpha_num d_num denum fuel (Interval 0 1 1 1);
    match r with
    | Found p q => Some (Ret 0 (Some (p, q)))
    | DivZero => Some Trap
    | Next _ => None
    end.

(** [while (d < 1)]: the scaled [alpha] and [d] and the denominator. *)
Definition dmul (x y : spec_float) : spec_float := SFmul 53 1024 x y.

Fixpoint scale_loop (fuel : nat) (alpha d : spec_float) (denum : Z) : option (spec_float * spec_float * Z) :=
  if SFltb d (double_of 1) then
    match fuel with
    | O => None
    | S fuel' => scale_loop fuel' (dmul alpha (double_of 10)) (dmul d (double_of 10)) (u32 (denum * 10))
    end
  else Some (alpha, d, denum).

(** [ptrs] tells that [p] and [q] are not NULL. *)
Definition rte_approx (scale_fuel fuel : nat) (alpha d : spec_float) (ptrs : bool) : option approx_result :=
  if negb (SFltb (double_of 0) d && SFltb d alpha && SFltb alpha (double_of 1)) then Some (Ret (-1) None)
  else if negb ptrs then Some (Ret (-2) None)
  else
    '(alpha, d, denum) ← scale_loop scale_fuel alpha d 1;
    find_best_rational_approximation fuel (u32 (trunc_of alpha)) (u32 (trunc_of d)) denum.

(** ** One half of an iteration, without wrap-around

    The interval is between [p_a/q_a] and [p_b/q_b]; [sg] is 1 when [p_b/q_b]
    is the right end and -1 when it is the left one. *)

Section search.
Context (A D N : Z).
Hypothesis (HD : 0 < D).
Hypothesis (HDA : D < A).
Hypothesis (HAN : A + D < N).

(** The distance of [p/q] from [A/N], times [N * q], towards the side [sg]. *)
Definition err (sg p q : Z) : Z := sg * (N * p - A * q).

Definition close (p q : Z) : Prop := Z.abs (N * p - A * q) < D * q.

Record bracket (sg : Z) (s : interval) : Prop := {
  br_sg : sg = 1 \/ sg = -1;
  br_a : 0 <= p_a s <= q_a s /\ 0 < q_a s;
  br_b : 0 <= p_b s <= q_b s /\ 0 < q_b s;
  br_det : sg * (p_b s * q_a s - p_a s * q_b s) = 1;
  br_far_a : D * q_a s <= - err sg (p_a s) (q_a s);
  br_far_b : D * q_b s <= err sg (p_b s) (q_b s)
}.

(** The denominator of the target bounds those of the interval, because the
    target is inside. *)
Lemma adjacent_bound sg pa qa pb qb :
  sg * (pb * qa - pa * qb) = 1 -> 0 < qa -> 0 < qb -> 0 < - err sg pa qa -> 0 < err sg pb qb ->
  N = qa * err sg pb qb + qb * - err sg pa qa /\ qa + qb <= N.
Proof.
  intros Hd Ha Hb Ea Eb. assert (E : N = qa * err sg pb qb + qb * - err sg pa qa).
  { unfold err. transitivity (N * (sg * (pb * qa - pa * qb))); [rewrite Hd|]; ring. }
  split; [done|]. rewrite E. nia.
Qed.

(** A fraction between two neighbours has at least the sum of their
    denominators. *)
Lemma between_neighbours sg pa qa pb qb p q :
  sg * (pb * qa - pa * qb) = 1 -> 0 < qa -> 0 < qb -> 0 < q ->
  D * qa <= - err sg pa qa -> D * qb <= err sg pb qb -> Z.abs (err sg p q) < D * q -> qa + qb <= q.
Proof.
  intros Hd Ha Hb Hq Ea Eb Ep.
  assert (E : q = qa * (sg * (pb * q - p * qb)) + qb * (sg * (p * qa - pa * q))).
  { transitivity (q * (sg * (pb * qa - pa * qb))); [rewrite Hd|]; ring. }
  assert (E1 : N * (sg * (pb * q - p * qb)) = err sg pb qb * q - err sg p q * qb) by (unfold err; ring).
  assert (E2 : N * (sg * (p * qa - pa * q)) = err sg p q * qa - err sg pa qa * q) by (unfold err; ring).
  assert (0 < N * (sg * (pb * q - p * qb))) by (rewrite E1; nia).
  assert (0 < N * (sg * (p * qa - pa * q))) by (rewrite E2; nia).
  assert (0 < sg * (pb * q - p * qb)) by nia. assert (0 < sg * (p * qa - pa * q)) by nia. nia.
Qed.

(** The fraction [k] steps from [b] towards [a]. *)
Definition step_p (s : interval) (k : Z) : Z := p_b s + k * p_a s.
Definition step_q (s : interval) (k : Z) : Z := q_b s + k * q_a s.

Lemma err_step sg s k : err sg (step_p s k) (step_q s k) = err sg (p_b s) (q_b s) - k * - err sg (p_a s) (q_a s).
Proof. unfold err, step_p, step_q. ring. Qed.

Lemma close_err sg p q : sg = 1 \/ sg = -1 -> close p q <-> Z.abs (err sg p q) < D * q.
Proof. intros [-> | ->]; unfold close, err; [by rewrite Z.mul_1_l|]. replace (-1 * (N * p - A * q)) with (- (N * p - A * q)) by lia. by rewrite Z.abs_opp. Qed.

(** The number of steps that reaches or passes the target. *)
Definition steps sg s : Z :=
  (err sg (p_b s) (q_b s) + - err sg (p_a s) (q_a s) - 1) / - err sg (p_a s) (q_a s).

Lemma steps_spec sg s (x := steps sg s) :
  bracket sg s -> 1 <= x /\ err sg (step_p s x) (step_q s x) <= 0 /\ 0 < err sg (step_p s (x - 1)) (step_q s (x - 1)).
Proof.
  intros [_ [_ Ha] [_ Hb] _ Fa Fb]. rewrite !err_step. unfold x, steps.
  set (e := - err sg (p_a s) (q_a s)) in *. set (f := err sg (p_b s) (q_b s)) in *.
  assert (0 < e) by nia. assert (0 < f) by nia.
  pose proof (Z.div_mod (f + e - 1) e ltac:(lia)). pose proof (Z.mod_pos_bound (f + e - 1) e ltac:(lia)).
  set (z := (f + e - 1) / e) in *. nia.
Qed.

(** The candidates of an iteration have denominators of at most [N]. *)
Lemma step_range sg s k :
  bracket sg s -> 0 <= k <= steps sg s ->
  0 <= step_p s k <= step_q s k /\ 0 < step_q s k <= N.
Proof.
  intros HB Hk. destruct (steps_spec sg s HB) as (Hx&_&Ey). pose proof HB as [_ [Ha Ha'] [Hb Hb'] Hd Fa Fb].
  unfold step_p, step_q. split; [nia|]. split; [nia|].
  set (x := steps sg s) in *.
  destruct (adjacent_bound sg (p_a s) (q_a s) (step_p s (x - 1)) (step_q s (x - 1))) as [_ Hn].
  - unfold step_p, step_q. etrans; [|exact Hd]. ring.
  - done.
  - unfold step_q. nia.
  - nia.
  - done.
  - unfold step_q in Hn. nia.
Qed.

(** The interval of the next half. *)
Definition next_interval sg s : interval :=
  let x := steps sg s in Interval (step_p s (x - 1)) (step_q s (x - 1)) (step_p s x) (step_q s x).

Lemma next_bracket sg s (x := steps sg s) :
  bracket sg s -> ~ close (step_p s x) (step_q s x) -> ~ close (step_p s (x - 1)) (step_q s (x - 1)) ->
  bracket (- sg) (next_interval sg s).
Proof.
  intros HB Hx Hy. destruct (steps_spec sg s HB) as (H1&Ex&Ey). fold x in H1, Ex, Ey.
  rewrite (close_err sg) in Hx by apply HB. rewrite (close_err sg) in Hy by apply HB.
  destruct (step_range sg s x HB) as [? ?]; [lia|]. destruct (step_range sg s (x - 1) HB) as [? ?]; [lia|].
  pose proof (br_det _ _ HB) as Hd.
  split; cbn; fold x.
  - destruct (br_sg _ _ HB); lia.
  - lia.
  - lia.
  - unfold step_p, step_q. etrans; [|exact Hd]. ring.
  - unfold err in *. lia.
  - unfold err in *. lia.
Qed.

(** The first step below the upper end of the tolerance. *)
Definition exact_k sg s : Z :=
  (err sg (p_b s) (q_b s) - D * q_b s) / (- err sg (p_a s) (q_a s) + D * q_a s) + 1.

(** When one of the two candidates is close, the first close step is the close
    fraction of smallest denominator. *)
Lemma exact_ok sg s (x := steps sg s) (k := exact_k sg s) :
  bracket sg s -> close (step_p s x) (step_q s x) \/ close (step_p s (x - 1)) (step_q s (x - 1)) ->
  1 <= k <= x /\ close (step_p s k) (step_q s k) /\
  forall p q, 0 < q -> close p q -> step_q s k <= q.
Proof.
  intros HB Hc. destruct (steps_spec sg s HB) as (H1&Ex&Ey). fold x in H1, Ex, Ey. pose proof (br_sg _ _ HB) as Hsg.
  rewrite !(close_err sg) in Hc by done. rewrite (close_err sg) by done.
  pose proof HB as [_ [Ha Ha'] [Hb Hb'] Hd Fa Fb]. rewrite !err_step in *.
  set (e := - err sg (p_a s) (q_a s)) in *. set (f := err sg (p_b s) (q_b s)) in *.
  assert (Hden : 0 < e + D * q_a s) by nia. assert (Hnum : 0 <= f - D * q_b s) by lia.
  pose proof (Z.div_mod (f - D * q_b s) (e + D * q_a s) ltac:(lia)) as Hdm.
  pose proof (Z.mod_pos_bound (f - D * q_b s) (e + D * q_a s) ltac:(lia)) as Hmb.
  pose proof (Z.div_pos _ _ Hnum Hden) as Hk0.
  change k with ((f - D * q_b s) / (e + D * q_a s) + 1). set (z := (f - D * q_b s) / (e + D * q_a s)) in *.
  (* the step before the result is too far, the result is near enough *)
  assert (Hfar : D * step_q s z <= f - z * e) by (unfold step_q; nia).
  assert (Hnear : f - (z + 1) * e < D * step_q s (z + 1)) by (unfold step_q; nia).
  assert (Hkx : z + 1 <= x).
  { destruct (decide (z + 1 <= x)); [done|]. destruct Hc as [Hc|Hc]; unfold step_q in *; nia. }
  assert (He : 0 < e) by nia.
  assert (Hlow : - (D * step_q s (z + 1)) < f - (z + 1) * e).
  { destruct (decide (z + 1 = x)) as [E|].
    - rewrite E in *. destruct Hc as [Hc|Hc]; [lia|]. exfalso. unfold step_q in *. replace z with (x - 1) in Hfar by lia. lia.
    - assert (0 < D * step_q s (z + 1)) by (unfold step_q; nia). nia. }
  split; [lia|]. split; [lia|]. intros p q Hq Hpq. rewrite (close_err sg) in Hpq by done.
  replace (step_q s (z + 1)) with (q_a s + step_q s z) by (unfold step_q; ring).
  apply (between_neighbours sg (p_a s) (q_a s) (step_p s z) (step_q s z) p q); try done.
  - unfold step_p, step_q. etrans; [|exact Hd]. ring.
  - unfold step_q. nia.
  - rewrite err_step. fold e f. done.
Qed.

(** ** The code computes these values *)

Hypothesis (HN : N < 2 ^ 16).

Lemma mul_small a b : 0 <= a <= N -> 0 <= b <= N -> 0 <= a * b < 2 ^ 32.
Proof. intros Ha Hb. assert (a * b <= N * N) by nia. nia. Qed.

#[local] Instance close_dec p q : Decision (close p q).
Proof. unfold close. apply _. Defined.

Lemma matches_ok p q : 0 <= p <= q -> 0 < q <= N -> matches p q A D N = bool_decide (close p q).
Proof.
  intros Hp Hq. unfold matches, less_or_equal, less. rewrite !(u32_small (A - D)), !(u32_small (A + D)) by lia.
  pose proof (mul_small p N ltac:(lia) ltac:(lia)). pose proof (mul_small q (A - D) ltac:(lia) ltac:(lia)).
  pose proof (mul_small q (A + D) ltac:(lia) ltac:(lia)). rewrite !u32_small by lia.
  case_bool_decide as Hc; unfold close in Hc.
  - destruct (Z.leb_spec (p * N) (q * (A - D))); [lia|]. apply Z.ltb_lt. lia.
  - destruct (Z.leb_spec (p * N) (q * (A - D))); [done|]. apply Z.ltb_ge. lia.
Qed.

Lemma bracket_small sg s :
  bracket sg s ->
  0 < err sg (p_b s) (q_b s) /\ 0 < - err sg (p_a s) (q_a s) /\
  err sg (p_b s) (q_b s) + - err sg (p_a s) (q_a s) <= N /\ q_a s + q_b s <= N.
Proof.
  intros [_ [_ Ha] [_ Hb] Hd Fa Fb]. assert (0 < - err sg (p_a s) (q_a s)) by nia. assert (0 < err sg (p_b s) (q_b s)) by nia.
  destruct (adjacent_bound sg (p_a s) (q_a s) (p_b s) (q_b s)) as [E Hs]; try done.
  set (e := - err sg (p_a s) (q_a s)) in *. set (f := err sg (p_b s) (q_b s)) in *. split_and!; nia.
Qed.

(** An exact solver of the side [sg]. *)
Definition solves (exact : Z -> Z -> Z -> Z -> Z -> Z -> Z -> option (Z * Z)) (sg : Z) : Prop :=
  forall s, bracket sg s -> exact_k sg s <= steps sg s ->
    exact (p_a s) (q_a s) (p_b s) (q_b s) A D N = Some (step_p s (exact_k sg s), step_q s (exact_k sg s)).

Lemma solve_with sg s k_num k_denum :
  bracket sg s -> exact_k sg s <= steps sg s ->
  k_num = err sg (p_b s) (q_b s) - D * q_b s -> k_denum = - err sg (p_a s) (q_a s) + D * q_a s ->
  0 <= k_num < 2 ^ 32 -> k_denum < 2 ^ 32 ->
  (if u32 k_denum =? 0 then None
   else let k := u32 (u32 k_num / u32 k_denum + 1) in Some (u32 (p_b s + k * p_a s), u32 (q_b s + k * q_a s)))
  = Some (step_p s (exact_k sg s), step_q s (exact_k sg s)).
Proof.
  intros HB Hk En Ed Hn Hd. destruct (bracket_small sg s HB) as (Hb&Ha&_&_). pose proof HB as [_ [Ha1 Ha2] _ _ _ _].
  assert (Hdp : 0 < k_denum) by nia. rewrite (u32_small k_denum), (u32_small k_num) by lia.
  rewrite (proj2 (Z.eqb_neq k_denum 0)) by lia. cbv zeta.
  assert (Ek : k_num / k_denum + 1 = exact_k sg s) by (by rewrite En, Ed). rewrite Ek.
  assert (Hk1 : 1 <= exact_k sg s) by (rewrite <- Ek; pose proof (Z.div_pos k_num k_denum); lia).
  destruct (step_range sg s (exact_k sg s) HB ltac:(lia)) as [Hr1 Hr2].
  assert (exact_k sg s < 2 ^ 32) by (unfold step_q in Hr2; pose proof HB as [_ _ [_ ?] _ _ _]; nia).
  rewrite (u32_small (exact_k sg s)) by lia. unfold step_p, step_q in *. rewrite !u32_small by lia. done.
Qed.

Lemma solves_left : solves find_exact_solution_left 1.
Proof.
  intros s HB Hk. pose proof HB as [_ Ha Hb _ Fa Fb]. destruct (bracket_small 1 s HB) as (?&?&_&Hq).
  unfold err in *. pose proof (mul_small N (p_b s) ltac:(lia) ltac:(lia)). pose proof (mul_small (A + D) (q_a s) ltac:(lia) ltac:(lia)).
  pose proof (mul_small (A + D) (q_b s) ltac:(lia) ltac:(lia)). pose proof (mul_small N (p_a s) ltac:(lia) ltac:(lia)).
  apply (solve_with 1 s); try done; unfold err; lia.
Qed.

Lemma solves_right : solves find_exact_solution_right (-1).
Proof.
  intros s HB Hk. pose proof HB as [_ Ha Hb _ Fa Fb]. destruct (bracket_small (-1) s HB) as (?&?&_&Hq).
  unfold err in *. pose proof (mul_small N (p_b s) ltac:(lia) ltac:(lia)). pose proof (mul_small (A - D) (q_a s) ltac:(lia) ltac:(lia)).
  pose proof (mul_small (A - D) (q_b s) ltac:(lia) ltac:(lia)). pose proof (mul_small N (p_a s) ltac:(lia) ltac:(lia)).
  apply (solve_with (-1) s); try done; unfold err; lia.
Qed.

(** What half an iteration promises. *)
Definition half_post (sg : Z) (s : interval) (r : half_result) : Prop :=
  match r with
  | DivZero => False
  | Found p q => 0 <= p <= q /\ 0 < q <= N /\ close p q /\ forall p' q', 0 < q' -> close p' q' -> q <= q'
  | Next s' => bracket (- sg) s' /\ q_a s + q_b s < q_a s' + q_b s'
  end.

Lemma half_ok exact sg s x_num x_denum :
  bracket sg s -> solves exact sg -> x_num = err sg (p_b s) (q_b s) -> x_denum = - err sg (p_a s) (q_a s) ->
  half_post sg s (half_step A D N exact s (u32 x_num) (u32 x_denum)).
Proof.
  intros HB Hex En Ed. destruct (bracket_small sg s HB) as (Hb&Ha&Hs&Hq). rewrite <- En, <- Ed in *.
  unfold half_step. rewrite !(u32_small x_num), !(u32_small x_denum), (u32_small (x_num + x_denum - 1)) by lia.
  rewrite (proj2 (Z.eqb_neq x_denum 0)) by lia. cbv zeta.
  assert (Ex : (x_num + x_denum - 1) / x_denum = steps sg s) by (by rewrite En, Ed). rewrite Ex.
  destruct (steps_spec sg s HB) as (H1&_&_). set (x := steps sg s) in *.
  destruct (step_range sg s x HB) as [Rx1 Rx2]; [fold x; lia|].
  destruct (step_range sg s (x - 1) HB) as [Ry1 Ry2]; [fold x; lia|].
  change (p_b s + x * p_a s) with (step_p s x). change (q_b s + x * q_a s) with (step_q s x).
  change (p_b s + (x - 1) * p_a s) with (step_p s (x - 1)). change (q_b s + (x - 1) * q_a s) with (step_q s (x - 1)).
  rewrite !u32_small by lia. rewrite !matches_ok by done.
  destruct (bool_decide (close (step_p s x) (step_q s x)) || _) eqn:Ec.
  - apply orb_true_iff in Ec. rewrite !bool_decide_eq_true in Ec.
    destruct (exact_ok sg s HB Ec) as (Hk&Hc&Hmin). rewrite Hex by (done || apply Hk). cbn.
    destruct (step_range sg s (exact_k sg s) HB) as [? ?]; [lia|]. done.
  - apply orb_false_iff in Ec. rewrite !bool_decide_eq_false in Ec. destruct Ec as [Cx Cy]. cbn.
    split; [by apply (next_bracket sg s)|]. pose proof HB as [_ [_ Qa] [_ Qb] _ _ _]. unfold step_q. nia.
Qed.

Lemma left_ok s : bracket 1 s -> half_post 1 s (left_step A D N s).
Proof. intros HB. apply half_ok; [done|apply solves_left|unfold err; ring|unfold err; ring]. Qed.

Lemma right_ok s : bracket (-1) s -> half_post (-1) s (right_step A D N s).
Proof. intros HB. apply half_ok; [done|apply solves_right|unfold err; ring|unfold err; ring]. Qed.

Lemma start_bracket : bracket 1 (Interval 0 1 1 1).
Proof. split; cbn; unfold err; lia. Qed.

(** The sum of the denominators grows and is at most [N]. *)
Lemma loop_ok fuel s :
  bracket 1 s -> N - (q_a s + q_b s) < Z.of_nat fuel ->
  exists p q, approx_loop A D N fuel s = Some (Found p q) /\
    0 <= p <= q /\ 0 < q <= N /\ close p q /\ forall p' q', 0 < q' -> close p' q' -> q <= q'.
Proof.
  revert s. induction fuel as [|fuel IH]; intros s HB Hf.
  { destruct (bracket_small 1 s HB) as (_&_&_&?). lia. }
  cbn [approx_loop]. pose proof (left_ok s HB) as Hl.
  destruct (left_step A D N s) as [|p q|s1]; [done|by exists p, q|]. destruct Hl as [HB1 Hq1].
  pose proof (right_ok s1 HB1) as Hr.
  destruct (right_step A D N s1) as [|p q|s2]; [done|by exists p, q|]. destruct Hr as [HB2 Hq2].
  apply IH; [done|lia].
Qed.

End search.

(** ** Theorems *)

(** C35: For a denominator below [2^16] the search ends, after at most [denum]
    rounds and without an overflow or a division by zero, with a fraction that
    differs from [alpha_num/denum] by less than [d_num/denum]; no fraction with
    a smaller denominator does.  Arguments outside [0 < d < alpha < 1 - d] are
    refused. *)
Theorem approx_is_best alpha_num d_num denum :
  0 <= alpha_num < 2 ^ 16 -> 0 <= d_num < 2 ^ 16 -> 0 <= denum < 2 ^ 16 ->
  exists r, find_best_rational_approximation (Z.to_nat denum) alpha_num d_num denum = Some r /\
    match r with
    | Ret 0 (Some (p, q)) =>
        0 <= p <= q /\ 0 < q <= denum /\ Z.abs (denum * p - alpha_num * q) < d_num * q /\
        forall p' q', 0 < q' -> Z.abs (denum * p' - alpha_num * q') < d_num * q' -> q <= q'
    | Ret (-1) None => ~ (0 < d_num < alpha_num /\ alpha_num + d_num < denum)
    | _ => False
    end.
Proof.
  intros HA HD HN. unfold find_best_rational_approximation. rewrite u32_small by lia.
  destruct (negb _) eqn:E.
  - eexists. split; [done|]. cbn. intros [H1 H2]. apply negb_true_iff in E.
    rewrite !andb_false_iff, !Z.ltb_ge in E. lia.
  - apply negb_false_iff in E. rewrite !andb_true_iff, !Z.ltb_lt in E.
    destruct (loop_ok alpha_num d_num denum ltac:(lia) ltac:(lia) ltac:(lia) ltac:(lia) (Z.to_nat denum) (Interval 0 1 1 1))
      as (p&q&El&Hpq); [by apply start_bracket; lia|cbn; lia|].
    rewrite El. eexists. split; [done|]. cbn. exact Hpq.
Qed.

Lemma approx_is_best_witness :
  exists r, find_best_rational_approximation (Z.to_nat 1000) 333 1 1000 = Some r /\ r = Ret 0 (Some (1, 3)).
Proof.
  destruct (approx_is_best 333 1 1000) as (r&E&_); [lia|lia|lia|]. exists r. split; [exact E|].
  vm_compute in E. congruence.
Defined.

(** [rte_approx] checks its arguments, pointers last. *)
Example rte_approx_third :
  rte_approx 400 2000 (ddiv (double_of 1) (double_of 3)) (ddiv (double_of 1) (double_of 1000)) true =
  Some (Ret 0 (Some (1, 3))).
Proof. vm_compute. reflexivity. Qed.
