(* ===== verification/Reciprocal.v ===== *)
(** * Division by a precomputed reciprocal

    Model of [librte_sched/rte_reciprocal.c] and [rte_reciprocal.h], which the
    scheduler uses to divide by the cycles per byte of a port. *)

From S2P Require Import Prelude.

Record rte_reciprocal := Reciprocal { m : Z; sh1 : Z; sh2 : Z }.

(** [for (b = 31; b >= 0; --b) if (x & (1u << b)) return b + 1]. *)
Fixpoint fls_from (n : nat) (x : Z) : Z :=
  match n with
  | O => 0
  | S b => if negb (Z.land x (Z.shiftl 1 (Z.of_nat b)) =? 0) then Z.of_nat b + 1 else fls_from b x
  end.

Definition fls (x : Z) : Z := fls_from 32 x.

(** [None] is the division by zero. *)
Definition rte_reciprocal_value (d : Z) : option rte_reciprocal :=
  let l := fls (u32 (d - 1)) in
  let m := u64 (2 ^ 32 * u64 (Z.shiftl 1 l - d)) in
  if d =? 0 then None
  else
    let m := u64 (m / d + 1) in
    Some (Reciprocal (u32 m) (u8 (Z.min l 1)) (u8 (Z.max (l - 1) 0))).

Definition rte_reciprocal_divide (a : Z) (R : rte_reciprocal) : Z :=
  let t := u32 (Z.shiftr (u64 (a * m R)) 32) in
  Z.shiftr (u32 (t + Z.shiftr (u32 (a - t)) (sh1 R))) (sh2 R).

(** ** The number of bits *)

Lemma land_shift_zero x b : 0 <= b -> Z.land x (Z.shiftl 1 b) = 0 <-> Z.testbit x b = false.
Proof.
  intros Hb. rewrite Z.shiftl_1_l. split.
  - intros E. apply (f_equal (fun z => Z.testbit z b)) in E.
    rewrite Z.land_spec, Z.pow2_bits_true, Z.bits_0, andb_true_r in E by done. exact E.
  - intros E. apply Z.bits_inj'. intros i Hi. rewrite Z.land_spec, Z.pow2_bits_eqb, Z.bits_0 by done.
    destruct (Z.eqb_spec b i) as [<-|]; [by rewrite E|apply andb_false_r].
Qed.

Lemma fls_from_spec n x :
  0 <= x < 2 ^ Z.of_nat n -> 0 <= fls_from n x <= Z.of_nat n /\ x < 2 ^ fls_from n x /\ (0 < x -> 2 ^ (fls_from n x - 1) <= x).
Proof.
  intros Hx. induction n as [|n IH]; [change (2 ^ Z.of_nat 0) with 1 in Hx; cbn; lia|]. cbn [fls_from].
  destruct (Z.eqb_spec (Z.land x (Z.shiftl 1 (Z.of_nat n))) 0) as [E|E]; cbn [negb].
  - apply land_shift_zero in E; [|lia]. assert (Hlt : x < 2 ^ Z.of_nat n).
    { destruct (decide (x < 2 ^ Z.of_nat n)) as [|Hge]; [done|]. exfalso.
      assert (El : Z.log2 x = Z.of_nat n).
      { apply Z.log2_unique; [lia|]. replace (Z.succ (Z.of_nat n)) with (Z.of_nat (S n)) by lia. lia. }
      assert (Ht : Z.testbit x (Z.of_nat n) = true) by (rewrite <- El; apply Z.bit_log2; lia). congruence. }
    destruct IH as (?&?&?); [lia|]. split_and!; lia || done.
  - replace (Z.of_nat n + 1 - 1) with (Z.of_nat n) by lia. replace (Z.of_nat (S n)) with (Z.of_nat n + 1) in * by lia.
    split; [lia|]. split; [lia|]. intros _. destruct (decide (2 ^ Z.of_nat n <= x)); [done|]. destruct E. apply land_shift_zero; [lia|].
    destruct (decide (x = 0)) as [->|]; [apply Z.bits_0|]. apply Z.bits_above_log2; [lia|]. apply Z.log2_lt_pow2; lia.
Qed.

(** ** The multiplier *)

(** With [2^k <= M * d <= 2^k + 2^l] and [a] below [2^(k-l)], multiplying by
    [M] and shifting divides by [d]. *)
Lemma mul_shift_div a d M k l :
  0 < d -> 0 <= l <= k -> 2 ^ k <= M * d <= 2 ^ k + 2 ^ l -> 0 <= a < 2 ^ (k - l) -> a * M / 2 ^ k = a / d.
Proof.
  intros Hd Hl HM Ha. assert (E : 2 ^ k = 2 ^ (k - l) * 2 ^ l) by (rewrite <- Z.pow_add_r by lia; f_equal; lia).
  pose proof (Z.div_mod a d ltac:(lia)). pose proof (Z.mod_pos_bound a d ltac:(lia)).
  set (q := a / d) in *. set (r := a mod d) in *. set (e := M * d - 2 ^ k) in *.
  assert (He : 0 <= e <= 2 ^ l) by lia. assert (Hae : a * e < 2 ^ k) by nia.
  (* the remainder times [d] *)
  assert (Hd2 : d * (a * M - 2 ^ k * q) = 2 ^ k * r + a * e) by (unfold e; nia).
  symmetry. apply (Z.div_unique_pos _ _ _ (a * M - 2 ^ k * q)); [|lia]. nia.
Qed.

(** The wrap-arounds of the multiplication do not happen. *)
Lemma reciprocal_spec d :
  1 < d < 2 ^ 32 -> exists l M, 1 <= l <= 32 /\ rte_reciprocal_value d = Some (Reciprocal (M - 2 ^ 32) 1 (l - 1)) /\
    2 ^ 32 <= M < 2 ^ 33 /\ 2 ^ (32 + l) <= M * d <= 2 ^ (32 + l) + 2 ^ l.
Proof.
  intros Hd. unfold rte_reciprocal_value. rewrite (u32_small (d - 1)) by lia.
  destruct (fls_from_spec 32 (d - 1)) as (Hl&Hub&Hlb); [lia|]. change (Z.of_nat 32) with 32 in *. fold (fls (d - 1)) in *.
  specialize (Hlb ltac:(lia)). set (l := fls (d - 1)) in *.
  assert (H1l : 1 <= l). { destruct (decide (1 <= l)); [done|]. assert (El : l = 0) by lia. rewrite El in Hub. lia. }
  assert (E2 : 2 ^ l = 2 * 2 ^ (l - 1)) by (rewrite <- Z.pow_succ_r by lia; f_equal; lia).
  assert (Hl31 : 2 ^ (l - 1) <= 2 ^ 31) by (apply Z.pow_le_mono_r; lia).
  rewrite Z.shiftl_1_l, (u64_small (2 ^ l - d)), (u64_small (2 ^ 32 * _)) by lia. rewrite (proj2 (Z.eqb_neq d 0)) by lia.
  set (x := 2 ^ 32 * (2 ^ l - d)). pose proof (Z.div_mod x d ltac:(lia)) as Hdm. pose proof (Z.mod_pos_bound x d ltac:(lia)) as Hmb.
  set (q := x / d) in *. assert (Hq : 0 <= q < 2 ^ 32 - 1).
  { split; [apply Z.div_pos; unfold x; lia|]. destruct (decide (q < 2 ^ 32 - 1)); [done|].
    assert (d * (2 ^ 32 - 1) <= d * q) by (apply Z.mul_le_mono_nonneg_l; lia). unfold x in *. lia. }
  rewrite (u64_small (q + 1)), (u32_small (q + 1)) by lia. exists l, (2 ^ 32 + (q + 1)). split; [lia|]. split.
  - do 2 f_equal; [lia| |]; [by rewrite Z.min_r by lia|]. rewrite Z.max_l by lia. rewrite u8_small by lia. done.
  - split; [lia|]. rewrite Z.pow_add_r by lia. unfold x in Hdm, Hmb. replace ((2 ^ 32 + (q + 1)) * d) with (2 ^ 32 * d + d * q + d) by ring. lia.
Qed.

(** C36: The division by the reciprocal is the division, for all 32-bit arguments. *)
Theorem reciprocal_divides a d :
  0 <= a < 2 ^ 32 -> 0 < d < 2 ^ 32 -> rte_reciprocal_divide a <$> rte_reciprocal_value d = Some (a / d).
Proof.
  intros Ha Hd. destruct (decide (d = 1)) as [->|Hne].
  { change (rte_reciprocal_value 1) with (Some (Reciprocal 1 0 0)). cbn. unfold rte_reciprocal_divide. cbn [m sh1 sh2].
    rewrite Z.mul_1_r, u64_small, (Z.shiftr_div_pow2 a 32), (Z.div_small a) by lia. change (u32 0) with 0.
    rewrite Z.sub_0_r, (u32_small a), !Z.shiftr_0_r, Z.add_0_l, u32_small, Z.div_1_r by lia. done. }
  destruct (reciprocal_spec d) as (l&M&Hl&->&HM&Hb); [lia|]. cbn. f_equal. unfold rte_reciprocal_divide. cbn [m sh1 sh2].
  set (y := M - 2 ^ 32) in *. assert (Hy : 0 <= y < 2 ^ 32) by lia. rewrite (u64_small (a * y)) by nia.
  rewrite (Z.shiftr_div_pow2 (a * y) 32) by lia. pose proof (Z.div_mod (a * y) (2 ^ 32) ltac:(lia)).
  pose proof (Z.mod_pos_bound (a * y) (2 ^ 32) ltac:(lia)). set (t := a * y / 2 ^ 32) in *. assert (Ht : 0 <= t <= a) by nia.
  rewrite (u32_small t), (u32_small (a - t)) by lia. rewrite !Z.shiftr_div_pow2 by lia. change (2 ^ 1) with 2.
  assert (Eh : t + (a - t) / 2 = (a + t) / 2).
  { rewrite <- Z.div_add_l by lia. f_equal. lia. }
  assert (0 <= (a + t) / 2 < 2 ^ 32) by (split; [apply Z.div_pos; lia|apply Z.div_lt_upper_bound; lia]).
  rewrite Eh, u32_small by lia. rewrite Z.div_div by lia.
  replace (2 * 2 ^ (l - 1)) with (2 ^ l) by (rewrite <- Z.pow_succ_r by lia; f_equal; lia).
  rewrite <- (mul_shift_div a d M (32 + l) l) by (done || lia || (split; [lia|]; replace (32 + l - l) with 32 by lia; lia)).
  rewrite Z.pow_add_r, <- Z.div_div by lia. f_equal.
  replace (a * M) with (a * y + a * 2 ^ 32) by (unfold y; lia). rewrite Z.div_add by lia. unfold t. lia.
Qed.

Lemma reciprocal_divides_witness : rte_reciprocal_divide 4000000000 <$> rte_reciprocal_value 7 = Some 571428571.
Proof. exact (reciprocal_divides 4000000000 7 ltac:(lia) ltac:(lia)). Defined.
