(* ===== verification/Red.v ===== *)
(** * Random early detection

    Model of [librte_sched/rte_red.h] and [rte_red.c] (without
    [RTE_RED_DEBUG]).  The two tables that [__rte_red_init_tables] fills with
    the mathematical library are parameters, and so is the value of
    [rte_rand]. *)

From S2P Require Import Prelude.

(** ** Data *)

Definition RTE_RED_SCALING : Z := 10.
Definition RTE_RED_S : Z := 2 ^ 22.
Definition RTE_RED_MAX_TH_MAX : Z := 1023.
Definition RTE_RED_WQ_LOG2_MIN : Z := 1.
Definition RTE_RED_WQ_LOG2_MAX : Z := 12.
Definition RTE_RED_MAXP_INV_MIN : Z := 1.
Definition RTE_RED_MAXP_INV_MAX : Z := 255.
Definition RTE_RED_2POW16 : Z := 2 ^ 16.

Record rte_red_config := RedConfig { min_th : Z; max_th : Z; pa_const : Z; maxp_inv : Z; wq_log2 : Z }.

Record rte_red := Red { avg : Z; count : Z; q_time : Z }.

(** The global variables. *)
Record red_globals := RedGlobals { rte_red_init_done : bool; rte_red_rand_val : Z; rte_red_rand_seed : Z }.

(** ** Configuration *)

Definition rte_fast_rand (g : red_globals) : red_globals * Z :=
  let seed := u32 (214013 * rte_red_rand_seed g + 2531011) in
  (RedGlobals (rte_red_init_done g) (rte_red_rand_val g) seed, Z.shiftr seed 10).

Definition rte_red_rt_data_init (red : option rte_red) : option rte_red * Z :=
  match red with None => (None, -1) | Some _ => (Some (Red 0 0 0), 0) end.

Definition rte_red_config_init (rand : Z) (g : red_globals) (cfg : option rte_red_config)
    (wq_log2 min_th max_th maxp_inv : Z) : red_globals * option rte_red_config * Z :=
  match cfg with
  | None => (g, cfg, -1)
  | Some _ =>
      if RTE_RED_MAX_TH_MAX <? max_th then (g, cfg, -2)
      else if max_th <=? min_th then (g, cfg, -3)
      else if RTE_RED_WQ_LOG2_MAX <? wq_log2 then (g, cfg, -4)
      else if wq_log2 <? RTE_RED_WQ_LOG2_MIN then (g, cfg, -5)
      else if maxp_inv <? RTE_RED_MAXP_INV_MIN then (g, cfg, -6)
      else if RTE_RED_MAXP_INV_MAX <? maxp_inv then (g, cfg, -7)
      else
        let g1 :=
          if rte_red_init_done g then g
          else
            let '(g0, v) := rte_fast_rand (RedGlobals (rte_red_init_done g) (rte_red_rand_val g) (u32 rand)) in
            RedGlobals true v (rte_red_rand_seed g0) in
        (g1,
         Some (RedConfig (u32 (Z.shiftl min_th (wq_log2 + RTE_RED_SCALING)))
           (u32 (Z.shiftl max_th (wq_log2 + RTE_RED_SCALING)))
           (u32 (Z.shiftl (2 * (max_th - min_th) * maxp_inv) RTE_RED_SCALING)) (u8 maxp_inv) (u8 wq_log2)),
         0)
  end.

Section enqueue.
Variables (rte_red_log2_1_minus_Wq rte_red_pow2_frac_inv : Z -> Z).

(** ** Enqueue *)

(** [None] is the shift by [n - 1] for [n] equal to 0, which C leaves
    undefined. *)
Definition rte_red_calc_qempty_factor (wq_log2 m : Z) : option Z :=
  let n := u32 (m * rte_red_log2_1_minus_Wq (wq_log2 - RTE_RED_WQ_LOG2_MIN)) in
  let f := Z.land (Z.shiftr n 6) 15 in
  let n := Z.shiftr n 10 in
  if n <? RTE_RED_SCALING then
    if n =? 0 then None
    else Some (u16 (Z.shiftr (rte_red_pow2_frac_inv f + Z.shiftl 1 (n - 1)) n))
  else Some 0.

Definition rte_red_enqueue_empty (cfg : rte_red_config) (red : rte_red) (time : Z) : option (rte_red * Z) :=
  let c := u32 (count red + 1) in
  let time_diff := u64 (time - q_time red) in
  let m := time_diff / RTE_RED_S in
  if RTE_RED_2POW16 <=? m then Some (Red 0 c (q_time red), 0)
  else
    f ← rte_red_calc_qempty_factor (wq_log2 cfg) (u16 m);
    Some (Red (u32 (Z.shiftr (avg red) RTE_RED_SCALING * f)) c (q_time red), 0).

Definition rte_red_drop (g : red_globals) (cfg : rte_red_config) (red : rte_red) : red_globals * bool :=
  let pa_num := Z.shiftr (u32 (avg red - min_th cfg)) (wq_log2 cfg) in
  let pa_num_count := u32 (count red * pa_num) in
  if pa_const cfg <=? pa_num_count then (g, true)
  else
    let pa_den := u32 (pa_const cfg - pa_num_count) in
    if rte_red_rand_val g mod pa_den <? pa_num then
      let '(g1, v) := rte_fast_rand g in (RedGlobals (rte_red_init_done g1) v (rte_red_rand_seed g1), true)
    else (g, false).

Definition rte_red_enqueue_nonempty (g : red_globals) (cfg : rte_red_config) (red : rte_red) (q : Z) :
    red_globals * rte_red * Z :=
  let a := u32 (avg red + (Z.shiftl q RTE_RED_SCALING - Z.shiftr (avg red) (wq_log2 cfg))) in
  if a <? min_th cfg then (g, Red a (u32 (count red + 1)) (q_time red), 0)
  else if a <? max_th cfg then
    match rte_red_drop g cfg (Red a (count red) (q_time red)) with
    | (g1, false) => (g1, Red a (u32 (count red + 1)) (q_time red), 0)
    | (g1, true) => (g1, Red a 0 (q_time red), 2)
    end
  else (g, Red a 0 (q_time red), 1).

Definition rte_red_enqueue (g : red_globals) (cfg : rte_red_config) (red : rte_red) (q time : Z) :
    option (red_globals * rte_red * Z) :=
  if negb (q =? 0) then Some (rte_red_enqueue_nonempty g cfg red q)
  else '(red', ret) ← rte_red_enqueue_empty cfg red time; Some (g, red', ret).

Definition rte_red_mark_queue_empty (red : rte_red) (time : Z) : rte_red := Red (avg red) (count red) time.

End enqueue.

(** ** Configurations *)

(** What [rte_red_config_init] accepts, and the fixed-point values it stores. *)
Definition config_args (wq min max inv : Z) : Prop :=
  0 <= min < max /\ max <= 1023 /\ 1 <= wq <= 12 /\ 1 <= inv <= 255.

Definition config_of (wq min max inv : Z) : rte_red_config :=
  RedConfig (min * 2 ^ (wq + 10)) (max * 2 ^ (wq + 10)) (2 * (max - min) * inv * 1024) inv wq.

(** The values do not overflow. *)
Lemma config_range wq min max inv (c := config_of wq min max inv) :
  config_args wq min max inv ->
  0 <= min_th c < max_th c /\ max_th c < 2 ^ 32 /\ 0 < pa_const c < 2 ^ 31.
Proof.
  intros (Hm&Hx&Hw&Hi). cbn. assert (2 ^ (wq + 10) <= 2 ^ 22) by (apply Z.pow_le_mono_r; lia).
  assert (0 < 2 ^ (wq + 10)) by lia. nia.
Qed.

(** A refused configuration. *)
Ltac refused := split; [lia|]; split; [lia|]; split; [done|]; split; [done|lia].

(** The configuration is accepted exactly for arguments in range, with one
    error code per bad argument, and the stored thresholds are the arguments in
    fixed point, without overflow. *)
Theorem red_config_correct rand g cfg wq min max inv :
  0 <= wq < 2 ^ 16 -> 0 <= min < 2 ^ 16 -> 0 <= max < 2 ^ 16 -> 0 <= inv < 2 ^ 16 ->
  let '(g', cfg', ret) := rte_red_config_init rand g cfg wq min max inv in
  (ret = 0 <-> is_Some cfg /\ config_args wq min max inv) /\
  (ret = 0 -> cfg' = Some (config_of wq min max inv) /\ rte_red_init_done g' = true) /\
  (ret <> 0 -> cfg' = cfg /\ g' = g /\ -7 <= ret <= -1).
Proof.
  intros Hwr Hmr Hxr Hir. unfold config_args.
  unfold rte_red_config_init, RTE_RED_MAX_TH_MAX, RTE_RED_WQ_LOG2_MAX, RTE_RED_WQ_LOG2_MIN, RTE_RED_MAXP_INV_MIN, RTE_RED_MAXP_INV_MAX.
  destruct cfg as [c|]; [|split; [split; [done|by intros [[]]]|]; split; [done|]; split; [done|]; split; [done|lia]].
  assert (Hs : is_Some (Some c)) by done.
  destruct (Z.ltb_spec 1023 max); [refused|].
  destruct (Z.leb_spec max min); [refused|].
  destruct (Z.ltb_spec 12 wq); [refused|].
  destruct (Z.ltb_spec wq 1); [refused|].
  destruct (Z.ltb_spec inv 1); [refused|].
  destruct (Z.ltb_spec 255 inv); [refused|].
  assert (HC : config_args wq min max inv) by (unfold config_args; lia).
  destruct (config_range _ _ _ _ HC) as (R1&R2&R3). cbn in R1, R2, R3.
  split; [split; [by intros _; split; [|unfold config_args in HC]|done]|]. split; [|done]. intros _. split.
  - f_equal. unfold config_of, RTE_RED_SCALING. rewrite !Z.shiftl_mul_pow2 by lia. change (2 ^ 10) with 1024.
    rewrite !u32_small, !u8_small by lia. done.
  - destruct (rte_red_init_done g) eqn:E; [done|]. by destruct (rte_fast_rand _).
Qed.

Lemma red_config_correct_witness :
  let '(g', cfg', ret) := rte_red_config_init 5 (RedGlobals false 0 0) (Some (RedConfig 0 0 0 0 0)) 9 32 128 10 in
  ret = 0 /\ cfg' = Some (config_of 9 32 128 10).
Proof.
  pose proof (red_config_correct 5 (RedGlobals false 0 0) (Some (RedConfig 0 0 0 0 0)) 9 32 128 10
    ltac:(lia) ltac:(lia) ltac:(lia) ltac:(lia)) as H.
  destruct (rte_red_config_init 5 (RedGlobals false 0 0) (Some (RedConfig 0 0 0 0 0)) 9 32 128 10) as [[g c] r].
  destruct H as (H1&H2&_). assert (E : r = 0) by (apply H1; split; [by eexists|unfold config_args; lia]).
  split; [exact E|]. by apply H2.
Defined.

(** ** The average *)

(** One step of the filter, [avg - avg * wq + q] in fixed point. *)
Definition ewma (wq a q : Z) : Z := a - a / 2 ^ wq + 1024 * q.

Definition cap (wq q : Z) : Z := 1024 * q * 2 ^ wq + 2 ^ wq - 1.

Lemma ewma_bounds wq a q Q :
  1 <= wq -> 0 <= a <= cap wq Q -> 0 <= q <= Q -> 0 <= ewma wq a q <= cap wq Q.
Proof.
  intros Hw Ha Hq. unfold ewma, cap in *. assert (0 < 2 ^ wq) by lia. set (P := 2 ^ wq) in *.
  pose proof (Z.div_mod a P ltac:(lia)). pose proof (Z.mod_pos_bound a P ltac:(lia)).
  set (k := a / P) in *. set (r := a mod P) in *. assert (0 <= k <= 1024 * Q) by nia. nia.
Qed.

(** The filter moves towards the queue length and does not pass it. *)
Lemma ewma_tracks wq a q :
  1 <= wq -> 0 <= a -> 0 <= q ->
  (a / 2 ^ wq <= 1024 * q -> a <= ewma wq a q /\ ewma wq a q / 2 ^ wq <= 1024 * q) /\
  (1024 * q <= a / 2 ^ wq -> ewma wq a q <= a /\ 1024 * q <= ewma wq a q / 2 ^ wq).
Proof.
  intros Hw Ha Hq. unfold ewma. assert (0 < 2 ^ wq) by lia. set (P := 2 ^ wq) in *.
  pose proof (Z.div_mod a P ltac:(lia)). pose proof (Z.mod_pos_bound a P ltac:(lia)).
  set (k := a / P) in *. set (r := a mod P) in *. split; intros Hk; (split; [lia|]).
  - assert (a - k + 1024 * q < P * (1024 * q + 1)) by nia.
    assert ((a - k + 1024 * q) / P < 1024 * q + 1) by (apply Z.div_lt_upper_bound; lia). lia.
  - apply Z.div_le_lower_bound; [lia|]. nia.
Qed.

Lemma cap_fits wq Q : 1 <= wq <= 12 -> 0 <= Q <= 1023 -> 0 <= cap wq Q < 2 ^ 32.
Proof.
  intros Hw HQ. unfold cap. assert (2 ^ wq <= 2 ^ 12) by (apply Z.pow_le_mono_r; lia). assert (0 < 2 ^ wq) by lia. nia.
Qed.

Section red.
Context (log2_tab pow2_tab : Z -> Z).
Hypothesis (Hpow2 : forall f, 0 <= f < 16 -> 0 <= pow2_tab f <= 1024).
Context (wq min max inv : Z).
Hypothesis (Hargs : config_args wq min max inv).

Let cfg := config_of wq min max inv.

(** What can happen to a queue of at most 1023 packets. *)
Inductive red_reach : red_globals -> rte_red -> Prop :=
| rr_init g : red_reach g (Red 0 0 0)
| rr_enqueue g red q time g' red' ret :
    red_reach g red -> 0 <= q <= 1023 -> rte_red_enqueue log2_tab pow2_tab g cfg red q time = Some (g', red', ret) ->
    red_reach g' red'
| rr_mark g red time : red_reach g red -> red_reach g (rte_red_mark_queue_empty red time).

(** The average after a packet, without wrap-around. *)
Lemma avg_update a q :
  0 <= a <= cap wq 1023 -> 0 <= q <= 1023 ->
  u32 (a + (Z.shiftl q RTE_RED_SCALING - Z.shiftr a wq)) = ewma wq a q.
Proof.
  intros Ha Hq. destruct Hargs as (_&_&Hw&_). unfold RTE_RED_SCALING. rewrite Z.shiftl_mul_pow2, Z.shiftr_div_pow2 by lia.
  pose proof (ewma_bounds wq a q 1023 ltac:(lia) Ha Hq) as Hb. pose proof (cap_fits wq 1023 ltac:(lia) ltac:(lia)).
  replace (a + (q * 2 ^ 10 - a / 2 ^ wq)) with (ewma wq a q) by (unfold ewma; lia). apply u32_small. lia.
Qed.

Lemma nonempty_avg g red q :
  0 <= avg red <= cap wq 1023 -> 0 <= q <= 1023 ->
  let '(_, red', _) := rte_red_enqueue_nonempty g cfg red q in avg red' = ewma wq (avg red) q.
Proof.
  intros Ha Hq. unfold rte_red_enqueue_nonempty. change (wq_log2 cfg) with wq. rewrite avg_update by done.
  destruct (_ <? min_th cfg); [done|]. destruct (_ <? max_th cfg); [|done]. by destruct (rte_red_drop _ _ _) as [g1 [|]].
Qed.

(** An idle queue never raises the average. *)
Lemma qempty_factor_le m f : rte_red_calc_qempty_factor log2_tab pow2_tab wq m = Some f -> 0 <= f <= 1024.
Proof.
  unfold rte_red_calc_qempty_factor. set (n := Z.shiftr (u32 _) 10). set (f' := Z.land _ 15).
  destruct (n <? RTE_RED_SCALING) eqn:Hn; [|intros [= <-]; lia]. destruct (Z.eqb_spec n 0); [done|]. intros [= <-].
  assert (Hf : 0 <= f' < 16) by (unfold f'; change 15 with (Z.ones 4); rewrite Z.land_ones by lia; apply Z.mod_pos_bound; lia).
  specialize (Hpow2 f' Hf). apply Z.ltb_lt in Hn. unfold RTE_RED_SCALING in Hn.
  assert (0 <= n) by (apply Z.shiftr_nonneg, u32_range).
  assert (E : 2 ^ n = 2 * 2 ^ (n - 1)) by (rewrite <- Z.pow_succ_r by lia; f_equal; lia).
  assert (0 < 2 ^ (n - 1)) by lia. assert (2 ^ (n - 1) <= 2 ^ 8) by (apply Z.pow_le_mono_r; lia).
  rewrite Z.shiftl_1_l, Z.shiftr_div_pow2 by lia.
  assert (Hd : 0 <= (pow2_tab f' + 2 ^ (n - 1)) / 2 ^ n <= 1024).
  { split; [apply Z.div_pos; lia|]. apply Z.div_le_upper_bound; nia. }
  unfold u16. rewrite wrap_small by lia. done.
Qed.

Lemma empty_avg red time red' ret :
  0 <= avg red < 2 ^ 32 -> rte_red_enqueue_empty log2_tab pow2_tab cfg red time = Some (red', ret) ->
  0 <= avg red' <= avg red /\ ret = 0.
Proof.
  intros Ha. unfold rte_red_enqueue_empty. destruct (RTE_RED_2POW16 <=? _); [intros [= <- <-]; cbn; lia|].
  change (wq_log2 cfg) with wq. destruct (rte_red_calc_qempty_factor _ _ _ _) as [f|] eqn:E; [|done].
  apply qempty_factor_le in E. intros [= <- <-]. cbn. unfold RTE_RED_SCALING. rewrite Z.shiftr_div_pow2 by lia.
  pose proof (Z.div_mod (avg red) (2 ^ 10) ltac:(lia)). pose proof (Z.mod_pos_bound (avg red) (2 ^ 10) ltac:(lia)).
  pose proof (Z.div_pos (avg red) (2 ^ 10)). set (k := avg red / 2 ^ 10) in *. assert (0 <= k * f <= avg red) by nia.
  rewrite u32_small by lia. lia.
Qed.

Lemma reach_avg g red : red_reach g red -> 0 <= avg red <= cap wq 1023.
Proof.
  destruct Hargs as (_&_&Hw&_). pose proof (cap_fits wq 1023 ltac:(lia) ltac:(lia)).
  induction 1 as [g|g red q time g' red' ret _ IH Hq E|g red time _ IH]; [cbn; lia| |done].
  unfold rte_red_enqueue in E. destruct (Z.eqb_spec q 0) as [->|Hne]; cbn [negb] in E.
  - destruct (rte_red_enqueue_empty _ _ _ _ _) as [[red1 r]|] eqn:Ee; [|done]. injection E as -> -> ->.
    apply empty_avg in Ee; [lia|lia].
  - injection E as E. pose proof (nonempty_avg g red q IH Hq) as Hn. rewrite E in Hn. rewrite Hn.
    apply ewma_bounds; lia.
Qed.

End red.

(** ** Theorems *)

(** In every history of a queue of at most 1023 packets the average fits into
    32 bits, an arriving packet changes it by exactly one step of the filter,
    and the step moves it towards the queue length without passing it. *)
Theorem red_average log2_tab pow2_tab wq min max inv g red q g' red' ret :
  (forall f, 0 <= f < 16 -> 0 <= pow2_tab f <= 1024) -> config_args wq min max inv ->
  red_reach log2_tab pow2_tab wq min max inv g red -> 0 < q <= 1023 ->
  rte_red_enqueue_nonempty g (config_of wq min max inv) red q = (g', red', ret) ->
  avg red' = ewma wq (avg red) q /\ 0 <= avg red' <= cap wq 1023 /\ cap wq 1023 < 2 ^ 32 /\
  (avg red / 2 ^ wq <= 1024 * q -> avg red <= avg red' /\ avg red' / 2 ^ wq <= 1024 * q) /\
  (1024 * q <= avg red / 2 ^ wq -> avg red' <= avg red /\ 1024 * q <= avg red' / 2 ^ wq).
Proof.
  intros Hp Ha Hr Hq E. pose proof (reach_avg _ _ Hp _ _ _ _ Ha _ _ Hr) as Hb.
  pose proof (nonempty_avg _ _ _ _ Ha g red q Hb ltac:(lia)) as Hn. rewrite E in Hn. rewrite Hn.
  destruct Ha as (_&_&Hw&_). split; [done|]. split; [apply ewma_bounds; lia|].
  split; [apply cap_fits; lia|]. apply ewma_tracks; lia.
Qed.

(** The values of [round(1024 / pow(2, i / 16))] and of
    [round(-1024 * log2(1 - 2^-n))]. *)
Definition demo_pow2 (f : Z) : Z :=
  [1024; 981; 939; 899; 861; 825; 790; 756; 724; 693; 664; 636; 609; 583; 558; 535] !!! Z.to_nat f.
Definition demo_log2 (i : Z) : Z := [1024; 425; 197; 95; 47; 23; 12; 6; 3; 1; 1; 1] !!! Z.to_nat i.

Lemma demo_pow2_range f : 0 <= f < 16 -> 0 <= demo_pow2 f <= 1024.
Proof.
  intros Hf. unfold demo_pow2.
  assert (Hl : Forall (fun x => 0 <= x <= 1024)
    [1024; 981; 939; 899; 861; 825; 790; 756; 724; 693; 664; 636; 609; 583; 558; 535]) by (repeat constructor; lia).
  rewrite Forall_lookup in Hl. apply (Hl (Z.to_nat f)). apply list_lookup_lookup_total_lt. cbn. lia.
Qed.

Definition demo_globals : red_globals := RedGlobals true 12345 99.

Lemma red_average_witness :
  let '(_, red', _) := rte_red_enqueue_nonempty demo_globals (config_of 9 32 128 10) (Red 0 0 0) 40 in
  avg red' = ewma 9 0 40.
Proof.
  destruct (rte_red_enqueue_nonempty demo_globals (config_of 9 32 128 10) (Red 0 0 0) 40) as [[g' red'] ret] eqn:E.
  apply (red_average demo_log2 demo_pow2 9 32 128 10 demo_globals (Red 0 0 0) 40 g' red' ret demo_pow2_range);
    [unfold config_args; lia|constructor|lia|exact E].
Defined.

(** The verdict that the average [a] asks for, [v] being the random value: the
    drop probability in the band is [pa_num / (pa_const - count * pa_num)],
    the product taken modulo [2^32]. *)
Definition verdict (cfg : rte_red_config) (a cnt v : Z) : Z :=
  let pa_num := (a - min_th cfg) / 2 ^ wq_log2 cfg in
  let k := (cnt * pa_num) mod 2 ^ 32 in
  if decide (a < min_th cfg) then 0
  else if decide (max_th cfg <= a) then 1
  else if decide (pa_const cfg <= k \/ v mod (pa_const cfg - k) < pa_num) then 2 else 0.

(** The random test of [rte_red_drop], when the average is in the band: a new
    random value is drawn only for a drop that is not forced. *)
Lemma red_drop_exact g wq min max inv red (cfg := config_of wq min max inv)
    (pa_num := (avg red - min_th cfg) / 2 ^ wq) (k := (count red * pa_num) mod 2 ^ 32) :
  config_args wq min max inv -> min_th cfg <= avg red < max_th cfg ->
  rte_red_drop g cfg red =
    if decide (pa_const cfg <= k) then (g, true)
    else if decide (rte_red_rand_val g mod (pa_const cfg - k) < pa_num) then
      (RedGlobals (rte_red_init_done g) (rte_fast_rand g).2 (rte_red_rand_seed (rte_fast_rand g).1), true)
    else (g, false).
Proof.
  intros Ha Hb. destruct (config_range _ _ _ _ Ha) as (R1&R2&R3). fold cfg in R1, R2, R3. destruct Ha as (_&_&Hw&_).
  unfold rte_red_drop. change (wq_log2 cfg) with wq.
  rewrite (u32_small (avg red - min_th cfg)), Z.shiftr_div_pow2 by lia. fold pa_num.
  change (u32 (count red * pa_num)) with k. assert (0 <= k < 2 ^ 32) by (apply Z.mod_pos_bound; lia).
  destruct (decide _) as [Hk|Hk]; [by rewrite (proj2 (Z.leb_le _ _))|].
  rewrite (proj2 (Z.leb_gt _ _)), u32_small by lia.
  destruct (decide _) as [Hr|Hr]; [by rewrite (proj2 (Z.ltb_lt _ _))|by rewrite (proj2 (Z.ltb_ge _ _)) by lia].
Qed.



(** ** Where the code falls short *)

(** After a short idle time the shift by [n - 1] is a shift by [2^32 - 1]. *)
Theorem qempty_factor_undefined log2_tab pow2_tab wq m :
  0 <= m * log2_tab (wq - RTE_RED_WQ_LOG2_MIN) < 1024 -> rte_red_calc_qempty_factor log2_tab pow2_tab wq m = None.
Proof.
  intros Hm. unfold rte_red_calc_qempty_factor. rewrite u32_small by lia.
  rewrite (Z.shiftr_div_pow2 _ 10), Z.div_small by lia. done.
Qed.

(** [n] packets that arrive at a queue of length [q]: the last verdict. *)
Fixpoint arrivals (n : nat) (g : red_globals) (cfg : rte_red_config) (red : rte_red) (q : Z) : rte_red * Z :=
  match n with
  | O => (red, 0)
  | S O => let '(_, red', ret) := rte_red_enqueue_nonempty g cfg red q in (red', ret)
  | S n' => let '(g', red', _) := rte_red_enqueue_nonempty g cfg red q in arrivals n' g' cfg red' q
  end.

(** With a queue longer than the largest threshold the average wraps around: of
    65 packets that arrive at a queue of 65535, the 64th is dropped and the 65th
    is enqueued. *)
Theorem average_wraps :
  (arrivals 64 demo_globals (config_of 12 32 128 10) (Red 0 0 0) 65535).2 = 1 /\
  (arrivals 65 demo_globals (config_of 12 32 128 10) (Red 0 0 0) 65535).2 = 0.
Proof. vm_compute. split; reflexivity. Qed.

(** The product that forces a drop wraps around: [2^31] packets after the last
    drop none is forced. *)
Theorem forced_drop_wraps :
  let cfg := config_of 1 32 128 10 in
  (rte_red_drop demo_globals cfg (Red (min_th cfg + 4) (2 ^ 31) 0)).2 = false.
Proof. vm_compute. reflexivity. Qed.
