(* ===== verification/Cirbuf.v ===== *)
(** * The circular character buffer of the command line: operations

    Model of [librte_cmdline/cmdline_cirbuf.c] and the macros of
    [cmdline_cirbuf.h].  [start] and [end] are the indexes of the first and of
    the last character; when the buffer is empty both name the slot the next
    character goes to.  Characters are integers, a NULL pointer is [None]. *)

From S2P Require Import Prelude.

Record cirbuf := Cirbuf {
  maxlen : Z;
  start : Z;
  end_ : Z;
  len : Z;
  buf : gmap Z Z
}.

Definition set_start (c : cirbuf) (x : Z) : cirbuf :=
  Cirbuf (maxlen c) x (end_ c) (len c) (buf c).
Definition set_end (c : cirbuf) (x : Z) : cirbuf :=
  Cirbuf (maxlen c) (start c) x (len c) (buf c).
Definition set_len (c : cirbuf) (x : Z) : cirbuf :=
  Cirbuf (maxlen c) (start c) (end_ c) x (buf c).
Definition set_buf (c : cirbuf) (x : gmap Z Z) : cirbuf :=
  Cirbuf (maxlen c) (start c) (end_ c) (len c) x.

Definition CIRBUF_IS_FULL (c : cirbuf) : bool := maxlen c =? len c.
Definition CIRBUF_IS_EMPTY (c : cirbuf) : bool := len c =? 0.
Definition CIRBUF_GET_LEN (c : cirbuf) : Z := len c.
Definition CIRBUF_GET_FREELEN (c : cirbuf) : Z := u32 (maxlen c - len c).

(** The result carries the buffer header the call initialises. *)
Definition cirbuf_init (cbuf : option cirbuf) (b : option (gmap Z Z)) (start maxlen : Z) :
    option cirbuf * Z :=
  match cbuf, b with
  | Some _, Some b => (Some (Cirbuf maxlen start start 0 b), 0)
  | _, _ => (cbuf, - EINVAL)
  end.

(** ** Adding several characters *)

Definition cirbuf_add_buf_head (cbuf : option cirbuf) (c : option (list Z)) (n : Z) :
    option cirbuf * Z :=
  match cbuf, c with
  | Some b, Some c =>
      if (n =? 0) || (CIRBUF_GET_FREELEN b <? n) then (cbuf, - EINVAL)
      else
        let e := if CIRBUF_IS_EMPTY b then 1 else 0 in
        let t :=
          if n <? u32 (start b + e) then
            memcpy (buf b) (start b - n + e) (chars c) 0 n
          else
            let t1 := memcpy (buf b) 0 (chars c) (n - (start b + e)) (start b + e) in
            memcpy t1 (maxlen b - n + (start b + e)) (chars c) 0 (n - (start b + e)) in
        let b1 := set_len (set_buf b t) (u32 (len b + n)) in
        let b2 := set_start b1 (u32 (start b1 + (maxlen b1 - n + e))) in
        (Some (set_start b2 (start b2 mod maxlen b2)), i32 n)
  | _, _ => (cbuf, - EINVAL)
  end.

Definition cirbuf_add_buf_tail (cbuf : option cirbuf) (c : option (list Z)) (n : Z) :
    option cirbuf * Z :=
  match cbuf, c with
  | Some b, Some c =>
      if (n =? 0) || (CIRBUF_GET_FREELEN b <? n) then (cbuf, - EINVAL)
      else
        let e := if CIRBUF_IS_EMPTY b then 1 else 0 in
        let ne := 1 - e in
        let t :=
          if n <? u32 (maxlen b - end_ b - 1 + e) then
            memcpy (buf b) (end_ b + ne) (chars c) 0 n
          else
            let t1 := memcpy (buf b) (end_ b + ne) (chars c) 0 (maxlen b - end_ b - 1 + e) in
            memcpy t1 0 (chars c) (maxlen b - end_ b - 1 + e)
              (n - maxlen b + end_ b + 1 - e) in
        let b1 := set_len (set_buf b t) (u32 (len b + n)) in
        let b2 := set_end b1 (u32 (end_ b1 + (n - e))) in
        (Some (set_end b2 (end_ b2 mod maxlen b2)), i32 n)
  | _, _ => (cbuf, - EINVAL)
  end.

(** ** Adding one character *)

Definition cirbuf_add_head_ (b : cirbuf) (c : Z) : cirbuf :=
  let b1 := if negb (CIRBUF_IS_EMPTY b)
            then set_start b (u32 (start b + (maxlen b - 1)) mod maxlen b) else b in
  let b2 := set_buf b1 (<[start b1 := c]> (buf b1)) in
  set_len b2 (u32 (len b2 + 1)).

Definition cirbuf_add_head_safe (cbuf : option cirbuf) (c : Z) : option cirbuf * Z :=
  match cbuf with
  | Some b =>
      if negb (CIRBUF_IS_FULL b) then (Some (cirbuf_add_head_ b c), 0) else (cbuf, - EINVAL)
  | None => (None, - EINVAL)
  end.

Definition cirbuf_add_head (b : cirbuf) (c : Z) : cirbuf := cirbuf_add_head_ b c.

Definition cirbuf_add_tail_ (b : cirbuf) (c : Z) : cirbuf :=
  let b1 := if negb (CIRBUF_IS_EMPTY b)
            then set_end b (u32 (end_ b + 1) mod maxlen b) else b in
  let b2 := set_buf b1 (<[end_ b1 := c]> (buf b1)) in
  set_len b2 (u32 (len b2 + 1)).

Definition cirbuf_add_tail_safe (cbuf : option cirbuf) (c : Z) : option cirbuf * Z :=
  match cbuf with
  | Some b =>
      if negb (CIRBUF_IS_FULL b) then (Some (cirbuf_add_tail_ b c), 0) else (cbuf, - EINVAL)
  | None => (None, - EINVAL)
  end.

Definition cirbuf_add_tail (b : cirbuf) (c : Z) : cirbuf := cirbuf_add_tail_ b c.

(** ** Aligning *)

Definition cirbuf_shift_left (b : cirbuf) : cirbuf :=
  let m := maxlen b in
  let tmp := buf b !!! start b in
  let t := for_range 0 (len b)
    (fun i t => <[u32 (start b + i) mod m := t !!! (u32 (start b + i + 1) mod m)]> t) (buf b) in
  let t' := <[u32 (start b - 1 + m) mod m := tmp]> t in
  set_end (set_start (set_buf b t') (u32 (start b + (m - 1)) mod m))
    (u32 (end_ b + (m - 1)) mod m).

Definition cirbuf_shift_right (b : cirbuf) : cirbuf :=
  let m := maxlen b in
  let tmp := buf b !!! end_ b in
  let t := for_range 0 (len b)
    (fun i t => <[u32 (end_ b + m - i) mod m := t !!! (u32 (end_ b + m - i - 1) mod m)]> t)
    (buf b) in
  let t' := <[u32 (end_ b + 1) mod m := tmp]> t in
  set_end (set_start (set_buf b t') (u32 (start b + 1) mod m)) (u32 (end_ b + 1) mod m).

(** [while (stop != target) shift(cbuf);]: [None] when the fuel ends. *)
Fixpoint shift_until (fuel : nat) (at_target : cirbuf -> bool) (shift : cirbuf -> cirbuf)
    (b : cirbuf) : option cirbuf :=
  if at_target b then Some b
  else match fuel with
       | O => None
       | S f => shift_until f at_target shift (shift b)
       end.

Definition cirbuf_align_left (fuel : nat) (cbuf : option cirbuf) : option (option cirbuf * Z) :=
  match cbuf with
  | None => Some (None, - EINVAL)
  | Some b =>
      let shift := if start b <? maxlen b / 2 then cirbuf_shift_left else cirbuf_shift_right in
      b' ← shift_until fuel (fun b => start b =? 0) shift b;
      Some (Some b', 0)
  end.

Definition cirbuf_align_right (fuel : nat) (cbuf : option cirbuf) : option (option cirbuf * Z) :=
  match cbuf with
  | None => Some (None, - EINVAL)
  | Some b =>
      b' ← (if maxlen b / 2 <=? start b
            then shift_until fuel (fun b => end_ b =? maxlen b - 1) cirbuf_shift_left b
            else shift_until fuel (fun b => start b =? maxlen b - 1) cirbuf_shift_right b);
      Some (Some b', 0)
  end.

(** ** Deleting *)

Definition cirbuf_del_buf_head (cbuf : option cirbuf) (size : Z) : option cirbuf * Z :=
  match cbuf with
  | Some b =>
      if (size =? 0) || (CIRBUF_GET_LEN b <? size) then (cbuf, - EINVAL)
      else
        let b1 := set_len b (u32 (len b - size)) in
        (Some (if CIRBUF_IS_EMPTY b1
               then set_start b1 (u32 (start b1 + (size - 1)) mod maxlen b1)
               else set_start b1 (u32 (start b1 + size) mod maxlen b1)), 0)
  | None => (None, - EINVAL)
  end.

Definition cirbuf_del_buf_tail (cbuf : option cirbuf) (size : Z) : option cirbuf * Z :=
  match cbuf with
  | Some b =>
      if (size =? 0) || (CIRBUF_GET_LEN b <? size) then (cbuf, - EINVAL)
      else
        let b1 := set_len b (u32 (len b - size)) in
        (Some (if CIRBUF_IS_EMPTY b1
               then set_end b1 (u32 (end_ b1 + (maxlen b1 - size + 1)) mod maxlen b1)
               else set_end b1 (u32 (end_ b1 + (maxlen b1 - size)) mod maxlen b1)), 0)
  | None => (None, - EINVAL)
  end.

Definition cirbuf_del_head_ (b : cirbuf) : cirbuf :=
  let b1 := set_len b (u32 (len b - 1)) in
  if negb (CIRBUF_IS_EMPTY b1) then set_start b1 (u32 (start b1 + 1) mod maxlen b1) else b1.

Definition cirbuf_del_head_safe (cbuf : option cirbuf) : option cirbuf * Z :=
  match cbuf with
  | Some b =>
      if negb (CIRBUF_IS_EMPTY b) then (Some (cirbuf_del_head_ b), 0) else (cbuf, - EINVAL)
  | None => (None, - EINVAL)
  end.

Definition cirbuf_del_head (b : cirbuf) : cirbuf := cirbuf_del_head_ b.

Definition cirbuf_del_tail_ (b : cirbuf) : cirbuf :=
  let b1 := set_len b (u32 (len b - 1)) in
  if negb (CIRBUF_IS_EMPTY b1)
  then set_end b1 (u32 (end_ b1 + (maxlen b1 - 1)) mod maxlen b1) else b1.

Definition cirbuf_del_tail_safe (cbuf : option cirbuf) : option cirbuf * Z :=
  match cbuf with
  | Some b =>
      if negb (CIRBUF_IS_EMPTY b) then (Some (cirbuf_del_tail_ b), 0) else (cbuf, - EINVAL)
  | None => (None, - EINVAL)
  end.

Definition cirbuf_del_tail (b : cirbuf) : cirbuf := cirbuf_del_tail_ b.

(** ** Reading *)

(** Result: the caller's array and the return value. *)
Definition cirbuf_get_buf_head (cbuf : option cirbuf) (c : option (gmap Z Z)) (size : Z) :
    option (gmap Z Z) * Z :=
  match cbuf, c with
  | Some b, Some c =>
      let n := if size <? CIRBUF_GET_LEN b then size else CIRBUF_GET_LEN b in
      if n =? 0 then (Some c, 0)
      else
        let c' :=
          if start b <=? end_ b then memcpy c 0 (cells (buf b)) (start b) n
          else if n <=? maxlen b - start b then memcpy c 0 (cells (buf b)) (start b) n
          else
            let c1 := memcpy c 0 (cells (buf b)) (start b) (maxlen b - start b) in
            memcpy c1 (maxlen b - start b) (cells (buf b)) 0 (n - maxlen b + start b) in
        (Some c', i32 n)
  | _, _ => (c, - EINVAL)
  end.

Definition cirbuf_get_buf_tail (cbuf : option cirbuf) (c : option (gmap Z Z)) (size : Z) :
    option (gmap Z Z) * Z :=
  match cbuf, c with
  | Some b, Some c =>
      let n := if size <? CIRBUF_GET_LEN b then size else CIRBUF_GET_LEN b in
      if n =? 0 then (Some c, 0)
      else
        let c' :=
          if start b <=? end_ b then memcpy c 0 (cells (buf b)) (end_ b - n + 1) n
          else if n <=? end_ b + 1 then memcpy c 0 (cells (buf b)) (end_ b - n + 1) n
          else
            let c1 := memcpy c (maxlen b - start b) (cells (buf b)) 0 (end_ b + 1) in
            memcpy c1 0 (cells (buf b)) (maxlen b - n + end_ b + 1) (n - end_ b - 1) in
        (Some c', i32 n)
  | _, _ => (c, - EINVAL)
  end.

Definition cirbuf_get_head (b : cirbuf) : Z := buf b !!! start b.
Definition cirbuf_get_tail (b : cirbuf) : Z := buf b !!! end_ b.
