(* ===== verification/CirbufProofs.v ===== *)
(** * The circular buffer is a sequence of characters

    [cb_inv b q]: the buffer [b] holds the characters [q].  Every operation is
    shown to act on [q] as the list operation its name says. *)

From S2P Require Import Prelude Cirbuf.

Record cb_inv (b : cirbuf) (q : list Z) : Prop := CbInv {
  cb_max : 0 < maxlen b < 2 ^ 31;
  cb_start : 0 <= start b < maxlen b;
  cb_len : len b = Z.of_nat (length q) /\ len b <= maxlen b;
  cb_end : end_ b = (start b + Z.max (len b - 1) 0) mod maxlen b;
  cb_cells : forall i, 0 <= i < len b ->
    buf b !!! ((start b + i) mod maxlen b) = q !!! Z.to_nat i
}.

(** Indexes are reduced at most once. *)
Lemma mod_choice x m :
  0 <= x < 2 * m -> exists y, x mod m = y /\ 0 <= y < m /\ (y = x \/ y = x - m).
Proof.
  intros Hx. destruct (decide (x < m)).
  - exists x. rewrite Z.mod_small by lia. lia.
  - exists (x - m). rewrite <- (Z_mod_plus_full x (-1)). rewrite Z.mod_small; lia.
Qed.

(** Case analysis on reduced indexes and copied ranges. *)
Ltac cyc_index x m :=
  lazymatch x with
  | context [Z.modulo _ _] => fail
  | _ =>
      let y := fresh "y" in let E := fresh "E" in
      destruct (mod_choice x m ltac:(lia)) as (y & E & ? & ?); rewrite E in *; clear E
  end.
Ltac cyc :=
  repeat match goal with
  | |- context [Z.modulo ?x ?m] => cyc_index x m
  | H : context [Z.modulo ?x ?m] |- _ => cyc_index x m
  end;
  repeat case_decide.

Lemma at_app_l (q c : list Z) i : 0 <= i < Z.of_nat (length q) ->
  (q ++ c) !!! Z.to_nat i = q !!! Z.to_nat i.
Proof. intros. by rewrite lookup_total_app_l by lia. Qed.

Lemma at_app_r (q c : list Z) i : Z.of_nat (length q) <= i ->
  (q ++ c) !!! Z.to_nat i = c !!! Z.to_nat (i - Z.of_nat (length q)).
Proof. intros. rewrite lookup_total_app_r by lia. f_equal. lia. Qed.

Lemma at_take (c : list Z) n i : 0 <= i < n ->
  take (Z.to_nat n) c !!! Z.to_nat i = c !!! Z.to_nat i.
Proof. intros. by rewrite !list_lookup_total_alt, lookup_take_lt by lia. Qed.

Lemma at_drop (c : list Z) n i : 0 <= n -> 0 <= i ->
  drop (Z.to_nat n) c !!! Z.to_nat i = c !!! Z.to_nat (n + i).
Proof. intros. rewrite lookup_total_drop. f_equal. lia. Qed.

(** The cells of the window, with the index split at the end of the array. *)
Lemma cb_read_lo b q x :
  cb_inv b q -> start b <= x < start b + len b -> x < maxlen b ->
  buf b !!! x = q !!! Z.to_nat (x - start b).
Proof. intros [Hm Hs [Hl Hle] He Hc] Hx Hin. rewrite <- Hc by lia. f_equal. cyc; lia. Qed.

Lemma cb_read_hi b q x :
  cb_inv b q -> 0 <= x < start b + len b - maxlen b ->
  buf b !!! x = q !!! Z.to_nat (x + maxlen b - start b).
Proof. intros [Hm Hs [Hl Hle] He Hc] Hx. rewrite <- Hc by lia. f_equal. cyc; lia. Qed.

Definition add_tail_post (b : cirbuf) (q c : list Z) (n : Z) (res : option cirbuf * Z) : Prop :=
  if decide (0 < n <= maxlen b - len b)
  then snd res = n /\ exists b', fst res = Some b' /\ cb_inv b' (q ++ take (Z.to_nat n) c)
  else res = (Some b, - EINVAL).

Lemma freelen b q : cb_inv b q -> CIRBUF_GET_FREELEN b = maxlen b - len b.
Proof. intros [Hm Hs [Hl Hle] He Hc]. unfold CIRBUF_GET_FREELEN. apply u32_small. lia. Qed.

Lemma add_buf_tail_ok b q c n :
  cb_inv b q -> 0 <= n < 2 ^ 32 -> n <= Z.of_nat (length c) ->
  add_tail_post b q c n (cirbuf_add_buf_tail (Some b) (Some c) n).
Proof.
  intros HI Hn Hc. unfold cirbuf_add_buf_tail, add_tail_post. rewrite (freelen b q HI).
  destruct HI as [Hm Hs [Hl Hle] He Hcells].
  case_decide as Hfit; destruct (Z.eqb_spec n 0), (Z.ltb_spec (maxlen b - len b) n);
    try lia; try done; cbn [orb].
  set (e := if CIRBUF_IS_EMPTY b then 1 else 0).
  assert (Hcase : (e = 1 /\ len b = 0) \/ (e = 0 /\ 0 < len b)).
  { unfold e, CIRBUF_IS_EMPTY. destruct (Z.eqb_spec (len b) 0); lia. }
  assert (Hend : 0 <= end_ b < maxlen b) by (rewrite He; apply Z.mod_pos_bound; lia).
  cbn [fst snd start end_ len maxlen buf set_end set_len set_buf].
  split; [apply i32_small; lia|]. eexists. split; [done|].
  assert (Hlen : Z.of_nat (length (q ++ take (Z.to_nat n) c)) = len b + n)
    by (rewrite length_app, length_take; lia).
  split; cbn; rewrite ?(u32_small (len b + n)), ?(u32_small (end_ b + (n - e))),
    ?(u32_small (maxlen b - end_ b - 1 + e)) by lia; try done; try lia.
  - rewrite He. cyc; lia.
  - intros i Hi.
    assert (Hwin : forall x, 0 <= x < maxlen b ->
      (if n <? maxlen b - end_ b - 1 + e
       then memcpy (buf b) (end_ b + (1 - e)) (chars c) 0 n
       else memcpy (memcpy (buf b) (end_ b + (1 - e)) (chars c) 0 (maxlen b - end_ b - 1 + e))
              0 (chars c) (maxlen b - end_ b - 1 + e) (n - maxlen b + end_ b + 1 - e)) !!! x =
      let o := x - (end_ b + 1 - e) in
      if decide (0 <= o < n) then chars c o
      else if decide (0 <= o + maxlen b < n) then chars c (o + maxlen b) else buf b !!! x).
    { intros x Hx. cbv zeta. destruct (Z.ltb_spec n (maxlen b - end_ b - 1 + e)).
      - rewrite memcpy_cells by lia. repeat case_decide; try lia; try done; f_equal; lia.
      - rewrite !memcpy_cells by lia. repeat case_decide; try lia; try done; f_equal; lia. }
    rewrite Hwin by (apply Z.mod_pos_bound; lia). cbv zeta. unfold chars.
    destruct (decide (i < len b)).
    + rewrite at_app_l, <- Hcells by lia. cyc; try lia; first [done|f_equal; lia].
    + rewrite at_app_r, at_take by lia. cyc; try lia; do 2 f_equal; lia.
Qed.

Definition add_head_post (b : cirbuf) (q c : list Z) (n : Z) (res : option cirbuf * Z) : Prop :=
  if decide (0 < n <= maxlen b - len b)
  then snd res = n /\ exists b', fst res = Some b' /\ cb_inv b' (take (Z.to_nat n) c ++ q)
  else res = (Some b, - EINVAL).

Lemma add_buf_head_ok b q c n :
  cb_inv b q -> 0 <= n < 2 ^ 32 -> n <= Z.of_nat (length c) ->
  add_head_post b q c n (cirbuf_add_buf_head (Some b) (Some c) n).
Proof.
  intros HI Hn Hc. unfold cirbuf_add_buf_head, add_head_post. rewrite (freelen b q HI).
  destruct HI as [Hm Hs [Hl Hle] He Hcells].
  case_decide as Hfit; destruct (Z.eqb_spec n 0), (Z.ltb_spec (maxlen b - len b) n);
    try lia; try done; cbn [orb].
  set (e := if CIRBUF_IS_EMPTY b then 1 else 0).
  assert (Hcase : (e = 1 /\ len b = 0) \/ (e = 0 /\ 0 < len b)).
  { unfold e, CIRBUF_IS_EMPTY. destruct (Z.eqb_spec (len b) 0); lia. }
  cbn [fst snd start end_ len maxlen buf set_start set_len set_buf].
  split; [apply i32_small; lia|]. eexists. split; [done|].
  assert (Hlen : Z.of_nat (length (take (Z.to_nat n) c ++ q)) = len b + n)
    by (rewrite length_app, length_take; lia).
  assert (Hn' : Z.of_nat (length (take (Z.to_nat n) c)) = n) by (rewrite length_take; lia).
  split; cbn; rewrite ?(u32_small (len b + n)), ?(u32_small (start b + (maxlen b - n + e))),
    ?(u32_small (start b + e)) by lia; try done; try lia.
  - apply Z.mod_pos_bound. lia.
  - rewrite He. cyc; lia.
  - intros i Hi.
    assert (Hwin : forall x, 0 <= x < maxlen b ->
      (if n <? start b + e
       then memcpy (buf b) (start b - n + e) (chars c) 0 n
       else memcpy (memcpy (buf b) 0 (chars c) (n - (start b + e)) (start b + e))
              (maxlen b - n + (start b + e)) (chars c) 0 (n - (start b + e))) !!! x =
      let o := x - (start b + e - n) in
      if decide (0 <= o < n) then chars c o
      else if decide (0 <= o - maxlen b < n) then chars c (o - maxlen b) else buf b !!! x).
    { intros x Hx. cbv zeta. destruct (Z.ltb_spec n (start b + e)).
      - rewrite memcpy_cells by lia. repeat case_decide; try lia; try done; f_equal; lia.
      - rewrite !memcpy_cells by lia. repeat case_decide; try lia; try done; f_equal; lia. }
    rewrite Hwin by (apply Z.mod_pos_bound; lia). cbv zeta. unfold chars.
    destruct (decide (i < n)).
    + rewrite at_app_l, at_take by lia. clear Hwin Hcells. cyc; try lia; do 2 f_equal; lia.
    + rewrite at_app_r, Hn', <- Hcells by lia. clear Hwin Hcells. cyc; try lia; first [done|f_equal; lia].
Qed.

(** ** One character *)

Lemma add_tail_ok b q c :
  cb_inv b q -> len b < maxlen b -> cb_inv (cirbuf_add_tail b c) (q ++ [c]).
Proof.
  intros [Hm Hs [Hl Hle] He Hcells] Hfull. unfold cirbuf_add_tail, cirbuf_add_tail_, CIRBUF_IS_EMPTY.
  assert (Hend : 0 <= end_ b < maxlen b) by (rewrite He; apply Z.mod_pos_bound; lia).
  assert (Hq : Z.of_nat (length (q ++ [c])) = len b + 1) by (rewrite length_app; cbn; lia).
  destruct (Z.eqb_spec (len b) 0) as [E|E]; cbn.
  - split; cbn; rewrite ?u32_small by lia; try done; try lia; rewrite He, E.
    + done.
    + intros i Hi. assert (i = 0) as -> by lia. destruct q; [|cbn in Hl; lia]. cbn.
      rewrite !Z.add_0_r, lookup_total_insert_eq. done.
  - rewrite (u32_small (end_ b + 1)) by lia.
    split; cbn; rewrite ?(u32_small (len b + 1)) by lia; try done; try lia.
    + rewrite He. cyc; lia.
    + intros i Hi. rewrite lookup_total_insert. destruct (decide (i < len b)).
      * rewrite at_app_l, <- Hcells by lia. rewrite He. cyc; try lia; first [done|f_equal; lia].
      * rewrite at_app_r by lia. rewrite He. replace (i - _) with 0 by lia. cyc; try lia; first [done|f_equal; lia].
Qed.

Lemma add_head_ok b q c :
  cb_inv b q -> len b < maxlen b -> cb_inv (cirbuf_add_head b c) (c :: q).
Proof.
  intros [Hm Hs [Hl Hle] He Hcells] Hfull. unfold cirbuf_add_head, cirbuf_add_head_, CIRBUF_IS_EMPTY.
  destruct (Z.eqb_spec (len b) 0) as [E|E]; cbn.
  - split; cbn; rewrite ?u32_small by lia; try done; try lia.
    + rewrite He, E. done.
    + intros i Hi. assert (i = 0) as -> by lia. rewrite Z.add_0_r, Z.mod_small by lia.
      by rewrite lookup_total_insert_eq.
  - rewrite (u32_small (start b + (maxlen b - 1))) by lia.
    split; cbn; rewrite ?(u32_small (len b + 1)) by lia; try done; try lia.
    + apply Z.mod_pos_bound. lia.
    + rewrite He. cyc; lia.
    + intros i Hi. rewrite lookup_total_insert.
      destruct (decide (i = 0)) as [->|Hi0].
      * cyc; try lia; first [done|f_equal; lia].
      * replace (Z.to_nat i) with (S (Z.to_nat (i - 1))) by lia. cbn. rewrite <- Hcells by lia.
        cyc; try lia; first [done|f_equal; lia].
Qed.

(** ** Deletion *)

Definition del_post (b : cirbuf) (n : Z) (q' : list Z) (res : option cirbuf * Z) : Prop :=
  if decide (0 < n <= len b)
  then snd res = 0 /\ exists b', fst res = Some b' /\ cb_inv b' q'
  else res = (Some b, - EINVAL).

Lemma del_buf_head_ok b q n :
  cb_inv b q -> 0 <= n < 2 ^ 32 ->
  del_post b n (drop (Z.to_nat n) q) (cirbuf_del_buf_head (Some b) n).
Proof.
  intros [Hm Hs [Hl Hle] He Hcells] Hn. unfold cirbuf_del_buf_head, del_post, CIRBUF_GET_LEN.
  case_decide as Hfit; destruct (Z.eqb_spec n 0), (Z.ltb_spec (len b) n);
    try lia; try done; cbn [orb]. split; [done|].
  eexists. split; [done|]. unfold CIRBUF_IS_EMPTY. cbn. rewrite (u32_small (len b - n)) by lia.
  assert (Hq : Z.of_nat (length (drop (Z.to_nat n) q)) = len b - n) by (rewrite length_drop; lia).
  destruct (Z.eqb_spec (len b - n) 0) as [E|E]; rewrite ?(u32_small (start b + n)),
    ?(u32_small (start b + (n - 1))) by lia; split; cbn; try done; try lia.
  - apply Z.mod_pos_bound. lia.
  - rewrite He. cyc; lia.
  - apply Z.mod_pos_bound. lia.
  - rewrite He. cyc; lia.
  - intros i Hi. rewrite at_drop, <- Hcells by lia. f_equal.
    cyc; lia.
Qed.

Lemma del_buf_tail_ok b q n :
  cb_inv b q -> 0 <= n < 2 ^ 32 ->
  del_post b n (take (Z.to_nat (len b - n)) q) (cirbuf_del_buf_tail (Some b) n).
Proof.
  intros [Hm Hs [Hl Hle] He Hcells] Hn. unfold cirbuf_del_buf_tail, del_post, CIRBUF_GET_LEN.
  case_decide as Hfit; destruct (Z.eqb_spec n 0), (Z.ltb_spec (len b) n);
    try lia; try done; cbn [orb]. split; [done|].
  assert (Hend : 0 <= end_ b < maxlen b) by (rewrite He; apply Z.mod_pos_bound; lia).
  eexists. split; [done|]. unfold CIRBUF_IS_EMPTY. cbn. rewrite (u32_small (len b - n)) by lia.
  assert (Hq : Z.of_nat (length (take (Z.to_nat (len b - n)) q)) = len b - n)
    by (rewrite length_take; lia).
  destruct (Z.eqb_spec (len b - n) 0) as [E|E];
    rewrite ?(u32_small (end_ b + (maxlen b - n + 1))), ?(u32_small (end_ b + (maxlen b - n))) by lia;
    split; cbn; try done; try lia.
  - rewrite He. cyc; lia.
  - rewrite He. cyc; lia.
  - intros i Hi. by rewrite at_take, Hcells by lia.
Qed.

Lemma del_head_ok b x q : cb_inv b (x :: q) -> cb_inv (cirbuf_del_head b) q.
Proof.
  intros HI. pose proof (cb_len _ _ HI) as [Hl _]. cbn in Hl.
  pose proof (del_buf_head_ok b (x :: q) 1 HI ltac:(lia)) as H. unfold del_post in H.
  rewrite decide_True in H by lia. destruct H as (_&b'&E&HI'). cbn in HI'.
  unfold cirbuf_del_buf_head, CIRBUF_GET_LEN in E.
  destruct (Z.ltb_spec (len b) 1); [lia|]. cbn in E. injection E as <-.
  unfold cirbuf_del_head, cirbuf_del_head_. destruct (CIRBUF_IS_EMPTY _) eqn:Em; cbn; [|done].
  cbn in HI'. rewrite Z.add_0_r, (u32_small (start b)), Z.mod_small in HI'; [by destruct b| |].
  - apply HI.
  - pose proof (cb_start _ _ HI). pose proof (cb_max _ _ HI). lia.
Qed.

Lemma del_tail_ok b q x : cb_inv b (q ++ [x]) -> cb_inv (cirbuf_del_tail b) q.
Proof.
  intros HI. pose proof (cb_len _ _ HI) as [Hl _]. rewrite length_app in Hl. cbn in Hl.
  pose proof (del_buf_tail_ok b (q ++ [x]) 1 HI ltac:(lia)) as H. unfold del_post in H.
  rewrite decide_True in H by lia. destruct H as (_&b'&E&HI').
  rewrite take_app_le, take_ge in HI' by lia.
  unfold cirbuf_del_buf_tail, CIRBUF_GET_LEN in E.
  destruct (Z.ltb_spec (len b) 1); [lia|]. cbn [orb Z.eqb fst] in E. injection E as <-.
  unfold cirbuf_del_tail, cirbuf_del_tail_. destruct (CIRBUF_IS_EMPTY _) eqn:Em; cbn; [|done].
  cbn in HI'. destruct HI as [Hm Hs [_ Hle] He _].
  unfold CIRBUF_IS_EMPTY in Em. cbn in Em. apply Z.eqb_eq in Em. rewrite u32_small in Em by lia.
  replace (u32 (end_ b + (maxlen b - 1 + 1)) mod maxlen b) with (end_ b) in HI'; [by destruct b|].
  assert (0 <= end_ b < maxlen b) by (rewrite He; apply Z.mod_pos_bound; lia).
  rewrite u32_small by lia. cyc; lia.
Qed.

(** ** Reading *)

Definition get_post (c : gmap Z Z) (n : Z) (f : Z -> Z) (res : option (gmap Z Z) * Z) : Prop :=
  snd res = n /\ exists c', fst res = Some c' /\
  forall i, c' !!! i = if decide (0 <= i < n) then f i else c !!! i.

Lemma get_buf_head_ok b q c size :
  cb_inv b q -> 0 <= size ->
  get_post c (Z.min size (len b)) (fun i => q !!! Z.to_nat i)
    (cirbuf_get_buf_head (Some b) (Some c) size).
Proof.
  intros HI Hsize. unfold cirbuf_get_buf_head, get_post, CIRBUF_GET_LEN.
  replace (if size <? len b then size else len b) with (Z.min size (len b))
    by (destruct (Z.ltb_spec size (len b)); lia).
  set (n := Z.min size (len b)) in *.
  pose proof HI as [Hm Hs [Hl Hle] He _]. destruct (Z.eqb_spec n 0) as [->|Hn].
  { split; [done|]. exists c. split; [done|]. intros i. by rewrite decide_False by lia. }
  split; [apply i32_small; lia|]. eexists. split; [done|]. intros i. unfold cells.
  assert (Hcase : (end_ b = start b + len b - 1 /\ start b + len b <= maxlen b) \/
    (end_ b = start b + len b - 1 - maxlen b /\ maxlen b < start b + len b)) by (cyc; lia).
  destruct (Z.leb_spec (start b) (end_ b)), (Z.leb_spec n (maxlen b - start b)); try lia;
    rewrite !memcpy_cells by lia; repeat case_decide; try lia; try done.
  1,2: rewrite (cb_read_lo b q) by (done || lia); do 2 f_equal; lia.
  - rewrite (cb_read_hi b q) by (done || lia); do 2 f_equal; lia.
  - rewrite (cb_read_lo b q) by (done || lia); do 2 f_equal; lia.
Qed.

Lemma get_buf_tail_ok b q c size :
  cb_inv b q -> 0 <= size ->
  start b <= end_ b \/ len b <= size \/ size <= end_ b + 1 ->
  get_post c (Z.min size (len b)) (fun i => q !!! Z.to_nat (len b - Z.min size (len b) + i))
    (cirbuf_get_buf_tail (Some b) (Some c) size).
Proof.
  intros HI Hsize Hok. unfold cirbuf_get_buf_tail, get_post, CIRBUF_GET_LEN.
  replace (if size <? len b then size else len b) with (Z.min size (len b))
    by (destruct (Z.ltb_spec size (len b)); lia).
  set (n := Z.min size (len b)) in *.
  pose proof HI as [Hm Hs [Hl Hle] He _]. destruct (Z.eqb_spec n 0) as [->|Hn].
  { split; [done|]. exists c. split; [done|]. intros i. by rewrite decide_False by lia. }
  split; [apply i32_small; lia|]. eexists. split; [done|]. intros i. unfold cells.
  assert (Hcase : (end_ b = start b + len b - 1 /\ start b + len b <= maxlen b) \/
    (end_ b = start b + len b - 1 - maxlen b /\ maxlen b < start b + len b)) by (cyc; lia).
  destruct (Z.leb_spec (start b) (end_ b)), (Z.leb_spec n (end_ b + 1)); try lia;
    rewrite !memcpy_cells by lia; repeat case_decide; try lia; try done.
  1,3: rewrite (cb_read_lo b q) by (done || lia); do 2 f_equal; lia.
  all: rewrite (cb_read_hi b q) by (done || lia); do 2 f_equal; lia.
Qed.

(** ** Shifting and aligning *)

(** A loop that moves each cell of a cycle [c 0, c 1, ...] one place back. *)
Lemma rotate_loop (c : Z -> Z) m n (t0 : gmap Z Z) body :
  (forall i j, 0 <= i < m -> 0 <= j < m -> c i = c j -> i = j) -> 0 <= n <= m ->
  (forall k t, 0 <= k < n -> body k t = <[c k := t !!! c (k + 1)]> t) ->
  forall o, 0 <= o < m ->
    (o < n -> o < m - 1 -> for_range 0 n body t0 !!! c o = t0 !!! c (o + 1)) /\
    (n <= o -> for_range 0 n body t0 !!! c o = t0 !!! c o).
Proof.
  intros Hinj Hn Hb.
  pose proof (for_range_inv (fun k t => forall o, 0 <= o < m ->
    (o < k -> o < m - 1 -> t !!! c o = t0 !!! c (o + 1)) /\
    (k <= o -> t !!! c o = t0 !!! c o)) 0 n body t0) as Hloop.
  cbv beta in Hloop. apply Hloop; [lia|intros o Ho; split; [lia|done]|].
  clear Hloop. intros k t Hk IH o Ho. rewrite Hb by done.
  destruct (decide (o = k)) as [->|Hne].
  - rewrite lookup_total_insert_eq. split; [intros _ Hlt|lia].
    destruct (IH (k + 1) ltac:(lia)) as [_ ->]; [done|lia].
  - rewrite lookup_total_insert_ne by (intros E; apply Hne; symmetry; apply Hinj; lia || done).
    destruct (IH o Ho) as [H1 H2]. split; [intros; apply H1; lia|intros; apply H2; lia].
Qed.

Lemma shift_left_ok b q :
  cb_inv b q ->
  cb_inv (cirbuf_shift_left b) q /\ maxlen (cirbuf_shift_left b) = maxlen b /\
  start (cirbuf_shift_left b) = (start b + maxlen b - 1) mod maxlen b.
Proof.
  intros [Hm Hs [Hl Hle] He Hcells]. unfold cirbuf_shift_left.
  assert (Hend : 0 <= end_ b < maxlen b) by (rewrite He; apply Z.mod_pos_bound; lia).
  rewrite (u32_small (start b - 1 + maxlen b)), (u32_small (start b + (maxlen b - 1))),
    (u32_small (end_ b + (maxlen b - 1))) by lia.
  pose proof (rotate_loop (fun o => (start b + o) mod maxlen b) (maxlen b) (len b) (buf b)
    (fun i t => <[u32 (start b + i) mod maxlen b :=
       t !!! (u32 (start b + i + 1) mod maxlen b)]> t)) as Hrot.
  cbv beta in Hrot. set (t := for_range _ _ _ _) in *.
  assert (Hr : forall o, 0 <= o < maxlen b ->
    (o < len b -> o < maxlen b - 1 ->
       t !!! ((start b + o) mod maxlen b) = buf b !!! ((start b + (o + 1)) mod maxlen b)) /\
    (len b <= o -> t !!! ((start b + o) mod maxlen b) = buf b !!! ((start b + o) mod maxlen b))).
  { apply Hrot; [intros i j Hi Hj; clear Hrot Hcells t; cyc; lia|lia|].
    intros k u Hk. by rewrite !u32_small, Z.add_assoc by lia. }
  clear Hrot. split_and!; [|done|cbn; f_equal; lia].
  split; cbn; try done; try lia.
  - apply Z.mod_pos_bound. lia.
  - rewrite He. clear Hr Hcells t. cyc; lia.
  - intros i Hi. rewrite lookup_total_insert. destruct (decide (i = 0)) as [->|Hi0].
    + rewrite decide_True by (clear Hr Hcells t; cyc; lia).
      rewrite <- (Hcells 0) by lia. f_equal. clear Hr Hcells t. cyc; lia.
    + rewrite decide_False by (clear Hr Hcells t; cyc; lia).
      destruct (Hr (i - 1) ltac:(lia)) as [Hr1 _]. rewrite <- Hcells by lia.
      replace ((_ + i) mod maxlen b) with ((start b + (i - 1)) mod maxlen b)
        by (clear Hr Hr1 Hcells t; cyc; lia).
      rewrite Hr1 by lia. do 2 f_equal. lia.
Qed.

Lemma shift_right_ok b q :
  cb_inv b q ->
  cb_inv (cirbuf_shift_right b) q /\ maxlen (cirbuf_shift_right b) = maxlen b /\
  start (cirbuf_shift_right b) = (start b + 1) mod maxlen b.
Proof.
  intros [Hm Hs [Hl Hle] He Hcells]. unfold cirbuf_shift_right.
  assert (Hend : 0 <= end_ b < maxlen b) by (rewrite He; apply Z.mod_pos_bound; lia).
  rewrite (u32_small (start b + 1)), (u32_small (end_ b + 1)) by lia.
  pose proof (rotate_loop (fun o => (end_ b + maxlen b - o) mod maxlen b) (maxlen b) (len b) (buf b)
    (fun i t => <[u32 (end_ b + maxlen b - i) mod maxlen b :=
       t !!! (u32 (end_ b + maxlen b - i - 1) mod maxlen b)]> t)) as Hrot.
  cbv beta in Hrot. set (t := for_range _ _ _ _) in *.
  assert (Hr : forall o, 0 <= o < maxlen b -> o < len b -> o < maxlen b - 1 ->
       t !!! ((end_ b + maxlen b - o) mod maxlen b) =
       buf b !!! ((end_ b + maxlen b - (o + 1)) mod maxlen b)).
  { apply Hrot; [intros i j Hi Hj; clear Hrot Hcells t He; cyc; lia|lia|].
    intros k u Hk. rewrite !u32_small by lia. do 3 f_equal. lia. }
  clear Hrot. split_and!; [|done|done]. split; cbn; try done; try lia.
  - apply Z.mod_pos_bound. lia.
  - rewrite He. clear Hr Hcells t. cyc; lia.
  - intros i Hi. rewrite lookup_total_insert. rewrite <- Hcells by lia.
    destruct (decide (i = len b - 1)) as [->|Hi0].
    + rewrite decide_True by (clear Hr Hcells t; cyc; lia).
      f_equal. clear Hr Hcells t. cyc; lia.
    + rewrite decide_False by (clear Hr Hcells t; cyc; lia).
      specialize (Hr (len b - 2 - i) ltac:(lia) ltac:(lia) ltac:(lia)).
      replace ((_ + i) mod maxlen b) with ((end_ b + maxlen b - (len b - 2 - i)) mod maxlen b)
        by (clear Hr Hcells t; cyc; lia).
      rewrite Hr. f_equal. clear Hr Hcells t. cyc; lia.
Qed.

(** A loop of shifts reaches its target within the distance [d]. *)
Lemma shift_until_ok (tgt : cirbuf -> bool) shift (d : cirbuf -> Z) q fuel b m :
  (forall b, cb_inv b q -> maxlen b = m -> tgt b = false ->
     cb_inv (shift b) q /\ maxlen (shift b) = m /\ 0 <= d (shift b) < d b) ->
  cb_inv b q -> maxlen b = m -> d b <= Z.of_nat fuel -> 0 <= d b ->
  exists b', shift_until fuel tgt shift b = Some b' /\ cb_inv b' q /\ maxlen b' = m /\ tgt b' = true.
Proof.
  intros Hs. revert b. induction fuel as [|fuel IH]; intros b HI Hm Hd H0; cbn [shift_until];
    (destruct (tgt b) eqn:E; [by exists b|]); destruct (Hs b HI Hm E) as (?&?&?); [lia|].
  apply IH; done || lia.
Qed.

Lemma align_left_ok b q fuel :
  cb_inv b q -> maxlen b <= Z.of_nat fuel ->
  exists b', cirbuf_align_left fuel (Some b) = Some (Some b', 0) /\ cb_inv b' q /\ start b' = 0.
Proof.
  intros HI Hf. unfold cirbuf_align_left. pose proof (cb_start _ _ HI). pose proof (cb_max _ _ HI).
  assert (Hex : exists b', shift_until fuel (fun b => start b =? 0)
      (if start b <? maxlen b / 2 then cirbuf_shift_left else cirbuf_shift_right) b = Some b' /\
      cb_inv b' q /\ maxlen b' = maxlen b /\ (start b' =? 0) = true).
  { case_match.
    - apply (shift_until_ok _ _ start); [|done|done|lia|lia].
      intros b1 HI1 Hm E. destruct (shift_left_ok b1 q HI1) as (?&?&->).
      pose proof (cb_start _ _ HI1). split_and!; [done|congruence|..];
        apply Z.eqb_neq in E; cyc; lia.
    - apply (shift_until_ok _ _ (fun b => (maxlen b - start b) mod maxlen b));
        [|done|done| |apply Z.mod_pos_bound; lia].
      2: { pose proof (Z.mod_pos_bound (maxlen b - start b) (maxlen b)). lia. }
      intros b1 HI1 Hm E. destruct (shift_right_ok b1 q HI1) as (?&->&->).
      pose proof (cb_start _ _ HI1). apply Z.eqb_neq in E.
      split_and!; [done|done|apply Z.mod_pos_bound; lia|]. cyc; lia. }
  destruct Hex as (b'&->&HI'&_&E). exists b'. split_and!; [done|done|lia].
Qed.

Lemma align_right_ok b q fuel :
  cb_inv b q -> maxlen b <= Z.of_nat fuel -> maxlen b / 2 <= start b ->
  exists b', cirbuf_align_right fuel (Some b) = Some (Some b', 0) /\ cb_inv b' q /\
    end_ b' = maxlen b' - 1.
Proof.
  intros HI Hf Hs. unfold cirbuf_align_right. pose proof (cb_max _ _ HI).
  destruct (Z.leb_spec (maxlen b / 2) (start b)); [|lia].
  destruct (shift_until_ok (fun b => end_ b =? maxlen b - 1) cirbuf_shift_left
    (fun b => (end_ b + 1) mod maxlen b) q fuel b (maxlen b)) as (b'&->&HI'&_&E).
  - intros b1 HI1 Hm E. destruct (shift_left_ok b1 q HI1) as (?&Hm2&Es).
    apply Z.eqb_neq in E. split_and!; [done|congruence|apply Z.mod_pos_bound; lia|].
    unfold cirbuf_shift_left at 1 2. cbn. destruct HI1 as [? ? ? He _].
    assert (0 <= end_ b1 < maxlen b1) by (rewrite He; apply Z.mod_pos_bound; lia).
    clear He Es Hm2. rewrite u32_small by lia. cyc; lia.
  - done.
  - done.
  - pose proof (Z.mod_pos_bound (end_ b + 1) (maxlen b)). lia.
  - apply Z.mod_pos_bound. lia.
  - exists b'. split_and!; [done|done|lia].
Qed.
