(* ===== verification/CirbufTheorems.v ===== *)
(** * The circular buffer: the theorems *)

From S2P Require Import Prelude Cirbuf CirbufProofs.

(** ** Sequences of calls *)

Inductive cb_op :=
| AddBufHead (c : list Z)
| AddBufTail (c : list Z)
| AddHead (ch : Z)
| AddTail (ch : Z)
| DelBufHead (n : Z)
| DelBufTail (n : Z)
| DelHead
| DelTail
| AlignLeft
| GetBufHead (size : Z)
| GetBufTail (size : Z).

(** The call on the buffer: return value and characters read. *)
Definition cb_step (b : cirbuf) (op : cb_op) : option (cirbuf * (Z * list Z)) :=
  let on res := let '(b', rc) := res in Some (default b b', (rc, [])) in
  match op with
  | AddBufHead c => on (cirbuf_add_buf_head (Some b) (Some c) (Z.of_nat (length c)))
  | AddBufTail c => on (cirbuf_add_buf_tail (Some b) (Some c) (Z.of_nat (length c)))
  | AddHead ch => on (cirbuf_add_head_safe (Some b) ch)
  | AddTail ch => on (cirbuf_add_tail_safe (Some b) ch)
  | DelBufHead n => on (cirbuf_del_buf_head (Some b) n)
  | DelBufTail n => on (cirbuf_del_buf_tail (Some b) n)
  | DelHead => on (cirbuf_del_head_safe (Some b))
  | DelTail => on (cirbuf_del_tail_safe (Some b))
  | AlignLeft => cirbuf_align_left (Z.to_nat (maxlen b)) (Some b) ≫= on
  | GetBufHead size =>
      let '(c, rc) := cirbuf_get_buf_head (Some b) (Some empty) size in
      Some (b, (rc, table_list (default empty c) rc))
  | GetBufTail size =>
      let '(c, rc) := cirbuf_get_buf_tail (Some b) (Some empty) size in
      Some (b, (rc, table_list (default empty c) rc))
  end.

(** The same operation on the sequence of characters, of capacity [m]. *)
Definition list_step (m : Z) (q : list Z) (op : cb_op) : list Z * (Z * list Z) :=
  let len := Z.of_nat (length q) in
  let fail := (q, (- EINVAL, [])) in
  match op with
  | AddBufHead c =>
      let n := Z.of_nat (length c) in
      if decide (0 < n <= m - len) then (c ++ q, (n, [])) else fail
  | AddBufTail c =>
      let n := Z.of_nat (length c) in
      if decide (0 < n <= m - len) then (q ++ c, (n, [])) else fail
  | AddHead ch => if decide (len < m) then (ch :: q, (0, [])) else fail
  | AddTail ch => if decide (len < m) then (q ++ [ch], (0, [])) else fail
  | DelBufHead n => if decide (0 < n <= len) then (drop (Z.to_nat n) q, (0, [])) else fail
  | DelBufTail n => if decide (0 < n <= len) then (take (Z.to_nat (len - n)) q, (0, [])) else fail
  | DelHead => if decide (q = []) then fail else (tail q, (0, []))
  | DelTail => if decide (q = []) then fail else (removelast q, (0, []))
  | AlignLeft => (q, (0, []))
  | GetBufHead size => (q, (Z.min size len, take (Z.to_nat size) q))
  | GetBufTail size => (q, (Z.min size len, drop (Z.to_nat (len - size)) q))
  end.

Fixpoint cb_run (b : cirbuf) (ops : list cb_op) : option (cirbuf * list (Z * list Z)) :=
  match ops with
  | [] => Some (b, [])
  | op :: rest =>
      '(b1, o) ← cb_step b op;
      '(b2, os) ← cb_run b1 rest;
      Some (b2, o :: os)
  end.

Fixpoint list_run (m : Z) (q : list Z) (ops : list cb_op) : list Z * list (Z * list Z) :=
  match ops with
  | [] => (q, [])
  | op :: rest =>
      let '(q1, o) := list_step m q op in
      let '(q2, os) := list_run m q1 rest in (q2, o :: os)
  end.

(** The arguments fit in [unsigned int]; [cirbuf_get_buf_tail] is asked for at
    least the capacity [m], so for everything
    (see [cirbuf_get_buf_tail_overflow]). *)
Definition cb_args_ok (m : Z) (op : cb_op) : Prop :=
  match op with
  | AddBufHead c | AddBufTail c => Z.of_nat (length c) < 2 ^ 32
  | DelBufHead n | DelBufTail n | GetBufHead n => 0 <= n < 2 ^ 32
  | GetBufTail n => m <= n < 2 ^ 32
  | _ => True
  end.

Lemma shift_until_maxlen fuel tgt shift b b' :
  (forall b, maxlen (shift b) = maxlen b) ->
  shift_until fuel tgt shift b = Some b' -> maxlen b' = maxlen b.
Proof.
  intros Hs. revert b. induction fuel as [|fuel IH]; intros b; cbn [shift_until];
    (destruct (tgt b); [by intros [= <-]|]); [done|]. intros E. apply IH in E. by rewrite Hs in E.
Qed.

(** No operation changes the size of the buffer. *)
Lemma cb_step_maxlen b op b' o : cb_step b op = Some (b', o) -> maxlen b' = maxlen b.
Proof.
  destruct op; cbn [cb_step].
  9: { unfold cirbuf_align_left. cbn [option_bind mbind].
       destruct (shift_until _ _ _ b) as [b1|] eqn:E; [|done]. cbn. intros [= <- _].
       eapply shift_until_maxlen; [|done]. intros b2. by case_match. }
  9: { by destruct (cirbuf_get_buf_head _ _ _); intros [= <- _]. }
  9: { by destruct (cirbuf_get_buf_tail _ _ _); intros [= <- _]. }
  all: unfold cirbuf_add_buf_head, cirbuf_add_buf_tail, cirbuf_add_head_safe, cirbuf_add_tail_safe,
    cirbuf_del_buf_head, cirbuf_del_buf_tail, cirbuf_del_head_safe, cirbuf_del_tail_safe,
    cirbuf_add_head_, cirbuf_add_tail_, cirbuf_del_head_, cirbuf_del_tail_;
    intros; repeat case_match; simplify_eq; done.
Qed.

Definition cb_simulates (b : cirbuf) (q : list Z) (op : cb_op) : Prop :=
  exists b', cb_step b op = Some (b', snd (list_step (maxlen b) q op)) /\
    cb_inv b' (fst (list_step (maxlen b) q op)).

Lemma add_step_ok b q op :
  cb_inv b q -> cb_args_ok (maxlen b) op ->
  match op with AddBufHead _ | AddBufTail _ | AddHead _ | AddTail _ => cb_simulates b q op
  | _ => True end.
Proof.
  intros HI Hop. pose proof (cb_len _ _ HI) as [Hl Hle].
  destruct op as [c|c|ch|ch| | | | | | |]; try done; unfold cb_simulates; cbn [cb_args_ok] in Hop;
    cbn [cb_step list_step];    rewrite <- Hl.
  - pose proof (add_buf_head_ok b q c (Z.of_nat (length c)) HI ltac:(lia) (Z.le_refl _)) as H.
    unfold add_head_post in H. case_decide; [|rewrite H; by exists b].
    destruct (cirbuf_add_buf_head _ _ _) as [o rc]. destruct H as (E&b'&E'&HI').
    cbn in E, E'. subst. cbn. exists b'. rewrite Nat2Z.id, take_ge in HI' by lia. done.
  - pose proof (add_buf_tail_ok b q c (Z.of_nat (length c)) HI ltac:(lia) (Z.le_refl _)) as H.
    unfold add_tail_post in H. case_decide; [|rewrite H; by exists b].
    destruct (cirbuf_add_buf_tail _ _ _) as [o rc]. destruct H as (E&b'&E'&HI').
    cbn in E, E'. subst. cbn. exists b'. rewrite Nat2Z.id, take_ge in HI' by lia. done.
  - unfold cirbuf_add_head_safe, cirbuf_add_tail_safe, CIRBUF_IS_FULL.
    destruct (Z.eqb_spec (maxlen b) (len b)); case_decide; try lia; cbn.
    + by exists b.
    + eexists. split; [done|]. by apply add_head_ok.
  - unfold cirbuf_add_head_safe, cirbuf_add_tail_safe, CIRBUF_IS_FULL.
    destruct (Z.eqb_spec (maxlen b) (len b)); case_decide; try lia; cbn.
    + by exists b.
    + eexists. split; [done|]. by apply add_tail_ok.
Qed.

Lemma del_step_ok b q op :
  cb_inv b q -> cb_args_ok (maxlen b) op ->
  match op with DelBufHead _ | DelBufTail _ | DelHead | DelTail => cb_simulates b q op
  | _ => True end.
Proof.
  intros HI Hop. pose proof (cb_len _ _ HI) as [Hl Hle].
  destruct op as [| | | |n|n| | | | |]; try done; unfold cb_simulates; cbn [cb_args_ok] in Hop;
    cbn [cb_step list_step];    rewrite <- ?Hl.
  - pose proof (del_buf_head_ok b q n HI Hop) as H.
    unfold del_post in H. case_decide; [|rewrite H; by exists b].
    destruct (cirbuf_del_buf_head _ _) as [o rc]. destruct H as (E&b'&E'&HI').
    cbn in E, E'. subst. cbn. by exists b'.
  - pose proof (del_buf_tail_ok b q n HI Hop) as H.
    unfold del_post in H. case_decide; [|rewrite H; by exists b].
    destruct (cirbuf_del_buf_tail _ _) as [o rc]. destruct H as (E&b'&E'&HI').
    cbn in E, E'. subst. cbn. by exists b'.
  - unfold cirbuf_del_head_safe, cirbuf_del_tail_safe, CIRBUF_IS_EMPTY.
    destruct (Z.eqb_spec (len b) 0), q as [|x q]; cbn in Hl; try lia; cbn.
    + by exists b.
    + eexists. split; [done|]. by apply (del_head_ok b x).
  - unfold cirbuf_del_head_safe, cirbuf_del_tail_safe, CIRBUF_IS_EMPTY.
    destruct (Z.eqb_spec (len b) 0).
    + destruct q; [by exists b|cbn in Hl; lia].
    + destruct q as [|x q _] using rev_ind; [cbn in Hl; lia|].
      rewrite decide_False by (by destruct q). cbn. rewrite removelast_last.
      eexists. split; [done|]. by apply (del_tail_ok b q x).
Qed.

Lemma cb_step_ok b q op : cb_inv b q -> cb_args_ok (maxlen b) op -> cb_simulates b q op.
Proof.
  intros HI Hop. pose proof (add_step_ok b q op HI Hop). pose proof (del_step_ok b q op HI Hop).
  pose proof (cb_len _ _ HI) as [Hl _]. pose proof (cb_max _ _ HI).
  destruct op as [| | | | | | | | |size|size]; try done; unfold cb_simulates; cbn [cb_step list_step].
  - destruct (align_left_ok b q (Z.to_nat (maxlen b)) HI ltac:(lia)) as (b'&->&HI'&_). by exists b'.
  - destruct (get_buf_head_ok b q empty size HI) as (Erc&c'&Ec&Hc); [apply Hop|].
    destruct (cirbuf_get_buf_head _ _ _) as [o rc]. cbn in Erc, Ec. subst o rc. cbn.
    exists b. split; [|done]. rewrite <- Hl. do 3 f_equal.
    cbn in Hop. rewrite (table_list_take c' q) by (intros; rewrite ?Hc, ?decide_True by lia; done || lia).
    destruct (decide (size <= len b)).
    + do 2 f_equal. lia.
    + rewrite !take_ge by lia. done.
  - cbn in Hop. pose proof (cb_len _ _ HI) as [_ Hle].
    destruct (get_buf_tail_ok b q empty size HI) as (Erc&c'&Ec&Hc); [lia|right; left; lia|].
    destruct (cirbuf_get_buf_tail _ _ _) as [o rc]. cbn in Erc, Ec. subst o rc. cbn.
    exists b. split; [|done]. rewrite <- Hl. do 3 f_equal. rewrite Z.min_r in * by lia.
    rewrite (table_list_take c' q)
      by (intros; rewrite ?Hc, ?decide_True by lia; try (f_equal; f_equal); done || lia).
    rewrite take_ge by lia. replace (Z.to_nat (len b - size)) with O by lia. done.
Qed.

Lemma cb_run_ok ops b q :
  cb_inv b q -> Forall (cb_args_ok (maxlen b)) ops ->
  exists b', cb_run b ops = Some (b', snd (list_run (maxlen b) q ops)) /\
    cb_inv b' (fst (list_run (maxlen b) q ops)).
Proof.
  revert b q. induction ops as [|op ops IH]; intros b q HI Hok; [by exists b|].
  apply Forall_cons in Hok as [Hop Hok].
  destruct (cb_step_ok b q op HI Hop) as (b1&E1&HI1). pose proof (cb_step_maxlen _ _ _ _ E1) as Em.
  destruct (IH b1 _ HI1 ltac:(by rewrite Em)) as (b2&E2&HI2). rewrite Em in *. cbn [cb_run list_run].
  rewrite E1. cbn. rewrite E2. destruct (list_step (maxlen b) q op) as [q1 o1]. cbn in *.
  destruct (list_run (maxlen b) q1 ops) as [q2 os]. by exists b2.
Qed.

Lemma cb_init_ok c mem s m :
  0 < m < 2 ^ 31 -> 0 <= s < m ->
  exists b, cirbuf_init (Some c) (Some mem) s m = (Some b, 0) /\ maxlen b = m /\ cb_inv b [].
Proof.
  intros Hm Hs. eexists. split_and!; [done|done|]. split; cbn; try done; try lia.
  rewrite Z.add_0_r. symmetry. by apply Z.mod_small.
Qed.

(** ** The theorems *)

(** C26: On an initialised circular buffer every sequence of additions and
    deletions at both ends, of single characters and of buffers, of left
    alignments and of reads terminates and gives the return values and the
    characters of a sequence with the capacity of the buffer.  The reads are
    those of any number of characters at the head, and of everything by
    [cirbuf_get_buf_tail], which is wrong for a part of the data that wraps
    around ([cirbuf_get_correct], [cirbuf_get_buf_tail_overflow]); right
    alignment is the subject of [cirbuf_align_correct]. *)
Theorem cirbuf_refines_list (c : cirbuf) (mem : gmap Z Z) (s m : Z) (ops : list cb_op) :
  0 < m < 2 ^ 31 -> 0 <= s < m -> Forall (cb_args_ok m) ops ->
  exists b b', cirbuf_init (Some c) (Some mem) s m = (Some b, 0) /\
    cb_run b ops = Some (b', snd (list_run m [] ops)) /\ cb_inv b' (fst (list_run m [] ops)).
Proof.
  intros Hm Hs Hops. destruct (cb_init_ok c mem s m Hm Hs) as (b&E&Em&HI).
  destruct (cb_run_ok ops b [] HI ltac:(by rewrite Em)) as (b'&E'&HI'). rewrite Em in *.
  by exists b, b'.
Qed.

Definition demo_cb_ops : list cb_op :=
  [AddBufTail [1; 2; 3]; AddBufHead [10; 11]; AddTail 4; DelHead; AlignLeft; DelBufTail 2;
   GetBufHead 9; GetBufTail 8; AddBufTail [5; 6; 7; 8; 9; 10]].

Lemma cirbuf_refines_list_witness :
  snd (list_run 8 [] demo_cb_ops) =
    [(3, []); (2, []); (0, []); (0, []); (0, []); (0, []); (3, [11; 1; 2]); (3, [11; 1; 2]); (- EINVAL, [])] /\
  exists b b', cirbuf_init (Some (Cirbuf 0 0 0 0 empty)) (Some empty) 6 8 = (Some b, 0) /\
    cb_run b demo_cb_ops = Some (b', snd (list_run 8 [] demo_cb_ops)) /\
    cb_inv b' (fst (list_run 8 [] demo_cb_ops)).
Proof.
  split; [vm_compute; reflexivity|].
  apply (cirbuf_refines_list (Cirbuf 0 0 0 0 empty) empty 6 8 demo_cb_ops); [lia|lia|].
  repeat constructor; cbn; lia.
Defined.

(** C27: [cirbuf_align_left] terminates within [maxlen] shifts, moves the first
    character to index 0 and keeps the contents, for every state of the
    buffer, full and empty included; [cirbuf_align_right] moves the last
    character to the last index when the data starts in the upper half. *)
Theorem cirbuf_align_correct (b : cirbuf) (q : list Z) (fuel : nat) :
  cb_inv b q -> maxlen b <= Z.of_nat fuel ->
  (exists b', cirbuf_align_left fuel (Some b) = Some (Some b', 0) /\ cb_inv b' q /\ start b' = 0) /\
  (maxlen b / 2 <= start b ->
   exists b', cirbuf_align_right fuel (Some b) = Some (Some b', 0) /\ cb_inv b' q /\
     end_ b' = maxlen b' - 1).
Proof.
  intros HI Hf. split; [by apply align_left_ok|]. intros Hs. by apply align_right_ok.
Qed.

(** A buffer of 4 characters that holds [5; 6; 7] from index 2 on. *)
Definition demo_cb : cirbuf := Cirbuf 4 2 0 3 (<[2 := 5]> (<[3 := 6]> (<[0 := 7]> empty))).

Lemma demo_cb_inv : cb_inv demo_cb [5; 6; 7].
Proof.
  split; cbn; try done. intros i Hi. assert (i = 0 \/ i = 1 \/ i = 2) as [->|[->| ->]] by lia; done.
Qed.

Lemma cirbuf_align_correct_witness :
  (exists b', cirbuf_align_left 4 (Some demo_cb) = Some (Some b', 0) /\ cb_inv b' [5; 6; 7] /\
     start b' = 0) /\
  (maxlen demo_cb / 2 <= start demo_cb ->
   exists b', cirbuf_align_right 4 (Some demo_cb) = Some (Some b', 0) /\ cb_inv b' [5; 6; 7] /\
     end_ b' = maxlen b' - 1).
Proof. apply (cirbuf_align_correct demo_cb [5; 6; 7] 4); [apply demo_cb_inv|cbn; lia]. Defined.

(** [cirbuf_align_right] does not do what its documentation says when the
    data starts in the lower half: that branch moves the first character, not
    the last one, to the last index. *)
Theorem cirbuf_align_right_wrong_end :
  exists b q, cb_inv b q /\
    match cirbuf_align_right 100 (Some b) with
    | Some (Some b', 0) => end_ b' <> maxlen b' - 1 /\ start b' = maxlen b' - 1
    | _ => False
    end.
Proof.
  exists (Cirbuf 4 0 1 2 (<[0 := 5]> (<[1 := 6]> empty))), [5; 6]. split.
  - split; cbn; try done. intros i Hi. assert (i = 0 \/ i = 1) as [->| ->] by lia; done.
  - vm_compute. split; [discriminate|reflexivity].
Qed.

(** [cirbuf_get_buf_head] copies the first [min size len] characters to
    the caller's array and nothing else; [cirbuf_get_buf_tail] copies the last
    ones, provided the data does not wrap around, or all of it is asked for,
    or the characters asked for lie before the wrap. *)
Theorem cirbuf_get_correct (b : cirbuf) (q : list Z) (c : gmap Z Z) (size : Z) :
  cb_inv b q -> 0 <= size ->
  get_post c (Z.min size (len b)) (fun i => q !!! Z.to_nat i)
    (cirbuf_get_buf_head (Some b) (Some c) size) /\
  (start b <= end_ b \/ len b <= size \/ size <= end_ b + 1 ->
   get_post c (Z.min size (len b)) (fun i => q !!! Z.to_nat (len b - Z.min size (len b) + i))
     (cirbuf_get_buf_tail (Some b) (Some c) size)).
Proof.
  intros HI Hs. split; [by apply get_buf_head_ok|]. intros Hok. by apply get_buf_tail_ok.
Qed.

Lemma cirbuf_get_correct_witness :
  get_post empty 2 (fun i => [5; 6; 7] !!! Z.to_nat i)
    (cirbuf_get_buf_head (Some demo_cb) (Some empty) 2).
Proof.
  destruct (cirbuf_get_correct demo_cb [5; 6; 7] empty 2) as [H _]; [apply demo_cb_inv|lia|].
  exact H.
Defined.

(** In the remaining case [cirbuf_get_buf_tail] is wrong: asked for the last
    2 of the 3 characters [5; 6; 7] that wrap around after the second one, it
    returns 2, writes the third array place, past the 2 characters the caller
    provides, and leaves the second one unwritten. *)
Theorem cirbuf_get_buf_tail_overflow :
  cb_inv demo_cb [5; 6; 7] /\
  let '(c, n) := cirbuf_get_buf_tail (Some demo_cb) (Some (<[1 := 99]> empty)) 2 in
  n = 2 /\ default empty c !!! 2 = 7 /\ default empty c !!! 1 = 99 /\ default empty c !!! 0 = 6.
Proof. split; [apply demo_cb_inv|]. vm_compute. split_and!; reflexivity. Qed.
