(* ===== verification/Reorder.v ===== *)
(** * The packet reorder buffer: data and operations

    Model of [librte_reorder/rte_reorder.c]: the initialisation of a buffer,
    insertion, the overflow handling, draining and resetting.  An entry of a
    circular buffer is a pointer; the arrays hold the packets that are not
    NULL.  A packet is its address and its sequence number.

    The registry of named buffers ([rte_reorder_create], [rte_reorder_free],
    [rte_reorder_find_existing]) is not part of this file. *)

From S2P Require Import Prelude Bits.

Record rte_mbuf := Mbuf { m_addr : Z; seqn : Z }.

#[export] Instance mbuf_eq_dec : EqDecision rte_mbuf.
Proof. solve_decision. Defined.

(** [struct cir_buffer]. *)
Record cir_buffer := CirBuffer {
  size : Z;
  mask : Z;
  head : Z;
  tail : Z;
  entries : gmap Z rte_mbuf
}.

(** [struct rte_reorder_buffer] without its name. *)
Record rte_reorder_buffer := Reorder {
  min_seqn : Z;
  memsize : Z;
  ready_buf : cir_buffer;
  order_buf : cir_buffer;
  is_initialized : bool
}.

Definition set_head (c : cir_buffer) (x : Z) : cir_buffer :=
  CirBuffer (size c) (mask c) x (tail c) (entries c).
Definition set_tail (c : cir_buffer) (x : Z) : cir_buffer :=
  CirBuffer (size c) (mask c) (head c) x (entries c).
Definition set_entries (c : cir_buffer) (x : gmap Z rte_mbuf) : cir_buffer :=
  CirBuffer (size c) (mask c) (head c) (tail c) x.

Definition set_min_seqn (b : rte_reorder_buffer) (x : Z) : rte_reorder_buffer :=
  Reorder x (memsize b) (ready_buf b) (order_buf b) (is_initialized b).
Definition set_ready (b : rte_reorder_buffer) (c : cir_buffer) : rte_reorder_buffer :=
  Reorder (min_seqn b) (memsize b) c (order_buf b) (is_initialized b).
Definition set_order (b : rte_reorder_buffer) (c : cir_buffer) : rte_reorder_buffer :=
  Reorder (min_seqn b) (memsize b) (ready_buf b) c (is_initialized b).

(** [(x + 1) & mask]. *)
Definition next (c : cir_buffer) (x : Z) : Z := Z.land (u32 (x + 1)) (mask c).

(** ** Initialisation *)

(** [sizeof(struct rte_reorder_buffer)] on x86-64 with 64-byte cache lines. *)
Definition sizeof_reorder_buffer : Z := 256.
Definition sizeof_ptr : Z := 8.

(** The [unsigned int] expression for the memory a buffer needs. *)
Definition reorder_bufsize (n : Z) : Z :=
  u32 (sizeof_reorder_buffer + u32 (2 * n) * sizeof_ptr).

(** The memory handed in is [b] (NULL is [None]); [name] only has to be given.
    The result is the buffer or NULL with the error number. *)
Definition rte_reorder_init (b : option rte_reorder_buffer) (bufsize : Z)
    (name : option string) (n : Z) : rte_reorder_buffer + Z :=
  let min_bufsize := reorder_bufsize n in
  match b with
  | None => inr EINVAL
  | Some _ =>
      if negb (rte_is_power_of_2 n) then inr EINVAL
      else match name with
           | None => inr EINVAL
           | Some _ =>
               if bufsize <? min_bufsize then inr EINVAL
               else
                 let c := CirBuffer n (u32 (n - 1)) 0 0 empty in
                 inl (Reorder 0 bufsize c c false)
           end
  end.

(** ** Overflow handling *)

(** "Move all ready entries that fit to the ready_buf": the inner loop.  The
    counter is [order_head_adv]. *)
Fixpoint fill_ready (fuel : nat) (ord rdy : cir_buffer) (adv : Z) :
    option (cir_buffer * cir_buffer * Z) :=
  match entries ord !! head ord with
  | None => Some (ord, rdy, adv)
  | Some m =>
      match fuel with
      | O => None
      | S fuel' =>
          let rdy1 := set_entries rdy (<[head rdy := m]> (entries rdy)) in
          let ord1 := set_entries ord (delete (head ord) (entries ord)) in
          let ord2 := set_head ord1 (next ord1 (head ord1)) in
          let adv := u32 (adv + 1) in
          if next rdy1 (head rdy1) =? tail rdy1 then Some (ord2, rdy1, adv)
          else fill_ready fuel' ord2 (set_head rdy1 (next rdy1 (head rdy1))) adv
      end
  end.

(** The outer loop. *)
Fixpoint fill_loop (fuel : nat) (n : Z) (ord rdy : cir_buffer) (adv : Z) :
    option (cir_buffer * cir_buffer * Z) :=
  if (adv <? n) && negb (next rdy (head rdy) =? tail rdy) then
    match fuel with
    | O => None
    | S fuel' =>
        let '(ord1, adv1) :=
          match entries ord !! head ord with
          | None => (set_head ord (next ord (head ord)), u32 (adv + 1))
          | Some _ => (ord, adv)
          end in
        '(ord2, rdy2, adv2) ← fill_ready (Z.to_nat (size ord1) + 1) ord1 rdy adv1;
        fill_loop fuel' n ord2 rdy2 adv2
    end
  else Some (ord, rdy, adv).

Definition rte_reorder_fill_overflow (fuel : nat) (b : rte_reorder_buffer) (n : Z) :
    option (rte_reorder_buffer * Z) :=
  '(ord, rdy, adv) ← fill_loop fuel n (order_buf b) (ready_buf b) 0;
  Some (set_min_seqn (set_order (set_ready b rdy) ord) (u32 (min_seqn b + adv)), adv).

(** ** Insert *)

Definition place (b : rte_reorder_buffer) (offset : Z) (m : rte_mbuf) : rte_reorder_buffer :=
  let ord := order_buf b in
  let position := Z.land (u32 (head ord + offset)) (mask ord) in
  set_order b (set_entries ord (<[position := m]> (entries ord))).

(** Result: the buffer, the return value and [rte_errno] when it is set. *)
Definition rte_reorder_insert (fuel : nat) (b : rte_reorder_buffer) (m : rte_mbuf) :
    option (rte_reorder_buffer * Z * option Z) :=
  let b1 := if is_initialized b then b
            else Reorder (seqn m) (memsize b) (ready_buf b) (order_buf b) true in
  let offset := u32 (seqn m - min_seqn b1) in
  let n := size (order_buf b1) in
  if offset <? n then Some (place b1 offset m, 0, None)
  else if offset <? u32 (2 * n) then
    let need := u32 (offset + 1 - n) in
    '(b2, adv) ← rte_reorder_fill_overflow fuel b1 need;
    if adv <? need then Some (b2, -1, Some ENOSPC)
    else
      let offset := u32 (seqn m - min_seqn b2) in
      Some (place b2 offset m, 0, None)
  else Some (b1, -1, Some ERANGE).

(** ** Drain *)

(** The first loop: packets of the ready buffer, newest last in [out]. *)
Fixpoint drain_ready (fuel : nat) (rdy : cir_buffer) (max cnt : Z) (out : list rte_mbuf) :
    option (cir_buffer * Z * list rte_mbuf) :=
  if (cnt <? max) && negb (tail rdy =? head rdy) then
    match fuel, entries rdy !! tail rdy with
    | S fuel', Some m =>
        drain_ready fuel' (set_tail rdy (next rdy (tail rdy))) max (u32 (cnt + 1)) (out ++ [m])
    | _, _ => None
    end
  else Some (rdy, cnt, out).

(** The second loop: consecutive packets of the order buffer. *)
Fixpoint drain_order (fuel : nat) (ord : cir_buffer) (mins max cnt : Z) (out : list rte_mbuf) :
    option (cir_buffer * Z * Z * list rte_mbuf) :=
  if cnt <? max then
    match entries ord !! head ord with
    | None => Some (ord, mins, cnt, out)
    | Some m =>
        match fuel with
        | O => None
        | S fuel' =>
            let ord1 := set_entries ord (delete (head ord) (entries ord)) in
            drain_order fuel' (set_head ord1 (next ord1 (head ord1))) (u32 (mins + 1)) max
              (u32 (cnt + 1)) (out ++ [m])
        end
    end
  else Some (ord, mins, cnt, out).

(** Result: the buffer, the packets written to [mbufs] and their number;
    [None] when the fuel ends or the ready buffer holds a NULL pointer. *)
Definition rte_reorder_drain (fuel : nat) (b : rte_reorder_buffer) (max_mbufs : Z) :
    option (rte_reorder_buffer * list rte_mbuf * Z) :=
  '(rdy, cnt, out) ← drain_ready fuel (ready_buf b) max_mbufs 0 [];
  '(ord, mins, cnt, out) ← drain_order fuel (order_buf b) (min_seqn b) max_mbufs cnt out;
  Some (set_min_seqn (set_order (set_ready b rdy) ord) mins, out, cnt).

(** ** Reset *)

(** The packets passed to [rte_pktmbuf_free], in order. *)
Definition rte_reorder_free_mbufs (b : rte_reorder_buffer) : list rte_mbuf :=
  let at_ c i := match entries c !! Z.of_nat i with Some m => [m] | None => [] end in
  concat (map (fun i => at_ (order_buf b) i ++ at_ (ready_buf b) i)
            (seq 0 (Z.to_nat (size (order_buf b))))).

(** The buffer after the reset and the packets it freed. *)
Definition rte_reorder_reset (b : rte_reorder_buffer) :
    (rte_reorder_buffer + Z) * list rte_mbuf :=
  (rte_reorder_init (Some b) (memsize b) (Some ""%string) (size (order_buf b)),
   rte_reorder_free_mbufs b).
