(* ===== verification/ReorderProofs.v ===== *)
(** * The packet reorder buffer: specification and invariant

    The specification gives every packet in the buffer an unbounded position,
    of which its sequence number is the remainder modulo [2^32]: a window of
    waiting packets from [w_start] on, and a queue of ready packets with
    positions below [w_start].  The two circular buffers represent it. *)

From S2P Require Import Prelude Reorder.

(** ** Specification *)

Record window := Window {
  w_start : Z;
  w_pend : gmap Z rte_mbuf;
  w_ready : list (Z * rte_mbuf)
}.

(** Moving the start of the window, with room for [cap] ready packets: empty
    positions are skipped, packets become ready.  The last list holds the
    packet, at most one, that is lost because the ready queue has just become
    full. *)
Inductive slides (cap : Z) : window -> list (Z * rte_mbuf) -> window -> Prop :=
| sl_stop w : slides cap w [] w
| sl_skip st pend rdy lost w' :
    pend !! st = None -> Z.of_nat (length rdy) < cap ->
    slides cap (Window (st + 1) pend rdy) lost w' -> slides cap (Window st pend rdy) lost w'
| sl_move st pend rdy m lost w' :
    pend !! st = Some m -> Z.of_nat (length rdy) < cap ->
    slides cap (Window (st + 1) (delete st pend) (rdy ++ [(st, m)])) lost w' ->
    slides cap (Window st pend rdy) lost w'
| sl_lose st pend rdy m :
    pend !! st = Some m -> Z.of_nat (length rdy) = cap ->
    slides cap (Window st pend rdy) [(st, m)] (Window (st + 1) (delete st pend) rdy).

(** Storing [m] at position [q], and the packet it replaces. *)
Definition put (q : Z) (m : rte_mbuf) (w : window) : window :=
  Window (w_start w) (<[q := m]> (w_pend w)) (w_ready w).
Definition replaced (q : Z) (w : window) : list (Z * rte_mbuf) :=
  match w_pend w !! q with Some m => [(q, m)] | None => [] end.

(** At most [n] packets with consecutive positions from [st] on. *)
Fixpoint run_from (n : nat) (pend : gmap Z rte_mbuf) (st : Z) : list (Z * rte_mbuf) :=
  match n, pend !! st with
  | S n', Some m => (st, m) :: run_from n' pend (st + 1)
  | _, _ => []
  end.

Definition without (l : list (Z * rte_mbuf)) (pend : gmap Z rte_mbuf) : gmap Z rte_mbuf :=
  foldl (fun g x => delete (fst x) g) pend l.

(** A drain of at most [max] packets: ready ones, then those that follow
    without a gap from the start of the window. *)
Definition drained (max : nat) (w : window) : list (Z * rte_mbuf) * window :=
  let t1 := take max (w_ready w) in
  let t2 := run_from (max - length t1) (w_pend w) (w_start w) in
  (t1 ++ t2, Window (w_start w + Z.of_nat (length t2)) (without t2 (w_pend w)) (drop max (w_ready w))).

(** The packets a window holds. *)
Definition contents (w : window) : list (Z * rte_mbuf) := w_ready w ++ map_to_list (w_pend w).

(** ** Increasing positions *)

(** The positions of [l] increase, from [lo] on and below [hi]. *)
Fixpoint chain (lo : Z) (l : list (Z * rte_mbuf)) (hi : Z) : Prop :=
  match l with
  | [] => lo <= hi
  | (p, m) :: rest => lo <= p /\ seqn m = u32 p /\ chain (p + 1) rest hi
  end.

Lemma chain_le lo l hi : chain lo l hi -> lo <= hi.
Proof.
  revert lo. induction l as [|[p m] l IH]; intros lo; cbn; [done|].
  intros (?&_&H). apply IH in H. lia.
Qed.

Lemma chain_app lo l mid r hi : chain lo l mid -> chain mid r hi -> chain lo (l ++ r) hi.
Proof.
  revert lo. induction l as [|[p m] l IH]; intros lo; cbn.
  - intros Hle Hr. destruct r as [|[p m] r]; cbn in *; [lia|]. destruct Hr as (?&?&?).
    split_and!; done || lia.
  - intros (?&?&?) Hr. split_and!; try done. by apply IH.
Qed.

Lemma chain_split lo l r hi : chain lo (l ++ r) hi -> exists mid, chain lo l mid /\ chain mid r hi.
Proof.
  revert lo. induction l as [|[p m] l IH]; intros lo; cbn.
  - intros H. exists lo. split; [lia|done].
  - intros (?&?&H). destruct (IH _ H) as (mid&?&?). exists mid. done.
Qed.

Lemma chain_weaken lo l hi lo' hi' : chain lo l hi -> lo' <= lo -> hi <= hi' -> chain lo' l hi'.
Proof.
  revert lo lo'. induction l as [|[p m] l IH]; intros lo lo'; cbn; [lia|].
  intros (?&?&?) ? ?. split_and!; [lia|done|]. by eapply IH; [done|lia|lia].
Qed.

Lemma chain_one p m : seqn m = u32 p -> chain p [(p, m)] (p + 1).
Proof. intros. cbn. split_and!; done || lia. Qed.

(** ** Properties of the specification *)

(** Positions delivered so far lie below [lo], the ready ones from there on,
    the waiting ones in the [n] positions from the start of the window on. *)
Record win_ok (n lo : Z) (w : window) : Prop := WinOk {
  wo_ready : chain lo (w_ready w) (w_start w);
  wo_pend : forall q m, w_pend w !! q = Some m -> w_start w <= q < w_start w + n /\ seqn m = u32 q
}.

Lemma slides_trans cap w w1 lost w2 : slides cap w [] w1 -> slides cap w1 lost w2 -> slides cap w lost w2.
Proof.
  remember [] as l0 eqn:E0. induction 1; intros H2; try done.
  - apply sl_skip; [done..|]. by apply IHslides.
  - eapply sl_move; [done..|]. by apply IHslides.
Qed.

Lemma slides_ok cap n lo w lost w' :
  slides cap w lost w' -> win_ok n lo w -> win_ok n lo w' /\ w_start w <= w_start w' /\ w_ready w `prefix_of` w_ready w'.
Proof.
  induction 1 as [w|st pend rdy lost w' Hn Hc _ IH|st pend rdy m lost w' Hm Hc _ IH|st pend rdy m Hm Hc];
    intros [Hch Hp]; cbn [w_start w_pend w_ready] in *; [by split_and!|..].
  - destruct IH as (?&?&?); [split; cbn|split_and!; done || lia].
    + apply (chain_weaken lo _ st); done || lia.
    + intros q m Hq. assert (q <> st) by congruence. destruct (Hp q m Hq). split; [lia|done].
  - destruct (Hp st m Hm) as [_ Hs]. destruct IH as (?&?&?); [split; cbn|split_and!; [done|lia|]].
    + eapply chain_app; [done|by apply chain_one].
    + intros q x Hq. apply lookup_delete_Some in Hq as [Hne Hq]. destruct (Hp q x Hq). split; [lia|done].
    + etransitivity; [|done]. by eexists.
  - split_and!; [split; cbn|lia|done].
    + apply (chain_weaken lo _ st); done || lia.
    + intros q x Hq. apply lookup_delete_Some in Hq as [Hne Hq]. destruct (Hp q x Hq). split; [lia|done].
Qed.

Lemma pend_delete (pend : gmap Z rte_mbuf) q m :
  pend !! q = Some m -> map_to_list pend ≡ₚ (q, m) :: map_to_list (delete q pend).
Proof. intros. by rewrite map_to_list_delete. Qed.

Lemma slides_conserve cap w lost w' : slides cap w lost w' -> contents w ≡ₚ contents w' ++ lost.
Proof.
  induction 1 as [w|st pend rdy lost w' Hn Hc _ IH|st pend rdy m lost w' Hm Hc _ IH|st pend rdy m Hm Hc];
    unfold contents in *; cbn [w_start w_pend w_ready] in *.
  - by rewrite app_nil_r.
  - done.
  - rewrite <- IH, (pend_delete _ _ _ Hm). by rewrite <- app_assoc.
  - rewrite (pend_delete _ _ _ Hm). solve_Permutation.
Qed.

Lemma slides_sub cap w lost w' q m : slides cap w lost w' -> w_pend w' !! q = Some m -> w_pend w !! q = Some m.
Proof.
  induction 1; cbn in *; try done; intros Hq.
  - by apply IHslides, lookup_delete_Some in Hq as [_ ?].
  - by apply lookup_delete_Some in Hq as [_ ?].
Qed.

Lemma put_conserve q m w : contents w ++ [(q, m)] ≡ₚ contents (put q m w) ++ replaced q w.
Proof.
  unfold contents, put, replaced. cbn [w_pend w_ready]. destruct (w_pend w !! q) as [x|] eqn:E.
  - rewrite <- insert_delete_eq, map_to_list_insert by apply lookup_delete_eq.
    rewrite (pend_delete _ _ _ E). solve_Permutation.
  - rewrite map_to_list_insert by done. solve_Permutation.
Qed.

Lemma put_ok n lo q m w :
  win_ok n lo w -> w_start w <= q < w_start w + n -> seqn m = u32 q -> win_ok n lo (put q m w).
Proof.
  intros [Hch Hp] Hq Hs. split; cbn; [done|]. intros x y Hx.
  apply lookup_insert_Some in Hx as [[<- <-]|[_ Hx]]; [done|by apply Hp].
Qed.

Lemma run_from_delete n pend st x : st < x -> run_from n pend x = run_from n (delete st pend) x.
Proof.
  revert x. induction n as [|n IH]; intros x Hx; [done|]. cbn. rewrite lookup_delete_ne by lia.
  destruct (pend !! x); [|done]. by rewrite IH by lia.
Qed.

Lemma run_conserve n pend st :
  map_to_list pend ≡ₚ run_from n pend st ++ map_to_list (without (run_from n pend st) pend).
Proof.
  revert pend st. induction n as [|n IH]; intros pend st; [done|]. cbn [run_from].
  destruct (pend !! st) as [m|] eqn:E; [|done].
  cbn [app without foldl fst]. rewrite (run_from_delete n pend st), (pend_delete _ _ _ E) by lia. constructor. apply IH.
Qed.

Lemma without_lookup l pend q :
  without l pend !! q = if decide (q ∈ map fst l) then None else pend !! q.
Proof.
  revert pend. induction l as [|x l IH]; intros pend; cbn [map]; [done|].
  change (without (x :: l) pend) with (without l (delete (fst x) pend)). rewrite IH.
  destruct (decide (q ∈ map fst l)); [rewrite decide_True by set_solver; done|].
  destruct (decide (q = fst x)) as [->|].
  - rewrite decide_True by set_solver. apply lookup_delete_eq.
  - rewrite lookup_delete_ne by done. by rewrite decide_False by set_solver.
Qed.

Lemma run_from_chain n pend st :
  (forall q m, pend !! q = Some m -> seqn m = u32 q) ->
  chain st (run_from n pend st) (st + Z.of_nat (length (run_from n pend st))).
Proof.
  intros Hs. revert st. induction n as [|n IH]; intros st; cbn [run_from]; [cbn; lia|].
  destruct (pend !! st) as [m|] eqn:E; [|cbn; lia]. cbn [chain length]. split_and!; [lia|by apply Hs|].
  specialize (IH (st + 1)). eapply chain_weaken; [done|lia|lia].
Qed.

Lemma run_from_elem n pend st q :
  st <= q < st + Z.of_nat (length (run_from n pend st)) -> q ∈ map fst (run_from n pend st).
Proof.
  revert st. induction n as [|n IH]; intros st; cbn [run_from]; [cbn; lia|].
  destruct (pend !! st) as [m|]; cbn [length map fst]; [|lia]. intros Hq.
  destruct (decide (q = st)) as [->|]; [set_solver|]. apply list_elem_of_further, IH. lia.
Qed.

(** The run stops at its limit or at a missing packet. *)
Lemma run_from_end n pend st (l := run_from n pend st) :
  (length l <= n)%nat /\ ((length l < n)%nat -> pend !! (st + Z.of_nat (length l)) = None).
Proof.
  subst l. revert st. induction n as [|n IH]; intros st; cbn [run_from]; [cbn; lia|].
  destruct (pend !! st) as [m|] eqn:E; cbn [length]; [|by rewrite Z.add_0_r; split; [lia|]].
  destruct (IH (st + 1)) as [H1 H2]. split; [lia|]. intros Hlt. rewrite <- H2 by lia. f_equal. lia.
Qed.

(** A drain: its packets are the next ones in order, nothing else leaves, and
    it is cut short only by a missing packet. *)
Lemma drained_ok n lo max w (t := fst (drained max w)) (w' := snd (drained max w)) :
  win_ok n lo w ->
  (exists lo', chain lo t lo' /\ win_ok n lo' w') /\ contents w ≡ₚ t ++ contents w' /\ (length t <= max)%nat /\
  ((length t < max)%nat -> w_ready w' = [] /\ w_pend w' !! w_start w' = None).
Proof.
  intros [Hch Hp]. subst t w'. unfold drained. cbn [fst snd].
  set (t1 := take max (w_ready w)). set (t2 := run_from (max - length t1) (w_pend w) (w_start w)).
  destruct (run_from_end (max - length t1) (w_pend w) (w_start w)) as [Hl2 Hend]. fold t2 in Hl2, Hend.
  assert (Hl1 : length t1 = (max `min` length (w_ready w))%nat) by apply length_take.
  assert (Hch2 : chain (w_start w) t2 (w_start w + Z.of_nat (length t2))).
  { apply run_from_chain. intros q m Hq. apply (Hp q m Hq). }
  assert (Hpend : forall st, w_start w <= st <= w_start w + Z.of_nat (length t2) ->
    forall q m, without t2 (w_pend w) !! q = Some m -> st <= q < w_start w + Z.of_nat (length t2) + n /\ seqn m = u32 q).
  { intros st Hst q m. rewrite without_lookup. case_decide as Hq; [done|]. intros Hm.
    destruct (Hp q m Hm) as [? ?]. split; [|done].
    destruct (decide (q < w_start w + Z.of_nat (length t2))); [|lia].
    destruct Hq. apply run_from_elem. fold t2. lia. }
  rewrite <- (take_drop max (w_ready w)) in Hch. fold t1 in Hch. apply chain_split in Hch as (mid&Hc1&Hc2).
  split_and!.
  - destruct (decide (length (w_ready w) <= max)%nat) as [Hle|Hgt].
    + exists (w_start w + Z.of_nat (length t2)). rewrite (drop_ge (w_ready w)) in * by lia. cbn in Hc2. split.
      * eapply chain_app; [|done]. eapply chain_weaken; [done|lia|lia].
      * split; cbn; [lia|]. apply Hpend. lia.
    + assert (t2 = []) as -> by (destruct t2; [done|cbn in *; lia]). exists mid. rewrite app_nil_r. cbn.
      rewrite Z.add_0_r. split; [done|]. split; cbn; [done|]. apply Hp.
  - unfold contents. cbn [w_ready w_pend]. rewrite (run_conserve (max - length t1) (w_pend w) (w_start w)).
    fold t2. rewrite <- (take_drop max (w_ready w)) at 1. fold t1. rewrite <- !app_assoc.
    apply Permutation_app_head. rewrite !app_assoc. apply Permutation_app_tail, Permutation_app_comm.
  - rewrite length_app. lia.
  - rewrite length_app. cbn [w_ready w_pend w_start]. intros Hlt. split; [apply drop_ge; lia|].
    rewrite without_lookup. case_decide; [done|]. apply Hend. lia.
Qed.

(** ** The two circular buffers *)

Record geometry (k : Z) (c : cir_buffer) : Prop := Geometry {
  ge_k : 0 <= k <= 27;
  ge_size : size c = 2 ^ k;
  ge_mask : mask c = 2 ^ k - 1;
  ge_head : 0 <= head c < 2 ^ k;
  ge_tail : 0 <= tail c < 2 ^ k
}.

(** The packets of the order buffer are those of [pend]: slot [j] places after
    the head stands for position [P + j]. *)
Record ord_repr (k : Z) (c : cir_buffer) (P : Z) (pend : gmap Z rte_mbuf) : Prop := OrdRepr {
  oi_geo : geometry k c;
  oi_slots : forall j m, entries c !! j = Some m -> 0 <= j < 2 ^ k;
  oi_pend : forall q, pend !! q =
    if decide (P <= q < P + 2 ^ k) then entries c !! ((head c + (q - P)) mod 2 ^ k) else None
}.

Record rdy_inv (k : Z) (c : cir_buffer) (rq : list (Z * rte_mbuf)) : Prop := RdyInv {
  rd_geo : geometry k c;
  rd_len : Z.of_nat (length rq) < 2 ^ k;
  rd_head : head c = (tail c + Z.of_nat (length rq)) mod 2 ^ k;
  rd_cells : forall i p m, rq !! i = Some (p, m) ->
    entries c !! ((tail c + Z.of_nat i) mod 2 ^ k) = Some m
}.

Lemma pow_range k : 0 <= k <= 27 -> 1 <= 2 ^ k <= 2 ^ 27.
Proof. intros. split; [lia|]. apply Z.pow_le_mono_r; lia. Qed.

Lemma land_pow x k : 0 <= k -> Z.land x (2 ^ k - 1) = x mod 2 ^ k.
Proof. intros. rewrite <- Z.land_ones by done. by rewrite Z.ones_equiv. Qed.

Lemma next_mod k c x : geometry k c -> 0 <= x < 2 ^ k -> next c x = (x + 1) mod 2 ^ k.
Proof.
  intros [] Hx. pose proof (pow_range k ge_k0). unfold next. rewrite ge_mask0, land_pow by lia.
  by rewrite u32_small by lia.
Qed.

Lemma offset_range k x : 0 <= k <= 27 -> 0 <= x mod 2 ^ k < 2 ^ k.
Proof. intros. pose proof (pow_range k). apply Z.mod_pos_bound. lia. Qed.

(** The slot at the head has position [P]. *)
Lemma ord_head k c P pend : ord_repr k c P pend -> pend !! P = entries c !! head c.
Proof.
  intros [[Hk _ _ Hh _] _ Hp]. pose proof (pow_range k Hk). rewrite Hp, decide_True by lia.
  by rewrite Z.sub_diag, Z.add_0_r, Z.mod_small.
Qed.

(** Moving the head of the order buffer over an empty slot. *)
Lemma ord_advance k c P pend :
  ord_repr k c P pend -> entries c !! head c = None ->
  ord_repr k (set_head c (next c (head c))) (P + 1) pend.
Proof.
  intros [Hg Hs Hp] Hnone. pose proof Hg as [Hk Hz Hm Hh Ht]. pose proof (pow_range k Hk).
  rewrite (next_mod k) by done. split; [split; cbn; try done; by apply offset_range|done|].
  intros q. rewrite Hp. cbn [head entries set_head]. rewrite Zplus_mod_idemp_l.
  replace (head c + 1 + (q - (P + 1))) with (head c + (q - P)) by lia.
  destruct (decide (P <= q < P + 2 ^ k)) as [Hq|Hq].
  - destruct (decide (q = P)) as [->|]; [|by rewrite decide_True by lia].
    rewrite decide_False by lia. by rewrite Z.sub_diag, Z.add_0_r, Z.mod_small.
  - case_decide; [|done]. assert (q = P + 2 ^ k) as -> by lia.
    replace (head c + (P + 2 ^ k - P)) with (head c + 1 * 2 ^ k) by lia.
    by rewrite Z_mod_plus_full, Z.mod_small.
Qed.

(** Two positions of the window do not share a slot. *)
Lemma slot_inj k h a b : 0 <= k <= 27 -> 0 <= a < 2 ^ k -> 0 <= b < 2 ^ k ->
  (h + a) mod 2 ^ k = (h + b) mod 2 ^ k -> a = b.
Proof.
  intros Hk Ha Hb E. destruct (Z.lt_trichotomy a b) as [Hl|[|Hl]]; [|done|]; exfalso.
  - replace (h + b) with (h + a + (b - a)) in E by lia. revert E.
    replace ((h + a + (b - a)) mod 2 ^ k) with (((h + a) + (b - a)) mod 2 ^ k) by done.
    apply mod_distinct. lia.
  - symmetry in E. replace (h + a) with (h + b + (a - b)) in E by lia. revert E. apply mod_distinct. lia.
Qed.

Lemma ord_update k c P pend off (e : gmap Z rte_mbuf) (pend' : gmap Z rte_mbuf) :
  ord_repr k c P pend -> 0 <= off < 2 ^ k ->
  (forall j, j <> (head c + off) mod 2 ^ k -> e !! j = entries c !! j) ->
  (forall q, q <> P + off -> pend' !! q = pend !! q) -> pend' !! (P + off) = e !! ((head c + off) mod 2 ^ k) ->
  ord_repr k (set_entries c e) P pend'.
Proof.
  intros [Hg Hs Hp] Hoff He Hq Hat. pose proof Hg as [Hk Hz Hm Hh Ht]. pose proof (pow_range k Hk).
  split; [by destruct Hg| |].
  - cbn. intros j m Hj. destruct (decide (j = (head c + off) mod 2 ^ k)) as [->|Hne]; [by apply offset_range|].
    rewrite He in Hj by done. by eapply Hs.
  - intros q. cbn [head entries set_entries]. destruct (decide (q = P + off)) as [->|Hne].
    + rewrite decide_True by lia. rewrite Hat. do 2 f_equal. lia.
    + rewrite Hq, Hp by done. case_decide; [|done]. symmetry. apply He. intros E.
      apply slot_inj in E; [|done|lia|lia]. lia.
Qed.

(** There are at most as many packets as slots. *)
Lemma ord_count k c P pend : ord_repr k c P pend -> (base.size (entries c) <= Z.to_nat (2 ^ k))%nat.
Proof.
  intros [[Hk _ _ _ _] He _]. pose proof (pow_range k Hk). rewrite <- size_dom.
  assert (Hsub : dom (entries c) ⊆ (list_to_set (seqZ 0 (2 ^ k)) : gset Z)).
  { intros j Hj. apply elem_of_dom in Hj as [m Hm]. apply elem_of_list_to_set, elem_of_seqZ.
    specialize (He j m Hm). lia. }
  apply subseteq_size in Hsub. rewrite size_list_to_set in Hsub by apply NoDup_seqZ.
  by rewrite length_seqZ in Hsub.
Qed.

(** ** The ready queue *)

Lemma rdy_full k c rq :
  rdy_inv k c rq -> (next c (head c) =? tail c) = bool_decide (Z.of_nat (length rq) = 2 ^ k - 1).
Proof.
  intros [Hg Hlen Hh _]. pose proof Hg as [Hk _ _ Hhr Ht]. pose proof (pow_range k Hk).
  rewrite (next_mod k) by done. rewrite Hh, Zplus_mod_idemp_l.
  destruct (Z.eqb_spec ((tail c + Z.of_nat (length rq) + 1) mod 2 ^ k) (tail c)) as [E|E];
    symmetry; [apply bool_decide_eq_true_2|apply bool_decide_eq_false_2].
  - destruct (decide (Z.of_nat (length rq) = 2 ^ k - 1)); [done|exfalso].
    rewrite <- (Z.mod_small (tail c) (2 ^ k)) in E at 2 by done.
    symmetry in E. revert E. apply mod_distinct. lia.
  - intros El. apply E. rewrite El. replace (tail c + (2 ^ k - 1) + 1) with (tail c + 1 * 2 ^ k) by lia.
    rewrite Z_mod_plus_full. by apply Z.mod_small.
Qed.

(** Writing the slot at the head does not touch the queue. *)
Lemma rdy_write k c rq m :
  rdy_inv k c rq -> rdy_inv k (set_entries c (<[head c := m]> (entries c))) rq.
Proof.
  intros [Hg Hlen Hh Hc]. pose proof Hg as [Hk _ _ Hhr Ht]. pose proof (pow_range k Hk).
  split; cbn; try done; [by destruct Hg|]. intros i p x Hi.
  apply lookup_lt_Some in Hi as Hlt. rewrite lookup_insert_ne; [by eapply Hc|].
  rewrite Hh. apply not_eq_sym, mod_distinct. lia.
Qed.

Lemma rdy_push k c rq p m :
  rdy_inv k c rq -> Z.of_nat (length rq) <> 2 ^ k - 1 ->
  let c1 := set_entries c (<[head c := m]> (entries c)) in
  rdy_inv k (set_head c1 (next c1 (head c1))) (rq ++ [(p, m)]).
Proof.
  intros HI Hfull c1. pose proof (rdy_write k c rq m HI) as [Hg1 Hlen _ Hc1]. fold c1 in Hg1, Hc1.
  destruct HI as [Hg _ Hh _]. pose proof Hg as [Hk _ _ Hhr Ht]. pose proof (pow_range k Hk).
  rewrite (next_mod k) by done. split.
  - destruct Hg1. split; cbn; try done. by apply offset_range.
  - rewrite length_app. cbn. lia.
  - cbn. rewrite length_app, Hh, Zplus_mod_idemp_l. cbn. f_equal. lia.
  - intros i q x Hi. cbn [entries tail set_head]. apply lookup_app_Some in Hi as [Hi|[Hge Hi]].
    + by eapply Hc1.
    + assert (i = length rq) as ->.
      { apply lookup_lt_Some in Hi as Hlt. cbn in Hlt. lia. }
      rewrite Nat.sub_diag in Hi. injection Hi as <- <-. cbn. rewrite <- Hh. apply lookup_insert_eq.
Qed.

(** ** Moving packets from the order to the ready buffer *)

(** The packet at the head of the order buffer leaves it. *)
Lemma ord_pop k c P pend m :
  ord_repr k c P pend -> entries c !! head c = Some m ->
  let c1 := set_entries c (delete (head c) (entries c)) in
  ord_repr k (set_head c1 (next c1 (head c1))) (P + 1) (delete P pend) /\
  S (base.size (entries (set_head c1 (next c1 (head c1))))) = base.size (entries c).
Proof.
  intros HI Hm c1. pose proof HI as [[Hk _ _ Hh _] _ _]. pose proof (pow_range k Hk). split.
  - apply ord_advance; [|cbn; apply lookup_delete_eq].
    eapply (ord_update k c P pend 0); [done|lia|..]; rewrite ?Z.add_0_r, ?(Z.mod_small (head c)) by done.
    + intros j Hj. by apply lookup_delete_ne.
    + intros q Hq. by apply lookup_delete_ne.
    + by rewrite !lookup_delete_eq.
  - cbn. rewrite map_size_delete_Some by (by exists m).
    assert (base.size (entries c) <> 0%nat); [|lia]. intros E. apply map_size_empty_inv in E.
    by rewrite E, lookup_empty in Hm.
Qed.

(** The two buffers have moved by [c] positions, as the specification does;
    positions from [U] on were empty. *)
Definition moved (k U : Z) (w : window) (ord' rdy' : cir_buffer) (c : Z) (w' : window) (lost : list (Z * rte_mbuf)) :
    Prop :=
  slides (2 ^ k - 1) w lost w' /\ w_start w' = w_start w + c /\ 0 <= c /\ w_start w' <= U /\
  ord_repr k ord' (w_start w') (w_pend w') /\ rdy_inv k rdy' (w_ready w') /\
  (forall q, is_Some (w_pend w' !! q) -> q < U) /\
  (lost = [] \/ Z.of_nat (length (w_ready w')) = 2 ^ k - 1).

Lemma moved_none k U ord rdy P pend rq :
  ord_repr k ord P pend -> rdy_inv k rdy rq -> P <= U -> (forall q, is_Some (pend !! q) -> q < U) ->
  moved k U (Window P pend rq) ord rdy 0 (Window P pend rq) [].
Proof. intros. unfold moved. cbn. split_and!; try done; try lia; [constructor|by left]. Qed.

Lemma fill_ready_ok k U fuel ord rdy adv P pend rq :
  ord_repr k ord P pend -> rdy_inv k rdy rq -> P <= U -> (forall q, is_Some (pend !! q) -> q < U) ->
  0 <= adv -> adv + Z.of_nat (base.size (entries ord)) < 2 ^ 32 ->
  (base.size (entries ord) <= fuel)%nat ->
  exists ord' rdy' c w' lost, fill_ready fuel ord rdy adv = Some (ord', rdy', u32 (adv + c)) /\
    moved k U (Window P pend rq) ord' rdy' c w' lost /\ c <= Z.of_nat (base.size (entries ord)) /\
    (is_Some (entries ord !! head ord) -> 1 <= c).
Proof.
  revert ord rdy adv P pend rq. induction fuel as [|fuel IH]; intros ord rdy adv P pend rq HO HR HPU HU Ha Hb Hf;
    cbn [fill_ready]; destruct (entries ord !! head ord) as [m|] eqn:Em.
  2,4: eexists ord, rdy, 0, _, []; rewrite Z.add_0_r, u32_small by lia;
    split_and!; [done|by apply moved_none|lia|by intros []].
  { destruct (ord_pop k ord P pend m HO Em) as [_ E]. lia. }
  destruct (ord_pop k ord P pend m HO Em) as [HO' Hsz].
  assert (Hm : pend !! P = Some m) by (by rewrite (ord_head k ord)).
  assert (HP : P < U) by (apply HU; by exists m).
  assert (HU' : forall q, is_Some (delete P pend !! q) -> q < U).
  { intros q [x Hx]. apply lookup_delete_Some in Hx as [_ Hx]. apply HU. by exists x. }
  assert (Hfull : (next (set_entries rdy (<[head rdy := m]> (entries rdy))) (head rdy) =? tail rdy)
    = bool_decide (Z.of_nat (length rq) = 2 ^ k - 1)) by (by apply (rdy_full k rdy rq)).
  cbn [head tail set_entries] in Hfull |- *. rewrite Hfull. pose proof (rd_len _ _ _ HR).
  case_bool_decide as Hlen.
  - eexists _, _, 1, _, [(P, m)]. split; [done|]. split_and!; [|cbn in Hsz; lia|done].
    unfold moved. split; [by apply sl_lose|]. cbn. split_and!; try done; try lia. by apply rdy_write.
  - pose proof (rdy_push k rdy rq P m HR Hlen) as HR'. cbv zeta in HR'.
    rewrite (u32_small (adv + 1)) by lia. cbn [head set_head set_entries entries] in Hsz.
    destruct (IH _ _ (adv + 1) (P + 1) _ _ HO' HR') as (ord'&rdy'&c&w'&lost&E&(Hsl&Hst&Hmv)&Hc&_);
      [lia|done|lia|cbn; lia|cbn; lia|]. cbn in Hc, Hst.
    exists ord', rdy', (1 + c), w', lost. rewrite Z.add_assoc, <- E. split; [done|].
    destruct Hmv as (?&?&?&?&?&?). split_and!; [|lia|lia]. unfold moved. cbn.
    split_and!; try done; try lia. apply (sl_move _ P pend rq m); done || lia.
Qed.

(** The conditional skip at the top of the outer loop. *)
Lemma skip_ok k U ord rdy P pend rq adv n :
  ord_repr k ord P pend -> rdy_inv k rdy rq -> P - adv + n <= U -> (forall q, is_Some (pend !! q) -> q < U) ->
  0 <= adv < n -> n < 2 ^ 31 -> Z.of_nat (length rq) <> 2 ^ k - 1 ->
  let '(ord1, adv1) := match entries ord !! head ord with
    | None => (set_head ord (next ord (head ord)), u32 (adv + 1))
    | Some _ => (ord, adv)
    end in
  exists d, 0 <= d <= 1 /\ adv1 = adv + d /\ moved k U (Window P pend rq) ord1 rdy d (Window (P + d) pend rq) [] /\
    (is_Some (entries ord1 !! head ord1) \/ d = 1).
Proof.
  intros HO HR HPU HU Ha Hn Hlen. pose proof (rd_len _ _ _ HR). destruct (entries ord !! head ord) as [m|] eqn:E.
  - exists 0. rewrite !Z.add_0_r. split_and!; try done; try lia; [apply moved_none; done || lia|]. left. by exists m.
  - exists 1. rewrite u32_small by lia. split_and!; try done; try lia. unfold moved. cbn.
    split_and!; try done; try lia; [|by apply ord_advance|by left].
    apply sl_skip; [by rewrite (ord_head k ord)|lia|constructor].
Qed.

Lemma moved_trans k U w ord1 rdy1 c1 w1 ord2 rdy2 c2 w2 lost :
  moved k U w ord1 rdy1 c1 w1 [] -> moved k U w1 ord2 rdy2 c2 w2 lost -> moved k U w ord2 rdy2 (c1 + c2) w2 lost.
Proof.
  intros (Hs1&He1&?&?&?&?&?&?) (Hs2&He2&?&?&?&?&?&?). unfold moved. split_and!; try done; try lia.
  by eapply slides_trans.
Qed.

Lemma fill_loop_ok k U n fuel ord rdy adv P pend rq :
  ord_repr k ord P pend -> rdy_inv k rdy rq -> P <= U -> P - adv + n <= U ->
  (forall q, is_Some (pend !! q) -> q < U) ->
  n < 2 ^ 31 -> 0 <= adv < 2 ^ 32 -> n - adv <= Z.of_nat fuel ->
  exists ord' rdy' c w' lost, fill_loop fuel n ord rdy adv = Some (ord', rdy', adv + c) /\
    moved k U (Window P pend rq) ord' rdy' c w' lost /\ 0 <= adv + c < 2 ^ 32 /\
    (adv + c < n -> Z.of_nat (length (w_ready w')) = 2 ^ k - 1).
Proof.
  revert ord rdy adv P pend rq. induction fuel as [|fuel IH];
    intros ord rdy adv P pend rq HO HR HPU HnU HU Hn Ha Hf; cbn [fill_loop]; rewrite (rdy_full k rdy rq HR);
    destruct (Z.ltb_spec adv n) as [Hlt|Hge]; cbn [andb]; [lia| | |].
  1,3: eexists ord, rdy, 0, _, []; rewrite Z.add_0_r; split_and!; [done|by apply moved_none|lia..].
  case_bool_decide as Hlen; cbn [negb].
  { eexists ord, rdy, 0, _, []; rewrite Z.add_0_r; split_and!; [done|by apply moved_none|lia|lia|done]. }
  pose proof (skip_ok k U ord rdy P pend rq adv n HO HR HnU HU ltac:(lia) Hn Hlen) as Hskip.
  destruct (match entries ord !! head ord with Some _ => _ | None => _ end) as [ord1 adv1].
  destruct Hskip as (d&Hd&->&Hmv1&Hpos). pose proof Hmv1 as (_&_&_&HU1&HO1&_). cbn in HU1, HO1.
  pose proof (ord_count k ord1 _ _ HO1) as Hcnt. pose proof (pow_range k (ge_k _ _ (oi_geo _ _ _ _ HO1))).
  destruct (fill_ready_ok k U (Z.to_nat (size ord1) + 1) ord1 rdy (adv + d) (P + d) pend rq HO1 HR)
    as (ord2&rdy2&c&w2&lost&E&Hmv2&Hc&Hone); [lia|done|lia|lia| |].
  { rewrite (ge_size _ _ (oi_geo _ _ _ _ HO1)). lia. }
  rewrite E. cbn. pose proof Hmv2 as (_&Hst2&?&HU2&HO2&HR2&HUp2&Hlost). cbn in Hst2. rewrite u32_small by lia.
  assert (1 <= d + c) by (destruct Hpos as [Hs|]; [specialize (Hone Hs)|]; lia).
  pose proof (moved_trans _ _ _ _ _ _ _ _ _ _ _ _ Hmv1 Hmv2) as Hmv.
  destruct w2 as [P2 pend2 rq2]. cbn in *.
  destruct Hlost as [->|Hfull].
  - destruct (IH ord2 rdy2 (adv + d + c) P2 pend2 rq2 HO2 HR2) as (ord'&rdy'&c'&w'&lost'&E'&Hmv'&?&?);
      [done|lia|done|done|lia|lia|].
    exists ord', rdy', (d + c + c'), w', lost'. rewrite E'. split_and!; [do 2 f_equal; lia| |lia|lia|].
    + by eapply moved_trans.
    + intros. auto with lia.
  - exists ord2, rdy2, (d + c), (Window P2 pend2 rq2), lost.
    assert (Ef : fill_loop fuel n ord2 rdy2 (adv + d + c) = Some (ord2, rdy2, adv + d + c)).
    { destruct fuel; cbn [fill_loop]; rewrite (rdy_full k rdy2 rq2 HR2), bool_decide_true by done;
        cbn [negb]; by rewrite andb_false_r. }
    rewrite Ef. split_and!; [do 2 f_equal; lia|done|lia|lia|done].
Qed.

(** ** The whole buffer *)

(** A buffer in use represents a window. *)
Record ro_repr (k : Z) (b : rte_reorder_buffer) (w : window) : Prop := RoRepr {
  ro_ord : ord_repr k (order_buf b) (w_start w) (w_pend w);
  ro_rdy : rdy_inv k (ready_buf b) (w_ready w);
  ro_min : min_seqn b = u32 (w_start w)
}.

Lemma repr_pend k b w q : ro_repr k b w -> is_Some (w_pend w !! q) -> w_start w <= q < w_start w + 2 ^ k.
Proof. intros [[_ _ Hp] _ _] [m Hm]. rewrite Hp in Hm. by case_decide. Qed.

Lemma fill_overflow_ok k fuel b n w :
  ro_repr k b w -> 0 <= n <= 2 ^ k -> n <= Z.of_nat fuel ->
  exists b' adv w' lost, rte_reorder_fill_overflow fuel b n = Some (b', adv) /\
    ro_repr k b' w' /\ slides (2 ^ k - 1) w lost w' /\ w_start w' = w_start w + adv /\ 0 <= adv <= 2 ^ k /\
    is_initialized b' = is_initialized b /\
    (adv < n -> Z.of_nat (length (w_ready w')) = 2 ^ k - 1).
Proof.
  intros HI Hn Hf. pose proof HI as [HO HR Hm]. pose proof (pow_range k (ge_k _ _ (oi_geo _ _ _ _ HO))).
  destruct w as [P pend rq]. cbn in HO, HR, Hm.
  destruct (fill_loop_ok k (P + 2 ^ k) n fuel _ _ 0 P pend rq HO HR)
    as (ord'&rdy'&c&w'&lost&E&(Hsl&Hst&?&?&HO'&HR'&_)&Hc32&Hfull); [lia..| |lia|lia|lia|].
  { intros q Hq. by apply (repr_pend k b _ q HI). }
  unfold rte_reorder_fill_overflow. rewrite E. cbn. rewrite Z.add_0_l in *. cbn in Hst.
  eexists _, c, w', lost. split; [done|]. split_and!; try done; try lia.
  split; cbn; try done. by rewrite Hm, Hst, u32_add_l.
Qed.

Lemma place_ok k b w m off :
  ro_repr k b w -> 0 <= off < 2 ^ k -> ro_repr k (place b off m) (put (w_start w + off) m w).
Proof.
  intros [HO HR Hm] Hoff. pose proof HO as [[Hk Hsz Hmk Hh Ht] _ _].
  pose proof (pow_range k Hk). unfold place. rewrite Hmk, land_pow, u32_small by lia.
  split; cbn; try done. apply (ord_update k _ _ (w_pend w) off); [done|done|..].
  - intros j Hj. by apply lookup_insert_ne.
  - intros q Hq. by apply lookup_insert_ne.
  - by rewrite !lookup_insert_eq.
Qed.

(** One insertion at a window: the return value, the accepted packet with its
    position, the packets that are lost and the new window. *)
Inductive inserts (n : Z) (w : window) (m : rte_mbuf) :
    Z -> list (Z * rte_mbuf) -> list (Z * rte_mbuf) -> window -> Prop :=
| in_window (q := w_start w + u32 (seqn m - w_start w)) :
    q < w_start w + n -> inserts n w m 0 [(q, m)] (replaced q w) (put q m w)
| in_ahead (q := w_start w + u32 (seqn m - w_start w)) lost w' :
    w_start w + n <= q < w_start w + 2 * n -> slides (n - 1) w lost w' ->
    w_start w' <= q < w_start w' + n ->
    inserts n w m 0 [(q, m)] lost (put q m w')
| in_full (q := w_start w + u32 (seqn m - w_start w)) lost w' :
    w_start w + n <= q < w_start w + 2 * n -> slides (n - 1) w lost w' ->
    w_start w' + n <= q -> Z.of_nat (length (w_ready w')) = n - 1 ->
    inserts n w m (-1) [] lost w'
| in_far (q := w_start w + u32 (seqn m - w_start w)) :
    w_start w + 2 * n <= q -> inserts n w m (-1) [] [] w.

(** [rte_errno] of a refused packet. *)
Definition insert_errno (n : Z) (w : window) (m : rte_mbuf) (rc : Z) : option Z :=
  if rc =? 0 then None
  else if u32 (seqn m - w_start w) <? 2 * n then Some ENOSPC else Some ERANGE.

Lemma insert_ok k fuel b m w :
  ro_repr k b w -> is_initialized b = true -> 0 <= seqn m < 2 ^ 32 -> 2 ^ k <= Z.of_nat fuel ->
  exists b' rc acc lost w', rte_reorder_insert fuel b m = Some (b', rc, insert_errno (2 ^ k) w m rc) /\
    inserts (2 ^ k) w m rc acc lost w' /\ ro_repr k b' w' /\ is_initialized b' = true.
Proof.
  intros HI Hinit Hs Hf. pose proof HI as [HO HR Hmin].
  pose proof HO as [[Hk Hsz Hmk Hh Ht] _ _]. pose proof (pow_range k Hk).
  unfold rte_reorder_insert, insert_errno. rewrite Hinit, Hsz, Hmin, u32_sub_r. set (off := u32 (seqn m - w_start w)).
  pose proof (u32_range (seqn m - w_start w)) as Hr. fold off in Hr.
  destruct (Z.ltb_spec off (2 ^ k)).
  - eexists _, 0, _, _, _. split; [done|]. split_and!; [apply in_window; fold off; lia|apply place_ok; [done|lia]|done].
  - rewrite (u32_small (2 * 2 ^ k)) by lia. destruct (Z.ltb_spec off (2 * 2 ^ k)).
    + rewrite (u32_small (off + 1 - 2 ^ k)) by lia.
      destruct (fill_overflow_ok k fuel b (off + 1 - 2 ^ k) w HI)
        as (b'&adv&w'&lost&E&HI'&Hsl&Hst&Hadv&Hin&Hfull); [lia|lia|]. rewrite E. cbn.
      destruct (Z.ltb_spec adv (off + 1 - 2 ^ k)).
      * eexists _, (-1), [], lost, w'. split; [done|]. rewrite Hin. split_and!; try done.
        apply in_full; fold off; [lia|done|lia|auto].
      * assert (Eo : u32 (seqn m - min_seqn b') = off - adv).
        { rewrite (ro_min _ _ _ HI'), u32_sub_r, Hst.
          replace (seqn m - (w_start w + adv)) with (seqn m - w_start w - adv) by lia.
          rewrite <- u32_sub_l. fold off. apply u32_small. lia. }
        rewrite Eo. eexists _, 0, _, lost, _. split; [done|]. cbn. rewrite Hin. split_and!; [| |done].
        -- apply (in_ahead (2 ^ k) w m lost w'); fold off; [lia|done|lia].
        -- replace (w_start w + u32 (seqn m - w_start w)) with (w_start w' + (off - adv)) by (fold off; lia).
           apply place_ok; [done|lia].
    + eexists b, (-1), [], [], w. split; [done|]. split_and!; try done. apply in_far. fold off. lia.
Qed.

Lemma inserts_ok n lo w m rc acc lost w' :
  inserts n w m rc acc lost w' -> win_ok n lo w -> 0 <= seqn m < 2 ^ 32 ->
  win_ok n lo w' /\ contents w ++ acc ≡ₚ contents w' ++ lost.
Proof.
  intros Hin HW Hs.
  assert (Hq : seqn m = u32 (w_start w + u32 (seqn m - w_start w))).
  { rewrite u32_add_r. replace (w_start w + (seqn m - w_start w)) with (seqn m) by lia. by rewrite u32_small. }
  pose proof (u32_range (seqn m - w_start w)).
  destruct Hin as [q Hw|q lost w' Hw Hsl Hw'|q lost w' Hw Hsl Hw' Hf|q Hw].
  - split; [apply put_ok; subst q; done || lia|]. apply put_conserve.
  - destruct (slides_ok _ _ _ _ _ _ Hsl HW) as (HW'&_&_). split; [by apply put_ok|].
    rewrite (slides_conserve _ _ _ _ Hsl). rewrite <- app_assoc, (Permutation_app_comm lost), app_assoc.
    rewrite put_conserve. unfold replaced. destruct (w_pend w' !! q) as [x|] eqn:E; [|by rewrite app_nil_r].
    exfalso. apply (slides_sub _ _ _ _ _ _ Hsl) in E. apply (wo_pend _ _ _ HW) in E. lia.
  - destruct (slides_ok _ _ _ _ _ _ Hsl HW) as (HW'&_&_). split; [done|]. rewrite app_nil_r.
    by apply slides_conserve in Hsl.
  - split; [done|]. by rewrite !app_nil_r.
Qed.

(** ** Draining *)

Lemma rdy_pop k c p m rq :
  rdy_inv k c ((p, m) :: rq) ->
  entries c !! tail c = Some m /\ tail c <> head c /\
  rdy_inv k (set_tail c (next c (tail c))) rq.
Proof.
  intros [Hg Hlen Hh Hc]. pose proof Hg as [Hk Hs Hm Hhr Ht]. pose proof (pow_range k Hk).
  cbn [length] in *. rewrite (next_mod k) by done. split_and!.
  - specialize (Hc 0%nat p m eq_refl). rewrite Z.add_0_r, Z.mod_small in Hc by done. done.
  - rewrite Hh. rewrite <- (Z.mod_small (tail c) (2 ^ k)) at 1 by done.
    apply mod_distinct. lia.
  - split; [split; cbn; try done; by apply offset_range|lia|..]; cbn.
    + rewrite Hh, Zplus_mod_idemp_l. f_equal. lia.
    + intros i q x Hi. specialize (Hc (S i) q x Hi). rewrite Zplus_mod_idemp_l.
      rewrite <- Hc. do 2 f_equal. lia.
Qed.

Lemma drain_ready_ok k fuel max rdy cnt out rq (t := take (Z.to_nat (max - cnt)) rq) :
  rdy_inv k rdy rq -> 0 <= cnt -> max < 2 ^ 32 -> (length rq <= fuel)%nat ->
  exists rdy', drain_ready fuel rdy max cnt out =
      Some (rdy', cnt + Z.of_nat (length t), out ++ map snd t) /\
    rdy_inv k rdy' (drop (Z.to_nat (max - cnt)) rq).
Proof.
  subst t. revert rdy cnt out rq. induction fuel as [|fuel IH]; intros rdy cnt out rq HR Hc Hmax Hf;
    destruct rq as [|[p m] rq]; cbn [length] in Hf; try lia; cbn [drain_ready].
  1,2: assert (Et : tail rdy = head rdy) by (destruct HR as [[] ? Hh ?]; cbn in Hh;
         rewrite Z.add_0_r, Z.mod_small in Hh by done; done);
       rewrite Et, Z.eqb_refl, andb_false_r, take_nil, drop_nil; exists rdy; cbn;
       by rewrite Z.add_0_r, app_nil_r.
  destruct (Z.ltb_spec cnt max) as [Hlt|Hge]; cbn [andb].
  - destruct (rdy_pop k rdy p m rq HR) as (Em&Hne&HR'). rewrite Em.
    destruct (Z.eqb_spec (tail rdy) (head rdy)); [done|]. cbn [negb]. rewrite u32_small by lia.
    replace (Z.to_nat (max - cnt)) with (S (Z.to_nat (max - (cnt + 1)))) by lia. cbn [take drop].
    destruct (IH _ (cnt + 1) (out ++ [m]) rq HR') as (rdy'&E&HR2); [lia|done|lia|].
    exists rdy'. rewrite E. cbn [length map snd]. rewrite <- app_assoc. split; [|done]. do 3 f_equal. lia.
  - exists rdy. replace (Z.to_nat (max - cnt)) with O by lia. cbn. by rewrite Z.add_0_r, app_nil_r.
Qed.

Lemma drain_order_ok k max fuel ord P pend cnt out (t := run_from (Z.to_nat (max - cnt)) pend P) :
  ord_repr k ord P pend -> 0 <= cnt -> max < 2 ^ 32 -> (base.size (entries ord) <= fuel)%nat ->
  exists ord', let c := Z.of_nat (length t) in
    drain_order fuel ord (u32 P) max cnt out = Some (ord', u32 (P + c), cnt + c, out ++ map snd t) /\
    ord_repr k ord' (P + c) (without t pend).
Proof.
  subst t. revert ord P pend cnt out. induction fuel as [|fuel IH]; intros ord P pend cnt out HO Hc Hmax Hf;
    cbn [drain_order]; destruct (Z.ltb_spec cnt max) as [Hlt|Hge].
  2,4: exists ord; replace (Z.to_nat (max - cnt)) with O by lia; cbn; by rewrite !Z.add_0_r, app_nil_r.
  1,2: replace (Z.to_nat (max - cnt)) with (S (Z.to_nat (max - (cnt + 1)))) by lia; cbn [run_from];
    rewrite (ord_head k ord P pend HO); destruct (entries ord !! head ord) as [m|] eqn:Em.
  2,4: exists ord; cbn; by rewrite !Z.add_0_r, app_nil_r.
  - destruct (ord_pop k ord P pend m HO Em) as [_ E]. lia.
  - destruct (ord_pop k ord P pend m HO Em) as [HO' Hsz]. cbn in Hsz.
    rewrite u32_add_l, (u32_small (cnt + 1)) by lia.
    destruct (IH _ (P + 1) _ (cnt + 1) (out ++ [m]) HO') as (ord'&E&HO2); [lia|done|cbn; lia|]. cbv zeta in *.
    rewrite <- run_from_delete in * by lia.
    exists ord'. rewrite E. cbn [length map snd without foldl fst].
    replace (P + Z.of_nat (S (length (run_from (Z.to_nat (max - (cnt + 1))) pend (P + 1)))))
      with (P + 1 + Z.of_nat (length (run_from (Z.to_nat (max - (cnt + 1))) pend (P + 1)))) by lia.
    rewrite <- app_assoc. split; [|done]. do 3 f_equal. lia.
Qed.

Lemma drain_ok k fuel b max w (d := drained (Z.to_nat max) w) :
  ro_repr k b w -> 0 <= max < 2 ^ 32 -> 2 ^ k <= Z.of_nat fuel ->
  exists b', rte_reorder_drain fuel b max = Some (b', map snd (fst d), Z.of_nat (length (fst d))) /\
    ro_repr k b' (snd d) /\ is_initialized b' = is_initialized b.
Proof.
  intros [HO HR Hm] Hmax Hf. unfold rte_reorder_drain. subst d. unfold drained. cbn [fst snd].
  pose proof (rd_len _ _ _ HR). pose proof (ord_count _ _ _ _ HO).
  destruct (drain_ready_ok k fuel max _ 0 [] (w_ready w) HR) as (rdy'&E1&HR'); [lia|lia|lia|].
  rewrite Z.sub_0_r in *. set (t1 := take (Z.to_nat max) (w_ready w)) in *. rewrite E1, Hm. cbn. rewrite Z.add_0_l.
  assert (Hl1 : length t1 = (Z.to_nat max `min` length (w_ready w))%nat) by apply length_take.
  destruct (drain_order_ok k max fuel _ _ _ (Z.of_nat (length t1)) (map snd t1) HO) as (ord'&E2&HO'); [lia..|].
  cbv zeta in *. replace (Z.to_nat (max - Z.of_nat (length t1))) with (Z.to_nat max - length t1)%nat in * by lia.
  rewrite E2. cbn. eexists. rewrite map_app, length_app, Nat2Z.inj_add. split; [done|]. split; [|done]. by split.
Qed.
