(* ===== verification/ReorderTheorems.v ===== *)
(** * The packet reorder buffer: the theorems *)

From S2P Require Import Prelude Bits Reorder ReorderProofs.

(** ** Sequences of calls *)

Inductive reorder_op := Insert (m : rte_mbuf) | Drain (max_mbufs : Z).

(** The buffer, the packets delivered by the drains and the return values. *)
Fixpoint reorder_run (fuel : nat) (b : rte_reorder_buffer) (ops : list reorder_op) :
    option (rte_reorder_buffer * list rte_mbuf * list Z) :=
  match ops with
  | [] => Some (b, [], [])
  | Insert m :: rest =>
      '(b1, rc, _) ← rte_reorder_insert fuel b m;
      '(b2, out, rcs) ← reorder_run fuel b1 rest;
      Some (b2, out, rc :: rcs)
  | Drain n :: rest =>
      '(b1, got, cnt) ← rte_reorder_drain fuel b n;
      '(b2, out, rcs) ← reorder_run fuel b1 rest;
      Some (b2, got ++ out, cnt :: rcs)
  end.

Definition reorder_args_ok (op : reorder_op) : Prop :=
  match op with
  | Insert m => 0 <= seqn m < 2 ^ 32
  | Drain n => 0 <= n < 2 ^ 32
  end.

(** The same calls on the specification, for a buffer of [n] packets: the return
    values, the accepted packets with their positions, the packets delivered,
    those that are lost, and the final window. *)
Inductive spec_run (n : Z) : window -> list reorder_op -> list Z -> list (Z * rte_mbuf) ->
    list (Z * rte_mbuf) -> list (Z * rte_mbuf) -> window -> Prop :=
| sr_nil w : spec_run n w [] [] [] [] [] w
| sr_insert w m rc acc lost w1 ops rcs accs taken losts w' :
    inserts n w m rc acc lost w1 -> spec_run n w1 ops rcs accs taken losts w' ->
    spec_run n w (Insert m :: ops) (rc :: rcs) (acc ++ accs) taken (lost ++ losts) w'
| sr_drain w max (d := drained (Z.to_nat max) w) ops rcs accs taken losts w' :
    spec_run n (snd d) ops rcs accs taken losts w' ->
    spec_run n w (Drain max :: ops) (Z.of_nat (length (fst d)) :: rcs) accs (fst d ++ taken) losts w'.

(** The window of a new buffer starts at the first packet inserted. *)
Fixpoint first_seqn (ops : list reorder_op) : Z :=
  match ops with [] => 0 | Insert m :: _ => seqn m | Drain _ :: rest => first_seqn rest end.

Definition new_window (ops : list reorder_op) : window := Window (first_seqn ops) ∅ [].

(** The positions of [l] increase strictly, and the sequence numbers are their
    low 32 bits. *)
Definition in_order (l : list (Z * rte_mbuf)) : Prop :=
  (forall i j x y, (i < j)%nat -> l !! i = Some x -> l !! j = Some y -> fst x < fst y) /\
  Forall (fun x => seqn (snd x) = u32 (fst x)) l.

Lemma chain_elem lo l hi x : chain lo l hi -> x ∈ l -> lo <= fst x < hi /\ seqn (snd x) = u32 (fst x).
Proof.
  revert lo. induction l as [|[p m] l IH]; intros lo Hc Hx; [by apply not_elem_of_nil in Hx|].
  destruct Hc as (?&?&Hc). pose proof (chain_le _ _ _ Hc).
  apply elem_of_cons in Hx as [->|Hx]; [cbn; lia|]. destruct (IH _ Hc Hx). split; [lia|done].
Qed.

Lemma chain_in_order lo l hi : chain lo l hi -> in_order l.
Proof.
  intros Hc. split; [|apply Forall_forall; intros x Hx; by eapply chain_elem].
  revert lo Hc. induction l as [|[p m] l IH]; intros lo; cbn; [done|]. intros (?&_&Hc).
  intros [|i] [|j] x y Hij; cbn; try lia.
  - intros [= <-] Hy%list_elem_of_lookup_2. destruct (chain_elem _ _ _ _ Hc Hy). cbn. lia.
  - apply (IH _ Hc). lia.
Qed.

(** What the specification guarantees of its runs. *)
Lemma spec_run_ok n lo w ops rcs acc taken lost w' :
  spec_run n w ops rcs acc taken lost w' -> win_ok n lo w -> Forall reorder_args_ok ops ->
  (exists hi, chain lo taken hi /\ win_ok n hi w') /\ contents w ++ acc ≡ₚ taken ++ contents w' ++ lost.
Proof.
  intros Hrun. revert lo. induction Hrun as [w|w m rc acc lost w1 ops rcs accs taken losts w' Hin _ IH
    |w max d ops rcs accs taken losts w' _ IH]; intros lo HW Hok.
  - split; [exists lo; split; [cbn; lia|done]|]. cbn. by rewrite !app_nil_r.
  - apply Forall_cons in Hok as [Hop Hok]. destruct (inserts_ok _ _ _ _ _ _ _ _ Hin HW Hop) as [HW1 Hp1].
    destruct (IH lo HW1 Hok) as [Hhi Hp2]. split; [done|].
    rewrite app_assoc, Hp1, <- app_assoc, (Permutation_app_comm lost), app_assoc, Hp2.
    rewrite <- !app_assoc. do 2 apply Permutation_app_head. apply Permutation_app_comm.
  - apply Forall_cons in Hok as [Hop Hok].
    destruct (drained_ok n lo (Z.to_nat max) w HW) as ((lo1&Hch1&HW1)&Hp1&_). fold d in Hch1, HW1, Hp1.
    destruct (IH lo1 HW1 Hok) as ((hi&Hch&HW')&Hp2). split.
    + exists hi. split; [|done]. by eapply chain_app.
    + rewrite Hp1, <- !app_assoc. apply Permutation_app_head, Hp2.
Qed.

Lemma run_in_use k fuel ops b w :
  ro_repr k b w -> is_initialized b = true -> Forall reorder_args_ok ops -> 2 ^ k <= Z.of_nat fuel ->
  exists b' rcs acc taken lost w', reorder_run fuel b ops = Some (b', map snd taken, rcs) /\
    spec_run (2 ^ k) w ops rcs acc taken lost w' /\ is_initialized b' = true /\ ro_repr k b' w'.
Proof.
  revert b w. induction ops as [|op ops IH]; intros b w HI Hinit Hok Hf.
  { eexists b, [], [], [], [], w. split_and!; [done|constructor|done|done]. }
  apply Forall_cons in Hok as [Hop Hok]. destruct op as [m|n]; cbn [reorder_run].
  - destruct (insert_ok k fuel b m w HI Hinit Hop Hf) as (b1&rc&acc&lost&w1&E1&Hin&HI1&Hin1).
    destruct (IH b1 w1 HI1 Hin1 Hok Hf) as (b2&rcs&accs&taken&losts&w'&E2&Hrun&HI').
    rewrite E1. cbn. rewrite E2. cbn. eexists _, _, _, taken, _, w'. split; [done|]. split; [by econstructor|done].
  - destruct (drain_ok k fuel b n w HI Hop Hf) as (b1&E1&HI1&Hin1). rewrite Hinit in Hin1.
    destruct (IH b1 _ HI1 Hin1 Hok Hf) as (b2&rcs&accs&taken&losts&w'&E2&Hrun&HI').
    rewrite E1. cbn [mbind option_bind]. rewrite E2. cbn [mbind option_bind].
    eexists _, _, _, (fst (drained (Z.to_nat n) w) ++ taken), _, w'.
    rewrite (map_app snd (fst (drained (Z.to_nat n) w))). split; [reflexivity|]. split; [by constructor|done].
Qed.

(** A buffer that no packet has been inserted into. *)
Definition fresh (k mem : Z) : rte_reorder_buffer :=
  let c := CirBuffer (2 ^ k) (2 ^ k - 1) 0 0 empty in Reorder 0 mem c c false.

Lemma fresh_repr k mem s :
  0 <= k <= 27 -> 0 <= s < 2 ^ 32 ->
  ro_repr k (Reorder s mem (ready_buf (fresh k mem)) (order_buf (fresh k mem)) true) (Window s ∅ []).
Proof.
  intros Hk Hs. pose proof (pow_range k Hk). split; cbn.
  - split; [split; cbn; done || lia|intros j m Hj; cbn in Hj; by rewrite lookup_empty in Hj|].
    intros q. cbn. rewrite !lookup_empty. by case_decide.
  - split; cbn; try done; [split; cbn; done || lia|lia].
  - by rewrite u32_small.
Qed.

(** A buffer holds the packets of a window: it represents it, or no packet has
    been inserted yet and the window is empty. *)
Definition holds (k : Z) (b : rte_reorder_buffer) (w : window) : Prop :=
  if is_initialized b then ro_repr k b w
  else (exists mem, b = fresh k mem) /\ w_pend w = ∅ /\ w_ready w = [].

Lemma drain_fresh k mem fuel max : (0 < fuel)%nat -> rte_reorder_drain fuel (fresh k mem) max = Some (fresh k mem, [], 0).
Proof.
  intros Hf. unfold rte_reorder_drain. destruct fuel; [lia|].
  cbn. rewrite andb_false_r. cbn. rewrite lookup_empty. by case_match.
Qed.

Lemma drained_empty max st : drained max (Window st ∅ []) = ([], Window st ∅ []).
Proof.
  unfold drained. cbn [w_ready w_pend w_start]. rewrite take_nil, drop_nil.
  destruct max; cbn; rewrite ?lookup_empty; cbn; by rewrite Z.add_0_r.
Qed.

Lemma drain_holds k fuel b max w (d := drained (Z.to_nat max) w) :
  0 <= k <= 27 -> holds k b w -> 0 <= max < 2 ^ 32 -> 2 ^ k <= Z.of_nat fuel ->
  exists b', rte_reorder_drain fuel b max = Some (b', map snd (fst d), Z.of_nat (length (fst d))) /\
    holds k b' (snd d) /\ is_initialized b' = is_initialized b.
Proof.
  intros Hk HI Hmax Hf. pose proof (pow_range k Hk). unfold holds in *. destruct (is_initialized b) eqn:Hin.
  { destruct (drain_ok k fuel b max w HI Hmax Hf) as (b'&E&HI'&Hin'). exists b'. rewrite Hin', Hin. done. }
  destruct HI as ([mem ->]&Hp&Hr). exists (fresh k mem).
  assert (Ed : d = ([], Window (w_start w) ∅ [])).
  { subst d. destruct w as [st pend rdy]. cbn in Hp, Hr. subst. apply drained_empty. }
  rewrite Ed. cbn [fst snd map length is_initialized fresh w_pend w_ready].
  rewrite drain_fresh by lia. split_and!; try done. by eexists.
Qed.

Lemma run_fresh k mem fuel ops :
  0 <= k <= 27 -> Forall reorder_args_ok ops -> 2 ^ k <= Z.of_nat fuel ->
  exists b' rcs acc taken lost w', reorder_run fuel (fresh k mem) ops = Some (b', map snd taken, rcs) /\
    spec_run (2 ^ k) (new_window ops) ops rcs acc taken lost w' /\ holds k b' w'.
Proof.
  intros Hk Hok Hf. pose proof (pow_range k Hk). induction ops as [|op ops IH].
  { eexists (fresh k mem), [], [], [], [], _. split_and!; [done|constructor|]. split; [by eexists|done]. }
  pose proof Hok as Hall. apply Forall_cons in Hok as [Hop Hok]. destruct op as [m|n].
  - set (b1 := Reorder (seqn m) mem (ready_buf (fresh k mem)) (order_buf (fresh k mem)) true).
    pose proof (fresh_repr k mem (seqn m) Hk Hop) as HI. fold b1 in HI.
    assert (E : reorder_run fuel (fresh k mem) (Insert m :: ops) = reorder_run fuel b1 (Insert m :: ops)) by done.
    rewrite E. destruct (run_in_use k fuel (Insert m :: ops) b1 _ HI eq_refl Hall Hf)
      as (b'&rcs&acc&taken&lost&w'&E'&Hrun&Hin&HI'). eexists _, _, _, _, _, w'. split_and!; [done|done|].
    unfold holds. by rewrite Hin.
  - destruct (IH Hok) as (b'&rcs&acc&taken&lost&w'&E&Hrun&HI). cbn [reorder_run].
    rewrite drain_fresh by lia. cbn. rewrite E. cbn. eexists _, _, acc, taken, lost, w'. split; [done|]. split; [|done].
    pose proof (sr_drain (2 ^ k) (new_window ops) n ops rcs acc taken lost w') as Hs. 
    unfold new_window in Hs |- *. cbn [first_seqn]. rewrite drained_empty in Hs. by apply Hs.
Qed.

Lemma init_fresh b0 bufsize nm n b :
  0 <= n <= 2 ^ 27 -> rte_reorder_init b0 bufsize nm n = inl b ->
  exists k, 0 <= k <= 27 /\ n = 2 ^ k /\ b = fresh k bufsize.
Proof.
  intros Hn. unfold rte_reorder_init. destruct b0; [|done].
  destruct (rte_is_power_of_2 n) eqn:E; cbn [negb]; [|done]. destruct nm; [|done].
  destruct (_ <? _); [done|]. intros [= <-].
  destruct (is_power_of_2_spec n ltac:(lia) E) as (k&Hk&->). exists k.
  assert (k <= 27) by (apply (Z.pow_le_mono_r_iff 2); lia).
  split_and!; [lia|lia|done|]. unfold fresh. by rewrite u32_small by lia.
Qed.

Lemma new_window_ok n ops : win_ok n (first_seqn ops) (new_window ops).
Proof. split; cbn; [lia|]. intros q m Hq. by rewrite lookup_empty in Hq. Qed.

(** ** The theorems *)

(** C28: For every sequence of insertions and drains on an initialised buffer
    of [n] packets (at most [2^27]), with any sequence numbers, duplicates and
    wrap-around included, all calls terminate and behave as the specification
    says, return values included.  There, an accepted packet gets the first
    position from the start of the window on that has its sequence number as
    its low 32 bits, less than [2 * n] ahead; a packet further ahead is refused,
    one at least [n] ahead moves the window and is refused only when the ready
    queue is full.  The packets the drains deliver, taken together, have
    strictly increasing positions.  Nothing else disappears: the accepted
    packets are those delivered, those still in the buffer, and the lost ones,
    which a packet with the same position has replaced, or (at most one for
    each insertion) which were next when the ready queue became full. *)
Theorem reorder_delivers_in_order (b0 : option rte_reorder_buffer) (bufsize : Z)
    (nm : option string) (n : Z) (b : rte_reorder_buffer) (ops : list reorder_op) (fuel : nat) :
  0 <= n <= 2 ^ 27 -> rte_reorder_init b0 bufsize nm n = inl b ->
  Forall reorder_args_ok ops -> n <= Z.of_nat fuel ->
  exists b' rcs accepted taken lost w', reorder_run fuel b ops = Some (b', map snd taken, rcs) /\
    spec_run n (new_window ops) ops rcs accepted taken lost w' /\
    in_order taken /\ accepted ≡ₚ taken ++ contents w' ++ lost.
Proof.
  intros Hn Hinit Hok Hf. destruct (init_fresh _ _ _ _ _ Hn Hinit) as (k&Hk&->&->).
  destruct (run_fresh k bufsize fuel ops Hk Hok Hf) as (b'&rcs&acc&taken&lost&w'&E&Hrun&_).
  destruct (spec_run_ok _ _ _ _ _ _ _ _ _ Hrun (new_window_ok _ ops) Hok) as ((hi&Hch&_)&Hp).
  eexists _, _, _, _, _, _. split; [done|]. split; [done|]. split; [by eapply chain_in_order|done].
Qed.

Definition demo_buffer : rte_reorder_buffer := fresh 2 1000.
Definition demo_packet (s : Z) : rte_mbuf := Mbuf (4096 + 64 * s) s.
Definition demo_reorder_ops : list reorder_op :=
  [Insert (demo_packet 0xfffffffe); Insert (demo_packet 1); Insert (demo_packet 0xffffffff);
   Drain 1; Insert (demo_packet 0); Insert (demo_packet 9); Drain 8].

Lemma reorder_delivers_in_order_witness :
  exists b' rcs accepted taken lost w', reorder_run 4 demo_buffer demo_reorder_ops = Some (b', map snd taken, rcs) /\
    map seqn (map snd taken) = [0xfffffffe; 0xffffffff; 0; 1] /\ rcs = [0; 0; 0; 1; 0; -1; 3] /\
    spec_run 4 (new_window demo_reorder_ops) demo_reorder_ops rcs accepted taken lost w' /\
    in_order taken /\ accepted ≡ₚ taken ++ contents w' ++ lost.
Proof.
  destruct (reorder_delivers_in_order (Some demo_buffer) 1000 (Some "demo"%string) 4 demo_buffer
    demo_reorder_ops 4) as (b'&rcs&acc&taken&lost&w'&E&Hs&Hi&Hp);
    [lia|vm_compute; reflexivity|repeat constructor; cbn; lia|lia|].
  assert (Ho : match reorder_run 4 demo_buffer demo_reorder_ops with
    | Some (_, l, r) => map seqn l = [0xfffffffe; 0xffffffff; 0; 1] /\ r = [0; 0; 0; 1; 0; -1; 3]
    | None => False end) by (vm_compute; split; reflexivity).
  rewrite E in Ho. destruct Ho as [Ho1 Ho2]. exists b', rcs, acc, taken, lost, w'. split_and!; assumption.
Defined.


(** A drain that delivers ready packets and those that follow them. *)
Definition demo_before_drain : list reorder_op :=
  map (fun s => Insert (demo_packet s)) [7; 8; 10; 11; 9].


(** A packet is lost when the ready buffer fills up while the window moves:
    in a buffer of four, after the accepted insertions of the packets 10 to
    14, a drain delivers 10, 11, 12 and 14; packet 13 was overwritten in the
    ready buffer and is not even kept for a later drain. *)
Theorem fill_overflow_loses_packet :
  match reorder_run 8 demo_buffer
    (map (fun s => Insert (demo_packet s)) [10; 11; 12; 13; 14] ++ [Drain 8; Drain 8]) with
  | Some (_, out, rcs) => map seqn out = [10; 11; 12; 14] /\ rcs = [0; 0; 0; 0; 0; 4; 0]
  | None => False
  end.
Proof. vm_compute. split; reflexivity. Qed.

(** A drain leaves the pointers it delivered in the ready buffer, and a
    reset frees every pointer left there: the packets 10, 11 and 12 delivered
    to the application are freed under it. *)
Theorem reset_frees_delivered :
  match reorder_run 8 demo_buffer
    (map (fun s => Insert (demo_packet s)) [10; 11; 12; 13; 14] ++ [Drain 8]) with
  | Some (b, out, _) =>
      forall m, m ∈ [demo_packet 10; demo_packet 11; demo_packet 12] ->
        m ∈ out /\ m ∈ snd (rte_reorder_reset b)
  | None => False
  end.
Proof. vm_compute. intros m Hm. split; set_solver. Qed.

(** The memory size of a buffer is computed in 64 bits and stored in an
    [unsigned int]: for [2^28] packets it is the size of the header alone, and
    the initialisation accepts that much memory for a buffer whose entries
    would need [2^32] bytes. *)
Theorem reorder_bufsize_overflow (b0 : rte_reorder_buffer) (nm : string) :
  reorder_bufsize (2 ^ 28) = sizeof_reorder_buffer /\
  exists b, rte_reorder_init (Some b0) sizeof_reorder_buffer (Some nm) (2 ^ 28) = inl b /\
    size (order_buf b) = 2 ^ 28.
Proof. split; [done|]. eexists. split; reflexivity. Qed.
