(* ===== verification/Malloc.v ===== *)
(** * The memory heap: data and operations

    Model of [librte_eal/common/malloc_elem.c], [malloc_heap.c] and the
    allocation functions of [rte_malloc.c] (without [RTE_MALLOC_DEBUG]: no
    cookies and no trailer).  A heap is made of memory segments cut into
    elements, each with a header in front of its data; the headers link every
    element to the previous one, and the free elements are on lists by size.

    [elems] is the memory of the headers, by address; a header that is not
    reachable any more keeps its last content.  Pointers are addresses, 0 is
    NULL; [size_t] and pointer arithmetic is modulo [2^64]. *)

From S2P Require Import Prelude Bits.

Inductive elem_state := ELEM_FREE | ELEM_BUSY | ELEM_PAD.

#[export] Instance elem_state_eq_dec : EqDecision elem_state.
Proof. solve_decision. Defined.

Record malloc_elem := Elem {
  e_heap : Z;
  e_prev : Z;
  e_ms : Z;
  e_state : elem_state;
  e_pad : Z;
  e_size : Z
}.

#[export] Instance elem_inhabited : Inhabited malloc_elem := populate (Elem 0 0 0 ELEM_FREE 0 0).

(** [struct malloc_heap]: the free lists hold header addresses. *)
Record malloc_heap := Heap {
  free_head : gmap Z (list Z);
  alloc_count : Z;
  total_size : Z
}.

#[export] Instance heap_inhabited : Inhabited malloc_heap := populate (Heap empty 0 0).

Record rte_memseg := Memseg { ms_addr : Z; ms_len : Z; ms_hugepage_sz : Z; ms_socket_id : Z }.

#[export] Instance memseg_inhabited : Inhabited rte_memseg := populate (Memseg 0 0 0 0).

(** The part of [struct rte_mem_config] the heap uses, with the header memory. *)
Record mem_config := Mem {
  elems : gmap Z malloc_elem;
  heaps : gmap Z malloc_heap;
  memseg : gmap Z rte_memseg
}.

Definition RTE_CACHE_LINE_SIZE : Z := 64.
Definition MALLOC_ELEM_HEADER_LEN : Z := 64.
Definition MALLOC_ELEM_TRAILER_LEN : Z := 0.
Definition MALLOC_ELEM_OVERHEAD : Z := MALLOC_ELEM_HEADER_LEN + MALLOC_ELEM_TRAILER_LEN.
Definition MIN_DATA_SIZE : Z := RTE_CACHE_LINE_SIZE.
Definition RTE_HEAP_NUM_FREELISTS : Z := 13.
Definition RTE_MAX_MEMSEG : Z := 256.
Definition RTE_MAX_NUMA_NODES : Z := 8.
Definition SOCKET_ID_ANY : Z := -1.

Definition RTE_CACHE_LINE_ROUNDUP (size : Z) : Z :=
  u64 (RTE_CACHE_LINE_SIZE * (u64 (size + RTE_CACHE_LINE_SIZE - 1) / RTE_CACHE_LINE_SIZE)).

Definition RTE_ALIGN_FLOOR (val align : Z) : Z := Z.land val (u64 (Z.lnot (align - 1))).

(** ** Memory accesses *)

Definition set_elems (m : mem_config) (x : gmap Z malloc_elem) : mem_config :=
  Mem x (heaps m) (memseg m).
Definition set_heap (m : mem_config) (h : Z) (x : malloc_heap) : mem_config :=
  Mem (elems m) (<[h := x]> (heaps m)) (memseg m).

Definition hdr (m : mem_config) (elem : Z) : malloc_elem := elems m !!! elem.
Definition heap_of (m : mem_config) (h : Z) : malloc_heap := heaps m !!! h.

Definition write (m : mem_config) (elem : Z) (x : malloc_elem) : mem_config :=
  set_elems m (<[elem := x]> (elems m)).

(** Assignments to single members of a header. *)
Definition set_prev (m : mem_config) (elem p : Z) : mem_config :=
  let e := hdr m elem in
  write m elem (Elem (e_heap e) p (e_ms e) (e_state e) (e_pad e) (e_size e)).
Definition set_state (m : mem_config) (elem : Z) (s : elem_state) : mem_config :=
  let e := hdr m elem in
  write m elem (Elem (e_heap e) (e_prev e) (e_ms e) s (e_pad e) (e_size e)).
Definition set_pad (m : mem_config) (elem p : Z) : mem_config :=
  let e := hdr m elem in
  write m elem (Elem (e_heap e) (e_prev e) (e_ms e) (e_state e) (wrap 32 p) (e_size e)).
Definition set_size (m : mem_config) (elem s : Z) : mem_config :=
  let e := hdr m elem in
  write m elem (Elem (e_heap e) (e_prev e) (e_ms e) (e_state e) (e_pad e) (u64 s)).

(** [RTE_PTR_ADD]. *)
Definition ptr_add (p x : Z) : Z := u64 (p + x).

(** ** Elements *)

Definition malloc_elem_init (m : mem_config) (elem heap ms size : Z) : mem_config :=
  write m elem (Elem heap 0 ms ELEM_FREE 0 (u64 size)).

Definition malloc_elem_mkend (m : mem_config) (elem prev : Z) : mem_config :=
  let p := hdr m prev in
  let m1 := malloc_elem_init m elem (e_heap p) (e_ms p) 0 in
  set_state (set_prev m1 elem prev) elem ELEM_BUSY.

(** The start of the new element, 0 when the data does not fit; [align] is
    an [unsigned]. *)
Definition elem_start_pt (m : mem_config) (elem size align bound : Z) : Z :=
  let align := u32 (align - 1) + 1 in
  let bmask := u64 (Z.lnot (bound - 1)) in
  let finish (new_data_start : Z) :=
    let new_elem_start := u64 (new_data_start - MALLOC_ELEM_HEADER_LEN) in
    if new_elem_start <? elem then 0 else new_elem_start in
  let end_pt := u64 (elem + e_size (hdr m elem) - MALLOC_ELEM_TRAILER_LEN) in
  let new_data_start := RTE_ALIGN_FLOOR (u64 (end_pt - size)) align in
  if Z.land new_data_start bmask =? Z.land (u64 (end_pt - 1)) bmask then finish new_data_start
  else
    let end_pt := RTE_ALIGN_FLOOR end_pt bound in
    let new_data_start := RTE_ALIGN_FLOOR (u64 (end_pt - size)) align in
    if Z.land (u64 (end_pt - 1)) bmask =? Z.land new_data_start bmask then finish new_data_start
    else 0.

Definition malloc_elem_can_hold (m : mem_config) (elem size align bound : Z) : bool :=
  negb (elem_start_pt m elem size align bound =? 0).

Definition split_elem (m : mem_config) (elem split_pt : Z) : mem_config :=
  let e := hdr m elem in
  let next_elem := ptr_add elem (e_size e) in
  let old_elem_size := u64 (split_pt - elem) in
  let new_elem_size := u64 (e_size e - old_elem_size) in
  let m1 := malloc_elem_init m split_pt (e_heap e) (e_ms e) new_elem_size in
  let m2 := set_prev m1 split_pt elem in
  let m3 := set_prev m2 next_elem split_pt in
  set_size m3 elem old_elem_size.

(** [8 * sizeof(size) - __builtin_clzl(size - 1)] is [Z.log2 (size - 1) + 1]. *)
Definition malloc_elem_free_list_index (size : Z) : Z :=
  if size <=? 2 ^ 8 then 0
  else
    let log2 := Z.log2 (size - 1) + 1 in
    let index := (log2 - 8 + 2 - 1) / 2 in
    if index <=? RTE_HEAP_NUM_FREELISTS - 1 then index else RTE_HEAP_NUM_FREELISTS - 1.

(** [LIST_INSERT_HEAD] on the free list of the element's size. *)
Definition malloc_elem_free_list_insert (m : mem_config) (elem : Z) : mem_config :=
  let e := hdr m elem in
  let idx := malloc_elem_free_list_index (u64 (e_size e - MALLOC_ELEM_HEADER_LEN)) in
  let m1 := set_state m elem ELEM_FREE in
  let h := heap_of m1 (e_heap e) in
  set_heap m1 (e_heap e)
    (Heap (<[idx := elem :: free_head h !!! idx]> (free_head h)) (alloc_count h) (total_size h)).

(** [LIST_REMOVE]: unlinks the element from the list it is on.  A free element
    is on exactly one list, once; on an element that is on none the macro
    would be undefined. *)
Definition elem_free_list_remove (m : mem_config) (elem : Z) : mem_config :=
  let e := hdr m elem in
  let h := heap_of m (e_heap e) in
  set_heap m (e_heap e)
    (Heap (filter (fun x => x <> elem) <$> free_head h) (alloc_count h) (total_size h)).

(** The header of the allocated data; it is inside the element when the
    element is padded. *)
Definition malloc_elem_alloc (m : mem_config) (elem size align bound : Z) : mem_config * Z :=
  let new_elem := elem_start_pt m elem size align bound in
  let old_elem_size := u64 (new_elem - elem) in
  let trailer_size :=
    u64 (e_size (hdr m elem) - old_elem_size - size - MALLOC_ELEM_OVERHEAD) in
  let m1 := elem_free_list_remove m elem in
  let m2 :=
    if MALLOC_ELEM_OVERHEAD + MIN_DATA_SIZE <? trailer_size then
      let new_free_elem := ptr_add new_elem (size + MALLOC_ELEM_OVERHEAD) in
      malloc_elem_free_list_insert (split_elem m1 elem new_free_elem) new_free_elem
    else m1 in
  if old_elem_size <? MALLOC_ELEM_OVERHEAD + MIN_DATA_SIZE then
    let m3 := set_pad (set_state m2 elem ELEM_BUSY) elem old_elem_size in
    let e := hdr m3 elem in
    let m4 :=
      if 0 <? e_pad e then
        set_size (set_state (set_pad m3 new_elem (e_pad e)) new_elem ELEM_PAD) new_elem
          (e_size e - e_pad e)
      else m3 in
    (m4, new_elem)
  else
    let m3 := set_state (split_elem m2 elem new_elem) new_elem ELEM_BUSY in
    (malloc_elem_free_list_insert m3 elem, new_elem).

Definition join_elem (m : mem_config) (elem1 elem2 : Z) : mem_config :=
  let next := ptr_add elem2 (e_size (hdr m elem2)) in
  let m1 := set_size m elem1 (e_size (hdr m elem1) + e_size (hdr m elem2)) in
  set_prev m1 next elem1.

(** [elem->heap->alloc_count--], and [++] with [d = 1]. *)
Definition count_alloc (m : mem_config) (h d : Z) : mem_config :=
  let x := heap_of m h in
  set_heap m h (Heap (free_head x) (u32 (alloc_count x + d)) (total_size x)).

Definition malloc_elem_free (m : mem_config) (elem : Z) : mem_config * Z :=
  if (elem =? 0) || negb (bool_decide (e_state (hdr m elem) = ELEM_BUSY)) then (m, -1)
  else
    let next := ptr_add elem (e_size (hdr m elem)) in
    let m1 :=
      if bool_decide (e_state (hdr m next) = ELEM_FREE)
      then join_elem (elem_free_list_remove m next) elem next else m in
    let p := e_prev (hdr m1 elem) in
    let m2 :=
      if negb (p =? 0) && bool_decide (e_state (hdr m1 p) = ELEM_FREE)
      then malloc_elem_free_list_insert (join_elem (elem_free_list_remove m1 p) p elem) p
      else set_pad (malloc_elem_free_list_insert m1 elem) elem 0 in
    (count_alloc m2 (e_heap (hdr m2 elem)) (-1), 0).

Definition malloc_elem_resize (m : mem_config) (elem size : Z) : mem_config * Z :=
  let new_size := u64 (size + MALLOC_ELEM_OVERHEAD) in
  let current_size := u64 (e_size (hdr m elem) - e_pad (hdr m elem)) in
  if new_size <=? current_size then (m, 0)
  else
    let next := ptr_add elem (e_size (hdr m elem)) in
    if negb (bool_decide (e_state (hdr m next) = ELEM_FREE)) then (m, -1)
    else if u64 (current_size + e_size (hdr m next)) <? new_size then (m, -1)
    else
      let m1 := join_elem (elem_free_list_remove m next) elem next in
      if MIN_DATA_SIZE + MALLOC_ELEM_OVERHEAD <=? u64 (e_size (hdr m1 elem) - new_size) then
        let split_pt := RTE_ALIGN_FLOOR (ptr_add (ptr_add elem new_size) (RTE_CACHE_LINE_SIZE - 1))
                          RTE_CACHE_LINE_SIZE in
        (malloc_elem_free_list_insert (split_elem m1 elem split_pt) split_pt, 0)
      else (m1, 0).

(** ** Heaps *)

Definition RTE_MEMZONE_SIZE_HINT_ONLY : Z := 0x4.

(** [check_hugepage_sz]; the flag of each page size. *)
Definition page_flag (hugepage_sz : Z) : Z :=
  if hugepage_sz =? 2 ^ 18 then 0x10000
  else if hugepage_sz =? 2 ^ 21 then 0x1
  else if hugepage_sz =? 2 ^ 24 then 0x100
  else if hugepage_sz =? 2 ^ 28 then 0x20000
  else if hugepage_sz =? 2 ^ 29 then 0x40000
  else if hugepage_sz =? 2 ^ 30 then 0x2
  else if hugepage_sz =? 2 ^ 32 then 0x80000
  else if hugepage_sz =? 2 ^ 34 then 0x200
  else 0.

Definition check_hugepage_sz (flags hugepage_sz : Z) : bool :=
  if Z.land flags (u32 (Z.lnot RTE_MEMZONE_SIZE_HINT_ONLY)) =? 0 then true
  else negb (Z.land (page_flag hugepage_sz) flags =? 0).

Definition malloc_heap_add_memseg (m : mem_config) (heap ms : Z) : mem_config :=
  let seg := memseg m !!! ms in
  let start_elem := ms_addr seg in
  let end_elem := RTE_ALIGN_FLOOR (ptr_add (ms_addr seg) (ms_len seg - MALLOC_ELEM_OVERHEAD))
                    RTE_CACHE_LINE_SIZE in
  let elem_size := u64 (end_elem - start_elem) in
  let m1 := malloc_elem_init m start_elem heap ms elem_size in
  let m2 := malloc_elem_mkend m1 end_elem start_elem in
  let m3 := malloc_elem_free_list_insert m2 start_elem in
  let h := heap_of m3 heap in
  set_heap m3 heap (Heap (free_head h) (alloc_count h) (u64 (total_size h + elem_size))).

(** The elements the two loops of [find_suitable_element] visit, in order. *)
Definition candidates (m : mem_config) (heap size : Z) : list Z :=
  flat_map (fun idx => free_head (heap_of m heap) !!! idx)
    (seqZ (malloc_elem_free_list_index size)
       (RTE_HEAP_NUM_FREELISTS - malloc_elem_free_list_index size)).

Fixpoint suitable_from (m : mem_config) (size flags align bound : Z) (l : list Z) (alt_elem : Z) : Z :=
  match l with
  | [] => if negb (alt_elem =? 0) && negb (Z.land flags RTE_MEMZONE_SIZE_HINT_ONLY =? 0)
          then alt_elem else 0
  | elem :: l' =>
      if malloc_elem_can_hold m elem size align bound then
        if check_hugepage_sz flags (ms_hugepage_sz (memseg m !!! e_ms (hdr m elem))) then elem
        else suitable_from m size flags align bound l' (if alt_elem =? 0 then elem else alt_elem)
      else suitable_from m size flags align bound l' alt_elem
  end.

Definition find_suitable_element (m : mem_config) (heap size flags align bound : Z) : Z :=
  suitable_from m size flags align bound (candidates m heap size) 0.

(** The address of the data, 0 when there is no suitable element. *)
Definition malloc_heap_alloc (m : mem_config) (heap size flags align bound : Z) : mem_config * Z :=
  let size := RTE_CACHE_LINE_ROUNDUP size in
  let align := RTE_CACHE_LINE_ROUNDUP align in
  let elem := find_suitable_element m heap size flags align bound in
  if elem =? 0 then (m, 0)
  else
    let '(m1, new_elem) := malloc_elem_alloc m elem size align bound in
    (count_alloc m1 heap 1, ptr_add new_elem MALLOC_ELEM_HEADER_LEN).

Record rte_malloc_socket_stats := Stats {
  heap_totalsz_bytes : Z;
  heap_freesz_bytes : Z;
  greatest_free_size : Z;
  free_count : Z;
  stat_alloc_count : Z;
  heap_allocsz_bytes : Z
}.

Definition malloc_heap_get_stats (m : mem_config) (heap : Z) : rte_malloc_socket_stats :=
  let h := heap_of m heap in
  let frees := flat_map (fun idx => free_head h !!! idx) (seqZ 0 RTE_HEAP_NUM_FREELISTS) in
  let '(count, freesz, greatest) :=
    fold_left (fun '(c, f, g) elem =>
        let s := e_size (hdr m elem) in (u32 (c + 1), u64 (f + s), if g <? s then s else g))
      frees (0, 0, 0) in
  Stats (total_size h) freesz greatest count (alloc_count h) (u64 (total_size h - freesz)).

(** The loop over the segments stops at the first one of length 0. *)
Fixpoint heap_init_from (m : mem_config) (n : nat) (ms_cnt : Z) : mem_config :=
  match n with
  | O => m
  | S n' =>
      let seg := memseg m !!! ms_cnt in
      if 0 <? ms_len seg
      then heap_init_from (malloc_heap_add_memseg m (ms_socket_id seg) ms_cnt) n' (ms_cnt + 1)
      else m
  end.

Definition rte_eal_malloc_heap_init (m : mem_config) : mem_config * Z :=
  (heap_init_from m (Z.to_nat RTE_MAX_MEMSEG) 0, 0).

(** ** The allocation functions *)

Definition malloc_elem_from_data (m : mem_config) (data : Z) : Z :=
  if data =? 0 then 0
  else
    let elem := u64 (data - MALLOC_ELEM_HEADER_LEN) in
    if elem =? 0 then 0
    else if bool_decide (e_state (hdr m elem) = ELEM_PAD)
    then u64 (elem - e_pad (hdr m elem)) else elem.

(** [None] is [rte_panic]. *)
Definition rte_free (m : mem_config) (addr : Z) : option mem_config :=
  if addr =? 0 then Some m
  else
    let '(m1, rc) := malloc_elem_free m (malloc_elem_from_data m addr) in
    if rc <? 0 then None else Some m1.

Section allocation.
(** The environment: are there huge pages, and the socket of the calling core. *)
Context (has_hugepages : bool) (rte_socket_id : Z).

Definition malloc_get_numa_socket : Z :=
  if rte_socket_id =? SOCKET_ID_ANY then 0 else rte_socket_id.

Fixpoint try_heaps (m : mem_config) (size align : Z) (socket : Z) (n : nat) (i : Z) : mem_config * Z :=
  match n with
  | O => (m, 0)
  | S n' =>
      if i =? socket then try_heaps m size align socket n' (i + 1)
      else
        let '(m1, ret) := malloc_heap_alloc m i size 0 (if align =? 0 then 1 else align) 0 in
        if ret =? 0 then try_heaps m1 size align socket n' (i + 1) else (m1, ret)
  end.

Definition rte_malloc_socket (m : mem_config) (size align socket_arg : Z) : mem_config * Z :=
  if (size =? 0) || (negb (align =? 0) && negb (rte_is_power_of_2 align)) then (m, 0)
  else
    let socket_arg := if has_hugepages then socket_arg else SOCKET_ID_ANY in
    let socket := if socket_arg =? SOCKET_ID_ANY then malloc_get_numa_socket else socket_arg in
    if RTE_MAX_NUMA_NODES <=? socket then (m, 0)
    else
      let '(m1, ret) := malloc_heap_alloc m socket size 0 (if align =? 0 then 1 else align) 0 in
      if negb (ret =? 0) || negb (socket_arg =? SOCKET_ID_ANY) then (m1, ret)
      else try_heaps m1 size align socket (Z.to_nat RTE_MAX_NUMA_NODES) 0.

Definition rte_malloc (m : mem_config) (size align : Z) : mem_config * Z :=
  rte_malloc_socket m size align SOCKET_ID_ANY.

End allocation.

(** The size of the data of an allocated block ([rte_malloc_validate]). *)
Definition rte_malloc_validate (m : mem_config) (ptr : Z) : Z * Z :=
  let elem := malloc_elem_from_data m ptr in
  if elem =? 0 then (-1, 0)
  else (0, u64 (e_size (hdr m elem) - e_pad (hdr m elem) - MALLOC_ELEM_OVERHEAD)).
