(* ===== verification/MallocProofs.v ===== *)
(** * The memory heap: the chain of elements

    The headers of a segment form a chain of blocks from its start to the end
    marker.  The lemmas of this file say what each header operation does to
    that chain; the blocks of a segment are a list, so that two blocks are
    disjoint by construction. *)

From S2P Require Import Prelude Malloc.

(** ** Blocks and segments *)

Record blk := Blk { b_addr : Z; b_size : Z; b_busy : bool; b_pad : Z }.

Record seg := Seg { s_heap : Z; s_ms : Z; s_start : Z; s_end : Z; s_blks : list blk }.

Definition with_blks (s : seg) (bs : list blk) : seg :=
  Seg (s_heap s) (s_ms s) (s_start s) (s_end s) bs.

(** Sizes are multiples of the cache line; a padded block has a second header
    behind its padding. *)
Record blk_ok (m : mem_config) (b : blk) : Prop := {
  bk_size : 128 <= b_size b;
  bk_align : b_size b mod 64 = 0;
  bk_pad : b_pad b = 0 \/ b_busy b = true /\ b_pad b = 64 /\ 192 <= b_size b;
  bk_padhdr : b_pad b <> 0 -> e_state (hdr m (b_addr b + b_pad b)) = ELEM_PAD /\
                e_pad (hdr m (b_addr b + b_pad b)) = b_pad b
}.

Definition blk_state (b : blk) : elem_state := if b_busy b then ELEM_BUSY else ELEM_FREE.

(** The header of block [b] of a segment, behind the block at [prev]. *)
Definition blk_hdr (s : seg) (prev : Z) (b : blk) : malloc_elem :=
  Elem (s_heap s) prev (s_ms s) (blk_state b) (b_pad b) (b_size b).

(** The blocks [bs] from address [a] to the end marker. *)
Fixpoint chain (m : mem_config) (s : seg) (a prev : Z) (bs : list blk) : Prop :=
  match bs with
  | [] => a = s_end s /\ hdr m a = Elem (s_heap s) prev (s_ms s) ELEM_BUSY 0 0
  | b :: bs' => b_addr b = a /\ hdr m a = blk_hdr s prev b /\ blk_ok m b /\
      chain m s (a + b_size b) a bs'
  end.

(** The blocks [bs] from [a] up to [e], the last of which is at [last]. *)
Fixpoint segment (m : mem_config) (s : seg) (a prev : Z) (bs : list blk) (e last : Z) : Prop :=
  match bs with
  | [] => a = e /\ prev = last
  | b :: bs' => b_addr b = a /\ hdr m a = blk_hdr s prev b /\ blk_ok m b /\
      segment m s (a + b_size b) a bs' e last
  end.

Lemma hdr_write m a x b : hdr (write m a x) b = if decide (a = b) then x else hdr m b.
Proof. unfold hdr, write. cbn. apply lookup_total_insert. Qed.

Lemma blk_chain_app m s bs1 bs2 a p :
  chain m s a p (bs1 ++ bs2) <-> exists e q, segment m s a p bs1 e q /\ chain m s e q bs2.
Proof.
  revert a p. induction bs1 as [|b bs1 IH]; intros a p; cbn.
  - split; [eauto|]. intros (?&?&[-> ->]&?). done.
  - split.
    + intros (?&?&?&(e&q&?&?)%IH). exists e, q. done.
    + intros (e&q&(?&?&?&?)&?). split_and!; try done. apply IH. eauto.
Qed.

(** ** Frame *)

Lemma blk_ok_ext m m' b :
  (forall x, b_addr b <= x < b_addr b + b_size b -> hdr m' x = hdr m x) -> blk_ok m b -> blk_ok m' b.
Proof.
  intros Hx []. split; try done. intros Hp. rewrite Hx; [by apply bk_padhdr0|].
  destruct bk_pad0 as [|(_&?&?)]; lia.
Qed.

Lemma blk_chain_le m s a p bs : chain m s a p bs -> a <= s_end s.
Proof.
  revert a p. induction bs as [|b bs IH]; intros a p; cbn; [lia|].
  intros (_&_&[]&?%IH). lia.
Qed.

Lemma segment_le m s a p bs e q : segment m s a p bs e q -> a <= e.
Proof.
  revert a p. induction bs as [|b bs IH]; intros a p; cbn; [lia|].
  intros (_&_&[]&?%IH). lia.
Qed.

Lemma chain_ext m m' s a p bs :
  (forall x, a <= x <= s_end s -> hdr m' x = hdr m x) -> chain m s a p bs -> chain m' s a p bs.
Proof.
  revert a p. induction bs as [|b bs IH]; intros a p Hx; cbn.
  - intros [-> Hh]. split; [done|]. by rewrite Hx by lia.
  - intros (<-&Hh&Hok&Hc). pose proof (blk_chain_le _ _ _ _ _ Hc) as Hle. destruct (Hok).
    rewrite Hx by lia. split_and!; try done.
    + eapply blk_ok_ext; [|done]. intros x ?. apply Hx. lia.
    + apply IH; [|done]. intros x ?. apply Hx. lia.
Qed.

Lemma segment_ext m m' s a p bs e q :
  (forall x, a <= x < e -> hdr m' x = hdr m x) -> segment m s a p bs e q -> segment m' s a p bs e q.
Proof.
  revert a p. induction bs as [|b bs IH]; intros a p Hx; cbn; [done|].
  intros (<-&Hh&Hok&Hc). pose proof (segment_le _ _ _ _ _ _ _ Hc) as Hle. destruct (Hok).
  rewrite Hx by lia. split_and!; try done.
  - eapply blk_ok_ext; [|done]. intros x ?. apply Hx. lia.
  - apply IH; [|done]. intros x ?. apply Hx. lia.
Qed.

(** The first block of a chain with another predecessor. *)
Lemma chain_set_prev m s a p p' bs :
  chain m s a p bs -> chain (set_prev m a p') s a p' bs.
Proof.
  unfold set_prev. destruct bs as [|b bs]; cbn.
  - intros [-> ->]. split; [done|]. rewrite hdr_write, decide_True by done. done.
  - intros (<-&->&Hok&Hc). rewrite hdr_write, decide_True by done. destruct (Hok).
    split_and!; try done.
    + split; try done. intros Hp. rewrite hdr_write, decide_False by lia. by apply bk_padhdr0.
    + eapply chain_ext; [|done]. intros x ?. by rewrite hdr_write, decide_False by lia.
Qed.

(** A chain is its first block and the chain behind it. *)
Lemma chain_cons_intro m s a p b bs :
  b_addr b = a -> hdr m a = blk_hdr s p b -> blk_ok m b -> chain m s (a + b_size b) a bs ->
  chain m s a p (b :: bs).
Proof. cbn. auto. Qed.

Lemma blk_ok_free m b : 128 <= b_size b -> b_size b mod 64 = 0 -> b_pad b = 0 -> blk_ok m b.
Proof. intros. split; [done|done|by left|done]. Qed.

(** ** Splitting and joining *)

Ltac hdrs :=
  cbn [b_addr b_size b_busy b_pad] in *;
  repeat (rewrite hdr_write; first [rewrite decide_True by done | rewrite decide_False by lia]).

Lemma split_hdr m s a p b sp :
  hdr m a = blk_hdr s p b -> 0 < a -> a < sp < a + b_size b -> a + b_size b < 2 ^ 63 ->
  split_elem m a sp =
    set_size (set_prev (set_prev (malloc_elem_init m sp (s_heap s) (s_ms s) (a + b_size b - sp))
                          sp a) (a + b_size b) sp) a (sp - a).
Proof.
  intros Hh ? ? ?. unfold split_elem, ptr_add. rewrite Hh. cbn [blk_hdr e_size e_heap e_ms].
  rewrite (u64_small (sp - a)), (u64_small (b_size b - (sp - a))), (u64_small (a + b_size b)) by lia.
  do 4 f_equal. lia.
Qed.

Lemma split_chain m s a p b bs sp :
  chain m s a p (b :: bs) -> 0 < a -> s_end s < 2 ^ 63 ->
  a + 128 <= sp -> sp + 128 <= a + b_size b -> (sp - a) mod 64 = 0 ->
  b_pad b = 0 \/ a + 192 <= sp ->
  chain (split_elem m a sp) s a p
    (Blk a (sp - a) (b_busy b) (b_pad b) :: Blk sp (a + b_size b - sp) false 0 :: bs).
Proof.
  intros (Ha&Hh&Hok&Hc) Hpos He Hlo Hhi Hmod Hpad. pose proof (blk_chain_le _ _ _ _ _ Hc) as Hle.
  destruct (Hok). rewrite (split_hdr m s a p b sp) by (done || lia).
  unfold malloc_elem_init, set_size. set (m1 := write m sp _).
  assert (Hc1 : chain (set_prev m1 sp a) s (a + b_size b) a bs).
  { eapply chain_ext; [|done]. intros x ?. unfold set_prev, m1. hdrs. done. }
  apply (chain_set_prev _ _ _ _ sp) in Hc1.
  assert (Hx : forall x, a < x -> x <> sp -> x <> a + b_size b ->
    hdr (set_prev (set_prev m1 sp a) (a + b_size b) sp) x = hdr m x).
  { intros x ? ? ?. unfold set_prev, m1. hdrs. done. }
  assert (Hsp : hdr (set_prev (set_prev m1 sp a) (a + b_size b) sp) sp =
    Elem (s_heap s) a (s_ms s) ELEM_FREE 0 (a + b_size b - sp)).
  { unfold set_prev, m1. hdrs. cbn. rewrite u64_small by lia. done. }
  assert (Hha : hdr (set_prev (set_prev m1 sp a) (a + b_size b) sp) a = blk_hdr s p b).
  { unfold set_prev, m1. hdrs. done. }
  set (m3 := set_prev _ _ _) in *. apply chain_cons_intro; [done| | |apply chain_cons_intro]; cbn.
  - hdrs. rewrite Hha, u64_small by lia. done.
  - split; cbn; [lia|done| |].
    + destruct bk_pad0 as [?|(?&?&?)]; [by left|right]. split_and!; done || lia.
    + intros Hp. destruct bk_pad0 as [?|(?&Hp64&?)]; [done|]. hdrs. rewrite Hx by lia.
      rewrite <- Ha. by apply bk_padhdr0.
  - lia.
  - replace (a + (sp - a)) with sp by lia. hdrs. done.
  - apply blk_ok_free; cbn; [lia| |done]. dlia.
  - replace (a + (sp - a) + (a + b_size b - sp)) with (a + b_size b) by lia.
    replace (a + (sp - a)) with sp by lia.
    eapply chain_ext; [|exact Hc1]. intros x ?. hdrs. done.
Qed.

Lemma split_other m s a p b sp x :
  hdr m a = blk_hdr s p b -> 0 < a -> a < sp < a + b_size b -> a + b_size b < 2 ^ 63 ->
  x <> a -> x <> sp -> x <> a + b_size b -> hdr (split_elem m a sp) x = hdr m x.
Proof.
  intros. rewrite (split_hdr m s a p b sp) by done.
  unfold set_size, set_prev, malloc_elem_init. hdrs. done.
Qed.

Lemma join_hdr m s a p q b b' :
  hdr m a = blk_hdr s p b -> hdr m (a + b_size b) = blk_hdr s q b' ->
  0 < a -> 0 < b_size b -> 0 < b_size b' -> a + b_size b + b_size b' < 2 ^ 63 ->
  join_elem m a (a + b_size b) =
    set_prev (set_size m a (b_size b + b_size b')) (a + b_size b + b_size b') a.
Proof.
  intros Hh Hh' ? ? ? ?. unfold join_elem, ptr_add. rewrite Hh, Hh'. cbn [blk_hdr e_size].
  rewrite !u64_small by lia. done.
Qed.

Lemma join_chain m s a p b b' bs :
  chain m s a p (b :: b' :: bs) -> 0 < a -> s_end s < 2 ^ 63 ->
  chain (join_elem m a (a + b_size b)) s a p
    (Blk a (b_size b + b_size b') (b_busy b) (b_pad b) :: bs).
Proof.
  intros (Ha&Hh&Hok&Ha'&Hh'&Hok'&Hc) Hpos He. pose proof (blk_chain_le _ _ _ _ _ Hc) as Hle.
  destruct (Hok), (Hok'). rewrite (join_hdr m s a p a b b') by (done || lia).
  assert (Hc1 : chain (set_size m a (b_size b + b_size b')) s (a + b_size b + b_size b') (a + b_size b) bs).
  { eapply chain_ext; [|done]. intros x ?. unfold set_size. hdrs. done. }
  apply (chain_set_prev _ _ _ _ a) in Hc1. apply chain_cons_intro; cbn.
  - done.
  - unfold set_prev, set_size. hdrs. rewrite Hh, u64_small by lia. done.
  - split; cbn; [lia|dlia| |].
    + destruct bk_pad0 as [?|(?&?&?)]; [by left|right]. split_and!; done || lia.
    + intros Hp. destruct bk_pad0 as [?|(?&Hp64&?)]; [done|]. unfold set_prev, set_size. hdrs.
      rewrite <- Ha. by apply bk_padhdr0.
  - rewrite Z.add_assoc. exact Hc1.
Qed.

Lemma join_other m s a p q b b' x :
  hdr m a = blk_hdr s p b -> hdr m (a + b_size b) = blk_hdr s q b' ->
  0 < a -> 0 < b_size b -> 0 < b_size b' -> a + b_size b + b_size b' < 2 ^ 63 ->
  x <> a -> x <> a + b_size b + b_size b' -> hdr (join_elem m a (a + b_size b)) x = hdr m x.
Proof.
  intros. rewrite (join_hdr m s a p q b b') by done. unfold set_prev, set_size. hdrs. done.
Qed.

(** ** The free lists *)

(** The element [x] is on the free list [idx] of heap [h]. *)
Definition in_fl (m : mem_config) (h idx x : Z) : Prop := x ∈ free_head (heap_of m h) !!! idx.

Definition fl_index (size : Z) : Z := malloc_elem_free_list_index (u64 (size - MALLOC_ELEM_HEADER_LEN)).

Lemma heap_of_set m h x h' : heap_of (set_heap m h x) h' = if decide (h = h') then x else heap_of m h'.
Proof. unfold heap_of, set_heap. cbn. apply lookup_total_insert. Qed.

Lemma remove_hdr m a x : hdr (elem_free_list_remove m a) x = hdr m x.
Proof. done. Qed.

Lemma remove_in_fl m a h idx x :
  in_fl (elem_free_list_remove m a) h idx x <->
  in_fl m h idx x /\ ~ (h = e_heap (hdr m a) /\ x = a).
Proof.
  unfold in_fl, elem_free_list_remove. rewrite heap_of_set.
  case_decide as E; [|naive_solver]. subst h. cbn [free_head].
  rewrite !lookup_total_alt, lookup_fmap.
  destruct (free_head _ !! idx) as [l|]; cbn; [|split; [by intros ?%not_elem_of_nil|by intros [?%not_elem_of_nil _]]].
  rewrite list_elem_of_filter. naive_solver.
Qed.

Lemma insert_hdr m a x :
  hdr (malloc_elem_free_list_insert m a) x = hdr (set_state m a ELEM_FREE) x.
Proof. done. Qed.

Lemma insert_hdr_free m a x :
  e_state (hdr m a) = ELEM_FREE -> hdr (malloc_elem_free_list_insert m a) x = hdr m x.
Proof.
  intros Hs. rewrite insert_hdr. unfold set_state. rewrite hdr_write. case_decide; [subst|done].
  rewrite <- Hs. by destruct (hdr m x).
Qed.

Lemma insert_in_fl m a h idx x :
  in_fl (malloc_elem_free_list_insert m a) h idx x <->
  in_fl m h idx x \/ (h = e_heap (hdr m a) /\ idx = fl_index (e_size (hdr m a)) /\ x = a).
Proof.
  unfold in_fl, malloc_elem_free_list_insert. fold (fl_index (e_size (hdr m a))). rewrite heap_of_set.
  change (heap_of (set_state m a ELEM_FREE)) with (heap_of m).
  case_decide as E; [|naive_solver]. subst h. cbn [free_head].
  rewrite lookup_total_insert. case_decide as Ei; [subst idx; rewrite elem_of_cons|]; naive_solver.
Qed.

(** The block at [x] of a list of blocks is free and belongs on list [idx]. *)
Definition is_free (bs : list blk) (idx x : Z) : Prop :=
  exists b, b ∈ bs /\ b_busy b = false /\ b_addr b = x /\ idx = fl_index (b_size b).

Lemma is_free_nil idx x : is_free [] idx x <-> False.
Proof. split; [|done]. by intros (b&?%not_elem_of_nil&_). Qed.

Lemma is_free_cons b bs idx x :
  is_free (b :: bs) idx x <->
  (b_busy b = false /\ b_addr b = x /\ idx = fl_index (b_size b)) \/ is_free bs idx x.
Proof. unfold is_free. setoid_rewrite elem_of_cons. naive_solver. Qed.

Lemma is_free_app bs bs' idx x : is_free (bs ++ bs') idx x <-> is_free bs idx x \/ is_free bs' idx x.
Proof. unfold is_free. setoid_rewrite elem_of_app. naive_solver. Qed.

Lemma segment_addr m s a p bs e q b :
  segment m s a p bs e q -> b ∈ bs -> a <= b_addr b /\ b_addr b + b_size b <= e /\ blk_ok m b.
Proof.
  revert a p. induction bs as [|c bs IH]; intros a p; cbn; [intros _ []%not_elem_of_nil|].
  intros (<-&_&Hok&Hs) [->|Hb]%elem_of_cons.
  - pose proof (segment_le _ _ _ _ _ _ _ Hs). split_and!; done || lia.
  - destruct (IH _ _ Hs Hb) as (?&?&?). destruct Hok. split_and!; done || lia.
Qed.

Lemma chain_addr m s a p bs b :
  chain m s a p bs -> b ∈ bs -> a <= b_addr b /\ b_addr b + b_size b <= s_end s /\ blk_ok m b.
Proof.
  revert a p. induction bs as [|c bs IH]; intros a p; cbn; [intros _ []%not_elem_of_nil|].
  intros (<-&_&Hok&Hs) [->|Hb]%elem_of_cons.
  - pose proof (blk_chain_le _ _ _ _ _ Hs). split_and!; done || lia.
  - destruct (IH _ _ Hs Hb) as (?&?&?). destruct Hok. split_and!; done || lia.
Qed.

(** ** Allocating inside a free block *)

Lemma set_state_chain m s a p b busy bs :
  chain m s a p (b :: bs) -> b_pad b = 0 ->
  chain (set_state m a (if busy : bool then ELEM_BUSY else ELEM_FREE)) s a p
    (Blk a (b_size b) busy 0 :: bs).
Proof.
  intros (Ha&Hh&[]&Hc) Hp. unfold set_state. rewrite Hh. apply chain_cons_intro; cbn.
  - done.
  - hdrs. by rewrite Hp.
  - by apply blk_ok_free.
  - eapply chain_ext; [|done]. intros x ?. hdrs. done.
Qed.

(** The blocks that replace the free block of size [bsz] at [a] when [size]
    bytes are allocated behind the header [ne]. *)
Definition alloc_blks (a bsz ne size : Z) : list blk :=
  let tr := bsz - (ne - a) - size - 64 in
  let e := if 128 <? tr then ne + (size + 64) else a + bsz in
  let tail := if 128 <? tr then [Blk e (a + bsz - e) false 0] else [] in
  if ne - a <? 128 then Blk a (e - a) true (ne - a) :: tail
  else Blk a (ne - a) false 0 :: Blk ne (e - ne) true 0 :: tail.

(** The first part of [malloc_elem_alloc]: cutting off the end. *)
Lemma alloc_tail m s a p b bs ne size :
  chain m s a p (b :: bs) -> b_busy b = false -> 0 < a -> s_end s < 2 ^ 63 ->
  a <= ne -> (ne - a) mod 64 = 0 -> 64 <= size -> size mod 64 = 0 -> ne + 64 + size <= a + b_size b ->
  let tr := b_size b - (ne - a) - size - 64 in
  let nf := ne + (size + 64) in
  let e := if 128 <? tr then nf else a + b_size b in
  let m2 := if 128 <? tr then malloc_elem_free_list_insert (split_elem m a nf) nf else m in
  chain m2 s a p (Blk a (e - a) false 0 ::
    (if 128 <? tr then [Blk e (a + b_size b - e) false 0] else []) ++ bs) /\
  (forall x, x < a \/ a + b_size b < x -> hdr m2 x = hdr m x) /\
  (forall h idx x, in_fl m2 h idx x <-> in_fl m h idx x \/
     (128 < tr /\ h = s_heap s /\ x = nf /\ idx = fl_index (a + b_size b - nf))).
Proof.
  intros Hc Hfree Hpos He Hle Hmod Hsz Hsmod Hfit tr nf e m2.
  pose proof Hc as (Ha&Hh&[]&Hc'). pose proof (blk_chain_le _ _ _ _ _ Hc').
  assert (Hp0 : b_pad b = 0) by (destruct bk_pad0 as [|(?&_)]; congruence).
  unfold m2, e. destruct (Z.ltb_spec 128 tr) as [Htr|Htr].
  - assert (Htr' : 192 <= tr) by dlia.
    pose proof (split_chain m s a p b bs nf Hc Hpos He ltac:(lia) ltac:(lia) ltac:(dlia)
      (or_introl Hp0)) as Hs. rewrite Hfree, Hp0 in Hs.
    pose proof Hs as (_&_&_&_&Hnf&_). replace (a + _) with nf in Hnf by (cbn; lia).
    split_and!.
    + eapply chain_ext; [|exact Hs]. intros x _. apply insert_hdr_free. by rewrite Hnf.
    + intros x ?. rewrite insert_hdr_free by (by rewrite Hnf). eapply split_other; done || lia.
    + intros h idx x. rewrite insert_in_fl, Hnf. cbn. split.
      * intros [Hin|(->&->&->)]; [|right; split_and!; done || lia]. left.
        by rewrite (split_hdr m s a p b nf) in Hin by (done || lia).
      * intros [Hin|(_&->&->&->)]; [|by right]. left.
        by rewrite (split_hdr m s a p b nf) by (done || lia).
  - split_and!; [|done|intros h idx x; split; [by left|]; intros [?|[? _]]; [done|lia]].
    apply chain_cons_intro; cbn; [done| | |].
    + rewrite Hh. unfold blk_hdr, blk_state. cbn. rewrite Hfree, Hp0. f_equal. lia.
    + apply blk_ok_free; cbn; [lia| |done]. by replace (a + b_size b - a) with (b_size b) by lia.
    + by replace (a + (a + b_size b - a)) with (a + b_size b) by lia.
Qed.

(** The second part: the front is padding, or an element of its own. *)
Lemma alloc_front m s a p sz bs ne :
  chain m s a p (Blk a sz false 0 :: bs) -> 0 < a -> s_end s < 2 ^ 63 ->
  a <= ne -> (ne - a) mod 64 = 0 -> ne + 128 <= a + sz ->
  let m4 :=
    if ne - a <? 128 then
      let m3 := set_pad (set_state m a ELEM_BUSY) a (ne - a) in
      let e := hdr m3 a in
      if 0 <? e_pad e then
        set_size (set_state (set_pad m3 ne (e_pad e)) ne ELEM_PAD) ne (e_size e - e_pad e)
      else m3
    else malloc_elem_free_list_insert (set_state (split_elem m a ne) ne ELEM_BUSY) a in
  chain m4 s a p ((if ne - a <? 128 then [Blk a sz true (ne - a)]
                   else [Blk a (ne - a) false 0; Blk ne (a + sz - ne) true 0]) ++ bs) /\
  (forall x, x < a \/ a + sz < x -> hdr m4 x = hdr m x) /\
  (forall h idx x, in_fl m4 h idx x <-> in_fl m h idx x \/
     (128 <= ne - a /\ h = s_heap s /\ x = a /\ idx = fl_index (ne - a))).
Proof.
  intros Hc Hpos He Hle Hmod Hfit. pose proof Hc as (_&Hh&[]&Hc'). cbn in * |-.
  pose proof (blk_chain_le _ _ _ _ _ Hc'). destruct (Z.ltb_spec (ne - a) 128) as [Hd|Hd].
  - assert (Hds : ne - a = 0 \/ ne - a = 64) by dlia.
    assert (Hw : wrap 32 (ne - a) = ne - a) by (apply wrap_small; lia).
    unfold set_pad, set_state. rewrite Hh. hdrs.
    cbn [e_heap e_prev e_ms e_state e_pad e_size blk_hdr b_size b_pad]. rewrite Hw.
    destruct Hds as [E|E]; rewrite E; cbn [Z.ltb Z.compare app];
      (split; [|split; [intros x ?; unfold set_size; hdrs; done|]]).
    + apply chain_cons_intro; [done|by hdrs|by apply blk_ok_free|].
      eapply chain_ext; [|done]. intros x ?. hdrs. done.
    + intros h idx x. split; [by left|]. intros [?|[? _]]; done || lia.
    + assert (a <> ne) by lia. apply chain_cons_intro; [done|by unfold set_size; hdrs| |].
      * split; [done|done|right; cbn; split_and!; done || lia|]. intros _. cbn.
        replace (a + 64) with ne by lia. unfold set_size. hdrs. done.
      * eapply chain_ext; [|done]. intros x ?. unfold set_size. hdrs. done.
    + intros h idx x. split; [by left|]. intros [?|[? _]]; done || lia.
  - pose proof (split_chain m s a p (Blk a sz false 0) bs ne Hc Hpos He ltac:(lia) ltac:(cbn; lia)
      Hmod (or_introl eq_refl)) as (_&Hha&Hoka&Hc1).
    cbn [b_addr b_size b_busy b_pad] in Hha, Hc1.
    replace (a + (ne - a)) with ne in Hc1 by lia.
    pose proof Hc1 as (_&Hne&_). apply (set_state_chain _ _ _ _ _ true) in Hc1; [|done].
    cbn [b_size] in Hc1.
    assert (Hfr : e_state (hdr (set_state (split_elem m a ne) ne ELEM_BUSY) a) = ELEM_FREE).
    { unfold set_state. hdrs. by rewrite Hha. }
    split_and!.
    + eapply chain_ext; [intros x _; by apply insert_hdr_free|].
      apply chain_cons_intro; [done| | |by replace (a + _) with ne by (cbn; lia)]; cbn.
      * unfold set_state. hdrs. by rewrite Hha.
      * apply blk_ok_free; cbn [b_size b_pad]; done || lia.
    + intros x ?. rewrite insert_hdr_free by done. unfold set_state. hdrs.
      eapply (split_other m s a p (Blk a sz false 0)); done || (cbn; lia).
    + intros h idx x. rewrite insert_in_fl. unfold set_state at 2 3. hdrs. rewrite Hha. cbn.
      rewrite (split_hdr m s a p (Blk a sz false 0) ne) by (done || (cbn; lia)). split.
      * intros [?|(->&->&->)]; [by left|by right].
      * intros [?|(_&->&->&->)]; [by left|by right].
Qed.

(** [malloc_elem_alloc] on a free block, for a start [ne] inside it. *)
Lemma elem_alloc_chain m s a p b bs size align bound (ne := elem_start_pt m a size align bound) :
  chain m s a p (b :: bs) -> b_busy b = false -> 0 < a -> s_end s < 2 ^ 63 ->
  a <= ne -> (ne - a) mod 64 = 0 -> 64 <= size -> size mod 64 = 0 -> ne + 64 + size <= a + b_size b ->
  exists m', malloc_elem_alloc m a size align bound = (m', ne) /\
    chain m' s a p (alloc_blks a (b_size b) ne size ++ bs) /\
    (forall x, x < a \/ a + b_size b < x -> hdr m' x = hdr m x) /\
    (forall h idx x, in_fl m' h idx x <->
       (in_fl m h idx x /\ ~ (h = s_heap s /\ x = a)) \/
       (h = s_heap s /\ is_free (alloc_blks a (b_size b) ne size) idx x)).
Proof.
  intros Hc Hfree Hpos He Hle Hmod Hsz Hsmod Hfit. pose proof Hc as (Ha&Hh&[]&Hc').
  pose proof (blk_chain_le _ _ _ _ _ Hc'). unfold malloc_elem_alloc. fold ne. rewrite Hh.
  change (MALLOC_ELEM_OVERHEAD + MIN_DATA_SIZE) with 128. change MALLOC_ELEM_OVERHEAD with 64.
  cbn [e_size blk_hdr]. rewrite (u64_small (ne - a)) by lia.
  rewrite (u64_small (b_size b - (ne - a) - size - 64)) by lia.
  unfold ptr_add. rewrite (u64_small (ne + (size + 64))) by lia.
  assert (Hc1 : chain (elem_free_list_remove m a) s a p (b :: bs)) by (by eapply chain_ext; [|exact Hc]).
  destruct (alloc_tail _ s a p b bs ne size Hc1) as (Hc2&Hx2&Hf2); [done..|].
  set (tr := b_size b - (ne - a) - size - 64) in *. set (nf := ne + (size + 64)) in *.
  set (m2 := if 128 <? tr then _ else _) in *.
  set (e := if 128 <? tr then nf else a + b_size b) in *.
  assert (He2 : ne + 128 <= e /\ e <= a + b_size b) by (unfold e; case_tests; lia).
  destruct (alloc_front m2 s a p (e - a) _ ne Hc2) as (Hc4&Hx4&Hf4); [done..|lia|].
  set (m4 := if ne - a <? 128 then _ else _) in *.
  exists m4. split_and!.
  - unfold m4. by destruct (ne - a <? 128).
  - unfold alloc_blks. fold tr nf. fold e. rewrite app_assoc in Hc4.
    replace (a + (e - a) - ne) with (e - ne) in Hc4 by lia. by destruct (ne - a <? 128).
  - intros x Hx. rewrite Hx4 by lia. apply Hx2. lia.
  - intros h idx x. rewrite Hf4, Hf2, remove_in_fl, Hh. cbn [e_heap blk_hdr].
    unfold alloc_blks. fold tr nf. fold e. unfold e.
    case_tests; rewrite ?is_free_cons, ?is_free_nil; cbn [b_busy b_addr b_size]; naive_solver lia.
Qed.
