(* ===== verification/MallocInv.v ===== *)
(** * The memory heap: placement, freeing and the invariant of the heap *)

From S2P Require Import Prelude Malloc MallocProofs.

(** ** Where an allocation is placed *)

Lemma align_floor_spec v k :
  0 <= v < 2 ^ 64 -> 0 <= k -> RTE_ALIGN_FLOOR v (2 ^ k) = v / 2 ^ k * 2 ^ k.
Proof.
  intros Hv Hk. unfold RTE_ALIGN_FLOOR. rewrite land_u64 by done.
  replace (Z.lnot (2 ^ k - 1)) with (- 2 ^ k) by (unfold Z.lnot; lia). by apply land_neg_pow2.
Qed.

(** The largest multiple of [q] that is at most [v]. *)
Lemma floor_bounds v q : 0 < q -> v - q < v / q * q <= v /\ (v / q * q) mod q = 0.
Proof.
  intros Hq. split; [|apply Z_mod_mult]. pose proof (Z.div_mod v q). pose proof (Z.mod_pos_bound v q). lia.
Qed.

(** A request the address arithmetic can represent for blocks from [base] on:
    the size is in whole cache lines, the alignment a power of two, the
    boundary 0 or a power of two that is at least the size. *)
Record request (base size align bound : Z) : Prop := {
  rq_size : 64 <= size;
  rq_lines : size mod 64 = 0;
  rq_align : exists k, 6 <= k < 32 /\ align = 2 ^ k;
  rq_bound : bound = 0 \/ exists j, 0 <= j < 63 /\ bound = 2 ^ j /\ size <= bound;
  rq_base : size + align + bound + 64 <= base
}.

(** The data behind the header [ne] fits into the block of size [sz] at [a]. *)
Definition placed (a sz size align bound ne : Z) : Prop :=
  a <= ne /\ (ne + 64) mod align = 0 /\ ne + 64 + size <= a + sz /\
  (bound <> 0 -> (ne + 64) / bound = (ne + 64 + size - 1) / bound).

Lemma same_block bound x y z : 0 < bound -> x <= y <= z -> x / bound = z / bound -> x / bound = y / bound.
Proof.
  intros Hb Hle E. pose proof (Z.div_le_mono x y bound Hb). pose proof (Z.div_le_mono y z bound Hb). lia.
Qed.

Lemma land_bmask v j :
  0 <= v < 2 ^ 64 -> 0 <= j -> Z.land v (u64 (Z.lnot (2 ^ j - 1))) = v / 2 ^ j * 2 ^ j.
Proof. apply align_floor_spec. Qed.

(** [elem_start_pt] places the data, and without a boundary it fails only when
    there is no place. *)
Lemma elem_start_pt_spec base m a sz size align bound :
  request base size align bound -> base <= a -> e_size (hdr m a) = sz -> 128 <= sz -> a + sz < 2 ^ 63 ->
  placed a sz size align bound (elem_start_pt m a size align bound) \/
  (elem_start_pt m a size align bound = 0 /\
   (bound = 0 -> forall d, d mod align = 0 -> a + 64 <= d -> d + size <= a + sz -> False)).
Proof.
  intros [Hs _ (k&Hk&->) Hb Hbase] Ha Hsz Hsz2 Hmax. unfold elem_start_pt. rewrite Hsz.
  change MALLOC_ELEM_TRAILER_LEN with 0. change MALLOC_ELEM_HEADER_LEN with 64.
  assert (Hkb : 2 ^ k <= 2 ^ 31) by (apply Z.pow_le_mono_r; lia).
  assert (Hkp : 0 < 2 ^ k) by lia.
  assert (Hb0 : 0 <= bound) by (destruct Hb as [->|(j&?&->&_)]; lia).
  assert (Ek : u32 (2 ^ k - 1) + 1 = 2 ^ k) by (rewrite u32_small; lia). rewrite Ek.
  replace (a + sz - 0) with (a + sz) by lia. rewrite (u64_small (a + sz)) by lia.
  rewrite (u64_small (a + sz - size)), (u64_small (a + sz - 1)) by lia.
  rewrite align_floor_spec by lia.
  destruct (floor_bounds (a + sz - size) (2 ^ k) Hkp) as [Hd Hdm].
  set (d := (a + sz - size) / 2 ^ k * 2 ^ k) in *.
  destruct Hb as [->|(j&Hj&->&Hsb)].
  - replace (u64 (Z.lnot (0 - 1))) with 0 by done. rewrite !Z.land_0_r, Z.eqb_refl.
    rewrite (u64_small (d - 64)) by lia. destruct (Z.ltb_spec (d - 64) a) as [Hlt|Hge].
    + right. split; [done|]. intros _ x Hx Hlo Hhi.
      assert (x <= d); [|lia]. unfold d. apply Z.div_exact in Hx; [|lia].
      assert (x / 2 ^ k <= (a + sz - size) / 2 ^ k) by (apply Z.div_le_mono; lia). nia.
    + left. unfold placed. replace (d - 64 + 64) with d by lia. split_and!; done || lia.
  - rewrite !land_bmask by lia.
    assert (Hjp : 0 < 2 ^ j) by lia.
    assert (Hplace : forall end_pt x, end_pt <= a + sz -> x = (end_pt - size) / 2 ^ k * 2 ^ k ->
      64 <= x <= end_pt - size -> x / 2 ^ j * 2 ^ j = (end_pt - 1) / 2 ^ j * 2 ^ j ->
      let r := if u64 (x - 64) <? a then 0 else u64 (x - 64) in
      placed a sz size (2 ^ k) (2 ^ j) r \/ (r = 0 /\ (2 ^ j = 0 -> forall d, d mod 2 ^ k = 0 ->
        a + 64 <= d -> d + size <= a + sz -> False))).
    { intros end_pt x Hend -> Hx Hsame. cbv zeta. rewrite u64_small by lia.
      set (x := (end_pt - size) / 2 ^ k * 2 ^ k) in *.
      destruct (Z.ltb_spec (x - 64) a); [right; split; [done|lia]|left].
      unfold placed. replace (x - 64 + 64) with x by lia. split_and!; [lia|apply Z_mod_mult|lia|].
      intros _. apply (same_block _ _ _ (end_pt - 1)); [lia..|]. nia. }
    destruct (Z.eqb_spec (d / 2 ^ j * 2 ^ j) ((a + sz - 1) / 2 ^ j * 2 ^ j)) as [E|_].
    + apply (Hplace (a + sz) d); done || lia.
    + rewrite align_floor_spec by lia.
      destruct (floor_bounds (a + sz) (2 ^ j) Hjp) as [He _].
      set (e := (a + sz) / 2 ^ j * 2 ^ j) in *.
      rewrite (u64_small (e - size)), (u64_small (e - 1)) by lia. rewrite align_floor_spec by lia.
      destruct (floor_bounds (e - size) (2 ^ k) Hkp) as [Hd2 _].
      set (d2 := (e - size) / 2 ^ k * 2 ^ k) in *. rewrite !land_bmask by lia.
      destruct (Z.eqb_spec ((e - 1) / 2 ^ j * 2 ^ j) (d2 / 2 ^ j * 2 ^ j)) as [E|_].
      * apply (Hplace e d2); done || lia.
      * right. split; [done|lia].
Qed.

(** ** Changing the end of a segment

    [suffix m s a p bs]: from [a] on, the segment [s] holds the blocks [bs] and
    the free lists hold its free blocks.  [same_out m m' s a]: nothing else
    changed. *)

Definition fl_range (m : mem_config) (s : seg) (lo : Z) (bs : list blk) : Prop :=
  forall idx x, lo <= x <= s_end s -> in_fl m (s_heap s) idx x <-> is_free bs idx x.

Definition suffix (m : mem_config) (s : seg) (a p : Z) (bs : list blk) : Prop :=
  chain m s a p bs /\ fl_range m s a bs.

Definition same_out (m m' : mem_config) (s : seg) (lo : Z) : Prop :=
  (forall x, ~ (lo <= x <= s_end s) -> hdr m' x = hdr m x) /\
  (forall h idx x, ~ (h = s_heap s /\ lo <= x <= s_end s) -> in_fl m' h idx x <-> in_fl m h idx x).

Lemma same_out_refl m s lo : same_out m m s lo.
Proof. done. Qed.

Lemma same_out_trans m m1 m2 s lo : same_out m m1 s lo -> same_out m1 m2 s lo -> same_out m m2 s lo.
Proof.
  intros [Hh Hf] [Hh' Hf']. split; [intros x ?; by rewrite Hh', Hh|].
  intros h idx x ?. by rewrite Hf', Hf.
Qed.

Lemma same_out_mono m m' s lo lo' : same_out m m' s lo -> lo' <= lo -> same_out m m' s lo'.
Proof. intros [Hh Hf] ?. split; intros; [apply Hh|apply Hf]; lia. Qed.

Lemma is_free_chain m s a p bs idx x : chain m s a p bs -> is_free bs idx x -> a <= x < s_end s.
Proof.
  intros Hc (b&Hb&_&<-&_). destruct (chain_addr _ _ _ _ _ _ Hc Hb) as (?&?&[]). lia.
Qed.

Lemma is_free_segment m s a p bs e q idx x : segment m s a p bs e q -> is_free bs idx x -> a <= x < e.
Proof.
  intros Hc (b&Hb&_&<-&_). destruct (segment_addr _ _ _ _ _ _ _ _ Hc Hb) as (?&?&[]). lia.
Qed.

(** Replacing the blocks from [a] on. *)
Lemma suffix_replace m m' s st p0 l1 a q bs bs' :
  suffix m s st p0 (l1 ++ bs) -> segment m s st p0 l1 a q -> chain m s a q bs ->
  suffix m' s a q bs' -> same_out m m' s a ->
  suffix m' s st p0 (l1 ++ bs') /\ same_out m m' s st.
Proof.
  intros [_ Hf] Hs Hc [Hc' Hf'] Hout. pose proof (segment_le _ _ _ _ _ _ _ Hs) as Hle.
  split; [|by eapply same_out_mono]. destruct Hout as [Hh Hfo]. split.
  - apply blk_chain_app. exists a, q. split; [|done]. eapply segment_ext; [|done]. intros x ?. apply Hh. lia.
  - intros idx x Hx. rewrite is_free_app. destruct (decide (x < a)) as [Hlt|Hge].
    + rewrite Hfo, (Hf idx x Hx), is_free_app by lia. split; (intros [?|Hb]; [by left|]).
      * pose proof (is_free_chain _ _ _ _ _ _ _ Hc Hb). lia.
      * pose proof (is_free_chain _ _ _ _ _ _ _ Hc' Hb). lia.
    + rewrite (Hf' idx x) by lia. split; [by right|]. intros [Hb|]; [|done].
      pose proof (is_free_segment _ _ _ _ _ _ _ _ _ Hs Hb). lia.
Qed.

(** The end of a suffix. *)
Lemma suffix_tail m s st p0 l1 bs a q :
  suffix m s st p0 (l1 ++ bs) -> segment m s st p0 l1 a q -> chain m s a q bs -> suffix m s a q bs.
Proof.
  intros [_ Hf] Hs Hc. split; [done|]. intros idx x Hx.
  pose proof (segment_le _ _ _ _ _ _ _ Hs). rewrite (Hf idx x), is_free_app by lia.
  split; [|by right]. intros [Hb|]; [|done].
  pose proof (is_free_segment _ _ _ _ _ _ _ _ _ Hs Hb). lia.
Qed.

(** ** Allocation in a suffix *)

Lemma alloc_suffix m s a p b bs size align bound (ne := elem_start_pt m a size align bound) :
  suffix m s a p (b :: bs) -> b_busy b = false -> 0 < a -> s_end s < 2 ^ 63 ->
  a <= ne -> (ne - a) mod 64 = 0 -> 64 <= size -> size mod 64 = 0 -> ne + 64 + size <= a + b_size b ->
  exists m', malloc_elem_alloc m a size align bound = (m', ne) /\
    suffix m' s a p (alloc_blks a (b_size b) ne size ++ bs) /\ same_out m m' s a.
Proof.
  intros [Hc Hf] Hfree Hpos He Hle Hmod Hsz Hsm Hfit.
  destruct (elem_alloc_chain m s a p b bs size align bound) as (m'&E&Hc'&Hh&Hf'); [done..|].
  fold ne in E, Hc', Hf'. exists m'. pose proof Hc as (Ha&_&[]&Hct).
  pose proof (blk_chain_le _ _ _ _ _ Hct). split_and!; [done|split; [done|]|split].
  - intros idx x Hx. rewrite Hf', (Hf idx x Hx), is_free_cons, is_free_app, Ha. split.
    + intros [[[(_&<-&_)|?] Hn]|[_ ?]]; [by destruct Hn|by right|by left].
    + intros [?|Hb]; [by right|]. left. split; [by right|].
      pose proof (is_free_chain _ _ _ _ _ _ _ Hct Hb). lia.
  - intros x Hx. apply Hh. lia.
  - intros h idx x Hx. rewrite Hf'. split.
    + intros [[? _]|[-> Hb]]; [done|]. exfalso. apply Hx. split; [done|].
      pose proof (is_free_chain _ _ _ _ _ idx x Hc') as Hr. rewrite is_free_app in Hr. naive_solver lia.
    + intros Hin. left. split; [done|]. intros [-> ->]. apply Hx. split; [done|]. lia.
Qed.

(** ** Freeing a block *)

(** No two free blocks are neighbours; [f]: the block before is free. *)
Fixpoint coalesced (f : bool) (bs : list blk) : Prop :=
  match bs with
  | [] => True
  | b :: bs' => (f = true -> b_busy b = true) /\ coalesced (negb (b_busy b)) bs'
  end.

Definition last_free (f : bool) (bs : list blk) : bool :=
  match last bs with Some b => negb (b_busy b) | None => f end.

Lemma coalesced_app f bs bs' :
  coalesced f (bs ++ bs') <-> coalesced f bs /\ coalesced (last_free f bs) bs'.
Proof.
  revert f. induction bs as [|b bs IH]; intros f; cbn; [unfold last_free; cbn; tauto|].
  rewrite IH. assert (E : last_free f (b :: bs) = last_free (negb (b_busy b)) bs).
  { unfold last_free. rewrite last_cons. by destruct (last bs). }
  rewrite E. tauto.
Qed.

(** The busy blocks of a list. *)
Definition busy_in (bs : list blk) (b : blk) : Prop := b ∈ bs /\ b_busy b = true.

Lemma busy_in_cons c bs b : busy_in (c :: bs) b <-> (b = c /\ b_busy c = true) \/ busy_in bs b.
Proof. unfold busy_in. rewrite elem_of_cons. naive_solver. Qed.

Lemma busy_in_nil b : busy_in [] b <-> False.
Proof. split; [|done]. by intros [?%not_elem_of_nil _]. Qed.

Lemma busy_in_app bs bs' b : busy_in (bs ++ bs') b <-> busy_in bs b \/ busy_in bs' b.
Proof. unfold busy_in. rewrite elem_of_app. tauto. Qed.

(** The header after a block tells whether a free block follows. *)
Lemma chain_head_state m s a p bs :
  chain m s a p bs ->
  e_state (hdr m a) = match bs with b :: _ => blk_state b | [] => ELEM_BUSY end.
Proof. destruct bs; cbn; [by intros [-> ->]|by intros (_&->&_)]. Qed.

(** Merging with the block behind. *)
Lemma free_next m s a p b bs :
  suffix m s a p (b :: bs) -> b_busy b = true -> 0 < a -> s_end s < 2 ^ 63 -> coalesced false bs ->
  let next := ptr_add a (b_size b) in
  let m1 := if bool_decide (e_state (hdr m next) = ELEM_FREE)
            then join_elem (elem_free_list_remove m next) a next else m in
  exists sz bs1, suffix m1 s a p (Blk a sz true (b_pad b) :: bs1) /\ same_out m m1 s a /\
    coalesced true bs1 /\ (forall c, busy_in bs1 c <-> busy_in bs c).
Proof.
  intros [Hc Hf] Hbusy Hpos He Hco next m1. pose proof Hc as (Ha&Hh&[]&Hct).
  pose proof (blk_chain_le _ _ _ _ _ Hct) as Hle.
  assert (En : next = a + b_size b) by (unfold next, ptr_add; rewrite u64_small; lia).
  assert (Hsame : suffix m s a p (Blk a (b_size b) true (b_pad b) :: bs)).
  { rewrite <- Ha at 2. rewrite <- Hbusy. replace (Blk _ _ _ _) with b by by destruct b. done. }
  unfold m1. rewrite En, (chain_head_state _ _ _ _ _ Hct).
  destruct bs as [|n bs]; [rewrite bool_decide_false by done; by exists (b_size b), []|].
  destruct Hco as [_ Hco]. unfold blk_state. destruct (b_busy n) eqn:Hn.
  { exists (b_size b), (n :: bs). rewrite bool_decide_false by done. split_and!; try done. cbn. by rewrite Hn. }
  rewrite bool_decide_true by done.
  set (mr := elem_free_list_remove m (a + b_size b)).
  assert (Hcr : chain mr s a p (b :: n :: bs)) by (by eapply chain_ext; [|exact Hc]).
  pose proof (join_chain mr s a p b n bs Hcr Hpos He) as Hj. rewrite Hbusy in Hj.
  destruct Hct as (Han&Hhn&[]&Hcn). pose proof (blk_chain_le _ _ _ _ _ Hcn) as Hlen.
  exists (b_size b + b_size n), bs.
  assert (Hfl : forall h idx x, in_fl (join_elem mr a (a + b_size b)) h idx x <->
    in_fl m h idx x /\ ~ (h = s_heap s /\ x = a + b_size b)).
  { intros h idx x. pose proof (remove_in_fl m (a + b_size b) h idx x) as Hr. by rewrite Hhn in Hr. }
  split_and!; [split; [done|]|split| |].
  - intros idx x Hx. rewrite Hfl, (Hf idx x Hx), !is_free_cons, Hbusy, Hn, Han. cbn. split.
    + intros [[[? _]|[(_&<-&_)|?]] Hno]; [done|by destruct Hno|by right].
    + intros [[? _]|Hb]; [done|]. split; [by right; right|]. intros [_ ->].
      pose proof (is_free_chain _ _ _ _ _ _ _ Hcn Hb). lia.
  - intros x Hx. rewrite (join_other mr s a p a b n x); done || lia.
  - intros h idx x Hx. rewrite Hfl. split; [tauto|]. intros Hin. split; [done|].
    intros [-> ->]. apply Hx. split; [done|]. lia.
  - done.
  - intros c. rewrite busy_in_cons, Hn. naive_solver.
Qed.

(** The block before: none, or the last one of the list. *)
Lemma segment_snoc m s st p0 bs b e q :
  segment m s st p0 (bs ++ [b]) e q <->
  exists p, segment m s st p0 bs (b_addr b) p /\ hdr m (b_addr b) = blk_hdr s p b /\ blk_ok m b /\
    e = b_addr b + b_size b /\ q = b_addr b.
Proof.
  revert st p0. induction bs as [|c bs IH]; intros st p0; cbn.
  - split; [intros (<-&?&?&<-&<-); eauto 10|]. intros (p&[-> ->]&?&?&->&->). done.
  - rewrite IH. naive_solver.
Qed.

(** The free list insertion at the head of a suffix whose other free blocks
    are on the lists. *)
Lemma insert_suffix m s a p b bs :
  chain m s a p (b :: bs) -> b_pad b = 0 -> 0 < a ->
  (forall idx x, a <= x <= s_end s -> in_fl m (s_heap s) idx x <-> is_free bs idx x) ->
  suffix (malloc_elem_free_list_insert m a) s a p (Blk a (b_size b) false 0 :: bs) /\
  same_out m (malloc_elem_free_list_insert m a) s a.
Proof.
  intros Hc Hp Hpos Hf. pose proof Hc as (Ha&Hh&[]&Hct). pose proof (blk_chain_le _ _ _ _ _ Hct).
  split; [split|split].
  - eapply chain_ext; [intros x _; apply insert_hdr|]. by apply (set_state_chain _ _ _ _ _ false).
  - intros idx x Hx. rewrite insert_in_fl, Hh, (Hf idx x Hx), is_free_cons. cbn. naive_solver.
  - intros x Hx. rewrite insert_hdr. unfold set_state. rewrite hdr_write, decide_False by lia. done.
  - intros h idx x Hx. rewrite insert_in_fl, Hh. cbn. split; [|by left].
    intros [?|(->&_&->)]; [done|]. exfalso. apply Hx. split; [done|]. lia.
Qed.

Lemma suffix_ext m m' s a p bs :
  (forall x, hdr m' x = hdr m x) -> (forall h idx x, in_fl m' h idx x <-> in_fl m h idx x) ->
  suffix m s a p bs -> suffix m' s a p bs.
Proof.
  intros Hh Hf [Hc Hr]. split; [by eapply chain_ext; [|exact Hc]|]. intros idx x Hx. rewrite Hf. by apply Hr.
Qed.

(** Freeing without merging with the block before. *)
Lemma free_alone m s a q sz pad bs :
  suffix m s a q (Blk a sz true pad :: bs) -> 0 < a -> s_end s < 2 ^ 63 ->
  let m2 := set_pad (malloc_elem_free_list_insert m a) a 0 in
  suffix m2 s a q (Blk a sz false 0 :: bs) /\ same_out m m2 s a /\ e_heap (hdr m2 a) = s_heap s.
Proof.
  intros [Hc Hf] Hpos He m2. pose proof Hc as (_&Hh&[]&Hct). cbn [b_addr b_size b_busy b_pad] in *.
  pose proof (blk_chain_le _ _ _ _ _ Hct). set (mp := set_pad m a 0).
  assert (Hcp : chain mp s a q (Blk a sz true 0 :: bs)).
  { apply chain_cons_intro; [done| |by apply blk_ok_free|]; cbn.
    - unfold mp, set_pad. hdrs. by rewrite Hh.
    - eapply chain_ext; [|done]. intros x ?. unfold mp, set_pad. hdrs. done. }
  destruct (insert_suffix mp s a q _ bs Hcp) as [Hs [Ho1 Ho2]]; [done|done| |].
  { intros idx x Hx. specialize (Hf idx x Hx). rewrite is_free_cons in Hf. cbn in Hf.
    change (in_fl mp) with (in_fl m). rewrite Hf. naive_solver. }
  assert (Hx : forall x, hdr m2 x = hdr (malloc_elem_free_list_insert mp a) x).
  { intros x. unfold m2, set_pad at 1. rewrite hdr_write, !insert_hdr.
    unfold mp, set_pad, set_state. destruct (decide (a = x)) as [->|Hne].
    - by rewrite !hdr_write, !decide_True by done.
    - by rewrite !hdr_write, !decide_False by done. }
  assert (Hfl : forall h idx x, in_fl m2 h idx x <-> in_fl (malloc_elem_free_list_insert mp a) h idx x).
  { intros h idx x. change (in_fl m2) with (in_fl (malloc_elem_free_list_insert m a)).
    rewrite !insert_in_fl. unfold mp, set_pad at 2 3. hdrs. done. }
  split_and!.
  - by eapply suffix_ext.
  - split.
    + intros x Hx'. rewrite Hx, Ho1 by done. unfold mp, set_pad. hdrs. done.
    + intros h idx x Hx'. rewrite Hfl, Ho2 by done. done.
  - rewrite Hx, insert_hdr. unfold mp, set_state, set_pad. hdrs. by rewrite Hh.
Qed.

(** Freeing and merging with the free block [pb] before. *)
Lemma free_merge m s q p pb sz pad bs (a := q + b_size pb) :
  suffix m s q p (pb :: Blk a sz true pad :: bs) -> b_busy pb = false -> 0 < q -> s_end s < 2 ^ 63 ->
  let m2 := malloc_elem_free_list_insert (join_elem (elem_free_list_remove m q) q a) q in
  suffix m2 s q p (Blk q (b_size pb + sz) false 0 :: bs) /\ same_out m m2 s q /\
  e_heap (hdr m2 a) = s_heap s.
Proof.
  intros [Hc Hf] Hfree Hpos He m2. pose proof Hc as (Hq&Hhq&[Hsz1 _ Hpad1 _]&_&Hha&[Hsz2 _ _ _]&Hct).
  cbn [b_addr b_size b_busy b_pad] in Hha, Hct, Hsz2.
  pose proof (blk_chain_le _ _ _ _ _ Hct).
  assert (Hp0 : b_pad pb = 0) by (destruct Hpad1 as [|(?&_)]; congruence).
  set (mr := elem_free_list_remove m q). set (mj := join_elem mr q a).
  assert (Hcr : chain mr s q p (pb :: Blk a sz true pad :: bs)) by (by eapply chain_ext; [|exact Hc]).
  pose proof (join_chain mr s q p pb _ bs Hcr Hpos He) as Hj. fold a in Hj. fold mj in Hj.
  rewrite Hfree, Hp0 in Hj. cbn [b_size] in Hj.
  assert (Hjo : forall x, x <> q -> x <> a + sz -> hdr mj x = hdr m x).
  { intros x ? ?. apply (join_other mr s q p q pb (Blk a sz true pad) x); done || (cbn; lia). }
  assert (Hfl : forall h idx x, in_fl mj h idx x <-> in_fl m h idx x /\ ~ (h = s_heap s /\ x = q)).
  { intros h idx x. pose proof (remove_in_fl m q h idx x) as Hr. by rewrite Hhq in Hr. }
  destruct (insert_suffix mj s q p _ bs Hj) as [Hs Ho]; [done|done| |].
  { intros idx x Hx. rewrite Hfl, (Hf idx x Hx), !is_free_cons, Hq. cbn. split.
    - intros [[(_&<-&_)|[[? _]|?]] Hno]; [by destruct Hno|done|done].
    - intros Hb. split; [by right; right|]. intros [_ ->].
      pose proof (is_free_chain _ _ _ _ _ _ _ Hct Hb). lia. }
  split_and!; [done| |].
  - eapply same_out_trans; [|exact Ho]. split; [intros x ?; apply Hjo; lia|].
    intros h idx x Hx. rewrite Hfl. split; [tauto|]. intros Hin. split; [done|].
    intros [-> ->]. apply Hx. split; [done|]. lia.
  - unfold m2. rewrite insert_hdr. fold mr mj. unfold set_state. rewrite hdr_write, decide_False by lia.
    rewrite Hjo by lia. unfold a. by rewrite Hha.
Qed.

(** The end of [malloc_elem_free]. *)
Lemma free_prev m s st l1 a q sz pad bs :
  suffix m s st 0 (l1 ++ Blk a sz true pad :: bs) -> segment m s st 0 l1 a q ->
  chain m s a q (Blk a sz true pad :: bs) ->
  0 < st -> s_end s < 2 ^ 63 -> coalesced false l1 -> coalesced true bs ->
  let m2 :=
    if negb (q =? 0) && bool_decide (e_state (hdr m q) = ELEM_FREE)
    then malloc_elem_free_list_insert (join_elem (elem_free_list_remove m q) q a) q
    else set_pad (malloc_elem_free_list_insert m a) a 0 in
  e_heap (hdr m2 a) = s_heap s /\
  exists bs2, suffix m2 s st 0 bs2 /\ same_out m m2 s st /\ coalesced false bs2 /\
    (forall c, busy_in bs2 c <-> busy_in (l1 ++ bs) c).
Proof.
  intros Hsuf Hseg Hc Hst He Hco1 Hco2 m2. pose proof (segment_le _ _ _ _ _ _ _ Hseg) as Hle.
  assert (Halone : last_free false l1 = false ->
    let m2 := set_pad (malloc_elem_free_list_insert m a) a 0 in
    e_heap (hdr m2 a) = s_heap s /\
    exists bs2, suffix m2 s st 0 bs2 /\ same_out m m2 s st /\ coalesced false bs2 /\
      (forall c, busy_in bs2 c <-> busy_in (l1 ++ bs) c)).
  { intros Hlast. destruct (free_alone m s a q sz pad bs) as (Hs2&Ho2&Hheap);
      [by eapply suffix_tail|lia|done|].
    destruct (suffix_replace _ _ _ _ _ _ _ _ _ _ Hsuf Hseg Hc Hs2 Ho2) as [Hw Ho].
    split; [done|]. eexists. split_and!; [exact Hw|done| |].
    - apply coalesced_app. split; [done|]. rewrite Hlast. split; done.
    - intros c. rewrite !busy_in_app, busy_in_cons. cbn. clear. intuition congruence. }
  unfold m2. induction l1 as [|pb l0 _] using rev_ind.
  { destruct Hseg as [_ <-]. by apply Halone. }
  apply segment_snoc in Hseg as (p&Hseg0&Hhp&Hokp&Ea&Eq). pose proof (segment_le _ _ _ _ _ _ _ Hseg0).
  destruct (Hokp). subst q. rewrite (proj2 (Z.eqb_neq (b_addr pb) 0)) by lia. rewrite Hhp.
  cbn [negb andb e_state blk_hdr]. unfold blk_state. destruct (b_busy pb) eqn:Hpb.
  { rewrite bool_decide_false by done. apply Halone. unfold last_free. rewrite last_snoc. by rewrite Hpb. }
  rewrite bool_decide_true by done. rewrite <- app_assoc in Hsuf. cbn [app] in Hsuf.
  assert (Hcp : chain m s (b_addr pb) p (pb :: Blk a sz true pad :: bs)).
  { apply chain_cons_intro; try done. by rewrite <- Ea. }
  subst a. destruct (free_merge m s (b_addr pb) p pb sz pad bs) as (Hs2&Ho2&Hheap);
    [by eapply suffix_tail|done|lia|done|].
  destruct (suffix_replace _ _ _ _ _ _ _ _ _ _ Hsuf Hseg0 Hcp Hs2 Ho2) as [Hw Ho].
  split; [done|]. eexists. split_and!; [exact Hw|done| |].
  - apply coalesced_app in Hco1 as [Hco0 [Hpf _]]. apply coalesced_app. split; [done|].
    split; [|done]. by rewrite Hpb in Hpf.
  - intros c. rewrite <- app_assoc, !busy_in_app, !busy_in_cons, busy_in_nil, Hpb. cbn. clear. intuition congruence.
Qed.

Lemma count_in_fl m h d h' idx x : in_fl (count_alloc m h d) h' idx x <-> in_fl m h' idx x.
Proof. unfold in_fl, count_alloc. rewrite heap_of_set. by case_decide; subst. Qed.

Lemma count_suffix m h d s a p bs : suffix m s a p bs -> suffix (count_alloc m h d) s a p bs.
Proof. apply suffix_ext; [done|apply count_in_fl]. Qed.

Lemma count_same_out m m' h d s lo : same_out m m' s lo -> same_out m (count_alloc m' h d) s lo.
Proof. intros [Hh Hf]. split; [done|]. intros. rewrite count_in_fl. by apply Hf. Qed.

(** [malloc_elem_free] of a busy block: it leaves the busy blocks, and only
    merges it with its free neighbours. *)
Lemma elem_free_seg m s st l1 b l2 :
  suffix m s st 0 (l1 ++ b :: l2) -> b_busy b = true -> coalesced false (l1 ++ b :: l2) ->
  0 < st -> s_end s < 2 ^ 63 ->
  exists m' bs', malloc_elem_free m (b_addr b) = (m', 0) /\ suffix m' s st 0 bs' /\
    same_out m m' s st /\ coalesced false bs' /\ (forall c, busy_in bs' c <-> busy_in (l1 ++ l2) c).
Proof.
  intros Hsuf Hb Hco Hst He. pose proof Hsuf as [Hch _]. apply blk_chain_app in Hch as (a&q&Hseg&Hc).
  pose proof Hc as (Ha&Hh&_). pose proof (segment_le _ _ _ _ _ _ _ Hseg) as Hle.
  apply coalesced_app in Hco as [Hco1 [_ Hco2]]. rewrite Hb in Hco2.
  destruct (free_next m s a q b l2) as (sz&bs1&Hs1&Ho1&Hco3&Hbusy1);
    [by eapply suffix_tail|done|lia|done|done|].
  unfold malloc_elem_free. rewrite Ha, (proj2 (Z.eqb_neq a 0)) by lia.
  assert (Hbs : e_state (hdr m a) = ELEM_BUSY) by (rewrite Hh; cbn; unfold blk_state; by rewrite Hb).
  rewrite Hbs, bool_decide_true by done. cbn [negb orb].
  assert (Hsz : e_size (hdr m a) = b_size b) by (by rewrite Hh). rewrite Hsz.
  set (m1 := if bool_decide _ then _ else m) in *.
  destruct (suffix_replace _ _ _ _ _ _ _ _ _ _ Hsuf Hseg Hc Hs1 Ho1) as [Hw1 Hot1].
  pose proof Hs1 as [Hc1 _]. pose proof Hc1 as (_&Hh1&_).
  assert (Hprev : e_prev (hdr m1 a) = q) by (by rewrite Hh1). rewrite Hprev.
  assert (Hseg1 : segment m1 s st 0 l1 a q).
  { eapply segment_ext; [|done]. intros x ?. apply Ho1. lia. }
  destruct (free_prev m1 s st l1 a q sz (b_pad b) bs1) as (Hheap&bs2&Hw2&Ho2&Hco4&Hbusy2); [done..|].
  eexists _, bs2. split; [done|]. split_and!; [by apply count_suffix| |done|].
  - apply count_same_out. by eapply same_out_trans.
  - intros c. by rewrite Hbusy2, !busy_in_app, Hbusy1.
Qed.
