(* ===== verification/MallocHeap.v ===== *)
(** * The memory heap: invariant of a whole heap, allocation and freeing *)

From S2P Require Import Prelude Malloc MallocProofs MallocInv.

(** ** The invariant *)

Record seg_inv (base : Z) (m : mem_config) (s : seg) : Prop := {
  si_base : base <= s_start s;
  si_align : s_start s mod 64 = 0;
  si_end : s_end s < 2 ^ 63;
  si_chain : chain m s (s_start s) 0 (s_blks s);
  si_coal : coalesced false (s_blks s)
}.

(** Segments from [base] on; the free lists of the heaps hold exactly their
    free blocks. *)
Record heap_inv (base : Z) (m : mem_config) (segs : list seg) : Prop := {
  hi_base : 0 < base;
  hi_seg : forall i s, segs !! i = Some s -> seg_inv base m s;
  hi_disj : forall i j s t, i <> j -> segs !! i = Some s -> segs !! j = Some t ->
    s_end s < s_start t \/ s_end t < s_start s;
  hi_free : forall h idx x, in_fl m h idx x <->
    exists i s, segs !! i = Some s /\ s_heap s = h /\ is_free (s_blks s) idx x
}.

(** The memory [p .. p + len - 1] is allocated. *)
Definition live (segs : list seg) (p len : Z) : Prop :=
  exists i s b, segs !! i = Some s /\ busy_in (s_blks s) b /\
    p = b_addr b + b_pad b + 64 /\ len = b_size b - b_pad b - 64.

Lemma inv_suffix base m segs i s :
  heap_inv base m segs -> segs !! i = Some s -> suffix m s (s_start s) 0 (s_blks s).
Proof.
  intros HI Hi. pose proof (hi_seg _ _ _ HI i s Hi) as [_ _ _ Hc _]. split; [done|].
  intros idx x Hx. rewrite (hi_free _ _ _ HI). split; [|by eauto].
  intros (j&t&Hj&Hh&Hf). destruct (decide (i = j)) as [<-|Hne]; [by simplify_eq|].
  pose proof (hi_seg _ _ _ HI j t Hj) as [_ _ _ Hct _].
  pose proof (is_free_chain _ _ _ _ _ _ _ Hct Hf). pose proof (hi_disj _ _ _ HI i j s t Hne Hi Hj). lia.
Qed.

Lemma chain_with m s bs a p l : chain m (with_blks s bs) a p l <-> chain m s a p l.
Proof. revert a p. induction l as [|b l IH]; intros a p; cbn; [done|]. by rewrite IH. Qed.

Lemma inv_update base m m' segs i s bs :
  heap_inv base m segs -> segs !! i = Some s ->
  suffix m' s (s_start s) 0 bs -> same_out m m' s (s_start s) -> coalesced false bs ->
  heap_inv base m' (<[i := with_blks s bs]> segs).
Proof.
  intros HI Hi [Hc Hf] [Hh Hfo] Hco. pose proof (hi_seg _ _ _ HI i s Hi) as [? ? ? _ _].
  pose proof (lookup_lt_Some _ _ _ Hi) as Hlt. split; [apply HI|..].
  - intros j t Hj. apply list_lookup_insert_Some in Hj as [(<-&<-&_)|[Hne Hj]].
    + split; cbn; try done. by apply chain_with.
    + pose proof (hi_seg _ _ _ HI j t Hj) as [? ? ? Hct ?]. split; try done.
      eapply chain_ext; [|done]. intros x Hx. apply Hh.
      pose proof (hi_disj _ _ _ HI i j s t Hne Hi Hj). lia.
  - intros j k t u Hjk Hj Hk.
    apply list_lookup_insert_Some in Hj as [(<-&<-&_)|[Hne Hj]];
      apply list_lookup_insert_Some in Hk as [(<-&<-&_)|[Hne' Hk]]; cbn; try done.
    + by apply (hi_disj _ _ _ HI i k).
    + by apply (hi_disj _ _ _ HI j i).
    + by apply (hi_disj _ _ _ HI j k).
  - intros h idx x. destruct (decide (h = s_heap s /\ s_start s <= x <= s_end s)) as [[-> Hx]|Hout].
    + rewrite (Hf idx x Hx). split.
      * intros Hfr. exists i, (with_blks s bs). by rewrite list_lookup_insert_eq by done.
      * intros (j&t&Hj&Hht&Hfr). apply list_lookup_insert_Some in Hj as [(<-&<-&_)|[Hne Hj]]; [done|].
        pose proof (hi_seg _ _ _ HI j t Hj) as [_ _ _ Hct _].
        pose proof (is_free_chain _ _ _ _ _ _ _ Hct Hfr). pose proof (hi_disj _ _ _ HI i j s t Hne Hi Hj). lia.
    + rewrite Hfo by done. rewrite (hi_free _ _ _ HI). split.
      * intros (j&t&Hj&Hht&Hfr). exists j, t. split; [|done].
        rewrite list_lookup_insert_ne; [done|]. intros <-. simplify_eq.
        pose proof (is_free_chain _ _ _ _ _ _ _ (si_chain _ _ _ (hi_seg _ _ _ HI i s Hi)) Hfr).
        apply Hout. split; [done|]. lia.
      * intros (j&t&Hj&Hht&Hfr). apply list_lookup_insert_Some in Hj as [(<-&<-&_)|[Hne Hj]]; [|eauto].
        cbn in Hht, Hfr. pose proof (is_free_chain _ _ _ _ _ _ _ Hc Hfr).
        exfalso. apply Hout. split; [done|]. lia.
Qed.

(** ** Disjointness *)

Lemma chain_disjoint m s a p bs b c :
  chain m s a p bs -> b ∈ bs -> c ∈ bs ->
  b = c \/ b_addr b + b_size b <= b_addr c \/ b_addr c + b_size c <= b_addr b.
Proof.
  revert a p. induction bs as [|d bs IH]; intros a p; [by intros _ ?%not_elem_of_nil|].
  intros (<-&_&_&Hc) [->|Hb]%elem_of_cons [->|Hd]%elem_of_cons.
  - by left.
  - destruct (chain_addr _ _ _ _ _ _ Hc Hd). lia.
  - destruct (chain_addr _ _ _ _ _ _ Hc Hb). lia.
  - by eapply IH.
Qed.

Lemma blk_disjoint base m segs i j s t b c :
  heap_inv base m segs -> segs !! i = Some s -> segs !! j = Some t -> b ∈ s_blks s -> c ∈ s_blks t ->
  (i = j /\ b = c) \/ b_addr b + b_size b <= b_addr c \/ b_addr c + b_size c <= b_addr b.
Proof.
  intros HI Hi Hj Hb Hc. pose proof (hi_seg _ _ _ HI i s Hi) as [_ _ _ Hcs _].
  pose proof (hi_seg _ _ _ HI j t Hj) as [_ _ _ Hct _].
  destruct (decide (i = j)) as [<-|Hne].
  - simplify_eq. destruct (chain_disjoint _ _ _ _ _ _ _ Hcs Hb Hc) as [->|]; auto.
  - right. destruct (chain_addr _ _ _ _ _ _ Hcs Hb), (chain_addr _ _ _ _ _ _ Hct Hc).
    pose proof (hi_disj _ _ _ HI i j s t Hne Hi Hj). lia.
Qed.

(** Two allocated regions are the same or do not meet. *)
Lemma live_disjoint base m segs p l q k :
  heap_inv base m segs -> live segs p l -> live segs q k ->
  (p = q /\ l = k) \/ p + l <= q \/ q + k <= p.
Proof.
  intros HI (i&s&b&Hi&[Hb _]&->&->) (j&t&c&Hj&[Hc _]&->&->).
  destruct (blk_disjoint _ _ _ _ _ _ _ _ _ HI Hi Hj Hb Hc) as [[_ ->]|Hd]; [by left|right].
  pose proof (hi_seg _ _ _ HI i s Hi) as [_ _ _ Hcs _]. pose proof (hi_seg _ _ _ HI j t Hj) as [_ _ _ Hct _].
  destruct (chain_addr _ _ _ _ _ _ Hcs Hb) as (_&_&[? _ [?|(_&?&?)] _]),
    (chain_addr _ _ _ _ _ _ Hct Hc) as (_&_&[? _ [?|(_&?&?)] _]); lia.
Qed.

(** ** Searching the free lists *)

Lemma index_mono a b : a <= b -> malloc_elem_free_list_index a <= malloc_elem_free_list_index b.
Proof.
  intros Hab. unfold malloc_elem_free_list_index, RTE_HEAP_NUM_FREELISTS.
  destruct (Z.leb_spec a (2 ^ 8)), (Z.leb_spec b (2 ^ 8)); [lia| |lia|].
  - pose proof (Z.log2_le_mono (2 ^ 8) (b - 1)). change (Z.log2 (2 ^ 8)) with 8 in *.
    case_tests; dlia.
  - pose proof (Z.log2_le_mono (a - 1) (b - 1)). case_tests; dlia.
Qed.

Lemma index_range a : 0 <= malloc_elem_free_list_index a < RTE_HEAP_NUM_FREELISTS.
Proof.
  unfold malloc_elem_free_list_index, RTE_HEAP_NUM_FREELISTS. destruct (Z.leb_spec a (2 ^ 8)); [lia|].
  pose proof (Z.log2_le_mono (2 ^ 8) (a - 1)). change (Z.log2 (2 ^ 8)) with 8 in *. case_tests; dlia.
Qed.

Lemma candidates_spec m h size x :
  x ∈ candidates m h size <->
  exists idx, malloc_elem_free_list_index size <= idx < RTE_HEAP_NUM_FREELISTS /\ in_fl m h idx x.
Proof.
  unfold candidates, in_fl. rewrite list_elem_of_In, in_flat_map.
  setoid_rewrite <- list_elem_of_In. setoid_rewrite elem_of_seqZ. split; intros (idx&?&?); exists idx; split; done || lia.
Qed.

(** The element found can hold the data; without flags, 0 means that none can. *)
Lemma suitable_from_spec m size flags align bound l alt :
  0 ∉ l -> (alt <> 0 -> malloc_elem_can_hold m alt size align bound = true) ->
  let r := suitable_from m size flags align bound l alt in
  (r <> 0 -> (r ∈ l \/ r = alt) /\ malloc_elem_can_hold m r size align bound = true) /\
  (r = 0 -> flags = 0 -> forall x, x ∈ l -> malloc_elem_can_hold m x size align bound = false).
Proof.
  revert alt. induction l as [|y l IH]; intros alt H0 Halt; cbn [suitable_from].
  { split; [|by intros _ _ x ?%not_elem_of_nil].
    destruct (Z.eqb_spec alt 0); cbn; [done|]. destruct (Z.land _ _ =? 0); cbn; [done|]. auto. }
  apply not_elem_of_cons in H0 as [Hy0 H0].
  destruct (malloc_elem_can_hold m y size align bound) eqn:Hy.
  - destruct (check_hugepage_sz flags _) eqn:Hpg; cbv zeta.
    + split; [|done]. intros _. split; [left; left|done].
    + destruct (IH (if alt =? 0 then y else alt)) as [IH1 _]; [done| |].
      { destruct (Z.eqb_spec alt 0); auto. }
      split; [|by intros _ ->]. intros Hr. destruct (IH1 Hr) as [[?|E] ?]; (split; [|done]).
      * left. by right.
      * destruct (Z.eqb_spec alt 0); [left|right]; [rewrite E; left|done].
  - destruct (IH alt H0 Halt) as [IH1 IH2]. cbv zeta in *. split.
    + intros Hr. destruct (IH1 Hr) as [[?|E] ?]; (split; [|done]); [left; by right|by right].
    + intros Hr Hfl x [->|Hx]%elem_of_cons; [done|]. by apply IH2.
Qed.

(** ** Allocation *)

Lemma chain_mod m s a p bs b : chain m s a p bs -> a mod 64 = 0 -> b ∈ bs -> b_addr b mod 64 = 0.
Proof.
  revert a p. induction bs as [|c bs IH]; intros a p; [by intros _ _ ?%not_elem_of_nil|].
  intros (<-&_&[? ? _ _]&Hc) Ha [->|Hb]%elem_of_cons; [done|]. eapply IH; [done| |done]. dlia.
Qed.

(** The blocks of an allocation: one busy block with the data. *)
Definition alloc_mid (a bsz ne size : Z) : blk :=
  let e := if 128 <? bsz - (ne - a) - size - 64 then ne + (size + 64) else a + bsz in
  if ne - a <? 128 then Blk a (e - a) true (ne - a) else Blk ne (e - ne) true 0.

Lemma alloc_blks_busy a bsz ne size c :
  busy_in (alloc_blks a bsz ne size) c <-> c = alloc_mid a bsz ne size.
Proof.
  unfold alloc_blks, alloc_mid. destruct (_ <? 128), (128 <? _);
    rewrite ?busy_in_cons, busy_in_nil; cbn; intuition congruence.
Qed.

Lemma alloc_mid_spec a bsz ne size (b := alloc_mid a bsz ne size) :
  a <= ne -> ne + 64 + size <= a + bsz ->
  b_addr b + b_pad b + 64 = ne + 64 /\ size <= b_size b - b_pad b - 64.
Proof. intros. unfold b, alloc_mid. case_tests; cbn; lia. Qed.

Lemma alloc_blks_coalesced a bsz ne size bs :
  coalesced true bs -> coalesced false (alloc_blks a bsz ne size ++ bs).
Proof.
  intros Hco. assert (Hco' : coalesced false bs) by (destruct bs; cbn in *; tauto).
  unfold alloc_blks. destruct (_ <? 128), (128 <? _); cbn; tauto.
Qed.

(** The allocated regions when the blocks of one segment change. *)
Definition blk_live (b : blk) (p len : Z) : Prop :=
  p = b_addr b + b_pad b + 64 /\ len = b_size b - b_pad b - 64.

Lemma live_split segs i s p len :
  segs !! i = Some s ->
  live segs p len <-> (exists b, busy_in (s_blks s) b /\ blk_live b p len) \/
    (exists j t b, j <> i /\ segs !! j = Some t /\ busy_in (s_blks t) b /\ blk_live b p len).
Proof.
  intros Hi. unfold live, blk_live. split.
  - intros (j&t&b&Hj&?&?). destruct (decide (j = i)) as [->|]; [simplify_eq; left|right]; eauto 10.
  - intros [(b&?&?)|(j&t&b&_&?&?&?)]; eauto 10.
Qed.

Lemma live_update segs i s bs p len :
  segs !! i = Some s ->
  live (<[i := with_blks s bs]> segs) p len <-> (exists b, busy_in bs b /\ blk_live b p len) \/
    (exists j t b, j <> i /\ segs !! j = Some t /\ busy_in (s_blks t) b /\ blk_live b p len).
Proof.
  intros Hi. pose proof (lookup_lt_Some _ _ _ Hi) as Hlt.
  rewrite (live_split _ i (with_blks s bs)) by (by apply list_lookup_insert_eq).
  cbn [s_blks with_blks]. apply or_iff_compat_l.
  split; intros (j&t&b&Hne&Hj&?); exists j, t, b; (split; [done|split; [|done]]);
    by rewrite list_lookup_insert_ne in *.
Qed.

(** The segments without their blocks. *)
Definition geom (segs : list seg) : list seg := (fun s => with_blks s []) <$> segs.

Lemma geom_update segs i s bs : segs !! i = Some s -> geom (<[i := with_blks s bs]> segs) = geom segs.
Proof.
  intros Hi. unfold geom. rewrite list_fmap_insert. apply list_insert_id. by rewrite list_lookup_fmap, Hi.
Qed.

Lemma mod_64_of_pow2 x k : 6 <= k -> x mod 2 ^ k = 0 -> x mod 64 = 0.
Proof.
  intros Hk Hx. apply Z.mod_divide in Hx as [z ->]; [|lia].
  replace (2 ^ k) with (2 ^ (k - 6) * 64) by (replace k with (k - 6 + 6) at 2 by lia;
    by rewrite Z.pow_add_r by lia).
  rewrite Z.mul_assoc. apply Z_mod_mult.
Qed.

(** A free block and the segment around it. *)
Lemma free_block base m segs h idx a :
  heap_inv base m segs -> in_fl m h idx a ->
  exists i s b l1 l2 q, segs !! i = Some s /\ s_blks s = l1 ++ b :: l2 /\ b_busy b = false /\
    b_addr b = a /\ s_heap s = h /\ idx = fl_index (b_size b) /\ base <= a /\ a mod 64 = 0 /\
    128 <= b_size b /\ a + b_size b <= s_end s /\ s_end s < 2 ^ 63 /\ e_size (hdr m a) = b_size b /\
    segment m s (s_start s) 0 l1 a q /\ chain m s a q (b :: l2) /\
    suffix m s (s_start s) 0 (l1 ++ b :: l2) /\ coalesced false (l1 ++ b :: l2).
Proof.
  intros HI Hin. apply (hi_free _ _ _ HI) in Hin as (i&s&Hi&Hh&(b&Hb&Hfree&<-&Hidx)).
  pose proof (hi_seg _ _ _ HI i s Hi) as [Hbase Hal Hend Hc Hco].
  destruct (chain_addr _ _ _ _ _ _ Hc Hb) as (Hlo&Hhi&[Hbs Hbm _ _]).
  pose proof (chain_mod _ _ _ _ _ _ Hc Hal Hb). pose proof (inv_suffix _ _ _ _ _ HI Hi) as Hsuf.
  apply list_elem_of_split in Hb as (l1&l2&El). rewrite El in Hc, Hsuf, Hco.
  apply blk_chain_app in Hc as (a&q&Hseg&Hca). pose proof Hca as (<-&Hha&_&_).
  exists i, s, b, l1, l2, q. split_and!; try done; [lia|by rewrite Hha].
Qed.

(** An allocation of [size] bytes (whole cache lines) at header [ne] in the
    free block at [a]. *)
Lemma elem_alloc_inv base m segs h idx a size align bound (ne := elem_start_pt m a size align bound) :
  heap_inv base m segs -> request base size align bound -> in_fl m h idx a -> ne <> 0 ->
  exists m' segs' len, malloc_elem_alloc m a size align bound = (m', ne) /\
    heap_inv base m' segs' /\ geom segs' = geom segs /\ size <= len /\ (ne + 64) mod align = 0 /\ 0 < ne /\ ne + 64 < 2 ^ 63 /\
    (bound <> 0 -> (ne + 64) / bound = (ne + 64 + size - 1) / bound) /\
    (forall k, ~ live segs (ne + 64) k) /\
    (forall q k, live segs' q k <-> live segs q k \/ (q = ne + 64 /\ k = len)).
Proof.
  intros HI Hrq Hin Hne. pose proof (hi_base _ _ _ HI).
  destruct (free_block _ _ _ _ _ _ HI Hin)
    as (i&s&b&l1&l2&q&Hi&El&Hfree&Ha&_&_&Hbase&Hmod&Hbs&Hhi&Hend&Hes&Hseg&Hca&Hsuf&Hco).
  destruct (elem_start_pt_spec base m a (b_size b) size align bound Hrq) as [Hp|[? _]];
    [lia|done|lia|lia| |done].
  fold ne in Hp. destruct Hp as (Hp1&Hp2&Hp3&Hp4). destruct Hrq as [Hs1 Hs2 (k&Hk&->) _ _].
  assert (Hne64 : (ne - a) mod 64 = 0) by (pose proof (mod_64_of_pow2 _ k ltac:(lia) Hp2); dlia).
  destruct (alloc_suffix m s a q b l2 size (2 ^ k) bound) as (m'&Em&Hs'&Ho');
    [by eapply suffix_tail|done|lia|done|done|done|done|done|done|]. fold ne in Em, Hs'.
  destruct (suffix_replace _ _ _ _ _ _ _ _ _ _ Hsuf Hseg Hca Hs' Ho') as [Hw Ho].
  apply coalesced_app in Hco as [Hco1 [Hcob Hco2]]. rewrite Hfree in Hcob, Hco2.
  destruct (alloc_mid_spec a (b_size b) ne size Hp1 Hp3) as [Hm1 Hm2].
  set (mid := alloc_mid _ _ _ _) in *.
  eexists m', _, (b_size mid - b_pad mid - 64). split; [done|]. split.
  { eapply (inv_update _ _ _ _ _ _ _ HI Hi Hw Ho). apply coalesced_app. split; [done|].
    replace (last_free false l1) with false; [by apply alloc_blks_coalesced|].
    destruct (last_free false l1); [by specialize (Hcob eq_refl)|done]. }
  split_and!; [by apply geom_update|done|done|lia|lia|done| |].
  - intros z (j&t&c&Hj&[Hc Hcb]&Eq&_). assert (Hb : b ∈ s_blks s) by (rewrite El; set_solver).
    destruct (blk_disjoint _ _ _ _ _ _ _ _ _ HI Hi Hj Hb Hc) as [[_ ->]|Hd]; [congruence|].
    pose proof (hi_seg _ _ _ HI j t Hj) as [_ _ _ Hct _].
    destruct (chain_addr _ _ _ _ _ _ Hct Hc) as (_&_&[? _ [?|(_&?&?)] _]); lia.
  - intros z n. rewrite (live_update _ _ _ _ _ _ Hi), (live_split _ _ _ _ _ Hi), El.
    setoid_rewrite busy_in_app. setoid_rewrite busy_in_app. setoid_rewrite busy_in_cons.
    setoid_rewrite alloc_blks_busy. fold mid. rewrite Hfree.
    clear - Hm1. unfold blk_live. naive_solver lia.
Qed.

(** The outcome of an allocation of [size] bytes at alignment [align]. *)
Definition alloc_post (base : Z) (segs : list seg) (m m' : mem_config) (p size align bound : Z) : Prop :=
  exists segs' len, heap_inv base m' segs' /\ geom segs' = geom segs /\ size <= len /\ p mod align = 0 /\ 0 < p < 2 ^ 63 /\
    (bound <> 0 -> p / bound = (p + size - 1) / bound) /\
    (forall k, ~ live segs p k) /\
    (forall q k, live segs' q k <-> live segs q k \/ (q = p /\ k = len)).

(** No free block of heap [h] has a place for the data. *)
Definition no_place (segs : list seg) (h size align : Z) : Prop :=
  forall i s b d, segs !! i = Some s -> s_heap s = h -> b ∈ s_blks s -> b_busy b = false ->
    d mod align = 0 -> b_addr b + 64 <= d -> d + size <= b_addr b + b_size b -> False.

Lemma count_inv base m segs h d : heap_inv base m segs -> heap_inv base (count_alloc m h d) segs.
Proof.
  intros HI. split; [apply HI| |apply HI|].
  - intros i s Hi. destruct (hi_seg _ _ _ HI i s Hi) as [? ? ? Hc ?]. split; try done.
    by eapply chain_ext; [|exact Hc].
  - intros h' idx x. rewrite count_in_fl. apply HI.
Qed.

Lemma chain_size m s a p bs b : chain m s a p bs -> b ∈ bs -> e_size (hdr m (b_addr b)) = b_size b.
Proof.
  intros Hc (l1&l2&->)%list_elem_of_split. apply blk_chain_app in Hc as (?&?&_&(<-&->&_)). done.
Qed.

(** When no candidate can hold the data, no free block has a place for it. *)
Lemma no_candidate base m segs h size align :
  heap_inv base m segs -> request base size align 0 ->
  (forall x, x ∈ candidates m h size -> malloc_elem_can_hold m x size align 0 = false) ->
  no_place segs h size align.
Proof.
  intros HI Hrq Hno i s b d Hi Hh Hb Hfree Hd Hlo Hhi.
  pose proof (hi_seg _ _ _ HI i s Hi) as [Hbase _ Hend Hc _]. pose proof (hi_base _ _ _ HI).
  destruct (chain_addr _ _ _ _ _ _ Hc Hb) as (?&?&[? _ _ _]).
  pose proof (chain_size _ _ _ _ _ _ Hc Hb) as Hes.
  destruct (elem_start_pt_spec base m (b_addr b) (b_size b) size align 0 Hrq) as [Hp|[_ Hnone]];
    [lia|done|lia|lia| |by eapply Hnone].
  assert (Hcan : malloc_elem_can_hold m (b_addr b) size align 0 = false).
  { apply Hno. apply candidates_spec. exists (fl_index (b_size b)). split.
    - split; [|apply index_range]. apply index_mono. change MALLOC_ELEM_HEADER_LEN with 64.
      rewrite u64_small by lia. lia.
    - apply (hi_free _ _ _ HI). exists i, s. split_and!; try done. by exists b. }
  unfold malloc_elem_can_hold in Hcan. apply negb_false_iff, Z.eqb_eq in Hcan.
  rewrite Hcan in Hp. destruct Hp as [? _]. lia.
Qed.

Lemma heap_alloc_ok base m segs h size0 flags align0 bound :
  let size := RTE_CACHE_LINE_ROUNDUP size0 in
  let align := RTE_CACHE_LINE_ROUNDUP align0 in
  heap_inv base m segs -> request base size align bound ->
  let '(m', p) := malloc_heap_alloc m h size0 flags align0 bound in
  (p <> 0 /\ alloc_post base segs m m' p size align bound) \/
  (p = 0 /\ m' = m /\ (flags = 0 -> bound = 0 -> no_place segs h size align)).
Proof.
  intros size align. intros HI Hrq. unfold malloc_heap_alloc. fold size align.
  assert (H0 : 0 ∉ candidates m h size).
  { intros (idx&_&Hin)%candidates_spec. pose proof (hi_base _ _ _ HI).
    destruct (free_block _ _ _ _ _ _ HI Hin) as (?&?&?&?&?&?&?&?&?&?&?&?&?&_). lia. }
  pose proof (suitable_from_spec m size flags align bound (candidates m h size) 0 H0 ltac:(done)) as [Hs1 Hs2].
  fold (find_suitable_element m h size flags align bound) in Hs1, Hs2.
  destruct (Z.eqb_spec (find_suitable_element m h size flags align bound) 0) as [E|E].
  - right. split; [reflexivity|]. split; [reflexivity|]. intros -> ->.
    eapply no_candidate; [exact HI|exact Hrq|]. apply Hs2; [exact E|reflexivity].
  - destruct (Hs1 E) as [[Hin|?] Hcan]; [|contradiction]. apply candidates_spec in Hin as (idx&_&Hin).
    unfold malloc_elem_can_hold in Hcan. apply negb_true_iff, Z.eqb_neq in Hcan.
    destruct (elem_alloc_inv _ _ _ _ _ _ _ _ _ HI Hrq Hin Hcan) as
      (m'&segs'&len&->&HI'&Hgeom&Hlen&Hmod&Hpos&Hlt&Hbound&Hfresh&Hlive).
    change MALLOC_ELEM_HEADER_LEN with 64. unfold ptr_add. rewrite u64_small by lia. left.
    split; [lia|]. exists segs', len. split_and!; try assumption; [by apply count_inv|lia].
Qed.

(** ** Freeing *)

Lemma from_data_spec base m segs i s b :
  heap_inv base m segs -> segs !! i = Some s -> busy_in (s_blks s) b ->
  malloc_elem_from_data m (b_addr b + b_pad b + 64) = b_addr b.
Proof.
  intros HI Hi [Hb Hbusy]. pose proof (hi_seg _ _ _ HI i s Hi) as [Hbase _ Hend Hc _].
  pose proof (hi_base _ _ _ HI). destruct (chain_addr _ _ _ _ _ _ Hc Hb) as (?&?&[? _ Hpad Hph]).
  unfold malloc_elem_from_data. change MALLOC_ELEM_HEADER_LEN with 64.
  assert (0 <= b_pad b <= 64) by (destruct Hpad as [|(_&?&_)]; lia).
  rewrite (proj2 (Z.eqb_neq _ 0)) by lia. rewrite u64_small by lia.
  rewrite (proj2 (Z.eqb_neq _ 0)) by lia. replace (b_addr b + b_pad b + 64 - 64) with (b_addr b + b_pad b) by lia.
  destruct (decide (b_pad b = 0)) as [E|E].
  - assert (Hst : e_state (hdr m (b_addr b)) = ELEM_BUSY).
    { apply list_elem_of_split in Hb as (l1&l2&El). rewrite El in Hc.
      apply blk_chain_app in Hc as (?&?&_&(<-&->&_)). cbn. unfold blk_state. by rewrite Hbusy. }
    rewrite E, Z.add_0_r, Hst, bool_decide_false by done. done.
  - destruct (Hph E) as [-> ->]. rewrite bool_decide_true by done. rewrite u64_small by lia. lia.
Qed.

(** A block is apart from every other block of its chain. *)
Lemma chain_others m s a p l1 b l2 c :
  chain m s a p (l1 ++ b :: l2) -> c ∈ l1 ++ l2 ->
  b_addr c + b_size c <= b_addr b \/ b_addr b + b_size b <= b_addr c.
Proof.
  intros (e&q&Hseg&<-&_&_&Hc)%blk_chain_app [Hin|Hin]%elem_of_app.
  - left. destruct (segment_addr _ _ _ _ _ _ _ _ Hseg Hin). lia.
  - right. destruct (chain_addr _ _ _ _ _ _ Hc Hin). lia.
Qed.

Lemma rte_free_ok base m segs p len :
  heap_inv base m segs -> live segs p len ->
  exists m' segs', rte_free m p = Some m' /\ heap_inv base m' segs' /\ geom segs' = geom segs /\
    (forall q k, live segs' q k <-> live segs q k /\ q <> p).
Proof.
  intros HI (i&s&b&Hi&Hb&->&->). pose proof (hi_seg _ _ _ HI i s Hi) as [Hbase _ Hend Hc Hco].
  pose proof (hi_base _ _ _ HI). pose proof Hb as [Hbin Hbusy].
  destruct (chain_addr _ _ _ _ _ _ Hc Hbin) as (?&?&[? _ Hpad _]).
  unfold rte_free. rewrite (proj2 (Z.eqb_neq _ 0)) by (destruct Hpad as [|(_&?&_)]; lia).
  rewrite (from_data_spec _ _ _ _ _ _ HI Hi Hb).
  apply list_elem_of_split in Hbin as (l1&l2&El).
  pose proof (inv_suffix _ _ _ _ _ HI Hi) as Hsuf. rewrite El in Hsuf, Hco.
  destruct (elem_free_seg m s (s_start s) l1 b l2 Hsuf Hbusy Hco) as (m'&bs&->&Hs'&Ho&Hco'&Hbs); [lia|done|].
  eexists m', _. split; [done|]. split; [by eapply inv_update|].
  split; [by apply geom_update|]. intros q k. rewrite (live_update _ _ _ _ _ _ Hi), (live_split _ _ _ _ _ Hi). setoid_rewrite Hbs.
  assert (Hother : forall j t c, segs !! j = Some t -> busy_in (s_blks t) c -> blk_live c q k ->
    (j = i /\ c = b) \/ q <> b_addr b + b_pad b + 64).
  { intros j t c Hj [Hc1 _] [-> _]. assert (Hb' : b ∈ s_blks s) by apply Hb.
    destruct (blk_disjoint _ _ _ _ _ _ _ _ _ HI Hj Hi Hc1 Hb') as [|Hd]; [by left|right].
    pose proof (hi_seg _ _ _ HI j t Hj) as [_ _ _ Hct _].
    destruct (chain_addr _ _ _ _ _ _ Hct Hc1) as (_&_&[? _ [?|(_&?&?)] _]), Hpad as [?|(_&?&?)]; lia. }
  rewrite El in Hc. split.
  - intros [(c&Hc1&Hl)|(j&t&c&Hne&Hj&Hc1&Hl)].
    + split.
      * left. exists c. split; [|done]. rewrite El. revert Hc1. rewrite !busy_in_app, busy_in_cons. tauto.
      * pose proof (chain_others _ _ _ _ _ _ _ _ Hc (proj1 Hc1)) as Hd.
        assert (Hcin : c ∈ l1 ++ b :: l2) by (destruct Hc1 as [Hc1 _]; set_solver).
        destruct Hl as [-> _], (chain_addr _ _ _ _ _ _ Hc Hcin) as (_&_&[? _ [?|(_&?&?)] _]), Hpad as [?|(_&?&?)]; lia.
    + split; [by right; exists j, t, c|]. by destruct (Hother j t c Hj Hc1 Hl) as [[? _]|].
  - intros [[(c&Hc1&Hl)|?] Hq]; [left|by right]. exists c. split; [|done].
    rewrite El in Hc1. apply busy_in_app in Hc1. rewrite busy_in_cons in Hc1. rewrite busy_in_app.
    destruct Hc1 as [?|[[-> _]|?]]; [by left| |by right]. by destruct Hl as [-> _].
Qed.
