(* ===== verification/MallocInit.v ===== *)
(** * The memory heap: initialisation and the allocation functions *)

From S2P Require Import Prelude Bits Malloc MallocProofs MallocInv MallocHeap.

(** ** Adding a memory segment *)

(** A segment the heap can use: cache aligned, room for a block and the end
    marker, and addresses that do not wrap. *)
Record memseg_ok (base : Z) (x : rte_memseg) : Prop := {
  mo_base : base <= ms_addr x;
  mo_align : ms_addr x mod 64 = 0;
  mo_len : 192 <= ms_len x;
  mo_end : ms_addr x + ms_len x < 2 ^ 63
}.

(** The end marker is the last whole cache line of the segment. *)
Definition seg_end (x : rte_memseg) : Z := (ms_addr x + ms_len x - 64) / 64 * 64.

Definition whole (x : rte_memseg) : blk := Blk (ms_addr x) (seg_end x - ms_addr x) false 0.

Definition seg_of (ms : Z) (x : rte_memseg) : seg :=
  Seg (ms_socket_id x) ms (ms_addr x) (seg_end x) [whole x].

Lemma seg_end_spec base x :
  memseg_ok base x -> ms_addr x + 128 <= seg_end x /\ seg_end x + 64 <= ms_addr x + ms_len x /\
    (seg_end x - ms_addr x) mod 64 = 0.
Proof. intros [_ Ha Hl _]. unfold seg_end. dlia. Qed.

(** The invariant with one more segment. *)
Lemma inv_add base m m' segs s :
  heap_inv base m segs -> base <= s_start s -> s_start s mod 64 = 0 -> s_end s < 2 ^ 63 ->
  (forall i t, segs !! i = Some t -> s_end t < s_start s \/ s_end s < s_start t) ->
  suffix m' s (s_start s) 0 (s_blks s) -> same_out m m' s (s_start s) -> coalesced false (s_blks s) ->
  heap_inv base m' (segs ++ [s]).
Proof.
  intros HI Hb Hal He Hd [Hc Hf] [Hh Hfo] Hco.
  assert (Hlk : forall i t, (segs ++ [s]) !! i = Some t <->
    segs !! i = Some t \/ (i = length segs /\ t = s)).
  { intros i t. rewrite lookup_app_Some, list_lookup_singleton_Some. split; [|naive_solver lia].
    intros [?|[? [? ->]]]; [by left|right; split; [lia|done]]. }
  assert (Hlt : forall i t, segs !! i = Some t -> i <> length segs).
  { intros i t ?%lookup_lt_Some. lia. }
  split; [apply HI|..].
  - intros i t [Hi|[-> ->]]%Hlk; [|by split].
    destruct (hi_seg _ _ _ HI i t Hi) as [? ? ? Hct ?]. split; try done.
    eapply chain_ext; [|done]. intros y Hy. apply Hh. destruct (Hd i t Hi); lia.
  - intros i j t u Hij [Hi|[-> ->]]%Hlk [Hj|[-> ->]]%Hlk; [by eapply hi_disj|by eauto| |done].
    destruct (Hd j u Hj); auto.
  - intros h idx x. setoid_rewrite Hlk.
    destruct (decide (h = s_heap s /\ s_start s <= x <= s_end s)) as [[-> Hx]|Hout].
    + rewrite (Hf idx x Hx). split; [by eauto 10|]. intros (i&t&[Hi|[-> ->]]&_&Hfr); [|done].
      pose proof (is_free_chain _ _ _ _ _ _ _ (si_chain _ _ _ (hi_seg _ _ _ HI i t Hi)) Hfr).
      destruct (Hd i t Hi); lia.
    + rewrite Hfo by done. rewrite (hi_free _ _ _ HI).
      split; [intros (i&t&?&?&?); by eauto 10|]. intros (i&t&[Hi|[-> ->]]&Hht&Hfr); [by eauto|].
      exfalso. apply Hout. pose proof (is_free_chain _ _ _ _ _ _ _ Hc Hfr). split; [done|lia].
Qed.

(** The headers [malloc_heap_add_memseg] writes, before the free list. *)
Definition new_headers (m : mem_config) (ms : Z) (x : rte_memseg) : mem_config :=
  malloc_elem_mkend (malloc_elem_init m (ms_addr x) (ms_socket_id x) ms (seg_end x - ms_addr x))
    (seg_end x) (ms_addr x).

Lemma new_headers_hdr base m ms x y :
  memseg_ok base x -> 0 < base ->
  hdr (new_headers m ms x) y =
    if decide (seg_end x = y) then Elem (ms_socket_id x) (ms_addr x) ms ELEM_BUSY 0 0
    else if decide (ms_addr x = y) then Elem (ms_socket_id x) 0 ms ELEM_FREE 0 (seg_end x - ms_addr x)
    else hdr m y.
Proof.
  intros Hok Hb. pose proof (seg_end_spec _ _ Hok) as (He1&He2&He3). destruct Hok.
  unfold new_headers, malloc_elem_mkend, malloc_elem_init, set_state, set_prev. rewrite !hdr_write.
  rewrite !(decide_True (P := seg_end x = seg_end x)), !(decide_True (P := ms_addr x = ms_addr x)) by done.
  cbn. rewrite (u64_small (seg_end x - ms_addr x)) by lia. by repeat case_decide.
Qed.

Lemma add_memseg_eq base m ms x :
  memseg m !!! ms = x -> memseg_ok base x -> 0 < base ->
  exists d, malloc_heap_add_memseg m (ms_socket_id x) ms =
    let m3 := malloc_elem_free_list_insert (new_headers m ms x) (ms_addr x) in
    set_heap m3 (ms_socket_id x) (Heap (free_head (heap_of m3 (ms_socket_id x)))
      (alloc_count (heap_of m3 (ms_socket_id x))) d).
Proof.
  intros Ex Hok Hb. pose proof (seg_end_spec _ _ Hok) as (He1&He2&He3). destruct Hok.
  unfold malloc_heap_add_memseg. rewrite Ex. unfold ptr_add. change MALLOC_ELEM_OVERHEAD with 64.
  rewrite (u64_small (ms_addr x + _)) by lia. change RTE_CACHE_LINE_SIZE with (2 ^ 6).
  rewrite align_floor_spec by lia. rewrite Z.add_sub_assoc.
  change ((ms_addr x + ms_len x - 64) / 2 ^ 6 * 2 ^ 6) with (seg_end x).
  rewrite (u64_small (seg_end x - _)) by lia. eexists. reflexivity.
Qed.

Lemma add_memseg_inv base m segs ms x :
  heap_inv base m segs -> memseg m !!! ms = x -> memseg_ok base x ->
  (forall i t, segs !! i = Some t -> s_end t < ms_addr x \/ seg_end x < s_start t) ->
  heap_inv base (malloc_heap_add_memseg m (ms_socket_id x) ms) (segs ++ [seg_of ms x]).
Proof.
  intros HI Ex Hok Hd. pose proof (hi_base _ _ _ HI) as Hb.
  destruct (add_memseg_eq _ _ _ _ Ex Hok Hb) as [d ->]. cbv zeta.
  pose proof (seg_end_spec _ _ Hok) as (He1&He2&He3).
  pose proof (fun y => new_headers_hdr base m ms x y Hok Hb) as Hh. destruct Hok.
  set (m2 := new_headers m ms x) in *. set (s := seg_of ms x).
  assert (Hc : chain m2 s (ms_addr x) 0 [whole x]).
  { split; [done|]. rewrite Hh, decide_False, decide_True by lia. split; [done|].
    split; [split; cbn; try done; [lia|by left]|]. cbn [b_size whole chain].
    rewrite Zplus_minus. split; [done|]. by rewrite Hh, decide_True. }
  destruct (insert_suffix m2 s (ms_addr x) 0 (whole x) [] Hc) as [Hs Ho]; [done|lia| |].
  { intros idx y Hy. rewrite is_free_nil. split; [|done]. intros Hin.
    apply (hi_free _ _ _ HI) in Hin as (i&t&Hi&_&Hfr). cbn in Hy.
    pose proof (is_free_chain _ _ _ _ _ _ _ (si_chain _ _ _ (hi_seg _ _ _ HI i t Hi)) Hfr).
    destruct (Hd i t Hi); lia. }
  set (m3 := malloc_elem_free_list_insert m2 (ms_addr x)) in *.
  assert (Hfl : forall h idx y, in_fl (set_heap m3 (ms_socket_id x) (Heap (free_head (heap_of m3 (ms_socket_id x)))
      (alloc_count (heap_of m3 (ms_socket_id x))) d)) h idx y <-> in_fl m3 h idx y).
  { intros h idx y. unfold in_fl. rewrite heap_of_set. by case_decide; subst. }
  eapply inv_add; [exact HI|done|done|cbn; lia|done| | |cbn; tauto].
  - by eapply suffix_ext; [|exact Hfl|exact Hs].
  - destruct Ho as [Ho1 Ho2]. split.
    + intros y Hy. change (hdr m3 y = hdr m y). rewrite Ho1 by exact Hy. cbn in Hy. rewrite Hh, !decide_False by lia. done.
    + intros h idx y Hy. rewrite Hfl. by rewrite Ho2 by exact Hy.
Qed.

(** ** Initialisation *)

(** Memory before the heaps are initialised: [n] segments in use, apart from
    each other, and no free lists yet. *)
Record mem_ok (base : Z) (m : mem_config) (n : nat) : Prop := {
  mk_base : 0 < base;
  mk_count : (n <= Z.to_nat RTE_MAX_MEMSEG)%nat;
  mk_seg : forall i, (i < n)%nat -> memseg_ok base (memseg m !!! Z.of_nat i);
  mk_last : (n < Z.to_nat RTE_MAX_MEMSEG)%nat -> ms_len (memseg m !!! Z.of_nat n) = 0;
  mk_disj : forall i j, (i < j < n)%nat -> let x := memseg m !!! Z.of_nat i in
    let y := memseg m !!! Z.of_nat j in
    ms_addr x + ms_len x <= ms_addr y \/ ms_addr y + ms_len y <= ms_addr x;
  mk_heaps : heaps m = empty
}.

(** The segments in use, each one free block. *)
Definition init_segs (m : mem_config) (n : nat) : list seg :=
  (fun i => seg_of (Z.of_nat i) (memseg m !!! Z.of_nat i)) <$> seq 0 n.

Lemma init_segs_lookup m n i s :
  init_segs m n !! i = Some s <-> (i < n)%nat /\ s = seg_of (Z.of_nat i) (memseg m !!! Z.of_nat i).
Proof.
  unfold init_segs. rewrite list_lookup_fmap. destruct (decide (i < n)%nat) as [Hi|Hi].
  - rewrite lookup_seq_lt by done. cbn. naive_solver.
  - rewrite lookup_seq_ge by lia. cbn. naive_solver lia.
Qed.

Lemma add_memseg_memseg m h ms : memseg (malloc_heap_add_memseg m h ms) = memseg m.
Proof. done. Qed.

Lemma heap_init_from_inv base m0 n k f m :
  mem_ok base m0 n -> (k + f = Z.to_nat RTE_MAX_MEMSEG)%nat -> (k <= n)%nat ->
  memseg m = memseg m0 -> heap_inv base m (init_segs m0 k) ->
  heap_inv base (heap_init_from m f (Z.of_nat k)) (init_segs m0 n).
Proof.
  intros HM. revert k m. induction f as [|f IH]; intros k m Hkf Hk Em HI; cbn [heap_init_from].
  { replace n with k; [done|]. destruct HM. lia. }
  rewrite Em. destruct (decide (k < n)%nat) as [Hlt|Hge].
  - pose proof (mk_seg _ _ _ HM k Hlt) as Hok. destruct (Z.ltb_spec 0 (ms_len (memseg m0 !!! Z.of_nat k)));
      [|destruct Hok; lia].
    replace (Z.of_nat k + 1) with (Z.of_nat (S k)) by lia. apply IH; [lia|lia|done|].
    replace (init_segs m0 (S k)) with (init_segs m0 k ++ [seg_of (Z.of_nat k) (memseg m0 !!! Z.of_nat k)])
      by (unfold init_segs; by rewrite seq_S, fmap_app).
    apply add_memseg_inv; [done|by rewrite Em|done|]. intros i t [Hi ->]%init_segs_lookup.
    pose proof (seg_end_spec _ _ Hok). pose proof (mk_seg _ _ _ HM i ltac:(lia)) as Hoki.
    pose proof (seg_end_spec _ _ Hoki). pose proof (mk_disj _ _ _ HM i k ltac:(lia)) as Hd.
    cbv zeta in Hd. cbn. lia.
  - replace k with n in * by lia. rewrite (mk_last _ _ _ HM) by lia. done.
Qed.

(** [rte_eal_malloc_heap_init] leaves every segment as one free block. *)
Lemma heap_init_inv base m n :
  mem_ok base m n -> heap_inv base (rte_eal_malloc_heap_init m).1 (init_segs m n).
Proof.
  intros HM. apply (heap_init_from_inv base m n 0); [done|done|lia|done|].
  split; [apply HM|by intros i ?; destruct i|by intros i ? ? ? _; destruct i|]. intros h idx x. unfold in_fl, heap_of.
  rewrite (mk_heaps _ _ _ HM). split; [by intros ?%not_elem_of_nil|]. intros (i&?&?&_). by destruct i.
Qed.

(** ** The allocation functions *)

Lemma roundup_spec x :
  0 <= x <= 2 ^ 63 -> x <= RTE_CACHE_LINE_ROUNDUP x < x + 64 /\ RTE_CACHE_LINE_ROUNDUP x mod 64 = 0.
Proof.
  intros Hx. unfold RTE_CACHE_LINE_ROUNDUP, RTE_CACHE_LINE_SIZE.
  rewrite (u64_small (x + 64 - 1)) by lia. rewrite u64_small by dlia. dlia.
Qed.

Lemma roundup_pow2 k : 0 <= k < 63 -> RTE_CACHE_LINE_ROUNDUP (2 ^ k) = 2 ^ Z.max k 6.
Proof.
  intros Hk. destruct (decide (k < 6)) as [Hlt|Hge].
  - assert (k = 0 \/ k = 1 \/ k = 2 \/ k = 3 \/ k = 4 \/ k = 5) as Hcase by lia.
    by decompose [or] Hcase; subst k.
  - rewrite Z.max_l by lia. destruct (roundup_spec (2 ^ k)) as [Hb Hm].
    { split; [lia|]. apply Z.pow_le_mono_r; lia. }
    assert (2 ^ k mod 64 = 0); [|dlia]. apply (mod_64_of_pow2 _ k); [lia|]. apply Z_mod_same_full.
Qed.

(** The alignment the heap works with. *)
Definition eff_align (align : Z) : Z := RTE_CACHE_LINE_ROUNDUP (if align =? 0 then 1 else align).

Lemma request_ok base size align :
  0 < size -> 0 <= align < 2 ^ 32 -> size + align + 256 <= base < 2 ^ 63 ->
  align = 0 \/ rte_is_power_of_2 align = true ->
  request base (RTE_CACHE_LINE_ROUNDUP size) (eff_align align) 0.
Proof.
  intros Hs Ha Hb Hp. destruct (roundup_spec size) as [Hr Hm]; [lia|].
  assert (Hk : exists k, 6 <= k < 32 /\ eff_align align = 2 ^ k /\ 2 ^ k <= align + 64).
  { unfold eff_align. destruct (Z.eqb_spec align 0) as [->|]; [by exists 6|].
    destruct Hp as [|(k&Hk&->)%is_power_of_2_spec]; [done| |done].
    exists (Z.max k 6). rewrite roundup_pow2 by lia. split; [lia|]. split; [done|].
    destruct (Z.max_spec k 6) as [[_ ->]|[_ ->]]; lia. }
  destruct Hk as (k&Hk&E&Hle). split; [dlia|done|by exists k|by left|lia].
Qed.

(** The heaps [rte_malloc_socket] looks at. *)
Definition tried (has_hugepages : bool) (rte_socket_id socket_arg : Z) (h : Z) : Prop :=
  if has_hugepages && negb (socket_arg =? SOCKET_ID_ANY) then h = socket_arg
  else 0 <= h < RTE_MAX_NUMA_NODES \/ h = malloc_get_numa_socket rte_socket_id.

(** What an allocation function returns: memory, or nothing because no heap it
    looks at has a place. *)
Definition alloc_result (base : Z) (m m' : mem_config) (segs : list seg) (p size align : Z)
    (heaps : Z -> Prop) : Prop :=
  (p <> 0 /\ alloc_post base segs m m' p size align 0) \/
  (p = 0 /\ m' = m /\ forall h, heaps h -> no_place segs h size align).

Lemma try_heaps_ok base m segs size align socket n i :
  heap_inv base m segs -> request base (RTE_CACHE_LINE_ROUNDUP size) (eff_align align) 0 ->
  let '(m', p) := try_heaps m size align socket n i in
  alloc_result base m m' segs p (RTE_CACHE_LINE_ROUNDUP size) (eff_align align)
    (fun h => i <= h < i + Z.of_nat n /\ h <> socket).
Proof.
  intros HI Hrq. revert i. induction n as [|n IH]; intros i; cbn [try_heaps].
  { right. split_and!; [done..|]. intros h. lia. }
  destruct (Z.eqb_spec i socket) as [->|Hne].
  { specialize (IH (socket + 1)). destruct (try_heaps _ _ _ _ _ _) as [m' p].
    destruct IH as [?|(?&?&Hno)]; [by left|right]. split_and!; [done..|].
    intros h Hh. apply Hno. lia. }
  pose proof (heap_alloc_ok base m segs i size 0 (if align =? 0 then 1 else align) 0 HI Hrq) as Ha.
  destruct (malloc_heap_alloc _ _ _ _ _ _) as [m1 p1]. destruct Ha as [[Hp Ha]|(->&->&Hno1)].
  { rewrite (proj2 (Z.eqb_neq _ _) Hp). by left. }
  cbn. specialize (IH (i + 1)). destruct (try_heaps _ _ _ _ _ _) as [m' p].
  destruct IH as [?|(?&?&Hno)]; [by left|right]. split_and!; [done..|].
  intros h Hh. destruct (decide (h = i)) as [->|]; [by apply Hno1|]. apply Hno. lia.
Qed.

Lemma malloc_socket_ok hp sock base m segs size align socket_arg :
  heap_inv base m segs -> 0 < size -> 0 <= align < 2 ^ 32 -> size + align + 256 <= base < 2 ^ 63 ->
  align = 0 \/ rte_is_power_of_2 align = true ->
  socket_arg < RTE_MAX_NUMA_NODES -> malloc_get_numa_socket sock < RTE_MAX_NUMA_NODES ->
  let '(m', p) := rte_malloc_socket hp sock m size align socket_arg in
  alloc_result base m m' segs p (RTE_CACHE_LINE_ROUNDUP size) (eff_align align)
    (tried hp sock socket_arg).
Proof.
  intros HI Hs Ha Hb Hp Hsk Hsk'. pose proof (request_ok base size align Hs Ha Hb Hp) as Hrq.
  unfold rte_malloc_socket. rewrite (proj2 (Z.eqb_neq size 0)) by lia.
  assert (Etest : negb (align =? 0) && negb (rte_is_power_of_2 align) = false).
  { destruct Hp as [->| ->]; [done|by rewrite andb_false_r]. }
  rewrite Etest. cbn [orb]. unfold tried. set (arg := if hp then socket_arg else SOCKET_ID_ANY).
  assert (Earg : hp && negb (socket_arg =? SOCKET_ID_ANY) = negb (arg =? SOCKET_ID_ANY)) by (by destruct hp).
  rewrite Earg. set (socket := if arg =? SOCKET_ID_ANY then _ else arg).
  assert (Hsock : socket < RTE_MAX_NUMA_NODES) by (unfold socket, arg; by destruct hp; case_tests).
  destruct (Z.leb_spec RTE_MAX_NUMA_NODES socket); [lia|].
  pose proof (heap_alloc_ok base m segs socket size 0 (if align =? 0 then 1 else align) 0 HI Hrq) as H1.
  destruct (malloc_heap_alloc _ _ _ _ _ _) as [m1 p1]. destruct H1 as [[Hp1 H1]|(->&->&Hno1)].
  { rewrite (proj2 (Z.eqb_neq _ _) Hp1). by left. }
  cbn [negb orb Z.eqb]. destruct (Z.eqb_spec arg SOCKET_ID_ANY) as [Ea|Ea]; cbn [negb].
  - pose proof (try_heaps_ok base m segs size align socket (Z.to_nat RTE_MAX_NUMA_NODES) 0 HI Hrq) as Ht.
    destruct (try_heaps _ _ _ _ _ _) as [m' p]. destruct Ht as [?|(->&->&Hno)]; [by left|right].
    split_and!; [done..|]. intros h Hh. destruct (decide (h = socket)) as [->|Hne]; [by apply Hno1|].
    destruct Hh as [Hh|Hh]; [apply Hno; split; [|done]; cbn; unfold RTE_MAX_NUMA_NODES in *; lia|].
    by rewrite Hh in Hne.
  - right. split_and!; [done..|]. intros h ->. unfold arg in *. destruct hp; [by apply Hno1|done].
Qed.
