(* ===== verification/MallocTheorems.v ===== *)
(** * The memory heap: the theorems

    The abstract view of the heap is a map from the address of every allocated
    block to the size that was asked for.  [reach] is what a program can do:
    initialise the heaps, allocate, fail to allocate, and free a block it
    holds. *)

From S2P Require Import Prelude Bits Malloc MallocProofs MallocInv MallocHeap MallocInit.

(** ** Executions *)

(** The arguments of an allocation: addresses are larger than sizes. *)
Record alloc_args (base size align socket_arg sock : Z) : Prop := {
  aa_size : 0 < size;
  aa_align : 0 <= align < 2 ^ 32;
  aa_pow2 : align = 0 \/ rte_is_power_of_2 align = true;
  aa_base : size + align + 256 <= base < 2 ^ 63;
  aa_socket : SOCKET_ID_ANY <= socket_arg < RTE_MAX_NUMA_NODES;
  aa_core : 0 <= malloc_get_numa_socket sock < RTE_MAX_NUMA_NODES
}.

(** The states of a program that allocates with [rte_malloc_socket] and frees
    with [rte_free].  Resizing in place ([malloc_elem_resize]) is not a step:
    it can leave a block that is too short ([resize_ignores_pad]). *)
Inductive reach (base : Z) (n : nat) (m0 : mem_config) : mem_config -> gmap Z Z -> Prop :=
| reach_init : mem_ok base m0 n -> reach base n m0 (rte_eal_malloc_heap_init m0).1 empty
| reach_alloc hp sock m L size align socket_arg m' p :
    reach base n m0 m L -> alloc_args base size align socket_arg sock ->
    rte_malloc_socket hp sock m size align socket_arg = (m', p) -> p <> 0 ->
    reach base n m0 m' (<[p := size]> L)
| reach_fail hp sock m L size align socket_arg m' :
    reach base n m0 m L -> alloc_args base size align socket_arg sock ->
    rte_malloc_socket hp sock m size align socket_arg = (m', 0) ->
    reach base n m0 m' L
| reach_free m L p size m' :
    reach base n m0 m L -> L !! p = Some size -> rte_free m p = Some m' ->
    reach base n m0 m' (delete p L).

(** The map holds the busy blocks. *)
Record held (base : Z) (n : nat) (m0 m : mem_config) (L : gmap Z Z) (segs : list seg) : Prop := {
  hd_init : mem_ok base m0 n;
  hd_inv : heap_inv base m segs;
  hd_geom : geom segs = geom (init_segs m0 n);
  hd_live : forall p size, L !! p = Some size -> exists len, live segs p len /\ size <= len;
  hd_all : forall p len, live segs p len -> is_Some (L !! p)
}.

Lemma init_segs_free m n p len : ~ live (init_segs m n) p len.
Proof.
  intros (i&s&b&Hi&[Hb Hbusy]&_). apply init_segs_lookup in Hi as [_ ->].
  apply list_elem_of_singleton in Hb as ->. done.
Qed.

Lemma held_alloc hp sock base n m0 m L segs size align socket_arg :
  held base n m0 m L segs -> alloc_args base size align socket_arg sock ->
  let '(m', p) := rte_malloc_socket hp sock m size align socket_arg in
  alloc_result base m m' segs p (RTE_CACHE_LINE_ROUNDUP size) (eff_align align) (tried hp sock socket_arg).
Proof. intros HH [? ? ? ? ? ?]. apply malloc_socket_ok; (apply HH || lia || done). Qed.

Lemma held_insert base n m0 m m' L segs p size align :
  held base n m0 m L segs -> 0 < size -> size <= base < 2 ^ 63 ->
  alloc_post base segs m m' p (RTE_CACHE_LINE_ROUNDUP size) align 0 ->
  exists segs', held base n m0 m' (<[p := size]> L) segs'.
Proof.
  intros [HM HI Hg Hl Ha] Hs Hb (segs'&len&HI'&Hg'&Hlen&_&_&_&Hnew&Hlive). exists segs'.
  destruct (roundup_spec size) as [Hr _]; [lia|]. split; [done|done|congruence|..].
  - intros q z. rewrite lookup_insert_Some. intros [[<- <-]|[Hne Hq]].
    + exists len. rewrite Hlive. split; [by right|lia].
    + destruct (Hl q z Hq) as (k&Hk&?). exists k. rewrite Hlive. split; [by left|done].
  - intros q k. rewrite Hlive. intros [Hk|[-> ->]]; [|by rewrite lookup_insert_eq].
    destruct (decide (p = q)) as [<-|Hne]; [by rewrite lookup_insert_eq|].
    rewrite lookup_insert_ne by done. by eapply Ha.
Qed.

Lemma reach_held base n m0 m L : reach base n m0 m L -> exists segs, held base n m0 m L segs.
Proof.
  induction 1 as [HM|hp sock m L size align arg m' p _ [segs HH] Hargs E Hp
                 |hp sock m L size align arg m' _ [segs HH] Hargs E
                 |m L p size m' _ [segs HH] Hp E].
  - exists (init_segs m0 n). split; [done|by apply heap_init_inv|done|by intros ? ? ?|].
    by intros p len ?%init_segs_free.
  - pose proof (held_alloc hp sock _ _ _ _ _ _ _ _ _ HH Hargs) as Ha. rewrite E in Ha.
    destruct Ha as [[_ Ha]|[? _]]; [|done]. destruct Hargs. eapply held_insert; [done|done|lia|done].
  - pose proof (held_alloc hp sock _ _ _ _ _ _ _ _ _ HH Hargs) as Ha. rewrite E in Ha.
    destruct Ha as [[? _]|(_&->&_)]; [done|by exists segs].
  - destruct HH as [HM HI Hg Hl Ha]. destruct (Hl p size Hp) as (len&Hlen&_).
    destruct (rte_free_ok _ _ _ _ _ HI Hlen) as (m''&segs'&E'&HI'&Hg'&Hlive).
    rewrite E in E'. injection E' as <-. exists segs'. split; [done|done|congruence|..].
    + intros q z [Hne Hq]%lookup_delete_Some. destruct (Hl q z Hq) as (k&Hk&?).
      exists k. rewrite Hlive. split; [|done]. split; [done|congruence].
    + intros q k. rewrite Hlive. intros [Hk Hne]. rewrite lookup_delete_ne by congruence. by eapply Ha.
Qed.

(** An allocated block is inside one of the segments. *)
Lemma held_inside base n m0 m L segs p size :
  held base n m0 m L segs -> L !! p = Some size ->
  exists i, (i < n)%nat /\ let x := memseg m0 !!! Z.of_nat i in
    ms_addr x + 64 <= p /\ p + size <= ms_addr x + ms_len x.
Proof.
  intros [HM HI Hg Hl _] Hp. destruct (Hl p size Hp) as (len&(j&s&b&Hj&[Hb _]&->&->)&Hle).
  assert (Hgs : geom segs !! j = Some (with_blks s [])) by (unfold geom; by rewrite list_lookup_fmap, Hj).
  rewrite Hg in Hgs. unfold geom in Hgs. rewrite list_lookup_fmap in Hgs.
  destruct (init_segs m0 n !! j) as [t|] eqn:Et; [|done]. apply init_segs_lookup in Et as [Hjn ->].
  exists j. split; [done|]. cbv zeta. injection Hgs as Hh Hms Hstart Hend.
  pose proof (hi_seg _ _ _ HI j s Hj) as [_ _ _ Hc _].
  destruct (chain_addr _ _ _ _ _ _ Hc Hb) as (?&?&[_ _ Hpad _]).
  pose proof (seg_end_spec _ _ (mk_seg _ _ _ HM j Hjn)). destruct Hpad as [|(_&?&_)]; lia.
Qed.

Lemma eff_align_max align :
  0 <= align < 2 ^ 32 -> align = 0 \/ rte_is_power_of_2 align = true -> eff_align align = Z.max align 64.
Proof.
  intros Ha [->|(k&Hk&->)%is_power_of_2_spec]; [done| |done]. unfold eff_align.
  rewrite (proj2 (Z.eqb_neq _ 0)) by lia. rewrite roundup_pow2 by lia. change 64 with (2 ^ 6).
  destruct (Z.max_spec k 6) as [[Hl ->]|[Hl ->]].
  - rewrite Z.max_r; [done|]. apply Z.pow_le_mono_r; lia.
  - rewrite Z.max_l; [done|]. apply Z.pow_le_mono_r; lia.
Qed.

Lemma validate_live base m segs p len :
  heap_inv base m segs -> live segs p len -> rte_malloc_validate m p = (0, len).
Proof.
  intros HI (i&s&b&Hi&Hb&->&->). pose proof (hi_seg _ _ _ HI i s Hi) as [Hbase _ Hend Hc _].
  pose proof (hi_base _ _ _ HI). unfold rte_malloc_validate. rewrite (from_data_spec _ _ _ _ _ _ HI Hi Hb).
  destruct Hb as [Hb _]. destruct (chain_addr _ _ _ _ _ _ Hc Hb) as (?&?&[? _ Hpad _]).
  rewrite (proj2 (Z.eqb_neq _ 0)) by lia.
  apply list_elem_of_split in Hb as (l1&l2&El). rewrite El in Hc.
  apply blk_chain_app in Hc as (?&?&_&(<-&->&_)). cbn. change MALLOC_ELEM_OVERHEAD with 64.
  by rewrite u64_small by (destruct Hpad as [|(_&?&_)]; lia).
Qed.

(** C38: at every point of every execution the blocks a program holds are
    pairwise disjoint, each is inside a memory segment behind a header,
    [rte_malloc_validate] reports at least the size that was asked for, and
    freeing it does not panic. *)
Theorem heap_safety base n m0 m L :
  reach base n m0 m L ->
  (forall p size q k, L !! p = Some size -> L !! q = Some k -> p <> q -> p + size <= q \/ q + k <= p) /\
  (forall p size, L !! p = Some size ->
    (exists i, (i < n)%nat /\ let x := memseg m0 !!! Z.of_nat i in
      ms_addr x + 64 <= p /\ p + size <= ms_addr x + ms_len x) /\
    (exists len, rte_malloc_validate m p = (0, len) /\ size <= len) /\
    exists m', rte_free m p = Some m').
Proof.
  intros [segs HH]%reach_held. split.
  - intros p size q k Hp Hq Hne. destruct (hd_live _ _ _ _ _ _ HH p size Hp) as (l&Hl&?).
    destruct (hd_live _ _ _ _ _ _ HH q k Hq) as (l'&Hl'&?).
    destruct (live_disjoint _ _ _ _ _ _ _ (hd_inv _ _ _ _ _ _ HH) Hl Hl') as [[? _]|?]; [done|lia].
  - intros p size Hp. split; [by eapply held_inside|].
    destruct (hd_live _ _ _ _ _ _ HH p size Hp) as (l&Hl&?). pose proof (hd_inv _ _ _ _ _ _ HH) as HI.
    split; [exists l; split; [by eapply validate_live|done]|].
    destruct (rte_free_ok _ _ _ _ _ HI Hl) as (m'&_&E&_). by exists m'.
Qed.

(** C39: an allocation of [size] bytes returns memory that no held block
    meets, aligned to the requested alignment and to a cache line, inside a
    segment.  The new state is one a program can be in with the old blocks and
    the new one: every block held before is still there with its size, the new
    one has at least the size asked for, and each of them can be freed.  Or the
    allocation returns NULL, changes nothing, and no free element of a heap it
    looks at has an aligned place for the data. *)
Theorem rte_malloc_correct hp sock base n m0 m L size align socket_arg :
  reach base n m0 m L -> alloc_args base size align socket_arg sock ->
  let '(m', p) := rte_malloc_socket hp sock m size align socket_arg in
  (p <> 0 /\ L !! p = None /\ p mod Z.max align 64 = 0 /\
    (forall q k, L !! q = Some k -> p + size <= q \/ q + k <= p) /\
    (exists i, (i < n)%nat /\ let x := memseg m0 !!! Z.of_nat i in
      ms_addr x + 64 <= p /\ p + size <= ms_addr x + ms_len x) /\
    reach base n m0 m' (<[p := size]> L) /\
    (forall q k, L !! q = Some k -> rte_malloc_validate m' q = rte_malloc_validate m q) /\
    (exists len, rte_malloc_validate m' p = (0, len) /\ size <= len) /\
    (forall q k, <[p := size]> L !! q = Some k -> is_Some (rte_free m' q))) \/
  (p = 0 /\ m' = m /\ forall h idx x d, tried hp sock socket_arg h ->
    x ∈ free_head (heap_of m h) !!! idx -> d mod Z.max align 64 = 0 -> x + 64 <= d ->
    d + RTE_CACHE_LINE_ROUNDUP size <= x + e_size (hdr m x) -> False).
Proof.
  intros HR Hargs. destruct (reach_held _ _ _ _ _ HR) as [segs HH].
  pose proof (held_alloc hp sock _ _ _ _ _ _ _ _ _ HH Hargs) as Ha.
  destruct (rte_malloc_socket hp sock m size align socket_arg) as [m' p] eqn:E.
  pose proof (eff_align_max align (aa_align _ _ _ _ _ Hargs) (aa_pow2 _ _ _ _ _ Hargs)) as Eal.
  destruct Ha as [[Hp Ha]|(->&->&Hno)]; [left|right].
  - assert (HH' : exists segs', held base n m0 m' (<[p := size]> L) segs').
    { destruct Hargs. eapply held_insert; [done|done|lia|done]. }
    destruct HH' as [segs' HH']. pose proof Ha as (_&_&_&_&_&Hmod&_&_&Hnew&_).
    assert (Hfresh : L !! p = None).
    { destruct (L !! p) as [z|] eqn:Ez; [|done]. destruct (hd_live _ _ _ _ _ _ HH p z Ez) as (k&Hk&_).
      by destruct (Hnew k). }
    rewrite <- Eal. split_and!; try done.
    + intros q k Hq. assert (Hne : p <> q) by congruence.
      destruct (hd_live _ _ _ _ _ _ HH' p size) as (l&Hl&?); [by rewrite lookup_insert_eq|].
      destruct (hd_live _ _ _ _ _ _ HH' q k) as (l'&Hl'&?); [by rewrite lookup_insert_ne|].
      destruct (live_disjoint _ _ _ _ _ _ _ (hd_inv _ _ _ _ _ _ HH') Hl Hl') as [[? _]|?]; [done|lia].
    + eapply held_inside; [exact HH'|]. by rewrite lookup_insert_eq.
    + by eapply reach_alloc.
    + intros q k Hq. destruct (hd_live _ _ _ _ _ _ HH q k Hq) as (l&Hl&_).
      destruct Ha as (segs1&len&HI1&_&_&_&_&_&_&Hlive).
      rewrite (validate_live _ _ _ _ _ (hd_inv _ _ _ _ _ _ HH) Hl).
      apply (validate_live _ _ _ _ _ HI1), Hlive. by left.
    + destruct (hd_live _ _ _ _ _ _ HH' p size) as (l&Hl&?); [by rewrite lookup_insert_eq|].
      exists l. split; [|done]. exact (validate_live _ _ _ _ _ (hd_inv _ _ _ _ _ _ HH') Hl).
    + intros q k Hq. destruct (hd_live _ _ _ _ _ _ HH' q k Hq) as (l&Hl&_).
      destruct (rte_free_ok _ _ _ _ _ (hd_inv _ _ _ _ _ _ HH') Hl) as (m''&_&Ef&_). by exists m''.
  - split_and!; [done..|]. intros h idx x d Hh Hx Hd Hlo Hhi. rewrite <- Eal in Hd.
    destruct (free_block _ _ _ _ _ _ (hd_inv _ _ _ _ _ _ HH) Hx)
      as (i&s&b&l1&l2&_&Hi&El&Hfree&<-&Hsh&_&_&_&_&_&_&Hes&_). rewrite Hes in Hhi.
    eapply (Hno h Hh i s b d); [done|done|rewrite El; set_solver|done..].
Qed.

(** Without busy blocks a coalesced segment is one free block. *)
Lemma all_free_single m s bs :
  chain m s (s_start s) 0 bs -> s_start s < s_end s -> coalesced false bs ->
  (forall b, ~ busy_in bs b) -> bs = [Blk (s_start s) (s_end s - s_start s) false 0].
Proof.
  intros Hc Hlt Hco Hno. destruct bs as [|[a z bu pd] bs]; [destruct Hc; lia|].
  assert (bu = false) as ->.
  { destruct bu; [|done]. exfalso. eapply Hno. split; [by left|done]. }
  destruct bs as [|[a' z' bu' pd'] bs].
  - cbn in Hc. destruct Hc as (->&_&[_ _ [Hp|[? _]] _]&Hend&_); [|done]. cbn in Hp. subst pd.
    f_equal. f_equal. lia.
  - cbn in Hco. destruct Hco as (_&Hb'&_). exfalso. eapply (Hno (Blk a' z' bu' pd')).
    split; [by right; left|]. by apply Hb'.
Qed.

Lemma held_empty base n m0 m segs : held base n m0 m empty segs -> segs = init_segs m0 n.
Proof.
  intros [HM HI Hg _ Hall]. apply list_eq. intros i.
  assert (Hgi : geom segs !! i = geom (init_segs m0 n) !! i) by (by rewrite Hg).
  unfold geom in Hgi. rewrite !list_lookup_fmap in Hgi.
  destruct (segs !! i) as [s|] eqn:Hs, (init_segs m0 n !! i) as [t|] eqn:Ht; try done.
  f_equal. apply init_segs_lookup in Ht as [Hi ->]. pose proof (hi_seg _ _ _ HI i s Hs) as [_ _ _ Hc Hco].
  pose proof (seg_end_spec _ _ (mk_seg _ _ _ HM i Hi)) as He.
  destruct s as [h ms st e bs]. cbn in *. injection Hgi as -> -> -> ->.
  assert (Hbs := all_free_single _ _ _ Hc). cbn in Hbs. unfold seg_of, whole. f_equal. apply Hbs; [lia|done|].
  intros b Hb. destruct (Hall (b_addr b + b_pad b + 64) (b_size b - b_pad b - 64)) as [? [=]].
  exists i. eauto 10.
Qed.

(** C40: nothing leaks and everything is merged again: in whatever order the
    blocks were allocated and freed, once all are freed every segment is one
    free element and the free lists are those of the initialised heap. *)
Theorem free_all_restores base n m0 m :
  reach base n m0 m empty ->
  (forall i, (i < n)%nat -> let a := ms_addr (memseg m0 !!! Z.of_nat i) in
    hdr m a = hdr (rte_eal_malloc_heap_init m0).1 a) /\
  (forall h idx x, x ∈ free_head (heap_of m h) !!! idx <->
    x ∈ free_head (heap_of (rte_eal_malloc_heap_init m0).1 h) !!! idx).
Proof.
  intros [segs HH]%reach_held. pose proof (held_empty _ _ _ _ _ HH) as ->.
  pose proof (hd_inv _ _ _ _ _ _ HH) as HI. pose proof (heap_init_inv _ _ _ (hd_init _ _ _ _ _ _ HH)) as HI0.
  split.
  - intros i Hi a. assert (Hs : init_segs m0 n !! i = Some (seg_of (Z.of_nat i) (memseg m0 !!! Z.of_nat i)))
      by (by apply init_segs_lookup).
    destruct (si_chain _ _ _ (hi_seg _ _ _ HI i _ Hs)) as (_&E1&_).
    destruct (si_chain _ _ _ (hi_seg _ _ _ HI0 i _ Hs)) as (_&E2&_).
    change (s_start _) with a in E1, E2. by rewrite E1, E2.
  - intros h idx x. pose proof (hi_free _ _ _ HI h idx x) as H1. pose proof (hi_free _ _ _ HI0 h idx x) as H2.
    unfold in_fl in H1, H2. by rewrite H1, H2.
Qed.

(** ** Witnesses *)

(** One segment of a page at [2^40]. *)
Definition demo_mem : mem_config := Mem empty empty {[ 0 := Memseg (2 ^ 40) 4096 (2 ^ 21) 0 ]}.
Definition demo_init : mem_config := (rte_eal_malloc_heap_init demo_mem).1.
Definition demo_alloc : mem_config * Z := rte_malloc_socket true 0 demo_init 100 0 0.
Definition demo_alloc2 : mem_config * Z := rte_malloc_socket true 0 demo_alloc.1 200 256 0.
Definition demo_free : mem_config := default demo_init (rte_free demo_alloc2.1 demo_alloc.2).
Definition demo_free2 : mem_config := default demo_init (rte_free demo_free demo_alloc2.2).

Lemma some_default {A} (d : A) (o : option A) : o <> None -> o = Some (default d o).
Proof. by destruct o. Qed.

Lemma demo_mem_ok : mem_ok (2 ^ 40) demo_mem 1.
Proof.
  split; [done|unfold RTE_MAX_MEMSEG; lia| |done|lia|done]. intros [|i] Hi; [|lia]. by split.
Qed.

Lemma demo_args size align :
  0 < size < 1000 -> align = 0 \/ align = 256 -> alloc_args (2 ^ 40) size align 0 0.
Proof.
  intros Hs Ha. split; [lia|lia| |lia|done|done]. destruct Ha as [->| ->]; [by left|by right].
Qed.

Lemma demo_reach : reach (2 ^ 40) 1 demo_mem demo_alloc2.1
  (<[demo_alloc2.2 := 200]> (<[demo_alloc.2 := 100]> empty)).
Proof.
  apply (reach_alloc _ _ _ true 0 demo_alloc.1 _ 200 256 0); [|by apply demo_args; auto with lia| |by vm_compute].
  - apply (reach_alloc _ _ _ true 0 demo_init _ 100 0 0); [|by apply demo_args; auto with lia| |by vm_compute].
    + apply reach_init, demo_mem_ok.
    + unfold demo_alloc. apply surjective_pairing.
  - unfold demo_alloc2. apply surjective_pairing.
Qed.

Lemma demo_reach_empty : reach (2 ^ 40) 1 demo_mem demo_free2 empty.
Proof.
  assert (E : delete demo_alloc2.2 (delete demo_alloc.2
    (<[demo_alloc2.2 := 200]> (<[demo_alloc.2 := 100]> (empty : gmap Z Z)))) = empty) by by vm_compute.
  rewrite <- E. apply (reach_free _ _ _ demo_free _ _ 200); [|by vm_compute|].
  - apply (reach_free _ _ _ demo_alloc2.1 _ _ 100); [apply demo_reach|by vm_compute|].
    apply some_default. by vm_compute.
  - apply some_default. by vm_compute.
Qed.

Lemma heap_safety_witness :
  demo_alloc.2 = 2 ^ 40 + 3904 /\ demo_alloc2.2 = 2 ^ 40 + 3584 /\
  (demo_alloc.2 + 100 <= demo_alloc2.2 \/ demo_alloc2.2 + 200 <= demo_alloc.2).
Proof.
  split; [by vm_compute|]. split; [by vm_compute|].
  apply (proj1 (heap_safety _ _ _ _ _ demo_reach)); [by vm_compute..|]. by vm_compute.
Defined.

Lemma rte_malloc_correct_witness :
  let '(m', p) := rte_malloc_socket true 0 demo_alloc2.1 300 256 0 in
  p = 2 ^ 40 + 3072 /\ rte_malloc_validate m' demo_alloc.2 = rte_malloc_validate demo_alloc2.1 demo_alloc.2 /\
  is_Some (rte_free m' p).
Proof.
  pose proof (rte_malloc_correct true 0 _ _ _ _ _ 300 256 0 demo_reach (demo_args 300 256 ltac:(lia) (or_intror eq_refl))) as H.
  assert (Hp : (rte_malloc_socket true 0 demo_alloc2.1 300 256 0).2 = 2 ^ 40 + 3072) by by vm_compute.
  destruct (rte_malloc_socket true 0 demo_alloc2.1 300 256 0) as [m' p]. cbn in Hp.
  destruct H as [(_&_&_&_&_&_&Hk&_&Hf)|[H0 _]]; [|rewrite Hp in H0; discriminate].
  split; [exact Hp|]. split; [apply (Hk _ 100); by vm_compute|]. apply (Hf p 300). apply lookup_insert_eq.
Defined.

Lemma free_all_restores_witness : hdr demo_free2 (2 ^ 40) = hdr demo_init (2 ^ 40).
Proof. exact (proj1 (free_all_restores _ _ _ _ demo_reach_empty) 0%nat ltac:(lia)). Defined.

(** ** Where the code falls short *)

(** A segment where the second block is padded. *)
Definition pad_mem : mem_config := Mem empty empty {[ 0 := Memseg (2 ^ 40) 960 (2 ^ 21) 0 ]}.
Definition pad_b : mem_config * Z := rte_malloc_socket true 0 (rte_eal_malloc_heap_init pad_mem).1 512 0 0.
Definition pad_a : mem_config * Z := rte_malloc_socket true 0 pad_b.1 128 128 0.
Definition pad_free : mem_config := default pad_mem (rte_free pad_a.1 pad_b.2).

(** [malloc_elem_resize] reports success for a block with padding but
    leaves it short: it computes the current size without the padding and
    splits as if there were none, so the 320 bytes asked for become 256 and
    the header of the next free element is inside the data. *)
Theorem resize_ignores_pad :
  let elem := malloc_elem_from_data pad_free pad_a.2 in
  let '(m, rc) := malloc_elem_resize pad_free elem 320 in
  rc = 0 /\ rte_malloc_validate m pad_a.2 = (0, 256) /\
  (exists next l, free_head (heap_of m 0) !!! 1 = next :: l /\ next = pad_a.2 + 256).
Proof. vm_compute. split; [done|]. split; [done|]. by eexists _, _. Qed.

(** A size within a cache line of [2^64] is rounded up to 0: the caller
    gets a block without a single byte instead of NULL. *)
Theorem rte_malloc_size_wraps :
  let '(m, p) := rte_malloc_socket true 0 demo_init (2 ^ 64 - 1) 0 0 in
  p <> 0 /\ rte_malloc_validate m p = (0, 0).
Proof. vm_compute. done. Qed.
