(* ===== verification/Timer.v ===== *)
(** * Timers: the data structures and operations of librte_timer/rte_timer.c

    Each lcore keeps its pending timers in a skip list of at most
    [MAX_SKIPLIST_DEPTH] levels, headed by [priv_timer[lcore].pending_head]
    and ordered by expiry.  A timer is a block of user memory: it is named by
    its address, and the links [sl_next] of timers and heads are one store of
    pointers, so that a list is what following the links yields.

    The C library's [lrand48] and the roles of the lcores are arguments; the
    cycle counter is an argument of the operations that read it.  A spinlock
    taken twice by the same thread, and a loop that does not end, are the
    result [None]. *)
From S2P Require Import Prelude Bits.

Definition RTE_MAX_LCORE : Z := 128.
Definition LCORE_ID_ANY : Z := 2 ^ 32 - 1.
Definition MAX_SKIPLIST_DEPTH : Z := 10.

Definition RTE_TIMER_STOP : Z := 0.
Definition RTE_TIMER_PENDING : Z := 1.
Definition RTE_TIMER_RUNNING : Z := 2.
Definition RTE_TIMER_CONFIG : Z := 3.
Definition RTE_TIMER_NO_OWNER : Z := -2.

Inductive rte_timer_type := SINGLE | PERIODICAL.

(** ** Data *)

Record rte_timer_status := mkStatus { state : Z; owner : Z }.

#[export] Instance rte_timer_status_eq_dec : EqDecision rte_timer_status.
Proof. solve_decision. Defined.

(** [struct rte_timer] without its links. *)
Record rte_timer := mkTimer {
  expire : Z;
  status : rte_timer_status;
  period : Z;
  f : Z;
  arg : Z }.

#[export] Instance rte_timer_inhabited : Inhabited rte_timer :=
  populate (mkTimer 0 (mkStatus 0 0) 0 0 0).

(** A link holder: the dummy head of an lcore's list or a timer. *)
Abbreviation node := (Z + Z)%type (only parsing).
Abbreviation pending_head c := (inl c : node).
Abbreviation timer_at t := (inr t : node).

(** The timers, [priv_timer[]], the generator of [lrand48] and the calls of
    timer callbacks made so far. *)
Record tstate := mkTstate {
  sl_next : gmap (node * Z) Z;
  tims : gmap Z rte_timer;
  head_expire : gmap Z Z;
  curr_skiplist_depth : gmap Z Z;
  prev_lcore : gmap Z Z;
  updated : gmap Z Z;
  list_lock : gset Z;
  seed : Z;
  calls : list (Z * Z * Z) }.

Definition set_sl_next (n : gmap (node * Z) Z) (s : tstate) : tstate :=
  mkTstate n (tims s) (head_expire s) (curr_skiplist_depth s) (prev_lcore s) (updated s)
    (list_lock s) (seed s) (calls s).
Definition set_tims (m : gmap Z rte_timer) (s : tstate) : tstate :=
  mkTstate (sl_next s) m (head_expire s) (curr_skiplist_depth s) (prev_lcore s) (updated s)
    (list_lock s) (seed s) (calls s).
Definition set_head_expire (c e : Z) (s : tstate) : tstate :=
  mkTstate (sl_next s) (tims s) (<[c := e]> (head_expire s)) (curr_skiplist_depth s)
    (prev_lcore s) (updated s) (list_lock s) (seed s) (calls s).
Definition set_depth (c d : Z) (s : tstate) : tstate :=
  mkTstate (sl_next s) (tims s) (head_expire s) (<[c := d]> (curr_skiplist_depth s))
    (prev_lcore s) (updated s) (list_lock s) (seed s) (calls s).
Definition set_prev_lcore (c p : Z) (s : tstate) : tstate :=
  mkTstate (sl_next s) (tims s) (head_expire s) (curr_skiplist_depth s)
    (<[c := p]> (prev_lcore s)) (updated s) (list_lock s) (seed s) (calls s).
Definition set_updated (c u : Z) (s : tstate) : tstate :=
  mkTstate (sl_next s) (tims s) (head_expire s) (curr_skiplist_depth s) (prev_lcore s)
    (<[c := u]> (updated s)) (list_lock s) (seed s) (calls s).
Definition set_list_lock (l : gset Z) (s : tstate) : tstate :=
  mkTstate (sl_next s) (tims s) (head_expire s) (curr_skiplist_depth s) (prev_lcore s) (updated s)
    l (seed s) (calls s).
Definition set_seed (x : Z) (s : tstate) : tstate :=
  mkTstate (sl_next s) (tims s) (head_expire s) (curr_skiplist_depth s) (prev_lcore s) (updated s)
    (list_lock s) x (calls s).
Definition log_call (k : Z * Z * Z) (s : tstate) : tstate :=
  mkTstate (sl_next s) (tims s) (head_expire s) (curr_skiplist_depth s) (prev_lcore s) (updated s)
    (list_lock s) (seed s) (calls s ++ [k]).

(** [x->sl_next[i]], with [None] for NULL, and its assignment. *)
Definition next (s : tstate) (x : node) (i : Z) : option Z := sl_next s !! (x, i).
Definition set_next (x : node) (i : Z) (p : option Z) (s : tstate) : tstate :=
  set_sl_next (partial_alter (fun _ => p) (x, i) (sl_next s)) s.

(** Fields of the timer at [t]. *)
Definition tim (s : tstate) (t : Z) : rte_timer := tims s !!! t.
Definition texpire (s : tstate) (t : Z) : Z := expire (tim s t).
Definition tstatus (s : tstate) (t : Z) : rte_timer_status := status (tim s t).
Definition depth (s : tstate) (c : Z) : Z := curr_skiplist_depth s !!! c.

Definition with_status (st : rte_timer_status) (r : rte_timer) : rte_timer :=
  mkTimer (expire r) st (period r) (f r) (arg r).
Definition set_status (t : Z) (st : rte_timer_status) (s : tstate) : tstate :=
  set_tims (<[t := with_status st (tim s t)]> (tims s)) s.

(** ** Spinlocks

    [rte_spinlock_lock] spins while the lock is held. *)

Definition rte_spinlock_lock (c : Z) (s : tstate) : option tstate :=
  if decide (c ∈ list_lock s) then None else Some (set_list_lock (list_lock s ∪ {[c]}) s).
Definition rte_spinlock_unlock (c : Z) (s : tstate) : tstate :=
  set_list_lock (list_lock s ∖ {[c]}) s.

(** [if (core != lcore_id || !local_is_locked) rte_spinlock_lock(...)]. *)
Definition lock_if (need : bool) (c : Z) (s : tstate) : option tstate :=
  if need then rte_spinlock_lock c s else Some s.
Definition unlock_if (need : bool) (c : Z) (s : tstate) : tstate :=
  if need then rte_spinlock_unlock c s else s.

(** ** Lcores (rte_lcore.h) *)

Definition ROLE_OFF : Z := 1.

Definition rte_lcore_is_enabled (lcore_role : Z -> Z) (lcore_id : Z) : bool :=
  if lcore_id >=? RTE_MAX_LCORE then false else negb (lcore_role lcore_id =? ROLE_OFF).

Fixpoint next_lcore_loop (lcore_role : Z -> Z) (master : Z) (skip_master wrp : bool)
    (fuel : nat) (i : Z) : option Z :=
  match fuel with
  | O => None
  | S fuel' =>
      if i <? RTE_MAX_LCORE then
        if negb (rte_lcore_is_enabled lcore_role i) || (skip_master && (i =? master)) then
          let i := u32 (i + 1) in
          let i := if wrp then i mod RTE_MAX_LCORE else i in
          next_lcore_loop lcore_role master skip_master wrp fuel' i
        else Some i
      else Some i
  end.

Definition rte_get_next_lcore (lcore_role : Z -> Z) (master i : Z) (skip_master wrp : bool) :
    option Z :=
  let i := u32 (i + 1) in
  let i := if wrp then i mod RTE_MAX_LCORE else i in
  next_lcore_loop lcore_role master skip_master wrp (Z.to_nat (RTE_MAX_LCORE + 1)) i.

(** ** Random numbers and the level of a new entry *)

Definition rte_bsf32 (v : Z) : Z := ctz v.

Definition rte_rand (lrand48 : Z -> Z * Z) (s : tstate) : Z * tstate :=
  let '(a, x) := lrand48 (seed s) in
  let val := u64 a in
  let val := u64 (Z.shiftl val 32) in
  let '(b, x) := lrand48 x in
  let val := u64 (val + b) in
  (val, set_seed x s).

Definition timer_get_skiplist_level (lrand48 : Z -> Z * Z) (curr_depth : Z) (s : tstate) :
    Z * tstate :=
  let '(val, s) := rte_rand lrand48 s in
  let rand := u32 (Z.land val (2 ^ 32 - 1 - 1)) in
  let level := if rand =? 0 then MAX_SKIPLIST_DEPTH else (rte_bsf32 rand - 1) / 2 in
  let level := if level >? curr_depth then curr_depth else level in
  let level := if level >=? MAX_SKIPLIST_DEPTH then MAX_SKIPLIST_DEPTH - 1 else level in
  (level, s).

(** ** Initialisation *)

Definition rte_timer_subsystem_init (s : tstate) : tstate :=
  for_range 0 RTE_MAX_LCORE
    (fun lcore_id s => set_prev_lcore lcore_id lcore_id (rte_spinlock_unlock lcore_id s)) s.

Definition rte_timer_init (t : Z) (s : tstate) : tstate :=
  set_status t (mkStatus RTE_TIMER_STOP RTE_TIMER_NO_OWNER) s.

(** ** Status transitions

    The compare-and-set succeeds at once: nothing runs between the read of
    the status and it. *)

Definition i16 (x : Z) : Z := let y := u16 x in if y <? 2 ^ 15 then y else y - 2 ^ 16.

Definition timer_set_config_state (lcore_id t : Z) (s : tstate) :
    option rte_timer_status * tstate :=
  let prev_status := tstatus s t in
  if (state prev_status =? RTE_TIMER_RUNNING) && negb (owner prev_status =? u16 lcore_id)
  then (None, s)
  else if state prev_status =? RTE_TIMER_CONFIG then (None, s)
  else (Some prev_status, set_status t (mkStatus RTE_TIMER_CONFIG (i16 lcore_id)) s).

Definition timer_set_running_state (lcore_id t : Z) (s : tstate) : Z * tstate :=
  let prev_status := tstatus s t in
  if negb (state prev_status =? RTE_TIMER_PENDING) then (-1, s)
  else (0, set_status t (mkStatus RTE_TIMER_RUNNING (i16 lcore_id)) s).

(** ** Searching the skip list *)

Definition fuel_of (s : tstate) : nat := S (size (tims s)).

(** [while (x->sl_next[lvl] && x->sl_next[lvl]->expire <= time_val) x = ...]. *)
Fixpoint advance (s : tstate) (time_val lvl : Z) (fuel : nat) (x : node) : option node :=
  match next s x lvl with
  | Some y =>
      if texpire s y <=? time_val then
        match fuel with
        | O => None
        | S fuel' => advance s time_val lvl fuel' (timer_at y)
        end
      else Some x
  | None => Some x
  end.

(** The same with the test [x->sl_next[lvl] != tim]. *)
Fixpoint advance_to (s : tstate) (t lvl : Z) (fuel : nat) (x : node) : option node :=
  match next s x lvl with
  | Some y =>
      if negb (y =? t) && (texpire s y <=? texpire s t) then
        match fuel with
        | O => None
        | S fuel' => advance_to s t lvl fuel' (timer_at y)
        end
      else Some x
  | None => Some x
  end.

Fixpoint prev_entries_loop (s : tstate) (time_val : Z) (n : nat) (lvl : Z) (prev : gmap Z node) :
    option (gmap Z node) :=
  match n with
  | O => Some prev
  | S n' =>
      let lvl := lvl - 1 in
      x ← advance s time_val lvl (fuel_of s) (prev !!! (lvl + 1));
      prev_entries_loop s time_val n' lvl (<[lvl := x]> prev)
  end.

Definition timer_get_prev_entries (time_val tim_lcore : Z) (s : tstate) : option (gmap Z node) :=
  let lvl := depth s tim_lcore in
  prev_entries_loop s time_val (Z.to_nat lvl) lvl {[lvl := pending_head tim_lcore]}.

Fixpoint prev_node_loop (s : tstate) (t : Z) (n : nat) (i : Z) (prev : gmap Z node) :
    option (gmap Z node) :=
  match n with
  | O => Some prev
  | S n' =>
      x ← advance_to s t i (fuel_of s) (prev !!! i);
      prev_node_loop s t n' (i - 1) (<[i := x]> prev)
  end.

Definition timer_get_prev_entries_for_node (t tim_lcore : Z) (s : tstate) :
    option (gmap Z node) :=
  prev ← timer_get_prev_entries (u64 (texpire s t - 1)) tim_lcore s;
  prev_node_loop s t (Z.to_nat (depth s tim_lcore)) (depth s tim_lcore - 1) prev.

(** ** Insertion and removal *)

(** One level of the insertion:
    [tim->sl_next[lvl] = prev[lvl]->sl_next[lvl]; prev[lvl]->sl_next[lvl] = tim]. *)
Definition link (t : Z) (prev : gmap Z node) (lvl : Z) (s : tstate) : tstate :=
  let s := set_next (timer_at t) lvl (next s (prev !!! lvl) lvl) s in
  set_next (prev !!! lvl) lvl (Some t) s.

Definition next_expire (s : tstate) (p : option Z) : Z :=
  match p with None => 0 | Some y => texpire s y end.

Definition timer_add (lrand48 : Z -> Z * Z) (lcore_id t tim_lcore : Z) (local_is_locked : bool)
    (s : tstate) : option tstate :=
  let need := negb (tim_lcore =? lcore_id) || negb local_is_locked in
  s ← lock_if need tim_lcore s;
  prev ← timer_get_prev_entries (texpire s t) tim_lcore s;
  let '(tim_level, s) := timer_get_skiplist_level lrand48 (depth s tim_lcore) s in
  let s := if tim_level =? depth s tim_lcore
           then set_depth tim_lcore (depth s tim_lcore + 1) s else s in
  let s := for_down (Z.to_nat tim_level) tim_level (link t prev) s in
  let s := link t prev 0 s in
  let s := set_head_expire tim_lcore (next_expire s (next s (pending_head tim_lcore) 0)) s in
  Some (unlock_if need tim_lcore s).

Definition unlink (t : Z) (prev : gmap Z node) (i : Z) (s : tstate) : tstate :=
  if decide (next s (prev !!! i) i = Some t)
  then set_next (prev !!! i) i (next s (timer_at t) i) s else s.

(** [for (i = depth - 1; i >= 0; i--) if (head.sl_next[i] == NULL) depth--; else break;] *)
Fixpoint lower_depth (c : Z) (n : nat) (i : Z) (s : tstate) : tstate :=
  match n with
  | O => s
  | S n' =>
      match next s (pending_head c) i with
      | None => lower_depth c n' (i - 1) (set_depth c (depth s c - 1) s)
      | Some _ => s
      end
  end.

Definition timer_del (lcore_id t : Z) (prev_status : rte_timer_status) (local_is_locked : bool)
    (s : tstate) : option tstate :=
  let prev_owner := u32 (owner prev_status) in
  let need := negb (prev_owner =? lcore_id) || negb local_is_locked in
  s ← lock_if need prev_owner s;
  let s := if decide (next s (pending_head prev_owner) 0 = Some t)
           then set_head_expire prev_owner (next_expire s (next s (timer_at t) 0)) s else s in
  prev ← timer_get_prev_entries_for_node t prev_owner s;
  let n := Z.to_nat (depth s prev_owner) in
  let s := for_down n (depth s prev_owner - 1) (unlink t prev) s in
  let s := lower_depth prev_owner n (depth s prev_owner - 1) s in
  Some (unlock_if need prev_owner s).

(** ** Starting and stopping a timer *)

Section Operations.
Context (lrand48 : Z -> Z * Z) (lcore_role : Z -> Z) (master : Z).

(** The round robin of [LCORE_ID_ANY]. *)
Definition choose_lcore (lcore_id tim_lcore : Z) (s : tstate) : option (Z * tstate) :=
  if tim_lcore =? LCORE_ID_ANY then
    if lcore_id <? RTE_MAX_LCORE then
      c ← rte_get_next_lcore lcore_role master (prev_lcore s !!! lcore_id) false true;
      Some (c, set_prev_lcore lcore_id c s)
    else
      c ← rte_get_next_lcore lcore_role master LCORE_ID_ANY false true;
      Some (c, s)
  else Some (tim_lcore, s).

(** [if (prev_status.state == RTE_TIMER_RUNNING && lcore_id < RTE_MAX_LCORE)
    priv_timer[lcore_id].updated = 1], then the removal from the list. *)
Definition detach (lcore_id t : Z) (prev_status : rte_timer_status) (local_is_locked : bool)
    (s : tstate) : option tstate :=
  let s := if (state prev_status =? RTE_TIMER_RUNNING) && (lcore_id <? RTE_MAX_LCORE)
           then set_updated lcore_id 1 s else s in
  if state prev_status =? RTE_TIMER_PENDING
  then timer_del lcore_id t prev_status local_is_locked s else Some s.

Definition __rte_timer_reset (lcore_id t exp per tim_lcore fct ar : Z) (local_is_locked : bool)
    (s : tstate) : option (Z * tstate) :=
  '(tim_lcore, s) ← choose_lcore lcore_id tim_lcore s;
  match timer_set_config_state lcore_id t s with
  | (None, s) => Some (-1, s)
  | (Some prev_status, s) =>
      s ← detach lcore_id t prev_status local_is_locked s;
      let s := set_tims (<[t := mkTimer exp (tstatus s t) per fct ar]> (tims s)) s in
      s ← timer_add lrand48 lcore_id t tim_lcore local_is_locked s;
      Some (0, set_status t (mkStatus RTE_TIMER_PENDING (i16 tim_lcore)) s)
  end.

Definition rte_timer_reset (lcore_id cur_time t ticks : Z) (type : rte_timer_type)
    (tim_lcore fct ar : Z) (s : tstate) : option (Z * tstate) :=
  if negb (tim_lcore =? LCORE_ID_ANY) && negb (rte_lcore_is_enabled lcore_role tim_lcore)
  then Some (-1, s)
  else
    let per := match type with PERIODICAL => ticks | SINGLE => 0 end in
    __rte_timer_reset lcore_id t (u64 (cur_time + ticks)) per tim_lcore fct ar false s.

Definition rte_timer_stop (lcore_id t : Z) (s : tstate) : option (Z * tstate) :=
  match timer_set_config_state lcore_id t s with
  | (None, s) => Some (-1, s)
  | (Some prev_status, s) =>
      s ← detach lcore_id t prev_status false s;
      Some (0, set_status t (mkStatus RTE_TIMER_STOP RTE_TIMER_NO_OWNER) s)
  end.

(** [while (rte_timer_reset(...) != 0) rte_pause();]: the counter is read at
    each attempt. *)
Fixpoint rte_timer_reset_sync (fuel : nat) (lcore_id : Z) (clock : nat -> Z) (t ticks : Z)
    (type : rte_timer_type) (tim_lcore fct ar : Z) (s : tstate) : option tstate :=
  match fuel with
  | O => None
  | S fuel' =>
      '(ret, s) ← rte_timer_reset lcore_id (clock fuel') t ticks type tim_lcore fct ar s;
      if ret =? 0 then Some s
      else rte_timer_reset_sync fuel' lcore_id clock t ticks type tim_lcore fct ar s
  end.

Fixpoint rte_timer_stop_sync (fuel : nat) (lcore_id t : Z) (s : tstate) : option tstate :=
  match fuel with
  | O => None
  | S fuel' =>
      '(ret, s) ← rte_timer_stop lcore_id t s;
      if ret =? 0 then Some s else rte_timer_stop_sync fuel' lcore_id t s
  end.

Definition rte_timer_pending (t : Z) (s : tstate) : bool :=
  state (tstatus s t) =? RTE_TIMER_PENDING.

(** ** Running the expired timers *)

(** What a timer callback may do: start and stop timers, at the times it
    reads the cycle counter. *)
Inductive op :=
  | Reset (cur_time t ticks : Z) (type : rte_timer_type) (tim_lcore fct ar : Z)
  | Stop (t : Z).

Definition exec_op (lcore_id : Z) (o : op) (s : tstate) : option tstate :=
  match o with
  | Reset cur_time t ticks type tim_lcore fct ar =>
      snd <$> rte_timer_reset lcore_id cur_time t ticks type tim_lcore fct ar s
  | Stop t => snd <$> rte_timer_stop lcore_id t s
  end.

Fixpoint exec_ops (lcore_id : Z) (os : list op) (s : tstate) : option tstate :=
  match os with
  | [] => Some s
  | o :: os => s ← exec_op lcore_id o s; exec_ops lcore_id os s
  end.

(** One level of breaking the list at the current time. *)
Definition cut (c : Z) (prev : gmap Z node) (i : Z) (s : tstate) : tstate :=
  let s := set_next (pending_head c) i (next s (prev !!! i) i) s in
  let s := match next s (prev !!! i) i with
           | None => set_depth c (depth s c - 1) s
           | Some _ => s
           end in
  set_next (prev !!! i) i None s.

(** [*pprev = p]: [pprev] points to the variable [run_first_tim] ([None]) or
    to the link [sl_next[0]] of a timer. *)
Definition store_pprev (pprev : option Z) (p run_first_tim : option Z) (s : tstate) :
    option Z * tstate :=
  match pprev with
  | None => (p, s)
  | Some y => (run_first_tim, set_next (timer_at y) 0 p s)
  end.

Fixpoint to_running (fuel : nat) (lcore_id : Z) (tm run_first_tim pprev : option Z) (s : tstate) :
    option (option Z * tstate) :=
  match tm with
  | None => Some (run_first_tim, s)
  | Some t =>
      match fuel with
      | O => None
      | S fuel' =>
          let next_tim := next s (timer_at t) 0 in
          let '(ret, s) := timer_set_running_state lcore_id t s in
          if ret =? 0 then to_running fuel' lcore_id next_tim run_first_tim (Some t) s
          else
            let '(run_first_tim, s) := store_pprev pprev next_tim run_first_tim s in
            s ← timer_add lrand48 lcore_id t lcore_id true s;
            to_running fuel' lcore_id next_tim run_first_tim pprev s
      end
  end.

(** After the callback: stop a one-shot timer, re-arm a periodic one. *)
Definition finish (lcore_id cur_time t : Z) (s : tstate) : option tstate :=
  if updated s !!! lcore_id =? 1 then Some s
  else if period (tim s t) =? 0 then
    Some (set_status t (mkStatus RTE_TIMER_STOP RTE_TIMER_NO_OWNER) s)
  else
    s ← rte_spinlock_lock lcore_id s;
    let s := set_status t (mkStatus RTE_TIMER_PENDING (i16 lcore_id)) s in
    let r := tim s t in
    '(_, s) ← __rte_timer_reset lcore_id t (u64 (cur_time + period r)) (period r) lcore_id
                (f r) (arg r) true s;
    Some (rte_spinlock_unlock lcore_id s).

Fixpoint run_callbacks (fuel : nat) (callback : Z -> Z -> Z -> list op) (lcore_id cur_time : Z)
    (tm : option Z) (s : tstate) : option tstate :=
  match tm with
  | None => Some s
  | Some t =>
      match fuel with
      | O => None
      | S fuel' =>
          let next_tim := next s (timer_at t) 0 in
          let s := set_updated lcore_id 0 s in
          let r := tim s t in
          s ← exec_ops lcore_id (callback (f r) t (arg r)) (log_call (f r, t, arg r) s);
          s ← finish lcore_id cur_time t s;
          run_callbacks fuel' callback lcore_id cur_time next_tim s
      end
  end.

(** The part of [rte_timer_manage] done under the lock: it returns the list of
    timers to run. *)
Definition take_expired (lcore_id cur_time : Z) (s : tstate) : option (option Z * tstate) :=
  s ← rte_spinlock_lock lcore_id s;
  match next s (pending_head lcore_id) 0 with
  | None => Some (None, rte_spinlock_unlock lcore_id s)
  | Some t =>
      if texpire s t >? cur_time then Some (None, rte_spinlock_unlock lcore_id s)
      else
        prev ← timer_get_prev_entries cur_time lcore_id s;
        let s := for_down (Z.to_nat (depth s lcore_id)) (depth s lcore_id - 1)
                   (cut lcore_id prev) s in
        '(run_first_tim, s) ← to_running (fuel_of s) lcore_id (Some t) (Some t) None s;
        let s := set_head_expire lcore_id (next_expire s (next s (pending_head lcore_id) 0)) s in
        Some (run_first_tim, rte_spinlock_unlock lcore_id s)
  end.

Definition rte_timer_manage (callback : Z -> Z -> Z -> list op) (lcore_id cur_time : Z)
    (s : tstate) : option tstate :=
  match next s (pending_head lcore_id) 0 with
  | None => Some s
  | Some _ =>
      if head_expire s !!! lcore_id >? cur_time then Some s
      else
        '(run_first_tim, s) ← take_expired lcore_id cur_time s;
        run_callbacks (fuel_of s) callback lcore_id cur_time run_first_tim s
  end.

End Operations.
