(* ===== verification/TimerLists.v ===== *)
(** * Timers: linked lists ordered by expiry

    The chain of links followed from a node, the effect of the three pointer
    surgeries of rte_timer.c on it (linking a node in, unlinking it, cutting
    the list in two), lists sorted by a key, and what the search loops of the
    skip list find in them. *)
From stdpp Require Import sorting.
From S2P Require Import Prelude Bits Timer.

(** ** Lists ordered by a key *)

Section Sorted.
Context (ex : Z -> Z).

Definition by_key (a b : Z) : Prop := ex a <= ex b.
Definition upto (t : Z) (l : list Z) : list Z := filter (fun y => ex y <= t) l.
Definition after (t : Z) (l : list Z) : list Z := filter (fun y => t < ex y) l.

(** The place of a new entry: after those that are not later. *)
Definition place (x : Z) (l : list Z) : list Z := upto (ex x) l ++ x :: after (ex x) l.

Lemma upto_cons t y l : upto t (y :: l) = if decide (ex y <= t) then y :: upto t l else upto t l.
Proof. done. Qed.

Lemma after_cons t y l : after t (y :: l) = if decide (t < ex y) then y :: after t l else after t l.
Proof. done. Qed.

Lemma upto_none t l : Forall (fun y => t < ex y) l -> upto t l = [].
Proof. induction 1 as [|y l Hy Hl IH]; [done|]. by rewrite upto_cons, decide_False by lia. Qed.

Lemma upto_all t l : Forall (fun y => ex y <= t) l -> upto t l = l.
Proof. induction 1 as [|y l Hy Hl IH]; [done|]. by rewrite upto_cons, decide_True, IH by lia. Qed.

Lemma after_none t l : Forall (fun y => ex y <= t) l -> after t l = [].
Proof. induction 1 as [|y l Hy Hl IH]; [done|]. by rewrite after_cons, decide_False by lia. Qed.

Lemma after_all t l : Forall (fun y => t < ex y) l -> after t l = l.
Proof. induction 1 as [|y l Hy Hl IH]; [done|]. by rewrite after_cons, decide_True, IH by lia. Qed.

Lemma elem_upto t l y : y ∈ upto t l <-> ex y <= t /\ y ∈ l.
Proof. by apply (list_elem_of_filter (fun y => _)). Qed.

Lemma elem_after t l y : y ∈ after t l <-> t < ex y /\ y ∈ l.
Proof. by apply (list_elem_of_filter (fun y => _)). Qed.

Lemma upto_app t l1 l2 : upto t (l1 ++ l2) = upto t l1 ++ upto t l2.
Proof. apply filter_app. Qed.

Lemma upto_after t l : StronglySorted by_key l -> l = upto t l ++ after t l.
Proof.
  induction 1 as [|y l Hs IH Hy]; [done|]. rewrite upto_cons, after_cons.
  destruct (decide (ex y <= t)).
  - rewrite decide_False by lia. cbn. by f_equal.
  - assert (Hall : Forall (fun z => t < ex z) l)
      by (eapply Forall_impl; [exact Hy|]; unfold by_key; cbn; lia).
    by rewrite decide_True, upto_none, after_all by (done || lia).
Qed.

Lemma sorted_sublist l1 l2 :
  l1 `sublist_of` l2 -> StronglySorted by_key l2 -> StronglySorted by_key l1.
Proof.
  induction 1 as [|x l1 l2 Hsub IH|x l1 l2 Hsub IH]; [done|..];
    rewrite ?StronglySorted_cons; [|naive_solver].
  intros [Hf Hs]. split; [|by auto]. rewrite Forall_forall in *. eauto using elem_of_sublist.
Qed.

Lemma filter_sublist (P : Z -> Prop) `{!forall x, Decision (P x)} l1 l2 :
  l1 `sublist_of` l2 -> filter P l1 `sublist_of` filter P l2.
Proof.
  induction 1 as [|x l1 l2 Hsub IH|x l1 l2 Hsub IH]; [done|..]; rewrite ?filter_cons;
    case_decide; auto using sublist_skip, sublist_cons.
Qed.

Lemma place_sublist x l1 l2 : l1 `sublist_of` l2 -> place x l1 `sublist_of` place x l2.
Proof. intros. apply sublist_app; [|apply sublist_skip]; by apply filter_sublist. Qed.

Lemma sublist_place x l1 l2 :
  StronglySorted by_key l2 -> l1 `sublist_of` l2 -> l1 `sublist_of` place x l2.
Proof.
  intros Hs Hl. etrans; [exact Hl|]. rewrite (upto_after (ex x) l2) at 1 by done.
  apply sublist_app; [done|]. by apply sublist_cons.
Qed.

Lemma elem_place x l y : y ∈ place x l <-> y = x \/ y ∈ l.
Proof.
  unfold place. rewrite elem_of_app, elem_of_cons, elem_upto, elem_after.
  split; [naive_solver|]. intros [->|Hy]; [naive_solver|].
  destruct (decide (ex y <= ex x)); [by left|]. right; right. split; [lia|done].
Qed.

Lemma place_perm x l : place x l ≡ₚ x :: l.
Proof.
  unfold place. rewrite <- Permutation_middle. constructor.
  rewrite <- (filter_app_complement (fun y => ex y <= ex x) l) at 3.
  apply Permutation_app_head. unfold after.
  rewrite (list_filter_iff _ (fun y => ~ ex y <= ex x)); [done|]. intros y. lia.
Qed.

Lemma place_NoDup x l : NoDup l -> x ∉ l -> NoDup (place x l).
Proof. intros. rewrite place_perm. by constructor. Qed.

Lemma place_sorted x l : StronglySorted by_key l -> StronglySorted by_key (place x l).
Proof.
  intros Hs. unfold place. apply StronglySorted_app. split_and!.
  - intros a b [Ha _]%elem_upto Hb. rewrite elem_of_cons, elem_after in Hb. unfold by_key.
    destruct Hb as [->|[? _]]; lia.
  - apply sorted_sublist with l; [apply sublist_filter|done].
  - apply StronglySorted_cons. split; [|apply sorted_sublist with l; [apply sublist_filter|done]].
    apply Forall_forall. intros b [Hb _]%elem_after. unfold by_key. lia.
Qed.

(** Removing an entry. *)
Definition without (x : Z) (l : list Z) : list Z := filter (fun y => y <> x) l.

Lemma without_notin x l : x ∉ l -> without x l = l.
Proof.
  induction l as [|y l IH]; [done|]. rewrite not_elem_of_cons. intros [Hy Hl].
  unfold without. rewrite filter_cons, decide_True by done. f_equal. by apply IH.
Qed.

Lemma without_mid x l1 l2 : NoDup (l1 ++ x :: l2) -> without x (l1 ++ x :: l2) = l1 ++ l2.
Proof.
  intros (H1 & H2 & H3)%NoDup_app. apply NoDup_cons in H3 as [H3 _].
  unfold without. rewrite filter_app, filter_cons, decide_False by naive_solver.
  fold (without x l1) (without x l2). rewrite !without_notin; [done|done|set_solver].
Qed.

Lemma elem_without x l y : y ∈ without x l <-> y <> x /\ y ∈ l.
Proof. by apply (list_elem_of_filter (fun y => _)). Qed.

Lemma without_sublist x l : without x l `sublist_of` l.
Proof. apply sublist_filter. Qed.

End Sorted.

(** The orders by two keys that agree on the entries are the same. *)
Lemma sorted_ext ex ex' l :
  (forall y, y ∈ l -> ex y = ex' y) -> StronglySorted (by_key ex) l -> StronglySorted (by_key ex') l.
Proof.
  intros He. induction 1 as [|y l Hs IH Hy]; [constructor|]. apply StronglySorted_cons. split.
  - rewrite Forall_forall in *. intros z Hz. unfold by_key.
    rewrite <- !He by (rewrite elem_of_cons; auto). by apply Hy.
  - apply IH. intros. apply He. by right.
Qed.

Lemma place_ext ex ex' x l :
  (forall y, y ∈ l -> ex y = ex' y) -> ex x = ex' x -> place ex x l = place ex' x l.
Proof.
  intros He Hx. unfold place, upto, after. rewrite Hx.
  f_equal; [|f_equal]; apply filter_ext_on; intros y Hy; by rewrite He.
Qed.

(** ** Chains *)

(** The last node of the list [l] behind [x]. *)
Fixpoint tail_node (x : node) (l : list Z) : node :=
  match l with [] => x | y :: l' => tail_node (timer_at y) l' end.

Lemma tail_node_app x l1 l2 : tail_node x (l1 ++ l2) = tail_node (tail_node x l1) l2.
Proof. revert x. induction l1; naive_solver. Qed.

Lemma tail_node_snoc x l y : tail_node x (l ++ [y]) = timer_at y.
Proof. by rewrite tail_node_app. Qed.

Lemma tail_node_elem x l : l = [] \/ exists y, y ∈ l /\ tail_node x l = timer_at y.
Proof.
  destruct l as [|y l _] using rev_ind; [by left|right]. exists y.
  rewrite tail_node_snoc. split; [set_solver|done].
Qed.

(** Following the links of level [i] from the pointer [p] gives [l]. *)
Fixpoint chain (nx : gmap (node * Z) Z) (i : Z) (p : option Z) (l : list Z) : Prop :=
  match l with
  | [] => p = None
  | t :: l' => p = Some t /\ chain nx i (nx !! (timer_at t, i)) l'
  end.

Lemma chain_frame nx nx' i p l :
  (forall t, t ∈ l -> nx' !! (timer_at t, i) = nx !! (timer_at t, i)) ->
  chain nx i p l -> chain nx' i p l.
Proof.
  revert p. induction l as [|t l IH]; intros p He; [done|]. intros [-> Hl]. split; [done|].
  rewrite He by left. apply IH; [|done]. intros; apply He; by right.
Qed.

Lemma chain_fun nx i p l1 l2 : chain nx i p l1 -> chain nx i p l2 -> l1 = l2.
Proof.
  revert p l2. induction l1 as [|t l1 IH]; intros p [|t2 l2]; cbn; intros H1 H2;
    destruct_and?; simplify_eq; [done|]. f_equal. eauto.
Qed.

Lemma chain_head nx i p l : chain nx i p l -> p = head l.
Proof. by destruct l; [|intros [-> _]]. Qed.

(** The suffix of a chain starts at the link of the node before it. *)
Lemma chain_suffix nx i x l1 l2 :
  chain nx i (nx !! (x, i)) (l1 ++ l2) -> chain nx i (nx !! (tail_node x l1, i)) l2.
Proof. revert x. induction l1 as [|t l1 IH]; intros x; [done|]. intros [_ H]. by apply IH. Qed.

(** Redirecting the link behind [l1]. *)
Lemma chain_redirect nx i x l1 l2 l2' p :
  NoDup l1 -> x ∉ @inr Z Z <$> l1 ->
  chain nx i (nx !! (x, i)) (l1 ++ l2) ->
  let nx' := partial_alter (fun _ => p) (tail_node x l1, i) nx in
  chain nx' i p l2' -> chain nx' i (nx' !! (x, i)) (l1 ++ l2').
Proof.
  revert x. induction l1 as [|t l1 IH]; intros x Hnd Hx Hc nx' Hp; cbn in *.
  - subst nx'. rewrite lookup_partial_alter_eq. done.
  - apply NoDup_cons in Hnd as [Ht Hnd]. apply not_elem_of_cons in Hx as [Hxt Hx].
    destruct Hc as [Hxn Hc]. split.
    + subst nx'. rewrite lookup_partial_alter_ne; [done|]. intros [= E].
      destruct (tail_node_elem (timer_at t) l1) as [->|(y & Hy & Ey)]; [naive_solver|].
      rewrite Ey in E. subst x. apply Hx. apply list_elem_of_fmap. eauto.
    + apply IH; [done| |done|done]. rewrite list_elem_of_fmap. naive_solver.
Qed.

Lemma fmap_timer_at_inl (c : Z) (l : list Z) : (pending_head c) ∉ (@inr Z Z <$> l).
Proof. rewrite list_elem_of_fmap. naive_solver. Qed.

(** ** Pointer surgery on the chain behind a head *)

Abbreviation store p k nx := (partial_alter (fun _ => p) k nx).

Lemma lookup_store (nx : gmap (node * Z) Z) p k k' :
  store p k nx !! k' = if decide (k = k') then p else nx !! k'.
Proof. apply lookup_partial_alter. Qed.

Section Surgery.
Context (nx : gmap (node * Z) Z) (i c : Z) (l1 l2 : list Z).
Let h : node := pending_head c.
Let y : node := tail_node h l1.

Lemma tail_node_notin t : t ∉ l1 -> y <> timer_at t.
Proof. intros Ht. unfold y. destruct (tail_node_elem h l1) as [->|(z & ? & ->)]; naive_solver. Qed.

Lemma tail_node_head : l1 <> [] -> y <> h.
Proof. intros. unfold y. destruct (tail_node_elem h l1) as [->|(z & ? & ->)]; [done|by unfold h]. Qed.

(** Linking [t] in behind [l1]. *)
Lemma chain_link t :
  NoDup (l1 ++ l2) -> t ∉ l1 ++ l2 -> chain nx i (nx !! (h, i)) (l1 ++ l2) ->
  let nx' := store (Some t) (y, i) (store (nx !! (y, i)) (timer_at t, i) nx) in
  chain nx' i (nx' !! (h, i)) (l1 ++ t :: l2).
Proof.
  intros (Hnd1 & Hd & Hnd2)%NoDup_app [Ht1 Ht2]%not_elem_of_app Hc nx'. pose proof (tail_node_notin t Ht1).
  apply chain_redirect with l2; [done|apply fmap_timer_at_inl|..].
  - rewrite lookup_store, decide_False by naive_solver. eapply chain_frame; [|exact Hc].
    intros z Hz. rewrite lookup_store, decide_False; [done|]. intros [= ->]. set_solver.
  - split; [done|]. fold y. rewrite lookup_store, decide_False by naive_solver.
    rewrite lookup_store, decide_True by done. apply chain_suffix in Hc. eapply chain_frame; [|exact Hc].
    intros z Hz. rewrite !lookup_store, !decide_False; [done|naive_solver|].
    intros [= E]. by apply (tail_node_notin z); [intros ?; eapply Hd|].
Qed.

(** Taking [t] out from behind [l1]. *)
Lemma chain_unlink t :
  NoDup (l1 ++ t :: l2) -> chain nx i (nx !! (h, i)) (l1 ++ t :: l2) ->
  let nx' := store (nx !! (timer_at t, i)) (y, i) nx in
  chain nx' i (nx' !! (h, i)) (l1 ++ l2).
Proof.
  intros (Hnd1 & Hd & Hnd2)%NoDup_app Hc nx'.
  apply chain_redirect with (t :: l2); [done|apply fmap_timer_at_inl|done|].
  apply chain_suffix in Hc as [_ Hc]. eapply chain_frame; [|exact Hc]. intros z Hz.
  rewrite lookup_store, decide_False; [done|]. intros [= E]. apply (tail_node_notin z); [|done].
  intros ?. eapply Hd; [done|by right].
Qed.

(** Cutting the list behind [l1] and making the head point to the rest; when
    [l1] is empty the two assignments are to the same link. *)
Let nx2 := store (nx !! (y, i)) (h, i) nx.
Let nx3 := store None (y, i) nx2.

Lemma chain_cut_rest :
  NoDup (l1 ++ l2) -> chain nx i (nx !! (h, i)) (l1 ++ l2) ->
  chain nx3 i (nx3 !! (h, i)) (if decide (l1 = []) then [] else l2).
Proof.
  intros (Hnd1 & Hd & Hnd2)%NoDup_app Hc. unfold nx3, nx2. rewrite lookup_store.
  destruct (decide (l1 = [])) as [El|El].
  - rewrite decide_True; [done|]. unfold y. by rewrite El.
  - pose proof (tail_node_head El). rewrite decide_False by naive_solver.
    rewrite lookup_store, decide_True by done. apply chain_suffix in Hc. eapply chain_frame; [|exact Hc].
    intros z Hz. rewrite !lookup_store, !decide_False; [done|by unfold h|].
    intros [= E]. by apply (tail_node_notin z); [intros ?; eapply Hd|].
Qed.

Lemma chain_cut_first :
  NoDup (l1 ++ l2) -> chain nx i (nx !! (h, i)) (l1 ++ l2) -> chain nx3 i (head l1) l1.
Proof.
  intros (Hnd1 & Hd & Hnd2)%NoDup_app Hc. destruct l1 as [|t l] eqn:El; [done|].
  assert (Hred : chain nx3 i (nx3 !! (timer_at t, i)) (l ++ [])).
  { apply (chain_redirect nx2 i (timer_at t) l l2 [] None); [by apply NoDup_cons in Hnd1 as [_ ?]|..|done].
    - rewrite list_elem_of_fmap. apply NoDup_cons in Hnd1 as [? _]. naive_solver.
    - destruct Hc as [_ Hc]. unfold nx2. rewrite lookup_store, decide_False by (unfold h; naive_solver).
      eapply chain_frame; [|exact Hc]. intros z Hz. by rewrite lookup_store, decide_False by (unfold h; naive_solver). }
  rewrite app_nil_r in Hred. done.
Qed.

End Surgery.
