(* ===== verification/TimerSkip.v ===== *)
(** * Timers: the skip list of an lcore

    The shape of a skip list — each level a sorted sublist of the one below —
    and the operations on it: the search finds at every level the last entry
    that is not later than a time, [timer_add] places the timer in the sorted
    list, [timer_del] takes it out. *)
From stdpp Require Import sorting.
From S2P Require Import Prelude Bits Timer TimerLists.

(** ** Skip lists *)

(** Level [i] of the list of core [c] holds [ls i]. *)
Record skiplist (s : tstate) (c : Z) (ls : Z -> list Z) : Prop := {
  sk_depth : 0 <= depth s c <= MAX_SKIPLIST_DEPTH;
  sk_chain : forall i, 0 <= i < MAX_SKIPLIST_DEPTH ->
    chain (sl_next s) i (next s (pending_head c) i) (ls i);
  sk_sub : forall i, 0 <= i -> ls (i + 1) `sublist_of` ls i;
  sk_top : forall i, depth s c <= i -> ls i = [];
  sk_sorted : StronglySorted (by_key (texpire s)) (ls 0);
  sk_nodup : NoDup (ls 0);
  sk_mem : forall t, t ∈ ls 0 -> is_Some (tims s !! t) /\ 0 < texpire s t < 2 ^ 64 }.

Lemma levels_sublist (ls : Z -> list Z) i j :
  (forall i, 0 <= i -> ls (i + 1) `sublist_of` ls i) -> 0 <= i <= j -> ls j `sublist_of` ls i.
Proof.
  intros Hsub Hij. replace j with (i + Z.of_nat (Z.to_nat (j - i))) by lia.
  induction (Z.to_nat (j - i)) as [|n IH]; [by rewrite Z.add_0_r|].
  etrans; [|exact IH]. rewrite Nat2Z.inj_succ. replace (i + Z.succ (Z.of_nat n)) with ((i + Z.of_nat n) + 1) by lia.
  apply Hsub. lia.
Qed.

Section Search.
Context (s : tstate) (c : Z) (ls : Z -> list Z) (Hsk : skiplist s c ls).

Lemma sk_level_sub i : 0 <= i -> ls i `sublist_of` ls 0.
Proof. intros. apply (levels_sublist ls); [apply Hsk|lia]. Qed.

Lemma sk_level_sorted i : 0 <= i -> StronglySorted (by_key (texpire s)) (ls i).
Proof. intros. eapply sorted_sublist; [by apply sk_level_sub|apply Hsk]. Qed.

Lemma sk_level_nodup i : 0 <= i -> NoDup (ls i).
Proof. intros. eapply sublist_NoDup; [|by apply sk_level_sub]. apply Hsk. Qed.

Lemma sk_level_bound i : 0 <= i -> (length (ls i) <= size (tims s))%nat.
Proof.
  intros. etrans; [apply sublist_length; by apply sk_level_sub|].
  apply members_bound; [apply Hsk|]. intros t Ht. by apply (sk_mem _ _ _ Hsk).
Qed.

End Search.

(** ** The search loops *)

Lemma advance_spec s tv lvl l fuel x :
  chain (sl_next s) lvl (next s x lvl) l -> StronglySorted (by_key (texpire s)) l ->
  (length l <= fuel)%nat ->
  advance s tv lvl fuel x = Some (tail_node x (upto (texpire s) tv l)).
Proof.
  revert x fuel. induction l as [|y l IH]; intros x fuel Hc Hs Hf.
  - cbn in Hc. destruct fuel; cbn [advance]; by rewrite Hc.
  - destruct Hc as [Hx Hc]. apply StronglySorted_cons in Hs as [Hy Hs]. cbn in Hf.
    destruct fuel as [|fuel]; [lia|]. cbn [advance]. rewrite Hx, upto_cons.
    destruct (Z.leb_spec (texpire s y) tv).
    + rewrite decide_True by done. apply IH; [done|done|lia].
    + rewrite decide_False, upto_none; [done| |lia].
      eapply Forall_impl; [exact Hy|]. unfold by_key. cbn. lia.
Qed.

Lemma advance_to_spec s t lvl l fuel x :
  chain (sl_next s) lvl (next s x lvl) l -> StronglySorted (by_key (texpire s)) l ->
  (length l <= fuel)%nat ->
  exists l1 l2, l = l1 ++ l2 /\ advance_to s t lvl fuel x = Some (tail_node x l1) /\
    (t ∈ l -> head l2 = Some t).
Proof.
  revert x fuel. induction l as [|y l IH]; intros x fuel Hc Hs Hf.
  - cbn in Hc. exists [], []. split; [done|]. split; [destruct fuel; cbn [advance_to]; by rewrite Hc|].
    by intros ?%elem_of_nil.
  - destruct Hc as [Hx Hc]. apply StronglySorted_cons in Hs as [Hy Hs]. cbn in Hf.
    destruct fuel as [|fuel]; [lia|]. cbn [advance_to]. rewrite Hx.
    destruct (Z.eqb_spec y t) as [->|Hne]; [by exists [], (t :: l)|]. cbn [negb andb].
    destruct (Z.leb_spec (texpire s y) (texpire s t)) as [Hle|Hgt].
    + destruct (IH (timer_at y) fuel Hc Hs ltac:(lia)) as (l1 & l2 & -> & -> & Ht).
      exists (y :: l1), l2. split; [done|]. split; [done|]. set_solver.
    + exists [], (y :: l). split; [done|]. split; [done|].
      intros [->|Ht]%elem_of_cons; [done|]. rewrite Forall_forall in Hy.
      specialize (Hy t Ht). unfold by_key in Hy. lia.
Qed.

(** The end of a sublist's early part is behind an early part of the list. *)
Lemma upto_behind ex tv x l' l :
  l' `sublist_of` l -> StronglySorted (by_key ex) l ->
  exists l1 l2, l = l1 ++ l2 /\ tail_node x (upto ex tv l') = tail_node x l1 /\
    Forall (fun y => ex y <= tv) l1.
Proof.
  intros Hsub Hs. destruct (upto ex tv l') as [|z m _] eqn:E using rev_ind; [by exists [], l|].
  assert (Hz : z ∈ upto ex tv l') by (rewrite E; set_solver).
  apply elem_upto in Hz as [Hz Hin]. eapply elem_of_sublist in Hin; [|exact Hsub].
  apply list_elem_of_split in Hin as (a & b & ->). exists (a ++ [z]), b.
  rewrite !tail_node_snoc, <- app_assoc. split; [done|]. split; [done|].
  apply StronglySorted_app in Hs as (Hab & _). apply Forall_app. split; [|by repeat constructor].
  apply Forall_forall. intros y Hy. specialize (Hab y z Hy ltac:(set_solver)). unfold by_key in Hab. lia.
Qed.

Section Prev.
Context (s : tstate) (c : Z) (ls : Z -> list Z) (Hsk : skiplist s c ls).

Let prev_ok (tv : Z) (prev : gmap Z node) (i : Z) : Prop :=
  prev !!! i = tail_node (pending_head c) (upto (texpire s) tv (ls i)).

Lemma advance_level tv x lvl :
  0 <= lvl < MAX_SKIPLIST_DEPTH -> x = tail_node (pending_head c) (upto (texpire s) tv (ls (lvl + 1))) ->
  advance s tv lvl (fuel_of s) x = Some (tail_node (pending_head c) (upto (texpire s) tv (ls lvl))).
Proof.
  intros Hl ->. pose proof (sk_level_sorted s c ls Hsk lvl ltac:(lia)) as Hs.
  destruct (upto_behind (texpire s) tv (pending_head c) (ls (lvl + 1)) (ls lvl)) as (l1 & l2 & E & -> & Hf);
    [apply Hsk; lia|done|].
  pose proof (sk_chain _ _ _ Hsk lvl Hl) as Hc. pose proof (sk_level_bound s c ls Hsk lvl ltac:(lia)) as Hb.
  rewrite E in *. apply chain_suffix in Hc. apply StronglySorted_app in Hs as (_ & _ & Hs2).
  rewrite (advance_spec s tv lvl l2); [|done|done|unfold fuel_of; rewrite length_app in Hb; lia].
  by rewrite upto_app, (upto_all _ _ l1), tail_node_app.
Qed.

Lemma prev_entries_loop_spec tv n lvl prev :
  lvl = Z.of_nat n -> 0 <= lvl <= depth s c -> (forall i, lvl <= i <= depth s c -> prev_ok tv prev i) ->
  exists prev', prev_entries_loop s tv n lvl prev = Some prev' /\
    forall i, 0 <= i <= depth s c -> prev_ok tv prev' i.
Proof.
  pose proof (sk_depth _ _ _ Hsk). revert lvl prev. induction n as [|n IH]; intros lvl prev El Hl Hp.
  - exists prev. split; [done|]. intros. apply Hp. lia.
  - cbn [prev_entries_loop]. cbv zeta. rewrite (advance_level tv) by (lia || apply Hp; lia). cbn [mbind option_bind].
    apply IH; [lia..|]. intros i Hi. unfold prev_ok.
    destruct (decide (i = lvl - 1)) as [->|]; [by rewrite lookup_total_insert_eq|].
    rewrite lookup_total_insert_ne by done. apply Hp. lia.
Qed.

Lemma get_prev_entries_spec tv :
  exists prev, timer_get_prev_entries tv c s = Some prev /\
    forall i, 0 <= i <= depth s c -> prev !!! i = tail_node (pending_head c) (upto (texpire s) tv (ls i)).
Proof.
  pose proof (sk_depth _ _ _ Hsk). apply prev_entries_loop_spec; [lia..|].
  intros i Hi. assert (i = depth s c) as -> by lia. unfold prev_ok.
  rewrite (sk_top _ _ _ Hsk) by lia. by rewrite lookup_total_singleton_eq.
Qed.

(** The entry before [t] at a level where [t] is, some entry elsewhere. *)
Definition before_node (t : Z) (prev : gmap Z node) (i : Z) : Prop :=
  exists l1 l2, ls i = l1 ++ l2 /\ prev !!! i = tail_node (pending_head c) l1 /\
    (t ∈ ls i -> head l2 = Some t).

Lemma advance_to_level t x i tv :
  0 <= i < MAX_SKIPLIST_DEPTH -> (t ∈ ls 0 -> tv < texpire s t) ->
  x = tail_node (pending_head c) (upto (texpire s) tv (ls i)) ->
  exists y l1 l2, advance_to s t i (fuel_of s) x = Some y /\ ls i = l1 ++ l2 /\
    y = tail_node (pending_head c) l1 /\ (t ∈ ls i -> head l2 = Some t).
Proof.
  intros Hi Htv ->. pose proof (sk_level_sorted s c ls Hsk i ltac:(lia)) as Hs.
  pose proof (sk_chain _ _ _ Hsk i Hi) as Hc. pose proof (sk_level_bound s c ls Hsk i ltac:(lia)) as Hb.
  pose proof (sk_level_sub s c ls Hsk i ltac:(lia)) as Hsub.
  pose proof (upto_after _ tv (ls i) Hs) as E0.
  assert (Hs2 : StronglySorted (by_key (texpire s)) (after (texpire s) tv (ls i)))
    by (eapply sorted_sublist; [apply sublist_filter|done]).
  rewrite E0 in Hc, Hb. apply chain_suffix in Hc.
  destruct (advance_to_spec s t i _ (fuel_of s) _ Hc Hs2) as (l1 & l2 & E & -> & Ht);
    [unfold fuel_of; rewrite length_app in Hb; lia|].
  exists (tail_node (tail_node (pending_head c) (upto (texpire s) tv (ls i))) l1),
    (upto (texpire s) tv (ls i) ++ l1), l2.
  split; [done|]. rewrite <- app_assoc, <- E, <- E0, tail_node_app.
  split; [done|]. split; [done|]. intros Hin. apply Ht. apply elem_after. split; [|done].
  apply Htv. by eapply elem_of_sublist.
Qed.

Lemma prev_node_loop_spec t tv n i prev :
  (t ∈ ls 0 -> tv < texpire s t) -> i = Z.of_nat n - 1 -> i < depth s c ->
  (forall j, i < j < depth s c -> before_node t prev j) ->
  (forall j, 0 <= j <= i -> prev_ok tv prev j) ->
  exists prev', prev_node_loop s t n i prev = Some prev' /\
    forall j, 0 <= j < depth s c -> before_node t prev' j.
Proof.
  pose proof (sk_depth _ _ _ Hsk). intros Htv. revert i prev.
  induction n as [|n IH]; intros i prev Ei Hi Hdone Hp.
  - exists prev. split; [done|]. intros. apply Hdone. lia.
  - cbn [prev_node_loop].
    destruct (advance_to_level t (prev !!! i) i tv) as (y & l1 & l2 & -> & E & Ey & Ht);
      [lia|done|apply Hp; lia|]. cbn [mbind option_bind]. apply IH; [lia..| |].
    + intros j Hj. unfold before_node. destruct (decide (j = i)) as [->|].
      * exists l1, l2. by rewrite lookup_total_insert_eq.
      * rewrite lookup_total_insert_ne by done. apply Hdone. lia.
    + intros j Hj. unfold prev_ok. rewrite lookup_total_insert_ne by lia. apply Hp. lia.
Qed.

Lemma get_prev_for_node_spec t :
  exists prev, timer_get_prev_entries_for_node t c s = Some prev /\
    forall j, 0 <= j < depth s c -> before_node t prev j.
Proof.
  pose proof (sk_depth _ _ _ Hsk). unfold timer_get_prev_entries_for_node.
  destruct (get_prev_entries_spec (u64 (texpire s t - 1))) as (prev & -> & Hp). cbn [mbind option_bind].
  apply (prev_node_loop_spec t (u64 (texpire s t - 1))); [|lia..|].
  - intros Ht. apply (sk_mem _ _ _ Hsk) in Ht as [_ Ht]. rewrite u64_small by lia. lia.
  - intros j Hj. apply Hp. lia.
Qed.

End Prev.
