(* ===== verification/TimerOps.v ===== *)
(** * Timers: insertion and removal

    [timer_add] and [timer_del] on the skip list of an lcore: what they do to
    its list and what they leave alone. *)
From stdpp Require Import sorting.
From S2P Require Import Prelude Bits Timer TimerLists TimerSkip.

(** ** Frames *)

(** [s'] differs from [s] at most in the list of core [c], in the links of the
    timers [l] and in the random number generator. *)
Record touches (c : Z) (l : list Z) (s s' : tstate) : Prop := {
  to_tims : tims s' = tims s;
  to_prev_lcore : prev_lcore s' = prev_lcore s;
  to_updated : updated s' = updated s;
  to_calls : calls s' = calls s;
  to_lock : list_lock s' = list_lock s;
  to_depth : forall c', c' <> c -> depth s' c' = depth s c';
  to_head : forall c', c' <> c -> head_expire s' !!! c' = head_expire s !!! c';
  to_next : forall x i, x <> pending_head c -> (forall y, y ∈ l -> x <> timer_at y) ->
    next s' x i = next s x i }.

Lemma touches_refl c l s : touches c l s s.
Proof. by constructor. Qed.

Lemma touches_trans c l s1 s2 s3 : touches c l s1 s2 -> touches c l s2 s3 -> touches c l s1 s3.
Proof.
  intros H1 H2. destruct (id H1), (id H2). constructor; try congruence.
  - intros c' Hc. by rewrite (to_depth _ _ _ _ H2), (to_depth _ _ _ _ H1).
  - intros c' Hc. by rewrite (to_head _ _ _ _ H2), (to_head _ _ _ _ H1).
  - intros x i Hx Hl. by rewrite (to_next _ _ _ _ H2), (to_next _ _ _ _ H1).
Qed.

Lemma touches_texpire c l s s' t : touches c l s s' -> texpire s' t = texpire s t.
Proof. intros H. unfold texpire, tim. by rewrite (to_tims _ _ _ _ H). Qed.

Lemma skiplist_ext s s' c ls :
  skiplist s c ls -> depth s' c = depth s c ->
  (forall i, next s' (pending_head c) i = next s (pending_head c) i) ->
  (forall t i, t ∈ ls 0 -> next s' (timer_at t) i = next s (timer_at t) i) ->
  (forall t, t ∈ ls 0 -> is_Some (tims s' !! t) /\ texpire s' t = texpire s t) ->
  skiplist s' c ls.
Proof.
  intros Hsk Hd Hh Ht Hm. constructor.
  - rewrite Hd. apply Hsk.
  - intros i Hi. rewrite Hh. eapply chain_frame; [|by apply Hsk]. intros t Hin.
    apply Ht. eapply elem_of_sublist; [exact Hin|]. apply sk_level_sub with s c; [done|lia].
  - apply Hsk.
  - intros i Hi. apply Hsk. lia.
  - eapply sorted_ext; [|apply Hsk]. intros t Hin. symmetry. by apply Hm.
  - apply Hsk.
  - intros t Hin. destruct (Hm t Hin) as [Hs ->]. split; [done|]. by apply (sk_mem _ _ _ Hsk).
Qed.

Lemma skiplist_frame c l s s' c' ls :
  touches c l s s' -> c' <> c -> (forall t, t ∈ ls 0 -> t ∉ l) -> skiplist s c' ls -> skiplist s' c' ls.
Proof.
  intros Ht Hc Hd Hsk. eapply skiplist_ext; [done|..].
  - by apply (to_depth _ _ _ _ Ht).
  - intros i. apply (to_next _ _ _ _ Ht); naive_solver.
  - intros t i Hin. apply (to_next _ _ _ _ Ht); [done|]. intros y Hy [= ->]. by apply (Hd y).
  - intros t Hin. rewrite (touches_texpire _ _ _ _ _ Ht), (to_tims _ _ _ _ Ht).
    split; [|done]. by apply (sk_mem _ _ _ Hsk).
Qed.

(** ** Locking *)

Definition lockable (need : bool) (c : Z) (s : tstate) : Prop := need = true -> c ∉ list_lock s.

Lemma lock_if_spec need c s :
  lockable need c s -> exists s1, lock_if need c s = Some s1 /\
    s1 = set_list_lock (list_lock s1) s /\
    forall s', list_lock s' = list_lock s1 -> list_lock (unlock_if need c s') = list_lock s.
Proof.
  intros Hl. destruct need; cbn [lock_if unlock_if].
  - unfold rte_spinlock_lock. rewrite decide_False by auto. eexists. split; [done|]. split; [done|].
    intros s' E. cbn in *. rewrite E. specialize (Hl eq_refl). set_solver.
  - exists s. split; [done|]. split; [by destruct s|]. done.
Qed.

(** ** Loops over the levels *)

Lemma for_down_levels (body : Z -> gmap (node * Z) Z -> gmap (node * Z) Z) n i nx :
  (forall k m x j, j <> k -> body k m !! (x, j) = m !! (x, j)) ->
  (forall k m m', (forall x, m !! (x, k) = m' !! (x, k)) ->
     forall x, body k m !! (x, k) = body k m' !! (x, k)) ->
  forall x j, for_down n i body nx !! (x, j) =
    if decide (i - Z.of_nat n < j <= i) then body j nx !! (x, j) else nx !! (x, j).
Proof.
  intros Ho Hl. revert i nx. induction n as [|n IH]; intros i nx x j; cbn [for_down].
  - by rewrite decide_False by lia.
  - rewrite IH. destruct (decide (i - 1 - Z.of_nat n < j <= i - 1)).
    + rewrite decide_True by lia. apply Hl. intros z. apply Ho. lia.
    + destruct (decide (j = i)) as [->|].
      * by rewrite decide_True by lia.
      * rewrite decide_False by lia. by apply Ho.
Qed.

Lemma for_down_links body bnx n i nx s :
  (forall k nx, body k (set_sl_next nx s) = set_sl_next (bnx k nx) s) ->
  for_down n i body (set_sl_next nx s) = set_sl_next (for_down n i bnx nx) s.
Proof.
  intros Hb. revert i nx. induction n as [|n IH]; intros i nx; [done|].
  cbn [for_down]. by rewrite Hb, IH.
Qed.

Lemma for_down_snoc {S : Type} n i (body : Z -> S -> S) s :
  body (i - Z.of_nat n) (for_down n i body s) = for_down (Datatypes.S n) i body s.
Proof.
  revert i s. induction n as [|n IH]; intros i s; [by rewrite Z.sub_0_r|].
  replace (i - Z.of_nat (Datatypes.S n)) with ((i - 1) - Z.of_nat n) by lia.
  apply (IH (i - 1) (body i s)).
Qed.

(** ** The level of a new entry *)

Lemma get_level_spec lrand48 d s :
  0 <= d <= MAX_SKIPLIST_DEPTH -> exists lvl x, timer_get_skiplist_level lrand48 d s = (lvl, set_seed x s) /\
    0 <= lvl <= d /\ lvl < MAX_SKIPLIST_DEPTH.
Proof.
  intros Hd. unfold timer_get_skiplist_level, rte_rand.
  destruct (lrand48 (seed s)) as [a x]. destruct (lrand48 x) as [b x']. cbv zeta.
  set (rand := u32 _). eexists _, _. split; [reflexivity|].
  assert (Hnn : 0 <= (if rand =? 0 then MAX_SKIPLIST_DEPTH else (rte_bsf32 rand - 1) / 2)).
  { destruct (Z.eqb_spec rand 0) as [|Hne]; [done|].
    pose proof (u32_range (Z.land (u64 (u64 (Z.shiftl (u64 a) 32) + b)) (2 ^ 32 - 1 - 1))) as Hr.
    fold rand in Hr. destruct (lowest_bit rand 1) as [Hc _]; [lia|done| |lia|].
    - intros i Hi. assert (i = 0) as -> by lia. unfold rand, u32, wrap.
      rewrite Z.mod_pow2_bits_low, Z.land_spec by lia. apply andb_false_r.
    - unfold rte_bsf32. apply Z.div_pos; lia. }
  revert Hnn. generalize (if rand =? 0 then MAX_SKIPLIST_DEPTH else (rte_bsf32 rand - 1) / 2). intros v Hv.
  unfold MAX_SKIPLIST_DEPTH in *. rewrite Z.gtb_ltb, !Z.geb_leb. case_tests; lia.
Qed.

(** ** Insertion *)

Definition link_nx (t : Z) (prev : gmap Z node) (lvl : Z) (nx : gmap (node * Z) Z) :
    gmap (node * Z) Z :=
  store (Some t) (prev !!! lvl, lvl) (store (nx !! (prev !!! lvl, lvl)) (timer_at t, lvl) nx).

Lemma link_loop_lookup t prev lvl nx x j :
  0 <= lvl ->
  for_down (S (Z.to_nat lvl)) lvl (link_nx t prev) nx !! (x, j) =
  if decide (0 <= j <= lvl) then link_nx t prev j nx !! (x, j) else nx !! (x, j).
Proof.
  intros Hl. rewrite for_down_levels.
  - repeat case_decide; done || lia.
  - intros k m y i Hi. unfold link_nx. by rewrite !lookup_store, !decide_False by naive_solver.
  - intros k m m' Hm y. unfold link_nx. rewrite !lookup_store. by rewrite !Hm.
Qed.

Lemma link_loop t prev lvl s :
  0 <= lvl ->
  link t prev 0 (for_down (Z.to_nat lvl) lvl (link t prev) s) =
  set_sl_next (for_down (S (Z.to_nat lvl)) lvl (link_nx t prev) (sl_next s)) s.
Proof.
  intros Hl. rewrite <- (for_down_links (link t prev)).
  - rewrite <- for_down_snoc. f_equal; [lia|]. by destruct s.
  - done.
Qed.

(** The links of the levels once [t] is linked in at levels [0 .. lvl]. *)
Lemma link_levels s c ls t prev lvl nx :
  skiplist s c ls -> t ∉ ls 0 -> 0 <= lvl < MAX_SKIPLIST_DEPTH -> lvl <= depth s c ->
  (forall i, 0 <= i <= depth s c -> prev !!! i = tail_node (pending_head c) (upto (texpire s) (texpire s t) (ls i))) ->
  nx = for_down (S (Z.to_nat lvl)) lvl (link_nx t prev) (sl_next s) ->
  (forall i, 0 <= i < MAX_SKIPLIST_DEPTH ->
     chain nx i (nx !! (pending_head c, i)) (if decide (i <= lvl) then place (texpire s) t (ls i) else ls i)) /\
  (forall x i, x <> pending_head c -> (forall y, y ∈ t :: ls 0 -> x <> timer_at y) -> nx !! (x, i) = sl_next s !! (x, i)).
Proof.
  intros Hsk Ht Hl Hld Hp ->. split.
  - intros i Hi. pose proof (link_loop_lookup t prev lvl (sl_next s)) as Hlk.
    pose proof (sk_level_sorted s c ls Hsk i ltac:(lia)) as Hs.
    pose proof (sk_level_nodup s c ls Hsk i ltac:(lia)) as Hnd.
    pose proof (sk_chain _ _ _ Hsk i Hi) as Hc. unfold next in Hc.
    assert (Hti : t ∉ ls i) by (intros Hin; apply Ht; eapply elem_of_sublist; [done|by eapply sk_level_sub; [|lia]]).
    destruct (decide (i <= lvl)).
    + rewrite Hlk, decide_True by lia. eapply (chain_frame (link_nx t prev i (sl_next s)));
        [intros z _; rewrite Hlk, decide_True by lia; done|].
      unfold link_nx. rewrite Hp by lia. apply chain_link.
      * by rewrite <- upto_after.
      * by rewrite <- upto_after.
      * by rewrite <- upto_after.
    + rewrite Hlk, decide_False by lia. eapply chain_frame; [|exact Hc].
      intros z _. by rewrite Hlk, decide_False by lia.
  - intros x i Hx Hy. rewrite link_loop_lookup by lia. case_decide as Hi; [|done].
    unfold link_nx. rewrite Hp by lia. rewrite !lookup_store, !decide_False; [done|..].
    + intros [= E]. apply (Hy t); [left|done].
    + intros [= E]. destruct (tail_node_elem (pending_head c) (upto (texpire s) (texpire s t) (ls i))) as [E'|(z & Hz & E')].
      * rewrite E' in E. by apply Hx.
      * rewrite E' in E. apply (Hy z); [|done]. right. apply elem_upto in Hz as [_ Hz].
        eapply elem_of_sublist; [exact Hz|]. eapply sk_level_sub; [done|lia].
Qed.

(** The list of core [c] is [q]; in [pending], the dummy head caches its first
    expiry. *)
Definition listed (s : tstate) (c : Z) (q : list Z) : Prop := exists ls, skiplist s c ls /\ ls 0 = q.
Definition pending (s : tstate) (c : Z) (q : list Z) : Prop :=
  listed s c q /\
  (forall t, head q = Some t -> head_expire s !!! c = texpire s t).

Lemma skiplist_placed s s' c ls t lvl :
  skiplist s c ls -> t ∉ ls 0 -> is_Some (tims s !! t) -> 0 < texpire s t < 2 ^ 64 ->
  0 <= lvl < MAX_SKIPLIST_DEPTH -> lvl <= depth s c -> tims s' = tims s ->
  depth s' c = (if lvl =? depth s c then depth s c + 1 else depth s c) ->
  let ls' i := if decide (i <= lvl) then place (texpire s) t (ls i) else ls i in
  (forall i, 0 <= i < MAX_SKIPLIST_DEPTH -> chain (sl_next s') i (next s' (pending_head c) i) (ls' i)) ->
  skiplist s' c ls'.
Proof.
  intros Hsk Ht Hm He Hl Hld Htims Hd ls' Hc. pose proof (sk_depth _ _ _ Hsk).
  assert (Hex : forall y, texpire s' y = texpire s y) by (intros; unfold texpire, tim; by rewrite Htims).
  assert (H0 : ls' 0 = place (texpire s) t (ls 0)) by (unfold ls'; by rewrite decide_True by lia).
  constructor.
  - rewrite Hd. case_tests; lia.
  - done.
  - intros i Hi. unfold ls'. repeat case_decide; [|lia| |by apply Hsk].
    + apply place_sublist. by apply Hsk.
    + apply sublist_place; [apply sk_level_sorted with c; [done|lia]|]. by apply Hsk.
  - intros i Hi. unfold ls'. rewrite Hd in Hi. revert Hi. case_tests; intros Hi;
      rewrite decide_False by lia; apply Hsk; lia.
  - rewrite H0. eapply sorted_ext; [intros; symmetry; apply Hex|]. apply place_sorted. apply Hsk.
  - rewrite H0. apply place_NoDup; [apply Hsk|done].
  - intros y. rewrite H0, elem_place, Htims, Hex. intros [->|Hy]; [done|]. by apply Hsk.
Qed.

(** What is done with the lock held. *)
Lemma locked_section need c l s (body : tstate -> option tstate) q' :
  lockable need c s ->
  (forall lk, exists s2, body (set_list_lock lk s) = Some s2 /\ pending s2 c q' /\
     touches c l (set_list_lock lk s) s2) ->
  exists s', (s1 ← lock_if need c s; s2 ← body s1; Some (unlock_if need c s2)) = Some s' /\
    pending s' c q' /\ touches c l s s'.
Proof.
  intros Hlock Hbody. destruct (lock_if_spec _ _ _ Hlock) as (s1 & -> & E1 & Hun).
  destruct (Hbody (list_lock s1)) as (s2 & Hb & [(ls & Hsk & Hq) Hh] & Hto). rewrite <- E1 in Hb, Hto.
  cbn [mbind option_bind]. rewrite Hb. cbn [mbind option_bind]. eexists. split; [done|].
  set (s3 := unlock_if need c s2).
  assert (E3 : s3 = set_list_lock (list_lock s3) s2) by (unfold s3; by destruct need, s2).
  assert (Hl3 : list_lock s3 = list_lock s) by (apply Hun, Hto).
  split; [split|].
  - exists ls. split; [|done]. eapply skiplist_ext; [exact Hsk|..]; rewrite E3; [done..|].
    intros y Hy. split; [|done]. by apply (sk_mem _ _ _ Hsk).
  - intros t Ht. rewrite E3. by apply Hh.
  - rewrite E3, Hl3. rewrite E1 in Hto. by destruct Hto.
Qed.

Definition add_body (lrand48 : Z -> Z * Z) (t c : Z) (s : tstate) : option tstate :=
  prev ← timer_get_prev_entries (texpire s t) c s;
  let '(tim_level, s) := timer_get_skiplist_level lrand48 (depth s c) s in
  let s := if tim_level =? depth s c then set_depth c (depth s c + 1) s else s in
  let s := for_down (Z.to_nat tim_level) tim_level (link t prev) s in
  let s := link t prev 0 s in
  Some (set_head_expire c (next_expire s (next s (pending_head c) 0)) s).

Lemma timer_add_body lrand48 lcore_id t c loc s :
  timer_add lrand48 lcore_id t c loc s =
  (s1 ← lock_if (negb (c =? lcore_id) || negb loc) c s; s2 ← add_body lrand48 t c s1;
   Some (unlock_if (negb (c =? lcore_id) || negb loc) c s2)).
Proof.
  unfold timer_add, add_body. destruct (lock_if _ _ _) as [s1|]; [|done]. cbn [mbind option_bind].
  destruct (timer_get_prev_entries _ _ _); [|done]. cbn [mbind option_bind].
  by destruct (timer_get_skiplist_level _ _ _).
Qed.

Lemma add_body_spec lrand48 s c ls t :
  skiplist s c ls -> t ∉ ls 0 -> is_Some (tims s !! t) -> 0 < texpire s t < 2 ^ 64 ->
  exists s', add_body lrand48 t c s = Some s' /\
    pending s' c (place (texpire s) t (ls 0)) /\ touches c (t :: ls 0) s s'.
Proof.
  intros Hsk Ht Hm He. unfold add_body.
  destruct (get_prev_entries_spec s c ls Hsk (texpire s t)) as (prev & -> & Hp). cbn [mbind option_bind].
  destruct (get_level_spec lrand48 (depth s c) s (sk_depth _ _ _ Hsk)) as (lvl & x & -> & Hlvl & Hmax).
  change (depth (set_seed x s) c) with (depth s c).
  set (s2 := if lvl =? depth s c then _ else _). rewrite link_loop by lia.
  assert (E2 : sl_next s2 = sl_next s /\ tims s2 = tims s /\ prev_lcore s2 = prev_lcore s /\
    updated s2 = updated s /\ calls s2 = calls s /\ list_lock s2 = list_lock s /\ head_expire s2 = head_expire s)
    by (unfold s2; by destruct (lvl =? depth s c)).
  destruct E2 as (E2n & E2t & E2p & E2u & E2c & E2l & E2h). rewrite E2n. set (nx := for_down _ _ _ _).
  destruct (link_levels s c ls t prev lvl nx Hsk Ht ltac:(lia) ltac:(lia) Hp eq_refl) as [Hch Hfr].
  set (s3 := set_head_expire _ _ _).
  assert (Hd3 : forall c', depth s3 c' = if decide (c' = c) then if lvl =? depth s c then depth s c + 1 else depth s c
                                         else depth s c').
  { intros c'. unfold s3, s2, depth. destruct (lvl =? curr_skiplist_depth s !!! c); cbn;
      rewrite ?lookup_total_insert; repeat case_decide; by subst. }
  assert (Hsk3 : skiplist s3 c (fun i => if decide (i <= lvl) then place (texpire s) t (ls i) else ls i)).
  { apply skiplist_placed; try done; [lia|lia|]. by rewrite Hd3, decide_True. }
  exists s3. split; [done|]. split; [split|].
  - eexists. split; [exact Hsk3|]. cbn beta. by rewrite decide_True by lia.
  - intros y Hy. unfold s3. cbn. rewrite lookup_total_insert_eq.
    pose proof (sk_chain _ _ _ Hsk3 0 ltac:(done)) as Hc0. cbn beta in Hc0. rewrite decide_True in Hc0 by lia.
    apply chain_head in Hc0. rewrite Hy in Hc0. change (nx !! (pending_head c, 0) = Some y) in Hc0.
    change (next_expire (set_sl_next nx s2) (nx !! (pending_head c, 0)) = texpire s3 y). by rewrite Hc0.
  - constructor; try done.
    + intros c' Hc'. by rewrite Hd3, decide_False.
    + intros c' Hc'. unfold s3. cbn. rewrite lookup_total_insert_ne by done. by rewrite E2h.
Qed.

Lemma listed_lock lk s c q : listed s c q -> listed (set_list_lock lk s) c q.
Proof.
  intros (ls & Hsk & Hq). exists ls. split; [|done].
  eapply skiplist_ext; [exact Hsk|done..|]. intros y Hy. split; [|done]. by apply (sk_mem _ _ _ Hsk).
Qed.

Lemma pending_lock lk s c q : pending s c q -> pending (set_list_lock lk s) c q.
Proof. intros [Hl Hh]. split; [by apply listed_lock|done]. Qed.

Lemma timer_add_spec lrand48 lcore_id s c q t loc :
  listed s c q -> t ∉ q -> is_Some (tims s !! t) -> 0 < texpire s t < 2 ^ 64 ->
  lockable (negb (c =? lcore_id) || negb loc) c s ->
  exists s', timer_add lrand48 lcore_id t c loc s = Some s' /\
    pending s' c (place (texpire s) t q) /\ touches c (t :: q) s s'.
Proof.
  intros Hp Ht Hm He Hlock. rewrite timer_add_body. apply locked_section; [done|]. intros lk.
  apply (listed_lock lk) in Hp as (ls & Hsk & <-).
  exact (add_body_spec lrand48 (set_list_lock lk s) c ls t Hsk Ht Hm He).
Qed.

(** ** Removal *)

Definition unlink_nx (t : Z) (prev : gmap Z node) (i : Z) (nx : gmap (node * Z) Z) :
    gmap (node * Z) Z :=
  if decide (nx !! (prev !!! i, i) = Some t)
  then store (nx !! (timer_at t, i)) (prev !!! i, i) nx else nx.

Lemma unlink_loop_lookup t prev d nx x j :
  0 <= d ->
  for_down (Z.to_nat d) (d - 1) (unlink_nx t prev) nx !! (x, j) =
  if decide (0 <= j < d) then unlink_nx t prev j nx !! (x, j) else nx !! (x, j).
Proof.
  intros Hl. rewrite for_down_levels.
  - repeat case_decide; done || lia.
  - intros k m y i Hi. unfold unlink_nx. case_decide; [|done].
    by rewrite lookup_store, decide_False by naive_solver.
  - intros k m m' Hm y. unfold unlink_nx. rewrite !Hm. case_decide; [|done]. by rewrite !lookup_store, !Hm.
Qed.

Lemma unlink_loop t prev n i s :
  for_down n i (unlink t prev) s = set_sl_next (for_down n i (unlink_nx t prev) (sl_next s)) s.
Proof.
  rewrite <- (for_down_links (unlink t prev)); [by destruct s|]. intros k nx. unfold unlink, unlink_nx, next. cbn.
  by case_decide.
Qed.

Lemma unlink_levels s c ls t prev nx :
  skiplist s c ls -> (forall j, 0 <= j < depth s c -> before_node c ls t prev j) ->
  nx = for_down (Z.to_nat (depth s c)) (depth s c - 1) (unlink_nx t prev) (sl_next s) ->
  (forall i, 0 <= i < MAX_SKIPLIST_DEPTH -> chain nx i (nx !! (pending_head c, i)) (without t (ls i))) /\
  (forall x i, x <> pending_head c -> (forall y, y ∈ ls 0 -> x <> timer_at y) -> nx !! (x, i) = sl_next s !! (x, i)).
Proof.
  intros Hsk Hp ->. pose proof (sk_depth _ _ _ Hsk). pose proof (unlink_loop_lookup t prev (depth s c) (sl_next s)) as Hlk.
  split.
  - intros i Hi. pose proof (sk_level_nodup s c ls Hsk i ltac:(lia)) as Hnd.
    pose proof (sk_chain _ _ _ Hsk i Hi) as Hc. unfold next in Hc.
    destruct (decide (i < depth s c)).
    + rewrite Hlk, decide_True by lia. eapply (chain_frame (unlink_nx t prev i (sl_next s)));
        [intros z _; rewrite Hlk, decide_True by lia; done|].
      destruct (Hp i ltac:(lia)) as (l1 & l2 & E & Ep & Ht). unfold unlink_nx. rewrite Ep. rewrite E in *.
      assert (En : sl_next s !! (tail_node (pending_head c) l1, i) = head l2) by (by apply chain_suffix, chain_head in Hc).
      rewrite En. destruct (decide (t ∈ l1 ++ l2)) as [Hin|Hin].
      * specialize (Ht Hin). destruct l2 as [|? l2]; [done|]. injection Ht as ->.
        rewrite decide_True, without_mid by done. by apply chain_unlink.
      * rewrite without_notin by done. rewrite decide_False; [done|]. intros Ht2.
        apply Hin. destruct l2; [done|]. injection Ht2 as ->. set_solver.
    + rewrite Hlk, decide_False by lia. rewrite (sk_top _ _ _ Hsk) in * by lia. done.
  - intros x i Hx Hy. rewrite Hlk by lia. case_decide as Hi; [|done].
    destruct (Hp i ltac:(lia)) as (l1 & l2 & E & Ep & Ht). unfold unlink_nx. case_decide; [|done].
    rewrite lookup_store, decide_False; [done|]. rewrite Ep. intros [= E'].
    destruct (tail_node_elem (pending_head c) l1) as [->|(z & Hz & Ez)]; [naive_solver|].
    apply (Hy z); [|congruence]. eapply elem_of_sublist; [|eapply sk_level_sub; [done|exact (proj1 Hi)]].
    rewrite E. set_solver.
Qed.

Lemma lower_depth_spec c n i s :
  i = Z.of_nat n - 1 -> depth s c = Z.of_nat n ->
  exists d, lower_depth c n i s = mkTstate (sl_next s) (tims s) (head_expire s) d (prev_lcore s) (updated s)
      (list_lock s) (seed s) (calls s) /\
    0 <= d !!! c <= depth s c /\ (forall j, d !!! c <= j < depth s c -> next s (pending_head c) j = None) /\
    (forall c', c' <> c -> d !!! c' = depth s c').
Proof.
  revert i s. induction n as [|n IH]; intros i s Hi Hd; cbn [lower_depth].
  - exists (curr_skiplist_depth s). fold (depth s c). split; [by destruct s|]. repeat split; [lia..|].
    intros; lia.
  - destruct (next s (pending_head c) i) eqn:E.
    { exists (curr_skiplist_depth s). fold (depth s c). split; [by destruct s|]. repeat split; [lia..|].
      intros; lia. }
    destruct (IH (i - 1) (set_depth c (depth s c - 1) s)) as (d & -> & Hd1 & Hd2 & Hd3); [lia|..].
    + unfold depth at 1. cbn. rewrite lookup_total_insert_eq. lia.
    + assert (Ed : depth (set_depth c (depth s c - 1) s) c = depth s c - 1)
        by (unfold depth at 1; cbn; by rewrite lookup_total_insert_eq). rewrite Ed in *.
      exists d. split; [done|]. repeat split; [lia..| |].
      * intros j Hj. destruct (decide (j = i)) as [->|]; [done|]. apply (Hd2 j). lia.
      * intros c' Hc'. rewrite Hd3 by done. unfold depth. cbn. by rewrite lookup_total_insert_ne.
Qed.

Definition del_body (t c : Z) (s : tstate) : option tstate :=
  let s := if decide (next s (pending_head c) 0 = Some t)
           then set_head_expire c (next_expire s (next s (timer_at t) 0)) s else s in
  prev ← timer_get_prev_entries_for_node t c s;
  let n := Z.to_nat (depth s c) in
  let s := for_down n (depth s c - 1) (unlink t prev) s in
  Some (lower_depth c n (depth s c - 1) s).

Lemma timer_del_body lcore_id t st loc s :
  let c := u32 (owner st) in
  timer_del lcore_id t st loc s =
  (s1 ← lock_if (negb (c =? lcore_id) || negb loc) c s; s2 ← del_body t c s1;
   Some (unlock_if (negb (c =? lcore_id) || negb loc) c s2)).
Proof.
  cbv zeta. unfold timer_del, del_body. destruct (lock_if _ _ _) as [s1|]; [|done]. cbn [mbind option_bind].
  by destruct (timer_get_prev_entries_for_node _ _ _).
Qed.

(** The cached expiry of the head once [t] is the removed timer. *)
Lemma del_head_expire s c ls t s1 :
  pending s c (ls 0) -> skiplist s c ls ->
  s1 = (if decide (next s (pending_head c) 0 = Some t)
        then set_head_expire c (next_expire s (next s (timer_at t) 0)) s else s) ->
  forall y, head (without t (ls 0)) = Some y -> head_expire s1 !!! c = texpire s y.
Proof.
  intros [_ Hh] Hsk -> y Hy. pose proof (sk_chain _ _ _ Hsk 0 ltac:(done)) as Hc.
  pose proof (sk_nodup _ _ _ Hsk) as Hnd. destruct (ls 0) as [|z l]; [done|]. destruct Hc as [Hz Hc].
  rewrite Hz. unfold without in Hy. rewrite filter_cons in Hy. fold (without t l) in Hy.
  destruct (decide (Some z = Some t)) as [[= ->]|Hne].
  - rewrite decide_False in Hy by naive_solver. apply NoDup_cons in Hnd as [Hnt _].
    rewrite without_notin in Hy by done. cbn. rewrite lookup_total_insert_eq.
    apply chain_head in Hc. unfold next. by rewrite Hc, Hy.
  - rewrite decide_True in Hy by naive_solver. injection Hy as ->. by apply Hh.
Qed.

Lemma skiplist_removed s s' c ls t :
  skiplist s c ls -> tims s' = tims s -> 0 <= depth s' c <= depth s c ->
  (forall i, 0 <= i < MAX_SKIPLIST_DEPTH -> chain (sl_next s') i (next s' (pending_head c) i) (without t (ls i))) ->
  (forall j, depth s' c <= j < depth s c -> next s' (pending_head c) j = None) ->
  skiplist s' c (fun i => without t (ls i)).
Proof.
  intros Hsk Htims Hd Hc Hnone. pose proof (sk_depth _ _ _ Hsk).
  assert (Hex : forall y, texpire s' y = texpire s y) by (intros; unfold texpire, tim; by rewrite Htims).
  constructor.
  - lia.
  - done.
  - intros i Hi. apply filter_sublist. by apply Hsk.
  - intros i Hi. destruct (decide (i < depth s c)).
    + specialize (Hc i ltac:(lia)). rewrite Hnone in Hc by lia. apply chain_head in Hc. by destruct (without t (ls i)).
    + by rewrite (sk_top _ _ _ Hsk) by lia.
  - eapply sorted_ext; [intros; symmetry; apply Hex|].
    eapply sorted_sublist; [apply without_sublist|apply Hsk].
  - eapply sublist_NoDup; [apply Hsk|apply without_sublist].
  - intros y [_ Hy]%elem_without. rewrite Htims, Hex. by apply Hsk.
Qed.

Lemma del_body_spec s c q t :
  pending s c q ->
  exists s', del_body t c s = Some s' /\ pending s' c (without t q) /\ touches c q s s'.
Proof.
  intros Hp. destruct Hp as [(ls & Hsk & <-) Hh]. unfold del_body. set (s1 := if decide _ then _ else _).
  pose proof (del_head_expire s c ls t s1 (conj (ex_intro _ ls (conj Hsk eq_refl)) Hh) Hsk eq_refl) as Hh1.
  assert (E1 : sl_next s1 = sl_next s /\ tims s1 = tims s /\ prev_lcore s1 = prev_lcore s /\
    updated s1 = updated s /\ calls s1 = calls s /\ list_lock s1 = list_lock s /\
    curr_skiplist_depth s1 = curr_skiplist_depth s /\
    (forall c', c' <> c -> head_expire s1 !!! c' = head_expire s !!! c')).
  { unfold s1. case_decide; cbn; repeat split; intros; by rewrite ?lookup_total_insert_ne. }
  destruct E1 as (E1n & E1t & E1p & E1u & E1c & E1l & E1d & E1h). clearbody s1.
  assert (Hsk1 : skiplist s1 c ls).
  { eapply skiplist_ext; [exact Hsk|..]; unfold depth, next, texpire, tim; rewrite ?E1n, ?E1t, ?E1d; [done..|].
    intros y Hy. split; [|done]. by apply (sk_mem _ _ _ Hsk). }
  destruct (get_prev_for_node_spec s1 c ls Hsk1 t) as (prev & -> & Hpv). cbn [mbind option_bind].
  rewrite unlink_loop. set (nx := for_down _ _ _ _).
  destruct (unlink_levels s1 c ls t prev nx Hsk1 Hpv eq_refl) as [Hch Hfr].
  pose proof (sk_depth _ _ _ Hsk1) as Hdep.
  change (depth (set_sl_next nx s1) c) with (depth s1 c).
  destruct (lower_depth_spec c (Z.to_nat (depth s1 c)) (depth s1 c - 1) (set_sl_next nx s1)) as (d & -> & Hd1 & Hd2 & Hd3);
    [lia|change (depth s1 c = Z.of_nat (Z.to_nat (depth s1 c))); lia|].
  change (depth (set_sl_next nx s1) c) with (depth s1 c) in *. cbn.
  eexists. split; [reflexivity|]. split; [split|].
  - exists (fun i => without t (ls i)). split; [|done]. by apply skiplist_removed with s1.
  - intros y Hy. cbn. rewrite (Hh1 y Hy). unfold texpire, tim. cbn. by rewrite E1t.
  - constructor; cbn; try congruence.
    + intros c' Hc'. unfold depth at 1. cbn. rewrite Hd3 by done. unfold depth. cbn. by rewrite E1d.
    + done.
    + intros x i Hx Hy. change (nx !! (x, i) = next s x i). rewrite Hfr by done. by rewrite E1n.
Qed.

Lemma timer_del_spec lcore_id s c q t st loc :
  pending s c q -> u32 (owner st) = c -> lockable (negb (c =? lcore_id) || negb loc) c s ->
  exists s', timer_del lcore_id t st loc s = Some s' /\
    pending s' c (without t q) /\ touches c q s s'.
Proof.
  intros Hp <- Hlock. rewrite timer_del_body. apply locked_section; [done|]. intros lk.
  apply del_body_spec. by apply pending_lock.
Qed.
