(* ===== verification/TimerSpec.v ===== *)
(** * Timers: the service specified

    Per lcore, a queue of the timers it has pending, ordered by expiry;
    starting a timer places it in the queue, stopping it takes it out, and
    [rte_timer_manage] takes the due timers out of its queue and calls them
    one after the other.  There are no links, levels, locks or random
    numbers. *)
From stdpp Require Import sorting.
From S2P Require Import Prelude Bits Timer TimerLists.

Record pstate := mkPstate {
  queue : gmap Z (list Z);
  ptims : gmap Z rte_timer;
  pprev_lcore : gmap Z Z;
  pupdated : gmap Z Z;
  pcalls : list (Z * Z * Z) }.

Definition p_set_queue (c : Z) (l : list Z) (p : pstate) : pstate :=
  mkPstate (<[c := l]> (queue p)) (ptims p) (pprev_lcore p) (pupdated p) (pcalls p).
Definition p_set_tims (m : gmap Z rte_timer) (p : pstate) : pstate :=
  mkPstate (queue p) m (pprev_lcore p) (pupdated p) (pcalls p).
Definition p_set_prev (c v : Z) (p : pstate) : pstate :=
  mkPstate (queue p) (ptims p) (<[c := v]> (pprev_lcore p)) (pupdated p) (pcalls p).
Definition p_set_updated (c v : Z) (p : pstate) : pstate :=
  mkPstate (queue p) (ptims p) (pprev_lcore p) (<[c := v]> (pupdated p)) (pcalls p).
Definition p_log (k : Z * Z * Z) (p : pstate) : pstate :=
  mkPstate (queue p) (ptims p) (pprev_lcore p) (pupdated p) (pcalls p ++ [k]).

Definition ptim (p : pstate) (t : Z) : rte_timer := ptims p !!! t.
Definition pexpire (p : pstate) (t : Z) : Z := expire (ptim p t).
Definition pstatus (p : pstate) (t : Z) : rte_timer_status := status (ptim p t).
Definition p_set_status (t : Z) (st : rte_timer_status) (p : pstate) : pstate :=
  p_set_tims (<[t := with_status st (ptim p t)]> (ptims p)) p.

(** ** Starting and stopping *)

(** A timer that runs on another lcore or is being configured is busy. *)
Definition configurable (lcore_id : Z) (st : rte_timer_status) : bool :=
  negb ((state st =? RTE_TIMER_RUNNING) && negb (owner st =? u16 lcore_id)) &&
  negb (state st =? RTE_TIMER_CONFIG).

Definition p_del (t c : Z) (p : pstate) : pstate := p_set_queue c (without t (queue p !!! c)) p.
Definition p_add (t c : Z) (p : pstate) : pstate :=
  p_set_queue c (place (pexpire p) t (queue p !!! c)) p.

Definition p_detach (lcore_id t : Z) (st : rte_timer_status) (p : pstate) : pstate :=
  let p := if (state st =? RTE_TIMER_RUNNING) && (lcore_id <? RTE_MAX_LCORE)
           then p_set_updated lcore_id 1 p else p in
  if state st =? RTE_TIMER_PENDING then p_del t (owner st) p else p.

(** The timer is pending on core [c], with its new parameters. *)
Definition p_arm (t exp per fct ar c : Z) (p : pstate) : pstate :=
  p_add t c (p_set_tims (<[t := mkTimer exp (mkStatus RTE_TIMER_PENDING c) per fct ar]> (ptims p)) p).

Section Operations.
Context (lcore_role : Z -> Z) (master : Z).

Definition p_choose (lcore_id c : Z) (p : pstate) : option (Z * pstate) :=
  if c =? LCORE_ID_ANY then
    if lcore_id <? RTE_MAX_LCORE then
      n ← rte_get_next_lcore lcore_role master (pprev_lcore p !!! lcore_id) false true;
      Some (n, p_set_prev lcore_id n p)
    else n ← rte_get_next_lcore lcore_role master LCORE_ID_ANY false true; Some (n, p)
  else Some (c, p).

Definition p_reset (lcore_id cur_time t ticks : Z) (type : rte_timer_type) (c fct ar : Z)
    (p : pstate) : option (Z * pstate) :=
  if negb (c =? LCORE_ID_ANY) && negb (rte_lcore_is_enabled lcore_role c) then Some (-1, p)
  else
    '(c, p) ← p_choose lcore_id c p;
    if configurable lcore_id (pstatus p t) then
      let per := match type with PERIODICAL => ticks | SINGLE => 0 end in
      Some (0, p_arm t (u64 (cur_time + ticks)) per fct ar c (p_detach lcore_id t (pstatus p t) p))
    else Some (-1, p).

Definition p_stop (lcore_id t : Z) (p : pstate) : Z * pstate :=
  if configurable lcore_id (pstatus p t) then
    (0, p_set_status t (mkStatus RTE_TIMER_STOP RTE_TIMER_NO_OWNER)
          (p_detach lcore_id t (pstatus p t) p))
  else (-1, p).

(** ** What a caller must respect

    The timer has been initialised, it is not one of the timers that wait for
    their callback in the running [rte_timer_manage], the expiry is not the
    value 0 of the counter, and the lcore is an unsigned number. *)

Definition op_timer (o : op) : Z := match o with Reset _ t _ _ _ _ _ => t | Stop t => t end.
Definition op_expire (o : op) : Z :=
  match o with Reset cur _ ticks _ _ _ _ => u64 (cur + ticks) | Stop _ => 1 end.
Definition op_lcore (o : op) : Z := match o with Reset _ _ _ _ c _ _ => c | Stop _ => 0 end.
Definition op_allowed (waiting : list Z) (o : op) (p : pstate) : bool :=
  bool_decide (op_timer o ∉ waiting) && bool_decide (is_Some (ptims p !! op_timer o)) &&
  negb (op_expire o =? 0) && (0 <=? op_lcore o).

Definition p_op (lcore_id : Z) (waiting : list Z) (o : op) (p : pstate) : option pstate :=
  if op_allowed waiting o p then
    match o with
    | Reset cur_time t ticks type c fct ar => snd <$> p_reset lcore_id cur_time t ticks type c fct ar p
    | Stop t => Some (snd (p_stop lcore_id t p))
    end
  else None.

Fixpoint p_ops (lcore_id : Z) (waiting : list Z) (os : list op) (p : pstate) : option pstate :=
  match os with
  | [] => Some p
  | o :: os => p ← p_op lcore_id waiting o p; p_ops lcore_id waiting os p
  end.

(** ** Running the due timers *)

Definition due (p : pstate) (cur_time t : Z) : bool :=
  (pexpire p t <=? cur_time) && (state (pstatus p t) =? RTE_TIMER_PENDING).

Definition p_take (lcore_id cur_time : Z) (p : pstate) : list Z * pstate :=
  let q := queue p !!! lcore_id in
  let run := filter (fun t => due p cur_time t = true) q in
  let p' := p_set_queue lcore_id (filter (fun t => due p cur_time t = false) q) p in
  (run, foldl (fun p t => p_set_status t (mkStatus RTE_TIMER_RUNNING lcore_id) p) p' run).

Definition p_finish (lcore_id cur_time t : Z) (p : pstate) : option pstate :=
  let r := ptim p t in
  if pupdated p !!! lcore_id =? 1 then Some p
  else if period r =? 0 then Some (p_set_status t (mkStatus RTE_TIMER_STOP RTE_TIMER_NO_OWNER) p)
  else if u64 (cur_time + period r) =? 0 then None
  else Some (p_arm t (u64 (cur_time + period r)) (period r) (f r) (arg r) lcore_id p).

Fixpoint p_run (callback : Z -> Z -> Z -> list op) (lcore_id cur_time : Z) (run : list Z)
    (p : pstate) : option pstate :=
  match run with
  | [] => Some p
  | t :: rest =>
      let r := ptim p t in
      p ← p_ops lcore_id rest (callback (f r) t (arg r))
            (p_log (f r, t, arg r) (p_set_updated lcore_id 0 p));
      p ← p_finish lcore_id cur_time t p;
      p_run callback lcore_id cur_time rest p
  end.

Definition p_manage (callback : Z -> Z -> Z -> list op) (lcore_id cur_time : Z) (p : pstate) :
    option pstate :=
  let '(run, p) := p_take lcore_id cur_time p in p_run callback lcore_id cur_time run p.

End Operations.
