(* ===== verification/TimerRefine.v ===== *)
(** * Timers: the skip lists implement the queues

    The representation of the queues by skip lists, and that starting and
    stopping a timer keep it. *)
From stdpp Require Import sorting.
From S2P Require Import Prelude Bits Timer TimerLists TimerSkip TimerOps TimerSpec.

(** ** Representation *)

Definition lcore_ok (c : Z) : Prop := 0 <= c < RTE_MAX_LCORE.

Record rep (s : tstate) (p : pstate) : Prop := {
  r_pending : forall c, lcore_ok c -> pending s c (queue p !!! c);
  r_disjoint : forall c c' t, t ∈ queue p !!! c -> t ∈ queue p !!! c' -> c = c';
  r_status : forall c t, t ∈ queue p !!! c ->
    lcore_ok c /\ (tstatus s t = mkStatus RTE_TIMER_PENDING c \/ state (tstatus s t) = RTE_TIMER_CONFIG);
  r_owner : forall t, state (tstatus s t) = RTE_TIMER_PENDING -> lcore_ok (owner (tstatus s t));
  r_tims : tims s = ptims p;
  r_prev : prev_lcore s = pprev_lcore p;
  r_updated : updated s = pupdated p;
  r_calls : calls s = pcalls p }.

Definition queued (p : pstate) (t : Z) : Prop := exists c, t ∈ queue p !!! c.

Lemma i16_lcore c : lcore_ok c -> i16 c = c.
Proof. unfold lcore_ok, RTE_MAX_LCORE, i16, u16, wrap. intros. rewrite Z.mod_small by lia. by case_tests; lia. Qed.

Lemma u32_lcore c : lcore_ok c -> u32 c = c.
Proof. unfold lcore_ok, RTE_MAX_LCORE. intros. apply u32_small. lia. Qed.

Lemma u16_lcore c : lcore_ok c -> u16 c = c.
Proof. unfold lcore_ok, RTE_MAX_LCORE, u16, wrap. intros. apply Z.mod_small. lia. Qed.

(** Timers that are not queued can be rewritten freely. *)
Lemma pending_ext s s' c q :
  pending s c q -> sl_next s' = sl_next s -> depth s' c = depth s c ->
  head_expire s' !!! c = head_expire s !!! c ->
  (forall t, t ∈ q -> is_Some (tims s' !! t) /\ texpire s' t = texpire s t) -> pending s' c q.
Proof.
  intros [(ls & Hsk & <-) Hh] Hn Hd He Hm. split.
  - exists ls. split; [|done]. eapply skiplist_ext; [done|done|..|done]; intros; unfold next; by rewrite Hn.
  - intros t Ht. rewrite He, (Hh t Ht). symmetry. apply Hm. by apply head_Some_elem_of.
Qed.

Lemma pending_member s c q t :
  pending s c q -> t ∈ q -> is_Some (tims s !! t) /\ 0 < texpire s t < 2 ^ 64.
Proof. intros [(ls & Hsk & <-) _] Ht. by apply (sk_mem _ _ _ Hsk). Qed.

Lemma pending_frame c l s s' c' q :
  touches c l s s' -> c' <> c -> (forall t, t ∈ q -> t ∉ l) -> pending s c' q -> pending s' c' q.
Proof.
  intros Ht Hc Hd [(ls & Hsk & <-) Hh]. split.
  - exists ls. split; [|done]. by eapply skiplist_frame.
  - intros t Hin. rewrite (touches_texpire _ _ _ _ _ Ht), (to_head _ _ _ _ Ht) by done. by apply Hh.
Qed.

(** Writing the status word. *)
Lemma tstatus_set s t st t' : tstatus (set_status t st s) t' = if decide (t' = t) then st else tstatus s t'.
Proof.
  unfold tstatus, tim, set_status. cbn. rewrite lookup_total_insert.
  repeat case_decide; by subst.
Qed.

Lemma rep_set_status s p t st :
  rep s p -> is_Some (tims s !! t) ->
  (forall c, t ∈ queue p !!! c -> st = mkStatus RTE_TIMER_PENDING c \/ state st = RTE_TIMER_CONFIG) ->
  (state st = RTE_TIMER_PENDING -> lcore_ok (owner st)) ->
  rep (set_status t st s) (p_set_status t st p).
Proof.
  intros [Hp Hd Hs Ho Et Ep Eu Ec] Hm Hst Hown. constructor; cbn; try done.
  - intros c Hc. eapply pending_ext; [by apply Hp|done..|]. intros y Hy.
    destruct (pending_member _ _ _ _ (Hp c Hc) Hy) as [Hy1 _].
    unfold texpire, tim, set_status. cbn. rewrite lookup_insert, lookup_total_insert.
    case_decide; [subst; by split; [eexists|]|done].
  - intros c y Hy. destruct (Hs c y Hy) as [Hc Hst']. split; [done|]. rewrite tstatus_set.
    case_decide; [subst; by apply Hst|done].
  - intros y. rewrite tstatus_set. case_decide; [done|apply Ho].
  - unfold ptim, tim. by rewrite Et.
Qed.

(** Writing the other fields of a timer in no queue. *)
Lemma rep_set_timer s p t r :
  rep s p -> ~ queued p t -> status r = tstatus s t ->
  rep (set_tims (<[t := r]> (tims s)) s) (p_set_tims (<[t := r]> (ptims p)) p).
Proof.
  intros [Hp Hd Hs Ho Et Ep Eu Ec] Hq Hr.
  assert (Est : forall y, tstatus (set_tims (<[t := r]> (tims s)) s) y = tstatus s y).
  { intros y. unfold tstatus at 1, tim. cbn. rewrite lookup_total_insert. case_decide; by subst. }
  constructor; cbn; try done.
  - intros c Hc. eapply pending_ext; [by apply Hp|done..|]. intros y Hy.
    destruct (pending_member _ _ _ _ (Hp c Hc) Hy) as [Hy1 _].
    assert (y <> t) by (intros ->; apply Hq; by exists c).
    unfold texpire, tim. cbn. by rewrite lookup_insert_ne, lookup_total_insert_ne.
  - intros c y Hy. rewrite Est. by apply Hs.
  - intros y. rewrite Est. apply Ho.
  - by rewrite Et.
Qed.

(** A change of the list of one core. *)
Lemma rep_touch s s' p c l q' :
  rep s p -> lcore_ok c -> touches c l s s' -> pending s' c q' ->
  (forall t, t ∈ l -> t ∈ queue p !!! c \/ ~ queued p t) ->
  (forall t, t ∈ q' -> t ∈ queue p !!! c \/ ~ queued p t /\ state (tstatus s t) = RTE_TIMER_CONFIG) ->
  rep s' (p_set_queue c q' p).
Proof.
  intros [Hp Hd Hs Ho Et Ep Eu Ec] Hc Hto Hp' Hl Hq'.
  assert (Est : forall y, tstatus s' y = tstatus s y)
    by (intros; unfold tstatus, tim; by rewrite (to_tims _ _ _ _ Hto)).
  assert (Hlook : forall c', queue (p_set_queue c q' p) !!! c' = if decide (c' = c) then q' else queue p !!! c').
  { intros c'. cbn. rewrite lookup_total_insert. repeat case_decide; by subst. }
  constructor.
  - intros c' Hc'. rewrite Hlook. case_decide as E; [by subst|]. eapply pending_frame; [done|done| |by apply Hp].
    intros t Ht Hin. destruct (Hl t Hin) as [Hin'|Hn]; [|apply Hn; by exists c']. by apply E, (Hd c' c t).
  - intros c1 c2 t. rewrite !Hlook. repeat case_decide; subst; [done| | |by apply Hd].
    + intros [Ht|[Ht _]]%Hq' Ht'; [by apply (Hd _ _ t)|destruct Ht; by exists c2].
    + intros Ht' [Ht|[Ht _]]%Hq'; [by apply (Hd _ _ t)|destruct Ht; by exists c1].
  - intros c' t. rewrite Hlook, Est. case_decide as E; [subst|by apply Hs].
    intros [Ht|[_ Ht]]%Hq'; [by apply Hs|]. by split; [|right].
  - intros t. rewrite Est. apply Ho.
  - by rewrite (to_tims _ _ _ _ Hto).
  - by rewrite (to_prev_lcore _ _ _ _ Hto).
  - by rewrite (to_updated _ _ _ _ Hto).
  - by rewrite (to_calls _ _ _ _ Hto).
Qed.

(** ** Simulation steps *)

(** Nothing about timers other than [t] changes. *)
Definition only (t : Z) (p p' : pstate) : Prop :=
  forall y, y <> t -> ptims p' !! y = ptims p !! y /\
    (forall c, y ∈ queue p' !!! c <-> y ∈ queue p !!! c).

(** An operation on [t]: the queues are represented again, the locks are as
    before and so are the links of the other timers that are in no queue. *)
Record sim (t : Z) (s : tstate) (p : pstate) (s' : tstate) (p' : pstate) : Prop := {
  sim_rep : rep s' p';
  sim_lock : list_lock s' = list_lock s;
  sim_links : forall y i, y <> t -> ~ queued p y -> next s' (timer_at y) i = next s (timer_at y) i;
  sim_only : only t p p' }.

Lemma only_queued t p p' y : only t p p' -> y <> t -> queued p' y <-> queued p y.
Proof. intros Ho Hy. destruct (Ho y Hy) as [_ Hq]. split; intros [c Hin]; exists c; by apply Hq. Qed.

Lemma sim_refl t s p : rep s p -> sim t s p s p.
Proof. by constructor. Qed.

Lemma sim_trans t s p s1 p1 s2 p2 : sim t s p s1 p1 -> sim t s1 p1 s2 p2 -> sim t s p s2 p2.
Proof.
  intros [Hr1 Hl1 Hn1 Ho1] [Hr2 Hl2 Hn2 Ho2]. constructor; [done|congruence|..].
  - intros y i Hy Hq. rewrite Hn2; [by apply Hn1|done|]. by rewrite (only_queued t p).
  - intros y Hy. destruct (Ho1 y Hy) as [Et1 Hq1], (Ho2 y Hy) as [Et2 Hq2].
    split; [congruence|]. intros c. by rewrite Hq2.
Qed.

Lemma sim_data t s p s' p' :
  rep s' p' -> list_lock s' = list_lock s -> sl_next s' = sl_next s -> only t p p' -> sim t s p s' p'.
Proof. intros. constructor; try done. intros. unfold next. congruence. Qed.

Lemma only_tims t p m :
  (forall y, y <> t -> m !! y = ptims p !! y) -> only t p (p_set_tims m p).
Proof. intros Hm y Hy. split; [by apply Hm|done]. Qed.

Lemma only_queue t c p q' :
  (forall y, y <> t -> y ∈ q' <-> y ∈ queue p !!! c) -> only t p (p_set_queue c q' p).
Proof.
  intros Hq y Hy. split; [done|]. intros c'. cbn. rewrite lookup_total_insert.
  case_decide; [subst; by apply Hq|done].
Qed.

Lemma sim_set_status t s p st :
  rep s p -> is_Some (tims s !! t) ->
  (forall c, t ∈ queue p !!! c -> st = mkStatus RTE_TIMER_PENDING c \/ state st = RTE_TIMER_CONFIG) ->
  (state st = RTE_TIMER_PENDING -> lcore_ok (owner st)) ->
  sim t s p (set_status t st s) (p_set_status t st p).
Proof.
  intros. apply sim_data; [by apply rep_set_status|done|done|].
  apply only_tims. intros y Hy. by rewrite lookup_insert_ne.
Qed.

Lemma sim_touch t s s' p c l q' :
  rep s' (p_set_queue c q' p) -> touches c l s s' ->
  (forall y, y ∈ l -> y = t \/ queued p y) -> (forall y, y <> t -> y ∈ q' <-> y ∈ queue p !!! c) ->
  sim t s p s' (p_set_queue c q' p).
Proof.
  intros Hr Hto Hl Hq. constructor; [done|apply Hto| |by apply only_queue].
  intros y i Hy Hn. apply (to_next _ _ _ _ Hto); [done|]. intros z Hz [= ->].
  by destruct (Hl z Hz).
Qed.

(** ** Insertion and removal *)

Definition lockable_from (lcore_id : Z) (loc : bool) (s : tstate) : Prop :=
  forall c, lockable (negb (c =? lcore_id) || negb loc) c s.

Lemma rep_texpire s p t : rep s p -> texpire s t = pexpire p t.
Proof. intros Hr. unfold texpire, pexpire, tim, ptim. by rewrite (r_tims _ _ Hr). Qed.

Lemma rep_tstatus s p t : rep s p -> tstatus s t = pstatus p t.
Proof. intros Hr. unfold tstatus, pstatus, tim, ptim. by rewrite (r_tims _ _ Hr). Qed.

Lemma sim_del lcore_id s p t st loc :
  rep s p -> lcore_ok (owner st) -> lockable_from lcore_id loc s ->
  exists s', timer_del lcore_id t st loc s = Some s' /\ sim t s p s' (p_del t (owner st) p).
Proof.
  intros Hr Ho Hlk. set (c := owner st) in *.
  destruct (timer_del_spec lcore_id s c (queue p !!! c) t st loc) as (s' & E & Hp & Hto);
    [by apply Hr|by apply u32_lcore|apply Hlk|].
  exists s'. split; [done|]. apply sim_touch with (queue p !!! c); [|done|..].
  - eapply rep_touch; [done|done|done|done|by left|]. intros y [_ Hy]%elem_without. by left.
  - intros y Hy. right. by exists c.
  - intros y Hy. rewrite elem_without. naive_solver.
Qed.

Lemma sim_add lrand48 lcore_id s p t c loc :
  rep s p -> lcore_ok c -> ~ queued p t -> is_Some (tims s !! t) -> 0 < pexpire p t < 2 ^ 64 ->
  state (tstatus s t) = RTE_TIMER_CONFIG -> lockable_from lcore_id loc s ->
  exists s', timer_add lrand48 lcore_id t c loc s = Some s' /\ sim t s p s' (p_add t c p).
Proof.
  intros Hr Hc Hq Hm He Hst Hlk.
  destruct (timer_add_spec lrand48 lcore_id s c (queue p !!! c) t loc) as (s' & E & Hp & Hto);
    [by apply Hr|intros ?; apply Hq; by exists c|done|by rewrite (rep_texpire _ p)|apply Hlk|].
  exists s'. split; [done|].
  rewrite (place_ext _ (pexpire p)) in Hp by (intros; by apply rep_texpire).
  apply sim_touch with (t :: queue p !!! c); [|done|..].
  - eapply rep_touch; [done|done|done|exact Hp|..].
    + intros y [->|Hy]%elem_of_cons; [by right|by left].
    + intros y [->|Hy]%elem_place; [by right|by left].
  - intros y [->|Hy]%elem_of_cons; [by left|right; by exists c].
  - intros y Hy. rewrite elem_place. naive_solver.
Qed.

(** ** The next enabled lcore *)

Definition enabled (lcore_role : Z -> Z) (c : Z) : Prop := rte_lcore_is_enabled lcore_role c = true.

Lemma enabled_ok lcore_role c : 0 <= c -> enabled lcore_role c -> lcore_ok c.
Proof.
  intros Hc. unfold enabled, rte_lcore_is_enabled. rewrite Z.geb_leb.
  by destruct (Z.leb_spec RTE_MAX_LCORE c).
Qed.

(** With wrapping, the search visits the lcores in turn and returns the first
    enabled one. *)
Lemma next_lcore_loop_spec lcore_role master fuel i :
  lcore_ok i ->
  match next_lcore_loop lcore_role master false true fuel i with
  | Some c => exists k, 0 <= k < Z.of_nat fuel /\ c = (i + k) mod RTE_MAX_LCORE /\ enabled lcore_role c /\
      (forall j, 0 <= j < k -> ~ enabled lcore_role ((i + j) mod RTE_MAX_LCORE))
  | None => forall k, 0 <= k < Z.of_nat fuel -> ~ enabled lcore_role ((i + k) mod RTE_MAX_LCORE)
  end.
Proof.
  revert i. induction fuel as [|fuel IH]; intros i Hi; cbn [next_lcore_loop]; [intros; lia|].
  assert (Hmod : i mod RTE_MAX_LCORE = i) by (apply Z.mod_small; exact Hi).
  destruct (Z.ltb_spec i RTE_MAX_LCORE); [|unfold lcore_ok in Hi; lia].
  destruct (rte_lcore_is_enabled lcore_role i) eqn:E; cbn [negb orb andb].
  - exists 0. rewrite Z.add_0_r, Hmod. split; [lia|]. split; [done|]. split; [done|]. intros; lia.
  - cbn beta zeta iota. rewrite u32_small by (unfold lcore_ok, RTE_MAX_LCORE in *; lia).
    set (i' := (i + 1) mod RTE_MAX_LCORE).
    assert (Hi' : lcore_ok i') by (apply Z.mod_pos_bound; done). specialize (IH i' Hi').
    assert (Hsh : forall k, (i' + k) mod RTE_MAX_LCORE = (i + (k + 1)) mod RTE_MAX_LCORE)
      by (intros k; unfold i'; rewrite Zplus_mod_idemp_l; f_equal; lia).
    assert (H0 : ~ enabled lcore_role ((i + 0) mod RTE_MAX_LCORE))
      by (rewrite Z.add_0_r, Hmod; unfold enabled; by rewrite E).
    destruct (next_lcore_loop _ _ _ _ _ _) as [c|].
    + destruct IH as (k & Hk & Ec & Hen & Hfirst). exists (k + 1). rewrite <- Hsh. split; [lia|].
      split; [done|]. split; [done|]. intros j Hj. destruct (decide (j = 0)) as [->|]; [done|].
      replace j with ((j - 1) + 1) by lia. rewrite <- Hsh. apply Hfirst. lia.
    + intros k Hk. destruct (decide (k = 0)) as [->|]; [done|].
      replace k with ((k - 1) + 1) by lia. rewrite <- Hsh. apply IH. lia.
Qed.

Lemma u32_mod_lcore x : u32 x mod RTE_MAX_LCORE = x mod RTE_MAX_LCORE.
Proof. exact (wrap_wrap_le 7 32 x ltac:(lia)). Qed.

Lemma next_lcore_Some lcore_role master i c :
  rte_get_next_lcore lcore_role master i false true = Some c ->
  lcore_ok c /\ enabled lcore_role c.
Proof.
  intros E. unfold rte_get_next_lcore in E. cbv zeta iota in E.
  pose proof (next_lcore_loop_spec lcore_role master (Z.to_nat (RTE_MAX_LCORE + 1)) (u32 (i + 1) mod RTE_MAX_LCORE)) as Hsp.
  rewrite E in Hsp. destruct Hsp as (k & _ & -> & Hen & _); [by apply Z.mod_pos_bound|].
  split; [by apply Z.mod_pos_bound|done].
Qed.

(** ** Starting and stopping *)

Lemma set_config_spec lcore_id t s p :
  rep s p -> timer_set_config_state lcore_id t s =
  if configurable lcore_id (pstatus p t)
  then (Some (pstatus p t), set_status t (mkStatus RTE_TIMER_CONFIG (i16 lcore_id)) s) else (None, s).
Proof.
  intros Hr. unfold timer_set_config_state, configurable. rewrite (rep_tstatus _ _ _ Hr).
  by destruct (_ && _), (state _ =? RTE_TIMER_CONFIG).
Qed.

Lemma configurable_config lcore_id st : configurable lcore_id st = true -> state st <> RTE_TIMER_CONFIG.
Proof. intros Hc E. unfold configurable in Hc. by rewrite E in Hc. Qed.

(** A timer in no queue after [p_detach]. *)
Lemma detached s p lcore_id t :
  rep s p -> configurable lcore_id (pstatus p t) = true ->
  ~ queued (p_detach lcore_id t (pstatus p t) p) t.
Proof.
  intros Hr Hc [c Hin]. set (st := pstatus p t) in *.
  assert (Hno : forall c, t ∈ queue p !!! c -> st = mkStatus RTE_TIMER_PENDING c).
  { intros c' Hin'. destruct (r_status _ _ Hr c' t Hin') as [_ Hst]. rewrite (rep_tstatus _ _ _ Hr) in Hst.
    destruct Hst as [Hst|Hst]; [done|]. by apply configurable_config in Hc. }
  unfold p_detach in Hin. destruct (Z.eqb_spec (state st) RTE_TIMER_PENDING) as [Hp|Hp].
  - unfold p_del in Hin. cbn in Hin. rewrite lookup_total_insert in Hin.
    assert (Hqq : queue (if (state st =? RTE_TIMER_RUNNING) && (lcore_id <? RTE_MAX_LCORE)
                         then p_set_updated lcore_id 1 p else p) = queue p) by (by destruct (_ && _)).
    rewrite Hqq in Hin. case_decide as E; [by apply elem_without in Hin as [? _]|].
    apply Hno in Hin. rewrite Hin in E. done.
  - assert (Hin' : t ∈ queue p !!! c) by (by destruct (_ && _)). apply Hno in Hin'. by rewrite Hin' in Hp.
Qed.

Lemma rep_set_updated s p c v : rep s p -> rep (set_updated c v s) (p_set_updated c v p).
Proof.
  intros [Hp Hd Hs Ho Et Ep Eu Ec]. constructor; cbn; try done.
  - intros c' Hc'. eapply pending_ext; [by apply Hp|done..|].
    intros y Hy. split; [|done]. by apply (pending_member _ _ _ _ (Hp c' Hc')).
  - by rewrite Eu.
Qed.

Lemma rep_set_prev s p c v : rep s p -> rep (set_prev_lcore c v s) (p_set_prev c v p).
Proof.
  intros [Hp Hd Hs Ho Et Ep Eu Ec]. constructor; cbn; try done.
  - intros c' Hc'. eapply pending_ext; [by apply Hp|done..|].
    intros y Hy. split; [|done]. by apply (pending_member _ _ _ _ (Hp c' Hc')).
  - by rewrite Ep.
Qed.

Lemma rep_log s p k : rep s p -> rep (log_call k s) (p_log k p).
Proof.
  intros [Hp Hd Hs Ho Et Ep Eu Ec]. constructor; cbn; try done.
  - intros c' Hc'. eapply pending_ext; [by apply Hp|done..|].
    intros y Hy. split; [|done]. by apply (pending_member _ _ _ _ (Hp c' Hc')).
  - by rewrite Ec.
Qed.

Lemma rep_lock s p lk : rep s p -> rep (set_list_lock lk s) p.
Proof.
  intros [Hp Hd Hs Ho Et Ep Eu Ec]. constructor; cbn; try done.
  intros c Hc. by apply pending_lock, Hp.
Qed.

(** The configuring core takes the timer out of its list; [p'] is [p] but for
    the status. *)
Lemma sim_detach lcore_id s p t st loc :
  rep s p -> (state st = RTE_TIMER_PENDING -> lcore_ok (owner st)) -> lockable_from lcore_id loc s ->
  exists s', detach lcore_id t st loc s = Some s' /\ sim t s p s' (p_detach lcore_id t st p).
Proof.
  intros Hr Ho Hlk. unfold detach, p_detach.
  destruct ((state st =? RTE_TIMER_RUNNING) && (lcore_id <? RTE_MAX_LCORE));
    (destruct (Z.eqb_spec (state st) RTE_TIMER_PENDING); [|eexists; split; [done|]]).
  - destruct (sim_del lcore_id (set_updated lcore_id 1 s) (p_set_updated lcore_id 1 p) t st loc) as (s' & E & Hsim);
      [by apply rep_set_updated|by auto|done|]. exists s'. split; [done|].
    eapply sim_trans; [|exact Hsim]. by apply sim_data; [apply rep_set_updated|..].
  - by apply sim_data; [apply rep_set_updated|..].
  - by apply sim_del; auto.
  - by apply sim_refl.
Qed.

(** [p_detach] commutes with a change of the timers' fields. *)
Lemma p_detach_tims lcore_id t st m p :
  p_detach lcore_id t st (p_set_tims m p) = p_set_tims m (p_detach lcore_id t st p).
Proof. unfold p_detach. by destruct (_ && _), (state st =? RTE_TIMER_PENDING). Qed.

Lemma ptims_detach lcore_id t st p : ptims (p_detach lcore_id t st p) = ptims p.
Proof. unfold p_detach. by destruct (_ && _), (state st =? RTE_TIMER_PENDING). Qed.

(** Filling in the fields, queueing and marking as pending is [p_arm]. *)
Lemma p_arm_steps t exp per fct ar c st p :
  p_set_status t (mkStatus RTE_TIMER_PENDING c)
    (p_add t c (p_set_tims (<[t := mkTimer exp st per fct ar]> (ptims p)) p)) =
  p_arm t exp per fct ar c p.
Proof.
  unfold p_arm, p_add, p_set_status, p_set_tims, p_set_queue, ptim. cbn.
  rewrite lookup_total_insert_eq, insert_insert_eq. cbn. do 2 f_equal. apply place_ext.
  - intros y _. unfold pexpire, ptim. cbn. rewrite !lookup_total_insert. by case_decide.
  - unfold pexpire, ptim. cbn. by rewrite !lookup_total_insert_eq.
Qed.

Lemma p_arm_overwrite t exp per fct ar c r p :
  p_arm t exp per fct ar c (p_set_tims (<[t := r]> (ptims p)) p) = p_arm t exp per fct ar c p.
Proof. unfold p_arm, p_add, p_set_tims, p_set_queue, pexpire, ptim. cbn. by rewrite insert_insert_eq. Qed.

Lemma rep_config s p t lcore_id :
  rep s p -> is_Some (tims s !! t) ->
  rep (set_status t (mkStatus RTE_TIMER_CONFIG (i16 lcore_id)) s)
      (p_set_status t (mkStatus RTE_TIMER_CONFIG (i16 lcore_id)) p).
Proof. intros. apply rep_set_status; [done|done|by right|done]. Qed.

Lemma detach_set_status lcore_id t st st' p :
  p_detach lcore_id t st (p_set_status t st' p) = p_set_status t st' (p_detach lcore_id t st p).
Proof. unfold p_set_status at 1. rewrite p_detach_tims. unfold p_set_status, ptim. by rewrite ptims_detach. Qed.

(** From the configured state to the end of [rte_timer_stop] and of
    [__rte_timer_reset]. *)
Section Configured.
Context (lcore_id t : Z) (s : tstate) (p : pstate) (loc : bool).
Context (Hr : rep s p) (Hm : is_Some (tims s !! t)) (Hlk : lockable_from lcore_id loc s).
Context (Hc : configurable lcore_id (pstatus p t) = true).

Let cfg := mkStatus RTE_TIMER_CONFIG (i16 lcore_id).

Lemma configured_detach :
  exists s', detach lcore_id t (pstatus p t) loc (set_status t cfg s) = Some s' /\
    sim t s p s' (p_set_status t cfg (p_detach lcore_id t (pstatus p t) p)) /\
    is_Some (tims s' !! t) /\ tstatus s' t = cfg.
Proof.
  assert (H0 : sim t s p (set_status t cfg s) (p_set_status t cfg p))
    by (apply sim_set_status; [done|done|by right|done]).
  destruct (sim_detach lcore_id (set_status t cfg s) (p_set_status t cfg p) t (pstatus p t) loc)
    as (s' & E & Hsim).
  - apply H0.
  - rewrite <- (rep_tstatus _ _ _ Hr). apply Hr.
  - done.
  - rewrite detach_set_status in Hsim. pose proof (sim_rep _ _ _ _ _ Hsim) as Hr'.
    exists s'. split; [done|]. split; [by eapply sim_trans|].
    unfold tstatus, tim. rewrite (r_tims _ _ Hr'). cbn.
    rewrite lookup_insert_eq, lookup_total_insert_eq. split; [by eexists|done].
Qed.

Lemma detached_status : ~ queued (p_set_status t cfg (p_detach lcore_id t (pstatus p t) p)) t.
Proof. intros [c Hin]. apply (detached s p lcore_id t Hr Hc). by exists c. Qed.

Lemma stop_configured :
  exists s', (s1 ← detach lcore_id t (pstatus p t) loc (set_status t cfg s);
     Some (0, set_status t (mkStatus RTE_TIMER_STOP RTE_TIMER_NO_OWNER) s1)) = Some (0, s') /\
    sim t s p s' (p_set_status t (mkStatus RTE_TIMER_STOP RTE_TIMER_NO_OWNER)
                    (p_detach lcore_id t (pstatus p t) p)).
Proof.
  destruct configured_detach as (s1 & -> & Hsim & Hm1 & _). cbn [mbind option_bind].
  eexists. split; [done|]. eapply sim_trans; [exact Hsim|].
  assert (E : forall st st' p, p_set_status t st' (p_set_status t st p) = p_set_status t st' p).
  { intros. unfold p_set_status, p_set_tims, ptim. cbn. by rewrite lookup_total_insert_eq, insert_insert_eq. }
  rewrite <- (E cfg (mkStatus RTE_TIMER_STOP RTE_TIMER_NO_OWNER)). apply sim_set_status; [apply Hsim|done| |done].
  intros c Hin. destruct detached_status. by exists c.
Qed.

Lemma reset_configured lrand48 exp per c fct ar :
  lcore_ok c -> 0 < exp < 2 ^ 64 ->
  exists s', (s1 ← detach lcore_id t (pstatus p t) loc (set_status t cfg s);
     let s2 := set_tims (<[t := mkTimer exp (tstatus s1 t) per fct ar]> (tims s1)) s1 in
     s3 ← timer_add lrand48 lcore_id t c loc s2;
     Some (0, set_status t (mkStatus RTE_TIMER_PENDING (i16 c)) s3)) = Some (0, s') /\
    sim t s p s' (p_arm t exp per fct ar c (p_detach lcore_id t (pstatus p t) p)).
Proof.
  intros Hok Hexp. destruct configured_detach as (s1 & -> & Hsim1 & Hm1 & Hst1). cbn [mbind option_bind].
  pose proof detached_status as Hnq. set (p1 := p_set_status t cfg _) in *. cbv zeta. rewrite Hst1.
  pose proof (rep_set_timer s1 p1 t (mkTimer exp cfg per fct ar) (sim_rep _ _ _ _ _ Hsim1) Hnq (eq_sym Hst1)) as Hr2.
  set (s2 := set_tims _ s1) in *. set (p2 := p_set_tims _ p1) in *.
  assert (Hsim2 : sim t s1 p1 s2 p2)
    by (apply sim_data; [done..|]; apply only_tims; intros; by rewrite lookup_insert_ne).
  destruct (sim_add lrand48 lcore_id s2 p2 t c loc) as (s3 & -> & Hsim3); [done|done|done|..].
  - cbn. rewrite lookup_insert_eq. by eexists.
  - unfold pexpire, ptim. cbn. by rewrite lookup_total_insert_eq.
  - unfold tstatus, tim. cbn. by rewrite lookup_total_insert_eq.
  - intros c' Hn. change (c' ∉ list_lock s1). rewrite (sim_lock _ _ _ _ _ Hsim1). by apply (Hlk c').
  - cbn [mbind option_bind]. eexists. split; [done|]. rewrite i16_lcore by done.
    rewrite <- (p_arm_overwrite t exp per fct ar c (with_status cfg (ptim (p_detach lcore_id t (pstatus p t) p) t))).
    fold (p_set_status t cfg (p_detach lcore_id t (pstatus p t) p)). fold p1.
    rewrite <- (p_arm_steps t exp per fct ar c cfg p1). fold p2.
    eapply sim_trans; [exact Hsim1|]. eapply sim_trans; [exact Hsim2|]. eapply sim_trans; [exact Hsim3|].
    apply sim_set_status; [apply Hsim3|..|done].
    + rewrite (r_tims _ _ (sim_rep _ _ _ _ _ Hsim3)). cbn. rewrite lookup_insert_eq. by eexists.
    + intros c' Hin. left. f_equal. cbn in Hin. rewrite lookup_total_insert in Hin.
      case_decide; [done|]. destruct Hnq. by exists c'.
Qed.

End Configured.

Lemma pupdated_detach lcore_id t st p :
  pupdated (p_detach lcore_id t st p) =
  if (state st =? RTE_TIMER_RUNNING) && (lcore_id <? RTE_MAX_LCORE) then <[lcore_id := 1]> (pupdated p) else pupdated p.
Proof. unfold p_detach. by destruct (_ && _), (state st =? RTE_TIMER_PENDING). Qed.

(** The round robin changes nothing else. *)
Lemma p_choose_fields lcore_role master lcore_id c p c' p' :
  p_choose lcore_role master lcore_id c p = Some (c', p') ->
  queue p' = queue p /\ ptims p' = ptims p /\ pupdated p' = pupdated p /\ pcalls p' = pcalls p.
Proof.
  unfold p_choose. destruct (c =? LCORE_ID_ANY); [destruct (lcore_id <? RTE_MAX_LCORE)|];
    try destruct (rte_get_next_lcore _ _ _ _ _); cbn; intros; by simplify_eq.
Qed.

Section Operations.
Context (lrand48 : Z -> Z * Z) (lcore_role : Z -> Z) (master : Z).

Lemma choose_refines lcore_id c s p c' p' :
  rep s p -> (c = LCORE_ID_ANY \/ lcore_ok c) ->
  p_choose lcore_role master lcore_id c p = Some (c', p') ->
  exists s', choose_lcore lcore_role master lcore_id c s = Some (c', s') /\ rep s' p' /\ lcore_ok c' /\
    list_lock s' = list_lock s /\ sl_next s' = sl_next s /\ ptims p' = ptims p /\ queue p' = queue p.
Proof.
  intros Hr Hen. unfold p_choose, choose_lcore. rewrite (r_prev _ _ Hr).
  destruct (Z.eqb_spec c LCORE_ID_ANY); [destruct (lcore_id <? RTE_MAX_LCORE)|].
  - destruct (rte_get_next_lcore _ _ (pprev_lcore p !!! lcore_id) _ _) as [n|] eqn:E; [|done]. cbn [mbind option_bind].
    intros [= <- <-]. eexists. split; [done|]. split; [by apply rep_set_prev|].
    split; [by apply next_lcore_Some in E as [? _]|done].
  - destruct (rte_get_next_lcore _ _ LCORE_ID_ANY _ _) as [n|] eqn:E; [|done]. cbn [mbind option_bind].
    intros [= <- <-]. exists s. split; [done|]. split; [done|].
    split; [by apply next_lcore_Some in E as [? _]|done].
  - intros [= <- <-]. exists s. split; [done|]. split; [done|]. split; [|done].
    by destruct Hen.
Qed.

Lemma core_reset_refines lcore_id t exp per c fct ar loc s p c' p' :
  rep s p -> is_Some (tims s !! t) -> 0 < exp < 2 ^ 64 -> lockable_from lcore_id loc s ->
  (c = LCORE_ID_ANY \/ lcore_ok c) ->
  p_choose lcore_role master lcore_id c p = Some (c', p') ->
  exists s', __rte_timer_reset lrand48 lcore_role master lcore_id t exp per c fct ar loc s =
      Some (if configurable lcore_id (pstatus p t) then 0 else -1, s') /\
    sim t s p s' (if configurable lcore_id (pstatus p t)
                  then p_arm t exp per fct ar c' (p_detach lcore_id t (pstatus p' t) p') else p').
Proof.
  intros Hr Hm Hexp Hlk Hen Hch. unfold __rte_timer_reset.
  destruct (choose_refines _ _ _ _ _ _ Hr Hen Hch) as (s1 & -> & Hr1 & Hok & Hl1 & Hn1 & Et1 & Eq1).
  cbn [mbind option_bind]. rewrite (set_config_spec lcore_id t s1 p') by done.
  assert (Est : pstatus p' t = pstatus p t) by (unfold pstatus, ptim; by rewrite Et1). rewrite <- Est.
  assert (H1 : sim t s p s1 p').
  { apply sim_data; [done..|]. intros y Hy. by rewrite Et1, Eq1. }
  destruct (configurable lcore_id (pstatus p' t)) eqn:E; [|by exists s1].
  destruct (reset_configured lcore_id t s1 p' loc Hr1) with lrand48 exp per c' fct ar as (s' & E' & Hsim); try done.
  - rewrite (r_tims _ _ Hr1), Et1, <- (r_tims _ _ Hr). done.
  - intros y Hy. rewrite Hl1. by apply Hlk.
  - exists s'. split; [exact E'|]. by eapply sim_trans.
Qed.

Lemma reset_refines lcore_id cur t ticks type c fct ar s p r p' :
  rep s p -> is_Some (tims s !! t) -> u64 (cur + ticks) <> 0 -> list_lock s = ∅ -> 0 <= c ->
  p_reset lcore_role master lcore_id cur t ticks type c fct ar p = Some (r, p') ->
  exists s', rte_timer_reset lrand48 lcore_role master lcore_id cur t ticks type c fct ar s = Some (r, s') /\
    sim t s p s' p'.
Proof.
  intros Hr Hm Hexp Hlk Hc. unfold p_reset, rte_timer_reset.
  destruct (negb (c =? LCORE_ID_ANY) && negb (rte_lcore_is_enabled lcore_role c)) eqn:Eg.
  { intros [= <- <-]. exists s. split; [done|by apply sim_refl]. }
  assert (Hen : c = LCORE_ID_ANY \/ lcore_ok c).
  { destruct (Z.eqb_spec c LCORE_ID_ANY); [by left|right]. apply enabled_ok with lcore_role; [done|].
    unfold enabled. by destruct (rte_lcore_is_enabled lcore_role c). }
  destruct (p_choose _ _ _ _ _) as [[c' p1]|] eqn:Ech; [|done]. cbn [mbind option_bind].
  intros Hp. cbv zeta.
  destruct (core_reset_refines lcore_id t (u64 (cur + ticks)) match type with PERIODICAL => ticks | SINGLE => 0 end
      c fct ar false s p c' p1) as (s' & E & Hsim);
    [done|done|pose proof (u64_range (cur + ticks)); lia|intros y Hy; rewrite Hlk; set_solver|done|done|].
  assert (Est : pstatus p1 t = pstatus p t).
  { destruct (choose_refines _ _ _ _ _ _ Hr Hen Ech) as (_ & _ & _ & _ & _ & _ & Et & _).
    unfold pstatus, ptim. by rewrite Et. }
  rewrite Est in *. exists s'. rewrite E. destruct (configurable lcore_id (pstatus p t)); by simplify_eq.
Qed.

Lemma stop_refines lcore_id t s p :
  rep s p -> is_Some (tims s !! t) -> list_lock s = ∅ ->
  exists s', rte_timer_stop lcore_id t s = Some (fst (p_stop lcore_id t p), s') /\
    sim t s p s' (snd (p_stop lcore_id t p)).
Proof.
  intros Hr Hm Hlk. unfold rte_timer_stop, p_stop. rewrite (set_config_spec lcore_id t s p) by done.
  destruct (configurable lcore_id (pstatus p t)) eqn:E.
  - destruct (stop_configured lcore_id t s p false Hr Hm) as (s' & E' & Hsim); [|done|].
    + intros y Hy. rewrite Hlk. set_solver.
    + exists s'. split; [exact E'|done].
  - exists s. split; [done|by apply sim_refl].
Qed.

Lemma op_refines lcore_id waiting o s p p' :
  rep s p -> list_lock s = ∅ -> p_op lcore_role master lcore_id waiting o p = Some p' ->
  (op_timer o ∉ waiting) /\
  exists s', exec_op lrand48 lcore_role master lcore_id o s = Some s' /\ sim (op_timer o) s p s' p'.
Proof.
  intros Hr Hlk. unfold p_op, op_allowed.
  destruct (bool_decide_reflect (op_timer o ∉ waiting)) as [Hw|]; [|done].
  destruct (bool_decide_reflect (is_Some (ptims p !! op_timer o))) as [Hm|]; [|done].
  destruct (Z.eqb_spec (op_expire o) 0) as [|Hexp]; [done|].
  destruct (Z.leb_spec 0 (op_lcore o)) as [Hc|]; [|done]. cbn [negb andb]. rewrite <- (r_tims _ _ Hr) in Hm.
  intros Hp. split; [done|]. destruct o as [cur t ticks type c fct ar|t]; cbn [op_timer op_lcore op_expire exec_op] in *.
  - destruct (p_reset _ _ _ _ _ _ _ _ _ _ _) as [[r p1]|] eqn:E; [|done]. injection Hp as ->.
    destruct (reset_refines _ _ _ _ _ _ _ _ _ _ _ _ Hr Hm Hexp Hlk Hc E) as (s' & -> & Hsim). by exists s'.
  - injection Hp as <-. destruct (stop_refines lcore_id t s p Hr Hm Hlk) as (s' & -> & Hsim). by exists s'.
Qed.

End Operations.
