(* ===== verification/TimerManage.v ===== *)
(** * Timers: running the expired timers

    [rte_timer_manage] breaks the skip list at the current time, marks the
    expired timers as running, putting back those that another core is
    configuring, and calls the callbacks in order of expiry. *)
From stdpp Require Import sorting.
From S2P Require Import Prelude Bits Timer TimerLists TimerSkip TimerOps TimerSpec TimerRefine.

(** ** Breaking the list *)

Definition cut_nx (c : Z) (prev : gmap Z node) (i : Z) (nx : gmap (node * Z) Z) : gmap (node * Z) Z :=
  store None (prev !!! i, i) (store (nx !! (prev !!! i, i)) (pending_head c, i) nx).

Lemma cut_lookup_other c prev k m x j : j <> k -> cut_nx c prev k m !! (x, j) = m !! (x, j).
Proof. intros. unfold cut_nx. by rewrite !lookup_store, !decide_False by naive_solver. Qed.

Lemma cut_loop_lookup c prev d nx x j :
  0 <= d ->
  for_down (Z.to_nat d) (d - 1) (cut_nx c prev) nx !! (x, j) =
  if decide (0 <= j < d) then cut_nx c prev j nx !! (x, j) else nx !! (x, j).
Proof.
  intros Hl. rewrite for_down_levels.
  - repeat case_decide; done || lia.
  - intros. by apply cut_lookup_other.
  - intros k m m' Hm y. unfold cut_nx. rewrite !lookup_store. by rewrite !Hm.
Qed.

(** The state with its links and depths replaced. *)
Definition relinked (nx : gmap (node * Z) Z) (d : gmap Z Z) (s : tstate) : tstate :=
  mkTstate nx (tims s) (head_expire s) d (prev_lcore s) (updated s) (list_lock s) (seed s) (calls s).

Lemma cut_eq c prev i s :
  cut c prev i s = relinked (cut_nx c prev i (sl_next s))
    (match sl_next s !! (prev !!! i, i) with
     | None => <[c := depth s c - 1]> (curr_skiplist_depth s) | Some _ => curr_skiplist_depth s end) s.
Proof.
  unfold cut, cut_nx, next, set_next. cbn. rewrite lookup_store.
  case_decide; by destruct (sl_next s !! (prev !!! i, i)).
Qed.

(** The depth ends above the levels whose rest is empty. *)
Lemma cut_loop_spec c prev (rest : Z -> list Z) n i s :
  i = Z.of_nat n - 1 -> Z.of_nat n <= depth s c ->
  (forall j, 0 <= j <= i -> sl_next s !! (prev !!! j, j) = head (rest j)) ->
  (forall j, 0 <= j -> rest (j + 1) `sublist_of` rest j) ->
  (forall j, depth s c <= j -> rest j = []) ->
  (Z.of_nat n < depth s c -> rest (depth s c - 1) <> []) ->
  exists d, for_down n i (cut c prev) s = relinked (for_down n i (cut_nx c prev) (sl_next s)) d s /\
    0 <= d !!! c <= depth s c /\ (forall j, d !!! c <= j -> rest j = []) /\
    (forall c', c' <> c -> d !!! c' = depth s c').
Proof.
  intros Hi Hn Hp Hsub. revert i s Hi Hn Hp.
  induction n as [|n IH]; intros i s Hi Hn Hp Htop Hne; cbn [for_down].
  - exists (curr_skiplist_depth s). fold (depth s c). split; [by destruct s|]. by repeat split; [lia..|].
  - rewrite cut_eq, Hp by lia. set (d1 := match head (rest i) with Some _ => _ | None => _ end).
    set (s1 := relinked _ d1 s).
    assert (Hd1 : depth s1 c = if decide (rest i = []) then depth s c - 1 else depth s c).
    { unfold depth at 1. cbn. unfold d1. destruct (rest i); cbn; [by rewrite lookup_total_insert_eq|done]. }
    assert (Hoth : forall c', c' <> c -> depth s1 c' = depth s c').
    { intros c' Hc'. unfold depth at 1. cbn. unfold d1. destruct (rest i); cbn; [by rewrite lookup_total_insert_ne|done]. }
    assert (Hsame : rest i = [] -> depth s c = Z.of_nat (S n)).
    { intros Ei. destruct (decide (Z.of_nat (S n) < depth s c)) as [Hlt|]; [|lia]. destruct (Hne Hlt).
      apply sublist_nil_r. rewrite <- Ei. apply levels_sublist; [done|lia]. }
    destruct (IH (i - 1) s1) as (d & E & Hd & Hr & Ho); [lia|..].
    + rewrite Hd1. case_decide as Ei; [rewrite Hsame by done|]; lia.
    + intros j Hj. cbn. rewrite cut_lookup_other by lia. apply Hp. lia.
    + intros j Hj. rewrite Hd1 in Hj. case_decide as Ei; [|by apply Htop].
      destruct (decide (depth s c <= j)); [by apply Htop|]. rewrite (Hsame Ei) in *.
      by replace j with i by lia.
    + intros Hlt. rewrite Hd1 in *. case_decide as Ei; [rewrite Hsame in Hlt by done; lia|].
      destruct (decide (Z.of_nat (S n) < depth s c)); [by apply Hne|]. by replace (depth s c - 1) with i by lia.
    + exists d. rewrite E. split; [done|]. split; [rewrite Hd1 in Hd; case_decide; lia|].
      split; [done|]. intros c' Hc'. rewrite Ho by done. by apply Hoth.
Qed.

Section Cut.
Context (s : tstate) (c : Z) (ls : Z -> list Z) (prev : gmap Z node) (cur : Z).
Context (Hsk : skiplist s c ls) (Hne : upto (texpire s) cur (ls 0) <> []).
Context (Hp : forall i, 0 <= i <= depth s c ->
  prev !!! i = tail_node (pending_head c) (upto (texpire s) cur (ls i))).

Let early i := upto (texpire s) cur (ls i).
Let rest i := after (texpire s) cur (ls i).
Let nx := for_down (Z.to_nat (depth s c)) (depth s c - 1) (cut_nx c prev) (sl_next s).

(** What the levels hold afterwards: a level without an expired entry is
    dropped. *)
Let left_over i := if decide (early i = []) then [] else rest i.

Lemma cut_split i : 0 <= i -> ls i = early i ++ rest i.
Proof. intros. apply upto_after. by apply sk_level_sorted with c. Qed.

Lemma cut_nodup i : 0 <= i -> NoDup (early i ++ rest i).
Proof. intros. rewrite <- cut_split by done. by apply sk_level_nodup with s c. Qed.

Lemma cut_chain i : 0 <= i < MAX_SKIPLIST_DEPTH ->
  chain (sl_next s) i (sl_next s !! (pending_head c, i)) (early i ++ rest i).
Proof. intros. rewrite <- cut_split by lia. by apply Hsk. Qed.

Lemma cut_depth_pos : 0 < depth s c.
Proof.
  pose proof (sk_depth _ _ _ Hsk). destruct (decide (0 < depth s c)); [done|].
  destruct Hne. by rewrite (sk_top _ _ _ Hsk) by lia.
Qed.

Lemma cut_inside x j : 0 <= j < depth s c -> nx !! (x, j) = cut_nx c prev j (sl_next s) !! (x, j).
Proof. intros. unfold nx. by rewrite cut_loop_lookup, decide_True by lia. Qed.

Lemma cut_outside x j : ~ (0 <= j < depth s c) -> nx !! (x, j) = sl_next s !! (x, j).
Proof. pose proof cut_depth_pos. intros. unfold nx. by rewrite cut_loop_lookup, decide_False by lia. Qed.

Lemma cut_sub i : 0 <= i -> left_over (i + 1) `sublist_of` left_over i.
Proof.
  intros Hi. assert (He : early (i + 1) `sublist_of` early i) by (apply filter_sublist; by apply Hsk).
  unfold left_over. destruct (decide (early (i + 1) = [])); [apply sublist_nil_l|].
  destruct (decide (early i = [])) as [E|]; [rewrite E in He; by apply sublist_nil_r in He|].
  apply filter_sublist. by apply Hsk.
Qed.

Lemma left_over_sub : left_over 0 `sublist_of` ls 0.
Proof. unfold left_over. case_decide; [apply sublist_nil_l|apply sublist_filter]. Qed.

Lemma cut_skiplist d :
  0 <= d !!! c <= depth s c -> (forall j, d !!! c <= j -> rest j = []) ->
  skiplist (relinked nx d s) c left_over.
Proof.
  intros Hd Hr. pose proof (sk_depth _ _ _ Hsk). constructor.
  - unfold depth. cbn. lia.
  - intros i Hi. unfold next. cbn [sl_next relinked]. destruct (decide (i < depth s c)).
    + rewrite cut_inside by lia. apply (chain_frame (cut_nx c prev i (sl_next s))); [intros; apply cut_inside; lia|].
      unfold cut_nx. rewrite Hp by lia. apply chain_cut_rest; [apply cut_nodup; lia|by apply cut_chain].
    + rewrite cut_outside by lia. unfold left_over, early, rest. rewrite (sk_top _ _ _ Hsk) by lia.
      pose proof (sk_chain _ _ _ Hsk i Hi) as Hc. by rewrite (sk_top _ _ _ Hsk) in Hc by lia.
  - apply cut_sub.
  - intros i Hi. unfold left_over. rewrite Hr by exact Hi. by case_decide.
  - apply (sorted_ext (texpire s)); [done|]. eapply sorted_sublist; [apply left_over_sub|apply Hsk].
  - eapply sublist_NoDup; [apply Hsk|apply left_over_sub].
  - intros t Ht. apply (sk_mem _ _ _ Hsk). by eapply elem_of_sublist; [|apply left_over_sub].
Qed.

Lemma cut_frame x i :
  x <> pending_head c -> (forall y, y ∈ ls 0 -> x <> timer_at y) -> nx !! (x, i) = sl_next s !! (x, i).
Proof.
  intros Hx Hl. destruct (decide (0 <= i < depth s c)); [|by apply cut_outside].
  rewrite cut_inside by done. unfold cut_nx. rewrite !lookup_store, !decide_False; [done|naive_solver|].
  intros [= E']. rewrite Hp in E' by lia. fold (early i) in E'.
  destruct (tail_node_elem (pending_head c) (early i)) as [E0|(z & Hz & Ez)].
  - rewrite E0 in E'. by apply Hx.
  - apply (Hl z); [|congruence]. apply elem_upto in Hz as [_ Hz].
    eapply elem_of_sublist; [exact Hz|]. apply sk_level_sub with s c; [done|lia].
Qed.

Lemma cut_spec :
  exists s' ls', for_down (Z.to_nat (depth s c)) (depth s c - 1) (cut c prev) s = s' /\
    skiplist s' c ls' /\ ls' 0 = after (texpire s) cur (ls 0) /\
    chain (sl_next s') 0 (head (ls 0)) (upto (texpire s) cur (ls 0)) /\ touches c (ls 0) s s'.
Proof.
  pose proof (sk_depth _ _ _ Hsk). pose proof cut_depth_pos.
  destruct (cut_loop_spec c prev rest (Z.to_nat (depth s c)) (depth s c - 1) s) as (d & -> & Hd1 & Hr & Ho);
    [lia|lia|..].
  - intros j Hj. rewrite Hp by lia. eapply chain_head, chain_suffix, cut_chain. lia.
  - intros j Hj. apply filter_sublist. by apply Hsk.
  - intros j Hj. unfold rest. by rewrite (sk_top _ _ _ Hsk) by lia.
  - lia.
  - fold nx. eexists _, left_over. split; [reflexivity|]. split; [by apply cut_skiplist|].
    split; [unfold left_over; by rewrite decide_False|]. split.
    + apply (chain_frame (cut_nx c prev 0 (sl_next s))); [intros; apply cut_inside; lia|].
      unfold cut_nx. rewrite Hp by lia. rewrite (cut_split 0) by lia.
      replace (head (early 0 ++ rest 0)) with (head (early 0)) by (unfold early; by destruct (upto _ _ _)).
      rewrite <- cut_split by done.
      apply (chain_cut_first _ _ _ _ (rest 0)); [by apply cut_nodup|by apply cut_chain].
    + constructor; try done. intros. by apply cut_frame.
Qed.

End Cut.

(** ** From pending to running *)

(** [touches], with the timers' fields changed as well. *)
Definition retouches (c : Z) (l : list Z) (s s' : tstate) : Prop := touches c l (set_tims (tims s') s) s'.

Lemma retouches_trans c l s1 s2 s3 :
  retouches c l s1 s2 -> retouches c l s2 s3 -> retouches c l s1 s3.
Proof.
  intros [A1 A2 A3 A4 A5 A6 A7 A8] [B1 B2 B3 B4 B5 B6 B7 B8]. constructor; cbn in *; try congruence.
  - intros c' Hc. rewrite B6 by done. by apply A6.
  - intros c' Hc. rewrite B7 by done. by apply A7.
  - intros x i Hx Hl. rewrite B8 by done. by apply A8.
Qed.

Lemma touches_mono c l l' s s' : l ⊆ l' -> touches c l s s' -> touches c l' s s'.
Proof. intros Hl []. constructor; auto. Qed.

Lemma touches_retouches c l s s' : touches c l s s' -> retouches c l s s'.
Proof. intros []. by constructor. Qed.

Definition mark (c : Z) (m : gmap Z rte_timer) (l : list Z) : gmap Z rte_timer :=
  foldl (fun m t => <[t := with_status (mkStatus RTE_TIMER_RUNNING (i16 c)) (m !!! t)]> m) m l.

Lemma place_mid ex t l1 l2 :
  Forall (fun y => ex y <= ex t) l1 -> Forall (fun y => ex t < ex y) l2 ->
  place ex t (l1 ++ l2) = l1 ++ t :: l2.
Proof.
  intros H1 H2. unfold place. rewrite upto_app, upto_all, upto_none, app_nil_r by done.
  f_equal. f_equal. unfold after. rewrite filter_app.
  fold (after ex (ex t) l1) (after ex (ex t) l2). by rewrite after_none, after_all.
Qed.

Lemma store_pprev_spec s first run rem t p :
  chain (sl_next s) 0 first (run ++ t :: rem) -> NoDup run -> t ∉ run ->
  p = next s (timer_at t) 0 ->
  (forall y, y ∈ rem -> y ∉ run) ->
  exists first' s', store_pprev (last run) p first s = (first', s') /\
    chain (sl_next s') 0 first' (run ++ rem) /\
    tims s' = tims s /\ (forall c, depth s' c = depth s c) /\
    (forall x i, (forall y, y ∈ run -> x <> timer_at y) -> next s' x i = next s x i) /\
    s' = set_sl_next (sl_next s') s.
Proof.
  intros Hc Hnd Ht -> Hdis. destruct run as [|y l _] using rev_ind.
  - destruct Hc as [-> Hc]. eexists _, s. split; [done|]. by repeat split; [|destruct s].
  - rewrite last_snoc. eexists _, _. split; [done|]. split; [|repeat split].
    + destruct (l ++ [y]) as [|z l'] eqn:E; [by destruct l|]. destruct Hc as [-> Hc]. split; [done|].
      assert (Ey : timer_at y = tail_node (timer_at z) l').
      { change (tail_node (timer_at z) l') with (tail_node (timer_at z) (z :: l')). rewrite <- E. by rewrite tail_node_snoc. }
      unfold set_next. cbn [sl_next set_sl_next]. rewrite Ey.
      apply NoDup_cons in Hnd as [Hz Hnd]. apply (chain_redirect _ _ _ _ (t :: rem)).
      * done.
      * rewrite list_elem_of_fmap. naive_solver.
      * exact Hc.
      * apply chain_suffix in Hc as [_ Hc]. eapply chain_frame; [|exact Hc]. intros x Hx.
        rewrite lookup_store, decide_False; [done|]. rewrite <- Ey. intros [= ->].
        apply (Hdis x Hx). rewrite <- E. set_solver.
    + intros x i Hx. unfold next, set_next. cbn. rewrite lookup_store, decide_False; [done|].
      intros [= <- <-]. apply (Hx y); [set_solver|done].
Qed.

Definition is_pending (m : gmap Z rte_timer) (y : Z) : Prop := state (status (m !!! y)) = RTE_TIMER_PENDING.

#[export] Instance is_pending_dec m y : Decision (is_pending m y).
Proof. unfold is_pending. apply _. Defined.

Lemma listed_ext s s' c q :
  listed s c q -> (forall c, depth s' c = depth s c) ->
  (forall i, next s' (pending_head c) i = next s (pending_head c) i) ->
  (forall t i, t ∈ q -> next s' (timer_at t) i = next s (timer_at t) i) ->
  (forall t, t ∈ q -> is_Some (tims s' !! t) /\ texpire s' t = texpire s t) -> listed s' c q.
Proof. intros (ls & Hsk & <-) Hd Hh Hn Hm. exists ls. split; [|done]. by eapply skiplist_ext. Qed.

Lemma listed_member s c q t : listed s c q -> t ∈ q -> is_Some (tims s !! t) /\ 0 < texpire s t < 2 ^ 64.
Proof. intros (ls & Hsk & <-) Ht. by apply (sk_mem _ _ _ Hsk). Qed.

Lemma set_status_fields s t st y :
  is_Some (tims s !! y) -> is_Some (tims (set_status t st s) !! y) /\ texpire (set_status t st s) y = texpire s y.
Proof.
  intros Hy. unfold texpire, tim, set_status. cbn. rewrite lookup_insert, lookup_total_insert.
  case_decide; [subst; by split; [eexists|]|done].
Qed.

(** The loop state: [run] is marked, [rem] is to come, [cfg] has been put back
    into the list in front of the timers [aft] that are not due. *)
Record marking (s : tstate) (c : Z) (first : option Z) (run rem cfg aft : list Z) : Prop := {
  mk_listed : listed s c (cfg ++ aft);
  mk_chain : chain (sl_next s) 0 first (run ++ rem);
  mk_nodup : NoDup (run ++ rem);
  mk_apart : forall y, y ∈ run ++ rem -> y ∉ cfg ++ aft;
  mk_mem : forall y, y ∈ rem -> is_Some (tims s !! y) /\ 0 < texpire s y < 2 ^ 64;
  mk_sorted : StronglySorted (by_key (texpire s)) (cfg ++ rem);
  mk_later : forall x y, x ∈ rem -> y ∈ aft -> texpire s x < texpire s y }.

(** A pending timer becomes running and stays in the run list. *)
Lemma marking_run s c first run t rem cfg aft st :
  marking s c first run (t :: rem) cfg aft ->
  marking (set_status t st s) c first (run ++ [t]) rem cfg aft.
Proof.
  intros [Hl Hc Hnd Hap Hm Hs Hlt].
  assert (Hex : forall y, is_Some (tims s !! y) -> texpire (set_status t st s) y = texpire s y)
    by (intros; by apply set_status_fields).
  assert (Hcm : forall y, y ∈ cfg ++ aft -> is_Some (tims s !! y)) by (intros; by apply (listed_member _ _ _ _ Hl)).
  constructor; rewrite <- ?app_assoc; try done.
  - apply (listed_ext s); [done..|]. intros y Hy. apply set_status_fields. by apply Hcm.
  - intros y Hy. rewrite Hex by (apply Hm; by right). split; [|apply Hm; by right].
    apply set_status_fields. apply Hm. by right.
  - apply (sorted_ext (texpire s)).
    + intros y Hy. symmetry. apply Hex. apply elem_of_app in Hy as [?|?]; [apply Hcm; set_solver|apply Hm; by right].
    + eapply sorted_sublist; [|exact Hs]. apply sublist_app; [done|by apply sublist_cons].
  - intros x y Hx Hy. rewrite !Hex; [apply Hlt; [by right|done]|apply Hcm; set_solver|apply Hm; by right].
Qed.

(** A timer under configuration goes back into the list. *)
Lemma marking_back lrand48 s c first run t rem cfg aft :
  marking s c first run (t :: rem) cfg aft ->
  exists first' s1 s2, store_pprev (last run) (next s (timer_at t) 0) first s = (first', s1) /\
    timer_add lrand48 c t c true s1 = Some s2 /\
    marking s2 c first' run rem (cfg ++ [t]) aft /\
    tims s2 = tims s /\ touches c (run ++ t :: cfg ++ aft) s s2.
Proof.
  intros [Hl Hc Hnd Hap Hm Hs Hlt].
  pose proof Hnd as (Hnr & Hdis & Hndt)%NoDup_app. apply NoDup_cons in Hndt as [Htr Hndr].
  assert (Htrun : t ∉ run) by (intros ?; by apply (Hdis t); [|left]).
  destruct (store_pprev_spec s first run rem t _ Hc Hnr Htrun eq_refl) as (first' & s1 & E1 & Hc1 & Et1 & Hd1 & Hn1 & Es1).
  { intros y Hy Hrun. apply (Hdis y Hrun). by right. }
  assert (Hex1 : forall y, texpire s1 y = texpire s y) by (intros; unfold texpire, tim; by rewrite Et1).
  assert (Hl1 : listed s1 c (cfg ++ aft)).
  { apply (listed_ext s); [done|done|..].
    - intros i. apply Hn1. done.
    - intros y i Hy. apply Hn1. intros z Hz [= ->]. apply (Hap z); [set_solver|done].
    - intros y Hy. rewrite Et1, Hex1. split; [|done]. by apply (listed_member _ _ _ _ Hl). }
  destruct (timer_add_spec lrand48 c s1 c (cfg ++ aft) t true) as (s2 & E2 & [Hl2 _] & Hto2).
  { done. } { apply Hap. set_solver. } { rewrite Et1. apply Hm. left. } { rewrite Hex1. apply Hm. left. }
  { unfold lockable. by rewrite Z.eqb_refl. }
  assert (Hpl : place (texpire s1) t (cfg ++ aft) = (cfg ++ [t]) ++ aft).
  { rewrite <- app_assoc. apply StronglySorted_app in Hs as (Hs & _). apply place_mid; apply Forall_forall; intros y Hy; rewrite !Hex1.
    - apply (Hs y t Hy). left.
    - apply Hlt; [left|done]. }
  rewrite Hpl in Hl2. exists first', s1, s2. split; [done|]. split; [done|].
  assert (Et2 : tims s2 = tims s) by (by rewrite (to_tims _ _ _ _ Hto2)).
  assert (Hex2 : forall y, texpire s2 y = texpire s y) by (intros; unfold texpire, tim; by rewrite Et2).
  split; [|split; [done|]].
  - constructor.
    + done.
    + eapply chain_frame; [|exact Hc1]. intros y Hy. apply (to_next _ _ _ _ Hto2); [done|].
      intros z Hz [= ->]. apply elem_of_cons in Hz as [->|Hz]; [by apply elem_of_app in Hy as [?|?]|].
      apply (Hap z); [set_solver|done].
    + apply NoDup_app. split; [done|]. split; [|done]. intros y Hy Hy'. apply (Hdis y Hy). by right.
    + intros y Hy. rewrite <- app_assoc, elem_of_app. cbn. rewrite elem_of_cons.
      assert (y <> t) by (intros ->; by apply elem_of_app in Hy as [?|?]).
      assert (y ∉ cfg ++ aft) by (apply Hap; set_solver). set_solver.
    + intros y Hy. rewrite Et2, Hex2. apply Hm. by right.
    + rewrite <- app_assoc. apply (sorted_ext (texpire s)); [done|exact Hs].
    + intros x y Hx Hy. rewrite !Hex2. apply Hlt; [by right|done].
  - eapply touches_trans; [|eapply touches_mono; [|exact Hto2]; set_solver]. rewrite Es1.
    constructor; try done. intros x i Hx Hy. unfold next. cbn. change (next s1 x i = next s x i). apply Hn1. set_solver.
Qed.

Lemma mark_app c m l1 l2 : mark c m (l1 ++ l2) = mark c (mark c m l1) l2.
Proof. apply foldl_app. Qed.

Lemma retouches_refl c l s : retouches c l s s.
Proof. by constructor. Qed.

Lemma retouches_mono c l l' s s' : l ⊆ l' -> retouches c l s s' -> retouches c l' s s'.
Proof. apply touches_mono. Qed.

Lemma retouches_set_status c l t st s : retouches c l s (set_status t st s).
Proof. by constructor. Qed.

Lemma set_running_spec c t s :
  timer_set_running_state c t s =
  if decide (is_pending (tims s) t) then (0, set_status t (mkStatus RTE_TIMER_RUNNING (i16 c)) s) else (-1, s).
Proof.
  unfold timer_set_running_state. fold (tstatus s t). unfold is_pending. change (status (tims s !!! t)) with (tstatus s t).
  destruct (Z.eqb_spec (state (tstatus s t)) RTE_TIMER_PENDING); case_decide; done.
Qed.

Lemma to_running_spec lrand48 c rem fuel s first run cfg aft :
  (length rem <= fuel)%nat -> marking s c first run rem cfg aft ->
  let go := filter (is_pending (tims s)) rem in
  let back := filter (fun y => ~ is_pending (tims s) y) rem in
  exists first' s', to_running lrand48 fuel c (head rem) first (last run) s = Some (first', s') /\
    marking s' c first' (run ++ go) [] (cfg ++ back) aft /\
    tims s' = mark c (tims s) go /\ retouches c (run ++ rem ++ cfg ++ aft) s s'.
Proof.
  revert fuel s first run cfg. induction rem as [|t rem IH]; intros fuel s first run cfg Hf Hmk go back.
  { exists first, s. split; [by destruct fuel|]. unfold go, back. cbn. rewrite !app_nil_r.
    split; [by destruct Hmk; constructor|]. split; [done|]. apply retouches_refl. }
  destruct fuel as [|fuel]; cbn in Hf; [lia|]. cbn [head to_running].
  assert (Hnx : next s (timer_at t) 0 = head rem).
  { pose proof (mk_chain _ _ _ _ _ _ _ Hmk) as Hc. destruct run as [|z run].
    - destruct Hc as [_ Hc]. by apply chain_head in Hc.
    - destruct Hc as [_ Hc]. apply chain_suffix in Hc as [_ Hc]. by apply chain_head in Hc. }
  assert (Htr : forall y, y ∈ rem -> y <> t).
  { intros y Hy ->. pose proof (mk_nodup _ _ _ _ _ _ _ Hmk) as (_ & _ & [? _]%NoDup_cons)%NoDup_app. done. }
  rewrite set_running_spec. unfold go, back. rewrite !filter_cons.
  destruct (decide (is_pending (tims s) t)) as [Hpt|Hpt].
  - rewrite decide_False by naive_solver. rewrite Z.eqb_refl, Hnx.
    set (st := mkStatus RTE_TIMER_RUNNING (i16 c)).
    destruct (IH fuel (set_status t st s) first (run ++ [t]) cfg) as (first' & s' & E & Hmk' & Et & Hto);
      [lia|by apply marking_run|].
    assert (Hpe : forall y, y ∈ rem -> is_pending (tims (set_status t st s)) y <-> is_pending (tims s) y).
    { intros y Hy. unfold is_pending. cbn. by rewrite lookup_total_insert_ne by (apply not_eq_sym, Htr, Hy). }
    rewrite last_snoc in E. rewrite (filter_ext_on _ (is_pending (tims s)) rem Hpe) in Hmk', Et.
    rewrite (filter_ext_on (fun y => ~ is_pending (tims (set_status t st s)) y) (fun y => ~ is_pending (tims s) y) rem)
      in Hmk' by (intros y Hy; by rewrite (Hpe y Hy)).
    exists first', s'. split; [done|]. rewrite <- app_assoc in Hmk'. split; [done|]. split; [done|].
    eapply retouches_trans; [apply retouches_set_status|]. eapply retouches_mono; [|exact Hto]. set_solver.
  - rewrite decide_True by done. change (-1 =? 0) with false. cbv iota.
    destruct (marking_back lrand48 s c first run t rem cfg aft Hmk) as (first1 & s1 & s2 & E1 & E2 & Hmk2 & Et2 & Hto2).
    rewrite E1, E2. cbn [mbind option_bind]. rewrite Hnx.
    destruct (IH fuel s2 first1 run (cfg ++ [t]) ltac:(lia) Hmk2) as (first' & s' & E & Hmk' & Et & Hto).
    rewrite Et2 in Hmk', Et. exists first', s'. split; [done|]. rewrite <- app_assoc in Hmk'. split; [done|].
    split; [done|]. eapply retouches_trans; [eapply retouches_mono; [|by apply touches_retouches]; set_solver|].
    eapply retouches_mono; [|exact Hto]. set_solver.
Qed.

(** ** The part under the lock *)

Lemma mark_lookup c l m y :
  NoDup l -> mark c m l !! y =
  if decide (y ∈ l) then Some (with_status (mkStatus RTE_TIMER_RUNNING (i16 c)) (m !!! y)) else m !! y.
Proof.
  revert m. induction l as [|t l IH]; intros m Hnd; [by rewrite decide_False by apply not_elem_of_nil|].
  apply NoDup_cons in Hnd as [Ht Hnd].
  change (mark c m (t :: l)) with (mark c (<[t := with_status (mkStatus RTE_TIMER_RUNNING (i16 c)) (m !!! t)]> m) l).
  rewrite IH by done.
  destruct (decide (y = t)) as [->|Hne].
  - rewrite decide_False, decide_True by (done || left). by rewrite lookup_insert_eq.
  - rewrite lookup_insert_ne, lookup_total_insert_ne by done.
    destruct (decide (y ∈ l)); [rewrite decide_True by (by right)|rewrite decide_False by set_solver]; done.
Qed.

Lemma mark_fields c l s s' :
  NoDup l -> tims s' = mark c (tims s) l ->
  (forall y, y ∈ l -> is_Some (tims s !! y)) ->
  (forall y, is_Some (tims s' !! y) <-> is_Some (tims s !! y)) /\ (forall y, texpire s' y = texpire s y) /\
  (forall y, tstatus s' y = if decide (y ∈ l) then mkStatus RTE_TIMER_RUNNING (i16 c) else tstatus s y).
Proof.
  intros Hnd E Hm. assert (Hlt : forall y, tims s' !!! y =
    if decide (y ∈ l) then with_status (mkStatus RTE_TIMER_RUNNING (i16 c)) (tims s !!! y) else tims s !!! y).
  { intros y. rewrite lookup_total_alt, E, mark_lookup by done. case_decide; [done|]. by rewrite <- lookup_total_alt. }
  split; [|split]; intros y.
  - rewrite E, mark_lookup by done. case_decide; [|done]. split; [by auto|by eexists].
  - unfold texpire, tim. rewrite Hlt. by case_decide.
  - unfold tstatus, tim. rewrite Hlt. by case_decide.
Qed.

Lemma p_mark c l p :
  lcore_ok c -> foldl (fun p t => p_set_status t (mkStatus RTE_TIMER_RUNNING c) p) p l = p_set_tims (mark c (ptims p) l) p.
Proof.
  intros Hc. revert p. induction l as [|t l IH]; intros p; [by destruct p|]. cbn [foldl]. rewrite IH.
  unfold mark. cbn [foldl]. by rewrite i16_lcore.
Qed.

(** The due timers are the pending ones of the early part. *)
Lemma take_lists s p c cur :
  rep s p -> lcore_ok c ->
  let q := queue p !!! c in
  filter (fun t => due p cur t = true) q = filter (is_pending (tims s)) (upto (texpire s) cur q) /\
  filter (fun t => due p cur t = false) q =
    filter (fun t => ~ is_pending (tims s) t) (upto (texpire s) cur q) ++ after (texpire s) cur q.
Proof.
  intros Hr Hc q. destruct (r_pending _ _ Hr c Hc) as [(ls & Hsk & Eq) _]. fold q in Eq.
  assert (Hs : StronglySorted (by_key (texpire s)) q) by (rewrite <- Eq; apply Hsk).
  assert (Hdue : forall t, due p cur t = true <-> texpire s t <= cur /\ is_pending (tims s) t).
  { intros t. unfold due, is_pending. rewrite andb_true_iff, Z.leb_le, Z.eqb_eq, (rep_texpire _ _ _ Hr).
    change (status (tims s !!! t)) with (tstatus s t). by rewrite (rep_tstatus _ _ _ Hr). }
  split.
  - rewrite (upto_after _ cur q Hs) at 1. rewrite filter_app.
    rewrite (filter_ext_on _ (is_pending (tims s)) (upto (texpire s) cur q))
      by (intros y [? _]%elem_upto; rewrite Hdue; tauto).
    rewrite (filter_nil_on _ (after (texpire s) cur q)), app_nil_r; [done|].
    intros y [? _]%elem_after. rewrite Hdue. lia.
  - rewrite (upto_after _ cur q Hs) at 1. rewrite filter_app. f_equal.
    + apply filter_ext_on. intros y [? _]%elem_upto. rewrite <- not_true_iff_false, Hdue. tauto.
    + apply filter_id_on. intros y [? _]%elem_after. rewrite <- not_true_iff_false, Hdue. lia.
Qed.

Lemma rep_queue_ext s p p' :
  rep s p -> (forall c, queue p' !!! c = queue p !!! c) -> ptims p' = ptims p ->
  pprev_lcore p' = pprev_lcore p -> pupdated p' = pupdated p -> pcalls p' = pcalls p -> rep s p'.
Proof.
  intros [] Hq Et Ep Eu Ec. constructor; try congruence.
  - intros c Hc. rewrite Hq. auto.
  - intros c c' t. rewrite !Hq. eauto.
  - intros c t. rewrite Hq. auto.
  - auto.
Qed.

Lemma rep_taken s s' p c q' run :
  rep s p -> lcore_ok c -> retouches c (queue p !!! c) s s' -> pending s' c q' -> NoDup run ->
  (forall y, y ∈ q' -> y ∈ queue p !!! c) -> (forall y, y ∈ run -> y ∈ queue p !!! c /\ y ∉ q') ->
  tims s' = mark c (tims s) run ->
  rep s' (p_set_tims (mark c (ptims p) run) (p_set_queue c q' p)).
Proof.
  intros Hr Hc Hto Hp' Hnd Hsub Hrun Et.
  destruct (mark_fields c run s s' Hnd Et) as (Hms & Hex & Hst).
  { intros y [Hy _]%Hrun. by apply (pending_member _ _ _ _ (r_pending _ _ Hr c Hc)). }
  assert (Hlook : forall c', queue (p_set_queue c q' p) !!! c' = if decide (c' = c) then q' else queue p !!! c').
  { intros c'. cbn. rewrite lookup_total_insert. repeat case_decide; by subst. }
  assert (Hsub' : forall c' y, y ∈ queue (p_set_queue c q' p) !!! c' -> y ∈ queue p !!! c').
  { intros c' y. rewrite Hlook. case_decide; [subst; apply Hsub|done]. }
  constructor.
  - intros c' Hc'. change (pending s' c' (queue (p_set_queue c q' p) !!! c')). rewrite Hlook. case_decide as E; [by subst|].
    eapply (pending_frame _ _ (set_tims (tims s') s)); [exact Hto|done|..].
    + intros t Ht Hin. by apply E, (r_disjoint _ _ Hr c' c t).
    + apply (pending_ext s); [by apply Hr|done..|]. intros t Ht. cbn. rewrite Hms. split; [|apply Hex].
      by apply (pending_member _ _ _ _ (r_pending _ _ Hr c' Hc')).
  - intros c1 c2 t H1%Hsub' H2%Hsub'. by apply (r_disjoint _ _ Hr c1 c2 t).
  - intros c' t Ht. change (t ∈ queue (p_set_queue c q' p) !!! c') in Ht. rewrite Hst, decide_False.
    { apply (r_status _ _ Hr). by apply Hsub'. }
    intros [Hin Hnq]%Hrun. pose proof (r_disjoint _ _ Hr c' c t (Hsub' _ _ Ht) Hin) as ->.
    rewrite Hlook, decide_True in Ht by done. done.
  - intros t. rewrite Hst. case_decide; [done|]. apply (r_owner _ _ Hr).
  - cbn. by rewrite Et, (r_tims _ _ Hr).
  - cbn. by rewrite (to_prev_lcore _ _ _ _ Hto), <- (r_prev _ _ Hr).
  - cbn. by rewrite (to_updated _ _ _ _ Hto), <- (r_updated _ _ Hr).
  - cbn. by rewrite (to_calls _ _ _ _ Hto), <- (r_calls _ _ Hr).
Qed.

(** Nothing is due. *)
Lemma take_none s p c cur :
  rep s p -> lcore_ok c -> upto (texpire s) cur (queue p !!! c) = [] ->
  (p_take c cur p).1 = [] /\ rep s (p_take c cur p).2.
Proof.
  intros Hr Hc He. unfold p_take. destruct (take_lists s p c cur Hr Hc) as [-> ->]. rewrite He. cbn.
  split; [done|]. apply (rep_queue_ext s p); try done. intros c'. cbn. rewrite lookup_total_insert.
  case_decide; [|done]. subst c'. destruct (r_pending _ _ Hr c Hc) as [(ls & Hsk & Eq) _].
  pose proof (upto_after (texpire s) cur (ls 0) (sk_sorted _ _ _ Hsk)) as E. rewrite Eq, He in E. by symmetry.
Qed.

Lemma marking_start s p c cur prev :
  rep s p -> lcore_ok c -> timer_get_prev_entries cur c s = Some prev ->
  upto (texpire s) cur (queue p !!! c) <> [] ->
  let s' := for_down (Z.to_nat (depth s c)) (depth s c - 1) (cut c prev) s in
  let q := queue p !!! c in
  marking s' c (head q) [] (upto (texpire s) cur q) [] (after (texpire s) cur q) /\
  touches c q s s' /\ (length (upto (texpire s) cur q) <= fuel_of s')%nat.
Proof.
  intros Hr Hc Hprev Hne s' q. destruct (r_pending _ _ Hr c Hc) as [(ls & Hsk & Eq) _]. fold q in Eq, Hne.
  destruct (get_prev_entries_spec s c ls Hsk cur) as (prev' & E & Hp). rewrite E in Hprev. injection Hprev as ->.
  rewrite <- Eq in *.
  destruct (cut_spec s c ls prev cur Hsk Hne Hp) as (s1 & ls' & E1 & Hsk' & El' & Hch & Hto). fold s' in E1. subst s1.
  pose proof (sk_sorted _ _ _ Hsk) as Hs. pose proof (sk_nodup _ _ _ Hsk) as Hnd.
  assert (Hex : forall y, texpire s' y = texpire s y) by (intros; by apply (touches_texpire _ _ _ _ _ Hto)).
  split; [|split; [done|]].
  - constructor; cbn [app].
    + by exists ls'.
    + done.
    + eapply sublist_NoDup; [exact Hnd|apply sublist_filter].
    + intros y [? _]%elem_upto [? _]%elem_after. lia.
    + intros y [_ Hy]%elem_upto. rewrite (to_tims _ _ _ _ Hto), Hex. by apply (sk_mem _ _ _ Hsk).
    + apply (sorted_ext (texpire s)); [done|]. eapply sorted_sublist; [apply sublist_filter|done].
    + intros x y [? _]%elem_upto [? _]%elem_after. rewrite !Hex. lia.
  - unfold fuel_of. rewrite (to_tims _ _ _ _ Hto). etrans; [apply sublist_length, sublist_filter|].
    pose proof (sk_level_bound s c ls Hsk 0 ltac:(done)). lia.
Qed.

(** Breaking the list and marking the due timers. *)
Lemma take_some lrand48 c cur s p t :
  rep s p -> lcore_ok c -> head (queue p !!! c) = Some t -> texpire s t <= cur ->
  exists first s', (prev ← timer_get_prev_entries cur c s;
      let s := for_down (Z.to_nat (depth s c)) (depth s c - 1) (cut c prev) s in
      '(first, s) ← to_running lrand48 (fuel_of s) c (Some t) (Some t) None s;
      Some (first, set_head_expire c (next_expire s (next s (pending_head c) 0)) s)) = Some (first, s') /\
    rep s' (p_take c cur p).2 /\ chain (sl_next s') 0 first (p_take c cur p).1 /\ list_lock s' = list_lock s.
Proof.
  intros Hr Hc Ht Hle. destruct (r_pending _ _ Hr c Hc) as [(ls & Hsk & Eq) _].
  destruct (take_lists s p c cur Hr Hc) as [Hrun Hback]. unfold p_take. set (q := queue p !!! c) in *.
  assert (Hh : head (upto (texpire s) cur q) = Some t).
  { destruct q as [|t' q']; [done|]. injection Ht as ->. by rewrite upto_cons, decide_True by lia. }
  destruct (get_prev_entries_spec s c ls Hsk cur) as (prev & Ep & _). rewrite Ep. cbn [mbind option_bind].
  destruct (marking_start s p c cur prev Hr Hc Ep) as (Hmk & Hto & Hfuel); [fold q; by destruct (upto _ _ q)|].
  set (s2 := for_down _ _ _ _) in *. fold q in Hmk, Hto, Hfuel. rewrite Ht in Hmk. cbv zeta.
  destruct (to_running_spec lrand48 c _ (fuel_of s2) s2 _ _ _ _ Hfuel Hmk) as (first & s3 & E3 & Hmk3 & Et3 & Hto3).
  rewrite Hh in E3. cbn [last] in E3. rewrite E3. cbn [mbind option_bind]. rewrite p_mark by done. cbn [fst snd].
  rewrite (to_tims _ _ _ _ Hto) in Hmk3, Et3. cbn [app] in Hmk3. rewrite <- Hrun in Hmk3, Et3.
  set (run := filter (fun t => due p cur t = true) q) in *. eexists first, _. split; [done|].
  destruct Hmk3 as [Hl3 Hc3 Hnd3 Hap3 _ _ _]. rewrite <- Hback in Hl3, Hap3. rewrite app_nil_r in Hc3, Hnd3, Hap3.
  assert (Hto4 : retouches c q s s3).
  { eapply retouches_trans; [by apply touches_retouches|]. eapply retouches_mono; [|exact Hto3].
    cbn [app]. rewrite <- upto_after; [done|]. rewrite <- Eq. apply Hsk. }
  split; [|split; [exact Hc3|apply Hto4]]. apply (rep_taken s _ p c _ run); [done|done|..|exact Hnd3| | |done].
  - fold q. destruct Hto4. constructor; try done. intros c' Hc'. cbn. rewrite lookup_total_insert_ne by done. auto.
  - destruct Hl3 as (ls3 & Hsk3 & El3). split.
    + exists ls3. split; [|done]. apply (skiplist_ext s3); [done|done|done|done|].
      intros y Hy. split; [|done]. by apply (sk_mem _ _ _ Hsk3).
    + intros y Hy. cbn. rewrite lookup_total_insert_eq.
      pose proof (sk_chain _ _ _ Hsk3 0 ltac:(done)) as Hh3. rewrite El3 in Hh3. apply chain_head in Hh3.
      by rewrite Hh3, Hy.
  - intros y Hy. by apply (list_elem_of_filter (fun t => _)) in Hy as [_ Hy].
  - intros y Hy. split; [|by apply Hap3]. by apply (list_elem_of_filter (fun t => _)) in Hy as [_ Hy].
Qed.

Lemma take_expired_spec lrand48 c cur s p :
  rep s p -> lcore_ok c -> list_lock s = ∅ ->
  exists first s', take_expired lrand48 c cur s = Some (first, s') /\ rep s' (p_take c cur p).2 /\
    chain (sl_next s') 0 first (p_take c cur p).1 /\ list_lock s' = ∅.
Proof.
  intros Hr Hc Hlk. unfold take_expired, rte_spinlock_lock. rewrite Hlk, decide_False by set_solver.
  cbn [mbind option_bind]. set (s1 := set_list_lock _ s).
  assert (Hr1 : rep s1 p) by (by apply rep_lock).
  assert (Hun : forall s', list_lock s' = list_lock s1 -> list_lock (rte_spinlock_unlock c s') = ∅)
    by (intros s' E; cbn; rewrite E; cbn; set_solver).
  destruct (r_pending _ _ Hr1 c Hc) as [(ls & Hsk & Eq) _].
  pose proof (sk_chain _ _ _ Hsk 0 ltac:(done)) as Hch0. apply chain_head in Hch0. rewrite Hch0.
  assert (Hnone : upto (texpire s1) cur (queue p !!! c) = [] -> exists first s',
    Some (None, rte_spinlock_unlock c s1) = Some (first, s') /\
    rep s' (p_take c cur p).2 /\ chain (sl_next s') 0 first (p_take c cur p).1 /\ list_lock s' = ∅).
  { intros He. destruct (take_none s1 p c cur Hr1 Hc He) as [-> Hr2]. eexists _, _. split; [done|].
    split; [by apply rep_lock|]. split; [done|]. by apply Hun. }
  pose proof (sk_sorted _ _ _ Hsk) as Hs.
  destruct (ls 0) as [|t q'] eqn:E; [apply Hnone; by rewrite <- Eq|]. cbn [head]. rewrite Z.gtb_ltb.
  destruct (Z.ltb_spec cur (texpire s1 t)) as [Hgt|Hle].
  { apply Hnone, upto_none. rewrite <- Eq. apply StronglySorted_cons in Hs as [Hs _]. constructor; [done|].
    eapply Forall_impl; [exact Hs|]. unfold by_key. cbn. lia. }
  destruct (take_some lrand48 c cur s1 p t Hr1 Hc) as (first & s' & E' & Hr' & Hch & Hl); [by rewrite <- Eq|done|].
  exists first, (rte_spinlock_unlock c s'). split; [|by split; [apply rep_lock|split; [|apply Hun]]].
  destruct (timer_get_prev_entries cur c s1); [|done]. cbn [mbind option_bind] in *.
  destruct (to_running _ _ _ _ _ _ _) as [[? ?]|]; [|done]. cbn [mbind option_bind] in *. by simplify_eq.
Qed.
