(* ===== verification/TimerRun.v ===== *)
(** * Timers: the callbacks

    The loop of [rte_timer_manage] that calls the due timers, stops the
    one-shot ones and re-arms the periodic ones. *)
From stdpp Require Import sorting.
From S2P Require Import Prelude Bits Timer TimerLists TimerSkip TimerOps TimerSpec TimerRefine TimerManage.

Section Run.
Context (lrand48 : Z -> Z * Z) (lcore_role : Z -> Z) (master : Z) (c : Z) (Hc : lcore_ok c).

(** ** The operations of a callback *)

Lemma ops_refines waiting os s p p' :
  rep s p -> list_lock s = ∅ -> p_ops lcore_role master c waiting os p = Some p' ->
  exists s', exec_ops lrand48 lcore_role master c os s = Some s' /\ rep s' p' /\ list_lock s' = ∅ /\
    forall y, y ∈ waiting -> ptims p' !! y = ptims p !! y /\ (queued p' y <-> queued p y) /\
      (~ queued p y -> forall i, next s' (timer_at y) i = next s (timer_at y) i).
Proof.
  revert s p. induction os as [|o os IH]; intros s p Hr Hl Hp; cbn [p_ops exec_ops] in *.
  { injection Hp as <-. by exists s. }
  destruct (p_op _ _ _ _ _ _) as [p1|] eqn:E1; [|done]. cbn [mbind option_bind] in Hp.
  destruct (op_refines lrand48 lcore_role master c waiting o s p p1 Hr Hl E1) as (Hw & s1 & -> & Hsim).
  cbn [mbind option_bind].
  destruct (IH s1 p1) as (s' & E & Hr' & Hl' & Hwait); [apply Hsim|by rewrite (sim_lock _ _ _ _ _ Hsim)|done|].
  exists s'. split; [done|]. split; [done|]. split; [done|]. intros y Hy. destruct (Hwait y Hy) as (Et & Eq & En).
  assert (Hne : y <> op_timer o) by (by intros ->).
  pose proof (only_queued _ _ _ _ (sim_only _ _ _ _ _ Hsim) Hne) as Hq.
  split; [rewrite Et; by apply (sim_only _ _ _ _ _ Hsim)|]. split; [by rewrite Eq|].
  intros Hn i. rewrite En by (by rewrite Hq). by apply (sim_links _ _ _ _ _ Hsim).
Qed.

Lemma p_detach_updated t st p :
  pupdated (p_detach c t st p) =
  if state st =? RTE_TIMER_RUNNING then <[c := 1]> (pupdated p) else pupdated p.
Proof.
  rewrite pupdated_detach. destruct (Z.ltb_spec c RTE_MAX_LCORE); [|unfold lcore_ok in Hc; lia].
  by rewrite andb_true_r.
Qed.

(** The timer of an operation exists before and after it. *)
Lemma p_op_needs waiting o p p' :
  p_op lcore_role master c waiting o p = Some p' -> is_Some (ptims p !! op_timer o).
Proof.
  unfold p_op, op_allowed. destruct (bool_decide _); [|done].
  by destruct (bool_decide_reflect (is_Some (ptims p !! op_timer o))).
Qed.

Lemma p_op_dom waiting o p p' :
  p_op lcore_role master c waiting o p = Some p' -> is_Some (ptims p' !! op_timer o).
Proof.
  intros Hp. pose proof (p_op_needs _ _ _ _ Hp) as Hm. unfold p_op in Hp. destruct (op_allowed _ _ _); [|done].
  destruct o as [cur t ticks type lc fct ar|t]; cbn [op_timer] in *.
  - unfold p_reset in Hp. destruct (negb _ && negb _); [by simplify_eq/=|].
    destruct (p_choose _ _ _ _ _) as [[c' p1]|] eqn:Ec; [|done].
    destruct (p_choose_fields _ _ _ _ _ _ _ Ec) as (_ & Et & _).
    cbn [mbind option_bind] in Hp. destruct (configurable _ _); simplify_eq/=; [rewrite lookup_insert_eq; by eexists|by rewrite Et].
  - unfold p_stop in Hp. destruct (configurable _ _); simplify_eq/=; [rewrite lookup_insert_eq; by eexists|done].
Qed.

(** An operation on a timer running here is noticed. *)
Lemma op_noticed waiting o p p' :
  p_op lcore_role master c waiting o p = Some p' ->
  (pupdated p' = pupdated p /\ (state (pstatus p (op_timer o)) = RTE_TIMER_RUNNING -> ptims p' = ptims p)) \/
  pupdated p' !!! c = 1.
Proof.
  assert (Hd : forall t q, let st := pstatus p t in pupdated q = pupdated p ->
    (pupdated (p_detach c t st q) = pupdated p /\ state st <> RTE_TIMER_RUNNING) \/ pupdated (p_detach c t st q) !!! c = 1).
  { intros t q st Eq. rewrite p_detach_updated, Eq.
    destruct (Z.eqb_spec (state st) RTE_TIMER_RUNNING); [right; by rewrite lookup_total_insert_eq|by left]. }
  unfold p_op. destruct (op_allowed _ _ _); [|done]. destruct o as [cur t ticks type lc fct ar|t]; cbn [op_timer].
  - unfold p_reset. destruct (negb _ && negb _); [intros [= <-]; by left|].
    destruct (p_choose _ _ _ _ _) as [[c' p1]|] eqn:Ec; [|done]. cbn [mbind option_bind].
    destruct (p_choose_fields _ _ _ _ _ _ _ Ec) as (_ & Et1 & Eu1 & _). assert (Est : pstatus p1 t = pstatus p t) by (unfold pstatus, ptim; by rewrite Et1).
    rewrite Est. destruct (configurable _ _); intros [= <-]; [|by left].
    destruct (Hd t p1 Eu1) as [[E Hne]|E]; [left|by right]. split; [exact E|]. intros ?. by destruct Hne.
  - unfold p_stop. destruct (configurable _ _); intros [= <-]; [|by left].
    destruct (Hd t p eq_refl) as [[E Hne]|E]; [left|by right]. split; [exact E|]. intros ?. by destruct Hne.
Qed.

Lemma ops_stay waiting os p p' :
  p_ops lcore_role master c waiting os p = Some p' -> pupdated p !!! c = 1 -> pupdated p' !!! c = 1.
Proof.
  revert p. induction os as [|o os IH]; intros p Hp Hu; cbn [p_ops] in Hp; [by injection Hp as <-|].
  destruct (p_op _ _ _ _ _ _) as [p1|] eqn:E1; [|done]. cbn [mbind option_bind] in Hp. apply (IH p1); [done|].
  destruct (op_noticed _ _ _ _ E1) as [[-> _]|?]; done.
Qed.

Lemma ops_noticed waiting os s p p' t :
  rep s p -> list_lock s = ∅ -> p_ops lcore_role master c waiting os p = Some p' ->
  state (pstatus p t) = RTE_TIMER_RUNNING ->
  pupdated p' !!! c = 1 \/ (pupdated p' = pupdated p /\ ptims p' !! t = ptims p !! t).
Proof.
  revert s p. induction os as [|o os IH]; intros s p Hr Hl Hp Hst; cbn [p_ops] in Hp.
  { injection Hp as <-. by right. }
  destruct (p_op _ _ _ _ _ _) as [p1|] eqn:E1; [|done]. cbn [mbind option_bind] in Hp.
  destruct (op_refines lrand48 lcore_role master c waiting o s p p1 Hr Hl E1) as (_ & s1 & _ & Hsim).
  destruct (op_noticed _ _ _ _ E1) as [[Eu Et]|Hu].
  - assert (Et1 : ptims p1 !! t = ptims p !! t).
    { destruct (decide (t = op_timer o)) as [->|Hne]; [by rewrite Et|]. by apply (sim_only _ _ _ _ _ Hsim). }
    destruct (IH s1 p1) as [?|[Eu' Et']]; [apply Hsim|by rewrite (sim_lock _ _ _ _ _ Hsim)|done| |by left|].
    + unfold pstatus, ptim. rewrite lookup_total_alt, Et1, <- lookup_total_alt. exact Hst.
    + right. split; congruence.
  - left. by apply (ops_stay waiting os p1).
Qed.

(** ** After the callback *)

Lemma running_not_queued s p t : rep s p -> state (pstatus p t) = RTE_TIMER_RUNNING -> ~ queued p t.
Proof.
  intros Hr Hst [c' Hin]. destruct (r_status _ _ Hr c' t Hin) as [_ Hs].
  rewrite (rep_tstatus _ _ _ Hr) in Hs. destruct Hs as [Hs|Hs]; by rewrite Hs in Hst.
Qed.

(** Re-arming removes the timer from the list it is not in. *)
Lemma rearm_eq p t exp per fct ar st :
  ~ queued p t -> st = mkStatus RTE_TIMER_PENDING c ->
  p_arm t exp per fct ar c (p_detach c t st (p_set_status t st p)) = p_arm t exp per fct ar c p.
Proof.
  intros Hq ->. rewrite detach_set_status. unfold p_set_status.
  rewrite (ptims_detach c t _ p), <- (ptims_detach c t (mkStatus RTE_TIMER_PENDING c) p).
  rewrite p_arm_overwrite. unfold p_detach. cbn [state owner]. rewrite Z.eqb_refl.
  change (RTE_TIMER_PENDING =? RTE_TIMER_RUNNING) with false. cbn [andb]. unfold p_arm, p_add, p_del, p_set_queue. cbn.
  rewrite lookup_total_insert_eq, insert_insert_eq. rewrite without_notin; [done|]. intros ?. apply Hq. by exists c.
Qed.

Lemma finish_refines cur t s p p' :
  rep s p -> list_lock s = ∅ ->
  (pupdated p !!! c <> 1 -> is_Some (ptims p !! t) /\ state (pstatus p t) = RTE_TIMER_RUNNING) ->
  p_finish c cur t p = Some p' ->
  exists s', finish lrand48 lcore_role master c cur t s = Some s' /\ sim t s p s' p'.
Proof.
  intros Hr Hl Hrun. unfold p_finish, finish. rewrite (r_updated _ _ Hr).
  assert (Etim : tim s t = ptim p t) by (unfold tim, ptim; by rewrite (r_tims _ _ Hr)). rewrite Etim.
  destruct (Z.eqb_spec (pupdated p !!! c) 1) as [|Hu].
  { intros [= <-]. exists s. split; [done|by apply sim_refl]. }
  destruct (Hrun Hu) as [Hm Hst]. pose proof (running_not_queued s p t Hr Hst) as Hnq.
  assert (Hm' : is_Some (tims s !! t)) by (by rewrite (r_tims _ _ Hr)).
  destruct (Z.eqb_spec (period (ptim p t)) 0) as [|Hper].
  { intros [= <-]. eexists. split; [done|]. apply sim_set_status; [done|done| |done].
    intros c' Hin. destruct Hnq. by exists c'. }
  destruct (Z.eqb_spec (u64 (cur + period (ptim p t))) 0) as [|Hexp]; [done|]. intros [= <-].
  unfold rte_spinlock_lock. rewrite decide_False by (rewrite Hl; set_solver). cbn [mbind option_bind].
  set (s1 := set_list_lock _ s). rewrite i16_lcore by done. set (st := mkStatus RTE_TIMER_PENDING c).
  assert (H1 : sim t s1 p (set_status t st s1) (p_set_status t st p)).
  { apply sim_set_status; [by apply rep_lock|done| |done]. intros c' Hin. destruct Hnq. by exists c'. }
  assert (Et1 : tim (set_status t st s1) t = with_status st (ptim p t)).
  { unfold tim, set_status. cbn. rewrite lookup_total_insert_eq. change (tim s1 t) with (tim s t). by rewrite Etim. }
  rewrite Et1. cbn [period f arg with_status].
  assert (Est : pstatus (p_set_status t st p) t = st) by (unfold pstatus, ptim; cbn; by rewrite lookup_total_insert_eq).
  destruct (core_reset_refines lrand48 lcore_role master c t (u64 (cur + period (ptim p t))) (period (ptim p t)) c
      (f (ptim p t)) (arg (ptim p t)) true (set_status t st s1) (p_set_status t st p) c (p_set_status t st p))
    as (s2 & E2 & Hsim).
  - apply H1.
  - cbn. rewrite lookup_insert_eq. by eexists.
  - pose proof (u64_range (cur + period (ptim p t))). lia.
  - intros c' Hn. cbn. rewrite Hl. destruct (Z.eqb_spec c' c); [by subst|]. set_solver.
  - by right.
  - unfold p_choose. destruct (Z.eqb_spec c LCORE_ID_ANY) as [->|]; [by destruct Hc|done].
  - rewrite E2. cbn [mbind option_bind]. rewrite Est in Hsim.
    change (configurable c st) with true in Hsim. cbv iota in Hsim. rewrite rearm_eq in Hsim by done.
    pose proof (sim_trans _ _ _ _ _ _ _ H1 Hsim) as [Hr2 Hl2 Hn2 Ho2].
    eexists. split; [done|]. constructor; [by apply rep_lock| |exact Hn2|done].
    cbn. rewrite Hl2. cbn. rewrite Hl. set_solver.
Qed.

(** ** The loop *)

(** The timers [run] wait for their callback. *)
Definition waiting_here (p : pstate) (run : list Z) : Prop :=
  NoDup run /\ forall y, y ∈ run -> is_Some (ptims p !! y) /\ state (pstatus p y) = RTE_TIMER_RUNNING.

Lemma waiting_kept p p' t run :
  waiting_here p (t :: run) -> (forall y, y ∈ run -> ptims p' !! y = ptims p !! y) -> waiting_here p' run.
Proof.
  intros [[_ Hnd]%NoDup_cons Hw] He. split; [done|]. intros y Hy.
  unfold pstatus, ptim. rewrite lookup_total_alt, He, <- lookup_total_alt by done. apply Hw. by right.
Qed.

Lemma run_refines callback cur run fuel s p p' :
  rep s p -> list_lock s = ∅ -> waiting_here p run -> (length run <= fuel)%nat ->
  chain (sl_next s) 0 (head run) run ->
  p_run lcore_role master callback c cur run p = Some p' ->
  exists s', run_callbacks lrand48 lcore_role master fuel callback c cur (head run) s = Some s' /\
    rep s' p' /\ list_lock s' = ∅.
Proof.
  revert fuel s p. induction run as [|t run IH]; intros fuel s p Hr Hl Hw Hf Hch Hp.
  { injection Hp as <-. exists s. by destruct fuel. }
  destruct fuel as [|fuel]; cbn in Hf; [lia|]. cbn [head run_callbacks p_run] in *.
  destruct Hch as [_ Hch]. change (chain (sl_next s) 0 (next s (timer_at t) 0) run) in Hch.
  pose proof (chain_head _ _ _ _ Hch) as Hnx. rewrite Hnx.
  assert (Etim : tim (set_updated c 0 s) t = ptim p t) by (unfold tim, ptim; cbn; by rewrite (r_tims _ _ Hr)).
  rewrite Etim. set (k := (f (ptim p t), t, arg (ptim p t))) in *.
  set (s1 := log_call k (set_updated c 0 s)). set (p1 := p_log k (p_set_updated c 0 p)) in *.
  assert (Hr1 : rep s1 p1) by (by apply rep_log, rep_set_updated).
  destruct (p_ops _ _ _ _ _ _) as [p2|] eqn:E2; [|done]. cbn [mbind option_bind] in Hp.
  destruct (ops_refines run _ s1 p1 p2 Hr1 Hl E2) as (s2 & -> & Hr2 & Hl2 & Hwait). cbn [mbind option_bind].
  pose proof Hw as [[Ht Hnd]%NoDup_cons Hrun]. destruct (Hrun t ltac:(left)) as [Hmt Hst].
  assert (Hn2 : forall y, y ∈ run -> ~ queued p1 y)
    by (intros y Hy; apply (running_not_queued s1); [done|]; apply Hrun; by right).
  assert (Hown : pupdated p2 !!! c = 1 \/ ptims p2 !! t = ptims p !! t).
  { destruct (ops_noticed run _ s1 p1 p2 t Hr1 Hl E2 Hst) as [?|[_ ?]]; auto. }
  destruct (p_finish c cur t p2) as [p3|] eqn:E3; [|done]. cbn [mbind option_bind] in Hp.
  destruct (finish_refines cur t s2 p2 p3 Hr2 Hl2) as (s3 & -> & Hsim); [|done|].
  { intros Hu. destruct Hown as [|E]; [done|]. rewrite E. split; [done|].
    unfold pstatus, ptim. rewrite lookup_total_alt, E, <- lookup_total_alt. exact Hst. }
  cbn [mbind option_bind]. destruct Hsim as [Hr3 Hl3 Hn3 Ho3].
  assert (Hne : forall y, y ∈ run -> y <> t) by (intros y Hy ->; done).
  apply (IH fuel s3 p3); [done|by rewrite Hl3|..|lia| |done].
  - apply (waiting_kept p _ t); [done|]. intros y Hy. destruct (Ho3 y (Hne y Hy)) as [-> _].
    by destruct (Hwait y Hy) as [-> _].
  - rewrite Hnx in Hch. eapply chain_frame; [|exact Hch]. intros y Hy. destruct (Hwait y Hy) as (_ & Hq & Hn).
    etrans; [apply (Hn3 y 0 (Hne y Hy)); rewrite Hq; by apply Hn2|]. apply Hn. by apply Hn2.
Qed.

(** Operations and the end of a callback log no call. *)
Lemma pcalls_detach t st p : pcalls (p_detach c t st p) = pcalls p.
Proof. unfold p_detach. by destruct (_ && _), (state st =? RTE_TIMER_PENDING). Qed.

Lemma ops_calls waiting os p p' : p_ops lcore_role master c waiting os p = Some p' -> pcalls p' = pcalls p.
Proof.
  revert p. induction os as [|o os IH]; intros p Hp; cbn [p_ops] in Hp; [by injection Hp as <-|].
  destruct (p_op _ _ _ _ _ _) as [p1|] eqn:E1; [|done]. rewrite (IH p1 Hp). clear IH Hp.
  unfold p_op in E1. destruct (op_allowed _ _ _); [|done]. destruct o as [cur t ticks type lc fct ar|t].
  - unfold p_reset in E1. destruct (negb _ && negb _); [by simplify_eq/=|].
    destruct (p_choose _ _ _ _ _) as [[c' p2]|] eqn:Ec; [|done].
    destruct (p_choose_fields _ _ _ _ _ _ _ Ec) as (_ & _ & _ & E2).
    cbn [mbind option_bind] in E1. destruct (configurable _ _); simplify_eq/=; by rewrite ?pcalls_detach.
  - unfold p_stop in E1. destruct (configurable _ _); simplify_eq/=; by rewrite ?pcalls_detach.
Qed.

Lemma finish_calls cur t p p' : p_finish c cur t p = Some p' -> pcalls p' = pcalls p.
Proof.
  unfold p_finish. destruct (_ =? 1); [by intros [= <-]|]. destruct (_ =? 0); [by intros [= <-]|].
  destruct (_ =? 0); [done|]. by intros [= <-].
Qed.

Lemma run_calls callback cur run s p p' :
  rep s p -> list_lock s = ∅ -> waiting_here p run ->
  p_run lcore_role master callback c cur run p = Some p' ->
  pcalls p' = pcalls p ++ map (fun t => (f (ptim p t), t, arg (ptim p t))) run.
Proof.
  revert s p. induction run as [|t run IH]; intros s p Hr Hl Hw Hp; cbn [p_run] in Hp.
  { injection Hp as <-. by rewrite app_nil_r. }
  set (k := (f (ptim p t), t, arg (ptim p t))) in *. set (p1 := p_log k (p_set_updated c 0 p)) in *.
  assert (Hr1 : rep (log_call k (set_updated c 0 s)) p1) by (by apply rep_log, rep_set_updated).
  destruct (p_ops _ _ _ _ _ _) as [p2|] eqn:E2; [|done]. cbn [mbind option_bind] in Hp.
  destruct (ops_refines run _ _ p1 p2 Hr1 Hl E2) as (s2 & _ & Hr2 & Hl2 & Hwait).
  pose proof Hw as [[Ht Hnd]%NoDup_cons Hrun]. destruct (Hrun t ltac:(left)) as [Hmt Hst].
  destruct (p_finish c cur t p2) as [p3|] eqn:E3; [|done]. cbn [mbind option_bind] in Hp.
  destruct (finish_refines cur t s2 p2 p3 Hr2 Hl2) as (s3 & _ & [Hr3 Hl3 _ Ho3]); [|done|].
  { intros Hu. destruct (ops_noticed run _ _ p1 p2 t Hr1 Hl E2 Hst) as [|[_ E]]; [done|]. rewrite E. split; [done|].
    unfold pstatus, ptim. rewrite lookup_total_alt, E, <- lookup_total_alt. exact Hst. }
  assert (Hsame : forall y, y ∈ run -> ptims p3 !! y = ptims p !! y).
  { intros y Hy. destruct (Ho3 y) as [-> _]; [by intros ->|]. by destruct (Hwait y Hy) as [-> _]. }
  rewrite (IH s3 p3 Hr3 ltac:(by rewrite Hl3) (waiting_kept p _ t _ Hw Hsame) Hp).
  rewrite (finish_calls _ _ _ _ E3), (ops_calls _ _ _ _ E2). cbn. rewrite <- app_assoc. f_equal. cbn. f_equal.
  apply map_ext_in. intros y Hy%list_elem_of_In. unfold ptim. by rewrite !lookup_total_alt, Hsame.
Qed.

(** ** rte_timer_manage *)

Lemma p_take_waiting cur s p : rep s p -> waiting_here (p_take c cur p).2 (p_take c cur p).1.
Proof.
  intros Hr. destruct (r_pending _ _ Hr c Hc) as [(ls & Hsk & Eq) _]. unfold p_take. rewrite p_mark by done. cbn [fst snd].
  set (run := filter (fun t => due p cur t = true) _). assert (Hnd : NoDup run).
  { eapply sublist_NoDup; [|apply sublist_filter]. rewrite <- Eq. apply Hsk. }
  split; [done|]. intros y Hy. set (m := mark c _ run).
  assert (E : m !! y = Some (with_status (mkStatus RTE_TIMER_RUNNING (i16 c)) (ptim p y)))
    by (unfold m; by rewrite mark_lookup, decide_True).
  unfold pstatus, ptim. cbn [ptims p_set_tims]. rewrite (lookup_total_correct _ _ _ E), E. by split; [eexists|].
Qed.

Lemma manage_refines callback cur s p p' :
  rep s p -> list_lock s = ∅ -> p_manage lcore_role master callback c cur p = Some p' ->
  exists s', rte_timer_manage lrand48 lcore_role master callback c cur s = Some s' /\ rep s' p' /\ list_lock s' = ∅.
Proof.
  intros Hr Hl. unfold p_manage, rte_timer_manage. rewrite (surjective_pairing (p_take c cur p)). intros Hp.
  destruct (r_pending _ _ Hr c Hc) as [(ls & Hsk & Eq) Hh].
  pose proof (chain_head _ _ _ _ (sk_chain _ _ _ Hsk 0 ltac:(done))) as Hn0. rewrite Hn0.
  assert (Hnone : upto (texpire s) cur (queue p !!! c) = [] ->
    exists s', Some s = Some s' /\ rep s' p' /\ list_lock s' = ∅).
  { intros He. destruct (take_none s p c cur Hr Hc He) as [E1 Hr2]. rewrite E1 in Hp. injection Hp as <-. by exists s. }
  pose proof (sk_sorted _ _ _ Hsk) as Hs. rewrite Eq in Hs |- *.
  destruct (queue p !!! c) as [|t q] eqn:E; [by apply Hnone|]. cbn [head]. rewrite (Hh t eq_refl), Z.gtb_ltb.
  destruct (Z.ltb_spec cur (texpire s t)) as [Hgt|Hle].
  { apply Hnone, upto_none. apply StronglySorted_cons in Hs as [Hs _]. constructor; [done|].
    eapply Forall_impl; [exact Hs|]. unfold by_key. cbn. lia. }
  clear Hnone. destruct (take_expired_spec lrand48 c cur s p Hr Hc Hl) as (first & s1 & -> & Hr1 & Hch & Hl1).
  cbn [mbind option_bind]. pose proof (p_take_waiting cur s p Hr) as Hw. pose proof (chain_head _ _ _ _ Hch) as ->.
  apply (run_refines callback cur _ _ s1 _ _ Hr1 Hl1 Hw); [|done|done].
  unfold fuel_of. rewrite (r_tims _ _ Hr1). destruct Hw as [Hnd Hw].
  pose proof (members_bound (ptims (p_take c cur p).2) _ Hnd (fun y Hy => proj1 (Hw y Hy))). lia.
Qed.

End Run.
