(* ===== verification/TimerSettled.v ===== *)
(** * Timers: every timer is stopped or pending

    Between calls a timer is either stopped, owned by no lcore and in no
    list, or pending on one lcore and in the list of that lcore; and what
    [rte_timer_manage] does to the timers its callbacks leave alone. *)
From stdpp Require Import sorting.
From S2P Require Import Prelude Bits Timer TimerLists TimerSkip TimerOps TimerSpec TimerRefine TimerManage TimerRun.

Definition settled (p : pstate) (t : Z) : Prop :=
  (pstatus p t = mkStatus RTE_TIMER_STOP RTE_TIMER_NO_OWNER /\ ~ queued p t) \/
  (exists c, lcore_ok c /\ pstatus p t = mkStatus RTE_TIMER_PENDING c /\ t ∈ queue p !!! c).

(** The timers [run] wait for their callback on core [c]; the others are settled. *)
Definition settled_but (c : Z) (run : list Z) (p : pstate) : Prop :=
  forall t, is_Some (ptims p !! t) ->
    if decide (t ∈ run) then pstatus p t = mkStatus RTE_TIMER_RUNNING c else settled p t.

Section Settled.
Context (lrand48 : Z -> Z * Z) (lcore_role : Z -> Z) (master : Z).

Lemma settled_only t p p' y : only t p p' -> y <> t -> settled p' y <-> settled p y.
Proof.
  intros Ho Hy. destruct (Ho y Hy) as [Et Hq]. unfold settled, queued, pstatus, ptim.
  rewrite !lookup_total_alt, Et. by setoid_rewrite Hq.
Qed.

Lemma settled_but_only c run t p p' :
  settled_but c run p -> only t p p' -> t ∉ run -> settled p' t -> settled_but c run p'.
Proof.
  intros Hs Ho Ht Hst y Hy. destruct (decide (y = t)) as [->|Hne]; [by rewrite decide_False|].
  destruct (Ho y Hne) as [Et _]. rewrite Et in Hy. specialize (Hs y Hy). case_decide.
  - unfold pstatus, ptim. by rewrite lookup_total_alt, Et, <- lookup_total_alt.
  - by apply (settled_only t p p').
Qed.

Lemma arm_settled t exp per fct ar c p : lcore_ok c -> settled (p_arm t exp per fct ar c p) t.
Proof.
  intros Hc. right. exists c. split; [done|]. unfold pstatus, ptim. cbn. rewrite !lookup_total_insert_eq.
  split; [done|]. apply elem_place. by left.
Qed.

Lemma stop_settled t p : ~ queued p t -> settled (p_set_status t (mkStatus RTE_TIMER_STOP RTE_TIMER_NO_OWNER) p) t.
Proof. intros Hq. left. unfold pstatus, ptim. cbn. by rewrite lookup_total_insert_eq. Qed.

(** An operation settles its timer, or fails and changes neither timers nor
    queues; only an operation on a timer that runs here is noted. *)
Lemma op_settles lcore_id waiting o s p p' :
  rep s p -> p_op lcore_role master lcore_id waiting o p = Some p' ->
  (ptims p' = ptims p /\ queue p' = queue p /\ pupdated p' = pupdated p) \/
  (settled p' (op_timer o) /\
   pupdated p' = pupdated (p_detach lcore_id (op_timer o) (pstatus p (op_timer o)) p)).
Proof.
  intros Hr. unfold p_op, op_allowed. destruct (bool_decide _); [|done]. destruct (bool_decide _); [|done].
  destruct (negb _); [|done]. destruct (Z.leb_spec 0 (op_lcore o)) as [Hlc|]; [|done]. cbn [andb].
  destruct o as [cur t ticks type c fct ar|t]; cbn [op_timer op_lcore] in *.
  - unfold p_reset. destruct (negb (c =? LCORE_ID_ANY) && negb (rte_lcore_is_enabled lcore_role c)) eqn:Eg;
      [intros [= <-]; by left|].
    destruct (p_choose _ _ _ _ _) as [[c' p1]|] eqn:Ec; [|done].
    assert (Hok : c = LCORE_ID_ANY \/ lcore_ok c).
    { destruct (Z.eqb_spec c LCORE_ID_ANY); [by left|right]. apply (enabled_ok lcore_role); [done|].
      unfold enabled. by destruct (rte_lcore_is_enabled lcore_role c). }
    destruct (choose_refines lcore_role master lcore_id c s p c' p1 Hr Hok Ec) as (s1 & _ & Hr1 & Hc' & _ & _ & Et & Eq).
    destruct (p_choose_fields _ _ _ _ _ _ _ Ec) as (_ & _ & Eu & _).
    assert (Est : pstatus p1 t = pstatus p t) by (unfold pstatus, ptim; by rewrite Et).
    cbn [mbind option_bind]. destruct (configurable _ _) eqn:Ecf; intros [= <-]; [right|by left].
    split; [by apply arm_settled|]. rewrite Est.
    change (pupdated (p_detach lcore_id t (pstatus p t) p1) = pupdated (p_detach lcore_id t (pstatus p t) p)).
    by rewrite !pupdated_detach, Eu.
  - unfold p_stop. destruct (configurable _ _) eqn:Ecf; intros [= <-]; [right|by left].
    split; [|done]. apply stop_settled. by apply (detached s p).
Qed.

Lemma settled_but_same c run p p' :
  ptims p' = ptims p -> queue p' = queue p -> settled_but c run p -> settled_but c run p'.
Proof. intros Et Eq Hs t. unfold settled_but, settled, queued, pstatus, ptim in *. rewrite Et, Eq. apply Hs. Qed.

(** A call from outside of callbacks. *)
Lemma call_settled lcore_id o s p p' :
  rep s p -> list_lock s = ∅ -> p_op lcore_role master lcore_id [] o p = Some p' ->
  settled_but 0 [] p -> settled_but 0 [] p'.
Proof.
  intros Hr Hl Hp Hs. destruct (op_refines lrand48 lcore_role master lcore_id [] o s p p' Hr Hl Hp) as (_ & s1 & _ & Hsim).
  destruct (op_settles lcore_id [] o s p p' Hr Hp) as [(Et & Eq & _)|[Hst _]]; [by apply (settled_but_same 0 [] p)|].
  eapply settled_but_only; [done|apply Hsim|set_solver|done].
Qed.

Section Manage.
Context (c : Z) (Hc : lcore_ok c).

(** A callback either leaves its own timer running, and nothing is noted, or
    settles it, and that is noted. *)
Lemma ops_settled t rest os s p p' :
  rep s p -> list_lock s = ∅ -> t ∉ rest -> is_Some (ptims p !! t) ->
  p_ops lcore_role master c rest os p = Some p' ->
  (settled_but c (t :: rest) p /\ pupdated p !!! c <> 1) \/ (settled_but c rest p /\ pupdated p !!! c = 1) ->
  (settled_but c (t :: rest) p' /\ pupdated p' !!! c <> 1) \/ (settled_but c rest p' /\ pupdated p' !!! c = 1).
Proof.
  intros Hr Hl Ht. revert s p Hr Hl. induction os as [|o os IH]; intros s p Hr Hl Hm Hp Hs; cbn [p_ops] in Hp.
  { by injection Hp as <-. }
  destruct (p_op _ _ _ _ _ _) as [p1|] eqn:E1; [|done]. cbn [mbind option_bind] in Hp.
  destruct (op_refines lrand48 lcore_role master c rest o s p p1 Hr Hl E1) as (Hw & s1 & _ & Hsim).
  pose proof (sim_only _ _ _ _ _ Hsim) as Ho.
  assert (Hm1 : is_Some (ptims p1 !! t)).
  { destruct (decide (t = op_timer o)) as [->|Hne]; [|by destruct (Ho t Hne) as [-> _]].
    pose proof (p_op_dom lcore_role master c rest o p p1 E1). done. }
  apply (IH s1 p1); [apply Hsim|by rewrite (sim_lock _ _ _ _ _ Hsim)|done|done|]. clear IH Hp.
  destruct (op_settles c rest o s p p1 Hr E1) as [(Et & Eq & Eu)|[Hst Eu]].
  { rewrite Eu. destruct Hs as [[Hs Hu]|[Hs Hu]]; [left|right]; (split; [by apply (settled_but_same c _ p)|done]). }
  rewrite p_detach_updated in Eu by done.
  destruct Hs as [[Hs Hu]|[Hs Hu]].
  - destruct (decide (op_timer o = t)) as [Eo|Hne].
    + right. rewrite Eo in *. split.
      * intros y Hy. destruct (decide (y = t)) as [->|Hyt]; [by rewrite decide_False|].
        destruct (Ho y Hyt) as [Ety _]. rewrite Ety in Hy. specialize (Hs y Hy).
        destruct (decide (y ∈ rest)) as [Hin|Hin].
        -- rewrite decide_True in Hs by (by right). unfold pstatus, ptim. by rewrite lookup_total_alt, Ety, <- lookup_total_alt.
        -- rewrite decide_False in Hs by set_solver. by apply (settled_only t p p1).
      * specialize (Hs t Hm). rewrite decide_True in Hs by left. rewrite Eu, Hs. cbn. by rewrite lookup_total_insert_eq.
    + left. split; [eapply settled_but_only; [done|done|set_solver|done]|]. rewrite Eu.
      case_tests; [|done]. exfalso. pose proof (p_op_dom lcore_role master c rest o p p1 E1) as Hdo.
      assert (Hmo : is_Some (ptims p !! op_timer o)) by (by eapply p_op_needs). specialize (Hs _ Hmo).
      rewrite decide_False in Hs by set_solver. destruct Hs as [[Hs _]|(c' & _ & Hs & _)]; rewrite Hs in *; done.
  - right. split; [eapply settled_but_only; done|]. rewrite Eu. case_tests; [by rewrite lookup_total_insert_eq|done].
Qed.

(** After the callback its timer is settled. *)
Lemma finish_settled cur t rest s p p' :
  rep s p -> list_lock s = ∅ -> t ∉ rest -> is_Some (ptims p !! t) -> p_finish c cur t p = Some p' ->
  (settled_but c (t :: rest) p /\ pupdated p !!! c <> 1) \/ (settled_but c rest p /\ pupdated p !!! c = 1) ->
  settled_but c rest p'.
Proof.
  intros Hr Hl Ht Hm Hp [[Hs Hu]|[Hs Hu]].
  - assert (Hst : pstatus p t = mkStatus RTE_TIMER_RUNNING c)
      by (specialize (Hs t Hm); by rewrite decide_True in Hs by left).
    destruct (finish_refines lrand48 lcore_role master c Hc cur t s p p' Hr Hl) as (s' & _ & Hsim); [by rewrite Hst|done|].
    pose proof (sim_only _ _ _ _ _ Hsim) as Ho.
    assert (Hset : settled p' t).
    { unfold p_finish in Hp. destruct (Z.eqb_spec (pupdated p !!! c) 1); [done|].
      destruct (_ =? 0); [injection Hp as <-; apply stop_settled; apply (running_not_queued s); by rewrite ?Hst|].
      destruct (_ =? 0); [done|]. injection Hp as <-. by apply arm_settled. }
    intros y Hy. destruct (decide (y = t)) as [->|Hne]; [by rewrite decide_False|].
    destruct (Ho y Hne) as [Ety _]. rewrite Ety in Hy. specialize (Hs y Hy). destruct (decide (y ∈ rest)).
    + rewrite decide_True in Hs by (by right). unfold pstatus, ptim. by rewrite lookup_total_alt, Ety, <- lookup_total_alt.
    + rewrite decide_False in Hs by set_solver. by apply (settled_only t p p').
  - unfold p_finish in Hp. rewrite Hu, Z.eqb_refl in Hp. by injection Hp as <-.
Qed.

Lemma ops_dom t rest os p p' :
  p_ops lcore_role master c rest os p = Some p' ->
  forall s, rep s p -> list_lock s = ∅ -> is_Some (ptims p !! t) -> is_Some (ptims p' !! t).
Proof.
  revert p. induction os as [|o os IH]; intros p Hp s Hr Hl Hm; cbn [p_ops] in Hp; [by injection Hp as <-|].
  destruct (p_op _ _ _ _ _ _) as [p1|] eqn:E1; [|done]. cbn [mbind option_bind] in Hp.
  destruct (op_refines lrand48 lcore_role master c rest o s p p1 Hr Hl E1) as (_ & s1 & _ & Hsim).
  apply (IH p1 Hp s1); [apply Hsim|by rewrite (sim_lock _ _ _ _ _ Hsim)|].
  destruct (decide (t = op_timer o)) as [->|Hne]; [by apply (p_op_dom lcore_role master c rest o p)|].
  by destruct (sim_only _ _ _ _ _ Hsim t Hne) as [-> _].
Qed.

(** One turn of the loop: the callback's operations and then the end of the
    callback, which finds the timer still running or the change noted. *)
Lemma run_step callback cur t run s p p' :
  rep s p -> list_lock s = ∅ -> waiting_here p (t :: run) -> settled_but c (t :: run) p ->
  p_run lcore_role master callback c cur (t :: run) p = Some p' ->
  let os := callback (f (ptim p t)) t (arg (ptim p t)) in
  let p1 := p_log (f (ptim p t), t, arg (ptim p t)) (p_set_updated c 0 p) in
  exists s1 p2 s3 p3, rep s1 p1 /\ list_lock s1 = ∅ /\ p_ops lcore_role master c run os p1 = Some p2 /\
    p_finish c cur t p2 = Some p3 /\ only t p2 p3 /\ is_Some (ptims p2 !! t) /\
    ((settled_but c (t :: run) p2 /\ pupdated p2 !!! c <> 1) \/ (settled_but c run p2 /\ pupdated p2 !!! c = 1)) /\
    rep s3 p3 /\ list_lock s3 = ∅ /\ waiting_here p3 run /\ settled_but c run p3 /\
    (forall y, y ∈ run -> ptims p3 !! y = ptims p !! y) /\
    p_run lcore_role master callback c cur run p3 = Some p'.
Proof.
  intros Hr Hl Hw Hs Hp os p1. cbn [p_run] in Hp. fold os p1 in Hp.
  assert (Hr1 : rep (log_call (f (ptim p t), t, arg (ptim p t)) (set_updated c 0 s)) p1)
    by (by apply rep_log, rep_set_updated).
  destruct (p_ops _ _ _ _ _ _) as [p2|] eqn:E2; [|done]. cbn [mbind option_bind] in Hp.
  destruct (ops_refines lrand48 lcore_role master c run _ _ p1 p2 Hr1 Hl E2) as (s2 & _ & Hr2 & Hl2 & Hwait).
  pose proof Hw as [[Ht Hnd]%NoDup_cons Hrun]. destruct (Hrun t ltac:(left)) as [Hmt Hst].
  assert (Hm2 : is_Some (ptims p2 !! t)) by (by apply (ops_dom t run _ p1 p2 E2 _ Hr1 Hl)).
  pose proof (ops_settled t run _ _ p1 p2 Hr1 Hl Ht Hmt E2) as Hs2.
  assert (Hu1 : pupdated p1 !!! c <> 1) by (unfold p1; cbn; by rewrite lookup_total_insert_eq).
  specialize (Hs2 (or_introl (conj Hs Hu1))).
  destruct (p_finish c cur t p2) as [p3|] eqn:E3; [|done]. cbn [mbind option_bind] in Hp.
  destruct (finish_refines lrand48 lcore_role master c Hc cur t s2 p2 p3 Hr2 Hl2) as (s3 & _ & [Hr3 Hl3 _ Ho3]); [|done|].
  { intros Hu. split; [done|]. destruct Hs2 as [[Hs2 _]|[_ ?]]; [|done].
    specialize (Hs2 t Hm2). rewrite decide_True in Hs2 by left. by rewrite Hs2. }
  assert (Hsame : forall y, y ∈ run -> ptims p3 !! y = ptims p !! y).
  { intros y Hy. destruct (Ho3 y) as [-> _]; [by intros ->|]. by destruct (Hwait y Hy) as [-> _]. }
  eexists _, p2, s3, p3. split_and!; try done; [by rewrite Hl3|by apply (waiting_kept p _ t)|].
  by apply (finish_settled cur t run s2 p2).
Qed.

Lemma run_settled callback cur run s p p' :
  rep s p -> list_lock s = ∅ -> waiting_here p run -> settled_but c run p ->
  p_run lcore_role master callback c cur run p = Some p' -> settled_but c [] p'.
Proof.
  revert s p. induction run as [|t run IH]; intros s p Hr Hl Hw Hs Hp; [by injection Hp as <-|].
  destruct (run_step callback cur t run s p p' Hr Hl Hw Hs Hp)
    as (_ & _ & s3 & p3 & _ & _ & _ & _ & _ & _ & _ & Hr3 & Hl3 & Hw3 & Hs3 & _ & Hp3).
  by apply (IH s3 p3).
Qed.

(** ** The timers the callbacks leave alone *)

Lemma ops_untouched t rest os s p p' :
  rep s p -> list_lock s = ∅ -> p_ops lcore_role master c rest os p = Some p' -> t ∉ map op_timer os ->
  ptims p' !! t = ptims p !! t /\ forall c', t ∈ queue p' !!! c' <-> t ∈ queue p !!! c'.
Proof.
  revert s p. induction os as [|o os IH]; intros s p Hr Hl Hp Ht; cbn [p_ops] in Hp; [by injection Hp as <-|].
  apply not_elem_of_cons in Ht as [Hne Ht].
  destruct (p_op _ _ _ _ _ _) as [p1|] eqn:E1; [|done]. cbn [mbind option_bind] in Hp.
  destruct (op_refines lrand48 lcore_role master c rest o s p p1 Hr Hl E1) as (_ & s1 & _ & Hsim).
  destruct (IH s1 p1) as [Et Eq]; [apply Hsim|by rewrite (sim_lock _ _ _ _ _ Hsim)|done|done|].
  destruct (sim_only _ _ _ _ _ Hsim t Hne) as [Et1 Eq1]. split; [by rewrite Et|]. intros c'. by rewrite Eq.
Qed.

(** The timer once its callback, which does not touch it, has returned. *)
Definition after_call (cur : Z) (r : rte_timer) : rte_timer :=
  if period r =? 0 then with_status (mkStatus RTE_TIMER_STOP RTE_TIMER_NO_OWNER) r
  else mkTimer (u64 (cur + period r)) (mkStatus RTE_TIMER_PENDING c) (period r) (f r) (arg r).

Lemma finish_idle cur t p p' :
  pupdated p !!! c <> 1 -> p_finish c cur t p = Some p' ->
  ptim p' t = after_call cur (ptim p t) /\
  forall c', t ∈ queue p' !!! c' <-> t ∈ queue p !!! c' \/ (c' = c /\ period (ptim p t) <> 0).
Proof.
  intros Hu. unfold p_finish, after_call. destruct (Z.eqb_spec (pupdated p !!! c) 1); [done|].
  destruct (Z.eqb_spec (period (ptim p t)) 0) as [E|E].
  - intros [= <-]. split; [|intros c'; cbn; naive_solver]. unfold ptim at 1. cbn. by rewrite lookup_total_insert_eq.
  - destruct (_ =? 0); [done|]. intros [= <-]. split; [unfold ptim at 1; cbn; by rewrite lookup_total_insert_eq|].
    intros c'. cbn. rewrite lookup_total_insert. case_decide as Ec; [subst c'|naive_solver].
    rewrite elem_place. naive_solver.
Qed.

Lemma ptim_lookup p p' t : ptims p' !! t = ptims p !! t -> ptim p' t = ptim p t.
Proof. intros E. unfold ptim. by rewrite !lookup_total_alt, E. Qed.

Lemma run_untouched callback cur run s p p' t :
  rep s p -> list_lock s = ∅ -> waiting_here p run -> settled_but c run p ->
  p_run lcore_role master callback c cur run p = Some p' ->
  (forall y, y ∈ run -> t ∉ map op_timer (callback (f (ptim p y)) y (arg (ptim p y)))) ->
  ptim p' t = (if decide (t ∈ run) then after_call cur (ptim p t) else ptim p t) /\
  forall c', t ∈ queue p' !!! c' <-> t ∈ queue p !!! c' \/ (c' = c /\ t ∈ run /\ period (ptim p t) <> 0).
Proof.
  revert s p. induction run as [|x run IH]; intros s p Hr Hl Hw Hs Hp Hun.
  { injection Hp as <-. split; [done|]. intros c'. set_solver. }
  destruct (run_step callback cur x run s p p' Hr Hl Hw Hs Hp)
    as (s1 & p2 & s3 & p3 & Hr1 & Hl1 & E2 & E3 & Ho & Hm2 & Hs2 & Hr3 & Hl3 & Hw3 & Hs3 & Hsame & Hp3).
  destruct (ops_untouched t run _ s1 _ p2 Hr1 Hl1 E2) as [Et2 Eq2]; [apply Hun; left|].
  destruct (IH s3 p3 Hr3 Hl3 Hw3 Hs3 Hp3) as [Et Eq].
  { intros y Hy. rewrite (ptim_lookup _ _ _ (Hsame y Hy)). apply Hun. by right. }
  change (ptims p2 !! t = ptims p !! t) in Et2. pose proof (ptim_lookup _ _ _ Et2) as Et2'.
  destruct Hw as [[Hx Hnd]%NoDup_cons _]. destruct (decide (t = x)) as [->|Hne].
  - assert (Hu : pupdated p2 !!! c <> 1).
    { destruct Hs2 as [[_ ?]|[Hs2 _]]; [done|]. specialize (Hs2 x Hm2). rewrite decide_False in Hs2 by done.
      specialize (Hs x ltac:(by rewrite <- Et2)). rewrite decide_True in Hs by left.
      unfold settled, pstatus in *. rewrite Et2', Hs in Hs2. naive_solver. }
    destruct (finish_idle cur x p2 p3 Hu E3) as [E3t E3q]. rewrite decide_False in Et by done.
    rewrite decide_True by left. rewrite Et, E3t, Et2'. split; [done|].
    intros c'. rewrite Eq, E3q, Eq2, Et2'. set_solver.
  - destruct (Ho t Hne) as [Et3 Eq3]. pose proof (ptim_lookup _ _ _ Et3) as Et3'. rewrite Et, Et3', Et2'. split.
    + destruct (decide (t ∈ run)); [rewrite decide_True by (by right)|rewrite decide_False by set_solver]; done.
    + intros c'. rewrite Eq, Eq3, Eq2, Et3', Et2'. set_solver.
Qed.

Lemma take_settled cur s p :
  rep s p -> settled_but c [] p -> settled_but c (p_take c cur p).1 (p_take c cur p).2.
Proof.
  intros Hr Hs t. destruct (r_pending _ _ Hr c Hc) as [(ls & Hsk & Eq) _].
  unfold p_take. rewrite p_mark by done. cbn [fst snd]. set (run := filter (fun t => due p cur t = true) _).
  assert (Hnd : NoDup run) by (eapply sublist_NoDup; [|apply sublist_filter]; rewrite <- Eq; apply Hsk).
  cbn [ptims p_set_tims p_set_queue]. set (p' := p_set_tims _ _).
  pose proof (mark_lookup c run (ptims p) t Hnd) as Em.
  case_decide as Hin; intros Hm.
  - unfold pstatus, ptim. cbn [ptims p' p_set_tims]. rewrite (lookup_total_correct _ _ _ Em). by rewrite i16_lcore.
  - rewrite Em in Hm. specialize (Hs t Hm). rewrite decide_False in Hs by set_solver.
    assert (Est : pstatus p' t = pstatus p t).
    { unfold pstatus, ptim. cbn [ptims p' p_set_tims]. by rewrite !lookup_total_alt, Em. }
    assert (Hq : forall c', t ∈ queue p' !!! c' <-> t ∈ queue p !!! c').
    { intros c'. cbn. rewrite lookup_total_insert. case_decide; [subst c'|done].
      rewrite (list_elem_of_filter (fun t => _)). unfold run in Hin. rewrite (list_elem_of_filter (fun t => _)) in Hin.
      destruct (due p cur t); naive_solver. }
    unfold settled, queued in *. rewrite Est. by setoid_rewrite Hq.
Qed.

Lemma manage_settled callback cur s p p' :
  rep s p -> list_lock s = ∅ -> settled_but c [] p ->
  p_manage lcore_role master callback c cur p = Some p' -> settled_but c [] p'.
Proof.
  intros Hr Hl Hs Hp. unfold p_manage in Hp. rewrite (surjective_pairing (p_take c cur p)) in Hp.
  destruct (take_expired_spec lrand48 c cur s p Hr Hc Hl) as (_ & s1 & _ & Hr1 & _ & Hl1).
  apply (run_settled callback cur (p_take c cur p).1 s1 (p_take c cur p).2); [done|done| |by apply (take_settled cur s)|done].
  by apply (p_take_waiting c Hc cur s).
Qed.

End Manage.
End Settled.
