(* ===== verification/TimerTheorems.v ===== *)
(** * Timers: the theorems *)
From stdpp Require Import sorting.
From S2P Require Import Prelude Bits Timer TimerLists TimerSkip TimerOps TimerSpec TimerRefine TimerManage TimerRun TimerSettled.

(** ** Histories of a program that uses timers *)

(** A call on some thread, or [rte_timer_manage] on an lcore at a time, with
    what the callbacks do. *)
Inductive event :=
  | Call (lcore_id : Z) (o : op)
  | Manage (lcore_id cur_time : Z) (callback : Z -> Z -> Z -> list op).

(** Statically allocated memory, then the initialisation of the subsystem and
    of the timers [ts]. *)
Definition zeroed (sd : Z) : tstate := mkTstate ∅ ∅ ∅ ∅ ∅ ∅ ∅ sd [].
Definition boot (ts : list Z) (sd : Z) : tstate :=
  foldr rte_timer_init (rte_timer_subsystem_init (zeroed sd)) ts.

Section Histories.
Context (lrand48 : Z -> Z * Z) (lcore_role : Z -> Z) (master : Z).

Definition handle (e : event) (s : tstate) : option tstate :=
  match e with
  | Call lcore_id o => exec_op lrand48 lcore_role master lcore_id o s
  | Manage lcore_id cur callback => rte_timer_manage lrand48 lcore_role master callback lcore_id cur s
  end.

Fixpoint history (es : list event) (s : tstate) : option tstate :=
  match es with [] => Some s | e :: es => s ← handle e s; history es s end.

(** The specification: [rte_timer_manage] is called on an lcore. *)
Definition p_handle (e : event) (p : pstate) : option pstate :=
  match e with
  | Call lcore_id o => p_op lcore_role master lcore_id [] o p
  | Manage lcore_id cur callback =>
      if (0 <=? lcore_id) && (lcore_id <? RTE_MAX_LCORE)
      then p_manage lcore_role master callback lcore_id cur p else None
  end.

Fixpoint p_history (es : list event) (p : pstate) : option pstate :=
  match es with [] => Some p | e :: es => p ← p_handle e p; p_history es p end.

Definition p_boot (ts : list Z) : pstate :=
  mkPstate ∅ (tims (boot ts 0)) (prev_lcore (boot ts 0)) ∅ [].

(** ** Refinement *)

Lemma boot_fields ts sd :
  sl_next (boot ts sd) = ∅ /\ curr_skiplist_depth (boot ts sd) = ∅ /\ updated (boot ts sd) = ∅ /\
  list_lock (boot ts sd) = ∅ /\ calls (boot ts sd) = [] /\ tims (boot ts sd) = tims (boot ts 0) /\
  prev_lcore (boot ts sd) = prev_lcore (boot ts 0).
Proof.
  assert (Hinit : forall x, let s := rte_timer_subsystem_init (zeroed x) in
    s = set_seed x (rte_timer_subsystem_init (zeroed 0)) /\ sl_next s = ∅ /\ curr_skiplist_depth s = ∅ /\
    updated s = ∅ /\ list_lock s = ∅ /\ calls s = [] /\ tims s = ∅).
  { intros x. cbv zeta. unfold rte_timer_subsystem_init. split.
    - unfold for_range. symmetry. apply (for_n_comm (set_seed x)). done.
    - apply (for_range_inv (fun _ s => sl_next s = ∅ /\ curr_skiplist_depth s = ∅ /\ updated s = ∅ /\
        list_lock s = ∅ /\ calls s = [] /\ tims s = ∅)); [done|done|].
      intros k s _ (? & ? & ? & Hl & ? & ?). cbn. rewrite Hl. repeat split; try done. set_solver. }
  induction ts as [|t ts IH]; cbn [boot foldr].
  - destruct (Hinit sd) as (E & H1 & H2 & H3 & H4 & H5 & H6). destruct (Hinit 0) as (_ & _ & _ & _ & _ & _ & H0).
    repeat split; try done; rewrite E; done.
  - fold (boot ts sd) (boot ts 0). destruct IH as (H1 & H2 & H3 & H4 & H5 & H6 & H7).
    repeat split; try done. cbn. unfold tim. by rewrite H6.
Qed.

Lemma boot_status ts t : state (tstatus (boot ts 0) t) = RTE_TIMER_STOP.
Proof.
  induction ts as [|t' ts IH]; cbn [boot foldr].
  - unfold tstatus, tim.
    assert (E : tims (rte_timer_subsystem_init (zeroed 0)) = ∅) by reflexivity. by rewrite E.
  - fold (boot ts 0). unfold rte_timer_init. rewrite tstatus_set. by case_decide.
Qed.

Lemma rep_boot ts sd : rep (boot ts sd) (p_boot ts).
Proof.
  destruct (boot_fields ts sd) as (En & Ed & Eu & El & Ec & Et & Ep).
  assert (Hst : forall t, tstatus (boot ts sd) t = tstatus (boot ts 0) t)
    by (intros; unfold tstatus, tim; by rewrite Et).
  constructor; try done.
  - intros c Hc. split; [|done]. exists (fun _ => []). split; [|done].
    constructor; try done; unfold depth, next; rewrite ?Ed, ?En; try done; try constructor; try set_solver.
  - intros c c' t Ht. cbn in Ht. by apply elem_of_nil in Ht.
  - intros c t Ht. cbn in Ht. by apply elem_of_nil in Ht.
  - intros t. rewrite Hst, boot_status. done.
Qed.

Lemma handle_refines e s p p' :
  rep s p -> list_lock s = ∅ -> p_handle e p = Some p' ->
  exists s', handle e s = Some s' /\ rep s' p' /\ list_lock s' = ∅.
Proof.
  intros Hr Hl. destruct e as [lcore_id o|lcore_id cur callback]; cbn [p_handle handle].
  - intros Hp. destruct (op_refines lrand48 lcore_role master lcore_id [] o s p p' Hr Hl Hp) as (_ & s' & E & Hsim).
    exists s'. split; [done|]. split; [apply Hsim|]. by rewrite (sim_lock _ _ _ _ _ Hsim).
  - destruct (Z.leb_spec 0 lcore_id); [|done]. destruct (Z.ltb_spec lcore_id RTE_MAX_LCORE); [|done]. cbn [andb].
    apply manage_refines; done.
Qed.

Lemma history_refines es s p p' :
  rep s p -> list_lock s = ∅ -> p_history es p = Some p' ->
  exists s', history es s = Some s' /\ rep s' p' /\ list_lock s' = ∅.
Proof.
  revert s p. induction es as [|e es IH]; intros s p Hr Hl Hp; cbn [p_history history] in *.
  { injection Hp as <-. by exists s. }
  destruct (p_handle e p) as [p1|] eqn:E1; [|done]. cbn [mbind option_bind] in Hp.
  destruct (handle_refines e s p p1 Hr Hl E1) as (s1 & -> & Hr1 & Hl1). by apply (IH s1 p1).
Qed.

(** C10: [rte_timer_reset], [rte_timer_stop] and [rte_timer_manage] implement a
    queue per lcore ordered by expiry.  For every history of calls — on any
    thread, with callbacks that themselves start and stop timers, and whatever
    levels the random numbers give — that respects the callers' obligations,
    the code returns from every call with all locks free, following the links
    of an lcore's list gives exactly the specified queue, and the timers'
    fields and the callbacks called so far are the specified ones. *)
Theorem timers_refine_queues (ts : list Z) (sd : Z) (es : list event) (p' : pstate) :
  p_history es (p_boot ts) = Some p' ->
  exists s', history es (boot ts sd) = Some s' /\ list_lock s' = ∅ /\
    tims s' = ptims p' /\ calls s' = pcalls p' /\
    (forall c, lcore_ok c ->
       chain (sl_next s') 0 (next s' (pending_head c) 0) (queue p' !!! c) /\
       StronglySorted (by_key (texpire s')) (queue p' !!! c)).
Proof.
  intros Hp. destruct (history_refines es (boot ts sd) (p_boot ts) p') as (s' & E & Hr & Hl);
    [apply rep_boot|apply boot_fields|done|].
  exists s'. split; [done|]. split; [done|]. split; [apply Hr|]. split; [apply Hr|].
  intros c Hc. destruct (r_pending _ _ Hr c Hc) as [(ls & Hsk & <-) _]. split; [by apply Hsk|apply Hsk].
Qed.

End Histories.

(** ** Every timer is stopped or pending *)

Section Settle.
Context (lrand48 : Z -> Z * Z) (lcore_role : Z -> Z) (master : Z).

Lemma history_settled es s p p' :
  rep s p -> list_lock s = ∅ -> settled_but 0 [] p ->
  p_history lcore_role master es p = Some p' -> settled_but 0 [] p'.
Proof.
  revert s p. induction es as [|e es IH]; intros s p Hr Hl Hs Hp; cbn [p_history] in Hp; [by injection Hp as <-|].
  destruct (p_handle _ _ e p) as [p1|] eqn:E1; [|done]. cbn [mbind option_bind] in Hp.
  destruct (handle_refines lrand48 lcore_role master e s p p1 Hr Hl E1) as (s1 & _ & Hr1 & Hl1).
  apply (IH s1 p1); [done|done| |done]. destruct e as [lcore_id o|c cur callback]; cbn [p_handle] in E1.
  - by apply (call_settled lrand48 lcore_role master lcore_id o s p).
  - destruct (Z.leb_spec 0 c); [|done]. destruct (Z.ltb_spec c RTE_MAX_LCORE); [|done].
    by apply (manage_settled lrand48 lcore_role master c ltac:(done) callback cur s p).
Qed.

Lemma boot_settled ts : settled_but 0 [] (p_boot ts).
Proof.
  intros t Hm. rewrite decide_False by set_solver. left. split.
  - change (tstatus (boot ts 0) t = mkStatus RTE_TIMER_STOP RTE_TIMER_NO_OWNER).
    change (is_Some (tims (boot ts 0) !! t)) in Hm. revert Hm. induction ts as [|t' ts IH]; intros Hm.
    + change (tims (boot [] 0)) with (tims (zeroed 0)) in Hm. by destruct Hm.
    + cbn [boot foldr] in *. fold (boot ts 0) in *. unfold rte_timer_init in *. rewrite tstatus_set.
      case_decide; [done|]. apply IH. cbn in Hm. by rewrite lookup_insert_ne in Hm.
  - intros [c Hin]. cbn in Hin. by apply elem_of_nil in Hin.
Qed.

(** C12: Every timer is stopped or pending.  In every state that a history of calls
    and callbacks reaches while it respects the callers' obligations — the
    timers are initialised, no callback operates on a timer that still waits
    for its own callback in the same round, no timer is started or re-armed
    to expire at the value 0 of the counter, and lcore ids are unsigned, that
    of [rte_timer_manage] below [RTE_MAX_LCORE] — each timer is either
    stopped, owned by nobody and in no list, or pending, owned by one lcore,
    in the list of that lcore and in no other: none is left running or under
    configuration.  The findings [callback_resets_due_timer] and
    [expire_zero_not_removed] show that the second and the third obligation
    are needed. *)
Theorem timers_stopped_or_pending (ts : list Z) (sd : Z) (es : list event) (p' : pstate) :
  p_history lcore_role master es (p_boot ts) = Some p' ->
  exists s', history lrand48 lcore_role master es (boot ts sd) = Some s' /\
    (forall c, lcore_ok c -> chain (sl_next s') 0 (next s' (pending_head c) 0) (queue p' !!! c)) /\
    forall t, is_Some (tims s' !! t) ->
      (tstatus s' t = mkStatus RTE_TIMER_STOP RTE_TIMER_NO_OWNER /\ forall c, t ∉ queue p' !!! c) \/
      (exists c, lcore_ok c /\ tstatus s' t = mkStatus RTE_TIMER_PENDING c /\ t ∈ queue p' !!! c /\
         forall c', t ∈ queue p' !!! c' -> c' = c).
Proof.
  intros Hp. pose proof (rep_boot ts sd) as Hr0. destruct (boot_fields ts sd) as (_ & _ & _ & Hl0 & _).
  destruct (history_refines lrand48 lcore_role master es _ _ p' Hr0 Hl0 Hp) as (s' & E & Hr & Hl).
  pose proof (history_settled es _ _ p' Hr0 Hl0 (boot_settled ts) Hp) as Hs.
  exists s'. split; [done|]. split.
  - intros c Hc. destruct (r_pending _ _ Hr c Hc) as [(ls & Hsk & <-) _]. by apply Hsk.
  - intros t Hm. rewrite (r_tims _ _ Hr) in Hm. specialize (Hs t Hm). rewrite decide_False in Hs by set_solver.
    rewrite (rep_tstatus _ _ _ Hr). destruct Hs as [[Hst Hq]|(c & Hc & Hst & Hin)]; [left|right].
    + split; [done|]. intros c Hin. apply Hq. by exists c.
    + exists c. split; [done|]. split; [done|]. split; [done|]. intros c' Hin'. by apply (r_disjoint _ _ Hr c' c t).
Qed.

(** ** What [rte_timer_manage] does *)

(** The marked timers differ in their status only. *)
Lemma p_take_tim s p c cur t :
  rep s p -> lcore_ok c -> let run := (p_take c cur p).1 in
  ptim (p_take c cur p).2 t =
  if decide (t ∈ run) then with_status (mkStatus RTE_TIMER_RUNNING c) (tim s t) else tim s t.
Proof.
  intros Hr Hc run. destruct (r_pending _ _ Hr c Hc) as [(ls & Hsk & Eq) _].
  assert (Hnd : NoDup run) by (eapply sublist_NoDup; [|apply sublist_filter]; rewrite <- Eq; apply Hsk).
  assert (E : (p_take c cur p).2 = p_set_tims (mark c (ptims p) run) (p_set_queue c (filter (fun t => due p cur t = false) (queue p !!! c)) p))
    by (unfold p_take; cbn [snd]; by rewrite p_mark).
  rewrite E. unfold ptim, tim. cbn [ptims p_set_tims]. rewrite (r_tims _ _ Hr). clear E.
  pose proof (mark_lookup c run (ptims p) t Hnd) as E. rewrite i16_lcore in E by done. case_decide.
  - by rewrite (lookup_total_correct _ _ _ E).
  - by rewrite !lookup_total_alt, E.
Qed.

(** In a settled state the timers of a queue are pending. *)
Lemma due_is_expired s p cur c :
  rep s p -> settled_but c [] p -> lcore_ok c ->
  filter (fun t => due p cur t = true) (queue p !!! c) = filter (fun t => texpire s t <= cur) (queue p !!! c).
Proof.
  intros Hr Hs Hc.
  assert (Hd : forall t, t ∈ queue p !!! c -> due p cur t = true <-> texpire s t <= cur).
  { intros t Ht. destruct (pending_member s c _ t (r_pending _ _ Hr c Hc) Ht) as [Hm _]. rewrite (r_tims _ _ Hr) in Hm. specialize (Hs t Hm).
    rewrite decide_False in Hs by set_solver. destruct Hs as [[_ []]|(c' & _ & Hst & _)]; [by exists c|].
    unfold due, texpire, tim, pexpire, ptim. rewrite (r_tims _ _ Hr), Hst. cbn. rewrite andb_true_r. apply Z.leb_le. }
  revert Hd. generalize (queue p !!! c). intros l. induction l as [|t l IH]; intros Hd; [done|].
  rewrite !filter_cons. specialize (IH ltac:(intros y Hy; apply Hd; by right)). pose proof (Hd t ltac:(left)).
  do 2 case_decide; rewrite ?IH; tauto.
Qed.

Lemma take_queue c cur m p t c' (run := filter (fun t => due p cur t = true) (queue p !!! c)) :
  (forall c'', t ∈ queue p !!! c -> t ∈ queue p !!! c'' -> c'' = c) ->
  t ∈ queue (p_set_tims m (p_set_queue c (filter (fun t => due p cur t = false) (queue p !!! c)) p)) !!! c' <->
  t ∈ queue p !!! c' /\ t ∉ run.
Proof.
  intros Hd. cbn. rewrite lookup_total_insert. unfold run. rewrite (list_elem_of_filter (fun t => due p cur t = true)).
  case_decide as Ec; [subst c'; rewrite (list_elem_of_filter (fun t => _)); destruct (due p cur t); naive_solver|].
  split; [|tauto]. intros Hin. split; [done|]. intros [_ Hin']. by destruct Ec; rewrite (Hd c').
Qed.

Lemma manage_effect callback cur c s p s' p' :
  rep s p -> list_lock s = ∅ -> lcore_ok c -> settled_but c [] p -> rep s' p' ->
  p_manage lcore_role master callback c cur p = Some p' ->
  let run := filter (fun t => due p cur t = true) (queue p !!! c) in
  calls s' = calls s ++ map (fun t => (f (tim s t), t, arg (tim s t))) run /\
  (forall t, (forall y, y ∈ run -> t ∉ map op_timer (callback (f (tim s y)) y (arg (tim s y)))) ->
     tim s' t = (if decide (t ∈ run) then after_call c cur (tim s t) else tim s t) /\
     (forall c', t ∈ queue p' !!! c' <->
        (t ∈ queue p !!! c' /\ t ∉ run) \/ (c' = c /\ t ∈ run /\ period (tim s t) <> 0))).
Proof.
  intros Hr Hl Hc Hs Hr' Hp run.
  destruct (take_expired_spec lrand48 c cur s p Hr Hc Hl) as (_ & s1 & _ & Hr1 & _ & Hl1).
  unfold p_manage in Hp. rewrite (surjective_pairing (p_take c cur p)) in Hp.
  change (p_take c cur p).1 with run in Hp. set (p1 := (p_take c cur p).2) in *.
  assert (Hw : waiting_here p1 run) by (exact (p_take_waiting c Hc cur s p Hr)).
  assert (Hs1 : settled_but c run p1) by (by eapply take_settled).
  assert (Ht1 : forall t, ptim p1 t =
      if decide (t ∈ run) then with_status (mkStatus RTE_TIMER_RUNNING c) (tim s t) else tim s t)
    by (intros t; apply (p_take_tim s p c cur t Hr Hc)).
  assert (Hf1 : forall t, f (ptim p1 t) = f (tim s t) /\ arg (ptim p1 t) = arg (tim s t) /\
      period (ptim p1 t) = period (tim s t)) by (intros t; rewrite Ht1; by case_decide).
  assert (Eq1 : p1 = p_set_tims (mark c (ptims p) run) (p_set_queue c (filter (fun t => due p cur t = false) (queue p !!! c)) p))
    by (unfold p1, p_take; cbn [snd]; by rewrite p_mark).
  split.
  - rewrite (r_calls _ _ Hr'), (r_calls _ _ Hr).
    rewrite (run_calls lrand48 lcore_role master c Hc callback cur _ s1 _ _ Hr1 Hl1 Hw Hp).
    f_equal; [by rewrite Eq1|]. apply map_ext. intros t. destruct (Hf1 t) as (-> & -> & _). done.
  - intros t Hun. destruct (run_untouched lrand48 lcore_role master c Hc callback cur run s1 p1 p' t Hr1 Hl1 Hw Hs1 Hp)
      as [Et Eq]. { intros y Hy. destruct (Hf1 y) as (-> & -> & _). by apply Hun. }
    assert (Etim : tim s' t = ptim p' t) by (unfold tim, ptim; by rewrite (r_tims _ _ Hr')).
    split; [rewrite Etim, Et, Ht1; by case_decide|]. intros c'. rewrite Eq. destruct (Hf1 t) as (_ & _ & ->).
    apply or_iff_compat_r. rewrite Eq1. apply take_queue. intros c'' H1 H2. by apply (r_disjoint _ _ Hr c'' c t).
Qed.

(** C11: [rte_timer_manage] runs the due timers.  After any history, and for any
    callbacks — which may themselves start and stop timers — such that the
    callers' obligations are respected (no callback operates on a timer that
    still waits for its own callback in the same round, no timer is started
    or re-armed to expire at the value 0 of the counter; see the findings
    [callback_resets_due_timer] and [expire_zero_not_removed]), it returns
    with all locks free, and the callbacks called are those of the timers
    pending on this lcore whose expiry is not after the current time, each
    once and in the order of the list, which is by expiry.  Of the timers on
    which no callback of the round operates, the one-shot ones that were run
    are stopped and in no list, the periodic ones that were run are pending
    on this lcore at the current time plus their period, and all the others
    are unchanged, in their field values and in the lists they are in.  (A
    timer on which a callback operates is as these calls leave it: C10.) *)
Theorem manage_runs_due (ts : list Z) (sd : Z) (es : list event) (c cur : Z)
    (callback : Z -> Z -> Z -> list op) (p p' : pstate) :
  p_history lcore_role master es (p_boot ts) = Some p ->
  p_handle lcore_role master (Manage c cur callback) p = Some p' ->
  exists s s', history lrand48 lcore_role master es (boot ts sd) = Some s /\
    rte_timer_manage lrand48 lcore_role master callback c cur s = Some s' /\ list_lock s' = ∅ /\
    (forall c', lcore_ok c' -> chain (sl_next s) 0 (next s (pending_head c') 0) (queue p !!! c') /\
       StronglySorted (by_key (texpire s)) (queue p !!! c') /\
       chain (sl_next s') 0 (next s' (pending_head c') 0) (queue p' !!! c')) /\
    let run := filter (fun t => texpire s t <= cur) (queue p !!! c) in
    calls s' = calls s ++ map (fun t => (f (tim s t), t, arg (tim s t))) run /\
    (forall t, (forall y, y ∈ run -> t ∉ map op_timer (callback (f (tim s y)) y (arg (tim s y)))) ->
       tim s' t = (if decide (t ∈ run) then after_call c cur (tim s t) else tim s t) /\
       (forall c', t ∈ queue p' !!! c' <->
          (t ∈ queue p !!! c' /\ t ∉ run) \/ (c' = c /\ t ∈ run /\ period (tim s t) <> 0))).
Proof.
  intros Hes Hp. pose proof (rep_boot ts sd) as Hr0. destruct (boot_fields ts sd) as (_ & _ & _ & Hl0 & _).
  destruct (history_refines lrand48 lcore_role master es _ _ p Hr0 Hl0 Hes) as (s & E & Hr & Hl).
  pose proof (history_settled es _ _ p Hr0 Hl0 (boot_settled ts) Hes) as Hs0. cbn [p_handle] in Hp.
  destruct (Z.leb_spec 0 c); [|done]. destruct (Z.ltb_spec c RTE_MAX_LCORE); [|done]. cbn [andb] in Hp.
  assert (Hc : lcore_ok c) by done. assert (Hs : settled_but c [] p) by exact Hs0.
  destruct (manage_refines lrand48 lcore_role master c Hc callback cur s p p' Hr Hl Hp) as (s' & Es & Hr' & Hl').
  exists s, s'. split; [done|]. split; [done|]. split; [done|]. split.
  { intros c' Hc'. destruct (r_pending _ _ Hr c' Hc') as [(ls & Hsk & <-) _].
    destruct (r_pending _ _ Hr' c' Hc') as [(ls' & Hsk' & <-) _].
    split; [by apply Hsk|]. split; [apply Hsk|by apply Hsk']. }
  rewrite <- (due_is_expired s p cur c Hr Hs Hc). by apply (manage_effect callback cur c s p s' p').
Qed.

End Settle.

(** ** The skip list finds what a linear search finds *)

(** At every level the search through the skip list ends at the entry where
    walking that level's list from its head ends: the last one that expires
    at or before the given time.  The upper levels only shorten the way. *)
Theorem search_is_linear s c ls tv :
  skiplist s c ls ->
  exists prev, timer_get_prev_entries tv c s = Some prev /\
    forall i, 0 <= i <= depth s c -> i < MAX_SKIPLIST_DEPTH ->
      advance s tv i (fuel_of s) (pending_head c) = Some (prev !!! i).
Proof.
  intros Hsk. destruct (get_prev_entries_spec s c ls Hsk tv) as (prev & E & Hp).
  exists prev. split; [done|]. intros i Hi Hmax. rewrite Hp by done. apply advance_spec.
  - apply Hsk. lia.
  - apply sk_level_sorted with c; [done|lia].
  - pose proof (sk_level_bound s c ls Hsk i ltac:(lia)). unfold fuel_of. lia.
Qed.

(** ** Lcores in turn *)

(** With [wrap], [rte_get_next_lcore] ends as soon as one lcore is enabled,
    and returns the first enabled lcore after the given one in cyclic order,
    which is how timers started on [LCORE_ID_ANY] are spread. *)
Theorem next_lcore_round_robin lcore_role master i e :
  lcore_ok e -> enabled lcore_role e ->
  exists k, 0 <= k < RTE_MAX_LCORE /\
    rte_get_next_lcore lcore_role master i false true = Some ((i + 1 + k) mod RTE_MAX_LCORE) /\
    enabled lcore_role ((i + 1 + k) mod RTE_MAX_LCORE) /\
    forall j, 0 <= j < k -> ~ enabled lcore_role ((i + 1 + j) mod RTE_MAX_LCORE).
Proof.
  intros He Hen. unfold rte_get_next_lcore. cbv zeta iota. rewrite u32_mod_lcore.
  pose proof (next_lcore_loop_spec lcore_role master (Z.to_nat (RTE_MAX_LCORE + 1)) ((i + 1) mod RTE_MAX_LCORE)) as Hsp.
  specialize (Hsp ltac:(by apply Z.mod_pos_bound)).
  assert (Hdist : exists d, 0 <= d < RTE_MAX_LCORE /\ ((i + 1) mod RTE_MAX_LCORE + d) mod RTE_MAX_LCORE = e).
  { exists ((e - (i + 1)) mod RTE_MAX_LCORE). split; [by apply Z.mod_pos_bound|].
    rewrite <- Zplus_mod. replace (i + 1 + (e - (i + 1))) with e by lia. by apply Z.mod_small. }
  destruct Hdist as (d & Hd & Ed). destruct (next_lcore_loop _ _ _ _ _ _) as [x|].
  - destruct Hsp as (k & Hk & -> & Hx & Hfirst). exists k. rewrite Zplus_mod_idemp_l in *.
    split; [|split; [done|split; [done|]]].
    + destruct (decide (k <= d)); [lia|]. destruct (Hfirst d); [lia|]. by rewrite Zplus_mod_idemp_l, Ed.
    + intros j Hj. specialize (Hfirst j Hj). by rewrite Zplus_mod_idemp_l in Hfirst.
  - destruct (Hsp d); [unfold RTE_MAX_LCORE in *; lia|]. by rewrite Ed.
Qed.

(** ** The waiting variants *)

(** [rte_timer_reset_sync] retries until [rte_timer_reset] succeeds, which it
    never does for an lcore that is not enabled. *)
Theorem reset_sync_spins lrand48 lcore_role master fuel lcore_id clock t ticks type c fct ar s :
  c <> LCORE_ID_ANY -> ~ enabled lcore_role c ->
  rte_timer_reset_sync lrand48 lcore_role master fuel lcore_id clock t ticks type c fct ar s = None.
Proof.
  intros Hc Hen. revert s. induction fuel as [|fuel IH]; intros s; [done|]. cbn [rte_timer_reset_sync].
  unfold rte_timer_reset. unfold enabled in Hen. destruct (Z.eqb_spec c LCORE_ID_ANY); [done|].
  destruct (rte_lcore_is_enabled lcore_role c); [done|]. cbn [negb andb mbind option_bind].
  change (-1 =? 0) with false. apply IH.
Qed.

(** ** Sample histories *)

Definition idle (_ _ _ : Z) : list op := [].

(** Lcores 0 and 1 are enabled; the second timer started goes to level 1. *)
Definition sample_rand (x : Z) : Z * Z := (if x =? 3 then 8 else 2, x + 1).
Definition two_lcores (c : Z) : Z := if c <? 2 then 0 else ROLE_OFF.
Definition start (t exp : Z) : event := Call 0 (Reset 0 t exp SINGLE 0 (t + 100) (t + 200)).
Definition sample_run (es : list event) : option tstate :=
  history sample_rand two_lcores 0 es (boot [1; 2; 3] 0).
Definition pending_on (t c : Z) (s : tstate) : bool :=
  bool_decide (tstatus s t = mkStatus RTE_TIMER_PENDING c).

(** The callback of timer 1 moves it to the next lcore and stops timer 3. *)
Definition sample_callback (fct t ar : Z) : list op :=
  if t =? 1 then [Reset 20 1 480 PERIODICAL LCORE_ID_ANY 102 202; Stop 3] else [].
Definition sample_start : list event :=
  [start 1 10; Call 1 (Reset 0 2 11 PERIODICAL 0 5 6); start 3 1000].
Definition sample_history : list event := sample_start ++ [Manage 0 20 sample_callback].
Definition sample_started : pstate := default (p_boot []) (p_history two_lcores 0 sample_start (p_boot [1; 2; 3])).
Definition sample_end : pstate := default (p_boot []) (p_history two_lcores 0 sample_history (p_boot [1; 2; 3])).

Lemma sample_started_eq : p_history two_lcores 0 sample_start (p_boot [1; 2; 3]) = Some sample_started.
Proof. vm_compute. reflexivity. Qed.

Lemma sample_end_eq : p_history two_lcores 0 sample_history (p_boot [1; 2; 3]) = Some sample_end.
Proof. vm_compute. reflexivity. Qed.

Lemma sample_rep :
  exists s, sample_run sample_start = Some s /\ rep s sample_started /\ list_lock s = ∅.
Proof.
  apply (history_refines sample_rand two_lcores 0 sample_start _ (p_boot [1; 2; 3])).
  - apply rep_boot.
  - apply boot_fields.
  - apply sample_started_eq.
Qed.

Lemma timers_refine_queues_witness :
  queue sample_end !!! 0 = [2] /\ queue sample_end !!! 1 = [1] /\
  exists s', sample_run sample_history = Some s' /\ list_lock s' = ∅ /\ tims s' = ptims sample_end /\
    calls s' = pcalls sample_end /\
    (forall c, lcore_ok c -> chain (sl_next s') 0 (next s' (pending_head c) 0) (queue sample_end !!! c) /\
       StronglySorted (by_key (texpire s')) (queue sample_end !!! c)).
Proof.
  split; [vm_compute; reflexivity|]. split; [vm_compute; reflexivity|].
  exact (timers_refine_queues sample_rand two_lcores 0 [1; 2; 3] 0 sample_history sample_end sample_end_eq).
Defined.

Lemma timers_stopped_or_pending_witness :
  exists s', sample_run sample_history = Some s' /\
    (forall c, lcore_ok c -> chain (sl_next s') 0 (next s' (pending_head c) 0) (queue sample_end !!! c)) /\
    forall t, is_Some (tims s' !! t) ->
      (tstatus s' t = mkStatus RTE_TIMER_STOP RTE_TIMER_NO_OWNER /\ forall c, t ∉ queue sample_end !!! c) \/
      (exists c, lcore_ok c /\ tstatus s' t = mkStatus RTE_TIMER_PENDING c /\ t ∈ queue sample_end !!! c /\
         forall c', t ∈ queue sample_end !!! c' -> c' = c).
Proof. exact (timers_stopped_or_pending sample_rand two_lcores 0 [1; 2; 3] 0 sample_history sample_end sample_end_eq). Defined.

Lemma manage_runs_due_witness :
  exists s s', sample_run sample_start = Some s /\
    rte_timer_manage sample_rand two_lcores 0 sample_callback 0 20 s = Some s' /\ list_lock s' = ∅ /\
    calls s' = calls s ++ map (fun t => (f (tim s t), t, arg (tim s t)))
                            (filter (fun t => texpire s t <= 20) (queue sample_started !!! 0)) /\
    queue sample_started !!! 0 = [1; 2; 3] /\ queue sample_end !!! 0 = [2] /\ queue sample_end !!! 1 = [1].
Proof.
  assert (Hp : p_handle two_lcores 0 (Manage 0 20 sample_callback) sample_started = Some sample_end)
    by (vm_compute; reflexivity).
  destruct (manage_runs_due sample_rand two_lcores 0 [1; 2; 3] 0 sample_start 0 20 sample_callback
    sample_started sample_end sample_started_eq Hp) as (s & s' & E & Em & Hl & _ & Hc & _).
  exists s, s'. refine (conj E (conj Em (conj Hl (conj Hc _)))). split_and!; vm_compute; reflexivity.
Defined.

Lemma search_is_linear_witness :
  exists s prev, sample_run sample_start = Some s /\ timer_get_prev_entries 15 0 s = Some prev /\
    forall i, 0 <= i <= depth s 0 -> i < MAX_SKIPLIST_DEPTH ->
      advance s 15 i (fuel_of s) (pending_head 0) = Some (prev !!! i).
Proof.
  destruct sample_rep as (s & E & Hr & Hl). revert Hr. generalize sample_started. intros p Hr.
  assert (Hc : lcore_ok 0) by (split; reflexivity || discriminate).
  destruct (r_pending _ _ Hr 0 Hc) as [(ls & Hsk & _) _].
  destruct (search_is_linear s 0 ls 15 Hsk) as (prev & Ep & Hp). exists s, prev. exact (conj E (conj Ep Hp)).
Defined.

Lemma next_lcore_round_robin_witness :
  enabled two_lcores 1 /\ exists k, 0 <= k < RTE_MAX_LCORE /\
    rte_get_next_lcore two_lcores 0 1 false true = Some ((1 + 1 + k) mod RTE_MAX_LCORE) /\
    enabled two_lcores ((1 + 1 + k) mod RTE_MAX_LCORE) /\
    forall j, 0 <= j < k -> ~ enabled two_lcores ((1 + 1 + j) mod RTE_MAX_LCORE).
Proof.
  assert (H1 : enabled two_lcores 1) by reflexivity. split; [exact H1|].
  exact (next_lcore_round_robin two_lcores 0 1 1 ltac:(done) H1).
Defined.

(** ** Where the code does not do what it means to *)

(** Breaking the list drops the upper levels that have no expired entry: the
    timer linked at level 1 is no longer reachable there, while the depth
    still counts that level. *)
Theorem manage_drops_levels :
  (s ← sample_run [start 1 10; start 2 20]; Some (next s (pending_head 0) 1, depth s 0)) = Some (Some 2, 2) /\
  (s ← sample_run [start 1 10; start 2 20; Manage 0 15 idle];
   Some (next s (pending_head 0) 0, next s (pending_head 0) 1, depth s 0)) = Some (Some 2, None, 2).
Proof. vm_compute. split; reflexivity. Qed.

(** A callback that starts another due timer anew, which the status test
    allows on the same lcore, sends the loop into the list of pending timers:
    at time 20 the timers that expire at 500 and 1000 are called too, timer 3
    is marked stopped while it stays in the list, and timer 1 stays running. *)
Theorem callback_resets_due_timer :
  let meddle (fct t ar : Z) := if t =? 1 then [Reset 20 2 480 SINGLE 0 102 202] else [] in
  (s ← sample_run [start 1 10; start 2 11; start 3 1000; Manage 0 20 meddle];
   Some (calls s, texpire s 2, texpire s 3, tstatus s 3, next s (timer_at 2) 0, tstatus s 1)) =
  Some ([(101, 1, 201); (102, 2, 202); (103, 3, 203)], 500, 1000,
        mkStatus RTE_TIMER_STOP RTE_TIMER_NO_OWNER, Some 3, mkStatus RTE_TIMER_RUNNING 0).
Proof. vm_compute. reflexivity. Qed.

(** A timer that expires when the counter wraps to 0 is not taken out of the
    list: [expire - 1] is the largest time. *)
Theorem expire_zero_not_removed :
  (s ← sample_run [Call 0 (Reset (2 ^ 64 - 5) 1 5 SINGLE 0 1 1); Call 0 (Stop 1)];
   Some (tstatus s 1, next s (pending_head 0) 0)) =
  Some (mkStatus RTE_TIMER_STOP RTE_TIMER_NO_OWNER, Some 1).
Proof. vm_compute. reflexivity. Qed.
