(* ===== verification/Mbuf.v ===== *)
(** * Packet buffers: the operations of librte_mbuf/rte_mbuf.h

    A packet is a chain of segments.  Each segment is an mbuf, a structure at
    an address, which points into a data buffer: its own, or, for an indirect
    mbuf, the one of a direct mbuf whose reference counter it raises.  The
    bytes are kept per buffer: the cell [(b, o)] is the byte at offset [o] of
    the buffer that starts at address [b].

    The mempools that hand out mbufs are used through the interface
    [MbufPool].  Recorded are the members of [struct rte_mbuf] that the
    modelled code reads. *)
From S2P Require Import Prelude.

(** ** The interface of the pools *)

Class MbufPool (P : Type) := {
  mp_get : P -> option (Z * P);
  mp_put : P -> Z -> P }.

(** [mp_repr p U O]: the pool [p] of the objects [U] holds the objects [O]. *)
Class MbufPoolLaws (P : Type) `{MbufPool P} := {
  mp_repr : P -> gset Z -> gset Z -> Prop;
  mp_get_law p U O x p' : mp_repr p U O -> mp_get p = Some (x, p') -> x ∈ O /\ mp_repr p' U (O ∖ {[x]});
  mp_put_law p U O x : mp_repr p U O -> x ∈ U -> x ∉ O -> mp_repr (mp_put p x) U ({[x]} ∪ O) }.

(** A stack of objects, as in the cache of an lcore. *)
#[export] Instance stack_pool : MbufPool (list Z) := {
  mp_get l := match l with [] => None | x :: l => Some (x, l) end;
  mp_put l x := x :: l }.

#[export] Instance stack_pool_laws : MbufPoolLaws (list Z).
Proof.
  refine {| mp_repr l U O := NoDup l /\ O = list_to_set l |}.
  - intros [|y l] U O x p' (Hnd & ->); [done|]. cbn. intros [= -> ->]. apply NoDup_cons in Hnd as [Hx Hnd].
    split; [set_solver|]. split; [done|]. apply set_eq. intros z. rewrite elem_of_difference, elem_of_union, elem_of_singleton, elem_of_list_to_set.
    split; [tauto|]. intros Hz. split; [by right|]. by intros ->.
  - intros l U O x (Hnd & ->) Hx HxO. cbn. split; [|done]. constructor; [|done]. by rewrite elem_of_list_to_set in HxO.
Defined.

(** ** Data *)

Definition SIZEOF_RTE_MBUF : Z := 128.
Definition RTE_PKTMBUF_HEADROOM : Z := 128.
Definition IND_ATTACHED_MBUF : Z := 2 ^ 62.
Definition PKT_TX_IP_CKSUM : Z := 2 ^ 54.
Definition EOVERFLOW : Z := 75.

Record rte_mbuf := mkMbuf {
  buf_addr : Z;
  buf_len : Z;
  data_off : Z;
  refcnt : Z;
  nb_segs : Z;
  ol_flags : Z;
  pkt_len : Z;
  data_len : Z;
  pool : Z;
  next : option Z;
  l2_len : Z;
  l3_len : Z;
  priv_size : Z }.

#[export] Instance rte_mbuf_inhabited : Inhabited rte_mbuf :=
  populate (mkMbuf 0 0 0 0 0 0 0 0 0 None 0 0 0).

(** A pool with its private data. *)
Record mbuf_pool (P : Type) := mkPool {
  objs : P;
  mbuf_data_room_size : Z;
  mbuf_priv_size : Z }.
Arguments mkPool {P} _ _ _.
Arguments objs {P} _.
Arguments mbuf_data_room_size {P} _.
Arguments mbuf_priv_size {P} _.

Record mstate (P : Type) := mkMstate {
  mbufs : gmap Z rte_mbuf;
  mem : gmap (Z * Z) Z;
  pools : gmap Z (mbuf_pool P) }.
Arguments mkMstate {P} _ _ _.
Arguments mbufs {P} _.
Arguments mem {P} _.
Arguments pools {P} _.

Section Mbuf.
Context {P : Type} `{MbufPool P}.
Implicit Types (s : mstate P) (m : Z).

Definition mbuf s m : rte_mbuf := mbufs s !!! m.
Definition set_mbuf m (r : rte_mbuf) s : mstate P := mkMstate (<[m := r]> (mbufs s)) (mem s) (pools s).

Definition set_refcnt (v : Z) (r : rte_mbuf) : rte_mbuf :=
  mkMbuf (buf_addr r) (buf_len r) (data_off r) v (nb_segs r) (ol_flags r) (pkt_len r) (data_len r)
    (pool r) (next r) (l2_len r) (l3_len r) (priv_size r).
Definition set_link (n : option Z) (r : rte_mbuf) : rte_mbuf :=
  mkMbuf (buf_addr r) (buf_len r) (data_off r) (refcnt r) (nb_segs r) (ol_flags r) (pkt_len r)
    (data_len r) (pool r) n (l2_len r) (l3_len r) (priv_size r).
(** Offset and length of the data, and length of the packet. *)
Definition set_data (off dlen plen : Z) (r : rte_mbuf) : rte_mbuf :=
  mkMbuf (buf_addr r) (buf_len r) off (refcnt r) (nb_segs r) (ol_flags r) plen dlen
    (pool r) (next r) (l2_len r) (l3_len r) (priv_size r).
Definition set_packet (segs plen : Z) (r : rte_mbuf) : rte_mbuf :=
  mkMbuf (buf_addr r) (buf_len r) (data_off r) (refcnt r) segs (ol_flags r) plen (data_len r)
    (pool r) (next r) (l2_len r) (l3_len r) (priv_size r).
Definition set_tx (flags l2 l3 : Z) (r : rte_mbuf) : rte_mbuf :=
  mkMbuf (buf_addr r) (buf_len r) (data_off r) (refcnt r) (nb_segs r) flags (pkt_len r) (data_len r)
    (pool r) (next r) l2 l3 (priv_size r).

(** ** Reference counters *)

Definition rte_mbuf_refcnt_read s m : Z := refcnt (mbuf s m).
Definition rte_mbuf_refcnt_set m (v : Z) s : mstate P := set_mbuf m (set_refcnt (u16 v) (mbuf s m)) s.

Definition rte_mbuf_refcnt_update m (value : Z) s : Z * mstate P :=
  if rte_mbuf_refcnt_read s m =? 1
  then (u16 (1 + value), rte_mbuf_refcnt_set m (1 + value) s)
  else let v := u16 (refcnt (mbuf s m) + value) in (v, set_mbuf m (set_refcnt v (mbuf s m)) s).

Definition RTE_MBUF_INDIRECT (r : rte_mbuf) : bool := negb (Z.land (ol_flags r) IND_ATTACHED_MBUF =? 0).

Definition rte_mbuf_from_indirect (r : rte_mbuf) : Z := buf_addr r - (SIZEOF_RTE_MBUF + priv_size r).

(** ** Pools *)

Definition the_pool s (mp : Z) : option (mbuf_pool P) := pools s !! mp.
Definition rte_pktmbuf_priv_size s (mp : Z) : Z := from_option mbuf_priv_size 0 (the_pool s mp).
Definition rte_pktmbuf_data_room_size s (mp : Z) : Z := from_option mbuf_data_room_size 0 (the_pool s mp).

Definition set_objs (mp : Z) (q : mbuf_pool P) (o : P) s : mstate P :=
  mkMstate (mbufs s) (mem s) (<[mp := mkPool o (mbuf_data_room_size q) (mbuf_priv_size q)]> (pools s)).

Definition rte_mempool_get (mp : Z) s : option (Z * mstate P) :=
  match the_pool s mp with
  | None => None
  | Some q => match mp_get (objs q) with None => None | Some (x, o) => Some (x, set_objs mp q o s) end
  end.
Definition rte_mempool_put (mp x : Z) s : mstate P :=
  match the_pool s mp with None => s | Some q => set_objs mp q (mp_put (objs q) x) s end.

(** ** Allocation and release *)

Definition __rte_mbuf_raw_alloc (mp : Z) s : option (Z * mstate P) :=
  match rte_mempool_get mp s with
  | None => None
  | Some (m, s) => Some (m, rte_mbuf_refcnt_set m 1 s)
  end.

Definition __rte_mbuf_raw_free m s : mstate P := rte_mempool_put (pool (mbuf s m)) m s.

Definition rte_pktmbuf_reset m s : mstate P :=
  let r := mbuf s m in
  let off := if RTE_PKTMBUF_HEADROOM <=? buf_len r then RTE_PKTMBUF_HEADROOM else buf_len r in
  set_mbuf m (mkMbuf (buf_addr r) (buf_len r) off (refcnt r) 1 0 0 0 (pool r) None 0 0 (priv_size r)) s.

Definition rte_pktmbuf_alloc (mp : Z) s : option (Z * mstate P) :=
  match __rte_mbuf_raw_alloc mp s with
  | None => None
  | Some (m, s) => Some (m, rte_pktmbuf_reset m s)
  end.

(** The constructor of the objects of a pool. *)
Definition rte_pktmbuf_init (mp m : Z) s : mstate P :=
  let psz := rte_pktmbuf_priv_size s mp in
  let len := u16 (rte_pktmbuf_data_room_size s mp) in
  set_mbuf m (mkMbuf (m + (SIZEOF_RTE_MBUF + psz)) len (Z.min RTE_PKTMBUF_HEADROOM len) 0 1 0 0 0 mp
                None 0 0 psz) s.

Definition rte_pktmbuf_attach (mi m : Z) s : mstate P :=
  let r := mbuf s m in
  let md := if RTE_MBUF_INDIRECT r then rte_mbuf_from_indirect r else m in
  let '(_, s) := rte_mbuf_refcnt_update md 1 s in
  let r := mbuf s m in
  let i := mbuf s mi in
  set_mbuf mi (mkMbuf (buf_addr r) (buf_len r) (data_off r) (refcnt i) 1
                 (Z.lor (ol_flags r) IND_ATTACHED_MBUF) (data_len r) (data_len r) (pool i) None
                 (l2_len r) (l3_len r) (priv_size r)) s.

Definition rte_pktmbuf_detach m s : mstate P :=
  let r := mbuf s m in
  let mp := pool r in
  let psz := rte_pktmbuf_priv_size s mp in
  let len := u16 (rte_pktmbuf_data_room_size s mp) in
  set_mbuf m (mkMbuf (m + (SIZEOF_RTE_MBUF + psz)) len (Z.min RTE_PKTMBUF_HEADROOM len) (refcnt r)
                (nb_segs r) 0 (pkt_len r) 0 mp (next r) (l2_len r) (l3_len r) psz) s.

(** The boolean says whether the segment may go back to its pool. *)
Definition __rte_pktmbuf_prefree_seg m s : bool * mstate P :=
  let '(n, s) := rte_mbuf_refcnt_update m (-1) s in
  if n =? 0 then
    let r := mbuf s m in
    if RTE_MBUF_INDIRECT r then
      let md := rte_mbuf_from_indirect r in
      let s := rte_pktmbuf_detach m s in
      let '(k, s) := rte_mbuf_refcnt_update md (-1) s in
      (true, if k =? 0 then __rte_mbuf_raw_free md s else s)
    else (true, s)
  else (false, s).

Definition rte_pktmbuf_free_seg m s : mstate P :=
  let '(go, s) := __rte_pktmbuf_prefree_seg m s in
  if go then __rte_mbuf_raw_free m (set_mbuf m (set_link None (mbuf s m)) s) else s.

Definition mfuel s : nat := S (size (mbufs s)).

Fixpoint free_loop (fuel : nat) (p : option Z) s : option (mstate P) :=
  match p with
  | None => Some s
  | Some m =>
      match fuel with
      | O => None
      | S fuel' => let m_next := next (mbuf s m) in free_loop fuel' m_next (rte_pktmbuf_free_seg m s)
      end
  end.
Definition rte_pktmbuf_free m s : option (mstate P) := free_loop (mfuel s) (Some m) s.

(** ** Segments and data *)

Fixpoint lastseg_loop s (fuel : nat) m : option Z :=
  match next (mbuf s m) with
  | None => Some m
  | Some n => match fuel with O => None | S fuel' => lastseg_loop s fuel' n end
  end.
Definition rte_pktmbuf_lastseg s m : option Z := lastseg_loop s (mfuel s) m.

Definition rte_pktmbuf_headroom s m : Z := data_off (mbuf s m).
Definition rte_pktmbuf_tailroom s m : Z :=
  u16 (buf_len (mbuf s m) - rte_pktmbuf_headroom s m - data_len (mbuf s m)).

(** The functions that return a pointer into the data give its place. *)
Definition rte_pktmbuf_mtod s m : Z * Z := (buf_addr (mbuf s m), data_off (mbuf s m)).

Definition rte_pktmbuf_prepend m (len : Z) s : option (Z * Z) * mstate P :=
  if len >? rte_pktmbuf_headroom s m then (None, s)
  else
    let r := mbuf s m in
    let s := set_mbuf m (set_data (u16 (data_off r - len)) (u16 (data_len r + len)) (u32 (pkt_len r + len)) r) s in
    (Some (rte_pktmbuf_mtod s m), s).

Definition rte_pktmbuf_append m (len : Z) s : option (option (Z * Z) * mstate P) :=
  m_last ← rte_pktmbuf_lastseg s m;
  if len >? rte_pktmbuf_tailroom s m_last then Some (None, s)
  else
    let r := mbuf s m_last in
    let tail := (buf_addr r, data_off r + data_len r) in
    let s := set_mbuf m_last (set_data (data_off r) (u16 (data_len r + len)) (pkt_len r) r) s in
    let h := mbuf s m in
    let s := set_mbuf m (set_data (data_off h) (data_len h) (u32 (pkt_len h + len)) h) s in
    Some (Some tail, s).

Definition rte_pktmbuf_adj m (len : Z) s : option (Z * Z) * mstate P :=
  let r := mbuf s m in
  if len >? data_len r then (None, s)
  else
    let s := set_mbuf m (set_data (u16 (data_off r + len)) (u16 (data_len r - len)) (u32 (pkt_len r - len)) r) s in
    (Some (rte_pktmbuf_mtod s m), s).

Definition rte_pktmbuf_trim m (len : Z) s : option (Z * mstate P) :=
  m_last ← rte_pktmbuf_lastseg s m;
  let r := mbuf s m_last in
  if len >? data_len r then Some (-1, s)
  else
    let s := set_mbuf m_last (set_data (data_off r) (u16 (data_len r - len)) (pkt_len r) r) s in
    let h := mbuf s m in
    Some (0, set_mbuf m (set_data (data_off h) (data_len h) (u32 (pkt_len h - len)) h) s).

Definition rte_pktmbuf_chain (hd tl : Z) s : option (Z * mstate P) :=
  if nb_segs (mbuf s hd) + nb_segs (mbuf s tl) >=? Z.shiftl 1 8 then Some (- EOVERFLOW, s)
  else
    cur_tail ← rte_pktmbuf_lastseg s hd;
    let s := set_mbuf cur_tail (set_link (Some tl) (mbuf s cur_tail)) s in
    let h := mbuf s hd in
    let s := set_mbuf hd (set_packet (u8 (nb_segs h + nb_segs (mbuf s tl))) (u32 (pkt_len h + pkt_len (mbuf s tl))) h) s in
    let t := mbuf s tl in
    Some (0, set_mbuf tl (set_packet (nb_segs t) (data_len t) t) s).

(** ** Clones *)

(** The [do]-[while] loop; [prev] is the mbuf whose [next] is assigned, in the
    first round [mi] itself. *)
Fixpoint clone_loop (fuel : nat) (mp mi md prev nseg : Z) s : option (option Z * Z * Z * mstate P) :=
  match fuel with
  | O => None
  | S fuel' =>
      let nseg := u8 (nseg + 1) in
      let s := rte_pktmbuf_attach mi md s in
      let s := set_mbuf prev (set_link (Some mi) (mbuf s prev)) s in
      let prev := mi in
      match next (mbuf s md) with
      | None => Some (Some mi, prev, nseg, s)
      | Some md =>
          match rte_pktmbuf_alloc mp s with
          | None => Some (None, prev, nseg, s)
          | Some (mi, s) => clone_loop fuel' mp mi md prev nseg s
          end
      end
  end.

Definition rte_pktmbuf_clone (md mp : Z) s : option (option Z * mstate P) :=
  match rte_pktmbuf_alloc mp s with
  | None => Some (None, s)
  | Some (mc, s) =>
      let pktlen := pkt_len (mbuf s md) in
      '(mi, prev, nseg, s) ← clone_loop (mfuel s) mp mc md mc 0 s;
      let s := set_mbuf prev (set_link None (mbuf s prev)) s in
      let s := set_mbuf mc (set_packet nseg pktlen (mbuf s mc)) s in
      match mi with
      | None => s ← rte_pktmbuf_free mc s; Some (None, s)
      | Some _ => Some (Some mc, s)
      end
  end.

End Mbuf.
