(* ===== verification/MbufPacket.v ===== *)
(** * Packet buffers: a packet is a string of bytes

    Which bytes a chain of segments holds, and that removing data at the front
    or the back, making room, and chaining packets are the operations on byte
    strings. *)
From S2P Require Import Prelude Mbuf.

Section Packet.
Context {P : Type} `{!MbufPool P}.
Implicit Types (s : mstate P) (m : Z) (l : list Z).

(** ** Segments *)

(** Following [next] from [p] gives [l]. *)
Fixpoint seglist s (p : option Z) l : Prop :=
  match l with
  | [] => p = None
  | m :: l' => p = Some m /\ seglist s (next (mbuf s m)) l'
  end.

Record seg_ok s m : Prop := {
  so_dom : is_Some (mbufs s !! m);
  so_off : 0 <= data_off (mbuf s m);
  so_len : 0 <= data_len (mbuf s m);
  so_room : data_off (mbuf s m) + data_len (mbuf s m) <= buf_len (mbuf s m);
  so_buf : buf_len (mbuf s m) < 2 ^ 16 }.

(** [n] bytes of the buffer [b] from offset [o] on. *)
Definition read_bytes s (b o : Z) (n : nat) : list Z := map (fun i => mem s !!! (b, o + Z.of_nat i)) (seq 0 n).

Definition seg_bytes s m : list Z :=
  read_bytes s (buf_addr (mbuf s m)) (data_off (mbuf s m)) (Z.to_nat (data_len (mbuf s m))).

(** The bytes of a packet with segments [l]. *)
Definition bytes s l : list Z := concat (map (seg_bytes s) l).

Definition total_len s l : Z := fold_right (fun m n => data_len (mbuf s m) + n) 0 l.

Record packet s m l : Prop := {
  pk_chain : seglist s (Some m) l;
  pk_nodup : NoDup l;
  pk_segs : forall x, x ∈ l -> seg_ok s x;
  pk_len : pkt_len (mbuf s m) = total_len s l;
  pk_nb : nb_segs (mbuf s m) = Z.of_nat (length l);
  pk_max : total_len s l < 2 ^ 32;
  pk_max_nb : Z.of_nat (length l) < 256 }.

(** ** What an operation leaves alone *)

(** Only the links, data ranges, counts and lengths of the mbufs in [D] change. *)
Record edits (D : list Z) s s' : Prop := {
  ed_out : forall x, x ∉ D -> mbuf s' x = mbuf s x;
  ed_dom : forall x, is_Some (mbufs s' !! x) <-> is_Some (mbufs s !! x);
  ed_size : size (mbufs s') = size (mbufs s);
  ed_mem : mem s' = mem s;
  ed_pools : pools s' = pools s;
  ed_meta : forall x, buf_addr (mbuf s' x) = buf_addr (mbuf s x) /\ buf_len (mbuf s' x) = buf_len (mbuf s x) /\
    ol_flags (mbuf s' x) = ol_flags (mbuf s x) /\ l2_len (mbuf s' x) = l2_len (mbuf s x) /\
    l3_len (mbuf s' x) = l3_len (mbuf s x) /\ refcnt (mbuf s' x) = refcnt (mbuf s x) /\
    pool (mbuf s' x) = pool (mbuf s x) /\ priv_size (mbuf s' x) = priv_size (mbuf s x) }.

Lemma edits_refl D s : edits D s s.
Proof. by constructor. Qed.

Lemma edits_trans D s1 s2 s3 : edits D s1 s2 -> edits D s2 s3 -> edits D s1 s3.
Proof.
  intros [A1 A2 A3 A4 A5 A6] [B1 B2 B3 B4 B5 B6]. constructor; try congruence.
  - intros x Hx. by rewrite B1, A1.
  - intros x. by rewrite B2, A2.
  - intros x. destruct (A6 x) as (?&?&?&?&?&?&?&?), (B6 x) as (?&?&?&?&?&?&?&?). repeat split; congruence.
Qed.

Lemma edits_mono D D' s s' : D ⊆ D' -> edits D s s' -> edits D' s s'.
Proof. intros Hd []. constructor; auto. Qed.

Lemma mbuf_set m r s x : mbuf (set_mbuf m r s) x = if decide (x = m) then r else mbuf s x.
Proof. unfold mbuf, set_mbuf. cbn. rewrite lookup_total_insert. repeat case_decide; by subst. Qed.

Lemma edits_set m r s :
  is_Some (mbufs s !! m) ->
  buf_addr r = buf_addr (mbuf s m) -> buf_len r = buf_len (mbuf s m) -> ol_flags r = ol_flags (mbuf s m) ->
  l2_len r = l2_len (mbuf s m) -> l3_len r = l3_len (mbuf s m) -> refcnt r = refcnt (mbuf s m) ->
  pool r = pool (mbuf s m) -> priv_size r = priv_size (mbuf s m) ->
  edits [m] s (set_mbuf m r s).
Proof.
  intros [y Hm] E1 E2 E3 E4 E5 E6 E7 E8. constructor; try done.
  - intros x Hx. rewrite mbuf_set, decide_False by set_solver. done.
  - intros x. cbn. rewrite lookup_insert. case_decide; [subst; split; by eexists|done].
  - cbn. rewrite map_size_insert, Hm. done.
  - intros x. rewrite mbuf_set. case_decide; [by subst|done].
Qed.

(** Packets and their bytes depend on their own segments only. *)
Lemma seglist_ext s s' p l :
  (forall x, x ∈ l -> next (mbuf s' x) = next (mbuf s x)) -> seglist s p l -> seglist s' p l.
Proof.
  revert p. induction l as [|m l IH]; intros p He; [done|]. intros [-> Hl]. split; [done|].
  rewrite He by left. apply IH; [|done]. intros. apply He. by right.
Qed.

Lemma total_len_ext s s' l :
  (forall x, x ∈ l -> data_len (mbuf s' x) = data_len (mbuf s x)) -> total_len s' l = total_len s l.
Proof.
  induction l as [|m l IH]; intros He; [done|]. cbn. rewrite He by left. f_equal.
  apply IH. intros. apply He. by right.
Qed.

Lemma seg_bytes_ext s s' x :
  mem s' = mem s -> buf_addr (mbuf s' x) = buf_addr (mbuf s x) -> data_off (mbuf s' x) = data_off (mbuf s x) ->
  data_len (mbuf s' x) = data_len (mbuf s x) -> seg_bytes s' x = seg_bytes s x.
Proof. intros Em E1 E2 E3. unfold seg_bytes, read_bytes. by rewrite Em, E1, E2, E3. Qed.

Lemma bytes_ext s s' l : (forall x, x ∈ l -> seg_bytes s' x = seg_bytes s x) -> bytes s' l = bytes s l.
Proof.
  intros He. unfold bytes. f_equal. apply map_ext_in. intros x Hx%list_elem_of_In. by apply He.
Qed.

Lemma bytes_app s l1 l2 : bytes s (l1 ++ l2) = bytes s l1 ++ bytes s l2.
Proof. unfold bytes. by rewrite map_app, concat_app. Qed.

Lemma bytes_one s x : bytes s [x] = seg_bytes s x.
Proof. unfold bytes. cbn. by rewrite app_nil_r. Qed.

Lemma total_len_app s l1 l2 : total_len s (l1 ++ l2) = total_len s l1 + total_len s l2.
Proof.
  induction l1 as [|m l IH]; [done|].
  change (data_len (mbuf s m) + total_len s (l ++ l2) = data_len (mbuf s m) + total_len s l + total_len s l2). lia.
Qed.

Lemma length_read_bytes s b o n : length (read_bytes s b o n) = n.
Proof. unfold read_bytes. by rewrite length_map, length_seq. Qed.

Lemma length_bytes s l :
  (forall x, x ∈ l -> seg_ok s x) -> Z.of_nat (length (bytes s l)) = total_len s l.
Proof.
  induction l as [|m l IH]; intros Hok; [done|].
  change (bytes s (m :: l)) with (seg_bytes s m ++ bytes s l).
  change (total_len s (m :: l)) with (data_len (mbuf s m) + total_len s l).
  rewrite length_app, Nat2Z.inj_add, IH by (intros; apply Hok; by right). unfold seg_bytes.
  rewrite length_read_bytes. pose proof (so_len _ _ (Hok m ltac:(left))). lia.
Qed.

Lemma total_len_nonneg s l : (forall x, x ∈ l -> seg_ok s x) -> 0 <= total_len s l.
Proof. intros Hok. rewrite <- length_bytes by done. lia. Qed.

Lemma packet_head s m l : packet s m l -> exists l', l = m :: l'.
Proof. intros [Hc _ _ _ _ _ _]. destruct l as [|x l]; [done|]. destruct Hc as [[= ->] _]. by exists l. Qed.

Lemma packet_frame D s s' m l :
  edits D s s' -> (forall x, x ∈ l -> x ∉ D) -> packet s m l -> packet s' m l /\ bytes s' l = bytes s l.
Proof.
  intros Hed Hd Hp. assert (He : forall x, x ∈ l -> mbuf s' x = mbuf s x) by (intros; apply (ed_out _ _ _ Hed); auto).
  destruct (packet_head _ _ _ Hp) as [l' El]. assert (Hm : m ∈ l) by (rewrite El; left). split.
  - destruct Hp as [H1 H2 H3 H4 H5 H6 H7].
    assert (Ht : total_len s' l = total_len s l) by (apply total_len_ext; intros; by rewrite He).
    constructor; rewrite ?Ht, ?He by done; try done.
    + eapply seglist_ext; [|done]. intros. by rewrite He.
    + intros x Hx. destruct (H3 x Hx). constructor; rewrite ?He by done; try done. by apply (ed_dom _ _ _ Hed).
  - apply bytes_ext. intros x Hx. apply seg_bytes_ext; rewrite ?He by done; try done. apply Hed.
Qed.

(** ** The last segment *)

Lemma lastseg_loop_spec s m l x fuel :
  seglist s (Some m) (l ++ [x]) -> (length l <= fuel)%nat -> lastseg_loop s fuel m = Some x.
Proof.
  revert m fuel. induction l as [|y l IH]; intros m fuel Hc Hf; destruct Hc as [[= ->] Hc].
  - cbn in Hc. destruct fuel; cbn [lastseg_loop]; by rewrite Hc.
  - cbn in Hf. destruct fuel as [|fuel]; [lia|]. cbn [lastseg_loop].
    destruct (next (mbuf s y)) as [n|] eqn:E; [|by destruct l; destruct Hc]. apply IH; [done|lia].
Qed.

Lemma lastseg_spec s m l x : packet s m (l ++ [x]) -> rte_pktmbuf_lastseg s m = Some x.
Proof.
  intros Hp. apply (lastseg_loop_spec s m l x); [apply Hp|].
  pose proof (members_bound (mbufs s) (l ++ [x]) (pk_nodup _ _ _ Hp) (fun t Ht => so_dom _ _ (pk_segs _ _ _ Hp t Ht))) as Hb.
  rewrite length_app in Hb. unfold mfuel. lia.
Qed.

Lemma packet_snoc s m l : packet s m l -> exists l' x, l = l' ++ [x].
Proof.
  intros Hp. destruct (packet_head _ _ _ Hp) as [l' ->]. destruct (m :: l') as [|x l _] eqn:E using rev_ind; [done|].
  by exists l, x.
Qed.

(** Linking [l2] behind the last segment. *)
Lemma seglist_link s s' p l x l2 t :
  seglist s p (l ++ [x]) -> NoDup (l ++ [x]) ->
  (forall y, y ∈ l -> next (mbuf s' y) = next (mbuf s y)) -> next (mbuf s' x) = t ->
  seglist s' t l2 -> seglist s' p ((l ++ [x]) ++ l2).
Proof.
  revert p. induction l as [|y l IH]; intros p Hc Hnd He Hx Hl2.
  - destruct Hc as [-> _]. split; [done|]. by rewrite Hx.
  - destruct Hc as [-> Hc]. apply NoDup_cons in Hnd as [Hy Hnd]. split; [done|]. rewrite He by left.
    apply IH; [done|done| |done|done]. intros. apply He. by right.
Qed.

(** ** Operations *)

Lemma read_bytes_drop s b o n k :
  (k <= n)%nat -> read_bytes s b (o + Z.of_nat k) (n - k) = drop k (read_bytes s b o n).
Proof.
  intros Hk. unfold read_bytes. apply list_eq. intros i. rewrite lookup_drop, !list_lookup_fmap.
  destruct (decide (i < n - k)%nat).
  - rewrite !lookup_seq_lt by lia. cbn. do 3 f_equal. lia.
  - by rewrite !lookup_seq_ge by lia.
Qed.

Lemma seg_read_take s b o n k : (k <= n)%nat -> read_bytes s b o k = take k (read_bytes s b o n).
Proof.
  intros Hk. unfold read_bytes. replace n with (k + (n - k))%nat by lia.
  by rewrite seq_app, map_app, take_app_length' by (by rewrite length_map, length_seq).
Qed.

Lemma read_bytes_app s b o n k : read_bytes s b o (n + k) = read_bytes s b o n ++ read_bytes s b (o + Z.of_nat n) k.
Proof.
  rewrite <- (take_drop n (read_bytes s b o (n + k))).
  rewrite <- seg_read_take, <- read_bytes_drop by lia. do 2 f_equal. lia.
Qed.

(** A packet whose links are as before and whose data ranges are in their
    buffers. *)
Lemma packet_relen s s' m l :
  packet s m l -> (forall x, x ∈ l -> next (mbuf s' x) = next (mbuf s x)) ->
  (forall x, is_Some (mbufs s' !! x) <-> is_Some (mbufs s !! x)) ->
  (forall x, x ∈ l -> 0 <= data_off (mbuf s' x) /\ 0 <= data_len (mbuf s' x) /\
     data_off (mbuf s' x) + data_len (mbuf s' x) <= buf_len (mbuf s x) /\ buf_len (mbuf s' x) = buf_len (mbuf s x)) ->
  nb_segs (mbuf s' m) = nb_segs (mbuf s m) -> pkt_len (mbuf s' m) = total_len s' l -> total_len s' l < 2 ^ 32 ->
  packet s' m l.
Proof.
  intros [H1 H2 H3 H4 H5 H6 H7] Hn Hdom Hd Hnb Hpl Hmax. constructor; try done.
  - by eapply seglist_ext.
  - intros x Hx. destruct (H3 x Hx) as [D1 D2 D3 D4 D5], (Hd x Hx) as (?&?&?&Eb).
    constructor; rewrite ?Eb; try done. by apply Hdom.
  - congruence.
Qed.

(** A packet whose segments show the same data. *)
Definition data_fields (r : rte_mbuf) : option Z * Z * Z * Z * Z * Z * Z :=
  (next r, data_off r, data_len r, buf_addr r, buf_len r, pkt_len r, nb_segs r).

Lemma packet_fields s s' m l :
  (forall y, y ∈ l -> data_fields (mbuf s' y) = data_fields (mbuf s y)) ->
  (forall y, is_Some (mbufs s' !! y) <-> is_Some (mbufs s !! y)) -> mem s' = mem s ->
  packet s m l -> packet s' m l /\ bytes s' l = bytes s l.
Proof.
  intros Hf Hl Hmem Hp. assert (Hm : m ∈ l) by (destruct (packet_head _ _ _ Hp) as [l' ->]; left).
  assert (Ht : total_len s' l = total_len s l) by (apply total_len_ext; intros y Hy; by injection (Hf y Hy)).
  split.
  - apply (packet_relen s); try done; rewrite ?Ht; try apply Hp.
    + intros y Hy. by injection (Hf y Hy).
    + intros y Hy. injection (Hf y Hy) as _ -> -> _ -> _ _. by destruct (pk_segs _ _ _ Hp y Hy).
    + by injection (Hf m Hm).
    + injection (Hf m Hm) as _ _ _ _ _ -> _. apply Hp.
  - apply bytes_ext. intros y Hy. injection (Hf y Hy) as _ E1 E2 E3 _ _ _. by apply seg_bytes_ext.
Qed.

(** The structure of a packet does not depend on the bytes. *)
Lemma packet_mem s s' m l : mbufs s' = mbufs s -> packet s m l -> packet s' m l.
Proof.
  intros E Hp. assert (Hb : forall y, mbuf s' y = mbuf s y) by (intros; unfold mbuf; by rewrite E).
  assert (Ht : total_len s' l = total_len s l) by (apply total_len_ext; intros; by rewrite Hb).
  apply (packet_relen s); try done; rewrite ?Ht, ?Hb; try apply Hp; intros; rewrite ?Hb, ?E; try done.
  by destruct (pk_segs _ _ _ Hp x ltac:(done)).
Qed.

(** Changing the data range of the first segment, the length of the packet
    with it. *)
Lemma packet_set_first s m l off dlen plen :
  packet s m (m :: l) -> 0 <= off -> 0 <= dlen -> off + dlen <= buf_len (mbuf s m) ->
  plen = pkt_len (mbuf s m) - data_len (mbuf s m) + dlen -> plen < 2 ^ 32 ->
  let s' := set_mbuf m (set_data off dlen plen (mbuf s m)) s in
  packet s' m (m :: l) /\ edits [m] s s' /\
  bytes s' (m :: l) = read_bytes s (buf_addr (mbuf s m)) off (Z.to_nat dlen) ++ bytes s l.
Proof.
  intros Hp Ho Hd Hroom Epl Hmax s'. pose proof (pk_nodup _ _ _ Hp) as [Hm Hnd]%NoDup_cons.
  assert (Hed : edits [m] s s') by (apply edits_set; try done; by apply (pk_segs _ _ _ Hp); left).
  assert (He : forall y, y ∈ l -> mbuf s' y = mbuf s y)
    by (intros y Hy; apply (ed_out _ _ _ Hed); intros ->%list_elem_of_singleton; done).
  assert (Hsm : mbuf s' m = set_data off dlen plen (mbuf s m)) by (unfold s'; by rewrite mbuf_set, decide_True).
  assert (Ht : total_len s' (m :: l) = plen).
  { change (data_len (mbuf s' m) + total_len s' l = plen). rewrite Hsm, Epl, (pk_len _ _ _ Hp).
    rewrite (total_len_ext s s' l) by (intros; by rewrite He). cbn. fold (total_len s l). lia. }
  split; [|split; [done|]].
  - apply (packet_relen s); try done; rewrite ?Ht, ?Hsm; try done.
    + intros x [->|Hx]%elem_of_cons; [by rewrite Hsm|by rewrite He].
    + apply Hed.
    + intros x [->|Hx]%elem_of_cons; [by rewrite Hsm|]. rewrite He by done.
      destruct (pk_segs _ _ _ Hp x ltac:(by right)). done.
  - change (bytes s' (m :: l)) with (seg_bytes s' m ++ bytes s' l). f_equal.
    + unfold seg_bytes. rewrite Hsm. done.
    + apply bytes_ext. intros y Hy. by apply seg_bytes_ext; rewrite ?He.
Qed.

(** Changing the length of the last segment, and the length of the packet. *)
Lemma packet_set_last s m l x dlen plen :
  packet s m (l ++ [x]) -> 0 <= dlen -> data_off (mbuf s x) + dlen <= buf_len (mbuf s x) ->
  plen = pkt_len (mbuf s m) - data_len (mbuf s x) + dlen -> plen < 2 ^ 32 ->
  let s1 := set_mbuf x (set_data (data_off (mbuf s x)) dlen (pkt_len (mbuf s x)) (mbuf s x)) s in
  let h := mbuf s1 m in
  let s2 := set_mbuf m (set_data (data_off h) (data_len h) plen h) s1 in
  packet s2 m (l ++ [x]) /\ edits [m; x] s s2 /\
  bytes s2 (l ++ [x]) = bytes s l ++ read_bytes s (buf_addr (mbuf s x)) (data_off (mbuf s x)) (Z.to_nat dlen).
Proof.
  intros Hp Hd Hroom Epl Hmax s1 h s2. pose proof (pk_nodup _ _ _ Hp) as (Hnd & Hlx & _)%NoDup_app.
  assert (Hx : x ∈ l ++ [x]) by set_solver. assert (Hm : m ∈ l ++ [x]).
  { destruct (packet_head _ _ _ Hp) as [l' ->]. left. }
  assert (Hed1 : edits [x] s s1) by (apply edits_set; try done; by apply (pk_segs _ _ _ Hp)).
  assert (Hed2 : edits [m] s1 s2).
  { apply edits_set; try done. apply (ed_dom _ _ _ Hed1). by apply (pk_segs _ _ _ Hp). }
  assert (Hed : edits [m; x] s s2).
  { eapply edits_trans; [eapply edits_mono; [|exact Hed1]|eapply edits_mono; [|exact Hed2]]; set_solver. }
  assert (Hf : forall y, next (mbuf s2 y) = next (mbuf s y) /\ data_off (mbuf s2 y) = data_off (mbuf s y) /\
    data_len (mbuf s2 y) = (if decide (y = x) then dlen else data_len (mbuf s y)) /\ nb_segs (mbuf s2 y) = nb_segs (mbuf s y)).
  { intros y. unfold s2, h, s1. rewrite !mbuf_set. repeat case_decide; subst; cbn; rewrite ?decide_True by done; try done. }
  assert (Hne : forall y, y ∈ l -> y <> x) by (intros y Hy ->; apply (Hlx x Hy); set_solver).
  assert (Ht : total_len s2 (l ++ [x]) = plen).
  { rewrite Epl, (pk_len _ _ _ Hp), !total_len_app. cbn. destruct (Hf x) as (_ & _ & -> & _). rewrite decide_True by done.
    rewrite (total_len_ext s s2 l); [lia|]. intros y Hy. destruct (Hf y) as (_ & _ & -> & _). by rewrite decide_False by auto. }
  split; [|split; [done|]].
  - apply (packet_relen s); try done; rewrite ?Ht; try done.
    + intros y _. apply Hf.
    + apply Hed.
    + intros y Hy. destruct (Hf y) as (_ & -> & -> & _), (ed_meta _ _ _ Hed y) as (_ & -> & _).
      destruct (pk_segs _ _ _ Hp y Hy). case_decide; [by subst|done].
    + apply Hf.
    + unfold s2. by rewrite mbuf_set, decide_True.
  - rewrite bytes_app. f_equal.
    + apply bytes_ext. intros y Hy. destruct (Hf y) as (_ & E1 & E2 & _). rewrite decide_False in E2 by auto.
      by apply seg_bytes_ext; [| apply Hed| |].
    + unfold bytes. cbn. rewrite app_nil_r. unfold seg_bytes. destruct (Hf x) as (_ & -> & -> & _), (ed_meta _ _ _ Hed x) as (-> & _).
      by rewrite decide_True.
Qed.

(** [rte_pktmbuf_adj] removes bytes at the front. *)
Lemma adj_spec s m l k :
  packet s m l -> 0 <= k <= data_len (mbuf s m) ->
  exists a s', rte_pktmbuf_adj m k s = (Some a, s') /\ packet s' m l /\ edits [m] s s' /\
    bytes s' l = drop (Z.to_nat k) (bytes s l) /\ data_len (mbuf s' m) = data_len (mbuf s m) - k.
Proof.
  intros Hp Hk. destruct (packet_head _ _ _ Hp) as [l' ->].
  destruct (pk_segs _ _ _ Hp m ltac:(left)) as [_ Hoff Hlen Hroom Hbuf].
  pose proof (pk_len _ _ _ Hp) as Hpl. pose proof (pk_max _ _ _ Hp) as Hmax.
  assert (Hrest : 0 <= total_len s l').
  { apply total_len_nonneg. intros x Hx. apply (pk_segs _ _ _ Hp). by right. }
  assert (Ht : total_len s (m :: l') = data_len (mbuf s m) + total_len s l') by done.
  unfold rte_pktmbuf_adj. rewrite Z.gtb_ltb, (proj2 (Z.ltb_ge _ _)) by lia.
  unfold u16. rewrite !wrap_small, u32_small by lia.
  destruct (packet_set_first s m l' (data_off (mbuf s m) + k) (data_len (mbuf s m) - k) (pkt_len (mbuf s m) - k))
    as (Hp' & Hed & Hb); try done; try lia.
  eexists _, _. split; [reflexivity|]. split; [done|]. split; [done|]. split.
  - rewrite Hb. change (bytes s (m :: l')) with (seg_bytes s m ++ bytes s l').
    unfold seg_bytes. rewrite drop_app_le by (rewrite length_read_bytes; lia). f_equal.
    rewrite <- read_bytes_drop by lia. f_equal; lia.
  - rewrite mbuf_set, decide_True by done. done.
Qed.

(** [rte_pktmbuf_prepend] makes room in front. *)
Lemma prepend_spec s m l k :
  packet s m l -> 0 <= k -> total_len s l + k < 2 ^ 32 ->
  if k <=? data_off (mbuf s m) then
    exists a s', rte_pktmbuf_prepend m k s = (Some a, s') /\ packet s' m l /\ edits [m] s s' /\
      bytes s' l = read_bytes s a.1 a.2 (Z.to_nat k) ++ bytes s l
  else rte_pktmbuf_prepend m k s = (None, s).
Proof.
  intros Hp Hk Hmax. destruct (packet_head _ _ _ Hp) as [l' ->].
  destruct (pk_segs _ _ _ Hp m ltac:(left)) as [_ Hoff Hlen Hroom Hbuf].
  pose proof (pk_len _ _ _ Hp) as Hpl.
  assert (Hnn : 0 <= total_len s (m :: l')) by (apply total_len_nonneg; apply (pk_segs _ _ _ Hp)).
  unfold rte_pktmbuf_prepend, rte_pktmbuf_headroom. rewrite Z.gtb_ltb. destruct (Z.leb_spec k (data_off (mbuf s m))) as [Hle|Hgt].
  - rewrite (proj2 (Z.ltb_ge _ _)) by lia. unfold u16. rewrite !wrap_small, u32_small by lia.
    destruct (packet_set_first s m l' (data_off (mbuf s m) - k) (data_len (mbuf s m) + k) (pkt_len (mbuf s m) + k))
      as (Hp' & Hed & Hb); try done; try lia.
    eexists _, _. split; [reflexivity|]. split; [done|]. split; [done|]. rewrite Hb. unfold rte_pktmbuf_mtod.
    rewrite mbuf_set, decide_True by done. cbn [fst snd buf_addr data_off set_data].
    change (bytes s (m :: l')) with (seg_bytes s m ++ bytes s l').
    rewrite app_assoc. f_equal. replace (Z.to_nat (data_len (mbuf s m) + k)) with (Z.to_nat k + Z.to_nat (data_len (mbuf s m)))%nat by lia.
    rewrite read_bytes_app. f_equal. unfold seg_bytes. f_equal. lia.
  - by rewrite (proj2 (Z.ltb_lt _ _)) by lia.
Qed.

Lemma packet_head_in s m l : packet s m l -> m ∈ l.
Proof. intros Hp. destruct (packet_head _ _ _ Hp) as [l' ->]. left. Qed.

(** The room behind the data of a segment does not wrap. *)
Lemma tailroom_spec s m :
  seg_ok s m -> rte_pktmbuf_tailroom s m = buf_len (mbuf s m) - data_off (mbuf s m) - data_len (mbuf s m).
Proof. intros [_ ? ? ? ?]. apply wrap_small. unfold rte_pktmbuf_headroom. lia. Qed.

(** [rte_pktmbuf_append] adds room behind the last segment. *)
Lemma append_spec s m l x k :
  packet s m (l ++ [x]) -> 0 <= k -> total_len s (l ++ [x]) + k < 2 ^ 32 ->
  let r := mbuf s x in
  let a := (buf_addr r, data_off r + data_len r) in
  if k <=? buf_len r - data_off r - data_len r then
    exists s', rte_pktmbuf_append m k s = Some (Some a, s') /\ packet s' m (l ++ [x]) /\ edits [m; x] s s' /\
      bytes s' (l ++ [x]) = bytes s (l ++ [x]) ++ read_bytes s a.1 a.2 (Z.to_nat k)
  else rte_pktmbuf_append m k s = Some (None, s).
Proof.
  intros Hp Hk Hmax r a. pose proof (pk_segs _ _ _ Hp x ltac:(set_solver)) as Hx. destruct (id Hx) as [_ Ho Hl Hr Hb].
  unfold rte_pktmbuf_append. rewrite (lastseg_spec _ _ _ _ Hp). cbn [mbind option_bind].
  rewrite tailroom_spec, Z.gtb_ltb by done. fold r. fold r in Ho, Hl, Hr, Hb. cbv zeta. fold r a.
  destruct (Z.leb_spec k (buf_len r - data_off r - data_len r)) as [Hle|Hgt].
  - rewrite (proj2 (Z.ltb_ge _ _)) by lia.
    destruct (packet_set_last s m l x (data_len r + k) (pkt_len (mbuf s m) + k)) as (Hp' & Hed & Hby); try done.
    + lia.
    + fold r. lia.
    + fold r. lia.
    + rewrite (pk_len _ _ _ Hp). done.
    + eexists. split; [|split; [exact Hp'|split; [exact Hed|]]].
      * assert (0 <= pkt_len (mbuf s m)).
        { rewrite (pk_len _ _ _ Hp). apply total_len_nonneg. apply Hp. }
        unfold u16. rewrite (wrap_small 16 (data_len r + k)) by lia. fold r. do 3 f_equal. rewrite !mbuf_set.
        assert (pkt_len (mbuf s m) + k < 2 ^ 32) by (by rewrite (pk_len _ _ _ Hp)).
        case_decide; cbn [pkt_len set_data]; subst; rewrite u32_small by (subst r; lia); done.
      * rewrite Hby, bytes_app. fold r. rewrite <- app_assoc. f_equal.
        replace (Z.to_nat (data_len r + k)) with (Z.to_nat (data_len r) + Z.to_nat k)%nat by lia.
        rewrite read_bytes_app, bytes_one. unfold seg_bytes. fold r. rewrite Z2Nat.id by lia. done.
  - by rewrite (proj2 (Z.ltb_lt _ _)) by lia.
Qed.

(** [rte_pktmbuf_trim] removes bytes of the last segment. *)
Lemma trim_spec s m l x k :
  packet s m (l ++ [x]) -> 0 <= k ->
  if k <=? data_len (mbuf s x) then
    exists s', rte_pktmbuf_trim m k s = Some (0, s') /\ packet s' m (l ++ [x]) /\ edits [m; x] s s' /\
      bytes s' (l ++ [x]) = take (Z.to_nat (total_len s (l ++ [x]) - k)) (bytes s (l ++ [x]))
  else rte_pktmbuf_trim m k s = Some (-1, s).
Proof.
  intros Hp Hk. pose proof (pk_segs _ _ _ Hp) as Hall. destruct (Hall x ltac:(set_solver)) as [_ Ho Hl Hr Hb].
  assert (Hl' : 0 <= total_len s l) by (apply total_len_nonneg; intros; apply Hall; set_solver).
  pose proof (pk_len _ _ _ Hp) as Hpl. pose proof (pk_max _ _ _ Hp) as Hmax. rewrite total_len_app in Hpl, Hmax |- *.
  assert (Ht : total_len s [x] = data_len (mbuf s x)) by (cbn; lia). rewrite Ht in *.
  unfold rte_pktmbuf_trim. rewrite (lastseg_spec _ _ _ _ Hp). cbn [mbind option_bind]. rewrite Z.gtb_ltb. cbv zeta.
  destruct (Z.leb_spec k (data_len (mbuf s x))) as [Hle|Hgt]; [|by rewrite (proj2 (Z.ltb_lt _ _)) by lia].
  rewrite (proj2 (Z.ltb_ge _ _)) by lia.
  destruct (packet_set_last s m l x (data_len (mbuf s x) - k) (pkt_len (mbuf s m) - k)) as (Hp' & Hed & Hby); try done; try lia.
  eexists. split; [|split; [exact Hp'|split; [exact Hed|]]].
  - unfold u16. rewrite (wrap_small 16 (data_len (mbuf s x) - k)) by lia. do 3 f_equal. rewrite !mbuf_set.
    case_decide; cbn [pkt_len set_data]; subst; rewrite u32_small by lia; done.
  - rewrite Hby, bytes_app. pose proof (length_bytes s l ltac:(intros; apply Hall; set_solver)) as Hlen.
    rewrite take_app_ge by lia. f_equal. rewrite bytes_one. unfold seg_bytes.
    rewrite (seg_read_take _ _ _ (Z.to_nat (data_len (mbuf s x)))) by lia. f_equal. lia.
Qed.

(** [rte_pktmbuf_chain] appends the second packet to the first.  [x] is the
    last segment of the first. *)
Lemma chain_spec s hd tl l x l2 :
  packet s hd (l ++ [x]) -> packet s tl l2 -> (forall y, y ∈ l ++ [x] -> y ∉ l2) ->
  total_len s (l ++ [x]) + total_len s l2 < 2 ^ 32 ->
  if Z.of_nat (length (l ++ [x]) + length l2) <? 256 then
    exists s', rte_pktmbuf_chain hd tl s = Some (0, s') /\ packet s' hd ((l ++ [x]) ++ l2) /\ edits [x; hd; tl] s s' /\
      bytes s' ((l ++ [x]) ++ l2) = bytes s (l ++ [x]) ++ bytes s l2 /\
      (forall y, data_off (mbuf s' y) = data_off (mbuf s y) /\ data_len (mbuf s' y) = data_len (mbuf s y))
  else rte_pktmbuf_chain hd tl s = Some (- EOVERFLOW, s).
Proof.
  intros Hp1 Hp2 Hdisj Hmax. set (l1 := l ++ [x]) in *.
  assert (Hh : hd ∈ l1) by (eapply packet_head_in; eauto). assert (Ht : tl ∈ l2) by (eapply packet_head_in; eauto).
  assert (Hx : x ∈ l1) by (unfold l1; set_solver).
  assert (Hht : hd <> tl) by (intros ->; by apply (Hdisj tl)). assert (Hxt : x <> tl) by (intros ->; by apply (Hdisj tl)).
  unfold rte_pktmbuf_chain. rewrite (pk_nb _ _ _ Hp1), (pk_nb _ _ _ Hp2), <- Nat2Z.inj_add.
  replace (Z.shiftl 1 8) with 256 by done. rewrite Z.geb_leb.
  destruct (Z.ltb_spec (Z.of_nat (length l1 + length l2)) 256) as [Hlt|Hge]; [|by rewrite (proj2 (Z.leb_le _ _)) by lia].
  rewrite (proj2 (Z.leb_gt _ _)) by lia. unfold l1 at 1 in Hp1. rewrite (lastseg_spec _ _ _ _ Hp1). cbn [mbind option_bind]. cbv zeta.
  fold l1 in Hp1. set (s1 := set_mbuf x _ s). set (s2 := set_mbuf hd _ s1). set (s3 := set_mbuf tl _ s2).
  assert (Hdom : forall y, y ∈ l1 \/ y ∈ l2 -> is_Some (mbufs s !! y))
    by (intros y [Hy|Hy]; [by apply (pk_segs _ _ _ Hp1)|by apply (pk_segs _ _ _ Hp2)]).
  assert (Hed1 : edits [x] s s1) by (apply edits_set; auto).
  assert (Hed2 : edits [hd] s1 s2) by (apply edits_set; [apply (ed_dom _ _ _ Hed1)|..]; auto).
  assert (Hed12 : edits [x; hd; tl] s s2)
    by (eapply edits_trans; [eapply edits_mono; [|exact Hed1]|eapply edits_mono; [|exact Hed2]]; set_solver).
  assert (Hed3 : edits [tl] s2 s3) by (apply edits_set; [apply (ed_dom _ _ _ Hed12)|..]; auto).
  assert (Hed : edits [x; hd; tl] s s3)
    by (eapply edits_trans; [exact Hed12|eapply edits_mono; [|exact Hed3]]; set_solver).
  assert (Hd : forall y, data_off (mbuf s3 y) = data_off (mbuf s y) /\ data_len (mbuf s3 y) = data_len (mbuf s y)).
  { intros y. unfold s3, s2, s1. rewrite !mbuf_set. repeat case_decide; subst; cbn; try done. }
  assert (Hnx : forall y, next (mbuf s3 y) = if decide (y = x) then Some tl else next (mbuf s y)).
  { intros y. unfold s3, s2, s1. rewrite !mbuf_set. repeat case_decide; subst; cbn; try done. }
  assert (Hpl : pkt_len (mbuf s3 hd) = u32 (pkt_len (mbuf s hd) + pkt_len (mbuf s tl))).
  { unfold s3, s2, s1. rewrite !mbuf_set. repeat case_decide; subst; cbn; try done. }
  assert (Hnb : nb_segs (mbuf s3 hd) = u8 (nb_segs (mbuf s hd) + nb_segs (mbuf s tl))).
  { unfold s3, s2, s1. rewrite !mbuf_set. repeat case_decide; subst; cbn; try done. }
  assert (Hth : forall l', total_len s3 l' = total_len s l') by (intros; apply total_len_ext; intros; apply Hd).
  exists s3. split; [done|]. split; [|split; [done|split; [|done]]].
  - constructor.
    + apply (seglist_link s s3 (Some hd) l x l2 (Some tl)); [apply Hp1|apply Hp1| |rewrite Hnx; by rewrite decide_True|].
      * intros y Hy. rewrite Hnx, decide_False; [done|]. intros ->.
        by pose proof (pk_nodup _ _ _ Hp1) as (_ & Hxx & _)%NoDup_app; apply (Hxx x Hy); left.
      * apply (seglist_ext s); [|apply Hp2]. intros y Hy. rewrite Hnx, decide_False; [done|]. intros ->. by apply (Hdisj x).
    + apply NoDup_app. split; [apply Hp1|]. split; [done|apply Hp2].
    + intros y Hy. assert (seg_ok s y) as [D1 D2 D3 D4 D5]
        by (apply elem_of_app in Hy as [Hy|Hy]; [by apply (pk_segs _ _ _ Hp1)|by apply (pk_segs _ _ _ Hp2)]).
      destruct (Hd y) as [E1 E2], (ed_meta _ _ _ Hed y) as (_ & E3 & _).
      constructor; rewrite ?E1, ?E2, ?E3; try done. by apply (ed_dom _ _ _ Hed).
    + rewrite Hth, total_len_app, <- (pk_len _ _ _ Hp1), <- (pk_len _ _ _ Hp2).
      assert (0 <= total_len s l1 + total_len s l2)
        by (pose proof (total_len_nonneg s l1 (pk_segs _ _ _ Hp1)); pose proof (total_len_nonneg s l2 (pk_segs _ _ _ Hp2)); lia).
      rewrite Hpl, u32_small; [done|]. by rewrite (pk_len _ _ _ Hp1), (pk_len _ _ _ Hp2).
    + rewrite Hnb, (pk_nb _ _ _ Hp1), (pk_nb _ _ _ Hp2), length_app. unfold u8. rewrite wrap_small; lia.
    + rewrite Hth, total_len_app. done.
    + rewrite length_app. lia.
  - rewrite bytes_app. f_equal; apply bytes_ext; intros y Hy; apply seg_bytes_ext; try apply Hed; apply Hd.
Qed.

End Packet.
