(* ===== verification/MbufRef.v ===== *)
(** * Packet buffers: who holds which mbuf

    An mbuf has one reference for each holder and one for each indirect mbuf
    attached to its data.  The invariant [minv s H L] says so for a state in
    which the program holds the references [H] and the mbufs in [L] are out of
    their pool without a reference, as they are in the middle of an
    operation; allocation, attachment and release are sequences of steps that
    keep it. *)
From stdpp Require Import gmultiset.
From S2P Require Import Prelude Mbuf MbufPacket.

(** ** Counting *)

Lemma filter_size_change (X : gset Z) (f g : Z -> bool) m :
  m ∈ X -> (forall y, y <> m -> f y = g y) ->
  (size (filter g X) + Nat.b2n (f m) = size (filter f X) + Nat.b2n (g m))%nat.
Proof.
  intros Hm He. assert (HX : X = {[m]} ∪ X ∖ {[m]}) by (by apply union_difference_singleton_L).
  rewrite HX, !filter_union_L by apply _.
  assert (Hfg : filter (fun y => Is_true (f y)) (X ∖ {[m]}) = filter (fun y => Is_true (g y)) (X ∖ {[m]})).
  { apply set_eq. intros y. rewrite !elem_of_filter. split; intros [? [? Hy]%elem_of_difference];
      (split; [|by apply elem_of_difference]); [rewrite <- He|rewrite He]; set_solver. }
  rewrite !size_union, Hfg by set_solver.
  assert (Hs : forall h : Z -> bool, size (filter (fun y => Is_true (h y)) ({[m]} : gset Z)) = Nat.b2n (h m)).
  { intros h. rewrite filter_singleton_L by apply _. destruct (h m); [apply size_singleton|apply size_empty]. }
  rewrite !Hs. lia.
Qed.

Section Refs.
Context {P : Type} `{MP : !MbufPool P} `{ML : !MbufPoolLaws P}.
Implicit Types (s : mstate P) (m x y : Z) (H : gmultiset Z) (L : gset Z).

Abbreviation live s x := (is_Some (mbufs s !! x)).

Definition indirect s x : bool := RTE_MBUF_INDIRECT (mbuf s x).

(** The mbuf whose buffer [x] points to. *)
Definition home s x : Z := rte_mbuf_from_indirect (mbuf s x).

(** The address of the buffer behind [x]. *)
Definition own s x : Z := x + (SIZEOF_RTE_MBUF + rte_pktmbuf_priv_size s (pool (mbuf s x))).

Definition attached s x : nat := size (filter (fun y => indirect s y && (home s y =? x)) (dom (mbufs s))).

(** The mbufs of a pool, and the ones among them that are in it. *)
Definition universe s (mp : Z) : gset Z := filter (fun x => pool (mbuf s x) = mp) (dom (mbufs s)).
Definition idle s L (mp : Z) : gset Z := filter (fun x => refcnt (mbuf s x) = 0 /\ x ∉ L) (universe s mp).

Record home_ok s x : Prop := {
  ho_live : live s (home s x);
  ho_direct : indirect s (home s x) = false;
  ho_buf : buf_addr (mbuf s x) = own s (home s x);
  ho_len : buf_len (mbuf s x) = u16 (rte_pktmbuf_data_room_size s (pool (mbuf s (home s x))));
  ho_self : indirect s x = false -> home s x = x }.

Record minv s H L : Prop := {
  mi_held : forall x, x ∈ H -> live s x;
  mi_limbo : forall x, x ∈ L -> live s x /\ refcnt (mbuf s x) = 0;
  mi_count : forall x, live s x -> refcnt (mbuf s x) = Z.of_nat (multiplicity x H + attached s x);
  mi_max : forall x, live s x -> refcnt (mbuf s x) < 2 ^ 16;
  mi_home : forall x, live s x -> home_ok s x;
  mi_inj : forall x y, live s x -> live s y -> own s x = own s y -> x = y;
  mi_pool : forall x, live s x -> is_Some (pools s !! pool (mbuf s x));
  mi_repr : forall mp q, pools s !! mp = Some q -> mp_repr (objs q) (universe s mp) (idle s L mp);
  mi_free : forall x, live s x -> refcnt (mbuf s x) = 0 -> x ∉ L -> indirect s x = false }.

(** ** Steps that leave the references alone *)

Record same_refs s s' : Prop := {
  sr_dom : forall x, live s' x <-> live s x;
  sr_pools : pools s' = pools s;
  sr_core : forall x, refcnt (mbuf s' x) = refcnt (mbuf s x) /\ pool (mbuf s' x) = pool (mbuf s x) /\
    buf_addr (mbuf s' x) = buf_addr (mbuf s x) /\ buf_len (mbuf s' x) = buf_len (mbuf s x) /\
    priv_size (mbuf s' x) = priv_size (mbuf s x) /\ indirect s' x = indirect s x }.

Lemma same_refs_refl s : same_refs s s.
Proof. by constructor. Qed.

Lemma same_refs_trans s1 s2 s3 : same_refs s1 s2 -> same_refs s2 s3 -> same_refs s1 s3.
Proof.
  intros [A1 A2 A3] [B1 B2 B3]. constructor; [|congruence|].
  - intros x. by rewrite B1, A1.
  - intros x. destruct (A3 x) as (?&?&?&?&?&?), (B3 x) as (?&?&?&?&?&?). repeat split; congruence.
Qed.

Lemma edits_same_refs D s s' : edits D s s' -> same_refs s s'.
Proof.
  intros [_ E2 _ _ E5 E6]. constructor; try done. intros x. destruct (E6 x) as (?&?&Ef&?&?&?&?&?).
  repeat split; try done. unfold indirect, RTE_MBUF_INDIRECT. by rewrite Ef.
Qed.

Lemma same_refs_home s s' x : same_refs s s' -> home s' x = home s x.
Proof. intros Hs. destruct (sr_core _ _ Hs x) as (_ & _ & E1 & _ & E2 & _). unfold home, rte_mbuf_from_indirect. by rewrite E1, E2. Qed.

Lemma same_refs_own s s' x : same_refs s s' -> own s' x = own s x.
Proof.
  intros Hs. destruct (sr_core _ _ Hs x) as (_ & E & _). unfold own, rte_pktmbuf_priv_size, the_pool.
  by rewrite E, (sr_pools _ _ Hs).
Qed.

Lemma live_dom s s' : (forall x, live s' x <-> live s x) -> dom (mbufs s') = dom (mbufs s).
Proof. intros Hd. apply set_eq. intros x. rewrite !elem_of_dom. apply Hd. Qed.

Lemma attached_ext s s' x :
  (forall y, live s' y <-> live s y) -> (forall y, indirect s' y = indirect s y) -> (forall y, home s' y = home s y) ->
  attached s' x = attached s x.
Proof.
  intros Hd Hi Hh. unfold attached. rewrite (live_dom s s') by done. f_equal. apply set_eq. intros y.
  by rewrite !elem_of_filter, Hi, Hh.
Qed.

Lemma elem_of_universe s mp x : x ∈ universe s mp <-> live s x /\ pool (mbuf s x) = mp.
Proof. unfold universe. rewrite elem_of_filter, elem_of_dom. tauto. Qed.

Lemma elem_of_idle s L mp x :
  x ∈ idle s L mp <-> live s x /\ pool (mbuf s x) = mp /\ refcnt (mbuf s x) = 0 /\ x ∉ L.
Proof. unfold idle. rewrite elem_of_filter, elem_of_universe. tauto. Qed.

(** The mbufs of the pools are the same ones. *)
Lemma repr_ext s s' L L' mp (p : P) :
  (forall x, live s' x <-> live s x) -> (forall x, pool (mbuf s' x) = pool (mbuf s x)) ->
  (forall x, live s x -> pool (mbuf s x) = mp ->
    refcnt (mbuf s' x) = 0 /\ x ∉ L' <-> refcnt (mbuf s x) = 0 /\ x ∉ L) ->
  mp_repr p (universe s mp) (idle s L mp) -> mp_repr p (universe s' mp) (idle s' L' mp).
Proof.
  intros Hl Hp Hr. assert (universe s' mp = universe s mp) as ->
    by (apply set_eq; intros x; by rewrite !elem_of_universe, Hl, Hp).
  assert (idle s' L' mp = idle s L mp) as ->; [|done]. apply set_eq. intros x. rewrite !elem_of_idle, Hl, Hp.
  split; intros (?&?&?); split_and!; try done; apply Hr; done.
Qed.

Lemma same_refs_attached s s' x : same_refs s s' -> attached s' x = attached s x.
Proof. intros Hs. apply attached_ext; intros; [apply Hs|apply Hs|by apply same_refs_home]. Qed.

Lemma minv_same s s' H L : same_refs s s' -> minv s H L -> minv s' H L.
Proof.
  intros Hs [I1 I2 I3 I4 I5 I6 I7 I8 I9]. pose proof (sr_dom _ _ Hs) as Hd.
  assert (Hc := sr_core _ _ Hs). assert (Hh := fun x => same_refs_home s s' x Hs). assert (Ho := fun x => same_refs_own s s' x Hs).
  constructor.
  - intros x Hx. apply Hd. auto.
  - intros x Hx. destruct (I2 x Hx). destruct (Hc x) as (-> & _). by split; [apply Hd|].
  - intros x Hx%Hd. destruct (Hc x) as (-> & _). rewrite (same_refs_attached s) by done. auto.
  - intros x Hx%Hd. destruct (Hc x) as (-> & _). auto.
  - intros x Hx%Hd. destruct (I5 x Hx) as [A1 A2 A3 A4 A5], (Hc x) as (_ & _ & E1 & E2 & _ & E3), (Hc (home s x)) as (_ & E4 & _ & _ & _ & E5).
    constructor; rewrite ?Hh, ?Ho, ?E1, ?E2, ?E3, ?E4, ?E5; try done; [by apply Hd|].
    unfold rte_pktmbuf_data_room_size, the_pool. by rewrite (sr_pools _ _ Hs).
  - intros x y Hx%Hd Hy%Hd. rewrite !Ho. auto.
  - intros x Hx%Hd. destruct (Hc x) as (_ & -> & _). rewrite (sr_pools _ _ Hs). auto.
  - intros mp q. rewrite (sr_pools _ _ Hs). intros E. apply (repr_ext s _ L); auto; [apply Hc|].
    intros x _ _. by destruct (Hc x) as (-> & _).
  - intros x Hx%Hd. destruct (Hc x) as (-> & _ & _ & _ & _ & ->). auto.
Qed.

(** ** Reference counters *)

Lemma refcnt_update_eq m k s :
  rte_mbuf_refcnt_update m k s =
  (u16 (refcnt (mbuf s m) + k), set_mbuf m (set_refcnt (u16 (refcnt (mbuf s m) + k)) (mbuf s m)) s).
Proof.
  unfold rte_mbuf_refcnt_update, rte_mbuf_refcnt_read, rte_mbuf_refcnt_set.
  by destruct (Z.eqb_spec (refcnt (mbuf s m)) 1) as [->|].
Qed.

Lemma live_set m r s x : live s m -> live (set_mbuf m r s) x <-> live s x.
Proof. intros [y Hm]. cbn. rewrite lookup_insert. case_decide; [subst; split; by eexists|done]. Qed.

Lemma own_ext s s' x :
  pool (mbuf s' x) = pool (mbuf s x) -> pools s' = pools s -> own s' x = own s x.
Proof. intros E1 E2. unfold own, rte_pktmbuf_priv_size, the_pool. by rewrite E1, E2. Qed.

(** A new value [v] of the counter of [m], which is out of its pool before and
    after. *)
Lemma minv_set_refcnt s H H' L m v :
  minv s H L -> live s m -> 0 < refcnt (mbuf s m) \/ m ∈ L ->
  v = Z.of_nat (multiplicity m H' + attached s m) -> v < 2 ^ 16 ->
  (forall x, x <> m -> multiplicity x H' = multiplicity x H) ->
  minv (set_mbuf m (set_refcnt v (mbuf s m)) s) H' (if v =? 0 then {[m]} ∪ L else L ∖ {[m]}).
Proof.
  intros [I1 I2 I3 I4 I5 I6 I7 I8 I9] Hm Hout Hv Hmax HH. set (s' := set_mbuf _ _ s).
  assert (Hl : forall x, live s' x <-> live s x) by (intros; by apply live_set).
  assert (Hb : forall x, x <> m -> mbuf s' x = mbuf s x) by (intros; unfold s'; by rewrite mbuf_set, decide_False).
  assert (Hbm : mbuf s' m = set_refcnt v (mbuf s m)) by (unfold s'; by rewrite mbuf_set, decide_True).
  assert (Hc : forall x, pool (mbuf s' x) = pool (mbuf s x) /\ buf_addr (mbuf s' x) = buf_addr (mbuf s x) /\
    buf_len (mbuf s' x) = buf_len (mbuf s x) /\ indirect s' x = indirect s x /\ home s' x = home s x).
  { intros x. unfold indirect, home. destruct (decide (x = m)) as [->|Hx]; [by rewrite Hbm|by rewrite Hb]. }
  assert (Hp : forall x, pool (mbuf s' x) = pool (mbuf s x)) by apply Hc.
  assert (Ho : forall x, own s' x = own s x) by (intros; by apply own_ext).
  assert (Ha : forall x, attached s' x = attached s x) by (intros; apply attached_ext; auto; apply Hc).
  set (L' := if v =? 0 then _ else _).
  assert (HL : forall x, x <> m -> x ∈ L' <-> x ∈ L) by (intros x Hx; unfold L'; destruct (v =? 0); set_solver).
  assert (HLm : m ∈ L' <-> v = 0) by (unfold L'; destruct (Z.eqb_spec v 0); set_solver).
  constructor.
  - intros x Hx. apply Hl. destruct (decide (x = m)) as [->|Hne]; [done|]. apply I1.
    apply elem_of_multiplicity. rewrite <- HH by done. by apply elem_of_multiplicity.
  - intros x Hx. rewrite Hl. destruct (decide (x = m)) as [->|Hne]; [rewrite Hbm; split; [done|by apply HLm]|].
    rewrite Hb by done. apply I2. by apply HL.
  - intros x Hx%Hl. rewrite Ha. destruct (decide (x = m)) as [->|Hne]; [by rewrite Hbm|].
    rewrite Hb, HH by done. auto.
  - intros x Hx%Hl. destruct (decide (x = m)) as [->|Hne]; [by rewrite Hbm|]. rewrite Hb by done. auto.
  - intros x Hx%Hl. destruct (I5 x Hx) as [A1 A2 A3 A4 A5], (Hc x) as (_ & E1 & E2 & E3 & E4), (Hc (home s x)) as (E5 & _ & _ & E6 & _).
    constructor; rewrite ?E1, ?E2, ?E3, ?E4, ?E5, ?E6, ?Ho; try done. by apply Hl.
  - intros x y Hx%Hl Hy%Hl. rewrite !Ho. auto.
  - intros x Hx%Hl. rewrite Hp. auto.
  - intros mp q E. apply (repr_ext s _ L); auto. intros x Hx _.
    destruct (decide (x = m)) as [->|Hne]; [|rewrite Hb, HL by done; done]. rewrite Hbm, HLm.
    change (refcnt (set_refcnt v (mbuf s m))) with v. split; [tauto|]. intros [E1 E2]. destruct Hout; [lia|done].
  - intros x Hx%Hl Hr HxL. destruct (Hc x) as (_ & _ & _ & -> & _). destruct (decide (x = m)) as [->|Hne].
    + rewrite Hbm in Hr. by rewrite HLm in HxL.
    + rewrite Hb in Hr by done. apply I9; [done|done|]. by rewrite <- HL.
Qed.

(** A holder lets go of its reference to [m]. *)
Lemma minv_drop s H L m :
  minv s ({[+ m +]} ⊎ H) L ->
  let v := refcnt (mbuf s m) - 1 in
  exists s', rte_mbuf_refcnt_update m (-1) s = (v, s') /\
    s' = set_mbuf m (set_refcnt v (mbuf s m)) s /\ 0 <= v /\ minv s' H (if v =? 0 then {[m]} ∪ L else L).
Proof.
  intros HI v. assert (Hm : live s m) by (apply (mi_held _ _ _ HI); multiset_solver).
  pose proof (mi_count _ _ _ HI m Hm) as Hc. pose proof (mi_max _ _ _ HI m Hm) as Hmax.
  rewrite multiplicity_disj_union, multiplicity_singleton_eq in Hc.
  rewrite refcnt_update_eq. replace (u16 (refcnt (mbuf s m) + -1)) with v by (unfold u16; rewrite wrap_small; lia).
  eexists. split; [done|]. split; [done|]. split; [lia|].
  assert (Hg : (if v =? 0 then {[m]} ∪ L else L ∖ {[m]}) = (if v =? 0 then {[m]} ∪ L else L)).
  { destruct (v =? 0) eqn:Ev; [done|]. apply difference_disjoint_L. apply disjoint_singleton_r.
    intros HmL. apply (mi_limbo _ _ _ HI) in HmL. lia. }
  rewrite <- Hg. apply (minv_set_refcnt _ ({[+ m +]} ⊎ H)); try done; try lia.
  intros x Hx. rewrite multiplicity_disj_union, multiplicity_singleton_ne by done. done.
Qed.

(** A new holder of [m]. *)
Lemma minv_take s H L m :
  minv s H L -> live s m -> 0 < refcnt (mbuf s m) < 2 ^ 16 - 1 ->
  exists s', rte_mbuf_refcnt_update m 1 s = (refcnt (mbuf s m) + 1, s') /\
    s' = set_mbuf m (set_refcnt (refcnt (mbuf s m) + 1) (mbuf s m)) s /\ minv s' ({[+ m +]} ⊎ H) L.
Proof.
  intros HI Hm Hr. pose proof (mi_count _ _ _ HI m Hm) as Hc.
  rewrite refcnt_update_eq. replace (u16 (refcnt (mbuf s m) + 1)) with (refcnt (mbuf s m) + 1) by (unfold u16; rewrite wrap_small; lia).
  eexists. split; [done|]. split; [done|].
  assert (Hg : (if refcnt (mbuf s m) + 1 =? 0 then {[m]} ∪ L else L ∖ {[m]}) = L).
  { rewrite (proj2 (Z.eqb_neq _ _)) by lia. apply difference_disjoint_L. apply disjoint_singleton_r.
    intros HmL. apply (mi_limbo _ _ _ HI) in HmL. lia. }
  rewrite <- Hg. apply (minv_set_refcnt _ H); try done; try lia; try auto.
  - rewrite multiplicity_disj_union, multiplicity_singleton_eq. lia.
  - intros x Hx. rewrite multiplicity_disj_union, multiplicity_singleton_ne by done. done.
Qed.

(** ** Pools *)

(** Only the objects in the pools differ. *)
Record same_mbufs s s' : Prop := {
  sm_mbufs : mbufs s' = mbufs s;
  sm_mem : mem s' = mem s;
  sm_priv : forall mp, rte_pktmbuf_priv_size s' mp = rte_pktmbuf_priv_size s mp;
  sm_room : forall mp, rte_pktmbuf_data_room_size s' mp = rte_pktmbuf_data_room_size s mp }.

Lemma same_mbufs_objs mp q o s : pools s !! mp = Some q -> same_mbufs s (set_objs mp q o s).
Proof.
  intros Eq. constructor; try done; intros mp'; unfold rte_pktmbuf_priv_size, rte_pktmbuf_data_room_size, the_pool; cbn;
    rewrite lookup_insert; case_decide; subst; by rewrite ?Eq.
Qed.

Lemma minv_objs s s' H L L' :
  minv s H L -> same_mbufs s s' ->
  (forall x, x ∈ L' -> live s x /\ refcnt (mbuf s x) = 0) ->
  (forall mp, is_Some (pools s !! mp) -> is_Some (pools s' !! mp)) ->
  (forall mp q, pools s' !! mp = Some q -> mp_repr (objs q) (universe s mp) (idle s L' mp)) ->
  (forall x, x ∈ L -> x ∉ L' -> indirect s x = false) ->
  minv s' H L'.
Proof.
  intros [I1 I2 I3 I4 I5 I6 I7 I8 I9] [S1 S2 S3 S4] HL Hpool Hobjs Hind.
  assert (Hb : forall x, mbuf s' x = mbuf s x) by (intros; unfold mbuf; by rewrite S1).
  assert (Ho : forall x, own s' x = own s x) by (intros; unfold own; by rewrite Hb, S3).
  assert (Ha : forall x, attached s' x = attached s x).
  { intros. apply attached_ext; intros; unfold indirect, home; rewrite ?S1, ?Hb; done. }
  constructor; rewrite ?S1.
  - done.
  - intros x. rewrite Hb. auto.
  - intros x. rewrite Hb, Ha. auto.
  - intros x. rewrite Hb. auto.
  - intros x Hx. destruct (I5 x Hx) as [A1 A2 A3 A4 A5]. unfold home, indirect in *.
    constructor; unfold home, indirect; rewrite ?Ho, ?S4, ?S1, ?Hb; done.
  - intros x y. rewrite !Ho. auto.
  - intros x. rewrite Hb. auto.
  - intros mp q E. apply (repr_ext s _ L'); auto; intros; by rewrite ?S1, ?Hb.
  - intros x Hx. unfold indirect. rewrite Hb. intros Hr HxL. destruct (decide (x ∈ L)); [by apply Hind|by apply I9].
Qed.

(** An object leaves its pool. *)
Lemma minv_get s H L mp x s' :
  minv s H L -> rte_mempool_get mp s = Some (x, s') ->
  minv s' H ({[x]} ∪ L) /\ same_mbufs s s' /\ live s x /\ refcnt (mbuf s x) = 0 /\ (x ∉ L) /\ indirect s x = false /\
  pool (mbuf s x) = mp.
Proof.
  intros HI. unfold rte_mempool_get, the_pool. destruct (pools s !! mp) as [q|] eqn:Eq; [|done].
  destruct (mp_get (objs q)) as [[x' o]|] eqn:Eg; [|done]. intros [= -> <-].
  destruct (mp_get_law _ _ _ _ _ (mi_repr _ _ _ HI mp q Eq) Eg) as [Hx Ho].
  apply elem_of_idle in Hx as (Hlx & Hpx & Hr & HxL).
  split; [|split; [by apply same_mbufs_objs|]]; [|by repeat split; try done; apply (mi_free _ _ _ HI)].
  apply (minv_objs s _ H L); [done|by apply same_mbufs_objs|..].
  - intros y [->%elem_of_singleton|Hy]%elem_of_union; [done|]. by apply (mi_limbo _ _ _ HI).
  - intros mp' Hmp. cbn. rewrite lookup_insert. by case_decide.
  - intros mp' q'. cbn. rewrite lookup_insert. case_decide as Ep.
    + subst mp'. intros [= <-]. cbn. replace (idle s ({[x]} ∪ L) mp) with (idle s L mp ∖ {[x]}); [done|].
      apply set_eq. intros y. rewrite elem_of_difference, !elem_of_idle, not_elem_of_union. tauto.
    + intros E. apply (repr_ext s _ L); try done; [|by apply (mi_repr _ _ _ HI)]. intros y _ Hy.
      rewrite not_elem_of_union, not_elem_of_singleton. split; [tauto|]. intros [? ?]. split_and!; try done. intros ->. congruence.
  - intros y Hy Hy'. destruct Hy'. by apply elem_of_union_r.
Qed.

(** An object without a reference goes back to its pool. *)
Lemma minv_put s H L m :
  minv s H L -> m ∈ L -> indirect s m = false ->
  minv (__rte_mbuf_raw_free m s) H (L ∖ {[m]}) /\ same_mbufs s (__rte_mbuf_raw_free m s).
Proof.
  intros HI Hm Hd. destruct (mi_limbo _ _ _ HI m Hm) as [Hl Hr].
  destruct (mi_pool _ _ _ HI m Hl) as [q Eq]. unfold __rte_mbuf_raw_free, rte_mempool_put, the_pool. rewrite Eq.
  assert (Ho : mp_repr (mp_put (objs q) m) (universe s (pool (mbuf s m))) ({[m]} ∪ idle s L (pool (mbuf s m)))).
  { apply mp_put_law; [by apply (mi_repr _ _ _ HI)|by apply elem_of_universe|]. rewrite elem_of_idle. tauto. }
  split; [|by apply same_mbufs_objs]. apply (minv_objs s _ H L); [done|by apply same_mbufs_objs|..].
  - intros y [Hy _]%elem_of_difference. by apply (mi_limbo _ _ _ HI).
  - intros mp' Hmp. cbn. rewrite lookup_insert. by case_decide.
  - intros mp' q'. cbn. rewrite lookup_insert. case_decide as Ep.
    + subst mp'. intros [= <-]. cbn. replace (idle s (L ∖ {[m]}) _) with ({[m]} ∪ idle s L (pool (mbuf s m))); [done|].
      apply set_eq. intros y. rewrite elem_of_union, !elem_of_idle, elem_of_singleton, not_elem_of_difference, elem_of_singleton.
      split; [|destruct (decide (y = m)); tauto]. intros [->|?]; tauto.
    + intros E. apply (repr_ext s _ L); try done; [|by apply (mi_repr _ _ _ HI)]. intros y _ Hy.
      rewrite not_elem_of_difference, elem_of_singleton. split; [|tauto]. intros [? [?| ->]]; [tauto|congruence].
  - intros y Hy Hy'. rewrite not_elem_of_difference, elem_of_singleton in Hy'. destruct Hy' as [?| ->]; done.
Qed.

(** ** Attachment *)

Lemma attached_set s m r x :
  live s m ->
  (attached (set_mbuf m r s) x + Nat.b2n (indirect s m && (home s m =? x)%Z) =
   attached s x + Nat.b2n (RTE_MBUF_INDIRECT r && (rte_mbuf_from_indirect r =? x)%Z))%nat.
Proof.
  intros Hm. unfold attached. rewrite (live_dom s (set_mbuf m r s)) by (intros; by apply live_set).
  set (s' := set_mbuf m r s).
  assert (Hr : RTE_MBUF_INDIRECT r && (rte_mbuf_from_indirect r =? x) = indirect s' m && (home s' m =? x))
    by (unfold indirect, home, s'; by rewrite mbuf_set, decide_True).
  rewrite Hr. apply (filter_size_change _ (fun y => indirect s y && (home s y =? x)) (fun y => indirect s' y && (home s' y =? x))).
  - by apply elem_of_dom.
  - intros y Hy. unfold indirect, home, s'. by rewrite mbuf_set, decide_False.
Qed.

Lemma attached_none s x y : live s y -> attached s x = 0%nat -> indirect s y = true -> home s y <> x.
Proof.
  intros Hy Ha Hi Hh. unfold attached in Ha. apply size_empty_inv in Ha. apply (not_elem_of_empty (C := gset Z) y), Ha.
  apply elem_of_filter. split; [|by apply elem_of_dom]. by rewrite Hi, Hh, Z.eqb_refl.
Qed.

(** [m], to which nothing is attached, gets another buffer; the references in
    [H'] and the attached mbufs together are the same. *)
Lemma minv_retarget s H H' L m r :
  minv s H L -> live s m -> attached s m = 0%nat -> refcnt r = refcnt (mbuf s m) -> pool r = pool (mbuf s m) ->
  home_ok (set_mbuf m r s) m -> refcnt r <> 0 \/ m ∈ L -> (forall x, x ∈ H' -> live s x) ->
  (forall x, (multiplicity x H' + attached (set_mbuf m r s) x = multiplicity x H + attached s x)%nat) ->
  minv (set_mbuf m r s) H' L.
Proof.
  intros [I1 I2 I3 I4 I5 I6 I7 I8 I9] Hm Ha Er Ep Hho Hr HH HC. set (s' := set_mbuf m r s) in *.
  assert (Hl : forall x, live s' x <-> live s x) by (intros; by apply live_set).
  assert (Hb : forall x, x <> m -> mbuf s' x = mbuf s x) by (intros; unfold s'; by rewrite mbuf_set, decide_False).
  assert (Hbm : mbuf s' m = r) by (unfold s'; by rewrite mbuf_set, decide_True).
  assert (Hc : forall x, refcnt (mbuf s' x) = refcnt (mbuf s x) /\ pool (mbuf s' x) = pool (mbuf s x)).
  { intros x. destruct (decide (x = m)) as [->|Hx]; [by rewrite Hbm|by rewrite Hb]. }
  assert (Ho : forall x, own s' x = own s x) by (intros; apply own_ext; [apply Hc|done]).
  constructor.
  - intros x Hx. apply Hl. auto.
  - intros x Hx. rewrite Hl. destruct (Hc x) as [-> _]. auto.
  - intros x Hx%Hl. destruct (Hc x) as [-> _]. rewrite HC. auto.
  - intros x Hx%Hl. destruct (Hc x) as [-> _]. auto.
  - intros x Hx%Hl. destruct (decide (x = m)) as [->|Hne]; [done|]. destruct (I5 x Hx) as [A1 A2 A3 A4 A5].
    assert (Hhm : home s x <> m).
    { destruct (indirect s x) eqn:Ei; [by apply attached_none|]. by rewrite A5. }
    assert (E : home s' x = home s x) by (unfold home; by rewrite Hb).
    constructor; unfold indirect in *; rewrite ?E, ?Ho, ?Hb by done; try done. by apply Hl.
  - intros x y Hx%Hl Hy%Hl. rewrite !Ho. auto.
  - intros x Hx%Hl. destruct (Hc x) as [_ ->]. auto.
  - intros mp q E. apply (repr_ext s _ L); auto; [apply Hc|]. intros x _ _. by destruct (Hc x) as [-> _].
  - intros x Hx%Hl. destruct (Hc x) as [E _]. rewrite E. intros Hr0 HxL. destruct (decide (x = m)) as [->|Hne].
    + rewrite Er in Hr. by destruct Hr.
    + unfold indirect. rewrite Hb by done. by apply I9.
Qed.

(** Nothing is attached to an indirect mbuf. *)
Lemma attached_indirect s H L x : minv s H L -> live s x -> indirect s x = true -> attached s x = 0%nat.
Proof.
  intros HI Hx Hi. unfold attached. apply size_empty_iff. intros y. rewrite elem_of_filter, elem_of_dom.
  split; [|by intros ?%not_elem_of_empty]. intros [Hb Hy]. apply Is_true_true, andb_true_iff in Hb as [Hiy Hh%Z.eqb_eq].
  pose proof (ho_direct _ _ (mi_home _ _ _ HI y Hy)) as Hd. congruence.
Qed.

(** The buffer of [m] becomes its own again; its reference to the other mbuf
    is then the program's. *)
Lemma minv_detach s H L m :
  minv s H L -> live s m -> indirect s m = true -> m ∈ L ->
  minv (rte_pktmbuf_detach m s) ({[+ home s m +]} ⊎ H) L /\ indirect (rte_pktmbuf_detach m s) m = false.
Proof.
  intros HI Hm Hi HmL. unfold rte_pktmbuf_detach. set (r := mkMbuf _ _ _ _ _ _ _ _ _ _ _ _ _).
  assert (Hbm : mbuf (set_mbuf m r s) m = r) by (by rewrite mbuf_set, decide_True).
  assert (Hd : indirect (set_mbuf m r s) m = false) by (unfold indirect; by rewrite Hbm).
  split; [|done]. assert (Hh : home (set_mbuf m r s) m = m).
  { unfold home. rewrite Hbm. unfold rte_mbuf_from_indirect, r. cbn. lia. }
  apply (minv_retarget _ H); try done.
  - by eapply attached_indirect.
  - constructor; rewrite ?Hh; try done.
    + by apply live_set.
    + unfold own. by rewrite Hbm.
    + by rewrite Hbm.
  - by right.
  - intros x [->%gmultiset_elem_of_singleton|Hx]%gmultiset_elem_of_disj_union; [|by apply (mi_held _ _ _ HI)].
    apply (ho_live _ _ (mi_home _ _ _ HI m Hm)).
  - intros x. pose proof (attached_set s m r x Hm) as Ha. rewrite Hi in Ha. cbn [andb] in Ha.
    change (RTE_MBUF_INDIRECT r) with false in Ha. cbn [andb Nat.b2n] in Ha.
    rewrite multiplicity_disj_union, multiplicity_singleton. destruct (Z.eqb_spec (home s m) x); cbn [Nat.b2n] in Ha;
      case_decide; subst; try done; lia.
Qed.

(** ** The operations *)

(** What an operation on [x] leaves alone: the other mbufs, the bytes, and the
    sizes of the pools. *)
Record frame (D : gset Z) s s' : Prop := {
  fr_out : forall y, y ∉ D -> mbuf s' y = mbuf s y;
  fr_live : forall y, live s' y <-> live s y;
  fr_mem : mem s' = mem s;
  fr_pool : forall y, pool (mbuf s' y) = pool (mbuf s y);
  fr_priv : forall mp, rte_pktmbuf_priv_size s' mp = rte_pktmbuf_priv_size s mp;
  fr_room : forall mp, rte_pktmbuf_data_room_size s' mp = rte_pktmbuf_data_room_size s mp }.

Lemma frame_refl D s : frame D s s.
Proof. by constructor. Qed.

Lemma frame_trans D s1 s2 s3 : frame D s1 s2 -> frame D s2 s3 -> frame D s1 s3.
Proof.
  intros [A1 A2 A3 A4 A5 A6] [B1 B2 B3 B4 B5 B6]. constructor; intros; rewrite ?B1, ?B2, ?B3, ?B4, ?B5, ?B6 by done; auto.
Qed.

Lemma frame_mono D D' s s' : D ⊆ D' -> frame D s s' -> frame D' s s'.
Proof. intros HD [A1 A2 A3 A4 A5 A6]. constructor; auto. Qed.

Lemma frame_set m r s : live s m -> pool r = pool (mbuf s m) -> frame {[m]} s (set_mbuf m r s).
Proof.
  intros Hm Ep. constructor; try done.
  - intros y Hy%not_elem_of_singleton. by rewrite mbuf_set, decide_False.
  - intros y. by apply live_set.
  - intros y. rewrite mbuf_set. case_decide; by subst.
Qed.

Lemma frame_objs s s' : same_mbufs s s' -> frame ∅ s s'.
Proof. intros [E1 E2 E3 E4]. constructor; intros; unfold mbuf; by rewrite ?E1. Qed.

Lemma frame_own D s s' x : frame D s s' -> own s' x = own s x.
Proof. intros Hf. unfold own. by rewrite (fr_pool _ _ _ Hf), (fr_priv _ _ _ Hf). Qed.

(** A new mbuf: held by nobody else, empty, with its own buffer. *)
Record fresh s x : Prop := {
  fs_live : live s x;
  fs_direct : indirect s x = false;
  fs_attached : attached s x = 0%nat;
  fs_refcnt : refcnt (mbuf s x) = 1;
  fs_next : next (mbuf s x) = None;
  fs_segs : nb_segs (mbuf s x) = 1;
  fs_len : data_len (mbuf s x) = 0 /\ pkt_len (mbuf s x) = 0;
  fs_off : data_off (mbuf s x) = Z.min RTE_PKTMBUF_HEADROOM (buf_len (mbuf s x)) }.

Lemma alloc_ok s H L mp x s' :
  minv s H L -> rte_pktmbuf_alloc mp s = Some (x, s') ->
  minv s' ({[+ x +]} ⊎ H) L /\ frame {[x]} s s' /\ fresh s' x /\ (x ∉ H) /\ refcnt (mbuf s x) = 0 /\
  pool (mbuf s x) = mp.
Proof.
  intros HI. unfold rte_pktmbuf_alloc, __rte_mbuf_raw_alloc.
  destruct (rte_mempool_get mp s) as [[x' s1]|] eqn:Eg; [|done]. intros [= -> <-].
  destruct (minv_get _ _ _ _ _ _ HI Eg) as (HI1 & Hsm & Hl & Hr & HxL & Hd & Hp).
  assert (Hb : forall y, mbuf s1 y = mbuf s y) by (intros; unfold mbuf; by rewrite (sm_mbufs _ _ Hsm)).
  assert (Hl1 : live s1 x) by (by rewrite (sm_mbufs _ _ Hsm)).
  assert (Hc : multiplicity x H = 0%nat /\ attached s1 x = 0%nat).
  { pose proof (mi_count _ _ _ HI1 x Hl1) as Hc. rewrite Hb in Hc. lia. }
  set (s2 := rte_mbuf_refcnt_set x 1 s1). assert (HI2 : minv s2 ({[+ x +]} ⊎ H) L).
  { assert (E : L = if 1 =? 0 then {[x]} ∪ ({[x]} ∪ L) else ({[x]} ∪ L) ∖ {[x]}) by (cbn; set_solver).
    rewrite E. apply (minv_set_refcnt _ H _ _ _ 1); try done.
    - right. set_solver.
    - rewrite multiplicity_disj_union, multiplicity_singleton_eq. lia.
    - intros y Hy. by rewrite multiplicity_disj_union, multiplicity_singleton_ne. }
  assert (Hl2 : live s2 x) by (by apply live_set).
  assert (Hb2 : mbuf s2 x = set_refcnt 1 (mbuf s x)) by (unfold s2, rte_mbuf_refcnt_set; rewrite mbuf_set, decide_True by done; by rewrite Hb).
  unfold rte_pktmbuf_reset. set (r := mkMbuf _ _ _ _ _ _ _ _ _ _ _ _ _). set (s3 := set_mbuf x r s2).
  assert (Hbm : mbuf s3 x = r) by (unfold s3; by rewrite mbuf_set, decide_True).
  assert (Hsame : same_refs s2 s3).
  { constructor; [intros; by apply live_set|done|]. intros y. unfold indirect, s3. rewrite mbuf_set.
    case_decide; [subst y|done]. repeat split; try done. rewrite Hb2. symmetry. exact Hd. }
  split; [by eapply minv_same|]. split; [|split; [|split; [|done]]].
  - eapply frame_trans; [eapply frame_mono; [|by apply frame_objs]; set_solver|].
    eapply frame_trans; apply frame_set; try done.
  - constructor; try (rewrite Hbm; done).
    + by apply live_set.
    + unfold indirect. by rewrite Hbm.
    + rewrite (same_refs_attached s2) by done. unfold s2. rewrite (attached_ext s1); [apply Hc| | |].
      * intros. by apply live_set.
      * intros y. unfold indirect, rte_mbuf_refcnt_set. rewrite mbuf_set. case_decide; by subst.
      * intros y. unfold home, rte_mbuf_refcnt_set. rewrite mbuf_set. case_decide; by subst.
    + rewrite Hbm. unfold r. rewrite Hb2. done.
    + rewrite Hbm. unfold r. cbn [data_off buf_len].
      destruct (Z.leb_spec RTE_PKTMBUF_HEADROOM (buf_len (mbuf s2 x))); lia.
  - apply not_elem_of_multiplicity. lia.
Qed.

(** [y] is as before but for its counter. *)
Definition same_data s s' y : Prop := mbuf s' y = set_refcnt (refcnt (mbuf s' y)) (mbuf s y).

Lemma same_data_trans s1 s2 s3 y : same_data s1 s2 y -> same_data s2 s3 y -> same_data s1 s3 y.
Proof. unfold same_data. intros E1 E2. rewrite E2, E1. done. Qed.

Lemma same_data_eq s s' y : mbuf s' y = mbuf s y -> same_data s s' y.
Proof. unfold same_data. intros ->. by destruct (mbuf s y). Qed.

Lemma same_data_set s m v y : same_data s (set_mbuf m (set_refcnt v (mbuf s m)) s) y.
Proof. unfold same_data. rewrite mbuf_set. case_decide; [by subst|by destruct (mbuf s y)]. Qed.

Lemma packet_same s s' m l :
  (forall y, y ∈ l -> same_data s s' y) -> (forall y, live s' y <-> live s y) -> mem s' = mem s ->
  packet s m l -> packet s' m l /\ bytes s' l = bytes s l.
Proof.
  intros Hs Hl Hmem. apply packet_fields; [|done|done]. intros y Hy. by rewrite (Hs y Hy).
Qed.

(** *** Attachment *)

Lemma home_refcnt_pos s H L m : minv s H L -> live s m -> 0 < refcnt (mbuf s m) -> 0 < refcnt (mbuf s (home s m)).
Proof.
  intros HI Hm Hr. destruct (mi_home _ _ _ HI m Hm) as [Hl _ _ _ Hs]. destruct (indirect s m) eqn:Ei; [|by rewrite Hs].
  rewrite (mi_count _ _ _ HI _ Hl). destruct (attached s (home s m)) eqn:Ea; [|lia].
  by destruct (attached_none s (home s m) m).
Qed.

Lemma attach_ok s H L mi m :
  minv s H L -> live s mi -> indirect s mi = false -> refcnt (mbuf s mi) <> 0 -> attached s mi = 0%nat ->
  live s m -> m <> mi -> 0 < refcnt (mbuf s m) -> refcnt (mbuf s (home s m)) < 2 ^ 16 - 1 ->
  let s' := rte_pktmbuf_attach mi m s in
  minv s' H L /\ frame {[mi; home s m]} s s' /\ (forall y, y <> mi -> same_data s s' y) /\
  refcnt (mbuf s' mi) = refcnt (mbuf s mi) /\ home s' mi = home s m /\
  buf_addr (mbuf s' mi) = buf_addr (mbuf s m) /\ buf_len (mbuf s' mi) = buf_len (mbuf s m) /\
  data_off (mbuf s' mi) = data_off (mbuf s m) /\ data_len (mbuf s' mi) = data_len (mbuf s m) /\
  next (mbuf s' mi) = None /\ nb_segs (mbuf s' mi) = 1 /\
  refcnt (mbuf s' (home s m)) = refcnt (mbuf s (home s m)) + 1 /\
  (forall y, y <> home s m -> y <> mi -> mbuf s' y = mbuf s y).
Proof.
  intros HI Hmi Hid Hrmi Ha Hm Hne Hrm Hmax s'. destruct (mi_home _ _ _ HI m Hm) as [Hl Hd Hbuf Hlen Hs].
  assert (Hnm : home s m <> mi) by (destruct (indirect s m) eqn:Ei; [by apply attached_none|by rewrite Hs]).
  assert (Hpos := home_refcnt_pos _ _ _ _ HI Hm Hrm).
  assert (Emd : (if RTE_MBUF_INDIRECT (mbuf s m) then rte_mbuf_from_indirect (mbuf s m) else m) = home s m).
  { fold (indirect s m). destruct (indirect s m) eqn:Ei; [done|by rewrite Hs]. }
  unfold s', rte_pktmbuf_attach. rewrite Emd.
  destruct (minv_take s H L (home s m) HI Hl) as (s1 & -> & Es1 & HI1); [lia|].
  assert (Hsd : forall y, same_data s s1 y) by (intros; rewrite Es1; apply same_data_set).
  assert (Hlv : forall y, live s1 y <-> live s y) by (intros; rewrite Es1; by apply live_set).
  assert (Hb1 : forall y, y <> home s m -> mbuf s1 y = mbuf s y) by (intros; rewrite Es1; by rewrite mbuf_set, decide_False).
  cbv zeta. set (r := mkMbuf _ _ _ _ _ _ _ _ _ _ _ _ _). set (s2 := set_mbuf mi r s1).
  assert (Hbm : mbuf s2 mi = r) by (unfold s2; by rewrite mbuf_set, decide_True).
  assert (Hb2 : forall y, y <> mi -> mbuf s2 y = mbuf s1 y) by (intros; unfold s2; by rewrite mbuf_set, decide_False).
  assert (Hst : forall y, indirect s1 y = indirect s y /\ home s1 y = home s y /\ own s1 y = own s y /\ attached s1 y = attached s y).
  { assert (Hi : forall y, indirect s1 y = indirect s y) by (intros; unfold indirect; by rewrite (Hsd y)).
    assert (Hh : forall y, home s1 y = home s y) by (intros; unfold home; by rewrite (Hsd y)).
    intros y. repeat split; auto; [|by apply attached_ext]. apply own_ext; [by rewrite (Hsd y)|by rewrite Es1]. }
  assert (Hri : RTE_MBUF_INDIRECT r = true).
  { unfold RTE_MBUF_INDIRECT, r. cbn [ol_flags]. rewrite Z.land_lor_distr_l, Z.land_diag, negb_true_iff.
    apply Z.eqb_neq. intros E%Z.lor_eq_0_iff. by destruct E. }
  assert (Hrh : rte_mbuf_from_indirect r = home s m).
  { unfold r, home, rte_mbuf_from_indirect. cbn [buf_addr priv_size]. by rewrite (Hsd m). }
  assert (HI2 : minv s2 H L).
  { apply (minv_retarget s1 ({[+ home s m +]} ⊎ H)); try done.
    - by apply Hlv.
    - destruct (Hst mi) as (_ & _ & _ & ->). done.
    - assert (Eh : home s2 mi = home s m) by (unfold home at 1; by rewrite Hbm).
      constructor; fold s2; rewrite ?Eh.
      + apply live_set; by apply Hlv.
      + unfold indirect. rewrite Hb2 by done. fold (indirect s1 (home s m)). destruct (Hst (home s m)) as (-> & _). done.
      + rewrite Hbm. unfold r. cbn [buf_addr]. rewrite (Hsd m). cbn [buf_addr set_refcnt].
        rewrite Hbuf. rewrite (own_ext s1 s2); [|by rewrite Hb2|done]. destruct (Hst (home s m)) as (_ & _ & -> & _). done.
      + rewrite Hbm, Hb2, (Hsd (home s m)) by done. unfold r. cbn [buf_len]. rewrite (Hsd m). cbn [buf_len set_refcnt pool].
        rewrite Hlen. unfold rte_pktmbuf_data_room_size, the_pool. subst s1. done.
      + unfold indirect. rewrite Hbm, Hri. done.
    - left. unfold r. cbn [refcnt]. by rewrite Hb1.
    - intros x Hx. apply Hlv. by apply (mi_held _ _ _ HI).
    - intros x. pose proof (attached_set s1 mi r x (proj2 (Hlv mi) Hmi)) as Hc. fold s2 in Hc |- *.
      destruct (Hst mi) as (Ei & _). rewrite Ei, Hid, Hri, Hrh in Hc. cbn [andb Nat.b2n] in Hc.
      rewrite multiplicity_disj_union, multiplicity_singleton.
      destruct (Z.eqb_spec (home s m) x); cbn [Nat.b2n] in Hc; case_decide; subst; try done; lia. }
  split; [done|]. split; [|split; [|rewrite Hbm; unfold r; cbn [refcnt buf_addr buf_len data_off data_len next nb_segs]]].
  - eapply frame_trans; [|eapply frame_mono; [|apply frame_set; [by apply Hlv|done]]]; [|set_solver].
    rewrite Es1. eapply frame_mono; [|by apply frame_set]. set_solver.
  - intros y Hy. eapply same_data_trans; [apply Hsd|]. apply same_data_eq. auto.
  - rewrite (Hsd m), !Hb1 by done. cbn [buf_addr buf_len data_off data_len set_refcnt].
    repeat split; try done.
    + unfold home at 1. rewrite Hbm. exact Hrh.
    + rewrite Hb2, Es1, mbuf_set, decide_True by done. done.
    + intros y Hy1 Hy2. rewrite Hb2, Hb1 by done. done.
Qed.

(** *** Release *)

Lemma minv_live s H L m : minv s ({[+ m +]} ⊎ H) L -> live s m /\ 0 < refcnt (mbuf s m).
Proof.
  intros HI. assert (Hm : live s m) by (apply (mi_held _ _ _ HI); multiset_solver). split; [done|].
  rewrite (mi_count _ _ _ HI m Hm), multiplicity_disj_union, multiplicity_singleton_eq. lia.
Qed.

Lemma not_limbo s H L x : minv s H L -> 0 < refcnt (mbuf s x) -> x ∉ L.
Proof. intros HI Hr Hx. apply (mi_limbo _ _ _ HI) in Hx. lia. Qed.

(** The other mbufs keep their contents. *)
Record others s s' m : Prop := {
  ot_data : forall y, y <> m -> same_data s s' y;
  ot_live : forall y, live s' y <-> live s y;
  ot_mem : mem s' = mem s;
  ot_pool : forall y, pool (mbuf s' y) = pool (mbuf s y);
  ot_priv : forall mp, rte_pktmbuf_priv_size s' mp = rte_pktmbuf_priv_size s mp;
  ot_room : forall mp, rte_pktmbuf_data_room_size s' mp = rte_pktmbuf_data_room_size s mp }.

Lemma others_trans s1 s2 s3 m : others s1 s2 m -> others s2 s3 m -> others s1 s3 m.
Proof.
  intros [A1 A2 A3 A4 A5 A6] [B1 B2 B3 B4 B5 B6]. constructor; intros; rewrite ?B2, ?B3, ?B4, ?B5, ?B6 by done; auto.
  by eapply same_data_trans; auto.
Qed.

Lemma others_refcnt s m x v : live s x -> others s (set_mbuf x (set_refcnt v (mbuf s x)) s) m.
Proof.
  intros Hx. constructor; try done.
  - intros. apply same_data_set.
  - intros. by apply live_set.
  - intros y. rewrite mbuf_set. case_decide; by subst.
Qed.

Lemma others_set s m r : live s m -> pool r = pool (mbuf s m) -> others s (set_mbuf m r s) m.
Proof.
  intros Hm Ep. constructor; try done.
  - intros y Hy. apply same_data_eq. by rewrite mbuf_set, decide_False.
  - intros. by apply live_set.
  - intros y. rewrite mbuf_set. case_decide; by subst.
Qed.

Lemma others_objs s s' m : same_mbufs s s' -> others s s' m.
Proof.
  intros [E1 E2 E3 E4]. constructor; intros; try apply same_data_eq; unfold mbuf; by rewrite ?E1.
Qed.

Lemma drop_direct s H L m x :
  minv s ({[+ x +]} ⊎ H) L -> indirect s x = false ->
  exists k s1, rte_mbuf_refcnt_update x (-1) s = (k, s1) /\
    minv (if k =? 0 then __rte_mbuf_raw_free x s1 else s1) H L /\ others s (if k =? 0 then __rte_mbuf_raw_free x s1 else s1) m /\
    (forall y, y <> x -> mbuf (if k =? 0 then __rte_mbuf_raw_free x s1 else s1) y = mbuf s y).
Proof.
  intros HI Hd. destruct (minv_live _ _ _ _ HI) as [Hl Hr]. pose proof (not_limbo _ _ _ _ HI Hr) as HxL.
  destruct (minv_drop _ _ _ _ HI) as (s1 & E & E1 & Hv & HI1). eexists _, s1. split; [exact E|].
  assert (Ho1 : others s s1 m) by (rewrite E1; by apply others_refcnt).
  assert (Hy : forall y, y <> x -> mbuf s1 y = mbuf s y) by (intros; by rewrite E1, mbuf_set, decide_False).
  destruct (refcnt (mbuf s x) - 1 =? 0); [|done].
  assert (Hd1 : indirect s1 x = false) by (unfold indirect; rewrite E1, mbuf_set, decide_True by done; exact Hd).
  destruct (minv_put s1 H ({[x]} ∪ L) x HI1) as [HI2 Hsm]; [set_solver|done|].
  replace (({[x]} ∪ L) ∖ {[x]}) with L in HI2 by set_solver. split; [done|]. split.
  - eapply others_trans; [done|by apply others_objs].
  - intros y Hyx. rewrite <- Hy by done. unfold mbuf. by rewrite (sm_mbufs _ _ Hsm).
Qed.

Lemma prefree_ok s H L m :
  minv s ({[+ m +]} ⊎ H) L ->
  exists go s', __rte_pktmbuf_prefree_seg m s = (go, s') /\ others s s' m /\
    if go then minv s' H ({[m]} ∪ L) /\ indirect s' m = false else minv s' H L.
Proof.
  intros HI. destruct (minv_live _ _ _ _ HI) as [Hl Hr]. unfold __rte_pktmbuf_prefree_seg.
  destruct (minv_drop _ _ _ _ HI) as (s1 & -> & E1 & Hv & HI1).
  assert (Ho1 : others s s1 m) by (rewrite E1; by apply others_refcnt).
  destruct (refcnt (mbuf s m) - 1 =? 0); [|by eexists _, _]. cbv zeta.
  fold (indirect s1 m). destruct (indirect s1 m) eqn:Ei; [|by eexists _, _].
  fold (home s1 m). assert (Hl1 : live s1 m) by (by apply (ot_live _ _ _ Ho1)).
  destruct (minv_detach s1 H ({[m]} ∪ L) m HI1 Hl1 Ei) as [HI2 Hd2]; [set_solver|].
  set (s2 := rte_pktmbuf_detach m s1) in *. destruct (mi_home _ _ _ HI1 m Hl1) as [Hlm Hdm _ _ _].
  assert (Ho2 : others s1 s2 m) by (by apply others_set).
  assert (Hne : home s1 m <> m) by (intros E; rewrite E in Hdm; congruence).
  assert (Hdm2 : indirect s2 (home s1 m) = false).
  { unfold indirect. rewrite (ot_data _ _ _ Ho2 _ Hne). exact Hdm. }
  destruct (drop_direct s2 H ({[m]} ∪ L) m (home s1 m) HI2 Hdm2) as (k & s3 & -> & HI3 & Ho3 & Hy3).
  eexists _, _. split; [reflexivity|]. split; [by eapply others_trans; [|eapply others_trans]|]. split; [done|].
  unfold indirect. rewrite Hy3 by done. exact Hd2.
Qed.

Lemma free_seg_ok s H L m :
  minv s ({[+ m +]} ⊎ H) L -> minv (rte_pktmbuf_free_seg m s) H L /\ others s (rte_pktmbuf_free_seg m s) m.
Proof.
  intros HI. pose proof (not_limbo _ _ _ _ HI (proj2 (minv_live _ _ _ _ HI))) as HmL. unfold rte_pktmbuf_free_seg.
  destruct (prefree_ok _ _ _ _ HI) as (go & s1 & -> & Ho & Hgo). destruct go; [|done]. destruct Hgo as [HI1 Hd].
  assert (Hl : live s1 m) by (apply (ot_live _ _ _ Ho); by eapply minv_live).
  set (s2 := set_mbuf m _ s1). assert (Hs : same_refs s1 s2).
  { constructor; [intros; by apply live_set|done|]. intros y. unfold indirect, s2. rewrite mbuf_set.
    case_decide; by subst. }
  destruct (minv_put s2 H ({[m]} ∪ L) m) as [HI3 Hsm]; [by eapply minv_same|set_solver| |].
  { destruct (sr_core _ _ Hs m) as (_ & _ & _ & _ & _ & ->). done. }
  replace (({[m]} ∪ L) ∖ {[m]}) with L in HI3 by set_solver. split; [done|].
  eapply others_trans; [done|]. apply (others_trans _ s2); [by apply others_set|by apply others_objs].
Qed.

(** Releasing a packet releases a reference to each of its segments. *)
Lemma free_loop_ok l H L fuel p s :
  seglist s p l -> NoDup l -> (length l <= fuel)%nat -> minv s (list_to_set_disj l ⊎ H) L ->
  exists s', free_loop fuel p s = Some s' /\ minv s' H L /\
    (forall y, y ∉ l -> same_data s s' y) /\ (forall y, live s' y <-> live s y) /\ mem s' = mem s /\
    (forall y, pool (mbuf s' y) = pool (mbuf s y)).
Proof.
  revert fuel p s. induction l as [|m l IH]; intros fuel p s Hc Hnd Hf HI.
  - cbn in Hc. subst p. exists s. rewrite list_to_set_disj_nil, (left_id_L ∅ (⊎)) in HI. split; [by destruct fuel|]. split_and!; try done.
    intros. by apply same_data_eq.
  - destruct Hc as [-> Hc]. apply NoDup_cons in Hnd as [Hm Hnd]. cbn in Hf. destruct fuel as [|fuel]; [lia|]. cbn [free_loop].
    rewrite list_to_set_disj_cons, <- (assoc_L (⊎)) in HI. destruct (free_seg_ok _ _ _ _ HI) as [HI1 Ho].
    assert (Hy : forall y, y ∈ l -> y <> m) by (intros y Hy ->; done).
    destruct (IH fuel (next (mbuf s m)) (rte_pktmbuf_free_seg m s)) as (s' & E & HI' & Hd & Hlv & Hmem & Hpo); [|done|lia|done|].
    + eapply seglist_ext; [|exact Hc]. intros y Hyl. by rewrite (ot_data _ _ _ Ho y (Hy y Hyl)).
    + exists s'. split; [exact E|]. split; [done|]. split_and!.
      * intros y [Hym Hyl]%not_elem_of_cons. eapply same_data_trans; [by apply Ho|auto].
      * intros y. rewrite Hlv. apply Ho.
      * rewrite Hmem. apply Ho.
      * intros y. rewrite Hpo. apply Ho.
Qed.

Lemma free_ok s H L m l :
  packet s m l -> minv s (list_to_set_disj l ⊎ H) L ->
  exists s', rte_pktmbuf_free m s = Some s' /\ minv s' H L /\
    (forall y, y ∉ l -> same_data s s' y) /\ (forall y, live s' y <-> live s y) /\ mem s' = mem s /\
    (forall y, pool (mbuf s' y) = pool (mbuf s y)).
Proof.
  intros Hp HI. apply (free_loop_ok l); [apply Hp|apply Hp| |done].
  pose proof (members_bound (mbufs s) l (pk_nodup _ _ _ Hp) (fun t Ht => so_dom _ _ (pk_segs _ _ _ Hp t Ht))) as Hb.
  unfold mfuel. lia.
Qed.

(** With no reference left every mbuf is in its pool. *)
Lemma minv_empty s mp : minv s ∅ ∅ -> idle s ∅ mp = universe s mp.
Proof.
  intros HI. assert (Hz : forall y, live s y -> indirect s y = true -> False).
  { intros y Hy Hi. pose proof (mi_count _ _ _ HI y Hy) as Hc. rewrite (attached_indirect _ _ _ _ HI Hy Hi), multiplicity_empty in Hc.
    rewrite (mi_free _ _ _ HI y Hy) in Hi; [done|lia|apply not_elem_of_empty]. }
  apply set_eq. intros x. rewrite elem_of_idle, elem_of_universe. split; [tauto|]. intros [Hx Hp]. split_and!; try done.
  rewrite (mi_count _ _ _ HI x Hx), multiplicity_empty. unfold attached. cbn [Nat.add].
  replace (filter _ _) with (∅ : gset Z); [done|]. apply set_eq. intros y. rewrite elem_of_filter, elem_of_dom.
  split; [by intros ?%not_elem_of_empty|]. intros [Hb Hy]. apply Is_true_true, andb_true_iff in Hb as [Hi _]. by destruct (Hz y Hy).
Qed.

End Refs.
