(* ===== verification/MbufClone.v ===== *)
(** * Packet buffers: clones

    [rte_pktmbuf_clone] makes a packet of indirect mbufs that shares the bytes
    of another one; when the pool runs dry half way everything is given back. *)
From stdpp Require Import gmultiset.
From S2P Require Import Prelude Mbuf MbufPacket MbufRef.

Lemma Forall2_impl_in {A B} (R Q : A -> B -> Prop) l k :
  Forall2 R l k -> (forall x y, x ∈ l -> y ∈ k -> R x y -> Q x y) -> Forall2 Q l k.
Proof.
  induction 1 as [|x y l k Hr Hf IH]; intros Hi; constructor; [apply Hi; [left|left|done]|].
  apply IH. intros. apply Hi; [by right|by right|done].
Qed.

Section Clone.
Context {P : Type} `{MP : !MbufPool P} `{ML : !MbufPoolLaws P}.
Implicit Types (s : mstate P) (m x y : Z) (d l : list Z) (H : gmultiset Z) (L : gset Z).

Abbreviation live s x := (is_Some (mbufs s !! x)).
Abbreviation refs l := (list_to_set_disj l : gmultiset Z).

(** ** What a pool still gives *)

(** The pool when [n] objects have been taken; [None] if it gives fewer. *)
Fixpoint pool_after (n : nat) (p : P) : option P :=
  match n with
  | O => Some p
  | S n => match mp_get p with None => None | Some (_, p) => pool_after n p end
  end.
Definition supply s (mp : Z) (n : nat) : option P := q ← pools s !! mp; pool_after n (objs q).

Lemma pool_after_mono n k p : (n <= k)%nat -> pool_after n p = None -> pool_after k p = None.
Proof.
  revert k p. induction n as [|n IH]; intros k p Hk; [done|]. destruct k as [|k]; [lia|]. cbn.
  destruct (mp_get p) as [[x p']|]; [|done]. apply IH. lia.
Qed.

Lemma supply_mono s mp n k : (n <= k)%nat -> supply s mp n = None -> supply s mp k = None.
Proof. unfold supply. destruct (pools s !! mp) as [q|]; [|done]. cbn. apply pool_after_mono. Qed.

(** From [s] to [s'] the pools have given [need]. *)
Definition took s s' (need : Z -> nat) : Prop := forall mp k, supply s mp (need mp + k) = supply s' mp k.
Definition of_pool (mp : Z) (n : nat) : Z -> nat := fun mp' => if decide (mp' = mp) then n else 0%nat.

Lemma took_same s1 s2 s3 n : took s1 s2 n -> pools s3 = pools s2 -> took s1 s3 n.
Proof. intros T E mp k. rewrite T. unfold supply. by rewrite E. Qed.

Lemma took_trans s1 s2 s3 n1 n2 n3 :
  took s1 s2 n1 -> took s2 s3 n2 -> (forall mp, n3 mp = n1 mp + n2 mp)%nat -> took s1 s3 n3.
Proof. intros T1 T2 En mp k. by rewrite En, <- Nat.add_assoc, T1, T2. Qed.

Lemma alloc_took mp s x s' : rte_pktmbuf_alloc mp s = Some (x, s') -> took s s' (of_pool mp 1).
Proof.
  unfold rte_pktmbuf_alloc, __rte_mbuf_raw_alloc, rte_mempool_get, the_pool. destruct (pools s !! mp) as [q|] eqn:Eq; [|done].
  destruct (mp_get (objs q)) as [[y o]|] eqn:Eg; [|done]. intros [= <- <-] mp' k. unfold supply, of_pool. cbn.
  destruct (decide (mp' = mp)) as [->|Hne]; [|by rewrite lookup_insert_ne]. rewrite Eq, lookup_insert_eq. cbn. by rewrite Eg.
Qed.

Lemma of_pool_self mp n : of_pool mp n mp = n.
Proof. unfold of_pool. by rewrite decide_True. Qed.

Lemma of_pool_add mp n k mp' : of_pool mp (n + k) mp' = (of_pool mp n mp' + of_pool mp k mp')%nat.
Proof. unfold of_pool. by case_decide. Qed.

Lemma alloc_none mp s : rte_pktmbuf_alloc mp s = None -> supply s mp 1 = None.
Proof.
  unfold rte_pktmbuf_alloc, __rte_mbuf_raw_alloc, rte_mempool_get, the_pool, supply.
  destruct (pools s !! mp) as [q|]; [|done]. cbn. by destruct (mp_get (objs q)) as [[y o]|].
Qed.

Lemma alloc_pool mp s x s' : rte_pktmbuf_alloc mp s = Some (x, s') -> supply s' mp 0 <> None.
Proof.
  unfold rte_pktmbuf_alloc, __rte_mbuf_raw_alloc, rte_mempool_get, the_pool. destruct (pools s !! mp) as [q|] eqn:Eq; [|done].
  destruct (mp_get (objs q)) as [[y o]|] eqn:Eg; [|done]. intros [= <- <-]. unfold supply. cbn. by rewrite lookup_insert_eq.
Qed.

Lemma attach_pools x y s : pools (rte_pktmbuf_attach x y s) = pools s.
Proof.
  unfold rte_pktmbuf_attach, rte_mbuf_refcnt_update, rte_mbuf_refcnt_read, rte_mbuf_refcnt_set. by destruct (_ =? 1).
Qed.

(** ** Chains under construction *)

(** Each segment but the last points to the next one. *)
Definition links s d : Prop :=
  forall i x y, d !! i = Some x -> d !! S i = Some y -> next (mbuf s x) = Some y.

Lemma links_seglist s x d e :
  links s (x :: d) -> (forall z, last (x :: d) = Some z -> next (mbuf s z) = e) -> e = None -> seglist s (Some x) (x :: d).
Proof.
  revert x. induction d as [|y d IH]; intros x Hl Hz He.
  - split; [done|]. cbn. rewrite <- He. by apply Hz.
  - split; [done|]. rewrite (Hl 0%nat x y) by done. apply IH; [|exact Hz|done].
    intros i a b Ha Hb. by apply (Hl (S i)).
Qed.

Lemma seglist_links s p d : seglist s p d -> links s d /\ (forall z, last d = Some z -> next (mbuf s z) = None).
Proof.
  revert p. induction d as [|x d IH]; intros p Hc; [by split|]. destruct Hc as [-> Hc].
  destruct (IH _ Hc) as [H1 H2]. split.
  - intros [|i] a b Ha Hb; [|by apply (H1 i)]. cbn in Ha, Hb. injection Ha as <-. destruct d as [|y d]; [done|].
    cbn in Hb. injection Hb as <-. apply Hc.
  - intros z Hz. destruct d as [|y d]; [|by apply H2]. cbn in Hz. injection Hz as <-. exact Hc.
Qed.

(** Another segment at the end; the links of all but the last stay. *)
Lemma links_snoc s s' d x :
  NoDup (d ++ [x]) -> links s d ->
  (forall y, y ∈ d -> last d <> Some y -> next (mbuf s' y) = next (mbuf s y)) ->
  (forall z, last d = Some z -> next (mbuf s' z) = Some x) -> links s' (d ++ [x]).
Proof.
  intros Hnd Hl He Hlast i a b Ha Hb. assert (Hlen : (S i < length (d ++ [x]))%nat) by (by eapply lookup_lt_Some).
  rewrite length_app in Hlen. cbn in Hlen. rewrite lookup_app_l in Ha by lia.
  destruct (decide (S i < length d)%nat) as [Hlt|Hge].
  - rewrite lookup_app_l in Hb by lia. rewrite <- (Hl i a b) by done. apply He; [by eapply list_elem_of_lookup_2|].
    rewrite last_lookup. intros E. apply NoDup_app in Hnd as [Hnd _].
    pose proof (NoDup_lookup _ _ _ _ Hnd Ha E). lia.
  - rewrite lookup_app_r in Hb by lia. replace (S i - length d)%nat with 0%nat in Hb by lia. cbn in Hb. injection Hb as <-.
    apply Hlast. rewrite last_lookup. by replace (Init.Nat.pred (length d)) with i by lia.
Qed.

(** ** What a segment shows of its buffer *)

Definition view (r : rte_mbuf) : Z * Z * Z * Z := (buf_addr r, buf_len r, data_off r, data_len r).

Lemma view_seg_ok s s' x y : view (mbuf s' x) = view (mbuf s y) -> live s' x -> seg_ok s y -> seg_ok s' x.
Proof. unfold view. intros [= E1 E2 E3 E4] Hx [_ ? ? ? ?]. constructor; rewrite ?E2, ?E3, ?E4; done. Qed.

Lemma view_bytes s s' d l :
  mem s' = mem s -> Forall2 (fun x y => view (mbuf s' x) = view (mbuf s y)) d l ->
  bytes s' d = bytes s l /\ total_len s' d = total_len s l.
Proof.
  intros Hm. induction 1 as [|x y d l [= E1 E2 E3 E4] Hf [IH1 IH2]]; [done|].
  change (seg_bytes s' x ++ bytes s' d = seg_bytes s y ++ bytes s l /\
    data_len (mbuf s' x) + total_len s' d = data_len (mbuf s y) + total_len s l). rewrite IH1, IH2, E4. split; [|done].
  f_equal. unfold seg_bytes, read_bytes. by rewrite Hm, E1, E3, E4.
Qed.

Lemma same_data_view s s' y : same_data s s' y -> view (mbuf s' y) = view (mbuf s y).
Proof. unfold same_data. by intros ->. Qed.

(** ** The loop *)

(** Segments that can be shared [n] more times. *)
Definition sharable s (n : nat) l : Prop :=
  forall y, y ∈ l -> live s y /\ 0 < refcnt (mbuf s y) /\ refcnt (mbuf s (home s y)) + Z.of_nat n < 2 ^ 16.

Lemma sharable_mono s n k l l' : (n <= k)%nat -> l' ⊆ l -> sharable s k l -> sharable s n l'.
Proof. intros Hn Hl Hs y Hy. destruct (Hs y (Hl y Hy)) as (?&?&?). split_and!; try done. lia. Qed.

(** A new mbuf leaves the ones in use alone. *)
Lemma alloc_sharable s H L mp x s' n l :
  minv s H L -> rte_pktmbuf_alloc mp s = Some (x, s') -> sharable s n l -> sharable s' n l /\ x ∉ l.
Proof.
  intros HI Ea Hs. destruct (alloc_ok _ _ _ _ _ _ HI Ea) as (_ & Hf & _ & _ & Hr & _). split.
  - intros y Hy. destruct (Hs y Hy) as (Hl & Hp & Hm). pose proof (home_refcnt_pos _ _ _ _ HI Hl Hp) as Hh.
    assert (Ey : mbuf s' y = mbuf s y) by (apply (fr_out _ _ _ Hf), not_elem_of_singleton; intros ->; lia).
    assert (Eh : mbuf s' (home s y) = mbuf s (home s y)) by (apply (fr_out _ _ _ Hf), not_elem_of_singleton; intros <-; lia).
    split; [by apply Hf|]. rewrite Ey. split; [done|]. unfold home at 1. rewrite Ey. fold (home s y). by rewrite Eh.
  - intros Hx. destruct (Hs x Hx) as (_ & ? & _). lia.
Qed.

(** [mi] is attached to [md], and [prev] linked to [mi]. *)
Lemma share_step s H L mi md prev n l :
  minv s H L -> fresh s mi -> md ∈ l -> sharable s (S n) l -> mi ∉ l -> live s prev -> prev ∉ l ->
  let s1 := rte_pktmbuf_attach mi md s in
  let s2 := set_mbuf prev (set_link (Some mi) (mbuf s1 prev)) s1 in
  minv s2 H L /\ (forall y, live s2 y <-> live s y) /\ mem s2 = mem s /\ view (mbuf s2 mi) = view (mbuf s md) /\
  (forall y, y <> mi -> y <> prev -> same_data s s2 y) /\ (prev <> mi -> view (mbuf s2 prev) = view (mbuf s prev)) /\
  next (mbuf s2 prev) = Some mi /\ sharable s2 n l.
Proof.
  intros HI [F1 F2 F3 F4 F5 F6 F7 F8] Hmd Hsh Hmil Hlp Hpl s1 s2. destruct (Hsh md Hmd) as (Hl & Hr & Hm).
  assert (Hne : md <> mi) by (intros ->; done).
  destruct (attach_ok s H L mi md) as (HI1 & Hf & Hsd & Er & Eh & Eb & El & Eo & Ed & En & Es & Emd & Hout); try done; try lia.
  fold s1 in HI1, Hf, Hsd, Er, Eh, Eb, El, Eo, Ed, En, Es, Emd, Hout.
  assert (Hlp1 : live s1 prev) by (by apply Hf).
  assert (Hsame : same_refs s1 s2).
  { constructor; [intros; by apply live_set|done|]. intros y. unfold indirect, s2. rewrite mbuf_set. case_decide; by subst. }
  assert (Hb2 : forall y, y <> prev -> mbuf s2 y = mbuf s1 y) by (intros; unfold s2; by rewrite mbuf_set, decide_False).
  assert (Hbp : mbuf s2 prev = set_link (Some mi) (mbuf s1 prev)) by (unfold s2; by rewrite mbuf_set, decide_True).
  split; [by eapply minv_same|]. split_and!.
  - intros y. rewrite (sr_dom _ _ Hsame). apply Hf.
  - apply Hf.
  - transitivity (view (mbuf s1 mi)); [|unfold view; congruence].
    destruct (decide (mi = prev)) as [<-|Hn]; [by rewrite Hbp|by rewrite Hb2].
  - intros y Hy1 Hy2. eapply same_data_trans; [by apply Hsd|]. apply same_data_eq. auto.
  - intros Hn. rewrite Hbp. by rewrite <- (same_data_view s s1 prev) by auto.
  - by rewrite Hbp.
  - intros y Hy. destruct (Hsh y Hy) as (Hly & Hry & Hmy). assert (Hyn : y <> mi) by (intros ->; done).
    assert (Hyp : y <> prev) by (intros ->; done).
    assert (Ehy : home s2 y = home s y) by (unfold home; rewrite Hb2 by done; by rewrite (Hsd y Hyn)).
    assert (Hrf : forall z, z <> mi -> refcnt (mbuf s z) <= refcnt (mbuf s2 z) <= refcnt (mbuf s z) + 1).
    { intros z Hz. destruct (sr_core _ _ Hsame z) as (-> & _). destruct (decide (z = home s md)) as [->|Hzh]; [lia|].
      rewrite Hout by done. lia. }
    assert (Hhn : home s y <> mi).
    { destruct (indirect s y) eqn:Ei; [by apply attached_none|]. by rewrite (ho_self _ _ (mi_home _ _ _ HI y Hly) Ei). }
    split_and!; [apply (sr_dom _ _ Hsame); by apply Hf| |rewrite Ehy].
    + pose proof (Hrf y Hyn). lia.
    + pose proof (Hrf _ Hhn). lia.
Qed.

(** [d] are the mbufs made so far, [mi] the new one, [md :: l] the segments
    still to share. *)
Record cloning s H L d mi md l : Prop := {
  cl_inv : minv s (refs (d ++ [mi]) ⊎ H) L;
  cl_fresh : fresh s mi;
  cl_nodup : NoDup (d ++ [mi]);
  cl_links : links s d;
  cl_segs : seglist s (Some md) (md :: l);
  cl_share : sharable s (length (md :: l)) (md :: l);
  cl_held : forall y, y ∈ md :: l -> y ∈ H;
  cl_apart : forall x, x ∈ d ++ [mi] -> x ∉ H }.

(** What the loop has made at its end, from the state [s]. *)
Record cloned s s' H L d d' src : Prop := {
  cd_inv : minv s' (refs (d ++ d') ⊎ H) L;
  cd_nodup : NoDup (d ++ d');
  cd_links : links s' (d ++ d');
  cd_same : forall y, y ∉ d ++ d' -> same_data s s' y;
  cd_live : forall y, live s' y <-> live s y;
  cd_mem : mem s' = mem s;
  cd_old : forall x, x ∈ d -> view (mbuf s' x) = view (mbuf s x);
  cd_view : Forall2 (fun x y => view (mbuf s' x) = view (mbuf s y)) d' (take (length d') src);
  cd_apart : forall x, x ∈ d ++ d' -> x ∉ H }.

(** One round of the loop. *)
Lemma clone_round s H L d mi md l :
  cloning s H L d mi md l ->
  let prev := default mi (last d) in
  let s1 := rte_pktmbuf_attach mi md s in
  let s2 := set_mbuf prev (set_link (Some mi) (mbuf s1 prev)) s1 in
  cloned s s2 H L d [mi] (md :: l) /\ sharable s2 (length l) (md :: l) /\ seglist s2 (Some md) (md :: l).
Proof.
  intros [C1 C2 C3 C4 C5 C6 C8 C7] prev s1 s2.
  assert (Hprev : prev ∈ d ++ [mi]).
  { unfold prev. destruct (last d) as [z|] eqn:Ez; cbn; [|set_solver]. apply last_Some in Ez as [d0 ->]. set_solver. }
  assert (Hap : forall x, x ∈ d ++ [mi] -> x ∉ md :: l) by (intros x Hx Hx'; by apply (C7 x), C8).
  assert (Hmi : mi ∉ d) by (apply NoDup_app in C3 as (_ & Hx & _); intros Hd; apply (Hx mi Hd); set_solver).
  assert (Hlp : live s prev) by (apply (mi_held _ _ _ C1); apply gmultiset_elem_of_disj_union; left; by apply elem_of_list_to_set_disj).
  destruct (share_step s _ L mi md prev (length l) (md :: l) C1 C2) as (HI & Hlv & Hm & Ev & Hsd & Hpv & Hpn & Hsh);
    [left|done|by apply Hap; set_solver|done|by apply Hap|].
  fold s1 s2 in HI, Hlv, Hm, Ev, Hsd, Hpv, Hpn, Hsh.
  assert (Hlast : forall z, last d = Some z -> prev = z /\ z ∈ d /\ z <> mi).
  { intros z Ez. unfold prev. rewrite Ez. apply last_Some in Ez as [d0 Ed]. split; [done|].
    assert (z ∈ d) by (rewrite Ed; set_solver). split; [done|]. by intros ->. }
  assert (Hold : forall y, y ∈ d -> last d <> Some y -> same_data s s2 y).
  { intros y Hy Hly. apply Hsd; [by intros ->|]. unfold prev. destruct (last d) as [z|] eqn:Ez; cbn; [by intros ->|by intros ->]. }
  assert (Hout : forall y, y ∉ d ++ [mi] -> same_data s s2 y) by (intros y Hy; apply Hsd; intros ->; [set_solver|done]).
  split; [|split; [done|]].
  - constructor; try done.
    + apply (links_snoc s); try done; [|by intros z Ez; destruct (Hlast z Ez) as (<- & _)].
      intros y Hy Hly. by rewrite (Hold y Hy Hly).
    + intros x Hx. destruct (decide (last d = Some x)) as [El|El]; [|by apply same_data_view, Hold].
      destruct (Hlast x El) as (<- & _ & Hne). by apply Hpv.
    + cbn [length take]. constructor; [done|constructor].
  - apply (seglist_ext s); [|done]. intros y Hy. rewrite (Hout y); [done|]. intros Hy'. by apply (Hap y).
Qed.

(** The rounds after the first one go on from [d ++ [mi]]. *)
Lemma cloned_trans s s2 s3 s' H L d mi md l d' :
  cloned s s2 H L d [mi] (md :: l) -> (forall y, y ∈ md :: l -> y ∈ H) ->
  (forall y, y ∉ d' -> mbuf s3 y = mbuf s2 y) -> (forall y, live s3 y <-> live s2 y) -> mem s3 = mem s2 ->
  cloned s3 s' H L (d ++ [mi]) d' l -> cloned s s' H L d (mi :: d') (md :: l).
Proof.
  intros [A1 A2 A3 A4 A5 A6 A7 A8 A9] Hsrc Ho Hl Hm [B1 B2 B3 B4 B5 B6 B7 B8 B9].
  rewrite <- app_assoc in B1, B2, B3, B4, B9. cbn [app] in B1, B2, B3, B4, B9.
  assert (Hdd : forall x, x ∈ d ++ [mi] -> x ∉ d').
  { rewrite cons_middle, app_assoc in B2. apply NoDup_app in B2 as (_ & Hx & _). done. }
  constructor; try done.
  - intros y Hy. eapply same_data_trans; [apply A4; set_solver|]. eapply same_data_trans; [|by apply B4].
    apply same_data_eq, Ho. set_solver.
  - intros y. by rewrite B5, Hl, A5.
  - congruence.
  - intros x Hx. rewrite B7 by set_solver. rewrite Ho by (apply Hdd; set_solver). auto.
  - cbn [length take]. apply Forall2_cons in A8 as [Hv _]. constructor.
    + rewrite B7 by set_solver. rewrite Ho by (apply Hdd; set_solver). done.
    + eapply Forall2_impl_in; [exact B8|]. intros x y Hx Hy Hv'. rewrite Hv'.
      assert (Hyl : y ∈ H) by (apply Hsrc; right; apply elem_of_take in Hy as (i & Hi & _); by eapply list_elem_of_lookup_2).
      rewrite Ho by (intros Hyd; apply (B9 y); [set_solver|done]).
      apply same_data_view, A4. intros Hyd. by apply (A9 y).
Qed.

Lemma refs_snoc l x : refs (l ++ [x]) = {[+ x +]} ⊎ refs l.
Proof. rewrite list_to_set_disj_app, list_to_set_disj_cons, list_to_set_disj_nil. multiset_solver. Qed.

(** The mbuf for the next round. *)
Lemma clone_next s s2 s3 H L d mi md md' l mi2 mp :
  cloned s s2 H L d [mi] (md :: md' :: l) -> sharable s2 (length (md' :: l)) (md :: md' :: l) ->
  seglist s2 (Some md) (md :: md' :: l) -> (forall y, y ∈ md :: md' :: l -> y ∈ H) ->
  rte_pktmbuf_alloc mp s2 = Some (mi2, s3) ->
  cloning s3 H L (d ++ [mi]) mi2 md' l /\ frame {[mi2]} s2 s3.
Proof.
  intros [A1 A2 A3 A4 A5 A6 A7 A8 A9] Hsh Hc Hsrc Ea.
  destruct (alloc_ok _ _ _ _ _ _ A1 Ea) as (HI & Hf & Hfr & Hnh & Hr & _).
  destruct (alloc_sharable _ _ _ _ _ _ _ _ A1 Ea Hsh) as [Hsh3 Hn].
  assert (Hnd : mi2 ∉ d ++ [mi]) by (intros Hx; apply Hnh, gmultiset_elem_of_disj_union; left; by apply elem_of_list_to_set_disj).
  assert (Hb : forall y, y <> mi2 -> mbuf s3 y = mbuf s2 y) by (intros; by apply (fr_out _ _ _ Hf), not_elem_of_singleton).
  split; [|done]. constructor; try done.
  - rewrite refs_snoc, <- (assoc_L (⊎)). done.
  - apply NoDup_app. split; [done|]. split; [|apply NoDup_singleton]. intros x Hx ->%list_elem_of_singleton. done.
  - intros i a b Ha Hb'. rewrite Hb; [by eapply A3|]. intros ->. apply Hnd. by eapply list_elem_of_lookup_2.
  - destruct Hc as [_ Hc]. destruct (id Hc) as [E _]. rewrite <- E. eapply seglist_ext; [|exact Hc].
    intros y Hy. rewrite Hb; [done|]. intros ->. apply Hn. by right.
  - eapply sharable_mono; [reflexivity| |exact Hsh3]. by intros y Hy; right.
  - intros y Hy. apply Hsrc. by right.
  - intros x [Hx| ->%list_elem_of_singleton]%elem_of_app; [by apply A9|].
    intros Hx. apply Hnh, gmultiset_elem_of_disj_union. by right.
Qed.

Lemma clone_loop_ok l : forall fuel mp mi md s H L d,
  cloning s H L d mi md l -> (length (md :: l) <= fuel)%nat -> (length d + length (md :: l) < 256)%nat ->
  exists res prev d' s', clone_loop fuel mp mi md (default mi (last d)) (Z.of_nat (length d)) s =
      Some (res, prev, Z.of_nat (length (d ++ mi :: d')), s') /\ last (mi :: d') = Some prev /\
    cloned s s' H L d (mi :: d') (md :: l) /\
    match res with
    | Some _ => length (mi :: d') = length (md :: l) /\ (supply s mp 0 <> None -> supply s mp (length l) <> None)
    | None => supply s mp (length l) = None
    end.
Proof.
  induction l as [|md' l IH]; intros fuel mp mi md s H L d Hcl Hf Hd; (destruct fuel as [|fuel]; [cbn in Hf; lia|]);
    destruct (clone_round _ _ _ _ _ _ _ Hcl) as (Hcd & Hsh & Hc); cbn [clone_loop]; cbv zeta;
    set (s1 := rte_pktmbuf_attach mi md s) in *; set (prev := default mi (last d)) in *; set (s2 := set_mbuf prev _ s1) in *;
    assert (En : u8 (Z.of_nat (length d) + 1) = Z.of_nat (length (d ++ [mi])))
      by (unfold u8; rewrite length_app; cbn in Hd |- *; rewrite wrap_small; lia);
    destruct (id Hc) as [_ Hnext].
  - rewrite Hnext, En. by eexists (Some _), mi, [], s2.
  - destruct (id Hnext) as [-> _]. rewrite En. destruct (rte_pktmbuf_alloc mp s2) as [[mi2 s3]|] eqn:Ea.
    + destruct (clone_next _ _ _ _ _ _ _ _ _ _ _ _ Hcd Hsh Hc (cl_held _ _ _ _ _ _ _ Hcl) Ea) as (Hcl2 & Hfr).
      cbn [length] in Hf, Hd. destruct (IH fuel mp mi2 md' s3 H L (d ++ [mi]) Hcl2) as (res & prev' & d' & s' & E & Hlast & Hcd' & Hres).
      { cbn. lia. } { rewrite length_app. cbn. lia. }
      replace (default mi2 (last (d ++ [mi]))) with mi in E by (by rewrite last_snoc).
      exists res, prev', (mi2 :: d'), s'. rewrite E, <- app_assoc. split; [done|]. split; [done|].
      assert (Ht : forall k, supply s mp (S k) = supply s3 mp k).
      { intros k. rewrite <- (alloc_took _ _ _ _ Ea mp k), of_pool_self. unfold supply, s2, s1. cbn [pools set_mbuf]. by rewrite attach_pools. }
      split; [|cbn [length]; rewrite Ht; destruct res as [r|]; [|done]; destruct Hres as [Hlen Hsup]; cbn in Hlen; split; [lia|]; intros _; apply Hsup, (alloc_pool _ _ _ _ Ea)].
      eapply (cloned_trans s s2 s3); [exact Hcd|apply Hcl| | | |exact Hcd']; [|apply Hfr|apply Hfr].
      intros y Hy. apply (fr_out _ _ _ Hfr). set_solver.
    + eexists None, mi, [], s2. split; [reflexivity|]. split; [done|]. split; [done|]. apply (supply_mono s mp 1); [cbn; lia|].
      apply alloc_none in Ea. unfold supply, s2, s1 in *. cbn [pools set_mbuf] in Ea. by rewrite attach_pools in Ea.
Qed.

(** ** The clone *)

(** Ending the chain. *)
Lemma close_chain s s' H L mc d prev n pl :
  NoDup (mc :: d) -> links s (mc :: d) -> last (mc :: d) = Some prev -> minv s (refs (mc :: d) ⊎ H) L ->
  let s1 := set_mbuf prev (set_link None (mbuf s prev)) s in
  s' = set_mbuf mc (set_packet n pl (mbuf s1 mc)) s1 ->
  seglist s' (Some mc) (mc :: d) /\ minv s' (refs (mc :: d) ⊎ H) L /\ (forall y, view (mbuf s' y) = view (mbuf s y)) /\
  (forall y, y ∉ mc :: d -> mbuf s' y = mbuf s y) /\ (forall y, live s' y <-> live s y) /\ mem s' = mem s /\
  nb_segs (mbuf s' mc) = n /\ pkt_len (mbuf s' mc) = pl.
Proof.
  intros Hnd Hl Hlast HI s1 Es'. assert (Hp : prev ∈ mc :: d) by (apply last_Some in Hlast as [d0 ->]; set_solver).
  assert (Hlv : forall y, y ∈ mc :: d -> live s y).
  { intros y Hy. apply (mi_held _ _ _ HI), gmultiset_elem_of_disj_union. left. by apply elem_of_list_to_set_disj. }
  assert (Hl1 : forall y, live s1 y <-> live s y) by (intros; apply live_set; auto).
  assert (Hl2 : forall y, live s' y <-> live s y) by (intros y; rewrite Es', <- Hl1; apply live_set, Hl1, Hlv; left).
  assert (Hb : forall y, mbuf s' y = (if decide (y = mc) then set_packet n pl else id) (if decide (y = prev) then set_link None (mbuf s y) else mbuf s y)).
  { intros y. rewrite Es'. unfold s1. rewrite !mbuf_set. by repeat case_decide; subst. }
  assert (Hn : forall y, next (mbuf s' y) = if decide (y = prev) then None else next (mbuf s y)).
  { intros y. rewrite Hb. by repeat case_decide. }
  split_and!.
  - apply (links_seglist _ _ _ None); [|intros z Hz; rewrite Hlast in Hz; injection Hz as <-; by rewrite Hn, decide_True|done].
    intros i a b Ha Hb'. rewrite Hn, decide_False; [by eapply Hl|]. intros ->. rewrite last_lookup in Hlast.
    apply lookup_lt_Some in Hb'. pose proof (NoDup_lookup _ _ _ _ Hnd Ha Hlast). cbn in *. lia.
  - apply (minv_same s); [|done]. constructor; [done|by rewrite Es'|]. intros y. unfold indirect. rewrite Hb.
    by repeat case_decide.
  - intros y. rewrite Hb. by repeat case_decide.
  - intros y Hy. rewrite Hb, !decide_False; [done|by intros ->|]. intros ->. apply Hy. left.
  - done.
  - by rewrite Es'.
  - rewrite Hb, decide_True by done. by case_decide.
  - rewrite Hb, decide_True by done. by case_decide.
Qed.

Lemma seglist_fuel s x d H L :
  minv s (refs (x :: d) ⊎ H) L -> NoDup (x :: d) -> (length (x :: d) <= mfuel s)%nat.
Proof.
  intros HI Hnd. pose proof (members_bound (mbufs s) (x :: d) Hnd) as Hb. unfold mfuel. rewrite Hb; [lia|].
  intros y Hy. apply (mi_held _ _ _ HI), gmultiset_elem_of_disj_union. left. by apply elem_of_list_to_set_disj.
Qed.

(** The first mbuf of the clone. *)
Lemma clone_start s H L md l mp mc s1 :
  packet s md (md :: l) -> minv s H L -> (forall y, y ∈ md :: l -> y ∈ H) ->
  (forall y, y ∈ md :: l -> refcnt (mbuf s (home s y)) + Z.of_nat (length (md :: l)) < 2 ^ 16) ->
  rte_pktmbuf_alloc mp s = Some (mc, s1) ->
  cloning s1 H L [] mc md l /\ (forall y, y <> mc -> mbuf s1 y = mbuf s y) /\ (forall y, live s1 y <-> live s y) /\ mem s1 = mem s.
Proof.
  intros Hp HI HlH Hmax Ea. destruct (alloc_ok _ _ _ _ _ _ HI Ea) as (HI1 & Hf & Hfr & Hn & Hr & _).
  assert (Hsh : sharable s (length (md :: l)) (md :: l)).
  { intros y Hy. assert (Hly : live s y) by (apply (mi_held _ _ _ HI); auto). split_and!; [done| |auto].
    rewrite (mi_count _ _ _ HI y Hly). pose proof (proj1 (elem_of_multiplicity _ _) (HlH y Hy)). lia. }
  destruct (alloc_sharable _ _ _ _ _ _ _ _ HI Ea Hsh) as [Hsh1 Hnl].
  assert (Hb : forall y, y <> mc -> mbuf s1 y = mbuf s y) by (intros; by apply (fr_out _ _ _ Hf), not_elem_of_singleton).
  split; [|split_and!; [done|apply Hf|apply Hf]]. constructor; try done.
  - by rewrite (refs_snoc []), list_to_set_disj_nil, (right_id_L ∅ (⊎)).
  - apply NoDup_singleton.
  - apply (seglist_ext s); [|apply Hp]. intros y Hy. rewrite Hb; [done|]. by intros ->.
  - intros x ->%list_elem_of_singleton. done.
Qed.

(** The clone of a packet that the program holds is a packet of new mbufs with
    the same bytes; without enough mbufs nothing more is held. *)
Lemma clone_ok s H L md l mp :
  packet s md l -> minv s H L -> (forall y, y ∈ l -> y ∈ H) ->
  (forall y, y ∈ l -> refcnt (mbuf s (home s y)) + Z.of_nat (length l) < 2 ^ 16) ->
  exists res s', rte_pktmbuf_clone md mp s = Some (res, s') /\ (forall y, y ∈ H -> same_data s s' y) /\
    (forall y, live s' y <-> live s y) /\ mem s' = mem s /\
    match res with
    | Some mc => exists l', packet s' mc l' /\ bytes s' l' = bytes s l /\ length l' = length l /\
        minv s' (refs l' ⊎ H) L /\ (forall x, x ∈ l' -> x ∉ H) /\ supply s mp (length l) <> None
    | None => minv s' H L /\ supply s mp (length l) = None
    end.
Proof.
  intros Hp HI HlH Hmax. unfold rte_pktmbuf_clone. destruct (rte_pktmbuf_alloc mp s) as [[mc s1]|] eqn:Ea.
  all: destruct (packet_head _ _ _ Hp) as [l0 ->].
  2: { eexists None, s. split_and!; try done; [intros; by apply same_data_eq|]. apply alloc_none in Ea. apply (supply_mono s mp 1); [cbn; lia|done]. }
  assert (Ht' : supply s mp (length (md :: l0)) = supply s1 mp (length l0))
    by (rewrite <- (alloc_took _ _ _ _ Ea mp (length l0)), of_pool_self; done).
  destruct (clone_start _ _ _ _ _ _ _ _ Hp HI HlH Hmax Ea) as (Hcl & Hb1 & Hl1 & Hm1).
  assert (Hmc : mc ∉ H) by (apply (cl_apart _ _ _ _ _ _ _ Hcl); left).
  destruct (clone_loop_ok l0 (mfuel s1) mp mc md s1 H L [] Hcl) as (res & prev & d & s2 & E & Hlast & Hcd & Hres).
  { unfold mfuel. pose proof (members_bound (mbufs s1) (md :: l0) (pk_nodup _ _ _ Hp)) as Hb. rewrite Hb; [lia|].
    intros y Hy. apply Hl1. by apply (pk_segs _ _ _ Hp). }
  { pose proof (pk_max_nb _ _ _ Hp). cbn [length] in *. lia. }
  cbn [last length] in E. change (default mc None) with mc in E. change (Z.of_nat 0) with 0 in E. cbv zeta. rewrite E. cbn [mbind option_bind]. clear E.
  destruct Hcd as [D1 D2 D3 D4 D5 D6 D7 D8 D9]. cbn [app] in D1, D2, D3, D4, D9.
  set (s3 := set_mbuf mc _ (set_mbuf prev _ s2)).
  destruct (close_chain s2 s3 H L mc d prev _ _ D2 D3 Hlast D1 eq_refl) as (C1 & C2 & C3 & C4 & C5 & C6 & C7 & C8).
  assert (Hsame : forall y, y ∈ H -> same_data s s3 y).
  { intros y Hy. assert (Hyd : y ∉ mc :: d) by (intros Hd; by apply (D9 y)).
    eapply same_data_trans; [apply same_data_eq, Hb1; by intros ->|].
    eapply same_data_trans; [by apply D4|]. apply same_data_eq. auto. }
  assert (Hlive : forall y, live s3 y <-> live s y) by (intros; by rewrite C5, D5, Hl1).
  assert (Hmem : mem s3 = mem s) by congruence.
  destruct res as [mi|].
  - eexists (Some mc), s3. split; [reflexivity|]. split_and!; try done. exists (mc :: d).
    destruct Hres as [Hlen Hsup].
    rewrite Hlen, take_ge in D8 by lia.
    assert (Hv : Forall2 (fun x y => view (mbuf s3 x) = view (mbuf s y)) (mc :: d) (md :: l0)).
    { eapply Forall2_impl_in; [exact D8|]. intros x y Hx Hy Hv. rewrite C3, Hv, Hb1; [done|]. intros ->. auto. }
    destruct (view_bytes _ _ _ _ Hmem Hv) as [Hby Ht].
    split_and!; try done; [|rewrite Ht'; apply Hsup, (alloc_pool _ _ _ _ Ea)]. constructor; try done.
    + intros x Hx. destruct (Forall2_same_length_lookup (fun x y => view (mbuf s3 x) = view (mbuf s y)) (mc :: d) (md :: l0)) as [[_ Hlk] _]; [done|].
      apply list_elem_of_lookup_1 in Hx as [i Hi]. destruct (lookup_lt_is_Some_2 (md :: l0) i) as [y Hy];
        [rewrite <- Hlen; by eapply lookup_lt_Some|].
      eapply view_seg_ok; [by eapply Hlk| |apply (pk_segs _ _ _ Hp); by eapply list_elem_of_lookup_2].
      apply (mi_held _ _ _ C2), gmultiset_elem_of_disj_union. left. apply elem_of_list_to_set_disj. by eapply list_elem_of_lookup_2.
    + rewrite C8, Ht, Hb1; [apply Hp|]. intros ->. apply Hmc, HlH. left.
    + rewrite Ht. apply Hp.
    + rewrite Hlen. apply Hp.
  - destruct (free_loop_ok (mc :: d) H L (mfuel s3) (Some mc) s3 C1 D2 (seglist_fuel _ _ _ _ _ C2 D2) C2)
      as (s4 & E4 & HI4 & Hsd & Hlv & Hm4 & _).
    unfold rte_pktmbuf_free. rewrite E4. cbn [mbind option_bind]. eexists None, s4. split; [reflexivity|]. split_and!.
    + intros y Hy. eapply same_data_trans; [by apply Hsame|]. apply Hsd. intros Hd. by apply (D9 y).
    + intros y. by rewrite Hlv.
    + congruence.
    + done.
    + by rewrite Ht'.
Qed.

End Clone.

(** A stack gives its objects. *)
Lemma stack_after n (l : list Z) : pool_after n l = if decide (n <= length l)%nat then Some (drop n l) else None.
Proof.
  revert l. induction n as [|n IH]; intros [|x l]; cbn [pool_after mp_get stack_pool length drop]; try done.
  rewrite IH. repeat case_decide; done || lia.
Qed.
