(* ===== verification/Mempool.v ===== *)
(** * Memory pools: data and operations

    Model of [librte_mempool/rte_mempool.h] and of [rte_mempool_count] of
    [rte_mempool.c]: objects of one size, kept in a ring and, in front of it,
    in a cache per core.  Objects are pointers, modelled by integers; the
    statistics and the cookies around the objects are compiled out by default.

    The ring is the one of the file Ring; the multi-producer functions take
    the number of attempts at the compare-and-set, which is 1 for a thread that
    runs alone, and give [None] when these are used up. *)
From S2P Require Import Prelude Bits Ring.

Definition RTE_MEMPOOL_CACHE_MAX_SIZE : Z := 512.
Definition RTE_MAX_LCORE : Z := 128.
Definition MEMPOOL_F_SP_PUT : Z := 0x0004.
Definition MEMPOOL_F_SC_GET : Z := 0x0008.

(** [objs] has room for three times the largest cache. *)
Record rte_mempool_cache := MCache {
  cache_len : Z;
  cache_objs : gmap Z Z }.

#[export] Instance mempool_cache_inhabited : Inhabited rte_mempool_cache := populate (MCache 0 ∅).

Record rte_mempool := Mempool {
  mp_ring : rte_ring;
  mp_flags : Z;
  mp_size : Z;
  cache_size : Z;
  cache_flushthresh : Z;
  local_cache : gmap Z rte_mempool_cache }.

(** [(typeof(c))((c) * 1.5)] *)
Definition CALC_CACHE_FLUSHTHRESH (c : Z) : Z := 3 * c / 2.

Definition set_mp_ring (r : rte_ring) (mp : rte_mempool) : rte_mempool :=
  Mempool r (mp_flags mp) (mp_size mp) (cache_size mp) (cache_flushthresh mp) (local_cache mp).
Definition set_cache (lcore_id : Z) (c : rte_mempool_cache) (mp : rte_mempool) : rte_mempool :=
  Mempool (mp_ring mp) (mp_flags mp) (mp_size mp) (cache_size mp) (cache_flushthresh mp)
    (<[lcore_id := c]> (local_cache mp)).

(** The part of an array from [o] on, as the argument of a call. *)
Definition slice (t : gmap Z Z) (o n : Z) : list Z := map (fun i => t !!! (o + Z.of_nat i)) (seq 0 (Z.to_nat n)).

(** ** Put *)

Definition ring_enqueue (fuel : nat) (mp : rte_mempool) (obj_table : list Z) (n : Z) (is_mp : bool) : option rte_mempool :=
  if is_mp then
    '(r, _) ← rte_ring_mp_enqueue_bulk fuel (mp_ring mp) obj_table n;
    Some (set_mp_ring r mp)
  else Some (set_mp_ring (rte_ring_sp_enqueue_bulk (mp_ring mp) obj_table n).1 mp).

Definition __mempool_put_bulk (fuel : nat) (lcore_id : Z) (mp : rte_mempool) (obj_table : list Z) (n : Z) (is_mp : bool) :
    option rte_mempool :=
  if (cache_size mp =? 0) || negb is_mp || (RTE_MAX_LCORE <=? lcore_id) then ring_enqueue fuel mp obj_table n is_mp
  else if RTE_MEMPOOL_CACHE_MAX_SIZE <? n then ring_enqueue fuel mp obj_table n is_mp
  else
    let cache := local_cache mp !!! lcore_id in
    let objs := memcpy (cache_objs cache) (cache_len cache) (chars obj_table) 0 n in
    let len := u32 (cache_len cache + n) in
    if cache_flushthresh mp <=? len then
      let k := u32 (len - cache_size mp) in
      '(r, _) ← rte_ring_mp_enqueue_bulk fuel (mp_ring mp) (slice objs (cache_size mp) k) k;
      Some (set_cache lcore_id (MCache (cache_size mp) objs) (set_mp_ring r mp))
    else Some (set_cache lcore_id (MCache len objs) mp).

Definition rte_mempool_mp_put_bulk (fuel : nat) (lcore_id : Z) (mp : rte_mempool) (obj_table : list Z) (n : Z) :=
  __mempool_put_bulk fuel lcore_id mp obj_table n true.
Definition rte_mempool_sp_put_bulk (fuel : nat) (lcore_id : Z) (mp : rte_mempool) (obj_table : list Z) (n : Z) :=
  __mempool_put_bulk fuel lcore_id mp obj_table n false.
Definition rte_mempool_put_bulk (fuel : nat) (lcore_id : Z) (mp : rte_mempool) (obj_table : list Z) (n : Z) :=
  __mempool_put_bulk fuel lcore_id mp obj_table n (Z.land (mp_flags mp) MEMPOOL_F_SP_PUT =? 0).
Definition rte_mempool_put (fuel : nat) (lcore_id : Z) (mp : rte_mempool) (obj : Z) :=
  rte_mempool_put_bulk fuel lcore_id mp [obj] 1.

(** ** Get *)

(** Result: the pool, the caller's object table and the return value. *)
Definition ring_dequeue (fuel : nat) (mp : rte_mempool) (obj_table : gmap Z Z) (n : Z) (is_mc : bool) :
    option (rte_mempool * gmap Z Z * Z) :=
  if is_mc then
    '(r, t, ret) ← rte_ring_mc_dequeue_bulk fuel (mp_ring mp) obj_table n;
    Some (set_mp_ring r mp, t, ret)
  else let '(r, t, ret) := rte_ring_sc_dequeue_bulk (mp_ring mp) obj_table n in Some (set_mp_ring r mp, t, ret).

(** "Now fill in the response": the last [n] objects of the cache. *)
Definition fill_response (lcore_id : Z) (mp : rte_mempool) (obj_table : gmap Z Z) (n : Z) : rte_mempool * gmap Z Z * Z :=
  let cache := local_cache mp !!! lcore_id in
  (set_cache lcore_id (MCache (u32 (cache_len cache - n)) (cache_objs cache)) mp,
   for_range 0 n (fun index t => <[index := cache_objs cache !!! u32 (cache_len cache - 1 - index)]> t) obj_table, 0).

Definition __mempool_get_bulk (fuel : nat) (lcore_id : Z) (mp : rte_mempool) (obj_table : gmap Z Z) (n : Z) (is_mc : bool) :
    option (rte_mempool * gmap Z Z * Z) :=
  if (cache_size mp =? 0) || negb is_mc || (cache_size mp <=? n) || (RTE_MAX_LCORE <=? lcore_id)
  then ring_dequeue fuel mp obj_table n is_mc
  else
    let cache := local_cache mp !!! lcore_id in
    if cache_len cache <? n then
      let req := u32 (n + (cache_size mp - cache_len cache)) in
      '(r, t, ret) ← rte_ring_mc_dequeue_bulk fuel (mp_ring mp) ∅ req;
      if ret <? 0 then ring_dequeue fuel mp obj_table n is_mc
      else
        let cache := MCache (u32 (cache_len cache + req)) (memcpy (cache_objs cache) (cache_len cache) (cells t) 0 req) in
        Some (fill_response lcore_id (set_cache lcore_id cache (set_mp_ring r mp)) obj_table n)
    else Some (fill_response lcore_id mp obj_table n).

Definition rte_mempool_mc_get_bulk (fuel : nat) (lcore_id : Z) (mp : rte_mempool) (obj_table : gmap Z Z) (n : Z) :=
  __mempool_get_bulk fuel lcore_id mp obj_table n true.
Definition rte_mempool_sc_get_bulk (fuel : nat) (lcore_id : Z) (mp : rte_mempool) (obj_table : gmap Z Z) (n : Z) :=
  __mempool_get_bulk fuel lcore_id mp obj_table n false.
Definition rte_mempool_get_bulk (fuel : nat) (lcore_id : Z) (mp : rte_mempool) (obj_table : gmap Z Z) (n : Z) :=
  __mempool_get_bulk fuel lcore_id mp obj_table n (Z.land (mp_flags mp) MEMPOOL_F_SC_GET =? 0).
Definition rte_mempool_get (fuel : nat) (lcore_id : Z) (mp : rte_mempool) (obj_p : gmap Z Z) :=
  rte_mempool_get_bulk fuel lcore_id mp obj_p 1.

(** ** Observers *)

Definition rte_mempool_count (mp : rte_mempool) : Z :=
  let count := rte_ring_count (mp_ring mp) in
  if cache_size mp =? 0 then count
  else
    let count := for_range 0 RTE_MAX_LCORE (fun lcore_id c => u32 (c + cache_len (local_cache mp !!! lcore_id))) count in
    if mp_size mp <? count then mp_size mp else count.

Definition rte_mempool_free_count (mp : rte_mempool) : Z := u32 (mp_size mp - rte_mempool_count mp).
Definition rte_mempool_full (mp : rte_mempool) : bool := rte_mempool_count mp =? mp_size mp.
Definition rte_mempool_empty (mp : rte_mempool) : bool := rte_mempool_count mp =? 0.

(** ** Creation *)

(** The part of [rte_mempool_xmem_create] that concerns the ring and the
    caches: [objects] are the addresses at which [mempool_populate] finds room
    for an element, in their order. *)
Definition rte_mempool_create_ring (cells : gmap Z Z) (n cache_size flags : Z) (objects : list Z) : option rte_mempool :=
  if (RTE_MEMPOOL_CACHE_MAX_SIZE <? cache_size) || (n <? CALC_CACHE_FLUSHTHRESH cache_size) then None
  else
    let rg_flags := Z.lor (if Z.land flags MEMPOOL_F_SP_PUT =? 0 then 0 else RING_F_SP_ENQ)
                          (if Z.land flags MEMPOOL_F_SC_GET =? 0 then 0 else RING_F_SC_DEQ) in
    let count := rte_align32pow2 (u32 (n + 1)) in
    if rte_ring_get_memsize count <? 0 then None
    else
      let r := (rte_ring_init cells count rg_flags).1 in
      let r := fold_left (fun r obj => (rte_ring_sp_enqueue r obj).1) objects r in
      Some (Mempool r flags (Z.of_nat (length objects)) cache_size (CALC_CACHE_FLUSHTHRESH cache_size) ∅).
