(* ===== verification/MempoolProofs.v ===== *)
(** * Memory pools: the objects of a pool

    Every object of the pool is in the ring or in one cache, exactly once; put
    adds objects and get takes some out. *)
From S2P Require Import Prelude Bits Ring RingProofs Mempool.

(** ** Arrays *)

Lemma slice_app t o a b : 0 <= a -> 0 <= b -> slice t o (a + b) = slice t o a ++ slice t (o + a) b.
Proof.
  intros Ha Hb. unfold slice. rewrite Z2Nat.inj_add, seq_app, map_app by done. f_equal.
  rewrite (Nat.add_comm 0), <- (fmap_add_seq _ 0), <- list_fmap_compose.
  apply list_fmap_ext. intros _ i _. cbn. f_equal. lia.
Qed.

Lemma slice_ext t t' o o' n :
  (forall i, 0 <= i < n -> t' !!! (o' + i) = t !!! (o + i)) -> slice t' o' n = slice t o n.
Proof.
  intros He. unfold slice. apply map_ext_in. intros i Hi%in_seq. apply He. lia.
Qed.

Lemma length_slice t o n : length (slice t o n) = Z.to_nat n.
Proof. unfold slice. by rewrite length_map, length_seq. Qed.

Lemma slice_list t o l n :
  n = Z.of_nat (length l) -> (forall i, 0 <= i < n -> t !!! (o + i) = l !!! Z.to_nat i) -> slice t o n = l.
Proof.
  intros -> He. apply list_eq_same_length with (n := length l); [done|by rewrite length_slice, Nat2Z.id|].
  intros i x y Hi. unfold slice. rewrite list_lookup_fmap, Nat2Z.id, lookup_seq_lt by done. cbn. intros [= <-] Hy.
  rewrite He by lia. rewrite Nat2Z.id. by apply list_lookup_total_correct.
Qed.

Lemma perm_front (l o c : list Z) : (l ++ o) ++ c ≡ₚ o ++ l ++ c.
Proof. solve_Permutation. Qed.
Lemma perm_flush (l a b o : list Z) : (l ++ b) ++ a ++ o ≡ₚ l ++ (a ++ b) ++ o.
Proof. solve_Permutation. Qed.
Lemma perm_push (l c x o : list Z) : l ++ (c ++ x) ++ o ≡ₚ x ++ l ++ c ++ o.
Proof. solve_Permutation. Qed.

(** ** The contents *)

Definition cache_list (c : rte_mempool_cache) : list Z := slice (cache_objs c) 0 (cache_len c).

Definition caches (mp : rte_mempool) : list Z :=
  concat (map (fun i => cache_list (local_cache mp !!! i)) (seqZ 0 RTE_MAX_LCORE)).

(** [l] are the objects in the ring. *)
Record mempool_inv (mp : rte_mempool) (l : list Z) : Prop := {
  mv_ring : ring_inv (mp_ring mp) l;
  mv_size : 0 <= cache_size mp <= RTE_MEMPOOL_CACHE_MAX_SIZE;
  mv_flush : cache_flushthresh mp = CALC_CACHE_FLUSHTHRESH (cache_size mp);
  mv_len : forall i, 0 <= cache_len (local_cache mp !!! i) <= cache_flushthresh mp }.

(** The same pool, apart from the places of the objects. *)
Definition same_pool (mp mp' : rte_mempool) : Prop :=
  mp_flags mp' = mp_flags mp /\ mp_size mp' = mp_size mp /\ cache_size mp' = cache_size mp /\
  cache_flushthresh mp' = cache_flushthresh mp /\ p_size (prod (mp_ring mp')) = p_size (prod (mp_ring mp)).

(** The caches without the one of [lcore]. *)
Definition other_caches (lcore : Z) (mp : rte_mempool) : list Z :=
  concat (map (fun i => cache_list (local_cache mp !!! i)) (filter (fun i => i <> lcore) (seqZ 0 RTE_MAX_LCORE))).

Lemma caches_split lcore mp :
  0 <= lcore < RTE_MAX_LCORE -> caches mp ≡ₚ cache_list (local_cache mp !!! lcore) ++ other_caches lcore mp.
Proof.
  intros Hl. unfold caches, other_caches.
  assert (Hp : seqZ 0 RTE_MAX_LCORE ≡ₚ lcore :: filter (fun i => i <> lcore) (seqZ 0 RTE_MAX_LCORE)).
  { apply NoDup_Permutation; [apply NoDup_seqZ| |].
    - constructor; [|apply NoDup_filter, NoDup_seqZ]. intros Hx. by apply (list_elem_of_filter (fun i => i <> lcore)) in Hx as [? _].
    - intros x. rewrite elem_of_cons, (list_elem_of_filter (fun i => i <> lcore)), elem_of_seqZ.
      destruct (decide (x = lcore)) as [->|]; [split; [by left|lia]|]. split; [right; done|by intros [?|[_ ?]]]. }
  rewrite Hp at 1. done.
Qed.

Lemma other_caches_set lcore c mp : other_caches lcore (set_cache lcore c mp) = other_caches lcore mp.
Proof.
  unfold other_caches. f_equal. apply map_ext_in. intros i Hi%list_elem_of_In.
  apply (list_elem_of_filter (fun i => i <> lcore)) in Hi as [Hi _]. cbn. by rewrite lookup_total_insert_ne.
Qed.

Lemma caches_set lcore c mp :
  0 <= lcore < RTE_MAX_LCORE -> caches (set_cache lcore c mp) ≡ₚ cache_list c ++ other_caches lcore mp.
Proof.
  intros Hl. rewrite (caches_split lcore), other_caches_set by done. cbn. by rewrite lookup_total_insert_eq.
Qed.

(** ** The ring *)

(** Enqueueing objects for which there is room. *)
Lemma enqueue_room r q objs n :
  ring_inv r q -> 0 <= n <= Z.of_nat (length objs) -> n <= free_of r q ->
  exists r' ret, rte_ring_mp_enqueue_bulk 1 r objs n = Some (r', ret) /\ ring_inv r' (q ++ take (Z.to_nat n) objs) /\
    p_size (prod r') = p_size (prod r).
Proof.
  intros HI Hn Hf. unfold rte_ring_mp_enqueue_bulk. destruct (Z.eqb_spec n 0) as [->|Hz].
  - exists r, 0. cbn. by rewrite app_nil_r.
  - rewrite (mp_enqueue_alone 0 r q) by done. pose proof (sp_enqueue_ok r q objs n RTE_RING_QUEUE_FIXED HI Hn) as He.
    unfold enq_post, enq_result in He. rewrite (proj2 (Z.leb_le n _)) in He by done.
    destruct (rte_ring_sp_do_enqueue r objs n RTE_RING_QUEUE_FIXED) as [r' ret]. cbn in He.
    destruct He as (_ & Hg & HI'). exists r', ret. split; [done|]. split; [done|]. apply Hg.
Qed.

Lemma sp_enqueue_room r q objs n :
  ring_inv r q -> 0 <= n <= Z.of_nat (length objs) -> n <= free_of r q ->
  ring_inv (rte_ring_sp_enqueue_bulk r objs n).1 (q ++ take (Z.to_nat n) objs) /\
  p_size (prod (rte_ring_sp_enqueue_bulk r objs n).1) = p_size (prod r).
Proof.
  intros HI Hn Hf. pose proof (sp_enqueue_ok r q objs n RTE_RING_QUEUE_FIXED HI Hn) as He.
  unfold enq_post, enq_result in He. rewrite (proj2 (Z.leb_le n _)) in He by done.
  destruct He as (_ & Hg & HI'). split; [done|]. apply Hg.
Qed.

(** Taking [n] objects: all of them or none. *)
Lemma dequeue_bulk r q t n :
  ring_inv r q -> 0 < n ->
  rte_ring_mc_dequeue_bulk 1 r t n = Some (rte_ring_sc_dequeue_bulk r t n) /\
  if n <=? Z.of_nat (length q) then
    exists r' t', rte_ring_sc_dequeue_bulk r t n = (r', t', 0) /\ ring_inv r' (drop (Z.to_nat n) q) /\
      slice t' 0 n = take (Z.to_nat n) q /\ p_size (prod r') = p_size (prod r)
  else rte_ring_sc_dequeue_bulk r t n = (r, t, - ENOENT).
Proof.
  intros HI Hn. split; [apply (mc_dequeue_alone 0 r q); [done|lia]|].
  pose proof (sc_dequeue_ok r q t n RTE_RING_QUEUE_FIXED HI ltac:(lia)) as Hd. unfold rte_ring_sc_dequeue_bulk.
  unfold deq_post, deq_result in Hd. destruct (Z.leb_spec n (Z.of_nat (length q))); [|done].
  destruct (rte_ring_sc_do_dequeue r t n RTE_RING_QUEUE_FIXED) as [[r' t'] ret]. destruct Hd as (-> & Hg & HI' & Ht).
  exists r', t'. split; [done|]. split; [done|]. split; [|apply Hg]. apply slice_list; [rewrite length_take; lia|].
  intros i Hi. rewrite Z.add_0_l, Ht, decide_True by done. by rewrite !list_lookup_total_alt, lookup_take_lt by lia.
Qed.

(** ** Put *)

Lemma flush_bounds mp l :
  mempool_inv mp l -> cache_size mp <= cache_flushthresh mp <= 768.
Proof.
  intros HI. rewrite (mv_flush _ _ HI). pose proof (mv_size _ _ HI). unfold CALC_CACHE_FLUSHTHRESH, RTE_MEMPOOL_CACHE_MAX_SIZE in *.
  dlia.
Qed.

Lemma caches_ring r mp : caches (set_mp_ring r mp) = caches mp.
Proof. done. Qed.

Lemma ring_enqueue_ok mp l objs n is_mp :
  mempool_inv mp l -> n = Z.of_nat (length objs) -> n <= free_of (mp_ring mp) l ->
  exists mp', ring_enqueue 1 mp objs n is_mp = Some mp' /\ mempool_inv mp' (l ++ objs) /\ same_pool mp mp' /\ caches mp' = caches mp.
Proof.
  intros HI -> Hf. unfold ring_enqueue. destruct is_mp.
  - destruct (enqueue_room _ _ objs (Z.of_nat (length objs)) (mv_ring _ _ HI)) as (r & ret & -> & Hr & Hs); [lia|done|].
    rewrite Nat2Z.id, take_ge in Hr by done. cbn [mbind option_bind]. eexists. split; [done|]. split; [|done].
    by destruct HI.
  - destruct (sp_enqueue_room _ _ objs (Z.of_nat (length objs)) (mv_ring _ _ HI)) as [Hr Hs]; [lia|done|].
    rewrite Nat2Z.id, take_ge in Hr by done. eexists. split; [done|]. split; [|done]. by destruct HI.
Qed.

(** The cache with [objs] added. *)
Lemma cache_push c objs n :
  0 <= cache_len c -> n = Z.of_nat (length objs) ->
  slice (memcpy (cache_objs c) (cache_len c) (chars objs) 0 n) 0 (cache_len c + n) = cache_list c ++ objs.
Proof.
  intros Hc Hn. rewrite slice_app by lia. f_equal.
  - apply slice_ext. intros i Hi. rewrite memcpy_cells, decide_False by lia. done.
  - apply slice_list; [done|]. intros i Hi. rewrite memcpy_cells, decide_True by lia. unfold chars. do 2 f_equal. lia.
Qed.

Lemma put_bulk_ok lcore mp l objs n is_mp :
  mempool_inv mp l -> 0 <= lcore -> n = Z.of_nat (length objs) ->
  Z.of_nat (length (l ++ caches mp)) + n <= p_size (prod (mp_ring mp)) - 1 ->
  exists mp' l', __mempool_put_bulk 1 lcore mp objs n is_mp = Some mp' /\ mempool_inv mp' l' /\ same_pool mp mp' /\
    l' ++ caches mp' ≡ₚ objs ++ l ++ caches mp.
Proof.
  intros HI Hl Hn Hcap. rewrite length_app in Hcap. pose proof (flush_bounds _ _ HI) as Hfb. pose proof (mv_size _ _ HI) as Hsz.
  assert (Hring : forall b, exists mp' l', ring_enqueue 1 mp objs n b = Some mp' /\ mempool_inv mp' l' /\ same_pool mp mp' /\
    l' ++ caches mp' ≡ₚ objs ++ l ++ caches mp).
  { intros b. destruct (ring_enqueue_ok mp l objs n b HI Hn) as (mp' & E & HI' & Hs & Hc); [unfold free_of; lia|].
    exists mp', (l ++ objs). split; [done|]. split; [done|]. split; [done|]. rewrite Hc. apply perm_front. }
  unfold __mempool_put_bulk. destruct ((cache_size mp =? 0) || negb is_mp || (RTE_MAX_LCORE <=? lcore)) eqn:Eg; [apply Hring|].
  apply orb_false_iff in Eg as [[Ez Emp]%orb_false_iff Elc]. apply Z.eqb_neq in Ez. apply Z.leb_gt in Elc.
  destruct (Z.ltb_spec RTE_MEMPOOL_CACHE_MAX_SIZE n) as [Hbig|Hsmall]; [apply Hring|]. clear Hring.
  set (c := local_cache mp !!! lcore). pose proof (mv_len _ _ HI lcore) as Hlen. fold c in Hlen. cbv zeta.
  unfold RTE_MEMPOOL_CACHE_MAX_SIZE in *. rewrite (u32_small (cache_len c + n)) by lia.
  set (t := memcpy _ _ _ _ _). pose proof (cache_push c objs n ltac:(lia) Hn) as Hpush. fold t in Hpush.
  assert (Hsplit := caches_split lcore mp ltac:(lia)). fold c in Hsplit.
  assert (Hset : forall r k l', ring_inv r l' -> 0 <= k <= cache_flushthresh mp -> p_size (prod r) = p_size (prod (mp_ring mp)) ->
    let mp' := set_cache lcore (MCache k t) (set_mp_ring r mp) in
    mempool_inv mp' l' /\ same_pool mp mp' /\ caches mp' ≡ₚ slice t 0 k ++ other_caches lcore mp).
  { intros r k l' Hr Hk Hp mp'. split; [|split; [done|exact (caches_set lcore (MCache k t) (set_mp_ring r mp) ltac:(lia))]]. constructor; try done; [apply HI|].
    intros i. cbn. rewrite lookup_total_insert. case_decide; [cbn; lia|apply HI]. }
  destruct (Z.leb_spec (cache_flushthresh mp) (cache_len c + n)) as [Hfl|Hno].
  - rewrite (u32_small (cache_len c + n - cache_size mp)) by lia. set (k := cache_len c + n - cache_size mp).
    assert (Hsl : slice t 0 (cache_len c + n) = slice t 0 (cache_size mp) ++ slice t (cache_size mp) k).
    { rewrite <- (Z.add_0_l (cache_size mp)) at 2. rewrite <- slice_app by lia. f_equal. lia. }
    destruct (enqueue_room _ _ (slice t (cache_size mp) k) k (mv_ring _ _ HI)) as (r & ret & -> & Hr & Hp).
    { rewrite length_slice. lia. }
    { assert (Hlc : (length (cache_list c) <= length (caches mp))%nat) by (rewrite Hsplit, length_app; lia).
      unfold cache_list in Hlc. rewrite length_slice in Hlc. unfold free_of. lia. }
    rewrite take_ge in Hr by (rewrite length_slice; lia). cbn [mbind option_bind].
    destruct (Hset r (cache_size mp) _ Hr ltac:(lia) Hp) as (HI' & Hs' & Hc'). eexists _, _. split; [done|]. split; [exact HI'|].
    split; [done|]. rewrite Hc', Hsplit. rewrite Hpush in Hsl.
    transitivity (l ++ (slice t 0 (cache_size mp) ++ slice t (cache_size mp) k) ++ other_caches lcore mp); [apply perm_flush|].
    rewrite <- Hsl. apply perm_push.
  - destruct (Hset (mp_ring mp) (cache_len c + n) l (mv_ring _ _ HI) ltac:(lia) eq_refl) as (HI' & Hs' & Hc').
    eexists _, l. split; [reflexivity|].
    assert (Em : set_mp_ring (mp_ring mp) mp = mp) by (by destruct mp). rewrite Em in HI', Hs', Hc'.
    split; [exact HI'|]. split; [exact Hs'|]. rewrite Hc', Hpush, Hsplit. apply perm_push.
Qed.

(** ** Get *)

Lemma ring_dequeue_ok mp l t n is_mc :
  mempool_inv mp l -> 0 < n ->
  if n <=? Z.of_nat (length l) then
    exists mp' t', ring_dequeue 1 mp t n is_mc = Some (mp', t', 0) /\ mempool_inv mp' (drop (Z.to_nat n) l) /\ same_pool mp mp' /\
      caches mp' = caches mp /\ slice t' 0 n = take (Z.to_nat n) l
  else ring_dequeue 1 mp t n is_mc = Some (mp, t, - ENOENT).
Proof.
  intros HI Hn. destruct (dequeue_bulk _ _ t n (mv_ring _ _ HI) Hn) as [Hmc Hd].
  assert (E : ring_dequeue 1 mp t n is_mc = Some (set_mp_ring (rte_ring_sc_dequeue_bulk (mp_ring mp) t n).1.1 mp,
    (rte_ring_sc_dequeue_bulk (mp_ring mp) t n).1.2, (rte_ring_sc_dequeue_bulk (mp_ring mp) t n).2)).
  { unfold ring_dequeue. destruct is_mc; [rewrite Hmc; cbn [mbind option_bind]|]; by destruct (rte_ring_sc_dequeue_bulk _ _ _) as [[? ?] ?]. }
  rewrite E. destruct (n <=? Z.of_nat (length l)).
  - destruct Hd as (r & t' & -> & Hr & Hs & Hp). eexists _, _. split; [reflexivity|]. split; [by destruct HI|]. done.
  - rewrite Hd. cbn. by destruct mp.
Qed.

(** The last [n] objects of the cache. *)
Lemma response_slice t objs len n :
  0 <= n <= len -> len < 2 ^ 32 ->
  slice (for_range 0 n (fun index t => <[index := objs !!! u32 (len - 1 - index)]> t) t) 0 n = reverse (slice objs (len - n) n).
Proof.
  intros Hn Hl. apply slice_list; [rewrite length_reverse, length_slice; lia|]. intros i Hi.
  rewrite (filled_from (fun c => objs !!! u32 (len - 1 - c)) t _ 0) by (intros; rewrite ?Z.sub_0_r; done || lia).
  rewrite decide_True by lia. rewrite u32_small by lia.
  rewrite list_lookup_total_alt, reverse_lookup by (rewrite length_slice; lia). rewrite length_slice.
  unfold slice. rewrite list_lookup_fmap, lookup_seq_lt by lia. cbn. f_equal. lia.
Qed.

(** Here the cache of [lcore] may be above the threshold. *)
Lemma fill_response_ok lcore mp l t n (c := local_cache mp !!! lcore) :
  ring_inv (mp_ring mp) l -> 0 <= cache_size mp <= RTE_MEMPOOL_CACHE_MAX_SIZE ->
  cache_flushthresh mp = CALC_CACHE_FLUSHTHRESH (cache_size mp) ->
  (forall i, i <> lcore -> 0 <= cache_len (local_cache mp !!! i) <= cache_flushthresh mp) ->
  0 <= lcore < RTE_MAX_LCORE -> 0 <= n <= cache_len c -> cache_len c < 2 ^ 32 -> cache_len c - n <= cache_flushthresh mp ->
  exists mp' t', fill_response lcore mp t n = (mp', t', 0) /\ mempool_inv mp' l /\ same_pool mp mp' /\
    slice t' 0 n ++ l ++ caches mp' ≡ₚ l ++ caches mp.
Proof.
  intros Hr Hsz Hfl Hlen Hl Hn Hmax Hend. unfold fill_response. fold c. rewrite (u32_small (cache_len c - n)) by lia.
  eexists _, _. split; [reflexivity|]. split; [|split; [done|]].
  - constructor; try done. intros i. cbn. rewrite lookup_total_insert. case_decide; [cbn; lia|auto].
  - rewrite (caches_set lcore), (caches_split lcore mp) by lia. fold c. rewrite response_slice, reverse_Permutation by lia.
    assert (Hc : cache_list c = slice (cache_objs c) 0 (cache_len c - n) ++ slice (cache_objs c) (cache_len c - n) n).
    { unfold cache_list. replace (cache_len c) with (cache_len c - n + n) at 1 by lia. rewrite slice_app by lia. done. }
    rewrite Hc. symmetry. apply perm_push.
Qed.

Lemma get_bulk_ok lcore mp l t n is_mc :
  mempool_inv mp l -> 0 <= lcore -> 0 < n < 2 ^ 31 ->
  exists mp' t' ret l', __mempool_get_bulk 1 lcore mp t n is_mc = Some (mp', t', ret) /\ mempool_inv mp' l' /\ same_pool mp mp' /\
    (ret = 0 /\ slice t' 0 n ++ l' ++ caches mp' ≡ₚ l ++ caches mp \/
     ret = - ENOENT /\ mp' = mp /\ t' = t /\ l' = l /\ Z.of_nat (length l) < n).
Proof.
  intros HI Hl Hn. pose proof (flush_bounds _ _ HI) as Hfb. pose proof (mv_size _ _ HI) as Hsz.
  assert (Hring : forall b, exists mp' t' ret l', ring_dequeue 1 mp t n b = Some (mp', t', ret) /\ mempool_inv mp' l' /\ same_pool mp mp' /\
    (ret = 0 /\ slice t' 0 n ++ l' ++ caches mp' ≡ₚ l ++ caches mp \/
     ret = - ENOENT /\ mp' = mp /\ t' = t /\ l' = l /\ Z.of_nat (length l) < n)).
  { intros b. pose proof (ring_dequeue_ok mp l t n b HI ltac:(lia)) as Hd. destruct (Z.leb_spec n (Z.of_nat (length l))).
    - destruct Hd as (mp' & t' & E & HI' & Hs & Hc & Ht). eexists _, _, _, _. split; [done|]. split; [done|]. split; [done|].
      left. split; [done|]. rewrite Ht, Hc, app_assoc, take_drop. done.
    - eexists _, _, _, _. split; [exact Hd|]. split; [done|]. split; [done|]. by right. }
  unfold __mempool_get_bulk.
  destruct ((cache_size mp =? 0) || negb is_mc || (cache_size mp <=? n) || (RTE_MAX_LCORE <=? lcore)) eqn:Eg; [apply Hring|].
  apply orb_false_iff in Eg as [[[Ez Emc]%orb_false_iff En]%orb_false_iff Elc]. apply Z.eqb_neq in Ez. apply Z.leb_gt in En, Elc.
  cbv zeta. set (c := local_cache mp !!! lcore). pose proof (mv_len _ _ HI lcore) as Hlen. fold c in Hlen.
  unfold RTE_MEMPOOL_CACHE_MAX_SIZE in Hsz. destruct (Z.ltb_spec (cache_len c) n) as [Hlt|Hge].
  - set (req := u32 (n + (cache_size mp - cache_len c))). assert (Ereq : req = n + cache_size mp - cache_len c) by (unfold req; rewrite u32_small; lia).
    destruct (dequeue_bulk _ _ ∅ req (mv_ring _ _ HI) ltac:(lia)) as [-> Hd]. cbn [mbind option_bind].
    destruct (Z.leb_spec req (Z.of_nat (length l))); [|rewrite Hd; apply Hring].
    destruct Hd as (r & t0 & -> & Hr & Ht0 & Hp). cbn [Z.ltb Z.compare]. rewrite (u32_small (cache_len c + req)) by lia.
    set (c' := MCache _ _). set (mp1 := set_cache lcore c' (set_mp_ring r mp)).
    assert (Ec : local_cache mp1 !!! lcore = c') by (unfold mp1; cbn; by rewrite lookup_total_insert_eq).
    assert (Hc' : cache_list c' = cache_list c ++ take (Z.to_nat req) l).
    { rewrite <- Ht0. unfold cache_list at 1. cbn [cache_objs cache_len c']. rewrite <- (cache_push c (slice t0 0 req) req).
      - apply slice_ext. intros i Hi. rewrite !memcpy_cells by lia. case_decide; [|done].
        unfold cells, chars, slice. rewrite list_lookup_total_alt, list_lookup_fmap, lookup_seq_lt by lia. cbn. f_equal. lia.
      - lia.
      - rewrite length_slice. lia. }
    destruct (fill_response_ok lcore mp1 (drop (Z.to_nat req) l) t n) as (mp' & t' & E & HI' & Hs & Hperm);
      rewrite ?Ec; cbn [c' cache_len]; try done; try lia.
    + apply HI.
    + intros i Hi. cbn. rewrite lookup_total_insert_ne by done. apply HI.
    + cbn. lia.
    + eexists _, _, _, _. split; [by rewrite E|]. split; [done|]. split.
      { destruct Hs as (?&?&?&?&Hps). split_and!; try done. rewrite Hps. exact Hp. }
      left. split; [done|]. rewrite Hperm. unfold mp1. rewrite (caches_set lcore) by lia.
      change (other_caches lcore (set_mp_ring r mp)) with (other_caches lcore mp).
      rewrite Hc', (caches_split lcore mp) by lia. fold c. rewrite <- (take_drop (Z.to_nat req) l) at 3. rewrite <- (app_assoc (take _ l)).
      apply perm_push.
  - destruct (fill_response_ok lcore mp l t n) as (mp' & t' & E & HI' & Hs & Hperm); try (apply HI); try done; try lia.
    { intros i _. apply HI. } { fold c. lia. } { fold c. lia. } { fold c. lia. }
    eexists _, _, _, _. split; [by rewrite E|]. split; [done|]. split; [done|]. by left.
Qed.
