(* ===== verification/MempoolTheorems.v ===== *)
(** * Memory pools: theorems

    A pool hands out each of its objects to one holder at a time and loses
    none, whichever cores put and get them; and it is a pool for the mbufs. *)
From S2P Require Import Prelude Bits Ring RingProofs Mempool MempoolProofs Mbuf.

(** ** Creation and count *)

Lemma ring_count_ok r q : ring_inv r q -> rte_ring_count r = Z.of_nat (length q).
Proof.
  intros [(k&Hk&Hs) Hcs Hmask _ _ Hl Hcap _ _]. unfold rte_ring_count. rewrite Hmask, Hl, Hs, land_mask by lia.
  apply Z.mod_small. lia.
Qed.

Lemma pool_populate_ok objects r q :
  ring_inv r q -> Z.of_nat (length q + length objects) <= p_size (prod r) - 1 ->
  ring_inv (fold_left (fun r obj => (rte_ring_sp_enqueue r obj).1) objects r) (q ++ objects) /\
  p_size (prod (fold_left (fun r obj => (rte_ring_sp_enqueue r obj).1) objects r)) = p_size (prod r).
Proof.
  revert r q. induction objects as [|x objects IH]; intros r q HI Hc; [by rewrite app_nil_r|].
  cbn [fold_left length] in *. destruct (sp_enqueue_room r q [x] 1 HI) as [HI' Hs]; [cbn; lia|unfold free_of; lia|].
  rewrite cons_middle, app_assoc. fold (rte_ring_sp_enqueue r x) in HI', Hs. rewrite <- Hs.
  apply IH; [exact HI'|]. rewrite length_app, Hs. cbn. lia.
Qed.

Lemma caches_empty r f n cs fl : caches (Mempool r f n cs fl ∅) = [].
Proof. done. Qed.

Lemma create_ok cells n cs flags objects mp :
  0 <= cs -> 0 <= n < 2 ^ 31 -> Z.of_nat (length objects) <= n ->
  rte_mempool_create_ring cells n cs flags objects = Some mp ->
  mempool_inv mp objects /\ caches mp = [] /\ n <= p_size (prod (mp_ring mp)) - 1 /\ mp_size mp = Z.of_nat (length objects).
Proof.
  intros Hcs Hn Hlen. unfold rte_mempool_create_ring.
  destruct ((RTE_MEMPOOL_CACHE_MAX_SIZE <? cs) || (n <? CALC_CACHE_FLUSHTHRESH cs)) eqn:E; [done|].
  apply orb_false_iff in E as [E1%Z.ltb_ge E2%Z.ltb_ge]. cbv zeta. rewrite (u32_small (n + 1)) by lia.
  destruct (align32pow2_spec (n + 1) ltac:(lia)) as (k & Hk & Ek & Hb). rewrite Ek.
  destruct (Z.ltb_spec (rte_ring_get_memsize (2 ^ k)) 0) as [|Hm]; [done|]. set (r0 := (rte_ring_init _ _ _).1).
  assert (Hp2 : 0 < 2 ^ k < 2 ^ 32) by (split; [lia|apply Z.pow_lt_mono_r; lia]).
  assert (HI0 : ring_inv r0 []) by (by apply init_ok).
  assert (Hs0 : p_size (prod r0) = 2 ^ k) by done.
  destruct (pool_populate_ok objects r0 [] HI0) as [HI Hs]; [cbn; lia|]. intros [= <-]. cbn in HI.
  split; [|split; [done|split; [cbn [mp_ring]; lia|done]]].
  constructor; cbn [mp_ring cache_size cache_flushthresh local_cache]; try done; try lia.
  intros i. rewrite lookup_total_empty. cbn. unfold CALC_CACHE_FLUSHTHRESH. dlia.
Qed.

(** The objects in the caches of the first [i] cores. *)
Definition caches_upto (mp : rte_mempool) (i : Z) : list Z :=
  concat (map (fun j => cache_list (local_cache mp !!! j)) (seqZ 0 i)).

Lemma caches_upto_app mp i k :
  0 <= i -> 0 <= k ->
  caches_upto mp (i + k) = caches_upto mp i ++ concat (map (fun j => cache_list (local_cache mp !!! j)) (seqZ i k)).
Proof. intros Hi Hk. unfold caches_upto. by rewrite seqZ_app, map_app, concat_app, Z.add_0_l by done. Qed.

Lemma count_loop mp l :
  mempool_inv mp l -> Z.of_nat (length (l ++ caches mp)) < 2 ^ 32 ->
  for_range 0 RTE_MAX_LCORE (fun lcore_id c => u32 (c + cache_len (local_cache mp !!! lcore_id))) (Z.of_nat (length l)) =
  Z.of_nat (length (l ++ caches mp)).
Proof.
  intros HI Hmax. change (caches mp) with (caches_upto mp RTE_MAX_LCORE) in *.
  apply (for_range_inv (fun i c => c = Z.of_nat (length (l ++ caches_upto mp i)))); [done| |].
  - change (caches_upto mp 0) with (@nil Z). by rewrite app_nil_r.
  - intros i c Hi ->. pose proof (mv_len _ _ HI i) as Hlen.
    assert (Hst : length (caches_upto mp (i + 1)) = (length (caches_upto mp i) + Z.to_nat (cache_len (local_cache mp !!! i)))%nat).
    { rewrite caches_upto_app, length_app by lia. f_equal.
      rewrite (seqZ_cons i 1), seqZ_nil by lia. cbn [map concat]. rewrite app_nil_r. unfold cache_list. by rewrite length_slice. }
    assert (Hle : (length (caches_upto mp (i + 1)) <= length (caches_upto mp RTE_MAX_LCORE))%nat).
    { replace RTE_MAX_LCORE with (i + 1 + (RTE_MAX_LCORE - (i + 1))) by lia. rewrite (caches_upto_app mp (i + 1)), length_app by lia. lia. }
    rewrite !length_app. rewrite length_app in Hmax. rewrite u32_small by lia. lia.
Qed.

(** The objects in the pool. *)
Definition contents (mp : rte_mempool) (free : list Z) : Prop :=
  exists l, mempool_inv mp l /\ l ++ caches mp ≡ₚ free.

Lemma no_caches mp l : mempool_inv mp l -> cache_size mp = 0 -> caches mp = [].
Proof.
  intros HI Hz. unfold caches. induction (seqZ 0 RTE_MAX_LCORE) as [|i ids IH]; [done|]. cbn. rewrite IH, app_nil_r.
  pose proof (mv_len _ _ HI i) as Hl. rewrite (mv_flush _ _ HI), Hz in Hl. change (CALC_CACHE_FLUSHTHRESH 0) with 0 in Hl.
  unfold cache_list. by replace (cache_len (local_cache mp !!! i)) with 0 by lia.
Qed.

Lemma count_ok mp free :
  contents mp free -> Z.of_nat (length free) <= mp_size mp < 2 ^ 32 ->
  rte_mempool_count mp = Z.of_nat (length free).
Proof.
  intros (l & HI & Hp) Hs. unfold rte_mempool_count. rewrite (ring_count_ok _ _ (mv_ring _ _ HI)).
  assert (Hlen : length free = length (l ++ caches mp)) by (by rewrite Hp). rewrite Hlen in *.
  destruct (Z.eqb_spec (cache_size mp) 0) as [E|_].
  - by rewrite (no_caches _ _ HI E), app_nil_r.
  - rewrite count_loop by (done || lia). by rewrite (proj2 (Z.ltb_ge _ _)) by lia.
Qed.

(** ** Put and get *)

Lemma get_contents lcore mp free t n is_mc :
  contents mp free -> 0 <= lcore -> 0 < n < 2 ^ 31 ->
  exists mp' t' ret, __mempool_get_bulk 1 lcore mp t n is_mc = Some (mp', t', ret) /\ same_pool mp mp' /\
    (ret = 0 /\ (exists free', contents mp' free' /\ slice t' 0 n ++ free' ≡ₚ free) \/ ret = - ENOENT /\ mp' = mp).
Proof.
  intros (l & HI & Hp) Hl Hn. destruct (get_bulk_ok lcore mp l t n is_mc HI Hl Hn) as (mp' & t' & ret & l' & E & HI' & Hs & Hr).
  exists mp', t', ret. split; [done|]. split; [done|]. destruct Hr as [[-> Hpr]|(-> & -> & _)]; [left|by right].
  split; [done|]. exists (l' ++ caches mp'). split; [by exists l'|]. by rewrite Hpr.
Qed.

Lemma put_contents lcore mp free objs is_mp :
  contents mp free -> 0 <= lcore -> Z.of_nat (length objs + length free) <= p_size (prod (mp_ring mp)) - 1 ->
  exists mp', __mempool_put_bulk 1 lcore mp objs (Z.of_nat (length objs)) is_mp = Some mp' /\ same_pool mp mp' /\
    contents mp' (objs ++ free).
Proof.
  intros (l & HI & Hp) Hl Hc. destruct (put_bulk_ok lcore mp l objs _ is_mp HI Hl eq_refl) as (mp' & l' & E & HI' & Hs & Hpr).
  - rewrite Hp. lia.
  - exists mp'. split; [done|]. split; [done|]. exists l'. split; [done|]. by rewrite Hpr, Hp.
Qed.

(** ** Pools in use *)

(** Calls of any core; [held] are the objects that were handed out. *)
Inductive pool_step : rte_mempool * list Z -> rte_mempool * list Z -> Prop :=
| Ps_get lcore mp mp' t n is_mc held :
    0 <= lcore -> 0 < n < 2 ^ 31 -> __mempool_get_bulk 1 lcore mp ∅ n is_mc = Some (mp', t, 0) ->
    pool_step (mp, held) (mp', slice t 0 n ++ held)
| Ps_fail lcore mp mp' t n is_mc held ret :
    0 <= lcore -> 0 < n < 2 ^ 31 -> __mempool_get_bulk 1 lcore mp ∅ n is_mc = Some (mp', t, ret) -> ret <> 0 ->
    pool_step (mp, held) (mp', held)
| Ps_put lcore mp mp' objs is_mp held held' :
    0 <= lcore -> held ≡ₚ objs ++ held' -> __mempool_put_bulk 1 lcore mp objs (Z.of_nat (length objs)) is_mp = Some mp' ->
    pool_step (mp, held) (mp', held').

Definition pool_inv (objects : list Z) (p : rte_mempool * list Z) : Prop :=
  exists free, contents p.1 free /\ p.2 ++ free ≡ₚ objects /\ Z.of_nat (length objects) <= p_size (prod (mp_ring p.1)) - 1 /\
    mp_size p.1 = Z.of_nat (length objects).

Lemma pool_step_inv objects p p' : pool_step p p' -> pool_inv objects p -> pool_inv objects p'.
Proof.
  destruct 1 as [lcore mp mp' t n is_mc held Hl Hn E|lcore mp mp' t n is_mc held ret Hl Hn E Hr|lcore mp mp' objs is_mp held held' Hl Hh E];
    intros (free & Hc & Hp & Hs & Hm); cbn [fst snd] in *.
  - destruct (get_contents lcore mp free ∅ n is_mc Hc Hl Hn) as (mp1 & t1 & ret1 & E1 & Hsp & Hr1).
    rewrite E in E1. injection E1 as <- <- <-. destruct Hr1 as [(_ & free' & Hc' & Hp')|[? _]]; [|done].
    exists free'. cbn [fst snd]. destruct Hsp as (_ & -> & _ & _ & ->). split_and!; try done. rewrite <- Hp, <- Hp'. solve_Permutation.
  - destruct (get_contents lcore mp free ∅ n is_mc Hc Hl Hn) as (mp1 & t1 & ret1 & E1 & Hsp & Hr1).
    rewrite E in E1. injection E1 as <- <- <-. destruct Hr1 as [[? _]|[_ ->]]; [done|]. by exists free.
  - assert (Hlen : (length objects = length objs + length held' + length free)%nat).
    { rewrite <- Hp, length_app. by rewrite Hh, length_app. }
    destruct (put_contents lcore mp free objs is_mp Hc Hl) as (mp1 & E1 & Hsp & Hc1); [lia|]. rewrite E in E1. injection E1 as <-.
    exists (objs ++ free). cbn [fst snd]. destruct Hsp as (_ & -> & _ & _ & ->). split_and!; try done. rewrite <- Hp, Hh. solve_Permutation.
Qed.

Lemma create_pool_inv cells n cs flags objects mp :
  0 <= cs -> 0 <= n < 2 ^ 31 -> Z.of_nat (length objects) <= n ->
  rte_mempool_create_ring cells n cs flags objects = Some mp -> pool_inv objects (mp, []).
Proof.
  intros Hcs Hn Hlen E. destruct (create_ok _ _ _ _ _ _ Hcs Hn Hlen E) as (HI & Hc & Hs & Hm).
  exists objects. cbn. split_and!; try done; [|lia]. exists objects. split; [done|]. by rewrite Hc, app_nil_r.
Qed.

(** C23: a pool of distinct objects, used by any cores through get and put,
    never hands out an object that is held already and loses none: the held
    and the free objects together are the objects it was created with.  The
    count is the number of free objects; every call returns, a get with free
    objects or with -ENOENT and no change. *)
Theorem mempool_conserves (cells : gmap Z Z) (n cs flags : Z) (objects : list Z) (mp0 mp : rte_mempool) (held : list Z) :
  0 <= cs -> 0 <= n < 2 ^ 31 -> Z.of_nat (length objects) <= n -> NoDup objects ->
  rte_mempool_create_ring cells n cs flags objects = Some mp0 -> rtc pool_step (mp0, []) (mp, held) ->
  exists free, held ++ free ≡ₚ objects /\ NoDup (held ++ free) /\ rte_mempool_count mp = Z.of_nat (length free) /\
    (forall lcore k is_mc t, 0 <= lcore -> 0 < k < 2 ^ 31 -> exists mp' t' ret,
      __mempool_get_bulk 1 lcore mp t k is_mc = Some (mp', t', ret) /\
      (ret = 0 /\ slice t' 0 k ⊆+ free \/ ret = - ENOENT /\ mp' = mp)) /\
    (forall lcore objs held' is_mp, 0 <= lcore -> held ≡ₚ objs ++ held' ->
      is_Some (__mempool_put_bulk 1 lcore mp objs (Z.of_nat (length objs)) is_mp)).
Proof.
  intros Hcs Hn Hlen Hnd E Hsteps.
  assert (HI : pool_inv objects (mp, held)).
  { apply (rtc_ind_r (pool_inv objects) (mp0, [])) in Hsteps; [done|by eapply create_pool_inv|].
    intros p p' _ Hs HI. by eapply pool_step_inv. }
  destruct HI as (free & Hc & Hp & Hs & Hm). cbn [fst snd] in *. exists free.
  assert (Hl : (length objects = length held + length free)%nat) by (by rewrite <- Hp, length_app).
  split; [done|]. split; [by rewrite Hp|]. split; [apply count_ok; [done|lia]|]. split.
  - intros lcore k is_mc t Hlc Hk. destruct (get_contents lcore mp free t k is_mc Hc Hlc Hk) as (mp' & t' & ret & E' & _ & Hr).
    exists mp', t', ret. split; [done|]. destruct Hr as [(-> & free' & _ & Hpf)|?]; [left|by right].
    split; [done|]. rewrite <- Hpf. by apply submseteq_inserts_r.
  - intros lcore objs held' is_mp Hlc Hh. destruct (put_contents lcore mp free objs is_mp Hc Hlc) as (mp' & -> & _); [|done].
    assert (length held = length objs + length held')%nat by (by rewrite Hh, length_app). lia.
Qed.

Definition demo_pool : rte_mempool := default (Mempool (rte_ring_init ∅ 4 0).1 0 0 0 0 ∅) (rte_mempool_create_ring ∅ 3 2 0 [10; 20; 30]).
Definition demo_pool1 : rte_mempool := from_option (fun x => x.1.1) demo_pool (__mempool_get_bulk 1 0 demo_pool ∅ 1 true).
Definition demo_table : gmap Z Z := from_option (fun x => x.1.2) ∅ (__mempool_get_bulk 1 0 demo_pool ∅ 1 true).
Definition demo_pool2 : rte_mempool := default demo_pool1 (__mempool_put_bulk 1 1 demo_pool1 [30] 1 true).

Lemma mempool_conserves_witness :
  exists free, [] ++ free ≡ₚ [10; 20; 30] /\ rte_mempool_count demo_pool2 = Z.of_nat (length free).
Proof.
  destruct (mempool_conserves ∅ 3 2 0 [10; 20; 30] demo_pool demo_pool2 []) as (free & H1 & _ & H2 & _).
  - lia.
  - lia.
  - vm_compute. discriminate.
  - apply (bool_decide_unpack _). vm_compute. exact I.
  - reflexivity.
  - eapply rtc_l; [|apply rtc_once].
    + exact (Ps_get 0 demo_pool demo_pool1 demo_table 1 true []
        ltac:(lia) ltac:(lia) ltac:(vm_compute; reflexivity)).
    + apply (Ps_put 1 demo_pool1 demo_pool2 [30] true _ []); [lia| |vm_compute; reflexivity].
      vm_compute. reflexivity.
  - exact (ex_intro _ free (conj H1 H2)).
Defined.

(** A cache of one object keeps an object from everybody: put fills it, get
    goes to the ring. *)
Theorem cache_of_one_starves :
  exists mp0 mp1 mp2 t, rte_mempool_create_ring ∅ 1 1 0 [10] = Some mp0 /\
    __mempool_get_bulk 1 0 mp0 ∅ 1 true = Some (mp1, t, 0) /\ t !!! 0 = 10 /\
    __mempool_put_bulk 1 0 mp1 [10] 1 true = Some mp2 /\
    rte_mempool_count mp2 = 1 /\ __mempool_get_bulk 1 0 mp2 ∅ 1 true = Some (mp2, ∅, - ENOENT).
Proof.
  eexists _, _, _, _. split; [vm_compute; reflexivity|]. do 4 (split; [vm_compute; reflexivity|]). vm_compute. reflexivity.
Qed.
