(* ===== verification/MempoolMbuf.v ===== *)
(** * Memory pools: the pool of the mbufs

    The mempool, used by one core, is a pool in the sense of the file Mbuf. *)
From S2P Require Import Prelude Ring RingProofs Mempool MempoolProofs MempoolTheorems Mbuf.

(** The out parameter of [rte_mempool_get] is the object. *)
#[export] Instance mempool_pool (lcore : Z) : MbufPool rte_mempool := {
  mp_get mp :=
    match Mempool.rte_mempool_get 1 lcore mp ∅ with
    | Some (mp', t, ret) => if ret =? 0 then Some (t !!! 0, mp') else None
    | None => None
    end;
  mp_put mp x := default mp (Mempool.rte_mempool_put 1 lcore mp x) }.

Lemma slice_one t : slice t 0 1 = [t !!! 0].
Proof. done. Qed.

(** The core number is unsigned. *)
#[export] Instance mempool_pool_laws (lcore : Z) (Hl : 0 <= lcore) : @MbufPoolLaws rte_mempool (mempool_pool lcore).
Proof.
  refine (@Build_MbufPoolLaws rte_mempool (mempool_pool lcore) (fun mp U O =>
    exists free, contents mp free /\ NoDup free /\ O = list_to_set free /\ O ⊆ U /\
      Z.of_nat (size U) <= p_size (prod (mp_ring mp)) - 1) _ _).
  - intros mp U O x mp' (free & Hc & Hnd & -> & HU & Hs). cbn. unfold Mempool.rte_mempool_get, rte_mempool_get_bulk.
    set (is_mc := _ =? 0). destruct (get_contents lcore mp free ∅ 1 is_mc Hc Hl ltac:(lia)) as (mp1 & t & ret & -> & Hsp & Hr).
    destruct Hr as [(-> & free' & Hc' & Hp)|[-> _]]; [|done]. cbn [Z.eqb]. intros [= <- <-].
    rewrite slice_one in Hp. cbn in Hp. assert (Hnd' : NoDup (t !!! 0 :: free')) by (by rewrite Hp).
    apply NoDup_cons in Hnd' as [Hx Hnd']. destruct Hsp as (_ & _ & _ & _ & Hps).
    assert (HO : (list_to_set free : gset Z) = {[t !!! 0]} ∪ list_to_set free') by (rewrite <- Hp; done).
    rewrite HO in HU |- *. split; [set_solver|]. exists free'. split_and!; try done; [|set_solver|by rewrite Hps].
    apply set_eq. intros y. rewrite elem_of_difference, elem_of_union, elem_of_singleton, elem_of_list_to_set.
    split; [tauto|]. intros Hy. split; [by right|]. by intros ->.
  - intros mp U O x (free & Hc & Hnd & -> & HU & Hs) HxU Hx. cbn. unfold Mempool.rte_mempool_put, rte_mempool_put_bulk.
    set (is_mp := _ =? 0). rewrite elem_of_list_to_set in Hx.
    assert (Hsz : (size (list_to_set (x :: free) : gset Z) <= size U)%nat) by (apply subseteq_size; cbn; set_solver).
    rewrite size_list_to_set in Hsz by (by constructor). cbn in Hsz.
    destruct (put_contents lcore mp free [x] is_mp Hc Hl) as (mp1 & E & Hsp & Hc1); [cbn; lia|]. change (Z.of_nat (length [x])) with 1 in E. rewrite E. cbn in Hc1 |- *.
    destruct Hsp as (_ & _ & _ & _ & Hps). exists (x :: free). split_and!; try done; [by constructor|set_solver|by rewrite Hps].
Defined.
