(* ===== verification/MbufTheorems.v ===== *)
(** * Packet buffers: theorems

    Programs over mbufs as sequences of steps, with the references the program
    holds; the byte strings of packets; clones. *)
From stdpp Require Import gmultiset.
From S2P Require Import Prelude Ring Mempool MempoolProofs MempoolTheorems Mbuf MbufPacket MbufRef MbufClone MempoolMbuf.

(** ** Programs *)

Section Steps.
Context {P : Type} `{MP : !MbufPool P} `{ML : !MbufPoolLaws P}.
Implicit Types (s : mstate P) (m x y : Z) (l : list Z) (H : gmultiset Z).

(** One call, made with the references [H], which the program holds. *)
Inductive mb_step : mstate P * gmultiset Z -> mstate P * gmultiset Z -> Prop :=
| St_alloc s H mp x s' : rte_pktmbuf_alloc mp s = Some (x, s') -> mb_step (s, H) (s', {[+ x +]} ⊎ H)
| St_refcnt s H m v s' :
    m ∈ H -> refcnt (mbuf s m) < 2 ^ 16 - 1 -> rte_mbuf_refcnt_update m 1 s = (v, s') -> mb_step (s, H) (s', {[+ m +]} ⊎ H)
| St_attach s H mi m :
    mi ∈ H -> m ∈ H -> m <> mi -> RTE_MBUF_INDIRECT (mbuf s mi) = false -> refcnt (mbuf s mi) = 1 ->
    refcnt (mbuf s (home s m)) < 2 ^ 16 - 1 -> mb_step (s, H) (rte_pktmbuf_attach mi m s, H)
| St_free_seg s H m : mb_step (s, {[+ m +]} ⊎ H) (rte_pktmbuf_free_seg m s, H)
| St_free s H m l s' :
    packet s m l -> rte_pktmbuf_free m s = Some s' -> mb_step (s, list_to_set_disj l ⊎ H) (s', H)
| St_edit s H D s' : edits D s s' -> mb_step (s, H) (s', H).

(** The mbufs of new pools, each set up by [rte_pktmbuf_init]. *)
Definition pools_start (ps : gmap Z (mbuf_pool P)) (bytes : gmap (Z * Z) Z) (objects : list (Z * Z)) : mstate P :=
  fold_right (fun '(mp, x) s => rte_pktmbuf_init mp x s) (mkMstate ∅ bytes ps) objects.

(** The objects of a pool. *)
Definition objects_of (mp : Z) (objects : list (Z * Z)) : gset Z :=
  list_to_set (filter (fun o => o.1 = mp) objects).*2.

(** Every object is in its pool, and the buffers are apart. *)
Definition objects_ok (ps : gmap Z (mbuf_pool P)) (objects : list (Z * Z)) : Prop :=
  NoDup objects.*2 /\ (forall mp x, (mp, x) ∈ objects -> is_Some (ps !! mp)) /\
  (forall mp q, ps !! mp = Some q -> mp_repr (objs q) (objects_of mp objects) (objects_of mp objects)) /\
  (forall mp mp' x x', (mp, x) ∈ objects -> (mp', x') ∈ objects ->
    x + from_option mbuf_priv_size 0 (ps !! mp) = x' + from_option mbuf_priv_size 0 (ps !! mp') -> x = x').

Lemma elem_of_objects_of mp objects x : x ∈ objects_of mp objects <-> (mp, x) ∈ objects.
Proof.
  unfold objects_of. rewrite elem_of_list_to_set, list_elem_of_fmap. split.
  - intros ([mp' x'] & -> & Hx). apply (list_elem_of_filter (fun o : Z * Z => o.1 = mp)) in Hx as [<- Hx]. done.
  - intros Hx. exists (mp, x). split; [done|]. by apply (list_elem_of_filter (fun o : Z * Z => o.1 = mp)).
Qed.

Lemma pools_start_mbufs ps b objects :
  pools (pools_start ps b objects) = ps /\ mem (pools_start ps b objects) = b /\
  (forall x, is_Some (mbufs (pools_start ps b objects) !! x) <-> x ∈ objects.*2) /\
  (NoDup objects.*2 -> forall mp x, (mp, x) ∈ objects -> exists s0, pools s0 = ps /\
    mbuf (pools_start ps b objects) x = mbuf (rte_pktmbuf_init mp x s0) x).
Proof.
  induction objects as [|[mp x] objects (IH1 & IH2 & IH3 & IH4)].
  - split_and!; try done; [|by intros _ mp x Hx%elem_of_nil]. intros x. cbn. rewrite lookup_empty. split; [by intros []|by intros ?%elem_of_nil].
  - cbn [pools_start fold_right]. fold (pools_start ps b objects). split_and!; [done|done| |].
    + intros y. unfold rte_pktmbuf_init. cbn. rewrite lookup_insert. rewrite elem_of_cons. case_decide; [subst; split; [by left|by eexists]|].
      rewrite IH3. split; [by right|]. intros [->|?]; done.
    + cbn. intros [Hx Hnd]%NoDup_cons mp' x' [[= -> ->]|Hx']%elem_of_cons; [by eexists|].
      destruct (IH4 Hnd mp' x' Hx') as (s0 & E0 & E). exists s0. split; [done|]. rewrite <- E. unfold rte_pktmbuf_init at 1.
      rewrite mbuf_set, decide_False; [done|]. intros ->. apply Hx. apply list_elem_of_fmap. by exists (mp', x).
Qed.

(** What [rte_pktmbuf_init] makes of an object. *)
Lemma pools_start_obj ps b objects mp x (s := pools_start ps b objects) :
  NoDup objects.*2 -> (mp, x) ∈ objects ->
  pool (mbuf s x) = mp /\ refcnt (mbuf s x) = 0 /\ indirect s x = false /\ home s x = x /\ buf_addr (mbuf s x) = own s x /\
  buf_len (mbuf s x) = u16 (rte_pktmbuf_data_room_size s mp).
Proof.
  intros Hnd Hx. destruct (pools_start_mbufs ps b objects) as (Ep & _ & _ & Hb). fold s in Ep, Hb.
  destruct (Hb Hnd mp x Hx) as (s0 & E0 & E). unfold home, indirect, own.
  assert (Es : forall mp', the_pool s0 mp' = the_pool s mp') by (intros; unfold the_pool; by rewrite E0, Ep).
  unfold rte_pktmbuf_init in E. rewrite mbuf_set, decide_True in E by done. rewrite E.
  unfold rte_mbuf_from_indirect, rte_pktmbuf_priv_size, rte_pktmbuf_data_room_size. cbn. rewrite !Es.
  split_and!; try done. lia.
Qed.

Lemma pools_start_ok ps b objects : objects_ok ps objects -> minv (pools_start ps b objects) ∅ ∅.
Proof.
  intros (Hnd & Hps & Hrepr & Hinj). destruct (pools_start_mbufs ps b objects) as (Ep & _ & Hl & _).
  set (s := pools_start ps b objects) in *.
  assert (Hobj : forall x, is_Some (mbufs s !! x) -> exists mp, (mp, x) ∈ objects).
  { intros x Hx%Hl. apply list_elem_of_fmap in Hx as [[mp x'] [-> Hx]]. by exists mp. }
  assert (Hf : forall mp x, (mp, x) ∈ objects -> _) by (intros mp x; exact (pools_start_obj ps b objects mp x Hnd)).
  fold s in Hf. assert (Hatt : forall x, attached s x = 0%nat).
  { intros x. apply size_empty_iff. intros y. rewrite elem_of_filter, elem_of_dom. split; [|by intros ?%not_elem_of_empty].
    intros [Hbo Hy]. destruct (Hobj y Hy) as [mp Hmp], (Hf mp y Hmp) as (_ & _ & Hi & _). by rewrite Hi in Hbo. }
  constructor.
  - by intros x ?%gmultiset_elem_of_empty.
  - by intros x ?%not_elem_of_empty.
  - intros x Hx. destruct (Hobj x Hx) as [mp Hmp], (Hf mp x Hmp) as (_ & -> & _). by rewrite multiplicity_empty, Hatt.
  - intros x Hx. by destruct (Hobj x Hx) as [mp Hmp], (Hf mp x Hmp) as (_ & -> & _).
  - intros x Hx. destruct (Hobj x Hx) as [mp Hmp], (Hf mp x Hmp) as (Hp & _ & Hi & Hh & Ha & Hbl).
    constructor; rewrite ?Hh; try done. by rewrite Hp.
  - intros x y Hx Hy Ho. destruct (Hobj x Hx) as [mp Hmp], (Hobj y Hy) as [mp' Hmp'].
    apply (Hinj mp mp' x y Hmp Hmp'). unfold own, rte_pktmbuf_priv_size, the_pool in Ho.
    rewrite (proj1 (Hf mp x Hmp)), (proj1 (Hf mp' y Hmp')), Ep in Ho. lia.
  - intros x Hx. destruct (Hobj x Hx) as [mp Hmp]. rewrite (proj1 (Hf mp x Hmp)), Ep. eauto.
  - intros mp q. rewrite Ep. intros Eq. assert (EU : universe s mp = objects_of mp objects).
    { apply set_eq. intros x. rewrite elem_of_universe, elem_of_objects_of. split.
      - intros [Hx Hp]. destruct (Hobj x Hx) as [mp' Hmp']. by rewrite <- Hp, (proj1 (Hf mp' x Hmp')).
      - intros Hx. split; [|by apply Hf]. apply Hl, list_elem_of_fmap. by exists (mp, x). }
    assert (idle s ∅ mp = universe s mp) as ->; [|rewrite EU; auto]. apply set_eq. intros x.
    rewrite elem_of_idle, elem_of_universe. split; [tauto|]. intros [Hx Hp]. split_and!; try done.
    by destruct (Hobj x Hx) as [mp' Hmp'], (Hf mp' x Hmp') as (_ & -> & _).
  - intros x Hx _ _. by destruct (Hobj x Hx) as [mp Hmp], (Hf mp x Hmp) as (_ & _ & Hi & _).
Qed.

Lemma held_pos s H x : minv s H ∅ -> x ∈ H -> is_Some (mbufs s !! x) /\ 0 < refcnt (mbuf s x).
Proof.
  intros HI Hx. assert (Hl := mi_held _ _ _ HI x Hx). split; [done|]. rewrite (mi_count _ _ _ HI x Hl).
  pose proof (proj1 (elem_of_multiplicity _ _) Hx). lia.
Qed.

Lemma mb_step_minv a b : mb_step a b -> minv a.1 a.2 ∅ -> minv b.1 b.2 ∅.
Proof.
  destruct 1 as [s H mp x s' E|s H m v s' Hm Hr E|s H mi m Hmi Hm Hne Hd Hr Hmax|s H m|s H m l s' Hp E|s H D s' He];
    cbn [fst snd]; intros HI.
  - by eapply alloc_ok.
  - destruct (held_pos _ _ _ HI Hm) as [Hl Hpos]. destruct (minv_take s H ∅ m HI Hl) as (s1 & E1 & _ & HI1); [lia|].
    rewrite E in E1. by injection E1 as _ ->.
  - destruct (held_pos _ _ _ HI Hmi) as [Hli Hpi], (held_pos _ _ _ HI Hm) as [Hl Hpos].
    apply attach_ok; try done; [lia|]. pose proof (mi_count _ _ _ HI mi Hli). pose proof (proj1 (elem_of_multiplicity _ _) Hmi). lia.
  - by apply free_seg_ok.
  - destruct (free_ok _ _ _ _ _ Hp HI) as (s1 & E1 & HI1 & _). rewrite E in E1. by injection E1 as ->.
  - eapply minv_same; [by eapply edits_same_refs|done].
Qed.

(** The mbufs of a pool stay its mbufs. *)
Lemma mb_step_static a b :
  mb_step a b -> minv a.1 a.2 ∅ ->
  forall x, (is_Some (mbufs b.1 !! x) <-> is_Some (mbufs a.1 !! x)) /\ pool (mbuf b.1 x) = pool (mbuf a.1 x).
Proof.
  destruct 1 as [s H mp x s' E|s H m v s' Hm Hr E|s H mi m Hmi Hm Hne Hd Hr Hmax|s H m|s H m l s' Hp E|s H D s' He];
    cbn [fst snd]; intros HI z.
  - destruct (alloc_ok _ _ _ _ _ _ HI E) as (_ & Hf & _). split; [apply Hf|apply (fr_pool _ _ _ Hf)].
  - destruct (held_pos _ _ _ HI Hm) as [Hl Hpos]. destruct (minv_take s H ∅ m HI Hl) as (s1 & E1 & Es & _); [lia|].
    rewrite E in E1. injection E1 as _ ->. rewrite Es. split; [by apply live_set|]. rewrite mbuf_set. case_decide; by subst.
  - destruct (held_pos _ _ _ HI Hmi) as [Hli Hpi], (held_pos _ _ _ HI Hm) as [Hl Hpos].
    destruct (attach_ok s H ∅ mi m) as (_ & Hf & _); try done; [lia| |split; [apply Hf|apply (fr_pool _ _ _ Hf)]].
    pose proof (mi_count _ _ _ HI mi Hli). pose proof (proj1 (elem_of_multiplicity _ _) Hmi). lia.
  - destruct (free_seg_ok _ _ _ _ HI) as [_ Ho]. split; apply Ho.
  - destruct (free_ok _ _ _ _ _ Hp HI) as (s1 & E1 & _ & _ & Hlv & _ & Hpo). rewrite E in E1. injection E1 as ->. done.
  - split; [apply He|]. by destruct (ed_meta _ _ _ He z) as (_&_&_&_&_&_&->&_).
Qed.

Lemma reachable_minv s H ps b objects :
  objects_ok ps objects -> rtc mb_step (pools_start ps b objects, ∅) (s, H) ->
  minv s H ∅ /\ forall mp, universe s mp = objects_of mp objects.
Proof.
  intros Hok Hr. set (s0 := pools_start ps b objects) in *.
  assert (Hs : minv s H ∅ /\ forall x, (is_Some (mbufs s !! x) <-> is_Some (mbufs s0 !! x)) /\ pool (mbuf s x) = pool (mbuf s0 x)).
  { apply (rtc_ind_r (fun p => minv p.1 p.2 ∅ /\ forall x, (is_Some (mbufs p.1 !! x) <-> is_Some (mbufs s0 !! x)) /\
      pool (mbuf p.1 x) = pool (mbuf s0 x)) (s0, ∅)) in Hr; [done|split; [by apply pools_start_ok|done]|].
    intros a c _ Hs [HI Hst]. split; [by eapply mb_step_minv|]. intros x.
    destruct (mb_step_static a c Hs HI x) as [E1 E2]. by rewrite E1, E2. }
  destruct Hs as [HI Hst]. split; [done|]. intros mp. apply set_eq. intros x. rewrite elem_of_universe, elem_of_objects_of.
  destruct (Hst x) as [E1 E2]. rewrite E1, E2. destruct (pools_start_mbufs ps b objects) as (_ & _ & Hl & _). fold s0 in Hl.
  destruct Hok as (Hnd & _). rewrite Hl, list_elem_of_fmap. split.
  - intros [([mp' x'] & -> & Hx) Hp]. cbn [snd] in *. unfold s0 in Hp. by rewrite (proj1 (pools_start_obj ps b objects mp' x' Hnd Hx)) in Hp; subst.
  - intros Hx. split; [by exists (mp, x)|]. apply (pools_start_obj ps b objects mp x Hnd Hx).
Qed.

(** C20: programs that allocate, share, attach, edit and release mbufs keep the
    reference counters exact: each counts the holders and the attached
    indirect mbufs.  An allocation never returns an mbuf that is held, or
    whose buffer a held mbuf shows, and leaves the held ones alone; and when
    every reference is given back, every pool holds all of its mbufs. *)
Theorem mbufs_accounted (ps : gmap Z (mbuf_pool P)) (b : gmap (Z * Z) Z) (objects : list (Z * Z)) s H :
  objects_ok ps objects -> rtc mb_step (pools_start ps b objects, ∅) (s, H) ->
  (forall x, is_Some (mbufs s !! x) -> refcnt (mbuf s x) = Z.of_nat (multiplicity x H + attached s x)) /\
  (forall mp x s', rte_pktmbuf_alloc mp s = Some (x, s') -> (x ∉ H) /\ mem s' = mem s /\
    forall y, y ∈ H -> mbuf s' y = mbuf s y /\ home s y <> x) /\
  (H = ∅ -> forall mp q, pools s !! mp = Some q -> mp_repr (objs q) (objects_of mp objects) (objects_of mp objects)).
Proof.
  intros Hok Hr. destruct (reachable_minv s H ps b objects Hok Hr) as [HI Hu]. split_and!.
  - apply HI.
  - intros mp x s' E. destruct (alloc_ok _ _ _ _ _ _ HI E) as (_ & Hf & _ & Hn & Hrf & _). split_and!; [done|apply Hf|].
    intros y Hy. destruct (held_pos _ _ _ HI Hy) as [Hl Hpos]. pose proof (home_refcnt_pos _ _ _ _ HI Hl Hpos) as Hh. split.
    + apply (fr_out _ _ _ Hf), not_elem_of_singleton. intros ->. lia.
    + intros E'. rewrite E' in Hh. lia.
  - intros -> mp q Eq. rewrite <- Hu. rewrite <- (minv_empty s mp HI) at 2. by apply (mi_repr _ _ _ HI).
Qed.

(** ** Packets *)

(** C21: on a packet the five operations on its data are operations on its
    byte string, or leave the state as it is and say so: [prepend] and
    [append] add the bytes at the returned place, when there is room in the
    first or the last segment; [adj] and [trim] take bytes away at the front
    and at the back, as far as these are in that segment; [chain] puts a
    second packet behind, up to 255 segments. *)
Theorem packet_ops_correct s m l x (k : Z) :
  packet s m (l ++ [x]) -> 0 <= k -> total_len s (l ++ [x]) + k < 2 ^ 32 ->
  let segs := l ++ [x] in
  (if k <=? data_off (mbuf s m) then
     exists a s', rte_pktmbuf_prepend m k s = (Some a, s') /\ packet s' m segs /\
       bytes s' segs = read_bytes s a.1 a.2 (Z.to_nat k) ++ bytes s segs
   else rte_pktmbuf_prepend m k s = (None, s)) /\
  (if k <=? buf_len (mbuf s x) - data_off (mbuf s x) - data_len (mbuf s x) then
     exists a s', rte_pktmbuf_append m k s = Some (Some a, s') /\ packet s' m segs /\
       bytes s' segs = bytes s segs ++ read_bytes s a.1 a.2 (Z.to_nat k)
   else rte_pktmbuf_append m k s = Some (None, s)) /\
  (if k <=? data_len (mbuf s m) then
     exists a s', rte_pktmbuf_adj m k s = (Some a, s') /\ packet s' m segs /\ bytes s' segs = drop (Z.to_nat k) (bytes s segs)
   else rte_pktmbuf_adj m k s = (None, s)) /\
  (if k <=? data_len (mbuf s x) then
     exists s', rte_pktmbuf_trim m k s = Some (0, s') /\ packet s' m segs /\
       bytes s' segs = take (length (bytes s segs) - Z.to_nat k) (bytes s segs)
   else rte_pktmbuf_trim m k s = Some (-1, s)) /\
  (forall t l2, packet s t l2 -> (forall y, y ∈ segs -> y ∉ l2) -> total_len s segs + total_len s l2 < 2 ^ 32 ->
   if Z.of_nat (length segs + length l2) <? 256 then
     exists s', rte_pktmbuf_chain m t s = Some (0, s') /\ packet s' m (segs ++ l2) /\ bytes s' (segs ++ l2) = bytes s segs ++ bytes s l2
   else rte_pktmbuf_chain m t s = Some (- EOVERFLOW, s)).
Proof.
  intros Hp Hk Hmax segs. split_and!.
  - pose proof (prepend_spec s m _ k Hp Hk Hmax) as Hs. destruct (k <=? _); [|done]. destruct Hs as (a & s' & ? & ? & ? & ?). by exists a, s'.
  - pose proof (append_spec s m l x k Hp Hk Hmax) as Hs. cbv zeta in Hs. destruct (k <=? _); [|done]. destruct Hs as (s' & ? & ? & ? & ?). by eexists _, s'.
  - destruct (Z.leb_spec k (data_len (mbuf s m))).
    + destruct (adj_spec s m _ k Hp ltac:(lia)) as (a & s' & ? & ? & _ & ? & _). by exists a, s'.
    + unfold rte_pktmbuf_adj. by rewrite Z.gtb_ltb, (proj2 (Z.ltb_lt _ _)).
  - pose proof (trim_spec s m l x k Hp Hk) as Hs. destruct (k <=? _); [|done]. destruct Hs as (s' & ? & ? & _ & Hb). exists s'.
    split_and!; try done. unfold segs. rewrite Hb. f_equal. pose proof (length_bytes s (l ++ [x]) (pk_segs _ _ _ Hp)). lia.
  - intros t l2 Hp2 Hd Ht. pose proof (chain_spec s m t l x l2 Hp Hp2 Hd Ht) as Hs. fold segs in Hs. destruct (_ <? 256); [|done].
    destruct Hs as (s' & ? & ? & _ & ? & _). by exists s'.
Qed.

(** C22: the clone of a packet held by the program is another packet with the
    same bytes, made of mbufs that nobody held before, with a new reference
    to each.  The call returns NULL if and only if the pool does not give as
    many mbufs as the packet has segments, and then it has given back all it
    took.  Either way the mbufs held before keep their contents. *)
Theorem clone_correct s (H : gmultiset Z) (md mp : Z) l :
  packet s md l -> minv s H ∅ -> (forall y, y ∈ l -> y ∈ H) ->
  (forall y, y ∈ l -> refcnt (mbuf s (home s y)) + Z.of_nat (length l) < 2 ^ 16) ->
  exists res s', rte_pktmbuf_clone md mp s = Some (res, s') /\
    (forall h lh, (forall y, y ∈ lh -> y ∈ H) -> packet s h lh -> packet s' h lh /\ bytes s' lh = bytes s lh) /\
    match res with
    | Some mc => exists l', packet s' mc l' /\ bytes s' l' = bytes s l /\ length l' = length l /\
        minv s' (list_to_set_disj l' ⊎ H) ∅ /\ (forall x, x ∈ l' -> x ∉ H) /\ supply s mp (length l) <> None
    | None => minv s' H ∅ /\ supply s mp (length l) = None
    end.
Proof.
  intros Hp HI HlH Hmax. destruct (clone_ok s H ∅ md l mp Hp HI HlH Hmax) as (res & s' & E & Hsd & Hl & Hm & Hres).
  exists res, s'. split; [done|]. split; [|done]. intros h lh Hlh Hph. apply packet_same; auto.
Qed.

End Steps.

(** ** Mbufs from a mempool *)

#[local] Instance core0 : MbufPool rte_mempool := mempool_pool 0.
#[local] Instance core0_laws : MbufPoolLaws rte_mempool := mempool_pool_laws 0 ltac:(lia).

(** A new mempool with its objects, as a pool of mbufs. *)
Lemma created_objects_ok cells n cs flags (addrs : list Z) mp room psz :
  0 <= cs -> 0 <= n < 2 ^ 31 -> Z.of_nat (length addrs) <= n -> NoDup addrs ->
  rte_mempool_create_ring cells n cs flags addrs = Some mp ->
  objects_ok {[1 := mkPool mp room psz]} (map (fun x => (1, x)) addrs).
Proof.
  intros Hcs Hn Hlen Hnd E. assert (Hfst : (map (fun x : Z => (1, x)) addrs).*2 = addrs).
  { rewrite <- list_fmap_compose. apply list_fmap_id. }
  assert (Hin : forall mp' x, (mp', x) ∈ map (fun x : Z => (1, x)) addrs -> mp' = 1 /\ x ∈ addrs).
  { intros mp' x Hx. apply list_elem_of_fmap in Hx as (y & [= -> ->] & Hy). done. }
  split; [by rewrite Hfst|]. split; [|split].
  - intros mp' x Hx. destruct (Hin _ _ Hx) as [-> _]. rewrite lookup_singleton_eq. by eexists.
  - intros mp' q Hq. apply lookup_singleton_Some in Hq as [<- <-]. cbn [objs].
    assert (Ho : objects_of 1 (map (fun x : Z => (1, x)) addrs) = list_to_set addrs).
    { apply set_eq. intros x. rewrite elem_of_objects_of, elem_of_list_to_set. split; [by intros [_ Hx]%Hin|].
      intros Hx. apply list_elem_of_fmap. by exists x. }
    rewrite Ho. destruct (create_pool_inv cells n cs flags addrs mp Hcs Hn Hlen E) as (free & Hc & Hp & Hs & _). cbn in Hp, Hs.
    exists free. split; [done|]. split; [by rewrite Hp|]. split; [by rewrite Hp|]. split; [done|].
    rewrite size_list_to_set by done. exact Hs.
  - intros mp' mp'' x x' Hx Hx'. destruct (Hin _ _ Hx) as [-> _], (Hin _ _ Hx') as [-> _]. lia.
Qed.

Definition demo_addrs : list Z := [1000; 4000; 7000].
Definition demo_mp : rte_mempool := default demo_pool (rte_mempool_create_ring ∅ 3 2 0 demo_addrs).
Definition demo_ps : gmap Z (mbuf_pool rte_mempool) := {[1 := mkPool demo_mp 256 0]}.
Definition demo_objects : list (Z * Z) := map (fun x => (1, x)) demo_addrs.
Definition demo_start : mstate rte_mempool := pools_start demo_ps ∅ demo_objects.

Lemma demo_objects_ok : objects_ok demo_ps demo_objects.
Proof.
  apply (created_objects_ok ∅ 3 2 0 demo_addrs demo_mp 256 0); [lia|lia|vm_compute; discriminate| |reflexivity].
  apply (bool_decide_unpack _). vm_compute. exact I.
Qed.

(** The first mbuf that the pool gives, and the state after it. *)
Definition demo_alloc (s : mstate rte_mempool) : Z * mstate rte_mempool := default (0, s) (rte_pktmbuf_alloc 1 s).
Definition demo_s1 : mstate rte_mempool := (demo_alloc demo_start).2.
Definition demo_s2 : mstate rte_mempool := rte_pktmbuf_free_seg 7000 demo_s1.

Lemma demo_alloc_eq : rte_pktmbuf_alloc 1 demo_start = Some (7000, demo_s1).
Proof. vm_compute. reflexivity. Qed.

Lemma demo_s1_steps : rtc mb_step (demo_start, ∅) (demo_s1, {[+ 7000 +]}).
Proof.
  rewrite <- (right_id_L ∅ (⊎) {[+ 7000 +]}). apply rtc_once. exact (St_alloc demo_start ∅ 1 7000 demo_s1 demo_alloc_eq).
Qed.

Lemma demo_s2_steps : rtc mb_step (demo_start, ∅) (demo_s2, ∅).
Proof.
  eapply rtc_r; [exact demo_s1_steps|]. rewrite <- (right_id_L ∅ (⊎) {[+ 7000 +]}). exact (St_free_seg demo_s1 ∅ 7000).
Qed.

Lemma mbufs_accounted_witness :
  rte_pktmbuf_alloc 1 demo_s2 <> None /\
  forall mp q, pools demo_s2 !! mp = Some q -> mp_repr (objs q) (objects_of mp demo_objects) (objects_of mp demo_objects).
Proof.
  split; [vm_compute; discriminate|].
  exact (proj2 (proj2 (mbufs_accounted demo_ps ∅ demo_objects demo_s2 ∅ demo_objects_ok demo_s2_steps)) eq_refl).
Defined.

(** A packet of one segment with three bytes. *)
Definition demo_s3 : mstate rte_mempool :=
  let r := mbuf demo_s1 7000 in
  mkMstate (<[7000 := set_data (data_off r) 3 3 r]> (mbufs demo_s1)) {[(7128, 128) := 1; (7128, 129) := 2; (7128, 130) := 3]} (pools demo_s1).

Lemma demo_packet : packet demo_s3 7000 [7000].
Proof.
  constructor; try (vm_compute; reflexivity).
  - split; vm_compute; reflexivity.
  - apply NoDup_singleton.
  - intros x ->%list_elem_of_singleton. constructor; vm_compute; try discriminate; try reflexivity. by eexists.
Qed.

Lemma packet_ops_correct_witness :
  exists a s', rte_pktmbuf_adj 7000 1 demo_s3 = (Some a, s') /\ packet s' 7000 [7000] /\ bytes s' [7000] = [2; 3].
Proof.
  destruct (packet_ops_correct demo_s3 7000 [] 7000 1) as (_ & _ & Hadj & _); [exact demo_packet|lia|vm_compute; reflexivity|].
  exact Hadj.
Defined.

Lemma same_refs_data {P : Type} (s : mstate P) (m off dlen plen : Z) b :
  is_Some (mbufs s !! m) -> same_refs s (mkMstate (<[m := set_data off dlen plen (mbuf s m)]> (mbufs s)) b (pools s)).
Proof.
  intros Hm. constructor; [|done|].
  - intros x. cbn. rewrite lookup_insert. case_decide; [subst; split; [done|by eexists]|done].
  - intros x. unfold indirect, mbuf. cbn. rewrite lookup_total_insert. case_decide; by subst.
Qed.

Lemma demo_s3_minv : minv demo_s3 {[+ 7000 +]} ∅.
Proof.
  apply (minv_same demo_s1); [|exact (proj1 (reachable_minv _ _ _ _ _ demo_objects_ok demo_s1_steps))].
  apply same_refs_data. vm_compute. by eexists.
Qed.

Lemma clone_correct_witness :
  exists s' l', rte_pktmbuf_clone 7000 1 demo_s3 = Some (Some 4000, s') /\ packet s' 4000 l' /\ bytes s' l' = [1; 2; 3].
Proof.
  destruct (clone_correct demo_s3 {[+ 7000 +]} 7000 1 [7000] demo_packet demo_s3_minv) as (res & s' & E & _ & Hres).
  - intros y ->%list_elem_of_singleton. by apply gmultiset_elem_of_singleton.
  - intros y ->%list_elem_of_singleton. vm_compute. reflexivity.
  - assert (Ec : fst <$> rte_pktmbuf_clone 7000 1 demo_s3 = Some (Some 4000)) by (vm_compute; reflexivity).
    rewrite E in Ec. injection Ec as ->. destruct Hres as (l' & Hp & Hb & _). exists s', l'.
    split; [exact E|]. split; [exact Hp|]. rewrite Hb. vm_compute. reflexivity.
Defined.
