(* ===== verification/IpFrag.v ===== *)
(** * IP reassembly: data and operations

    Model of [librte_ip_frag]: the table of datagrams under reassembly
    ([ip_frag_internal.c], [ip_frag_common.h], [rte_ip_frag_common.c]) and the
    reassembly of IPv4 and IPv6 datagrams ([rte_ipv4_reassembly.c],
    [rte_ipv6_reassembly.c]), on a little-endian machine and with the limit of
    four fragments of the default configuration.  Statistics and debug output
    are compiled out.

    An entry is named by its index in the array [pkt]; the LRU queue is the
    list of its entries, first to last.  The hash of the key words is a
    parameter, since it depends on the instruction set; [rte_jhash_3words] is
    the portable one.  [None] stands for a NULL pointer that is followed or a
    chain that never ends. *)
From S2P Require Import Prelude Bits Mbuf.

(** ** Memory *)

Section Bytes.
Context {P : Type}.
Implicit Types (s : mstate P) (a : Z * Z).

Definition rd8 s a (i : Z) : Z := mem s !!! (a.1, a.2 + i).
Definition wr8 a (i v : Z) s : mstate P := mkMstate (mbufs s) (<[(a.1, a.2 + i) := u8 v]> (mem s)) (pools s).

(** Fields in network byte order, through [rte_be_to_cpu_16] and back. *)
Definition rd16be s a (i : Z) : Z := 256 * rd8 s a i + rd8 s a (i + 1).
Definition wr16be a (i v : Z) s : mstate P := wr8 a (i + 1) v (wr8 a i (Z.shiftr v 8) s).

(** [n] bytes as a number, the first one lowest. *)
Fixpoint rdle s a (i : Z) (n : nat) : Z :=
  match n with O => 0 | S n' => rd8 s a i + 256 * rdle s a (i + 1) n' end.

Definition advance a (k : Z) : Z * Z := (a.1, a.2 + k).

End Bytes.

(** ** Data *)

Definition IP_LAST_FRAG_IDX : nat := 0.
Definition IP_FIRST_FRAG_IDX : nat := 1.
Definition IP_MIN_FRAG_NUM : Z := 2.
Definition IP_MAX_FRAG_NUM : Z := 4.
Definition IP_FRAG_DEATH_ROW_LEN : Z := 32.
Definition IPV4_KEYLEN : Z := 1.
Definition IPV6_KEYLEN : Z := 4.
Definition IP_FRAG_HASH_FNUM : Z := 2.
Definition UINT32_MAX : Z := 2 ^ 32 - 1.
Definition PRIME_VALUE : Z := 0xeaad8405.

Record ip_frag := mkFrag { ofs : Z; len : Z; mb : option Z }.
Definition zero_frag : ip_frag := mkFrag 0 0 None.
#[export] Instance ip_frag_inhabited : Inhabited ip_frag := populate zero_frag.

(** Four words, of which the first [key_len] count. *)
Record ip_frag_key := mkKey { src_dst : list Z; key_id : Z; key_len : Z }.

Record ip_frag_pkt := mkPkt {
  key : ip_frag_key;
  start : Z;
  total_size : Z;
  frag_size : Z;
  last_idx : Z;
  frags : list ip_frag }.

Definition zero_pkt : ip_frag_pkt := mkPkt (mkKey (replicate 4 0) 0 0) 0 0 0 0 (replicate 4 zero_frag).
#[export] Instance ip_frag_pkt_inhabited : Inhabited ip_frag_pkt := populate zero_pkt.

Record rte_ip_frag_tbl := mkTbl {
  max_cycles : Z;
  entry_mask : Z;
  max_entries : Z;
  use_entries : Z;
  bucket_entries : Z;
  nb_entries : Z;
  nb_buckets : Z;
  last_used : option Z;
  lru : list Z;
  pkt : gmap Z ip_frag_pkt }.

(** The filled part of the death row: [cnt] is its length. *)
Definition death_row := list Z.

Definition set_use (n : Z) (q : list Z) (t : rte_ip_frag_tbl) : rte_ip_frag_tbl :=
  mkTbl (max_cycles t) (entry_mask t) (max_entries t) n (bucket_entries t) (nb_entries t) (nb_buckets t)
    (last_used t) q (pkt t).
Definition set_last (l : option Z) (t : rte_ip_frag_tbl) : rte_ip_frag_tbl :=
  mkTbl (max_cycles t) (entry_mask t) (max_entries t) (use_entries t) (bucket_entries t) (nb_entries t) (nb_buckets t)
    l (lru t) (pkt t).
Definition set_pkt (fp : Z) (e : ip_frag_pkt) (t : rte_ip_frag_tbl) : rte_ip_frag_tbl :=
  mkTbl (max_cycles t) (entry_mask t) (max_entries t) (use_entries t) (bucket_entries t) (nb_entries t) (nb_buckets t)
    (last_used t) (lru t) (<[fp := e]> (pkt t)).

(** [TAILQ_REMOVE] of an element of the queue, in which no element is twice. *)
Definition tailq_remove (fp : Z) (q : list Z) : list Z := filter (fun x => x <> fp) q.

(** ** Keys *)

Definition ip_frag_key_is_empty (k : ip_frag_key) : bool :=
  forallb (fun w => w =? 0) (take (Z.to_nat (Z.min (key_len k) 4)) (src_dst k)).

Definition ip_frag_key_invalidate (k : ip_frag_key) : ip_frag_key :=
  let n := Z.to_nat (key_len k) in mkKey (replicate n 0 ++ drop n (src_dst k)) (key_id k) (key_len k).

(** The differences are collected in a 32-bit variable. *)
Definition ip_frag_key_cmp (k1 k2 : ip_frag_key) : Z :=
  fold_left (fun val i => u32 (Z.lor val (Z.lxor (src_dst k1 !!! i) (src_dst k2 !!! i))))
    (seq 0 (Z.to_nat (key_len k1))) (u32 (Z.lxor (key_id k1) (key_id k2))).

(** ** Entries *)

Definition set_key (k : ip_frag_key) (e : ip_frag_pkt) : ip_frag_pkt :=
  mkPkt k (start e) (total_size e) (frag_size e) (last_idx e) (frags e).

Definition ip_frag_free (e : ip_frag_pkt) (dr : death_row) : ip_frag_pkt * death_row :=
  let '(f, dr) := fold_left (fun '(f, dr) i =>
    match mb (f !!! i) with
    | None => (f, dr)
    | Some m => (<[i := mkFrag (ofs (f !!! i)) (len (f !!! i)) None]> f, dr ++ [m])
    end) (seq 0 (Z.to_nat (last_idx e))) (frags e, dr) in
  (mkPkt (key e) (start e) (total_size e) (frag_size e) 0 f, dr).

Definition ip_frag_reset (e : ip_frag_pkt) (tms : Z) : ip_frag_pkt :=
  mkPkt (key e) tms UINT32_MAX 0 IP_MIN_FRAG_NUM
    (<[IP_FIRST_FRAG_IDX := zero_frag]> (<[IP_LAST_FRAG_IDX := zero_frag]> (frags e))).

(** ** The table *)

Definition entry (t : rte_ip_frag_tbl) (fp : Z) : ip_frag_pkt := pkt t !!! fp.

Definition ip_frag_inuse (t : rte_ip_frag_tbl) (fp : Z) : rte_ip_frag_tbl :=
  if ip_frag_key_is_empty (key (entry t fp))
  then set_use (u32 (use_entries t - 1)) (tailq_remove fp (lru t)) t else t.

Definition ip_frag_tbl_del (t : rte_ip_frag_tbl) (dr : death_row) (fp : Z) : rte_ip_frag_tbl * death_row :=
  let '(e, dr) := ip_frag_free (entry t fp) dr in
  let e := set_key (ip_frag_key_invalidate (key e)) e in
  (set_use (u32 (use_entries t - 1)) (tailq_remove fp (lru t)) (set_pkt fp e t), dr).

Definition ip_frag_tbl_add (t : rte_ip_frag_tbl) (fp : Z) (k : ip_frag_key) (tms : Z) : rte_ip_frag_tbl :=
  let e := ip_frag_reset (set_key k (entry t fp)) tms in
  set_use (u32 (use_entries t + 1)) (lru t ++ [fp]) (set_pkt fp e t).

Definition ip_frag_tbl_reuse (t : rte_ip_frag_tbl) (dr : death_row) (fp tms : Z) : rte_ip_frag_tbl * death_row :=
  let '(e, dr) := ip_frag_free (entry t fp) dr in
  let e := ip_frag_reset e tms in
  (set_use (use_entries t) (tailq_remove fp (lru t) ++ [fp]) (set_pkt fp e t), dr).

(** The hash of the words of the two keys. *)
Class FragHash := {
  hash4 : Z -> Z -> Z -> Z;
  hash6 : list Z -> Z -> Z }.

Section Table.
Context `{FragHash}.

(** The 32-bit halves of the words of a key, in memory order. *)
Definition halves (l : list Z) : list Z := l ≫= fun w => [u32 w; u32 (Z.shiftr w 32)].

Definition second_hash (v : Z) : Z := u32 (Z.shiftl v 7 + Z.shiftr v 14).
Definition ipv4_frag_hash (k : ip_frag_key) : Z * Z :=
  let p := halves (src_dst k) in
  let v := u32 (hash4 (p !!! 0%nat) (p !!! 1%nat) (key_id k)) in (v, second_hash v).
Definition ipv6_frag_hash (k : ip_frag_key) : Z * Z :=
  let v := u32 (hash6 (halves (src_dst k)) (key_id k)) in (v, second_hash v).

Definition IP_FRAG_TBL_POS (t : rte_ip_frag_tbl) (sig : Z) : Z := Z.land sig (entry_mask t).

Definition timed_out (t : rte_ip_frag_tbl) (fp tms : Z) : bool := u64 (max_cycles t + start (entry t fp)) <? tms.

(** One of the two tests in the body of the lookup loop: the entry itself, or
    the new values of [empty] and [old]. *)
Definition probe (t : rte_ip_frag_tbl) (k : ip_frag_key) (tms fp : Z) (empty old : option Z) : Z + option Z * option Z :=
  if ip_frag_key_cmp k (key (entry t fp)) =? 0 then inl fp
  else if ip_frag_key_is_empty (key (entry t fp))
  then inr (match empty with None => Some fp | Some _ => empty end, old)
  else if timed_out t fp tms
  then inr (empty, match old with None => Some fp | Some _ => old end)
  else inr (empty, old).

Fixpoint lookup_loop (t : rte_ip_frag_tbl) (k : ip_frag_key) (tms p1 p2 : Z) (n : nat) (i : Z) (empty old : option Z) :
    Z + option Z * option Z :=
  match n with
  | O => inr (empty, old)
  | S n' =>
      match probe t k tms (p1 + i) empty old with
      | inl fp => inl fp
      | inr (empty, old) =>
          match probe t k tms (p2 + i) empty old with
          | inl fp => inl fp
          | inr (empty, old) => lookup_loop t k tms p1 p2 n' (i + 1) empty old
          end
      end
  end.

(** The entry of the key, or a free and a stale entry. *)
Definition ip_frag_lookup (t : rte_ip_frag_tbl) (k : ip_frag_key) (tms : Z) : Z + option Z * option Z :=
  let search :=
    let '(sig1, sig2) := if key_len k =? IPV4_KEYLEN then ipv4_frag_hash k else ipv6_frag_hash k in
    lookup_loop t k tms (IP_FRAG_TBL_POS t sig1) (IP_FRAG_TBL_POS t sig2) (Z.to_nat (bucket_entries t)) 0 None None in
  match last_used t with
  | Some l => if ip_frag_key_cmp k (key (entry t l)) =? 0 then inl l else search
  | None => search
  end.

Definition ip_frag_find (t : rte_ip_frag_tbl) (dr : death_row) (k : ip_frag_key) (tms : Z) :
    option (option Z * rte_ip_frag_tbl * death_row) :=
  match ip_frag_lookup t k tms with
  | inr (free, stale) =>
      '(free, t, dr) ←
        match stale with
        | Some st => let '(t, dr) := ip_frag_tbl_del t dr st in Some (Some st, t, dr)
        | None =>
            match free with
            | Some f =>
                if max_entries t <=? use_entries t then
                  match lru t with
                  | [] => None
                  | l :: _ =>
                      if timed_out t l tms then let '(t, dr) := ip_frag_tbl_del t dr l in Some (free, t, dr)
                      else Some (None, t, dr)
                  end
                else Some (free, t, dr)
            | None => Some (None, t, dr)
            end
        end;
      match free with
      | Some f => Some (Some f, set_last (Some f) (ip_frag_tbl_add t f k tms), dr)
      | None => Some (None, set_last None t, dr)
      end
  | inl p =>
      let '(t, dr) := if timed_out t p tms then ip_frag_tbl_reuse t dr p tms else (t, dr) in
      Some (Some p, set_last (Some p) t, dr)
  end.

End Table.

(** ** Reassembly *)

Definition IPV4_HDR_DF_FLAG : Z := Z.shiftl 1 14.
Definition IPV4_HDR_MF_FLAG : Z := Z.shiftl 1 13.
Definition IPV4_HDR_OFFSET_MASK : Z := Z.shiftl 1 13 - 1.
Definition IPV4_HDR_OFFSET_UNITS : Z := 8.
Definition SIZEOF_IPV6_HDR : Z := 40.
Definition SIZEOF_FRAG_HDR : Z := 8.

Section Reassembly.
Context {P : Type} `{MP : !MbufPool P}.
Implicit Types (s : mstate P) (e : ip_frag_pkt).

Definition frag (e : ip_frag_pkt) (i : nat) : ip_frag := frags e !!! i.

(** Removing the headers of [m] and chaining it behind [prev]. *)
Definition chain_behind (prev m : option Z) s : option (mstate P) :=
  m ← m;
  let r := mbuf s m in
  let s := (rte_pktmbuf_adj m (u16 (l2_len r + l3_len r)) s).2 in
  prev ← prev;
  '(_, s) ← rte_pktmbuf_chain prev m s;
  Some s.

(** The [for] loop over the intermediate fragments [i = n, n - 1, ..., 2]. *)
Fixpoint inner_loop (e : ip_frag_pkt) (first_len : Z) (i : nat) (m : option Z) (o : Z) s : option (option Z * Z * mstate P) :=
  match i with
  | S (S i' as i1) =>
      if o =? first_len then Some (m, o, s)
      else if u32 (ofs (frag e i) + len (frag e i)) =? o then
        s ← chain_behind (mb (frag e i)) m s;
        inner_loop e first_len i1 (mb (frag e i)) (ofs (frag e i)) s
      else inner_loop e first_len i1 m o s
  | _ => Some (m, o, s)
  end.

(** The [while] loop; the inner [None] is the hole. *)
Fixpoint outer_loop (fuel : nat) (e : ip_frag_pkt) (first_len : Z) (n : nat) (m : option Z) (o : Z) s :
    option (option (option Z) * mstate P) :=
  if o =? first_len then Some (Some m, s)
  else
    match fuel with
    | O => None
    | S fuel' =>
        '(m', o', s) ← inner_loop e first_len n m o s;
        if decide (m' = m) then Some (None, s) else outer_loop fuel' e first_len n m' o' s
    end.

(** At most two rounds with the same offset, and two intermediate fragments. *)
Definition while_fuel : nat := 8.

(** The part that the two protocols have in common: the fragments in one
    chain, with [PKT_TX_IP_CKSUM] set.  The unsigned index [last_idx - 1]
    wraps when [last_idx] is 0: if the loop is entered then, it reads outside
    of the array, and the result is [None]. *)
Definition frag_chain e s : option (option Z * mstate P) :=
  let first_len := len (frag e IP_FIRST_FRAG_IDX) in
  let n := Z.to_nat (last_idx e - 1) in
  if (last_idx e =? 0) && negb (ofs (frag e IP_LAST_FRAG_IDX) =? first_len) then None
  else '(res, s) ← outer_loop while_fuel e first_len n (mb (frag e IP_LAST_FRAG_IDX)) (ofs (frag e IP_LAST_FRAG_IDX)) s;
  match res with
  | None => Some (None, s)
  | Some m =>
      s ← chain_behind (mb (frag e IP_FIRST_FRAG_IDX)) m s;
      m ← mb (frag e IP_FIRST_FRAG_IDX);
      let r := mbuf s m in
      Some (Some m, set_mbuf m (set_tx (Z.lor (ol_flags r) PKT_TX_IP_CKSUM) (l2_len r) (l3_len r) r) s)
  end.

Definition ipv4_frag_reassemble e s : option (option Z * mstate P) :=
  '(res, s) ← frag_chain e s;
  match res with
  | None => Some (None, s)
  | Some m =>
      let r := mbuf s m in
      let ip_hdr := advance (rte_pktmbuf_mtod s m) (l2_len r) in
      let s := wr16be ip_hdr 2 (u16 (total_size e + l3_len r)) s in
      let s := wr16be ip_hdr 6 (Z.land (rd16be s ip_hdr 6) IPV4_HDR_DF_FLAG) s in
      Some (Some m, wr16be ip_hdr 10 0 s)
  end.

(** Backwards, byte by byte. *)
Fixpoint ip_frag_memmove (dst src : Z * Z) (n : nat) s : mstate P :=
  match n with
  | O => s
  | S i => ip_frag_memmove dst src i (wr8 dst (Z.of_nat i) (rd8 s src (Z.of_nat i)) s)
  end.

Definition ipv6_frag_reassemble e s : option (option Z * mstate P) :=
  let payload_len := u32 (ofs (frag e IP_LAST_FRAG_IDX) + len (frag e IP_LAST_FRAG_IDX)) in
  '(res, s) ← frag_chain e s;
  match res with
  | None => Some (None, s)
  | Some m =>
      let r := mbuf s m in
      let ip_hdr := advance (rte_pktmbuf_mtod s m) (l2_len r) in
      let s := wr16be ip_hdr 4 (u16 payload_len) s in
      let move_len := u32 (l2_len r + l3_len r - SIZEOF_FRAG_HDR) in
      let frag_hdr := advance ip_hdr SIZEOF_IPV6_HDR in
      let s := wr8 ip_hdr 6 (rd8 s frag_hdr 0) s in
      let d := rte_pktmbuf_mtod s m in
      let s := ip_frag_memmove (advance d SIZEOF_FRAG_HDR) d (Z.to_nat (i32 move_len)) s in
      Some (Some m, (rte_pktmbuf_adj m SIZEOF_FRAG_HDR s).2)
  end.

(** ** A fragment for an entry *)

(** The slot of the new fragment, with [total_size] and [last_idx]. *)
Definition frag_slot e (o l more_frags : Z) : Z * Z * Z :=
  if o =? 0 then
    (match mb (frag e IP_FIRST_FRAG_IDX) with None => Z.of_nat IP_FIRST_FRAG_IDX | Some _ => UINT32_MAX end,
     total_size e, last_idx e)
  else if more_frags =? 0 then
    (match mb (frag e IP_LAST_FRAG_IDX) with None => Z.of_nat IP_LAST_FRAG_IDX | Some _ => UINT32_MAX end,
     u32 (o + l), last_idx e)
  else if last_idx e <? IP_MAX_FRAG_NUM then (last_idx e, total_size e, last_idx e + 1)
  else (last_idx e, total_size e, last_idx e).

(** Result: the reassembled packet or NULL, the entry, the death row and the
    mbufs. *)
Definition ip_frag_process e (dr : death_row) (m o l more_frags : Z) s :
    option (option Z * ip_frag_pkt * death_row * mstate P) :=
  let fsize := u32 (frag_size e + l) in
  let '(idx, tsize, lidx) := frag_slot e o l more_frags in
  let e := mkPkt (key e) (start e) tsize fsize lidx (frags e) in
  if IP_MAX_FRAG_NUM <=? idx then
    let '(e, dr) := ip_frag_free e dr in
    Some (None, set_key (ip_frag_key_invalidate (key e)) e, dr ++ [m], s)
  else
    let e := mkPkt (key e) (start e) tsize fsize lidx (<[Z.to_nat idx := mkFrag o l (Some m)]> (frags e)) in
    if fsize <? tsize then Some (None, e, dr, s)
    else
      '(res, s) ←
        (if (fsize =? tsize) && bool_decide (is_Some (mb (frag e IP_FIRST_FRAG_IDX))) then
           if key_len (key e) =? IPV4_KEYLEN then ipv4_frag_reassemble e s else ipv6_frag_reassemble e s
         else Some (None, s));
      let '(e, dr) := match res with None => ip_frag_free e dr | Some _ => (e, dr) end in
      Some (res, set_key (ip_frag_key_invalidate (key e)) e, dr, s).

(** ** The interface *)

Context `{FragHash}.

(** Find or make the entry, then hand the fragment to it. *)
Definition frag_input (t : rte_ip_frag_tbl) (dr : death_row) (m tms : Z) (k : ip_frag_key) (o l more_frags : Z) s :
    option (option Z * rte_ip_frag_tbl * death_row * mstate P) :=
  '(fp, t, dr) ← ip_frag_find t dr k tms;
  match fp with
  | None => Some (None, t, dr ++ [m], s)
  | Some fp =>
      '(res, e, dr, s) ← ip_frag_process (entry t fp) dr m o l more_frags s;
      Some (res, ip_frag_inuse (set_pkt fp e t) fp, dr, s)
  end.

(** [ip_hdr] points to the header; [stack] are the words of the key on the
    stack that are not assigned. *)
Definition rte_ipv4_frag_reassemble_packet (stack : list Z) (t : rte_ip_frag_tbl) (dr : death_row) (m tms : Z)
    (ip_hdr : Z * Z) s : option (option Z * rte_ip_frag_tbl * death_row * mstate P) :=
  let flag_offset := rd16be s ip_hdr 6 in
  let ip_ofs := u16 (Z.land flag_offset IPV4_HDR_OFFSET_MASK) in
  let ip_flag := u16 (Z.land flag_offset IPV4_HDR_MF_FLAG) in
  let k := mkKey (rdle s ip_hdr 12 8 :: stack) (rdle s ip_hdr 4 2) IPV4_KEYLEN in
  let ip_ofs := u16 (ip_ofs * IPV4_HDR_OFFSET_UNITS) in
  let ip_len := u16 (rd16be s ip_hdr 2 - l3_len (mbuf s m)) in
  frag_input t dr m tms k ip_ofs ip_len ip_flag s.

Definition MORE_FRAGS (x : Z) : Z := Z.shiftr (Z.land x 0x100) 8.
Definition FRAG_OFFSET (x_be : Z) : Z := Z.shiftr x_be 3.

Definition rte_ipv6_frag_reassemble_packet (t : rte_ip_frag_tbl) (dr : death_row) (m tms : Z)
    (ip_hdr frag_hdr : Z * Z) s : option (option Z * rte_ip_frag_tbl * death_row * mstate P) :=
  let k := mkKey [rdle s ip_hdr 8 8; rdle s ip_hdr 16 8; rdle s ip_hdr 24 8; rdle s ip_hdr 32 8]
             (rdle s frag_hdr 4 4) IPV6_KEYLEN in
  let ip_ofs := u16 (FRAG_OFFSET (rd16be s frag_hdr 2) * 8) in
  let ip_len := u16 (rd16be s ip_hdr 4 - SIZEOF_FRAG_HDR) in
  frag_input t dr m tms k ip_ofs ip_len (MORE_FRAGS (rdle s frag_hdr 2 2)) s.

(** [rte_ip_frag_free_death_row]; the prefetches have no effect. *)
Definition rte_ip_frag_free_death_row (dr : death_row) s : option (death_row * mstate P) :=
  s ← fold_left (fun acc m => s ← acc; rte_pktmbuf_free m s) dr (Some s);
  Some ([], s).

End Reassembly.

(** ** Creation *)

(** The memory of the table is zeroed. *)
Definition rte_ip_frag_table_create (bucket_num bucket_entries max_entries max_cycles : Z) : option rte_ip_frag_tbl :=
  let nb_entries := u64 (u64 (rte_align32pow2 bucket_num * bucket_entries) * IP_FRAG_HASH_FNUM) in
  if negb (rte_is_power_of_2 bucket_entries) || (UINT32_MAX <? nb_entries) || (nb_entries =? 0) || (nb_entries <? max_entries)
  then None
  else Some (mkTbl max_cycles (Z.land (u32 (nb_entries - 1)) (u32 (Z.lnot (u32 (bucket_entries - 1))))) max_entries 0 bucket_entries nb_entries
               bucket_num None [] ∅).

Definition rte_ipv4_frag_pkt_is_fragmented {P : Type} (hdr : Z * Z) (s : mstate P) : bool :=
  let flag_offset := rd16be s hdr 6 in
  let ip_ofs := u16 (Z.land flag_offset IPV4_HDR_OFFSET_MASK) in
  let ip_flag := u16 (Z.land flag_offset IPV4_HDR_MF_FLAG) in
  negb (ip_flag =? 0) || negb (ip_ofs =? 0).

(** ** The portable hash *)

Definition rot (x k : Z) : Z := u32 (Z.lor (u32 (Z.shiftl x k)) (Z.shiftr x (32 - k))).
Definition RTE_JHASH_GOLDEN_RATIO : Z := 0xdeadbeef.

Definition __rte_jhash_final (a b c : Z) : Z :=
  let c := u32 (Z.lxor c b - rot b 14) in
  let a := u32 (Z.lxor a c - rot c 11) in
  let b := u32 (Z.lxor b a - rot a 25) in
  let c := u32 (Z.lxor c b - rot b 16) in
  let a := u32 (Z.lxor a c - rot c 4) in
  let b := u32 (Z.lxor b a - rot a 14) in
  u32 (Z.lxor c b - rot b 24).

Definition __rte_jhash_3words (a b c initval : Z) : Z :=
  __rte_jhash_final (u32 (a + (RTE_JHASH_GOLDEN_RATIO + initval))) (u32 (b + (RTE_JHASH_GOLDEN_RATIO + initval)))
    (u32 (c + (RTE_JHASH_GOLDEN_RATIO + initval))).
Definition rte_jhash_3words (a b c initval : Z) : Z := __rte_jhash_3words (u32 (a + 12)) (u32 (b + 12)) (u32 (c + 12)) initval.

(** The hashes of a machine without SSE 4.2. *)
#[export] Instance jhash_frag_hash : FragHash := {
  hash4 p0 p1 i := rte_jhash_3words p0 p1 i PRIME_VALUE;
  hash6 p i :=
    let v := rte_jhash_3words (p !!! 0%nat) (p !!! 1%nat) (p !!! 2%nat) PRIME_VALUE in
    let v := rte_jhash_3words (p !!! 3%nat) (p !!! 4%nat) (p !!! 5%nat) v in
    rte_jhash_3words (p !!! 6%nat) (p !!! 7%nat) i v }.
