(* ===== verification/IpFragChain.v ===== *)
(** * IP reassembly: joining the fragments

    The headers of the later fragments go away and their payloads come behind
    the first fragment, in the order of the offsets. *)
From S2P Require Import Prelude Bits Mbuf MbufPacket IpFrag.

Section Chain.
Context {P : Type} `{MP : !MbufPool P}.
Implicit Types (s : mstate P) (m : Z) (l : list Z) (w : list Z) (e : ip_frag_pkt).

(** The length of the headers of a fragment. *)
Definition hlen s m : Z := l2_len (mbuf s m) + l3_len (mbuf s m).

(** A fragment: a packet whose headers are in its first segment; [w] is its
    payload. *)
Record fragment s m l w : Prop := {
  fg_packet : packet s m l;
  fg_hlen : 0 <= hlen s m <= data_len (mbuf s m);
  fg_payload : drop (Z.to_nat (hlen s m)) (bytes s l) = w }.

Lemma edits_hlen D s s' m : edits D s s' -> hlen s' m = hlen s m.
Proof. intros He. destruct (ed_meta _ _ _ He m) as (_&_&_&E1&E2&_). unfold hlen. by rewrite E1, E2. Qed.

Lemma fragment_frame D s s' m l w :
  edits D s s' -> (forall x, x ∈ l -> x ∉ D) -> fragment s m l w -> fragment s' m l w /\ bytes s' l = bytes s l.
Proof.
  intros He Hd [Hp Hh Hw]. destruct (packet_frame _ _ _ _ _ He Hd Hp) as [Hp' Hb]. split; [|done].
  assert (Em : mbuf s' m = mbuf s m) by (apply (ed_out _ _ _ He), Hd; by eapply packet_head_in).
  constructor; [done| |]; unfold hlen; rewrite Em; [done|]. by rewrite Hb.
Qed.

Lemma fragment_first s m l w : fragment s m l w -> (Z.to_nat (hlen s m) <= length (bytes s l))%nat.
Proof.
  intros [Hp Hh _]. destruct (packet_head _ _ _ Hp) as [l' ->]. pose proof (length_bytes s (m :: l') (pk_segs _ _ _ Hp)) as Hl.
  assert (0 <= total_len s l') by (apply total_len_nonneg; intros; apply (pk_segs _ _ _ Hp); by right).
  change (total_len s (m :: l')) with (data_len (mbuf s m) + total_len s l') in Hl. lia.
Qed.

Lemma edits_app D1 D2 D s1 s2 s3 : edits D1 s1 s2 -> edits D2 s2 s3 -> D1 ⊆ D -> D2 ⊆ D -> edits D s1 s3.
Proof. intros H1 H2 Hs1 Hs2. eapply edits_trans; (eapply edits_mono; [|done]); done. Qed.

(** [m] behind [prev]. *)
Lemma chain_behind_spec s prev m lp lm wp wm :
  fragment s prev lp wp -> fragment s m lm wm -> (forall y, y ∈ lp -> y ∉ lm) ->
  hlen s m < 2 ^ 16 -> total_len s lp + total_len s lm < 2 ^ 32 -> Z.of_nat (length lp + length lm) < 256 ->
  exists s', chain_behind (Some prev) (Some m) s = Some s' /\ edits (lp ++ lm) s s' /\ fragment s' prev (lp ++ lm) (wp ++ wm) /\
    bytes s' (lp ++ lm) = bytes s lp ++ wm /\ data_off (mbuf s' prev) = data_off (mbuf s prev) /\
    data_len (mbuf s' prev) = data_len (mbuf s prev) /\ total_len s' (lp ++ lm) <= total_len s lp + total_len s lm.
Proof.
  intros Hfp Hfm Hd Hh Ht Hn. destruct (id Hfm) as [Hpm Hhm Hwm], (id Hfp) as [Hpp Hhp Hwp].
  unfold chain_behind. cbn [mbind option_bind]. fold (hlen s m). unfold u16. rewrite (wrap_small 16 (hlen s m)) by lia.
  destruct (adj_spec s m lm (hlen s m) Hpm) as (a & s1 & -> & Hp1 & He1 & Hb1 & Hdl1); [lia|]. cbn [snd].
  assert (Hmlm : m ∈ lm) by (by eapply packet_head_in).
  destruct (packet_frame _ _ _ _ _ He1 ltac:(intros x Hx ->%list_elem_of_singleton; by apply (Hd m)) Hpp) as [Hpp1 Hbp1].
  destruct (packet_snoc _ _ _ Hpp1) as (l0 & x & El).
  assert (Ht1 : total_len s1 lp + total_len s1 lm < 2 ^ 32 /\ total_len s1 lp = total_len s lp /\ total_len s1 lm <= total_len s lm).
  { pose proof (length_bytes s1 lm (pk_segs _ _ _ Hp1)) as L1. rewrite Hb1, length_drop in L1.
    pose proof (length_bytes s lm (pk_segs _ _ _ Hpm)) as L2.
    pose proof (length_bytes s1 lp (pk_segs _ _ _ Hpp1)) as L3. pose proof (length_bytes s lp (pk_segs _ _ _ Hpp)) as L4.
    rewrite Hbp1 in L3. lia. }
  destruct Ht1 as (Ht1 & Ht2 & Ht3).
  pose proof (chain_spec s1 prev m l0 x lm) as Hc. rewrite <- El in Hc. specialize (Hc Hpp1 Hp1 Hd Ht1).
  rewrite (proj2 (Z.ltb_lt _ _)) in Hc by done. destruct Hc as (s2 & -> & Hp2 & He2 & Hb2 & Hr2). cbn [mbind option_bind].
  assert (Hprev : prev ∈ lp) by (by eapply packet_head_in). assert (Hne : prev <> m) by (intros ->; by apply (Hd m)).
  assert (Hed : edits (lp ++ lm) s s2).
  { eapply edits_app; [exact He1|exact He2|set_solver|]. assert (x ∈ lp) by (rewrite El; set_solver). set_solver. }
  assert (Ed1 : mbuf s1 prev = mbuf s prev) by (apply (ed_out _ _ _ He1); set_solver).
  destruct (Hr2 prev) as [Er1 Er2]. rewrite Ed1 in Er1, Er2.
  assert (Hb : bytes s2 (lp ++ lm) = bytes s lp ++ wm) by (by rewrite Hb2, Hbp1, Hb1, Hwm).
  exists s2. split; [done|]. split; [done|]. split_and!; try done.
  - constructor; [done| |].
    + by rewrite (edits_hlen _ _ _ _ Hed), Er2.
    + rewrite (edits_hlen _ _ _ _ Hed), Hb, drop_app_le by (by eapply fragment_first). by rewrite Hwp.
  - rewrite <- (length_bytes s2 (lp ++ lm)), Hb2, length_app, Nat2Z.inj_add by apply Hp2.
    rewrite !length_bytes by (apply Hpp1 || apply Hp1). lia.
Qed.

(** ** Fragments side by side *)

(** A fragment with its bytes: the headers and the payload. *)
Record part := mkPart { pt_mb : Z; pt_segs : list Z; pt_hdr : list Z; pt_pay : list Z }.

Definition merge (x y : part) : part := mkPart (pt_mb x) (pt_segs x ++ pt_segs y) (pt_hdr x) (pt_pay x ++ pt_pay y).

Record part_ok s (x : part) : Prop := {
  pa_frag : fragment s (pt_mb x) (pt_segs x) (pt_pay x);
  pa_bytes : bytes s (pt_segs x) = pt_hdr x ++ pt_pay x;
  pa_hlen : hlen s (pt_mb x) < 2 ^ 16 }.

Definition sum_total s (xs : list part) : Z := fold_right (fun x n => total_len s (pt_segs x) + n) 0 xs.

(** Parts that can be joined in any way. *)
Record parts s (xs : list part) : Prop := {
  ps_ok : forall x, x ∈ xs -> part_ok s x;
  ps_nodup : NoDup (concat (map pt_segs xs));
  ps_total : sum_total s xs < 2 ^ 32;
  ps_count : Z.of_nat (length (concat (map pt_segs xs))) < 256 }.

Lemma sum_total_cons s x xs : sum_total s (x :: xs) = total_len s (pt_segs x) + sum_total s xs.
Proof. done. Qed.

Lemma sum_total_app s xs ys : sum_total s (xs ++ ys) = sum_total s xs + sum_total s ys.
Proof. induction xs as [|x xs IH]; [done|]. cbn [app]. rewrite !sum_total_cons. lia. Qed.

Lemma sum_total_nonneg s xs : (forall x, x ∈ xs -> part_ok s x) -> 0 <= sum_total s xs.
Proof.
  induction xs as [|x xs IH]; intros Hok; [done|]. rewrite sum_total_cons.
  assert (0 <= total_len s (pt_segs x)) by (apply total_len_nonneg, (pk_segs _ _ _ (fg_packet _ _ _ _ (pa_frag _ _ (Hok x ltac:(left)))))).
  assert (0 <= sum_total s xs) by (apply IH; intros; apply Hok; by right). lia.
Qed.

Lemma part_frame D s s' x :
  edits D s s' -> (forall y, y ∈ pt_segs x -> y ∉ D) -> part_ok s x ->
  part_ok s' x /\ total_len s' (pt_segs x) = total_len s (pt_segs x).
Proof.
  intros He Hd [Hf Hb Hh]. destruct (fragment_frame _ _ _ _ _ _ He Hd Hf) as [Hf' Hb']. split.
  - constructor; [done|congruence|]. by rewrite (edits_hlen _ _ _ _ He).
  - apply total_len_ext. intros y Hy. by rewrite (ed_out _ _ _ He y (Hd y Hy)).
Qed.

Lemma concat_segs_in (xs : list part) x y : x ∈ xs -> y ∈ pt_segs x -> y ∈ concat (map pt_segs xs).
Proof. apply concat_map_in. Qed.

(** Joining two neighbours. *)
Lemma merge_parts s A x y B :
  parts s (A ++ x :: y :: B) ->
  exists s', chain_behind (Some (pt_mb x)) (Some (pt_mb y)) s = Some s' /\ parts s' (A ++ merge x y :: B) /\
    edits (pt_segs x ++ pt_segs y) s s' /\ data_off (mbuf s' (pt_mb x)) = data_off (mbuf s (pt_mb x)) /\
    data_len (mbuf s' (pt_mb x)) = data_len (mbuf s (pt_mb x)).
Proof.
  intros [Hok Hnd Ht Hc]. rewrite map_app, concat_app in Hnd, Hc. cbn [map concat] in Hnd, Hc.
  assert (Hx := Hok x ltac:(set_solver)). assert (Hy := Hok y ltac:(set_solver)).
  apply NoDup_app in Hnd as (HndA & HdA & Hnd). rewrite app_assoc in Hnd. apply NoDup_app in Hnd as (Hndxy & HdB & HndB).
  apply NoDup_app in Hndxy as (_ & Hxy & _).
  rewrite sum_total_app, !sum_total_cons in Ht.
  assert (HA : 0 <= sum_total s A) by (apply sum_total_nonneg; intros; apply Hok; set_solver).
  assert (HB : 0 <= sum_total s B) by (apply sum_total_nonneg; intros; apply Hok; set_solver).
  rewrite !length_app in Hc.
  destruct (chain_behind_spec s (pt_mb x) (pt_mb y) (pt_segs x) (pt_segs y) (pt_pay x) (pt_pay y))
    as (s' & E & He & Hf & Hb & Ho & Hl & Htl); [apply Hx|apply Hy|done|apply Hy|lia|lia|].
  exists s'. split; [done|].
  assert (Hfr : forall z, z ∈ A \/ z ∈ B -> part_ok s' z /\ total_len s' (pt_segs z) = total_len s (pt_segs z)).
  { intros z Hz. eapply part_frame; [exact He| |apply Hok; set_solver]. intros u Hu Hxyu. destruct Hz as [Hz|Hz].
    - apply (HdA u); [by eapply concat_segs_in|]. rewrite app_assoc. apply elem_of_app. by left.
    - apply (HdB u); [done|by eapply concat_segs_in]. }
  assert (Hst : forall C, (forall z, z ∈ C -> z ∈ A \/ z ∈ B) -> sum_total s' C = sum_total s C).
  { induction C as [|z C IH]; intros HC; [done|]. rewrite !sum_total_cons, IH by (intros; apply HC; by right).
    by rewrite (proj2 (Hfr z (HC z ltac:(left)))). }
  split; [|done]. constructor.
  - intros z Hz. apply elem_of_app in Hz as [Hz|[->|Hz]%elem_of_cons]; [by apply Hfr; left| |by apply Hfr; right].
    constructor; unfold merge; cbn [pt_mb pt_segs pt_hdr pt_pay]; [done| |by rewrite (edits_hlen _ _ _ _ He); apply Hx]. rewrite Hb, (pa_bytes _ _ Hx). by rewrite app_assoc.
  - rewrite map_app, concat_app. cbn. apply NoDup_app. split; [done|]. split; [by rewrite <- app_assoc|].
    apply NoDup_app. split; [|done]. apply NoDup_app. split_and!; [apply Hx|done|apply Hy].
  - rewrite sum_total_app, sum_total_cons, !Hst by auto. cbn [merge pt_segs]. lia.
  - rewrite map_app, concat_app. cbn. rewrite !length_app. lia.
Qed.

(** ** The whole datagram *)

(** The parts joined from the right, as the code does. *)
Fixpoint join (x : part) (xs : list part) : part :=
  match xs with [] => x | y :: ys => merge x (join y ys) end.

Lemma join_mb x xs : pt_mb (join x xs) = pt_mb x /\ pt_hdr (join x xs) = pt_hdr x.
Proof. by destruct xs. Qed.

Lemma join_segs x xs :
  pt_segs (join x xs) = concat (map pt_segs (x :: xs)) /\ pt_pay (join x xs) = concat (map pt_pay (x :: xs)).
Proof.
  revert x. induction xs as [|y ys IH]; intros x; cbn; [by rewrite !app_nil_r|]. destruct (IH y) as [-> ->]. done.
Qed.

(** An entry that holds the parts [xs]: the slots of the first and the last
    one, and the others in [2 ..] in the order of their arrival. *)
Definition slot_of (x : part) (o l : Z) : ip_frag := mkFrag o l (Some (pt_mb x)).

Inductive holds (e : ip_frag_pkt) (x0 : part) : list part -> Prop :=
| Holds2 xl n0 nl :
    last_idx e = 2 -> frag e 1 = slot_of x0 0 n0 -> frag e 0 = slot_of xl n0 nl -> holds e x0 [xl]
| Holds3 xa xl n0 na nl :
    last_idx e = 3 -> 0 < na -> frag e 1 = slot_of x0 0 n0 -> frag e 2 = slot_of xa n0 na ->
    frag e 0 = slot_of xl (n0 + na) nl -> 0 <= n0 -> n0 + na < 2 ^ 32 -> holds e x0 [xa; xl]
| Holds4 xa xb xl n0 na nb nl :
    last_idx e = 4 -> 0 < na -> 0 < nb -> frag e 1 = slot_of x0 0 n0 ->
    (frag e 2 = slot_of xa n0 na /\ frag e 3 = slot_of xb (n0 + na) nb \/
     frag e 2 = slot_of xb (n0 + na) nb /\ frag e 3 = slot_of xa n0 na) ->
    frag e 0 = slot_of xl (n0 + na + nb) nl -> 0 <= n0 -> n0 + na + nb < 2 ^ 32 -> holds e x0 [xa; xb; xl].

(** Where the data of the first fragment is stays. *)
Definition keeps_place s s' m : Prop :=
  data_off (mbuf s' m) = data_off (mbuf s m) /\ data_len (mbuf s' m) = data_len (mbuf s m).

Lemma part_mb_in s x : part_ok s x -> pt_mb x ∈ pt_segs x.
Proof. intros Hx. by eapply packet_head_in, fg_packet, pa_frag. Qed.

Lemma parts_distinct s xs : parts s xs -> NoDup (map pt_mb xs).
Proof.
  intros [Hok Hnd _ _]. induction xs as [|x xs IH]; cbn in *; [constructor|]. apply NoDup_app in Hnd as (_ & Hd & Hnd).
  constructor; [|apply IH; [|done]; intros; apply Hok; by right].
  intros Hin. apply list_elem_of_fmap in Hin as (y & E & Hy). apply (Hd (pt_mb x)); [apply (part_mb_in s), Hok; left|].
  rewrite E. eapply concat_segs_in; [done|]. apply (part_mb_in s), Hok. by right.
Qed.

(** The loops join everything behind the first fragment. *)
Lemma outer_loop_spec e s x0 xs :
  holds e x0 xs -> parts s (x0 :: xs) ->
  exists y ys s', xs = y :: ys /\
    outer_loop while_fuel e (len (frag e IP_FIRST_FRAG_IDX)) (Z.to_nat (last_idx e - 1)) (mb (frag e IP_LAST_FRAG_IDX))
      (ofs (frag e IP_LAST_FRAG_IDX)) s = Some (Some (Some (pt_mb y)), s') /\
    parts s' [x0; join y ys] /\ edits (concat (map pt_segs xs)) s s' /\ mbuf s' (pt_mb x0) = mbuf s (pt_mb x0).
Proof.
  unfold IP_FIRST_FRAG_IDX, IP_LAST_FRAG_IDX.
  assert (Hout : forall s s' ys, parts s (x0 :: ys) -> edits (concat (map pt_segs ys)) s s' -> mbuf s' (pt_mb x0) = mbuf s (pt_mb x0)).
  { intros s1 s2 ys [Hok Hnd _ _] He. apply (ed_out _ _ _ He). cbn in Hnd. apply NoDup_app in Hnd as (_ & Hd & _). apply Hd.
    apply (packet_head_in _ _ _ (fg_packet _ _ _ _ (pa_frag _ _ (Hok x0 ltac:(left))))). }
  destruct 1 as [xl n0 nl El E1 E0|xa xl n0 na nl El Ha E1 E2 E0 H0 Hm|xa xb xl n0 na nb nl El Ha Hb E1 E23 E0 H0 Hm];
    intros Hps; rewrite E1, E0, El; cbn [len ofs mb slot_of];
    pose proof (parts_distinct _ _ Hps) as Hmb; cbn [map] in Hmb; rewrite ?NoDup_cons, ?not_elem_of_cons in Hmb;
    destruct_and? Hmb.
  - exists xl, [], s. split; [done|]. cbn [outer_loop while_fuel]. rewrite Z.eqb_refl. split; [done|]. split; [done|].
    split; [apply edits_refl|done].
  - exists xa, [xl]. change (Z.to_nat (3 - 1)) with 2%nat.
    destruct (merge_parts s [x0] xa xl [] Hps) as (s1 & Ec & Hps1 & He & _).
    exists s1. split; [done|]. split; [|split; [done|split]].
    + unfold while_fuel. cbn [outer_loop]. rewrite (proj2 (Z.eqb_neq (n0 + na) n0)) by lia.
      cbn [inner_loop]. rewrite (proj2 (Z.eqb_neq (n0 + na) n0)) by lia. rewrite E2. cbn [len ofs mb slot_of].
      rewrite u32_small, Z.eqb_refl by lia. rewrite Ec. cbn [mbind option_bind].
      rewrite decide_False by congruence. by rewrite Z.eqb_refl.
    + eapply edits_mono; [|exact He]. intros z. cbn. rewrite !elem_of_app. tauto.
    + eapply Hout; [exact Hps|]. eapply edits_mono; [|exact He]. intros z. cbn. rewrite !elem_of_app. tauto.
  - exists xa, [xb; xl]. change (Z.to_nat (4 - 1)) with 3%nat.
    destruct (merge_parts s [x0; xa] xb xl [] Hps) as (s1 & Ec1 & Hps1 & He1 & _).
    destruct (merge_parts s1 [x0] xa (merge xb xl) [] Hps1) as (s2 & Ec2 & Hps2 & He2 & _).
    assert (He : edits (concat (map pt_segs [xa; xb; xl])) s s2).
    { eapply edits_app; [exact He1|exact He2| |]; intros z; cbn; rewrite !elem_of_app; tauto. }
    exists s2. split; [done|]. split; [|split; [done|split; [done|by eapply Hout]]].
    cbn [pt_mb merge] in Ec2.
    assert (Hne : forall a b, a <> b -> (a =? b) = false) by (intros; by apply Z.eqb_neq).
    unfold while_fuel. cbn [outer_loop]. rewrite (Hne (n0 + na + nb) n0) by lia.
    cbn [inner_loop]. rewrite (Hne (n0 + na + nb) n0) by lia.
    destruct E23 as [[E2 E3]|[E2 E3]]; rewrite E2, E3; cbn [len ofs mb slot_of]; rewrite !u32_small, ?Z.eqb_refl by lia.
    + rewrite Ec1. cbn [mbind option_bind]. rewrite (Hne (n0 + na) n0), Ec2 by lia. cbn [mbind option_bind].
      rewrite decide_False by congruence. by rewrite Z.eqb_refl.
    + rewrite (Hne (n0 + na) (n0 + na + nb)), Ec1 by lia. cbn [mbind option_bind]. rewrite decide_False by congruence.
      rewrite (Hne (n0 + na) n0), Ec2 by lia. cbn [mbind option_bind]. rewrite Z.eqb_refl.
      cbn [mbind option_bind]. rewrite decide_False by congruence. by rewrite Z.eqb_refl.
Qed.

(** What the reassembly of the mbufs [D] leaves alone. *)
Record rework (D : list Z) s s' : Prop := {
  rw_out : forall x, x ∉ D -> mbuf s' x = mbuf s x;
  rw_live : forall x, is_Some (mbufs s' !! x) <-> is_Some (mbufs s !! x);
  rw_pools : pools s' = pools s;
  rw_meta : forall x, buf_addr (mbuf s' x) = buf_addr (mbuf s x) /\ buf_len (mbuf s' x) = buf_len (mbuf s x) /\
    l2_len (mbuf s' x) = l2_len (mbuf s x) /\ l3_len (mbuf s' x) = l3_len (mbuf s x) /\
    refcnt (mbuf s' x) = refcnt (mbuf s x) /\ pool (mbuf s' x) = pool (mbuf s x) /\
    priv_size (mbuf s' x) = priv_size (mbuf s x) /\ RTE_MBUF_INDIRECT (mbuf s' x) = RTE_MBUF_INDIRECT (mbuf s x) }.

Lemma edits_rework D s s' : edits D s s' -> rework D s s'.
Proof.
  intros [E1 E2 _ _ E5 E6]. constructor; try done. intros x. destruct (E6 x) as (?&?&Ef&?&?&?&?&?). repeat split; try done.
  unfold RTE_MBUF_INDIRECT. by rewrite Ef.
Qed.

Lemma rework_trans D s1 s2 s3 : rework D s1 s2 -> rework D s2 s3 -> rework D s1 s3.
Proof.
  intros [A1 A2 A3 A4] [B1 B2 B3 B4]. constructor; [|intros; by rewrite B2|congruence|].
  - intros x Hx. by rewrite B1, A1.
  - intros x. destruct (A4 x) as (?&?&?&?&?&?&?&?), (B4 x) as (?&?&?&?&?&?&?&?). repeat split; congruence.
Qed.

Lemma rework_mono D D' s s' : D ⊆ D' -> rework D s s' -> rework D' s s'.
Proof. intros Hs [A1 A2 A3 A4]. constructor; try done. intros x Hx. apply A1. intros Hx'. by apply Hx, Hs. Qed.

Lemma indirect_cksum f : Z.land (Z.lor f PKT_TX_IP_CKSUM) IND_ATTACHED_MBUF = Z.land f IND_ATTACHED_MBUF.
Proof. rewrite Z.land_lor_distr_l. change (Z.land PKT_TX_IP_CKSUM IND_ATTACHED_MBUF) with 0. apply Z.lor_0_r. Qed.

(** Setting the flag. *)
Lemma set_tx_rework s m :
  is_Some (mbufs s !! m) ->
  let s' := set_mbuf m (set_tx (Z.lor (ol_flags (mbuf s m)) PKT_TX_IP_CKSUM) (l2_len (mbuf s m)) (l3_len (mbuf s m)) (mbuf s m)) s in
  rework [m] s s' /\ mem s' = mem s /\ forall y, data_fields (mbuf s' y) = data_fields (mbuf s y).
Proof.
  intros Hm s'. assert (Hb : forall y, mbuf s' y = if decide (y = m) then set_tx (Z.lor (ol_flags (mbuf s m)) PKT_TX_IP_CKSUM)
    (l2_len (mbuf s m)) (l3_len (mbuf s m)) (mbuf s m) else mbuf s y) by (intros; unfold s'; by rewrite mbuf_set).
  split; [|split; [done|intros y; rewrite Hb; case_decide; by subst]]. constructor; try done.
  - intros x Hx. rewrite Hb, decide_False; [done|]. intros ->. apply Hx. left.
  - intros x. cbn. rewrite lookup_insert. case_decide; [subst; split; [done|by eexists]|done].
  - intros x. rewrite Hb. case_decide; [subst|done]. repeat split. unfold RTE_MBUF_INDIRECT. cbn [ol_flags set_tx]. by rewrite indirect_cksum.
Qed.

Lemma part_fields s s' x :
  (forall y, y ∈ pt_segs x -> data_fields (mbuf s' y) = data_fields (mbuf s y)) ->
  (forall y, is_Some (mbufs s' !! y) <-> is_Some (mbufs s !! y)) -> mem s' = mem s ->
  hlen s' (pt_mb x) = hlen s (pt_mb x) -> part_ok s x -> part_ok s' x.
Proof.
  intros Hf Hl Hm Hh Hx. pose proof (part_mb_in s x Hx) as Hmb. destruct Hx as [[Hp Hhl Hw] Hb Hmax].
  destruct (packet_fields s s' _ _ Hf Hl Hm Hp) as [Hp' Hb'].
  constructor; [constructor|congruence|]; rewrite ?Hh, ?Hb'; try done. by injection (Hf _ Hmb) as _ _ -> _ _ _ _.
Qed.

(** The chain of all fragments. *)
Lemma frag_chain_spec e s x0 xs :
  holds e x0 xs -> parts s (x0 :: xs) ->
  exists s', frag_chain e s = Some (Some (pt_mb x0), s') /\ part_ok s' (join x0 xs) /\
    rework (concat (map pt_segs (x0 :: xs))) s s' /\ mem s' = mem s /\ keeps_place s s' (pt_mb x0).
Proof.
  intros Hh Hps. destruct (outer_loop_spec e s x0 xs Hh Hps) as (y & ys & s1 & -> & Eo & Hps1 & He1 & Em).
  destruct (merge_parts s1 [] x0 (join y ys) [] Hps1) as (s2 & Ec & Hps2 & He2 & Ho & Hl).
  assert (E1 : mb (frag e IP_FIRST_FRAG_IDX) = Some (pt_mb x0)) by (unfold IP_FIRST_FRAG_IDX; 
    destruct Hh as [xl n0 nl El E1 E0|xa xl n0 na nl El Ha E1|xa xb xl n0 na nb nl El Ha Hb E1]; by rewrite E1).
  assert (Hli : last_idx e <> 0) by (destruct Hh; lia).
  unfold frag_chain. rewrite (proj2 (Z.eqb_neq _ _) Hli). cbn [andb]. rewrite Eo. cbn [mbind option_bind]. rewrite E1. rewrite (proj1 (join_mb y ys)) in Ec. rewrite Ec. cbn [mbind option_bind].
  assert (Hx2 := ps_ok _ _ Hps2 (merge x0 (join y ys)) ltac:(left)). set (s3 := set_mbuf _ _ s2).
  assert (Hlive : is_Some (mbufs s2 !! pt_mb x0)).
  { apply (pk_segs _ _ _ (fg_packet _ _ _ _ (pa_frag _ _ Hx2))). apply (part_mb_in s2 _ Hx2). }
  destruct (set_tx_rework s2 (pt_mb x0) Hlive) as (Hrw & Hmem & Hdf). fold s3 in Hrw, Hmem, Hdf.
  exists s3. split; [done|]. split; [|split; [|split]].
  - apply (part_fields s2); auto; [apply Hrw|]. destruct (rw_meta _ _ _ Hrw (pt_mb (join x0 (y :: ys)))) as (_&_&E2&E3&_). unfold hlen. by rewrite E2, E3.
  - eapply rework_trans; [eapply rework_mono, edits_rework, He1; cbn; intros z; rewrite !elem_of_app; tauto|].
    eapply rework_trans; [eapply rework_mono, edits_rework, He2|eapply rework_mono; [|exact Hrw]].
    + rewrite (proj1 (join_segs y ys)). cbn. intros z; rewrite !elem_of_app; tauto.
    + intros z ->%list_elem_of_singleton. cbn. apply elem_of_app. left. apply (part_mb_in s1), (ps_ok _ _ Hps1). left.
  - rewrite Hmem, (ed_mem _ _ _ He2). apply He1.
  - unfold keeps_place. injection (Hdf (pt_mb x0)) as _ -> -> _ _ _ _. by rewrite Ho, Hl, Em.
Qed.

End Chain.
