(* ===== verification/IpFragHeader.v ===== *)
(** * IP reassembly: the header of the datagram

    The bytes of the IPv4 header that the reassembly changes: the total
    length, the flags and offset, and the checksum. *)
From S2P Require Import Prelude Bits Mbuf MbufPacket IpFrag IpFragChain.

(** ** Byte strings *)

Definition put8 (b : list Z) (i v : Z) : list Z := <[Z.to_nat i := u8 v]> b.
Definition put16 (b : list Z) (i v : Z) : list Z := put8 (put8 b i (Z.shiftr v 8)) (i + 1) v.
Definition get16 (b : list Z) (i : Z) : Z := 256 * b !!! Z.to_nat i + b !!! Z.to_nat (i + 1).

(** The headers [h] of the first fragment become those of the datagram. *)
Definition ipv4_whole (l2 l3 total : Z) (h : list Z) : list Z :=
  let h := put16 h (l2 + 2) (u16 (total + l3)) in
  let h := put16 h (l2 + 6) (Z.land (get16 h (l2 + 6)) IPV4_HDR_DF_FLAG) in
  put16 h (l2 + 10) 0.

Lemma length_put8 b i v : length (put8 b i v) = length b.
Proof. apply length_insert. Qed.
Lemma length_put16 b i v : length (put16 b i v) = length b.
Proof. unfold put16. by rewrite !length_put8. Qed.
Lemma length_ipv4_whole l2 l3 total h : length (ipv4_whole l2 l3 total h) = length h.
Proof. unfold ipv4_whole. by rewrite !length_put16. Qed.

Section Header.
Context {P : Type} `{MP : !MbufPool P}.
Implicit Types (s : mstate P) (m : Z).

(** ** Writing into the first segment *)

(** The buffer of the first segment is not the one of a later segment. *)
Definition private s (x : part) : Prop :=
  exists l, pt_segs x = pt_mb x :: l /\ forall y, y ∈ l -> buf_addr (mbuf s y) <> buf_addr (mbuf s (pt_mb x)).

Lemma read_bytes_lookup s b o n (i : nat) : (i < n)%nat -> read_bytes s b o n !! i = Some (mem s !!! (b, o + Z.of_nat i)).
Proof. intros Hi. unfold read_bytes. rewrite list_lookup_fmap, lookup_seq_lt by done. done. Qed.

Lemma seg_bytes_wr8 s m i v :
  0 <= i < data_len (mbuf s m) ->
  seg_bytes (wr8 (rte_pktmbuf_mtod s m) i v s) m = put8 (seg_bytes s m) i v.
Proof.
  intros Hi. unfold seg_bytes, put8. change (mbuf (wr8 _ i v s) m) with (mbuf s m).
  apply list_eq_same_length with (n := Z.to_nat (data_len (mbuf s m))); rewrite ?length_insert, ?length_read_bytes; try done.
  intros j x y Hj. rewrite read_bytes_lookup by done. unfold wr8, rte_pktmbuf_mtod. cbn [mem fst snd]. rewrite lookup_total_insert.
  destruct (decide (j = Z.to_nat i)) as [->|Hne].
  - rewrite decide_True by (f_equal; lia). rewrite list_lookup_insert_eq by (rewrite length_read_bytes; lia). congruence.
  - rewrite decide_False by (intros [= E]; lia). rewrite list_lookup_insert_ne, read_bytes_lookup by (done || lia). congruence.
Qed.

Lemma seg_bytes_wr8_other s m y i v :
  buf_addr (mbuf s y) <> buf_addr (mbuf s m) -> seg_bytes (wr8 (rte_pktmbuf_mtod s m) i v s) y = seg_bytes s y.
Proof.
  intros Hne. unfold seg_bytes, read_bytes. change (mbuf (wr8 _ i v s) y) with (mbuf s y). apply map_ext. intros j.
  unfold wr8, rte_pktmbuf_mtod. cbn [mem fst]. rewrite lookup_total_insert_ne; [done|]. by intros [= E].
Qed.

Definition with_hdr (x : part) (h : list Z) : part := mkPart (pt_mb x) (pt_segs x) h (pt_pay x).

Lemma part_hdr_len s x : part_ok s x -> Z.of_nat (length (pt_hdr x)) = hlen s (pt_mb x).
Proof.
  intros [Hf Hb _]. pose proof (fg_payload _ _ _ _ Hf) as Hw. pose proof (fragment_first _ _ _ _ Hf) as Hle.
  pose proof (fg_hlen _ _ _ _ Hf). apply (f_equal length) in Hw. rewrite Hb in Hw, Hle. rewrite length_drop, length_app in *. lia.
Qed.

Lemma bytes_wr8 s m l i v :
  0 <= i < data_len (mbuf s m) -> (forall y, y ∈ l -> buf_addr (mbuf s y) <> buf_addr (mbuf s m)) ->
  bytes (wr8 (rte_pktmbuf_mtod s m) i v s) (m :: l) = put8 (bytes s (m :: l)) i v.
Proof.
  intros Hi Hpr. change (bytes ?s' (m :: l)) with (seg_bytes s' m ++ bytes s' l). rewrite seg_bytes_wr8 by done.
  rewrite (bytes_ext s _ l) by (intros y Hy; apply seg_bytes_wr8_other; auto).
  unfold put8. rewrite insert_app_l; [done|]. unfold seg_bytes. rewrite length_read_bytes. lia.
Qed.

(** A byte of the headers changes. *)
Lemma part_wr8 s x i v :
  part_ok s x -> private s x -> 0 <= i < hlen s (pt_mb x) ->
  part_ok (wr8 (rte_pktmbuf_mtod s (pt_mb x)) i v s) (with_hdr x (put8 (pt_hdr x) i v)).
Proof.
  intros Hx (l & El & Hpr) Hi. pose proof (part_hdr_len s x Hx) as Hlen. destruct Hx as [[Hp Hh Hw] Hb Hm].
  assert (Hb' : bytes (wr8 (rte_pktmbuf_mtod s (pt_mb x)) i v s) (pt_segs x) = put8 (pt_hdr x) i v ++ pt_pay x).
  { rewrite El, bytes_wr8 by (done || lia). rewrite <- El, Hb. unfold put8. rewrite insert_app_l by lia. done. }
  constructor; cbn [with_hdr pt_mb pt_segs pt_hdr pt_pay]; [constructor| |done]; [|exact Hh| |exact Hb'].
  - by apply (packet_mem s).
  - change (hlen (wr8 _ _ _ s) (pt_mb x)) with (hlen s (pt_mb x)). rewrite Hb', drop_app_length'; [done|]. rewrite length_put8. lia.
Qed.

Lemma wr8_advance a (k i v : Z) s : wr8 (advance a k) i v s = wr8 a (k + i) v s.
Proof. unfold wr8, advance. cbn. by rewrite Z.add_assoc. Qed.

Lemma part_wr16 s x k i v :
  part_ok s x -> private s x -> 0 <= k + i -> k + i + 1 < hlen s (pt_mb x) ->
  part_ok (wr16be (advance (rte_pktmbuf_mtod s (pt_mb x)) k) i v s) (with_hdr x (put16 (pt_hdr x) (k + i) v)).
Proof.
  intros Hx Hpr H0 H1. unfold wr16be. rewrite !wr8_advance.
  assert (Hx1 := part_wr8 s x (k + i) (Z.shiftr v 8) Hx Hpr ltac:(lia)).
  set (s1 := wr8 _ _ _ s) in *. unfold put16. replace (k + i + 1) with (k + (i + 1)) by lia.
  apply (part_wr8 s1 (with_hdr x (put8 (pt_hdr x) (k + i) (Z.shiftr v 8))) (k + (i + 1)) v); [done|exact Hpr|].
  change (hlen s1 (pt_mb (with_hdr x _))) with (hlen s (pt_mb x)). lia.
Qed.

Lemma rd8_part s x i :
  part_ok s x -> 0 <= i < hlen s (pt_mb x) -> rd8 s (rte_pktmbuf_mtod s (pt_mb x)) i = pt_hdr x !!! Z.to_nat i.
Proof.
  intros Hx Hi. pose proof (part_hdr_len s x Hx) as Hlen. destruct Hx as [[Hp Hh Hw] Hb Hm]. destruct (packet_head _ _ _ Hp) as [l El].
  rewrite El in Hb. change (seg_bytes s (pt_mb x) ++ bytes s l = pt_hdr x ++ pt_pay x) in Hb.
  assert (E : (seg_bytes s (pt_mb x) ++ bytes s l) !! Z.to_nat i = Some (rd8 s (rte_pktmbuf_mtod s (pt_mb x)) i)).
  { unfold seg_bytes. rewrite lookup_app_l by (rewrite length_read_bytes; lia). rewrite read_bytes_lookup by lia.
    unfold rd8, rte_pktmbuf_mtod. cbn [fst snd]. by rewrite Z2Nat.id by lia. }
  rewrite Hb, lookup_app_l in E by lia. symmetry. by apply list_lookup_total_correct.
Qed.

Lemma rd8_advance s a (k j : Z) : rd8 s (advance a k) j = rd8 s a (k + j).
Proof. unfold rd8, advance. cbn. by rewrite Z.add_assoc. Qed.

Lemma rd16_part s x k i :
  part_ok s x -> 0 <= k + i -> k + i + 1 < hlen s (pt_mb x) ->
  rd16be s (advance (rte_pktmbuf_mtod s (pt_mb x)) k) i = get16 (pt_hdr x) (k + i).
Proof.
  intros Hx H0 H1. unfold rd16be, get16. rewrite !rd8_advance, !rd8_part by (done || lia). by rewrite Z.add_assoc.
Qed.

(** [n] bytes, the first one lowest. *)
Fixpoint get_le (b : list Z) (i : Z) (n : nat) : Z :=
  match n with O => 0 | S n' => b !!! Z.to_nat i + 256 * get_le b (i + 1) n' end.

Lemma rdle_part s x k i n :
  part_ok s x -> 0 <= k + i -> k + i + Z.of_nat n <= hlen s (pt_mb x) ->
  rdle s (advance (rte_pktmbuf_mtod s (pt_mb x)) k) i n = get_le (pt_hdr x) (k + i) n.
Proof.
  intros Hx. revert i. induction n as [|n IH]; intros i H0 H1; [done|]. cbn [rdle get_le].
  rewrite rd8_advance, rd8_part, IH by (done || lia). by rewrite Z.add_assoc.
Qed.

(** ** The reassembled datagram *)

Lemma wr16be_frame a (i v : Z) s :
  mbufs (wr16be a i v s) = mbufs s /\ pools (wr16be a i v s) = pools s /\
  forall b o, b <> a.1 -> mem (wr16be a i v s) !!! (b, o) = mem s !!! (b, o).
Proof.
  split; [done|]. split; [done|]. intros b o Hb. unfold wr16be, wr8. cbn [mem].
  rewrite !lookup_total_insert_ne; [done|..]; intros [= E]; congruence.
Qed.

Lemma reassemble_spec e s x0 xs :
  holds e x0 xs -> parts s (x0 :: xs) ->
  (forall y, y ∈ concat (map pt_segs (x0 :: xs)) -> y <> pt_mb x0 -> buf_addr (mbuf s y) <> buf_addr (mbuf s (pt_mb x0))) ->
  0 <= l2_len (mbuf s (pt_mb x0)) -> 12 <= l3_len (mbuf s (pt_mb x0)) ->
  exists s', ipv4_frag_reassemble e s = Some (Some (pt_mb x0), s') /\
    part_ok s' (mkPart (pt_mb x0) (concat (map pt_segs (x0 :: xs)))
      (ipv4_whole (l2_len (mbuf s (pt_mb x0))) (l3_len (mbuf s (pt_mb x0))) (total_size e) (pt_hdr x0)) (concat (map pt_pay (x0 :: xs)))) /\
    rework (concat (map pt_segs (x0 :: xs))) s s' /\
    (forall b o, b <> buf_addr (mbuf s (pt_mb x0)) -> mem s' !!! (b, o) = mem s !!! (b, o)).
Proof.
  intros Hh Hps Hpriv H2 H3. destruct (frag_chain_spec e s x0 xs Hh Hps) as (s1 & E & Hx & Hrw & Hmem & Hkp).
  set (m := pt_mb x0) in *. set (x := join x0 xs) in *.
  assert (Emb : pt_mb x = m) by apply join_mb. assert (Ehd : pt_hdr x = pt_hdr x0) by apply join_mb.
  destruct (join_segs x0 xs) as [Esg Epy]. fold x in Esg, Epy.
  destruct (rw_meta _ _ _ Hrw m) as (Eb & _ & E2 & E3 & _).
  assert (Hpr : private s1 x).
  { destruct (packet_head _ _ _ (fg_packet _ _ _ _ (pa_frag _ _ Hx))) as [l El]. rewrite Emb in El. exists l. rewrite Emb. split; [done|].
    intros y Hy. destruct (rw_meta _ _ _ Hrw y) as (-> & _). rewrite Eb.
    pose proof (pk_nodup _ _ _ (fg_packet _ _ _ _ (pa_frag _ _ Hx))) as Hnd. rewrite El in Hnd. apply NoDup_cons in Hnd as [Hm _].
    apply Hpriv; [rewrite <- Esg, El; by right|]. by intros ->. }
  assert (Hhl : hlen s1 (pt_mb x) = l2_len (mbuf s m) + l3_len (mbuf s m)) by (unfold hlen; by rewrite Emb, E2, E3).
  unfold ipv4_frag_reassemble. rewrite E. cbn [mbind option_bind]. rewrite E2, E3. set (l2 := l2_len (mbuf s m)) in *. set (l3 := l3_len (mbuf s m)) in *.
  replace (rte_pktmbuf_mtod s1 m) with (rte_pktmbuf_mtod s1 (pt_mb x)) by (by rewrite Emb).
  set (a := rte_pktmbuf_mtod s1 (pt_mb x)).
  assert (Hx1 := part_wr16 s1 x l2 2 (u16 (total_size e + l3)) Hx Hpr ltac:(lia) ltac:(lia)). fold a in Hx1.
  set (s2 := wr16be _ 2 _ s1) in *. set (x1 := with_hdr x _) in Hx1.
  assert (Erd : rd16be s2 (advance a l2) 6 = get16 (pt_hdr x1) (l2 + 6)) by (apply (rd16_part s2 x1 l2 6 Hx1); [lia|change (l2 + 6 + 1 < hlen s1 (pt_mb x)); lia]).
  rewrite Erd. set (v := Z.land _ _).
  assert (Hx2 := part_wr16 s2 x1 l2 6 v Hx1 Hpr ltac:(lia) ltac:(change (l2 + 6 + 1 < hlen s1 (pt_mb x)); lia)).
  change (rte_pktmbuf_mtod s2 (pt_mb x1)) with a in Hx2. set (s3 := wr16be _ 6 _ s2) in *. set (x2 := with_hdr x1 _) in Hx2.
  assert (Hx3 := part_wr16 s3 x2 l2 10 0 Hx2 Hpr ltac:(lia) ltac:(change (l2 + 10 + 1 < hlen s1 (pt_mb x)); lia)).
  change (rte_pktmbuf_mtod s3 (pt_mb x2)) with a in Hx3. set (s4 := wr16be _ 10 _ s3) in *.
  exists s4. split; [done|]. split; [|split].
  - rewrite <- Esg, <- Epy, <- Ehd. rewrite <- Emb. exact Hx3.
  - destruct Hrw as [W1 W2 W3 W4]. constructor; done.
  - intros b o Hb. assert (Ha : (advance a l2).1 = buf_addr (mbuf s m)) by (cbn; by rewrite Emb).
    unfold s4, s3, s2. rewrite !(proj2 (proj2 (wr16be_frame _ _ _ _))) by congruence. by rewrite Hmem.
Qed.

End Header.
