(* ===== verification/IpFragEntry.v ===== *)
(** * IP reassembly: collecting the fragments of one datagram

    An entry that gets the fragments of a datagram, in any order;
    [ip_frag_process] waits for the last missing piece and then joins all of
    them. *)
From S2P Require Import Prelude Bits Mbuf MbufPacket IpFrag IpFragChain IpFragHeader.

(** ** Datagrams *)

(** A fragment with the values of its IP header: offset and length of the
    payload, and the flag that more fragments follow. *)
Record piece := mkPiece { pc_part : part; pc_ofs : Z; pc_len : Z; pc_more : Z }.

#[export] Instance part_eq_dec : EqDecision part.
Proof. solve_decision. Defined.
#[export] Instance piece_eq_dec : EqDecision piece.
Proof. solve_decision. Defined.

(** The pieces follow one another from offset [o] on. *)
Fixpoint contiguous (o : Z) (ps : list piece) : Prop :=
  match ps with [] => True | p :: ps' => pc_ofs p = o /\ 0 < pc_len p /\ contiguous (o + pc_len p) ps' end.

Definition sum_len (ps : list piece) : Z := fold_right (fun p n => pc_len p + n) 0 ps.

(** The first piece, the ones between, and the last one. *)
Definition pieces (p0 : piece) (ms : list piece) (pl : piece) : list piece := p0 :: ms ++ [pl].

Record datagram (p0 : piece) (ms : list piece) (pl : piece) : Prop := {
  dg_contig : contiguous 0 (pieces p0 ms pl);
  dg_num : (length ms <= 2)%nat;
  dg_more : pc_more p0 <> 0 /\ (forall p, p ∈ ms -> pc_more p <> 0) /\ pc_more pl = 0;
  dg_max : sum_len (pieces p0 ms pl) < 2 ^ 16 }.

Lemma contiguous_ofs o ps : contiguous o ps -> forall p, p ∈ ps -> o <= pc_ofs p /\ 0 < pc_len p.
Proof.
  revert o. induction ps as [|q ps IH]; intros o Hc p Hp; [by apply elem_of_nil in Hp|]. destruct Hc as (Eo & Hl & Hc).
  apply elem_of_cons in Hp as [->|Hp]; [lia|]. destruct (IH _ Hc p Hp). lia.
Qed.

Lemma contiguous_app o ps qs : contiguous o (ps ++ qs) <-> contiguous o ps /\ contiguous (o + sum_len ps) qs.
Proof.
  revert o. induction ps as [|p ps IH]; intros o; cbn; [rewrite Z.add_0_r; tauto|]. fold (sum_len ps).
  rewrite IH, Z.add_assoc. tauto.
Qed.

Lemma sum_len_app ps qs : sum_len (ps ++ qs) = sum_len ps + sum_len qs.
Proof. induction ps as [|p ps IH]; [done|]. cbn. fold (sum_len (ps ++ qs)) (sum_len ps). lia. Qed.

Lemma sum_len_perm ps qs : ps ≡ₚ qs -> sum_len ps = sum_len qs.
Proof. induction 1; cbn; unfold sum_len in *; lia. Qed.

Lemma sum_len_pos ps : (forall p, p ∈ ps -> 0 < pc_len p) -> 0 <= sum_len ps /\ (ps <> [] -> 0 < sum_len ps).
Proof.
  induction ps as [|p ps IH]; intros Hp; [done|]. cbn. fold (sum_len ps).
  destruct IH as [IH _]; [intros; apply Hp; by right|]. pose proof (Hp p ltac:(left)). split; [lia|intros _; lia].
Qed.

Section Datagram.
Context {p0 : piece} {ms : list piece} {pl : piece} (DG : datagram p0 ms pl).

Lemma dg_lens p : p ∈ pieces p0 ms pl -> 0 < pc_len p.
Proof. intros Hp. by eapply contiguous_ofs; [apply DG|]. Qed.

Lemma dg_first : pc_ofs p0 = 0.
Proof. apply DG. Qed.

Lemma dg_rest p : p ∈ ms ++ [pl] -> 0 < pc_ofs p.
Proof.
  intros Hp. destruct (dg_contig _ _ _ DG) as (_ & Hl & Hc). destruct (contiguous_ofs _ _ Hc p Hp). lia.
Qed.

Lemma dg_total : pc_ofs pl + pc_len pl = sum_len (pieces p0 ms pl).
Proof.
  destruct (dg_contig _ _ _ DG) as (_ & _ & Hc). apply contiguous_app in Hc as (_ & E & _).
  cbn. fold (sum_len (ms ++ [pl])). rewrite sum_len_app. cbn. lia.
Qed.

(** The three kinds of pieces. *)
Definition is_first (p : piece) : Prop := pc_ofs p = 0.
Definition is_last (p : piece) : Prop := pc_ofs p <> 0 /\ pc_more p = 0.
Definition is_mid (p : piece) : Prop := pc_ofs p <> 0 /\ pc_more p <> 0.

#[export] Instance is_first_dec p : Decision (is_first p).
Proof. unfold is_first. apply _. Defined.
#[export] Instance is_last_dec p : Decision (is_last p).
Proof. unfold is_last. apply _. Defined.
#[export] Instance is_mid_dec p : Decision (is_mid p).
Proof. unfold is_mid. apply _. Defined.

Lemma dg_kinds p :
  p ∈ pieces p0 ms pl ->
  (is_first p -> p = p0) /\ (is_last p -> p = pl) /\ (is_mid p -> p ∈ ms).
Proof.
  destruct (dg_more _ _ _ DG) as (M0 & Mm & Ml). intros [->|Hp]%elem_of_cons.
  - split; [done|]. unfold is_last, is_mid. rewrite dg_first. split; intros [? ?]; done.
  - pose proof (dg_rest p Hp) as Ho. apply elem_of_app in Hp as [Hp| ->%list_elem_of_singleton]; unfold is_first, is_last, is_mid.
    + split; [lia|]. split; [|done]. intros [_ E]. by apply Mm in Hp.
    + split; [lia|]. split; [done|]. intros [_ ?]. done.
Qed.

Lemma dg_nodup : NoDup (pieces p0 ms pl).
Proof.
  assert (H : forall o ps, contiguous o ps -> NoDup ps).
  { intros o ps. revert o. induction ps as [|p ps IH]; intros o Hc; [constructor|]. destruct Hc as (Eo & Hl & Hc).
    constructor; [|by eapply IH]. intros Hp. destruct (contiguous_ofs _ _ Hc p Hp). lia. }
  eapply H, DG.
Qed.

Lemma filter_first : filter is_first (pieces p0 ms pl) = [p0].
Proof.
  unfold pieces. rewrite filter_cons_True by apply dg_first. f_equal. apply elem_of_nil_inv. intros p Hp.
  apply (list_elem_of_filter is_first) in Hp as [Hf Hp]. pose proof (dg_rest p Hp). unfold is_first in Hf. lia.
Qed.

Lemma filter_last : filter is_last (pieces p0 ms pl) = [pl].
Proof.
  destruct (dg_more _ _ _ DG) as (M0 & Mm & Ml). unfold pieces. rewrite filter_cons_False by (intros [? ?]; by rewrite dg_first in *).
  rewrite filter_app. assert (E : filter is_last ms = []).
  { apply elem_of_nil_inv. intros p Hp. apply (list_elem_of_filter is_last) in Hp as [[_ Hf] Hp]. by apply Mm in Hp. }
  rewrite E, (filter_cons_True is_last pl); [done|]. split; [|done]. pose proof (dg_rest pl ltac:(set_solver)). lia.
Qed.

Lemma filter_mid : filter is_mid (pieces p0 ms pl) = ms.
Proof.
  destruct (dg_more _ _ _ DG) as (M0 & Mm & Ml). unfold pieces. rewrite filter_cons_False by (intros [? ?]; by rewrite dg_first in *).
  rewrite filter_app. rewrite (filter_cons_False is_mid pl) by (intros [_ ?]; done). rewrite filter_nil, app_nil_r.
  assert (Hall : forall p, p ∈ ms -> is_mid p).
  { intros p Hp. split; [|auto]. pose proof (dg_rest p ltac:(set_solver)). lia. }
  clear -Hall. induction ms as [|p ps IH]; [done|]. rewrite filter_cons_True by (apply Hall; left). f_equal.
  apply IH. intros. apply Hall. by right.
Qed.

End Datagram.

(** ** Entries *)

Definition slot (p : piece) : ip_frag := slot_of (pc_part p) (pc_ofs p) (pc_len p).

(** The entry after the pieces [got], in the order of their arrival. *)
Record entry_ok (e : ip_frag_pkt) (got : list piece) : Prop := {
  eo_len : length (frags e) = 4%nat;
  eo_first : frag e 1 = from_option slot zero_frag (head (filter is_first got));
  eo_last : frag e 0 = from_option slot zero_frag (head (filter is_last got));
  eo_mid : forall i p, filter is_mid got !! i = Some p -> frag e (2 + i) = slot p;
  eo_idx : last_idx e = 2 + Z.of_nat (length (filter is_mid got));
  eo_size : frag_size e = sum_len got;
  eo_total : total_size e = from_option (fun p => pc_ofs p + pc_len p) UINT32_MAX (head (filter is_last got)) }.

Lemma reset_entry_ok e tms : length (frags e) = 4%nat -> entry_ok (ip_frag_reset e tms) [].
Proof.
  intros Hl. destruct e as [k st ts fs li f]. cbn in Hl. do 4 (destruct f as [|? f]; [done|]). destruct f; [|done].
  by constructor.
Qed.

Section Process.
Context {P : Type} `{MP : !MbufPool P}.
Context {p0 : piece} {ms : list piece} {pl : piece} (DG : datagram p0 ms pl).
Implicit Types (s : mstate P) (e : ip_frag_pkt) (got rest : list piece).

(** [p] arrives after [got]; [rest] is still missing. *)
Definition arriving got p rest : Prop := pieces p0 ms pl ≡ₚ got ++ p :: rest.

Lemma arriving_in got p rest : arriving got p rest -> p ∈ pieces p0 ms pl.
Proof. intros Ha. rewrite Ha. set_solver. Qed.

(** One of a kind comes once. *)
Lemma arriving_once (f : piece -> Prop) `{!forall p, Decision (f p)} x got p rest :
  filter f (pieces p0 ms pl) = [x] -> arriving got p rest -> f p -> filter f got = [] /\ p = x.
Proof.
  intros E Ha Hp. assert (Hf : filter f (got ++ p :: rest) ≡ₚ [x]) by (rewrite <- E; apply filter_Permutation; by rewrite Ha).
  rewrite filter_app, filter_cons_True in Hf by done. apply Permutation_singleton_r in Hf.
  destruct (filter f got) as [|a l]; [|by destruct l]. cbn in Hf. by injection Hf as ->.
Qed.

Lemma mids_bound got p rest : arriving got p rest -> is_mid p -> (length (filter is_mid got) <= 1)%nat.
Proof.
  intros Ha Hp. assert (Hf : filter is_mid (got ++ p :: rest) ≡ₚ ms) by (rewrite <- (filter_mid DG); apply filter_Permutation; by rewrite Ha).
  rewrite filter_app, filter_cons_True in Hf by done. apply Permutation_length in Hf. rewrite length_app in Hf. cbn in Hf.
  pose proof (dg_num _ _ _ DG). lia.
Qed.

Lemma head_snoc {A} (f : A -> Prop) `{!forall p, Decision (f p)} (l : list A) (p : A) :
  head (filter f (l ++ [p])) = match head (filter f l) with Some x => Some x | None => if decide (f p) then Some p else None end.
Proof.
  rewrite filter_app. destruct (filter f l); [|done]. cbn. destruct (decide (f p)); by rewrite ?filter_cons_True, ?filter_cons_False.
Qed.

(** The entry with the new piece. *)
Definition entry_with e (idx tsize lidx : Z) (p : piece) : ip_frag_pkt :=
  mkPkt (key e) (start e) tsize (u32 (frag_size e + pc_len p)) lidx (<[Z.to_nat idx := slot p]> (frags e)).

Lemma slot_entry_ok e got p rest :
  entry_ok e got -> arriving got p rest ->
  exists idx tsize lidx, frag_slot e (pc_ofs p) (pc_len p) (pc_more p) = (idx, tsize, lidx) /\ 0 <= idx < 4 /\
    entry_ok (entry_with e idx tsize lidx p) (got ++ [p]).
Proof.
  intros [O1 O2 O3 O4 O5 O6 O7] Ha. pose proof (arriving_in _ _ _ Ha) as Hp.
  assert (Hsum : u32 (frag_size e + pc_len p) = sum_len (got ++ [p])).
  { rewrite O6, sum_len_app. cbn. rewrite Z.add_0_r. apply u32_small.
    pose proof (sum_len_perm _ _ Ha) as E. rewrite sum_len_app in E. change (sum_len (p :: rest)) with (pc_len p + sum_len rest) in E. pose proof (dg_max _ _ _ DG).
    assert (0 <= sum_len got) by (apply sum_len_pos; intros q Hq; apply (dg_lens DG); rewrite Ha; set_solver).
    assert (0 <= sum_len rest) by (apply sum_len_pos; intros q Hq; apply (dg_lens DG); rewrite Ha; set_solver).
    pose proof (dg_lens DG p Hp). lia. }
  assert (Hfr : forall i j ts li (q : ip_frag), (i < 4)%nat ->
    frag (mkPkt (key e) (start e) ts (u32 (frag_size e + pc_len p)) li (<[i := q]> (frags e))) j = if decide (j = i) then q else frag e j).
  { intros i j ts li q Hi. unfold frag. cbn [frags]. case_decide as E; [subst j|by rewrite list_lookup_total_insert_ne].
    apply list_lookup_total_insert_eq. lia. }
  unfold frag_slot, IP_FIRST_FRAG_IDX, IP_LAST_FRAG_IDX, IP_MAX_FRAG_NUM. destruct (Z.eqb_spec (pc_ofs p) 0) as [E0|E0].
  - destruct (arriving_once is_first p0 got p rest (filter_first DG) Ha E0) as [Hno ->].
    rewrite O2, Hno. cbn [head from_option zero_frag mb]. eexists _, _, _. split; [reflexivity|]. split; [lia|].
    assert (Hnl : ~ is_last p0) by (intros [? _]; done). assert (Hnm : ~ is_mid p0) by (intros [? _]; done).
    unfold entry_with. change (Z.to_nat (Z.of_nat 1)) with 1%nat.
    constructor; rewrite ?Hfr by lia; rewrite ?head_snoc, ?filter_app, ?(filter_cons_False is_mid), ?filter_nil, ?app_nil_r by done.
    + cbn. by rewrite length_insert.
    + rewrite decide_True by done. rewrite Hno. cbn. by rewrite decide_True.
    + rewrite decide_False by done. rewrite O3, (decide_False (P := is_last p0)) by done. by destruct (head (filter is_last got)).
    + intros i q Hq. rewrite Hfr by lia. rewrite decide_False by lia. auto.
    + done.
    + done.
    + cbn [total_size]. rewrite O7, (decide_False (P := is_last p0)) by done. by destruct (head (filter is_last got)).
  - destruct (Z.eqb_spec (pc_more p) 0) as [E1|E1].
    + assert (Hl : is_last p) by done. destruct (arriving_once is_last pl got p rest (filter_last DG) Ha Hl) as [Hno ->].
      rewrite O3, Hno. cbn [head from_option zero_frag mb]. eexists _, _, _. split; [reflexivity|]. split; [lia|].
      assert (Hnf : ~ is_first pl) by done. assert (Hnm : ~ is_mid pl) by (intros [_ ?]; done).
      unfold entry_with. change (Z.to_nat (Z.of_nat 0)) with 0%nat.
      constructor; rewrite ?Hfr by lia; rewrite ?head_snoc, ?filter_app, ?(filter_cons_False is_mid), ?filter_nil, ?app_nil_r by done.
      * cbn. by rewrite length_insert.
      * rewrite decide_False by done. rewrite O2, (decide_False (P := is_first pl)) by done. by destruct (head (filter is_first got)).
      * rewrite decide_True by done. rewrite Hno. cbn. by rewrite decide_True.
      * intros i q Hq. rewrite Hfr by lia. rewrite decide_False by lia. auto.
      * done.
      * done.
      * cbn [total_size]. rewrite Hno. cbn [head]. rewrite decide_True by done. cbn. apply u32_small.
        pose proof (dg_total DG). pose proof (dg_max _ _ _ DG). pose proof (dg_rest DG pl ltac:(set_solver)). pose proof (dg_lens DG pl Hp). lia.
    + assert (Hm : is_mid p) by done. pose proof (mids_bound got p rest Ha Hm) as Hb.
      assert (Hnf : ~ is_first p) by done. assert (Hnl : ~ is_last p) by (intros [_ ?]; done).
      rewrite (proj2 (Z.ltb_lt (last_idx e) 4)) by lia. eexists _, _, _. split; [reflexivity|]. split; [lia|].
      unfold entry_with. rewrite O5. replace (Z.to_nat (2 + Z.of_nat (length (filter is_mid got)))) with (2 + length (filter is_mid got))%nat by lia.
      constructor; rewrite ?Hfr by lia; rewrite ?head_snoc, ?filter_app, ?(filter_cons_True is_mid), ?filter_nil by done.
      * cbn. by rewrite length_insert.
      * rewrite decide_False by lia. rewrite O2, (decide_False (P := is_first p)) by done. by destruct (head (filter is_first got)).
      * rewrite decide_False by lia. rewrite O3, (decide_False (P := is_last p)) by done. by destruct (head (filter is_last got)).
      * intros i q Hq. rewrite Hfr by lia. apply lookup_app_Some in Hq as [Hq|[Hi Hq]].
        -- apply lookup_lt_Some in Hq as Hlt. rewrite decide_False by lia. auto.
        -- destruct (i - length (filter is_mid got))%nat eqn:Ei; [|done]. cbn in Hq. injection Hq as ->. by rewrite decide_True by lia.
      * cbn [last_idx]. rewrite length_app. cbn. lia.
      * done.
      * cbn [total_size]. rewrite O7, (decide_False (P := is_last p)) by done. by destruct (head (filter is_last got)).
Qed.

End Process.

Section Process.
Context {P : Type} `{MP : !MbufPool P}.
Context {p0 : piece} {ms : list piece} {pl : piece} (DG : datagram p0 ms pl).
Implicit Types (s : mstate P) (e : ip_frag_pkt) (got rest : list piece).

Lemma entry_last_done e got rest :
  entry_ok e got -> pieces p0 ms pl ≡ₚ got ++ rest -> rest <> [] -> frag_size e < total_size e.
Proof.
  intros He Ha Hr. rewrite (eo_size _ _ He), (eo_total _ _ He). pose proof (sum_len_perm _ _ Ha) as E. rewrite sum_len_app in E.
  assert (Hpos : forall q, q ∈ got ++ rest -> 0 < pc_len q) by (intros q Hq; apply (dg_lens DG); by rewrite Ha).
  destruct (sum_len_pos rest) as [_ Hrp]; [intros; apply Hpos; set_solver|]. specialize (Hrp Hr).
  pose proof (dg_max _ _ _ DG). destruct (filter is_last got) as [|q l] eqn:Ef; cbn [head from_option].
  - unfold UINT32_MAX. lia.
  - assert (Hq : q ∈ filter is_last got) by (rewrite Ef; left). apply (list_elem_of_filter is_last) in Hq as [Hl Hq].
    assert (Hin : q ∈ pieces p0 ms pl) by (rewrite Ha; set_solver).
    destruct (dg_kinds DG q Hin) as (_ & E2 & _). rewrite (E2 Hl), (dg_total DG). lia.
Qed.

Lemma filter_whole (f : piece -> Prop) `{!forall p, Decision (f p)} got l :
  filter f (pieces p0 ms pl) = l -> pieces p0 ms pl ≡ₚ got -> filter f got ≡ₚ l.
Proof. intros <- Ha. symmetry. by apply filter_Permutation. Qed.

(** The entry of a complete datagram. *)
Lemma entry_holds e got :
  entry_ok e got -> pieces p0 ms pl ≡ₚ got ->
  holds e (pc_part p0) (map pc_part (ms ++ [pl])) /\ total_size e = sum_len (pieces p0 ms pl) /\ frag_size e = total_size e.
Proof.
  intros [O1 O2 O3 O4 O5 O6 O7] Ha.
  assert (F1 := proj1 (Permutation_singleton_r _ _) (filter_whole is_first got _ (filter_first DG) Ha)).
  assert (F0 := proj1 (Permutation_singleton_r _ _) (filter_whole is_last got _ (filter_last DG) Ha)).
  assert (Fm := filter_whole is_mid got _ (filter_mid DG) Ha).
  rewrite F1 in O2. rewrite F0 in O3, O7. cbn in O2, O3, O7.
  assert (Et : total_size e = sum_len (pieces p0 ms pl)) by (rewrite O7; apply (dg_total DG)).
  split; [|split; [done|rewrite Et, O6; symmetry; by apply sum_len_perm]].
  rewrite (Permutation_length Fm) in O5. pose proof (dg_contig _ _ _ DG) as Hc. pose proof (dg_num _ _ _ DG) as Hn. pose proof (dg_max _ _ _ DG) as Hmx.
  unfold slot in *. destruct ms as [|pa [|pb [|? ?]]]; [| | |cbn in Hn; lia]; cbn in Hc, O5, Hmx; destruct_and? Hc; cbn [map app].
  - apply (Holds2 e (pc_part p0) (pc_part pl) (pc_len p0) (pc_len pl)); [done| |]; rewrite ?O2, ?O3; f_equal; lia.
  - apply Permutation_singleton_r in Fm. pose proof (O4 0%nat pa ltac:(by rewrite Fm)) as Oa. change (2 + 0)%nat with 2%nat in Oa.
    apply (Holds3 e (pc_part p0) (pc_part pa) (pc_part pl) (pc_len p0) (pc_len pa) (pc_len pl));
      rewrite ?O2, ?O3, ?Oa; try lia; f_equal; lia.
  - assert (O23 : frag e 2 = slot pa /\ frag e 3 = slot pb \/ frag e 2 = slot pb /\ frag e 3 = slot pa).
    { symmetry in Fm. apply Permutation_length_2_inv in Fm as [Fm|Fm]; [left|right];
        split; [apply (O4 0%nat)|apply (O4 1%nat)| apply (O4 0%nat)|apply (O4 1%nat)]; by rewrite Fm. }
    unfold slot in O23.
    apply (Holds4 e (pc_part p0) (pc_part pa) (pc_part pb) (pc_part pl) (pc_len p0) (pc_len pa) (pc_len pb) (pc_len pl));
      rewrite ?O2, ?O3; try lia; try (f_equal; lia).
    destruct O23 as [[-> ->]|[-> ->]]; [left|right]; split; f_equal; lia.
Qed.

(** ** One more piece *)

Lemma process_step e dr got p rest s :
  entry_ok e got -> arriving (p0 := p0) (ms := ms) (pl := pl) got p rest -> 
  exists e', entry_ok e' (got ++ [p]) /\ key e' = key e /\ start e' = start e /\
    ip_frag_process e dr (pt_mb (pc_part p)) (pc_ofs p) (pc_len p) (pc_more p) s =
      if frag_size e' <? total_size e' then Some (None, e', dr, s)
      else
        '(res, s) ←
          (if (frag_size e' =? total_size e') && bool_decide (is_Some (mb (frag e' IP_FIRST_FRAG_IDX))) then
             if key_len (key e) =? IPV4_KEYLEN then ipv4_frag_reassemble e' s else ipv6_frag_reassemble e' s
           else Some (None, s));
        let '(e', dr) := match res with None => ip_frag_free e' dr | Some _ => (e', dr) end in
        Some (res, set_key (ip_frag_key_invalidate (key e')) e', dr, s).
Proof.
  intros He Ha. destruct (slot_entry_ok DG e got p rest He Ha) as (idx & tsize & lidx & E & Hi & He').
  exists (entry_with e idx tsize lidx p). split; [done|]. split; [done|]. split; [done|].
  unfold ip_frag_process. rewrite E. unfold IP_MAX_FRAG_NUM. by rewrite (proj2 (Z.leb_gt 4 idx)) by lia.
Qed.

(** Not the last one. *)
Lemma process_more e dr got p rest s :
  entry_ok e got -> arriving (p0 := p0) (ms := ms) (pl := pl) got p rest -> rest <> [] ->
  exists e', ip_frag_process e dr (pt_mb (pc_part p)) (pc_ofs p) (pc_len p) (pc_more p) s = Some (None, e', dr, s) /\
    entry_ok e' (got ++ [p]) /\ key e' = key e /\ start e' = start e.
Proof.
  intros He Ha Hr. destruct (process_step e dr got p rest s He Ha) as (e' & He' & Hk & Hs & E). exists e'. split; [|done].
  assert (Hlt := entry_last_done e' (got ++ [p]) rest He' ltac:(by rewrite <- app_assoc) Hr).
  rewrite E. by rewrite (proj2 (Z.ltb_lt _ _) Hlt).
Qed.

(** The conditions on the mbufs of the pieces. *)
Record mbufs_ok s : Prop := {
  mo_parts : parts s (map pc_part (pieces p0 ms pl));
  mo_private : forall y, y ∈ concat (map pt_segs (map pc_part (pieces p0 ms pl))) -> y <> pt_mb (pc_part p0) ->
    buf_addr (mbuf s y) <> buf_addr (mbuf s (pt_mb (pc_part p0)));
  mo_hdr : 0 <= l2_len (mbuf s (pt_mb (pc_part p0))) /\ 12 <= l3_len (mbuf s (pt_mb (pc_part p0))) }.

(** The datagram as one packet. *)
Definition whole s : part :=
  let r := mbuf s (pt_mb (pc_part p0)) in
  mkPart (pt_mb (pc_part p0)) (concat (map pt_segs (map pc_part (pieces p0 ms pl))))
    (ipv4_whole (l2_len r) (l3_len r) (sum_len (pieces p0 ms pl)) (pt_hdr (pc_part p0)))
    (concat (map pt_pay (map pc_part (pieces p0 ms pl)))).

(** The last one. *)
Lemma process_last e dr got p s :
  entry_ok e got -> arriving (p0 := p0) (ms := ms) (pl := pl) got p [] -> key_len (key e) = IPV4_KEYLEN -> mbufs_ok s ->
  exists e' s', ip_frag_process e dr (pt_mb (pc_part p)) (pc_ofs p) (pc_len p) (pc_more p) s =
      Some (Some (pt_mb (pc_part p0)), e', dr, s') /\
    length (frags e') = 4%nat /\ key e' = ip_frag_key_invalidate (key e) /\ part_ok s' (whole s) /\
    rework (pt_segs (whole s)) s s' /\
    (forall b o, b <> buf_addr (mbuf s (pt_mb (pc_part p0))) -> mem s' !!! (b, o) = mem s !!! (b, o)).
Proof.
  intros He Ha Hk [Hps Hpr [H2 H3]]. destruct (process_step e dr got p [] s He Ha) as (e' & He' & Hke & Hs & E).
  destruct (entry_holds e' (got ++ [p]) He' Ha) as (Hh & Ht & Hf).
  destruct (reassemble_spec e' s _ _ Hh Hps Hpr H2 H3) as (s' & Er & Hpt & Hrw & Hmem).
  exists (set_key (ip_frag_key_invalidate (key e')) e'), s'. split; [|split; [apply He'|]].
  - rewrite E, Hf, Z.ltb_irrefl, Z.eqb_refl, Hk. cbn [andb Z.eqb IPV4_KEYLEN].
    rewrite bool_decide_eq_true_2; [|destruct Hh as [? ? ? ? E1|? ? ? ? ? ? ? E1|? ? ? ? ? ? ? ? ? ? E1]; unfold IP_FIRST_FRAG_IDX; rewrite E1; by eexists].
    by rewrite Er.
  - rewrite <- Hke. split; [done|]. unfold whole. rewrite <- Ht. done.
Qed.

End Process.
