(* ===== verification/IpFragTable.v ===== *)
(** * IP reassembly: the table of entries

    The table as a map from keys to entries: the invariant, the search in the
    two buckets of a key, and adding, deleting and renewing entries. *)
From S2P Require Import Prelude Bits Mbuf IpFrag.

(** ** Keys *)

Lemma u32_testbit x n : 0 <= n -> Z.testbit (u32 x) n = (n <? 32) && Z.testbit x n.
Proof.
  intros Hn. unfold u32, wrap. rewrite <- Z.land_ones, Z.land_spec by lia. rewrite Z.testbit_ones by lia.
  destruct (Z.ltb_spec n 32); rewrite ?(proj2 (Z.leb_le 0 n)) by lia; cbn; by rewrite ?andb_true_r, ?andb_false_r.
Qed.

Lemma u32_zero_bits x : u32 x = 0 <-> forall n, 0 <= n < 32 -> Z.testbit x n = false.
Proof.
  split.
  - intros E n Hn. pose proof (u32_testbit x n ltac:(lia)) as Ht. rewrite E, Z.bits_0, (proj2 (Z.ltb_lt n 32)) in Ht by lia. done.
  - intros Hb. apply Z.bits_inj'. intros n Hn. rewrite u32_testbit, Z.bits_0 by done. destruct (Z.ltb_spec n 32); [|done]. cbn. auto.
Qed.

Lemma u32_lor_zero x y : u32 (Z.lor x y) = 0 <-> u32 x = 0 /\ u32 y = 0.
Proof.
  rewrite !u32_zero_bits. split.
  - intros Hb. split; intros n Hn; specialize (Hb n Hn); rewrite Z.lor_spec in Hb; apply orb_false_iff in Hb as [? ?]; done.
  - intros [H1 H2] n Hn. by rewrite Z.lor_spec, H1, H2.
Qed.

Lemma u32_lxor_zero x y : u32 (Z.lxor x y) = 0 <-> u32 x = u32 y.
Proof.
  rewrite u32_zero_bits. split.
  - intros Hb. apply Z.bits_inj'. intros n Hn. rewrite !u32_testbit by done. destruct (Z.ltb_spec n 32); [|done]. cbn.
    specialize (Hb n ltac:(lia)). rewrite Z.lxor_spec in Hb. by apply xorb_eq in Hb.
  - intros E n Hn. rewrite Z.lxor_spec. pose proof (u32_testbit x n ltac:(lia)) as H1. pose proof (u32_testbit y n ltac:(lia)) as H2.
    rewrite (proj2 (Z.ltb_lt n 32)) in H1, H2 by lia. cbn in H1, H2. rewrite <- H1, <- H2, E. apply xorb_nilpotent.
Qed.

Lemma u32_idem x : u32 (u32 x) = u32 x.
Proof. apply u32_small, u32_range. Qed.

(** What the comparison of keys compares. *)
Lemma key_cmp_zero k1 k2 :
  ip_frag_key_cmp k1 k2 = 0 <->
  u32 (key_id k1) = u32 (key_id k2) /\
  forall i, (i < Z.to_nat (key_len k1))%nat -> u32 (src_dst k1 !!! i) = u32 (src_dst k2 !!! i).
Proof.
  unfold ip_frag_key_cmp. set (f := fun val i => _). set (n := Z.to_nat (key_len k1)).
  assert (Hf : forall l v, u32 (fold_left f l v) = 0 <-> u32 v = 0 /\ forall i, i ∈ l -> u32 (src_dst k1 !!! i) = u32 (src_dst k2 !!! i)).
  { induction l as [|i l IH]; intros v; cbn [fold_left].
    - split; [intros E; split; [done|intros i Hi; by apply elem_of_nil in Hi]|tauto].
    - rewrite IH. unfold f. rewrite u32_idem, u32_lor_zero, u32_lxor_zero. setoid_rewrite elem_of_cons. split.
      + intros [[Hv E] Hl]. split; [done|]. intros j [->|Hj]; auto.
      + intros [Hv Hl]. split; [split; [done|apply Hl; by left]|]. intros j Hj. apply Hl. by right. }
  assert (Hu : forall l v, u32 v = v -> u32 (fold_left f l v) = fold_left f l v).
  { induction l as [|i l IH]; intros v Hv; cbn [fold_left]; [done|]. apply IH. unfold f. apply u32_idem. }
  rewrite <- Hu by apply u32_idem. rewrite Hf, u32_idem, u32_lxor_zero. setoid_rewrite elem_of_seq. split; intros [E Hl]; (split; [done|]); intros i Hi; apply Hl; lia.
Qed.

(** Keys that name the same datagram. *)
Definition keq (k1 k2 : ip_frag_key) : Prop :=
  key_len k1 = key_len k2 /\ key_id k1 = key_id k2 /\
  forall i, (i < Z.to_nat (key_len k1))%nat -> src_dst k1 !!! i = src_dst k2 !!! i.

#[export] Instance keq_equiv : Equivalence keq.
Proof.
  split.
  - intros k. by split_and!.
  - intros k1 k2 (E1 & E2 & E3). split_and!; [done..|]. intros i Hi. symmetry. apply E3. by rewrite E1.
  - intros k1 k2 k3 (E1 & E2 & E3) (F1 & F2 & F3). split_and!; [congruence..|]. intros i Hi. rewrite E3 by done. apply F3. by rewrite <- E1.
Qed.

Lemma keq_cmp k1 k2 : keq k1 k2 -> ip_frag_key_cmp k1 k2 = 0.
Proof. intros (E1 & E2 & E3). apply key_cmp_zero. split; [by rewrite E2|]. intros i Hi. by rewrite E3. Qed.

(** A set of keys which the comparison can tell apart: it sees the low 32 bits
    of each word only, and a key that is zero there looks like a free entry. *)
Record key_space (kl : Z) (K : ip_frag_key -> Prop) : Prop := {
  ks_kl : kl = IPV4_KEYLEN \/ kl = IPV6_KEYLEN;
  ks_len : forall k, K k -> key_len k = kl /\ length (src_dst k) = 4%nat;
  ks_sep : forall k1 k2, K k1 -> K k2 -> ip_frag_key_cmp k1 k2 = 0 -> keq k1 k2;
  ks_proper : forall k, K k -> exists i, (i < Z.to_nat kl)%nat /\ u32 (src_dst k !!! i) <> 0 }.

(** The IPv4 fragments for one destination address, from other sources than
    0.0.0.0. *)
Definition host_keys (dst : Z) (k : ip_frag_key) : Prop :=
  key_len k = IPV4_KEYLEN /\ length (src_dst k) = 4%nat /\ 0 <= key_id k < 2 ^ 16 /\
  exists src, 0 < src < 2 ^ 32 /\ src_dst k !!! 0%nat = src + 2 ^ 32 * dst.

Lemma host_key_space dst : key_space IPV4_KEYLEN (host_keys dst).
Proof.
  constructor.
  - by left.
  - intros k Hk. split; apply Hk.
  - intros k1 k2 (L1 & _ & I1 & a & Ha & A1) (L2 & _ & I2 & b & Hb & B1) E. apply key_cmp_zero in E as [Ei Ew].
    rewrite !u32_small in Ei by lia. rewrite L1 in Ew. specialize (Ew 0%nat ltac:(change (0 < 1)%nat; lia)).
    rewrite A1, B1, (Z.mul_comm (2 ^ 32)), !u32_add_multiple, !u32_small in Ew by lia. subst b.
    split_and!; [congruence|done|]. rewrite L1. change (Z.to_nat IPV4_KEYLEN) with 1%nat. intros i Hi. replace i with 0%nat by lia. congruence.
  - intros k (L & _ & _ & a & Ha & A1). exists 0%nat. split; [change (0 < 1)%nat; lia|]. rewrite A1, (Z.mul_comm (2 ^ 32)), u32_add_multiple, u32_small by lia. lia.
Qed.

(** ** The search *)

Section Search.
Context `{FragHash}.
Implicit Types (t : rte_ip_frag_tbl) (k : ip_frag_key).

Definition key_hash k : Z * Z := if key_len k =? IPV4_KEYLEN then ipv4_frag_hash k else ipv6_frag_hash k.

(** The two buckets of a key, in the order of the search. *)
Definition bucket_pair (p1 p2 : Z) (n : nat) (i : Z) : list Z := seqZ i (Z.of_nat n) ≫= fun j => [p1 + j; p2 + j].
Definition cands t k : list Z :=
  bucket_pair (IP_FRAG_TBL_POS t (key_hash k).1) (IP_FRAG_TBL_POS t (key_hash k).2) (Z.to_nat (bucket_entries t)) 0.

(** The loop over a list of entries. *)
Fixpoint scan t k (tms : Z) (l : list Z) (empty old : option Z) : Z + option Z * option Z :=
  match l with
  | [] => inr (empty, old)
  | fp :: l' => match probe t k tms fp empty old with inl fp => inl fp | inr (empty, old) => scan t k tms l' empty old end
  end.

Lemma lookup_loop_scan t k tms p1 p2 n i empty old :
  lookup_loop t k tms p1 p2 n i empty old = scan t k tms (bucket_pair p1 p2 n i) empty old.
Proof.
  revert i empty old. induction n as [|n IH]; intros i empty old; [done|]. cbn [lookup_loop].
  unfold bucket_pair. rewrite seqZ_cons by lia. cbn [mbind list_bind app scan].
  destruct (probe t k tms (p1 + i) empty old) as [|[e1 o1]]; [done|]. destruct (probe t k tms (p2 + i) e1 o1) as [|[e2 o2]]; [done|].
  rewrite IH. unfold bucket_pair. by replace (Z.pred (Z.of_nat (S n))) with (Z.of_nat n) by lia.
Qed.

Lemma lookup_scan t k tms :
  ip_frag_lookup t k tms =
  match last_used t with
  | Some l => if ip_frag_key_cmp k (key (entry t l)) =? 0 then inl l else scan t k tms (cands t k) None None
  | None => scan t k tms (cands t k) None None
  end.
Proof.
  unfold ip_frag_lookup, cands, key_hash. destruct (key_len k =? IPV4_KEYLEN);
    [destruct (ipv4_frag_hash k)|destruct (ipv6_frag_hash k)]; cbn [fst snd]; by rewrite !lookup_loop_scan.
Qed.

Definition free_at t fp : Prop := ip_frag_key_is_empty (key (entry t fp)) = true.
Definition stale_at t tms fp : Prop := ip_frag_key_is_empty (key (entry t fp)) = false /\ timed_out t fp tms = true.

(** [o] is an element of [l] with [Q], if there is one. *)
Definition picked (Q : Z -> Prop) (l : list Z) (o : option Z) : Prop :=
  match o with Some x => x ∈ l /\ Q x | None => forall x, x ∈ l -> ~ Q x end.

Lemma picked_snoc (Q : Z -> Prop) l o x :
  picked Q l o -> 
  (Q x -> picked Q (l ++ [x]) (match o with None => Some x | Some _ => o end)) /\ (~ Q x -> picked Q (l ++ [x]) o).
Proof.
  destruct o as [y|]; cbn; setoid_rewrite elem_of_app; setoid_rewrite list_elem_of_singleton; [naive_solver|].
  intros Hl. split; [intros Hx; by split; [right|]|]. intros Hx y [Hy| ->]; auto.
Qed.

Lemma scan_spec t k tms l : forall acc empty old,
  (forall x, x ∈ acc -> ip_frag_key_cmp k (key (entry t x)) <> 0) ->
  picked (free_at t) acc empty -> picked (stale_at t tms) acc old ->
  match scan t k tms l empty old with
  | inl fp => fp ∈ l /\ ip_frag_key_cmp k (key (entry t fp)) = 0
  | inr (free, stale) =>
      (forall x, x ∈ acc ++ l -> ip_frag_key_cmp k (key (entry t x)) <> 0) /\
      picked (free_at t) (acc ++ l) free /\ picked (stale_at t tms) (acc ++ l) stale
  end.
Proof.
  induction l as [|fp l IH]; intros acc empty old Hn He Ho; cbn [scan]; [by rewrite app_nil_r|].
  unfold probe. destruct (Z.eqb_spec (ip_frag_key_cmp k (key (entry t fp))) 0) as [E|E]; [split; [left|done]|].
  destruct (picked_snoc _ _ _ fp He) as [He1 He2], (picked_snoc _ _ _ fp Ho) as [Ho1 Ho2].
  assert (Hn' : forall x, x ∈ acc ++ [fp] -> ip_frag_key_cmp k (key (entry t x)) <> 0).
  { intros x. rewrite elem_of_app, list_elem_of_singleton. intros [?| ->]; auto. }
  assert (Hgo : forall empty' old', picked (free_at t) (acc ++ [fp]) empty' -> picked (stale_at t tms) (acc ++ [fp]) old' ->
    match scan t k tms l empty' old' with
    | inl x => x ∈ fp :: l /\ ip_frag_key_cmp k (key (entry t x)) = 0
    | inr (free, stale) =>
        (forall x, x ∈ acc ++ fp :: l -> ip_frag_key_cmp k (key (entry t x)) <> 0) /\
        picked (free_at t) (acc ++ fp :: l) free /\ picked (stale_at t tms) (acc ++ fp :: l) stale
    end).
  { intros empty' old' He' Ho'. specialize (IH _ _ _ Hn' He' Ho'). rewrite <- app_assoc in IH.
    destruct (scan t k tms l empty' old') as [x|[? ?]]; [|done]. destruct IH. split; [by right|done]. }
  unfold free_at, stale_at in *. destruct (ip_frag_key_is_empty _) eqn:Ef.
  - apply Hgo; [by apply He1|]. apply Ho2. intros [? _]. done.
  - destruct (timed_out t fp tms) eqn:Et; apply Hgo; [apply He2|apply Ho1|apply He2|apply Ho2]; try done. intros [_ ?]. done.
Qed.

Lemma cands_keq t k1 k2 : length (src_dst k1) = 4%nat -> length (src_dst k2) = 4%nat ->
  key_len k1 = IPV4_KEYLEN \/ key_len k1 = IPV6_KEYLEN -> keq k1 k2 -> cands t k1 = cands t k2.
Proof.
  intros L1 L2 Hl (E1 & E2 & E3). assert (E : key_hash k1 = key_hash k2); [|unfold cands; by rewrite E].
  unfold key_hash. rewrite <- E1. unfold ipv4_frag_hash, ipv6_frag_hash. rewrite <- E2.
  destruct k1 as [[|a1 [|a2 [|a3 [|a4 [|]]]]] i1 l1], k2 as [[|b1 [|b2 [|b3 [|b4 [|]]]]] i2 l2]; try done.
  cbn [src_dst key_id key_len] in *. destruct Hl as [-> | ->].
  - pose proof (E3 0%nat ltac:(change (0 < 1)%nat; lia)) as Ea. cbn in Ea. by subst.
  - change (Z.to_nat IPV6_KEYLEN) with 4%nat in E3. pose proof (E3 0%nat ltac:(lia)) as Ea. pose proof (E3 1%nat ltac:(lia)) as Eb.
    pose proof (E3 2%nat ltac:(lia)) as Ec. pose proof (E3 3%nat ltac:(lia)) as Ed. cbn in Ea, Eb, Ec, Ed. by subst.
Qed.

End Search.

(** ** The invariant *)

Section Table.
Context `{FragHash} {kl : Z} {K : ip_frag_key -> Prop} (KS : key_space kl K).
Implicit Types (t : rte_ip_frag_tbl) (k : ip_frag_key) (e : ip_frag_pkt) (dr : death_row).

(** Four fragments and four words. *)
Definition shaped e : Prop := length (frags e) = 4%nat /\ length (src_dst (key e)) = 4%nat.
(** The words that count are zero. *)
Definition blank e : Prop :=
  ip_frag_key_is_empty (key e) = true /\ forall i, (i < Z.to_nat kl)%nat -> src_dst (key e) !!! i = 0.

Record table_ok t : Prop := {
  to_max : 0 < max_entries t < 2 ^ 32;
  to_use : use_entries t = Z.of_nat (length (lru t));
  to_full : Z.of_nat (length (lru t)) <= max_entries t;
  to_nodup : NoDup (lru t);
  to_shape : forall fp, shaped (entry t fp);
  to_live : forall fp, fp ∈ lru t ->
    K (key (entry t fp)) /\ fp ∈ cands t (key (entry t fp)) /\ 2 <= last_idx (entry t fp) <= 4;
  to_blank : forall fp, fp ∉ lru t -> blank (entry t fp);
  to_one : forall fp fq, fp ∈ lru t -> fq ∈ lru t -> keq (key (entry t fp)) (key (entry t fq)) -> fp = fq }.

(** The entry of a key. *)
Definition has_entry t k fp : Prop := fp ∈ lru t /\ keq k (key (entry t fp)).

Lemma kl_pos : 1 <= kl <= 4.
Proof. destruct (ks_kl _ _ KS) as [-> | ->]; unfold IPV4_KEYLEN, IPV6_KEYLEN; lia. Qed.

(** The words that decide whether a key is empty. *)
Lemma key_empty_words k :
  length (src_dst k) = 4%nat -> 0 <= key_len k <= 4 ->
  ip_frag_key_is_empty k = true <-> forall i, (i < Z.to_nat (key_len k))%nat -> src_dst k !!! i = 0.
Proof.
  intros Hl Hn. unfold ip_frag_key_is_empty. rewrite Z.min_l, forallb_forall by lia. setoid_rewrite <- list_elem_of_In.
  setoid_rewrite Z.eqb_eq. split.
  - intros Hz i Hi. apply Hz. apply list_elem_of_lookup. exists i. rewrite lookup_take_lt by done. apply list_lookup_lookup_total_lt. lia.
  - intros Hz w Hw. apply list_elem_of_lookup in Hw as [i Hi]. assert (i < Z.to_nat (key_len k))%nat.
    { apply lookup_lt_Some in Hi. rewrite length_take in Hi. lia. }
    rewrite lookup_take_lt in Hi by done. rewrite <- (Hz i) by done. symmetry. by apply list_lookup_total_correct.
Qed.

Lemma proper_not_empty k : K k -> ip_frag_key_is_empty k = false.
Proof.
  intros Hk. apply not_true_is_false. intros E. destruct (ks_len _ _ KS k Hk) as [El Hl]. pose proof kl_pos.
  rewrite key_empty_words in E by (rewrite ?El; lia). destruct (ks_proper _ _ KS k Hk) as (i & Hi & Hw). apply Hw. by rewrite E by (by rewrite El).
Qed.

Lemma proper_cmp_blank k e : K k -> blank e -> ip_frag_key_cmp k (key e) <> 0.
Proof.
  intros Hk [_ Hb] E. apply key_cmp_zero in E as [_ E]. destruct (ks_len _ _ KS k Hk) as [El _]. rewrite El in E.
  destruct (ks_proper _ _ KS k Hk) as (i & Hi & Hw). by rewrite E, Hb in Hw.
Qed.

Lemma invalidate_blank k st ts fs li f : K k -> 
  let e := mkPkt (ip_frag_key_invalidate k) st ts fs li f in blank e /\ length (src_dst (key e)) = 4%nat.
Proof.
  intros Hk e. destruct (ks_len _ _ KS k Hk) as [El Hl]. pose proof kl_pos.
  assert (L : length (src_dst (key e)) = 4%nat) by (cbn; rewrite length_app, length_replicate, length_drop, El; lia).
  assert (Hz : forall i, (i < Z.to_nat kl)%nat -> src_dst (key e) !!! i = 0).
  { intros i Hi. cbn. rewrite El. rewrite lookup_total_app_l by (by rewrite length_replicate). by apply lookup_total_replicate_2. }
  split; [|done]. split; [|done]. apply key_empty_words; cbn [key_len key e ip_frag_key_invalidate]; rewrite ?El; [done|lia|done].
Qed.

(** Finding the entry of a key. *)
Lemma lookup_spec t k tms :
  table_ok t -> K k ->
  match ip_frag_lookup t k tms with
  | inl fp => has_entry t k fp
  | inr (free, stale) =>
      (forall fp, ~ has_entry t k fp) /\ picked (fun fp => fp ∉ lru t) (cands t k) free /\
      picked (fun fp => fp ∈ lru t /\ timed_out t fp tms = true) (cands t k) stale
  end.
Proof.
  intros T Hk. rewrite lookup_scan.
  assert (Hm : forall fp, ip_frag_key_cmp k (key (entry t fp)) = 0 -> has_entry t k fp).
  { intros fp E. destruct (decide (fp ∈ lru t)) as [Hl|Hl].
    - split; [done|]. apply (ks_sep _ _ KS); [done| |done]. by apply (to_live _ T).
    - by apply (proper_cmp_blank k _ Hk (to_blank _ T fp Hl)) in E. }
  assert (Hf : forall fp, free_at t fp <-> fp ∉ lru t).
  { intros fp. unfold free_at. split.
    - intros E Hl. rewrite proper_not_empty in E; [done|]. by apply (to_live _ T).
    - intros Hl. apply (to_blank _ T fp Hl). }
  assert (Hst : forall fp, stale_at t tms fp <-> fp ∈ lru t /\ timed_out t fp tms = true).
  { intros fp. unfold stale_at. specialize (Hf fp). unfold free_at in Hf. rewrite <- not_true_iff_false, Hf.
    destruct (decide (fp ∈ lru t)); tauto. }
  assert (Hp : forall Q R l o, (forall x, Q x <-> R x) -> picked Q l o -> picked R l o).
  { intros Q R l o HQ. destruct o; cbn; [by rewrite HQ|]. intros Hl x Hx. rewrite <- HQ. auto. }
  assert (Hs := scan_spec t k tms (cands t k) [] None None).
  cut (match scan t k tms (cands t k) None None with
       | inl fp => has_entry t k fp
       | inr (free, stale) =>
           (forall fp, ~ has_entry t k fp) /\ picked (fun fp => fp ∉ lru t) (cands t k) free /\
           picked (fun fp => fp ∈ lru t /\ timed_out t fp tms = true) (cands t k) stale
       end).
  { intros Hc. destruct (last_used t) as [l|]; [|done]. destruct (Z.eqb_spec (ip_frag_key_cmp k (key (entry t l))) 0); auto. }
  cbn [app] in Hs. destruct (scan t k tms (cands t k) None None) as [fp|[free stale]].
  - apply Hm, Hs; cbn; by intros ? ?%elem_of_nil.
  - destruct Hs as (Hn & He & Ho); [cbn; by intros ? ?%elem_of_nil..|]. split; [|split; eapply Hp; eauto].
    intros fp [Hl Hq]. destruct (to_live _ T fp Hl) as (HK & Hc & _). apply (Hn fp); [|by apply keq_cmp].
    destruct (ks_len _ _ KS _ Hk) as [El L1]. rewrite (cands_keq t k (key (entry t fp))); [done|done|apply (to_shape _ T)|rewrite El; apply KS|done].
Qed.

End Table.
