(* ===== verification/IpFragFind.v ===== *)
(** * IP reassembly: the search, and a new table

    [ip_frag_find] as an operation on a map with timeouts; the table that
    [rte_ip_frag_table_create] makes is empty, and the entries that the search
    looks at are inside its array. *)
From S2P Require Import Prelude Bits Mbuf IpFrag IpFragTable.

(** ** Entries *)

(** The mbufs of an entry. *)
Definition entry_mbufs (e : ip_frag_pkt) : list Z := omap mb (take (Z.to_nat (last_idx e)) (frags e)).

Lemma free_loop (f : list ip_frag) (dr : death_row) n :
  (n <= length f)%nat ->
  let '(f', dr') := fold_left (fun '(f, dr) i =>
    match mb (f !!! i) with
    | None => (f, dr)
    | Some m => (<[i := mkFrag (ofs (f !!! i)) (len (f !!! i)) None]> f, dr ++ [m])
    end) (seq 0 n) (f, dr) in
  length f' = length f /\ (forall i, (n <= i)%nat -> f' !!! i = f !!! i) /\ dr' = dr ++ omap mb (take n f).
Proof.
  induction n as [|n IH]; intros Hn; [cbn; by rewrite app_nil_r|]. rewrite seq_S, fold_left_app. cbn [Nat.add].
  specialize (IH ltac:(lia)). destruct (fold_left _ _ _) as [f' dr']. destruct IH as (L & Hi & Ed). cbn [fold_left].
  rewrite (take_S_r f n (f !!! n)) by (apply list_lookup_lookup_total_lt; lia).
  rewrite omap_app. cbn. rewrite Hi by lia. destruct (mb (f !!! n)) as [m|] eqn:Em.
  - split_and!; [by rewrite length_insert| |by rewrite Ed, app_assoc]. intros i Hl. rewrite list_lookup_total_insert_ne by lia. apply Hi. lia.
  - rewrite app_nil_r. split_and!; [done| |done]. intros i Hl. apply Hi. lia.
Qed.

Lemma free_spec e dr :
  shaped e -> last_idx e <= 4 ->
  exists e', ip_frag_free e dr = (e', dr ++ entry_mbufs e) /\ length (frags e') = 4%nat /\ key e' = key e /\ last_idx e' = 0.
Proof.
  intros [L _] Hl. unfold ip_frag_free. pose proof (free_loop (frags e) dr (Z.to_nat (last_idx e)) ltac:(lia)) as Hf.
  destruct (fold_left _ _ _) as [f' dr']. destruct Hf as (L' & _ & ->). eexists. split; [done|]. cbn. split; [congruence|done].
Qed.

(** A new entry. *)
Definition fresh (k : ip_frag_key) (tms : Z) (e : ip_frag_pkt) : Prop :=
  exists e0, shaped e0 /\ keq k (key e0) /\ e = ip_frag_reset e0 tms.

Lemma reset_shaped e tms : shaped e -> shaped (ip_frag_reset e tms).
Proof. intros [L1 L2]. split; [cbn; by rewrite !length_insert|done]. Qed.

Lemma fresh_mbufs k tms e : fresh k tms e -> entry_mbufs e = [].
Proof.
  intros (e0 & [L _] & _ & ->). destruct e0 as [k0 st ts fs li f]. cbn in L. do 4 (destruct f as [|? f]; [done|]). by destruct f.
Qed.

(** ** Operations on the table *)

Lemma tailq_remove_perm fp q : NoDup q -> fp ∈ q -> q ≡ₚ fp :: tailq_remove fp q.
Proof.
  unfold tailq_remove. induction q as [|x q IH]; intros Hnd Hin; [by apply elem_of_nil in Hin|]. apply NoDup_cons in Hnd as [Hx Hnd].
  destruct (decide (x = fp)) as [->|Hne].
  - rewrite filter_cons_False by tauto. f_equiv. rewrite filter_id_on; [done|]. intros y Hy ->. done.
  - rewrite filter_cons_True by done. apply elem_of_cons in Hin as [?|Hin]; [done|]. rewrite (IH Hnd Hin) at 1. constructor.
Qed.

Lemma elem_tailq_remove fp x q : x ∈ tailq_remove fp q <-> x <> fp /\ x ∈ q.
Proof. unfold tailq_remove. apply (list_elem_of_filter (fun y => y <> fp)). Qed.

Lemma length_tailq_remove fp q : NoDup q -> fp ∈ q -> length q = S (length (tailq_remove fp q)).
Proof. intros Hn Hi. by rewrite (tailq_remove_perm fp q) at 1. Qed.

(** The fixed part of a table. *)
Definition conf (t : rte_ip_frag_tbl) := (max_cycles t, entry_mask t, max_entries t, bucket_entries t, nb_entries t, nb_buckets t).

Lemma entry_set_pkt t fp e x : entry (set_pkt fp e t) x = if decide (x = fp) then e else entry t x.
Proof.
  unfold entry. cbn [pkt set_pkt]. case_decide as E; [subst; apply lookup_total_insert_eq|]. by rewrite lookup_total_insert_ne.
Qed.

Section Ops.
Context `{FragHash} {kl : Z} {K : ip_frag_key -> Prop} (KS : key_space kl K).
Implicit Types (t : rte_ip_frag_tbl) (k : ip_frag_key) (e : ip_frag_pkt) (dr : death_row).
Abbreviation table_ok := (@table_ok _ kl K).

Lemma conf_cands t t' k : conf t' = conf t -> cands t' k = cands t k.
Proof. intros [= _ E2 _ E4 _ _]. unfold cands, IP_FRAG_TBL_POS. by rewrite E2, E4. Qed.

Lemma conf_timed_out t t' fp tms : conf t' = conf t -> start (entry t' fp) = start (entry t fp) -> timed_out t' fp tms = timed_out t fp tms.
Proof. intros [= E1 _ _ _ _ _] E. unfold timed_out. by rewrite E1, E. Qed.

(** [v] is taken out. *)
Lemma drop_ok t v t' :
  table_ok t -> v ∈ lru t -> conf t' = conf t -> use_entries t' = u32 (use_entries t - 1) -> lru t' = tailq_remove v (lru t) ->
  (forall x, x <> v -> entry t' x = entry t x) -> shaped (entry t' v) -> blank (kl := kl) (entry t' v) -> table_ok t'.
Proof.
  intros T Hv Hc Hu El He Hs Hb. pose proof (length_tailq_remove v _ (to_nodup _ T) Hv) as Hlen. pose proof (to_full _ T) as Hf.
  pose proof (to_max _ T) as Hm. injection Hc as E1 E2 E3 E4 E5 E6.
  constructor; rewrite ?El, ?E3; try setoid_rewrite elem_tailq_remove.
  - done.
  - rewrite Hu, (to_use _ T), u32_small by lia. lia.
  - lia.
  - unfold tailq_remove. apply NoDup_filter, T.
  - intros fp. destruct (decide (fp = v)) as [->|Hne]; [done|]. rewrite He by done. apply T.
  - intros fp [Hne Hfp]. rewrite He by done. rewrite (conf_cands t t') by (unfold conf; congruence). by apply T.
  - intros fp Hfp. destruct (decide (fp = v)) as [->|Hne]; [done|]. rewrite He by done. apply T. intros Hin. apply Hfp. done.
  - intros fp fq [Hn1 H1] [Hn2 H2]. rewrite !He by done. by apply T.
Qed.

Lemma del_spec t dr v :
  table_ok t -> v ∈ lru t ->
  exists t', ip_frag_tbl_del t dr v = (t', dr ++ entry_mbufs (entry t v)) /\ table_ok t' /\ conf t' = conf t /\
    lru t' = tailq_remove v (lru t) /\ (forall x, x <> v -> entry t' x = entry t x).
Proof.
  intros T Hv. destruct (to_live _ T v Hv) as (Hk & _ & Hl).
  destruct (free_spec (entry t v) dr (to_shape _ T v) ltac:(lia)) as (e' & Ef & L & Ek & _).
  unfold ip_frag_tbl_del. rewrite Ef. eexists. split; [done|]. rewrite Ek. set (e2 := set_key _ e').
  destruct (invalidate_blank KS (key (entry t v)) (start e') (total_size e') (frag_size e') (last_idx e') (frags e') Hk) as [Hb Ls].
  set (t' := set_use _ _ _).
  assert (He : forall x, entry t' x = if decide (x = v) then e2 else entry t x) by apply entry_set_pkt.
  split; [|split; [done|]].
  - eapply (drop_ok t v); try done; [intros x Hx; by rewrite He, decide_False|rewrite He, decide_True; done..].
  - split; [done|]. intros x Hx. by rewrite He, decide_False.
Qed.

Lemma add_spec t f k tms :
  table_ok t -> K k -> f ∉ lru t -> f ∈ cands t k -> (forall fp, ~ has_entry t k fp) -> Z.of_nat (length (lru t)) < max_entries t ->
  let t' := ip_frag_tbl_add t f k tms in
  table_ok t' /\ conf t' = conf t /\ lru t' = lru t ++ [f] /\ (forall x, x <> f -> entry t' x = entry t x) /\ fresh k tms (entry t' f) /\
  key (entry t' f) = k.
Proof.
  intros T Hk Hf Hc Hn Hlt t'. set (e := ip_frag_reset (set_key k (entry t f)) tms).
  assert (He : forall x, entry t' x = if decide (x = f) then e else entry t x) by apply entry_set_pkt.
  assert (Hs : shaped (set_key k (entry t f))) by (split; [apply T|apply (ks_len _ _ KS), Hk]).
  assert (Hfr : entry t' f = e) by (by rewrite He, decide_True).
  assert (Hot : forall x, x <> f -> entry t' x = entry t x) by (intros; by rewrite He, decide_False).
  assert (El : lru t' = lru t ++ [f]) by done. pose proof (to_max _ T).
  split; [|split; [done|split; [done|split; [done|rewrite Hfr; split; [by eexists|done]]]]].
  constructor; rewrite ?El; try setoid_rewrite elem_of_app; try setoid_rewrite list_elem_of_singleton.
  - apply T.
  - cbn [use_entries t' ip_frag_tbl_add set_use]. rewrite (to_use _ T), length_app, u32_small; cbn [length]; lia.
  - rewrite length_app. cbn [length]. change (max_entries t') with (max_entries t). lia.
  - apply NoDup_app. split; [apply T|]. split; [|apply NoDup_singleton]. intros x Hx ->%list_elem_of_singleton. done.
  - intros fp. rewrite He. case_decide; [by apply reset_shaped|apply T].
  - intros fp Hfp. rewrite He. change (cands t') with (cands t). case_decide as E; [subst fp; split_and!; [done|done|cbn; unfold IP_MIN_FRAG_NUM; lia..]|].
    destruct Hfp as [Hfp|]; [|done]. by apply T.
  - intros fp Hfp. rewrite Hot by (intros ->; tauto). apply T. tauto.
  - intros fp fq H1 H2. rewrite !He. case_decide as E1; case_decide as E2; subst; try done; intros Hq.
    + destruct H2 as [H2|]; [|done]. exfalso. by apply (Hn fq).
    + destruct H1 as [H1|]; [|done]. exfalso. apply (Hn fp). split; [done|]. by symmetry.
    + destruct H1 as [H1|]; [|done]. destruct H2 as [H2|]; [|done]. by apply T.
Qed.

Lemma reuse_spec t dr v k tms :
  table_ok t -> has_entry t k v ->
  exists t', ip_frag_tbl_reuse t dr v tms = (t', dr ++ entry_mbufs (entry t v)) /\ table_ok t' /\ conf t' = conf t /\
    lru t' = tailq_remove v (lru t) ++ [v] /\ (forall x, x <> v -> entry t' x = entry t x) /\ fresh k tms (entry t' v).
Proof.
  intros T [Hv Hq]. destruct (to_live _ T v Hv) as (Hk & Hc & Hl).
  destruct (free_spec (entry t v) dr (to_shape _ T v) ltac:(lia)) as (e' & Ef & L & Ek & _).
  unfold ip_frag_tbl_reuse. rewrite Ef. eexists. split; [done|]. set (t' := set_use _ _ _). set (e2 := ip_frag_reset e' tms).
  assert (He : forall x, entry t' x = if decide (x = v) then e2 else entry t x) by apply entry_set_pkt.
  assert (Hs : shaped e') by (split; [done|rewrite Ek; apply T]).
  assert (Hperm : lru t' ≡ₚ lru t) by (cbn; rewrite (tailq_remove_perm v (lru t)) at 2 by (done || apply T); symmetry; apply Permutation_cons_append).
  assert (Hke : forall x, key (entry t' x) = key (entry t x)) by (intros x; rewrite He; case_decide; [subst; done|done]).
  split; [|split; [done|split; [done|split; [intros; by rewrite He, decide_False|rewrite He, decide_True by done; exists e'; by rewrite Ek]]]].
  constructor; try setoid_rewrite Hperm; try setoid_rewrite Hke; try apply T.
  - intros fp. rewrite He. case_decide; [by apply reset_shaped|apply T].
  - intros fp Hfp. destruct (to_live _ T fp Hfp) as (A & B & C). split; [done|]. split; [done|]. rewrite He. case_decide; [cbn; unfold IP_MIN_FRAG_NUM; lia|done].
  - intros fp Hfp. rewrite He, decide_False by (intros ->; done). by apply T.
Qed.

Lemma set_last_ok t l : table_ok t -> table_ok (set_last l t).
Proof. intros [T1 T2 T3 T4 T5 T6 T7 T8]. by constructor. Qed.

End Ops.

(** ** [ip_frag_find] *)

Section Find.
Context `{FragHash} {kl : Z} {K : ip_frag_key -> Prop} (KS : key_space kl K).
Implicit Types (t : rte_ip_frag_tbl) (k : ip_frag_key) (dr : death_row).
Abbreviation table_ok := (@table_ok _ kl K).

(** What is given up for a new entry at [fp]: nothing, the entry that was
    there, or, when the table is full, the oldest one. *)
Definition made_room t (gone : list Z) (fp : Z) : Prop :=
  gone = [] /\ (fp ∉ lru t) /\ Z.of_nat (length (lru t)) < max_entries t \/ gone = [fp] \/
  (fp ∉ lru t) /\ Z.of_nat (length (lru t)) = max_entries t /\ exists v q, lru t = v :: q /\ gone = [v].

(** The contract: the result [r] for the key [k]; the entries in [gone] have
    timed out and are given up.  An entry of the key is kept as it is while it is
    in time and is made fresh when it has timed out. *)
Record find_ok t dr k tms (gone : list Z) (r : option Z) t' dr' : Prop := {
  fo_table : table_ok t';
  fo_conf : conf t' = conf t;
  fo_last : last_used t' = r;
  fo_gone : (length gone <= 1)%nat /\ forall v, v ∈ gone -> v ∈ lru t /\ timed_out t v tms = true;
  fo_dr : dr' = dr ++ (gone ≫= fun v => entry_mbufs (entry t v));
  fo_kept : forall fp, fp ∈ lru t -> fp ∉ gone -> entry t' fp = entry t fp;
  fo_lru : lru t' = filter (fun v => v ∉ gone) (lru t) ++
             match r with Some fp => if decide (fp ∈ lru t /\ fp ∉ gone) then [] else [fp] | None => [] end;
  fo_res : match r with
    | Some fp => has_entry t' k fp /\
        (gone = [] /\ has_entry t k fp /\ timed_out t fp tms = false \/
         gone = [fp] /\ has_entry t k fp /\ timed_out t fp tms = true /\ fresh k tms (entry t' fp) \/
         (forall fq, ~ has_entry t k fq) /\ fresh k tms (entry t' fp) /\ made_room t gone fp)
    | None => gone = [] /\ (forall fp, ~ has_entry t k fp) /\
        ((forall c, c ∈ cands t k -> c ∈ lru t /\ timed_out t c tms = false) \/
         Z.of_nat (length (lru t)) = max_entries t /\ exists l q, lru t = l :: q /\ timed_out t l tms = false)
    end }.

Lemma filter_not_in_one v q : filter (fun x => x ∉ [v]) q = tailq_remove v q.
Proof. apply filter_ext_on. intros y _. by rewrite list_elem_of_singleton. Qed.

Lemma filter_not_in_none (q : list Z) : filter (fun x => x ∉ []) q = q.
Proof. apply filter_id_on. intros y _. apply not_elem_of_nil. Qed.

(** A new entry at [f], after [gone] have left. *)
Lemma add_find_ok t dr k tms gone t1 dr1 f :
  table_ok t -> K k -> table_ok t1 -> conf t1 = conf t -> lru t1 = filter (fun v => v ∉ gone) (lru t) ->
  (length gone <= 1)%nat -> (forall v, v ∈ gone -> v ∈ lru t /\ timed_out t v tms = true) ->
  dr1 = dr ++ (gone ≫= fun v => entry_mbufs (entry t v)) -> (forall x, x ∉ gone -> entry t1 x = entry t x) ->
  (forall fp, ~ has_entry t k fp) -> f ∈ cands t k -> f ∉ lru t1 -> Z.of_nat (length (lru t1)) < max_entries t -> made_room t gone f ->
  find_ok t dr k tms gone (Some f) (set_last (Some f) (ip_frag_tbl_add t1 f k tms)) dr1.
Proof.
  intros T Hk T1 Hc El Hg1 Hg Hdr He Hn Hf Hf1 Hlen Hroom.
  assert (Hin : forall x, x ∈ lru t1 <-> (x ∉ gone) /\ x ∈ lru t) by (intros x; rewrite El; apply (list_elem_of_filter (fun v => v ∉ gone))).
  assert (Hn1 : forall fp, ~ has_entry t1 k fp).
  { intros fp [Hl Hq]. apply Hin in Hl as [Hg' Hl]. apply (Hn fp). split; [done|]. by rewrite <- He. }
  destruct (add_spec KS t1 f k tms) as (T2 & C2 & L2 & O2 & F2 & K2); [done|done|done|by rewrite (conf_cands t)|done|by injection Hc as _ _ -> _ _ _|].
  set (t2 := ip_frag_tbl_add t1 f k tms) in *.
  constructor; change (lru (set_last (Some f) t2)) with (lru t2); try done.
  - by apply set_last_ok.
  - intros fp Hfp Hg'. change (entry t2 fp = entry t fp). rewrite O2; [by apply He|]. intros ->. apply Hf1, Hin. done.
  - rewrite L2, El. f_equal. rewrite decide_False; [done|]. intros [? ?]. apply Hf1, Hin. done.
  - split; [|by right; right]. split; [change (f ∈ lru t2); rewrite L2; set_solver|]. change (keq k (key (entry t2 f))). by rewrite K2.
Qed.

(** The same with one entry [v] deleted before. *)
Lemma del_find_ok t dr k tms v f :
  table_ok t -> K k -> v ∈ lru t -> timed_out t v tms = true -> (forall fp, ~ has_entry t k fp) -> f ∈ cands t k ->
  f = v \/ (f ∉ lru t) /\ Z.of_nat (length (lru t)) = max_entries t /\ (exists q, lru t = v :: q) ->
  exists t1, ip_frag_tbl_del t dr v = (t1, dr ++ entry_mbufs (entry t v)) /\
    find_ok t dr k tms [v] (Some f) (set_last (Some f) (ip_frag_tbl_add t1 f k tms)) (dr ++ entry_mbufs (entry t v)).
Proof.
  intros T Hk Hv Ht Hn Hf Hfv. destruct (del_spec KS t dr v T Hv) as (t1 & E & T1 & C & L & O). exists t1. split; [done|].
  pose proof (to_full _ T). pose proof (length_tailq_remove v _ (to_nodup _ T) Hv).
  eapply add_find_ok; eauto; rewrite ?L.
  - by rewrite filter_not_in_one.
  - intros x ->%list_elem_of_singleton. done.
  - cbn. by rewrite app_nil_r.
  - intros x Hx. apply O. by rewrite list_elem_of_singleton in Hx.
  - rewrite elem_tailq_remove. destruct Hfv as [->|(? & _)]; tauto.
  - lia.
  - destruct Hfv as [->|(Hf1 & Hfull & q & Hq)]; [by right; left|]. right. right. split_and!; [done..|by exists v, q].
Qed.

(** The key has an entry. *)
Lemma found_find_ok t dr k tms p :
  table_ok t -> has_entry t k p ->
  exists gone t1 dr1, (if timed_out t p tms then ip_frag_tbl_reuse t dr p tms else (t, dr)) = (t1, dr1) /\
    find_ok t dr k tms gone (Some p) (set_last (Some p) t1) dr1.
Proof.
  intros T Hl. destruct (timed_out t p tms) eqn:Et.
  - destruct (reuse_spec t dr p k tms T Hl) as (t' & E & T' & C & L & O & F). exists [p], t', (dr ++ entry_mbufs (entry t p)). split; [done|].
    constructor; change (lru (set_last (Some p) t')) with (lru t'); try done.
    + by apply set_last_ok.
    + split; [cbn; lia|]. intros v ->%list_elem_of_singleton. split; [apply Hl|done].
    + cbn. by rewrite app_nil_r.
    + intros fp _ Hn. apply O. by rewrite list_elem_of_singleton in Hn.
    + rewrite L, filter_not_in_one. f_equal. rewrite decide_False; [done|]. rewrite list_elem_of_singleton. tauto.
    + split; [split; [change (p ∈ lru t'); rewrite L; set_solver|]|].
      * change (keq k (key (entry t' p))). destruct F as (e0 & _ & Hq & ->). done.
      * right. left. done.
  - exists [], t, dr. split; [done|]. constructor; try done.
    + by apply set_last_ok.
    + split; [cbn; lia|]. intros v Hv. by apply elem_of_nil in Hv.
    + cbn. by rewrite app_nil_r.
    + rewrite filter_not_in_none, decide_True by (split; [apply Hl|apply not_elem_of_nil]). by rewrite app_nil_r.
    + split; [done|]. left. done.
Qed.

(** There is no room. *)
Lemma none_find_ok t dr k tms :
  table_ok t -> (forall fp, ~ has_entry t k fp) ->
  (forall c, c ∈ cands t k -> c ∈ lru t /\ timed_out t c tms = false) \/
   Z.of_nat (length (lru t)) = max_entries t /\ (exists l q, lru t = l :: q /\ timed_out t l tms = false) ->
  find_ok t dr k tms [] None (set_last None t) dr.
Proof.
  intros T Hn Hres. constructor; try done.
  - by apply set_last_ok.
  - split; [cbn; lia|]. intros v Hv. by apply elem_of_nil in Hv.
  - cbn. by rewrite app_nil_r.
  - by rewrite filter_not_in_none, app_nil_r.
Qed.

Lemma find_spec t dr k tms :
  table_ok t -> K k ->
  exists gone r t' dr', ip_frag_find t dr k tms = Some (r, t', dr') /\ find_ok t dr k tms gone r t' dr'.
Proof.
  intros T Hk. pose proof (lookup_spec KS t k tms T Hk) as Hl. unfold ip_frag_find.
  pose proof (to_max _ T) as Hmax. pose proof (to_full _ T) as Hfull.
  destruct (ip_frag_lookup t k tms) as [p|[free stale]].
  { destruct (found_find_ok t dr k tms p T Hl) as (gone & t1 & dr1 & E & F). rewrite E. by eexists _, _, _, _. }
  destruct Hl as (Hn & Hf & Hst). destruct stale as [st|].
  { destruct Hst as (Hc & Hsl & Hto). destruct (del_find_ok t dr k tms st st) as (t1 & E & F); [by auto..|]. rewrite E.
    by eexists _, _, _, _. }
  destruct free as [f|].
  2:{ eexists [], None, _, _. split; [reflexivity|]. apply none_find_ok; [done..|]. left. intros c Hc.
      destruct (decide (c ∈ lru t)) as [Hcl|Hcl]; [|by apply Hf in Hc]. split; [done|]. apply not_true_is_false. intros Et. by apply (Hst c Hc). }
  destruct Hf as [Hfc Hfl]. rewrite (to_use _ T). destruct (Z.leb_spec (max_entries t) (Z.of_nat (length (lru t)))) as [Hle|Hlt].
  - destruct (lru t) as [|l q] eqn:El; [cbn in Hle; lia|]. destruct (timed_out t l tms) eqn:Et.
    + destruct (del_find_ok t dr k tms l f) as (t1 & E & F); [done|done|rewrite El; left|done|done|done| |].
      { right. rewrite El. split; [done|]. split; [lia|]. by eexists. }
      rewrite E. by eexists _, _, _, _.
    + eexists [], None, _, _. split; [reflexivity|]. apply none_find_ok; [done..|]. right. rewrite El. split; [lia|]. by eexists _, _.
  - eexists [], _, _, _. split; [reflexivity|]. eapply add_find_ok; eauto.
    + by rewrite filter_not_in_none.
    + intros v Hv. by apply elem_of_nil in Hv.
    + cbn. by rewrite app_nil_r.
    + left. done.
Qed.

(** The entry that is found is the old one or a fresh one. *)
Lemma find_res t dr k tms gone fp t' dr' :
  table_ok t -> find_ok t dr k tms gone (Some fp) t' dr' ->
  has_entry t' k fp /\ (gone = [] /\ has_entry t k fp \/ (forall fq, has_entry t k fq -> fq ∈ gone) /\ fresh k tms (entry t' fp)).
Proof.
  intros T F. destruct (fo_res _ _ _ _ _ _ _ _ F) as [Hl [(? & ? & _)|[(-> & Hk & _ & Hf)|(Hn & Hf & _)]]]; (split; [done|]).
  - by left.
  - right. split; [|done]. intros fq [Hq1 Hq2]. apply list_elem_of_singleton. apply (to_one _ T); [done|apply Hk|].
    transitivity k; [by symmetry|apply Hk].
  - right. split; [|done]. by intros fq ?%Hn.
Qed.

End Find.

(** ** Positions *)

(** The low bits and the high bits of a position are cleared by the mask. *)
Lemma mask_position sig a b :
  0 <= b -> b <= a < 32 ->
  let pos := Z.land (u32 sig) (Z.land (u32 (2 ^ a - 1)) (u32 (Z.lnot (u32 (2 ^ b - 1))))) in 0 <= pos /\ pos + 2 ^ b <= 2 ^ a.
Proof.
  intros Hb Ha pos. assert (P1 : 1 <= 2 ^ b) by (pose proof (Z.pow_pos_nonneg 2 b); lia).
  assert (P2 : 2 ^ b <= 2 ^ a) by (apply Z.pow_le_mono_r; lia). assert (P3 : 2 ^ a < 2 ^ 32) by (apply Z.pow_lt_mono_r; lia).
  assert (Hbit : forall i, 0 <= i -> Z.testbit pos i = Z.testbit (u32 sig) i && (b <=? i) && (i <? a)).
  { intros i Hi. unfold pos. rewrite !Z.land_spec, (u32_small (2 ^ a - 1)), (u32_small (2 ^ b - 1)), (u32_testbit (Z.lnot _)) by lia.
    rewrite Z.lnot_spec by lia. rewrite !Z.sub_1_r, <- !Z.ones_equiv. rewrite !Z.testbit_ones_nonneg by lia.
    destruct (Z.ltb_spec i 32), (Z.ltb_spec i a), (Z.ltb_spec i b), (Z.leb_spec b i); cbn; try lia; by rewrite ?andb_true_r, ?andb_false_r. }
  assert (H0 : 0 <= pos) by (unfold pos; apply Z.land_nonneg; left; apply u32_range).
  assert (Hhi : pos / 2 ^ a = 0).
  { rewrite <- Z.shiftr_div_pow2 by lia. apply Z.bits_inj'. intros i Hi. rewrite Z.shiftr_spec, Hbit, Z.bits_0 by lia.
    rewrite (proj2 (Z.ltb_ge (i + a) a)) by lia. apply andb_false_r. }
  assert (Hlo : pos mod 2 ^ b = 0).
  { rewrite <- Z.land_ones by lia. apply Z.bits_inj'. intros i Hi. rewrite Z.land_spec, Hbit, Z.bits_0, Z.testbit_ones_nonneg by lia.
    destruct (Z.ltb_spec i b), (Z.leb_spec b i); try lia; by rewrite ?andb_false_r. }
  assert (Hab : 2 ^ a = 2 ^ b * 2 ^ (a - b)) by (rewrite <- Z.pow_add_r by lia; f_equal; lia).
  split; [done|]. apply Z.div_small_iff in Hhi; [|lia]. pose proof (Z.div_mod pos (2 ^ b) ltac:(lia)) as Hdm. rewrite Hlo in Hdm.
  assert (pos / 2 ^ b < 2 ^ (a - b)) by nia. nia.
Qed.

Section Create.
Context `{FragHash}.

Lemma create_spec bucket_num be me mc t :
  1 <= bucket_num <= 2 ^ 31 -> 0 <= be < 2 ^ 32 -> 0 <= me < 2 ^ 32 -> rte_ip_frag_table_create bucket_num be me mc = Some t ->
  0 < bucket_entries t /\ lru t = [] /\ use_entries t = 0 /\ max_entries t = me /\ max_cycles t = mc /\ bucket_entries t = be /\
  (forall fp, entry t fp = zero_pkt) /\ last_used t = None /\ forall k c, c ∈ cands t k -> 0 <= c < nb_entries t.
Proof.
  intros Hbn Hbe Hme. destruct (align32pow2_spec bucket_num Hbn) as (x & Hx & Ex & _). unfold rte_ip_frag_table_create. rewrite Ex.
  destruct (rte_is_power_of_2 be) eqn:Ep; [|done]. destruct (is_power_of_2_spec be Hbe Ep) as (y & Hy & Ey). cbn [negb orb].
  assert (Q : 2 ^ x * be = 2 ^ (x + y)) by (by rewrite Ey, Z.pow_add_r by lia).
  assert (2 ^ (x + y) <= 2 ^ 62) by (apply Z.pow_le_mono_r; lia). assert (0 < 2 ^ (x + y)) by (apply Z.pow_pos_nonneg; lia).
  assert (En : u64 (u64 (2 ^ x * be) * IP_FRAG_HASH_FNUM) = 2 ^ (x + y + 1)).
  { unfold IP_FRAG_HASH_FNUM. rewrite Q, (Z.pow_add_r 2 (x + y) 1) by lia. rewrite (u64_small (2 ^ (x + y))) by lia. rewrite u64_small by lia. lia. }
  rewrite En. unfold UINT32_MAX. destruct (Z.ltb_spec (2 ^ 32 - 1) (2 ^ (x + y + 1))) as [|Hle]; [done|]. cbn [orb].
  destruct ((_ =? 0) || _); [done|]. intros [= <-]. cbn [bucket_entries lru use_entries max_entries max_cycles last_used nb_entries].
  assert (Hlt : x + y + 1 < 32) by (apply (Z.pow_lt_mono_r_iff 2); lia).
  split; [rewrite Ey; apply Z.pow_pos_nonneg; lia|]. do 5 (split; [done|]). split; [intros fp; unfold entry; cbn [pkt]; by rewrite lookup_total_empty|]. split; [done|].
  intros k c Hc. unfold cands, bucket_pair in Hc. apply list_elem_of_bind in Hc as (j & Hc & Hj). cbn [bucket_entries] in Hj.
  apply elem_of_seqZ in Hj. rewrite Z2Nat.id in Hj by lia.
  assert (Hpos : forall sig, 0 <= sig < 2 ^ 32 -> 0 <= IP_FRAG_TBL_POS (mkTbl mc (Z.land (u32 (2 ^ (x + y + 1) - 1)) (u32 (Z.lnot (u32 (be - 1))))) me 0 be
    (2 ^ (x + y + 1)) bucket_num None [] ∅) sig + j < 2 ^ (x + y + 1)).
  { intros sig Hs. destruct (mask_position sig (x + y + 1) y ltac:(lia) ltac:(lia)) as [G1 G2]. rewrite <- Ey in G1, G2.
    rewrite (u32_small sig) in G1, G2 by lia. unfold IP_FRAG_TBL_POS. cbn [entry_mask]. lia. }
  assert (Hh : 0 <= (key_hash k).1 < 2 ^ 32 /\ 0 <= (key_hash k).2 < 2 ^ 32).
  { unfold key_hash, ipv4_frag_hash, ipv6_frag_hash, second_hash. destruct (_ =? _); cbn [fst snd]; split; apply u32_range. }
  apply elem_of_cons in Hc as [->|Hc]; [|apply list_elem_of_singleton in Hc as ->]; apply Hpos; apply Hh.
Qed.

Lemma create_table_ok kl K bucket_num be me mc t :
  key_space kl K -> 1 <= bucket_num <= 2 ^ 31 -> 0 <= be < 2 ^ 32 -> 0 < me < 2 ^ 32 ->
  rte_ip_frag_table_create bucket_num be me mc = Some t -> table_ok (kl := kl) (K := K) t.
Proof.
  intros KS Hbn Hbe Hme E. destruct (create_spec bucket_num be me mc t Hbn Hbe ltac:(lia) E) as (_ & El & Eu & Em & _ & _ & Ee & _).
  assert (Hz : forall i, (i < 4)%nat -> replicate 4 0 !!! i = 0) by (intros i Hi; by apply lookup_total_replicate_2).
  constructor; rewrite ?El, ?Eu, ?Em; cbn; try lia; try setoid_rewrite Ee.
  - apply NoDup_nil_2.
  - done.
  - intros fp Hfp. by apply elem_of_nil in Hfp.
  - intros fp _. split; [done|]. intros i Hi. apply Hz. pose proof (kl_pos KS). lia.
  - intros fp fq Hfp. by apply elem_of_nil in Hfp.
Qed.

End Create.
