(* ===== verification/IpFragInput.v ===== *)
(** * IP reassembly: one fragment for the table

    [frag_input], the part that the entry points of the two protocols share:
    what it does with the mbufs of arbitrary fragments, and how it advances
    the datagram that a fragment belongs to. *)
From S2P Require Import Prelude Bits Mbuf MbufPacket IpFrag IpFragChain IpFragHeader IpFragEntry IpFragTable IpFragFind.

(** ** The entry goes back into the table *)

Section Inuse.
Context `{FragHash} {kl : Z} {K : ip_frag_key -> Prop} (KS : key_space kl K).
Implicit Types (t : rte_ip_frag_tbl) (k : ip_frag_key) (e : ip_frag_pkt).
Abbreviation table_ok := (@table_ok _ kl K).

(** It is still in use. *)
Lemma inuse_keep t fp e :
  table_ok t -> fp ∈ lru t -> length (frags e) = 4%nat -> key e = key (entry t fp) -> 2 <= last_idx e <= 4 ->
  ip_frag_inuse (set_pkt fp e t) fp = set_pkt fp e t /\ table_ok (set_pkt fp e t).
Proof.
  intros T Hfp Hl Hk Hi. destruct (to_live _ T fp Hfp) as (HK & Hc & _).
  assert (He : forall x, entry (set_pkt fp e t) x = if decide (x = fp) then e else entry t x) by (intros; apply entry_set_pkt).
  assert (Hkx : forall x, key (entry (set_pkt fp e t) x) = key (entry t x)) by (intros x; rewrite He; case_decide; by subst).
  split.
  - unfold ip_frag_inuse. by rewrite Hkx, (proper_not_empty KS).
  - constructor; try apply T; try setoid_rewrite Hkx; try apply T.
    + intros x. split; [rewrite He; case_decide; [done|apply T]|rewrite Hkx; apply T].
    + intros x Hx. destruct (to_live _ T x Hx) as (A & B & C). split; [done|]. split; [done|]. rewrite He. by case_decide.
    + intros x Hx. rewrite He, decide_False by (intros ->; done). by apply T.
Qed.

(** It is finished. *)
Lemma inuse_drop t fp e :
  table_ok t -> fp ∈ lru t -> length (frags e) = 4%nat -> key e = ip_frag_key_invalidate (key (entry t fp)) ->
  let t' := ip_frag_inuse (set_pkt fp e t) fp in
  table_ok t' /\ conf t' = conf t /\ lru t' = tailq_remove fp (lru t) /\ forall x, x <> fp -> entry t' x = entry t x.
Proof.
  intros T Hfp Hl Hk t'. destruct (to_live _ T fp Hfp) as (HK & _).
  destruct (invalidate_blank KS _ (start e) (total_size e) (frag_size e) (last_idx e) (frags e) HK) as [Hb Hs]. rewrite <- Hk in Hb, Hs.
  assert (Ee : mkPkt (key e) (start e) (total_size e) (frag_size e) (last_idx e) (frags e) = e) by (by destruct e). rewrite Ee in Hb, Hs.
  assert (Et : t' = set_use (u32 (use_entries t - 1)) (tailq_remove fp (lru t)) (set_pkt fp e t)).
  { unfold t', ip_frag_inuse. rewrite entry_set_pkt, decide_True by done. by rewrite (proj1 Hb). }
  assert (He : forall x, entry t' x = if decide (x = fp) then e else entry t x) by (intros; rewrite Et; apply entry_set_pkt).
  rewrite Et in *. split_and!; [|done|done|intros; by rewrite He, decide_False].
  eapply (drop_ok t fp); [done|done|done|done|done| | |].
  - intros x Hx. by rewrite He, decide_False.
  - by rewrite He, decide_True.
  - by rewrite He, decide_True.
Qed.

End Inuse.

(** ** Arbitrary fragments *)

Lemma omap_insert {A B} (f : A -> option B) (l : list A) i x y b :
  l !! i = Some x -> f x = None -> f y = Some b -> omap f (<[i := y]> l) ≡ₚ b :: omap f l.
Proof.
  intros Hi Hx Hy. rewrite <- (take_drop_middle l i x Hi) at 2. apply lookup_lt_Some in Hi as Hlt.
  rewrite insert_take_drop by done. rewrite !omap_app. cbn. rewrite Hx, Hy. symmetry. apply Permutation_middle.
Qed.

Section Conserve.
Context {P : Type} `{MP : !MbufPool P}.
Implicit Types (s : mstate P) (e : ip_frag_pkt) (dr : death_row).

Lemma slot_mbufs e o l more m idx tsize lidx :
  shaped e -> 2 <= last_idx e <= 4 -> frag_slot e o l more = (idx, tsize, lidx) ->
  lidx = last_idx e /\ 4 <= idx \/
  2 <= lidx <= 4 /\ 0 <= idx < 4 /\
  forall k st ts fs, entry_mbufs (mkPkt k st ts fs lidx (<[Z.to_nat idx := mkFrag o l (Some m)]> (frags e))) ≡ₚ m :: entry_mbufs e.
Proof.
  intros [L _] Hi. unfold frag_slot, IP_MAX_FRAG_NUM, UINT32_MAX.
  assert (Hold : forall i, (i < 2)%nat -> mb (frag e i) = None -> forall k st ts fs,
    entry_mbufs (mkPkt k st ts fs (last_idx e) (<[i := mkFrag o l (Some m)]> (frags e))) ≡ₚ m :: entry_mbufs e).
  { intros i Hi2 Hn k st ts fs. unfold entry_mbufs. cbn [last_idx frags]. rewrite take_insert_lt by lia.
    apply (omap_insert mb _ i (frag e i)); [|done|done]. rewrite lookup_take_lt by lia. apply list_lookup_lookup_total_lt. lia. }
  unfold IP_FIRST_FRAG_IDX, IP_LAST_FRAG_IDX. destruct (o =? 0); [|destruct (more =? 0)].
  - destruct (mb (frag e 1)) eqn:E; intros [= <- <- <-]; [left; lia|right]. split; [lia|]. split; [lia|]. apply (Hold 1%nat); [lia|done].
  - destruct (mb (frag e 0)) eqn:E; intros [= <- <- <-]; [left; lia|right]. split; [lia|]. split; [lia|]. apply (Hold 0%nat); [lia|done].
  - destruct (Z.ltb_spec (last_idx e) 4); intros [= <- <- <-]; [right|left; lia]. split; [lia|]. split; [lia|].
    intros k st ts fs. unfold entry_mbufs. cbn [last_idx frags]. replace (Z.to_nat (last_idx e + 1)) with (S (Z.to_nat (last_idx e))) by lia.
    rewrite (take_S_r _ _ (mkFrag o l (Some m))) by (apply list_lookup_insert_eq; lia). rewrite take_insert_ge by lia. rewrite omap_app. cbn.
    symmetry. apply Permutation_cons_append.
Qed.

(** The packet that comes out is the first fragment. *)
Lemma reassemble_first e s res s' :
  ipv4_frag_reassemble e s = Some (Some res, s') \/ ipv6_frag_reassemble e s = Some (Some res, s') ->
  mb (frag e IP_FIRST_FRAG_IDX) = Some res.
Proof.
  assert (Hc : forall r s1, frag_chain e s = Some (Some r, s1) -> mb (frag e IP_FIRST_FRAG_IDX) = Some r).
  { intros r s1. unfold frag_chain. destruct (_ && _); [done|]. destruct (outer_loop _ _ _ _ _ _ _) as [[[m|] s2]|]; cbn [mbind option_bind]; [|done..].
    destruct (chain_behind _ _ _); cbn [mbind option_bind]; [|done]. destruct (mb _); cbn [mbind option_bind]; [|done]. by intros [= <- _]. }
  unfold ipv4_frag_reassemble, ipv6_frag_reassemble. destruct (frag_chain e s) as [[[r|] s1]|]; cbn [mbind option_bind].
  - intros [[= <- _]|[= <- _]]; by eapply Hc.
  - by intros [?|?].
  - by intros [?|?].
Qed.

(** Where the mbufs of the entry and the new one are afterwards: in the entry,
    on the death row, or in the packet that is returned. *)
Lemma process_conserves e dr m o l more s res e' dr' s' :
  shaped e -> 2 <= last_idx e <= 4 -> ip_frag_process e dr m o l more s = Some (res, e', dr', s') ->
  length (frags e') = 4%nat /\
  (key e' = key e /\ res = None /\ dr' = dr /\ entry_mbufs e' ≡ₚ m :: entry_mbufs e /\ 2 <= last_idx e' <= 4 \/
   key e' = ip_frag_key_invalidate (key e) /\
   match res with
   | None => dr' ≡ₚ m :: entry_mbufs e ++ dr
   | Some r => dr' = dr /\ r ∈ m :: entry_mbufs e
   end).
Proof.
  intros Hs Hi. unfold ip_frag_process. destruct (frag_slot e o l more) as [[idx tsize] lidx] eqn:Esl.
  pose proof (slot_mbufs e o l more m idx tsize lidx Hs Hi Esl) as Hsl. unfold IP_MAX_FRAG_NUM.
  destruct (Z.leb_spec 4 idx) as [Hle|Hlt].
  - destruct Hsl as [[-> _]|(_ & ? & _)]; [|lia].
    match goal with |- context [ip_frag_free ?x dr] => destruct (free_spec x dr Hs ltac:(cbn; lia)) as (e1 & Ef & L1 & K1 & _) end.
    rewrite Ef. intros [= <- <- <- <-]. split; [done|]. right. cbn. rewrite K1. split; [done|].
    unfold entry_mbufs. cbn [last_idx frags]. rewrite <- app_assoc, (Permutation_app_comm dr). cbn. rewrite <- Permutation_middle, app_nil_r. done.
  - destruct Hsl as [[_ ?]|(Hli & Hix & Hmb)]; [lia|]. set (e1 := mkPkt _ _ _ _ _ (<[_ := _]> _)). cbn [key].
    assert (Hs1 : shaped e1) by (destruct Hs; split; [cbn; by rewrite length_insert|done]). specialize (Hmb (key e) (start e) tsize (u32 (frag_size e + l))). fold e1 in Hmb.
    destruct (_ <? tsize).
    + intros [= <- <- <- <-]. split; [apply Hs1|]. left. done.
    + match goal with |- context [mbind _ ?X] => set (R := X) end. destruct R as [[[r|] s1]|] eqn:ER; cbn [mbind option_bind]; [| |done].
      * intros [= <- <- <- <-]. split; [apply Hs1|]. right. split; [done|]. split; [done|]. rewrite <- Hmb.
        assert (Ef : mb (frag e1 IP_FIRST_FRAG_IDX) = Some r).
        { unfold R in ER. destruct (_ && _); [|done]. apply (reassemble_first _ s _ s1). destruct (_ =? _); auto. }
        unfold entry_mbufs. apply list_elem_of_omap. exists (frag e1 IP_FIRST_FRAG_IDX). split; [|done].
        apply list_elem_of_lookup. exists IP_FIRST_FRAG_IDX. destruct Hs1. unfold IP_FIRST_FRAG_IDX. rewrite lookup_take_lt by (cbn; lia). apply list_lookup_lookup_total_lt. lia.
      * destruct (free_spec e1 dr Hs1 ltac:(cbn; lia)) as (e2 & Ef & L2 & K2 & _). rewrite Ef.
        intros [= <- <- <- <-]. split; [done|]. right. cbn [key set_key]. rewrite K2. split; [done|]. rewrite (Permutation_app_comm dr). change (m :: entry_mbufs e ++ dr) with ((m :: entry_mbufs e) ++ dr). apply Permutation_app_tail. exact Hmb.
Qed.

End Conserve.

(** ** Links between mbufs *)

Section Links.
Context {P : Type} `{MP : !MbufPool P}.
Implicit Types (s : mstate P).

(** [y] is in the chain that starts with [x]. *)
Definition linked s : Z -> Z -> Prop := rtc (fun a b => next (mbuf s a) = Some b).

(** Links are only added, and only mbufs of [D] get other segment counts. *)
Record grows (D : list Z) s s' : Prop := {
  gr_next : forall x y, next (mbuf s x) = Some y -> next (mbuf s' x) = Some y;
  gr_segs : forall x, x ∉ D -> nb_segs (mbuf s' x) = nb_segs (mbuf s x) }.

Lemma grows_refl D s : grows D s s.
Proof. by split. Qed.

Lemma grows_trans D1 D2 D s1 s2 s3 : grows D1 s1 s2 -> grows D2 s2 s3 -> D1 ⊆ D -> D2 ⊆ D -> grows D s1 s3.
Proof.
  intros [N1 S1] [N2 S2] H1 H2. split; [by eauto|]. intros x Hx. rewrite S2 by set_solver. apply S1. set_solver.
Qed.

Lemma linked_grows D s s' x y : grows D s s' -> linked s x y -> linked s' x y.
Proof. intros [N _]. apply rtc_subrel. intros a b. apply N. Qed.

(** Writing fields other than the link and the count. *)
Lemma same_grows s s' :
  (forall x, next (mbuf s' x) = next (mbuf s x) /\ nb_segs (mbuf s' x) = nb_segs (mbuf s x)) -> grows [] s s'.
Proof. intros He. split; intros x; [intros y; by rewrite (proj1 (He x))|by rewrite (proj2 (He x))]. Qed.

Lemma adj_same m n s x :
  next (mbuf (rte_pktmbuf_adj m n s).2 x) = next (mbuf s x) /\ nb_segs (mbuf (rte_pktmbuf_adj m n s).2 x) = nb_segs (mbuf s x).
Proof. unfold rte_pktmbuf_adj. destruct (n >? _); cbn [snd]; [done|]. rewrite mbuf_set. case_decide; by subst. Qed.

Lemma lastseg_linked s m x : rte_pktmbuf_lastseg s m = Some x -> linked s m x /\ next (mbuf s x) = None.
Proof.
  unfold rte_pktmbuf_lastseg. generalize (mfuel s) as n. intros n. revert m. induction n as [|n IH]; intros m; cbn [lastseg_loop];
    (destruct (next (mbuf s m)) as [y|] eqn:E; [|intros [= <-]; by split; [apply rtc_refl|]]); [done|].
  intros [Hl Hn]%IH. split; [|done]. by eapply rtc_l.
Qed.

(** [m] is chained behind [p]. *)
Lemma chain_grows p m s rc s' :
  rte_pktmbuf_chain p m s = Some (rc, s') -> p <> m ->
  0 <= nb_segs (mbuf s p) -> 0 <= nb_segs (mbuf s m) -> nb_segs (mbuf s p) + nb_segs (mbuf s m) < 256 ->
  grows [p] s s' /\ linked s' p m /\ nb_segs (mbuf s' p) = nb_segs (mbuf s p) + nb_segs (mbuf s m).
Proof.
  intros E Hne Hp Hm Hsum. unfold rte_pktmbuf_chain in E. rewrite Z.geb_leb, (proj2 (Z.leb_gt _ _)) in E by exact Hsum.
  destruct (rte_pktmbuf_lastseg s p) as [c|] eqn:El; [|done]. cbn [mbind option_bind] in E. cbv zeta in E.
  apply lastseg_linked in El as [Hpc Hc]. injection E as _ <-.
  set (s1 := set_mbuf c _ s). set (s2 := set_mbuf p _ s1).
  assert (H1 : forall x, nb_segs (mbuf s1 x) = nb_segs (mbuf s x)) by (intros x; unfold s1; rewrite mbuf_set; case_decide; by subst).
  assert (H1n : forall x, next (mbuf s1 x) = if decide (x = c) then Some m else next (mbuf s x)) by (intros x; unfold s1; rewrite mbuf_set; by case_decide).
  set (s3 := set_mbuf m _ s2).
  assert (H3 : forall x, next (mbuf s3 x) = next (mbuf s1 x)).
  { intros x. unfold s3, s2. rewrite !mbuf_set. repeat case_decide; by subst. }
  assert (H3s : forall x, nb_segs (mbuf s3 x) = if decide (x = p) then nb_segs (mbuf s p) + nb_segs (mbuf s m) else nb_segs (mbuf s x)).
  { intros x. unfold s3, s2. rewrite !mbuf_set. case_decide as Ex; [subst x; rewrite !(decide_False (P := m = p)) by congruence; apply H1|].
    case_decide as Ep; [|apply H1]. subst x. cbn. rewrite !H1. unfold u8. by rewrite wrap_small by lia. }
  assert (Hg : grows [p] s s3).
  { split.
    - intros x y Hx. rewrite H3, H1n. case_decide; [subst; congruence|done].
    - intros x Hx. rewrite H3s, decide_False; [done|]. intros ->. apply Hx. left. }
  split; [done|]. split; [|by rewrite H3s, decide_True].
  apply (rtc_r p c); [exact (linked_grows _ _ _ _ _ Hg Hpc)|]. by rewrite H3, H1n, decide_True.
Qed.

Lemma chain_behind_grows p m s s' :
  chain_behind (Some p) (Some m) s = Some s' -> p <> m ->
  0 <= nb_segs (mbuf s p) -> 0 <= nb_segs (mbuf s m) -> nb_segs (mbuf s p) + nb_segs (mbuf s m) < 256 ->
  grows [p] s s' /\ linked s' p m /\ nb_segs (mbuf s' p) = nb_segs (mbuf s p) + nb_segs (mbuf s m).
Proof.
  intros E Hne Hp Hm Hsum. unfold chain_behind in E. cbn [mbind option_bind] in E. set (s1 := (rte_pktmbuf_adj _ _ _).2) in E.
  assert (H1 := adj_same m (u16 (l2_len (mbuf s m) + l3_len (mbuf s m))) s). fold s1 in H1.
  destruct (rte_pktmbuf_chain p m s1) as [[rc s2]|] eqn:Ec; [|done]. cbn [mbind option_bind] in E. injection E as <-.
  rewrite <- (proj2 (H1 p)), <- (proj2 (H1 m)) in *. destruct (chain_grows p m s1 rc s2 Ec Hne Hp Hm Hsum) as (Hg & Hl & Hn).
  split; [|done]. eapply grows_trans; [by apply same_grows|exact Hg|set_solver|set_solver].
Qed.

End Links.

(** ** The fragments that are chained *)

Section Chained.
Context {P : Type} `{MP : !MbufPool P}.
Implicit Types (s : mstate P).
Context (e : ip_frag_pkt) (s0 : mstate P).

(** The slots in use. *)
Let n : nat := Z.to_nat (last_idx e).
Hypothesis (Hn : (2 <= n <= 4)%nat).

(** Different slots hold different mbufs of at most 63 segments; no fragment is
    empty. *)
Hypothesis (Hdist : forall i j x, (i < n)%nat -> (j < n)%nat -> mb (frag e i) = Some x -> mb (frag e j) = Some x -> i = j).
Hypothesis (Hsegs : forall j x, (j < n)%nat -> mb (frag e j) = Some x -> 0 <= nb_segs (mbuf s0 x) <= 63).
Hypothesis (Hrange : forall j, (j < n)%nat -> 0 <= ofs (frag e j) < 2 ^ 16 /\ 0 <= len (frag e j) < 2 ^ 16).
Hypothesis (Hpos : forall j, (j < n)%nat -> is_Some (mb (frag e j)) -> 0 < len (frag e j)).

(** Slots whose fragments follow each other, from [o] on and up to the end of
    the last fragment. *)
Fixpoint run_of (o : Z) (js : list nat) : Prop :=
  match js with
  | [] => False
  | [j] => j = IP_LAST_FRAG_IDX /\ ofs (frag e j) = o
  | j :: js' => j <> IP_LAST_FRAG_IDX /\ ofs (frag e j) = o /\ run_of (o + len (frag e j)) js'
  end.

Definition sum_lens (js : list nat) : Z := fold_right (fun j k => len (frag e j) + k) 0 js.

Lemma run_of_cons o j js : j <> IP_LAST_FRAG_IDX -> ofs (frag e j) = o -> run_of (o + len (frag e j)) js -> run_of o (j :: js).
Proof. intros Hj Ho Hr. destruct js; [done|]. cbn. done. Qed.

Lemma run_of_sum o js : run_of o js -> o + sum_lens js = ofs (frag e 0) + len (frag e 0).
Proof.
  revert o. induction js as [|j [|j' js] IH]; intros o; [done|intros [-> <-]; unfold sum_lens, IP_LAST_FRAG_IDX; cbn [fold_right]; lia|].
  intros (_ & _ & Hr). apply IH in Hr. unfold sum_lens in *. cbn [fold_right] in *. lia.
Qed.

Lemma run_of_low o js j : (forall i, i ∈ js -> (i < n)%nat) -> run_of o js -> j ∈ js -> o <= ofs (frag e j).
Proof.
  revert o. induction js as [|i [|j' js] IH]; intros o Hin; [done|intros [-> <-] ->%list_elem_of_singleton; lia|].
  intros (_ & <- & Hr) [->|Hj]%elem_of_cons; [lia|].
  specialize (IH _ ltac:(intros; apply Hin; by right) Hr Hj). destruct (Hrange i ltac:(apply Hin; left)). lia.
Qed.

(** The fragments of the slots [js] are chained behind [m]. *)
Record chained (js : list nat) (m : Z) s : Prop := {
  ch_head : exists j js', js = j :: js' /\ mb (frag e j) = Some m;
  ch_nodup : NoDup js;
  ch_in : forall j, j ∈ js -> (j < n)%nat;
  ch_mb : forall j, j ∈ js -> exists x, mb (frag e j) = Some x /\ linked s m x;
  ch_segs : 0 <= nb_segs (mbuf s m) <= 63 * Z.of_nat (length js);
  ch_rest : forall j x, (j < n)%nat -> j ∉ js -> mb (frag e j) = Some x -> 0 <= nb_segs (mbuf s x) <= 63;
  ch_grows : grows (entry_mbufs e) s0 s }.

Lemma slot_mbuf j x : length (frags e) = 4%nat -> (j < n)%nat -> mb (frag e j) = Some x -> x ∈ entry_mbufs e.
Proof.
  intros L Hj Hx. unfold entry_mbufs. apply list_elem_of_omap. exists (frag e j). split; [|done].
  apply list_elem_of_lookup. exists j. fold n. rewrite lookup_take_lt by done. apply list_lookup_lookup_total_lt. lia.
Qed.

Lemma chained_length js m s : chained js m s -> (length js <= 4)%nat.
Proof.
  intros [_ Hnd Hin _ _ _ _]. assert (Hs : js ⊆+ seq 0 n).
  { apply NoDup_submseteq; [done|]. intros j Hj. apply elem_of_seq. apply Hin in Hj. lia. }
  apply submseteq_length in Hs. rewrite length_seq in Hs. lia.
Qed.

(** One more fragment in front. *)
Lemma chained_step js m s j s' :
  length (frags e) = 4%nat -> chained js m s -> (j < n)%nat -> j ∉ js ->
  chain_behind (mb (frag e j)) (Some m) s = Some s' ->
  exists p, mb (frag e j) = Some p /\ chained (j :: js) p s'.
Proof.
  intros L C Hj Hnj E. destruct (mb (frag e j)) as [p|] eqn:Ep; [|unfold chain_behind in E; cbn in E; done].
  exists p. split; [done|]. pose proof (chained_length _ _ _ C) as Hlen. destruct C as [(i & js' & Ei & Em) Hnd Hin Hmb Hs Hr Hg].
  assert (Hpm : p <> m).
  { intros ->. apply Hnj. rewrite (Hdist j i m); [rewrite Ei; left|done|apply Hin; rewrite Ei; left|done|done]. }
  assert (Hlen' : (length (j :: js) <= 4)%nat).
  { assert (Hsub : (j :: js) ⊆+ seq 0 n).
    { apply NoDup_submseteq; [by constructor|]. intros i' [->|Hi']%elem_of_cons; apply elem_of_seq; [lia|]. apply Hin in Hi'. lia. }
    apply submseteq_length in Hsub. rewrite length_seq in Hsub. lia. }
  cbn in Hlen'. pose proof (Hr j p Hj Hnj Ep) as Hp.
  destruct (chain_behind_grows p m s s' E Hpm) as (G & Hl & Hnb); [lia|lia|lia|].
  assert (HG : grows (entry_mbufs e) s0 s').
  { eapply grows_trans; [exact Hg|exact G|done|]. intros x ->%list_elem_of_singleton. by eapply slot_mbuf. }
  constructor; [by exists j, js|by constructor| | | | |done].
  - intros i' [->|Hi']%elem_of_cons; [done|by apply Hin].
  - intros i' [->|Hi']%elem_of_cons; [exists p; split; [done|apply rtc_refl]|]. destruct (Hmb i' Hi') as (x & Hx & Hlx).
    exists x. split; [done|]. unfold linked. etrans; [exact Hl|]. exact (linked_grows _ _ _ _ _ G Hlx).
  - cbn [length]. lia.
  - intros i' x Hi' Hni Hx. rewrite (gr_segs _ _ _ G); [apply (Hr i'); [done|set_solver|done]|].
    intros ->%list_elem_of_singleton. apply Hni. rewrite (Hdist i' j p); [left|done|done|done|done].
Qed.

(** The state of the loops: the run found so far. *)
Definition loop_ok (m : option Z) (o : Z) s : Prop :=
  exists js x, m = Some x /\ chained js x s /\ run_of o js /\ (IP_FIRST_FRAG_IDX ∉ js).

Lemma inner_loop_ok fl i m o s m' o' s' :
  length (frags e) = 4%nat -> (i < n)%nat -> loop_ok m o s -> inner_loop e fl i m o s = Some (m', o', s') -> loop_ok m' o' s'.
Proof.
  intros L. revert m o s. induction i as [|[|i] IH]; intros m o s Hi Hok; [by intros [= <- <- <-]..|].
  change (inner_loop e fl (S (S i)) m o s) with
    (if o =? fl then Some (m, o, s)
     else if u32 (ofs (frag e (S (S i))) + len (frag e (S (S i)))) =? o then
       s1 ← chain_behind (mb (frag e (S (S i)))) m s;
       inner_loop e fl (S i) (mb (frag e (S (S i)))) (ofs (frag e (S (S i)))) s1
     else inner_loop e fl (S i) m o s).
  destruct (o =? fl); [by intros [= <- <- <-]|].
  destruct (Z.eqb_spec (u32 (ofs (frag e (S (S i))) + len (frag e (S (S i))))) o) as [Eo|_]; [|apply IH; [lia|done]].
  destruct (Hrange (S (S i)) Hi) as [Ho Hl]. rewrite u32_small in Eo by lia.
  destruct Hok as (js & x & -> & C & Hrun & Hn1). destruct (chain_behind _ _ s) as [s1|] eqn:Ec; [|done]. cbn [mbind option_bind].
  assert (Hpos' : 0 < len (frag e (S (S i)))).
  { apply Hpos; [done|]. destruct (mb (frag e (S (S i)))); [by eexists|]. by cbn in Ec. }
  assert (Hnj : S (S i) ∉ js).
  { intros Hj. pose proof (run_of_low _ _ _ (ch_in _ _ _ C) Hrun Hj). lia. }
  destruct (chained_step js x s (S (S i)) s1 L C Hi Hnj Ec) as (p & Ep & C'). rewrite Ep. apply IH; [lia|].
  exists (S (S i) :: js), p. split; [done|]. split; [done|]. split; [apply run_of_cons; [done|done|by rewrite Eo]|].
  intros [?|?]%elem_of_cons; [done|done].
Qed.

Lemma outer_loop_ok fl fuel i m o s res s' :
  length (frags e) = 4%nat -> (i < n)%nat -> loop_ok m o s -> outer_loop fuel e fl i m o s = Some (res, s') ->
  grows (entry_mbufs e) s0 s' /\ forall m', res = Some m' -> loop_ok m' fl s'.
Proof.
  intros L Hi. assert (Hgr : forall m o s, loop_ok m o s -> grows (entry_mbufs e) s0 s) by (by intros ? ? ? (js & x & _ & [] & _)).
  revert m o s. induction fuel as [|fuel IH]; intros m o s Hok; cbn [outer_loop]; destruct (Z.eqb_spec o fl) as [->|Ho]; try done.
  1,2: intros [= <- <-]; split; [by eapply Hgr|by intros m' [= <-]].
  destruct (inner_loop _ _ _ _ _ _) as [[[m1 o1] s1]|] eqn:Ei; [|done]. cbn [mbind option_bind].
  pose proof (inner_loop_ok _ _ _ _ _ _ _ _ L Hi Hok Ei) as Hok1.
  case_decide; [|by apply IH]. intros [= <- <-]. split; [by eapply Hgr|done].
Qed.

(** A packet comes out: the run from the first to the last fragment. *)
Lemma frag_chain_ok res s' :
  length (frags e) = 4%nat -> is_Some (mb (frag e 0)) -> frag_chain e s0 = Some (res, s') ->
  grows (entry_mbufs e) s0 s' /\
  forall r, res = Some r -> exists js, chained (IP_FIRST_FRAG_IDX :: js) r s' /\ run_of (len (frag e IP_FIRST_FRAG_IDX)) js.
Proof.
  intros L [x0 Hx0] E. unfold frag_chain in E. destruct (_ && _) in E; [done|].
  assert (H0 : loop_ok (mb (frag e IP_LAST_FRAG_IDX)) (ofs (frag e IP_LAST_FRAG_IDX)) s0).
  { exists [IP_LAST_FRAG_IDX], x0. split; [done|]. split; [|split; [done|set_solver]].
    constructor; [by exists IP_LAST_FRAG_IDX, []|apply NoDup_singleton| | | | |apply grows_refl].
    - intros j ->%list_elem_of_singleton. unfold IP_LAST_FRAG_IDX. lia.
    - intros j ->%list_elem_of_singleton. exists x0. split; [done|apply rtc_refl].
    - cbn [length]. apply Hsegs in Hx0; [lia|lia].
    - intros j x Hj _ Hx. by eapply Hsegs. }
  destruct (outer_loop _ _ _ _ _ _ _) as [[res1 s1]|] eqn:Eo; [|done]. cbn [mbind option_bind] in E.
  assert (Hi : (Z.to_nat (last_idx e - 1) < n)%nat) by (pose proof Hn as Hn'; unfold n in Hn' |- *; lia).
  destruct (outer_loop_ok _ _ _ _ _ _ _ _ L Hi H0 Eo) as [Hg Hres].
  destruct res1 as [m|]; [|injection E as <- <-; by split].
  destruct (Hres m eq_refl) as (js & x & -> & C & Hrun & Hn1).
  destruct (chain_behind _ _ s1) as [s2|] eqn:Ec; [|done]. cbn [mbind option_bind] in E.
  destruct (chained_step js x s1 IP_FIRST_FRAG_IDX s2 L C ltac:(unfold IP_FIRST_FRAG_IDX; lia) Hn1 Ec) as (p & Ep & C').
  rewrite Ep in E. cbn [mbind option_bind] in E. injection E as <- <-.
  assert (Hsame : forall y, next (mbuf (set_mbuf p (set_tx (Z.lor (ol_flags (mbuf s2 p)) PKT_TX_IP_CKSUM) (l2_len (mbuf s2 p)) (l3_len (mbuf s2 p)) (mbuf s2 p)) s2) y) =
    next (mbuf s2 y) /\ nb_segs (mbuf (set_mbuf p (set_tx (Z.lor (ol_flags (mbuf s2 p)) PKT_TX_IP_CKSUM) (l2_len (mbuf s2 p)) (l3_len (mbuf s2 p)) (mbuf s2 p)) s2) y) =
    nb_segs (mbuf s2 y)) by (intros y; rewrite mbuf_set; case_decide; by subst).
  apply same_grows in Hsame as Hgs. set (s3 := set_mbuf p _ s2) in *.
  pose proof (ch_grows _ _ _ C') as Hg2.
  split; [eapply grows_trans; [exact Hg2|exact Hgs|done|set_solver]|].
  intros r [= <-]. exists js. split; [|done]. destruct C' as [Hh Hnd Hin Hmb Hs Hr _].
  constructor; [done|done|done| | | |eapply grows_trans; [exact Hg2|exact Hgs|done|set_solver]].
  - intros j Hj. destruct (Hmb j Hj) as (y & Hy & Hl). exists y. split; [done|]. exact (linked_grows _ _ _ _ _ Hgs Hl).
  - by rewrite (proj2 (Hsame p)).
  - intros j y Hj Hnj Hy. rewrite (proj2 (Hsame y)). by apply (Hr j).
Qed.

(** When the lengths add up to the size of the datagram, the run has all the
    fragments. *)
Lemma run_has_all js j :
  (forall i, i ∈ IP_FIRST_FRAG_IDX :: js -> (i < n)%nat) -> NoDup (IP_FIRST_FRAG_IDX :: js) -> run_of (len (frag e IP_FIRST_FRAG_IDX)) js ->
  sum_lens (seq 0 n) = ofs (frag e 0) + len (frag e 0) -> (j < n)%nat -> is_Some (mb (frag e j)) -> j ∈ IP_FIRST_FRAG_IDX :: js.
Proof.
  intros Hin Hnd Hrun Hsum Hj Hmb. apply run_of_sum in Hrun.
  destruct (decide (j ∈ IP_FIRST_FRAG_IDX :: js)) as [|Hnj]; [done|exfalso].
  assert (Hsub : (j :: IP_FIRST_FRAG_IDX :: js) ⊆+ seq 0 n).
  { apply NoDup_submseteq; [by constructor|]. intros i' [->|Hi']%elem_of_cons; apply elem_of_seq; [lia|]. apply Hin in Hi'. lia. }
  apply submseteq_Permutation in Hsub as [rest Hp].
  assert (Hperm : forall l1 l2, l1 ≡ₚ l2 -> sum_lens l1 = sum_lens l2) by (unfold sum_lens; induction 1; cbn [fold_right] in *; lia).
  assert (Happ : forall l1 l2, sum_lens (l1 ++ l2) = sum_lens l1 + sum_lens l2) by (unfold sum_lens; induction l1; intros; cbn [fold_right app] in *; [lia|rewrite IHl1; lia]).
  apply Hperm in Hp as Hs. rewrite Happ in Hs.
  change (sum_lens (j :: IP_FIRST_FRAG_IDX :: js)) with (len (frag e j) + (len (frag e IP_FIRST_FRAG_IDX) + sum_lens js)) in Hs.
  assert (0 <= sum_lens rest).
  { assert (Hr : forall i, i ∈ rest -> (i < n)%nat).
    { intros i Hi. assert (Hi' : i ∈ seq 0 n) by (rewrite Hp; set_solver). apply elem_of_seq in Hi'. lia. }
    clear -Hr Hrange. induction rest as [|i rest IH]; [done|]. destruct (Hrange i ltac:(apply Hr; left)).
    specialize (IH ltac:(intros; apply Hr; by right)). change (sum_lens (i :: rest)) with (len (frag e i) + sum_lens rest). lia. }
  specialize (Hpos j Hj Hmb). lia.
Qed.

End Chained.

(** ** The fragments of an entry *)

(** A call of the part that the two protocols share. *)
Record frag_in := mkIn { in_mb : Z; in_tms : Z; in_key : ip_frag_key; in_ofs : Z; in_len : Z; in_more : Z }.

Definition frag_of (i : frag_in) : ip_frag := mkFrag (in_ofs i) (in_len i) (Some (in_mb i)).

(** Offset and length are 16-bit numbers, and there is payload. *)
Definition in_ok (i : frag_in) : Prop := 0 <= in_ofs i < 2 ^ 16 /\ 0 < in_len i < 2 ^ 16.

(** The fragments that belong to slot [j]. *)
Definition role (j : nat) (i : frag_in) : Prop :=
  match j with
  | O => in_ofs i <> 0 /\ in_more i = 0
  | S O => in_ofs i = 0
  | _ => in_ofs i <> 0 /\ in_more i <> 0
  end.

(** The entry holds fragments of [ins]. *)
Record stored_ok (ins : list frag_in) (e : ip_frag_pkt) : Prop := {
  so_slot : forall j, (j < Z.to_nat (last_idx e))%nat ->
    frag e j = zero_frag \/ exists i, i ∈ ins /\ frag e j = frag_of i /\ keq (in_key i) (key e) /\ role j i;
  so_size : frag_size e = sum_lens e (seq 0 (Z.to_nat (last_idx e)));
  so_total : total_size e =
    match mb (frag e 0) with Some _ => ofs (frag e 0) + len (frag e 0) | None => UINT32_MAX end }.

Lemma stored_ok_mono ins ins' e : ins ⊆ ins' -> stored_ok ins e -> stored_ok ins' e.
Proof.
  intros Hs [H1 H2 H3]. split; [|done|done]. intros j Hj. destruct (H1 j Hj) as [|(i & Hi & ?)]; [by left|right]. exists i. split; [by apply Hs|done].
Qed.

(** A list of four slots, by its elements. *)
Lemma four_slots (f : list ip_frag) : length f = 4%nat -> f = [f !!! 0%nat; f !!! 1%nat; f !!! 2%nat; f !!! 3%nat].
Proof. intros L. do 4 (destruct f as [|? f]; [done|]). by destruct f. Qed.

Lemma fresh_stored ins k tms e : fresh k tms e -> stored_ok ins e.
Proof.
  intros (e0 & [L _] & _ & ->). destruct e0 as [k0 st ts fs li f]. cbn in L. do 4 (destruct f as [|? f]; [done|]). destruct f; [|done].
  split; try done. intros [|[|j]] Hj; [by left..|]. unfold ip_frag_reset, IP_MIN_FRAG_NUM in Hj. cbn [last_idx] in Hj. lia.
Qed.

Lemma stored_range ins e j :
  stored_ok ins e -> (forall i, i ∈ ins -> in_ok i) -> (j < Z.to_nat (last_idx e))%nat ->
  0 <= ofs (frag e j) < 2 ^ 16 /\ 0 <= len (frag e j) < 2 ^ 16 /\ (is_Some (mb (frag e j)) -> 0 < len (frag e j)).
Proof.
  intros S Hok Hj. destruct (so_slot _ _ S j Hj) as [->|(i & Hi & -> & _)]; [cbn [ofs len mb zero_frag]; split; [lia|]; split; [lia|by intros []]|].
  destruct (Hok i Hi). cbn [ofs len mb frag_of]. split; [lia|]. split; [lia|]. intros _. lia.
Qed.

Lemma sum_lens_bound e js : (forall j, j ∈ js -> 0 <= len (frag e j) < 2 ^ 16) -> 0 <= sum_lens e js <= 2 ^ 16 * Z.of_nat (length js).
Proof.
  induction js as [|j js IH]; intros Hj; [done|]. specialize (IH ltac:(intros; apply Hj; by right)). specialize (Hj j ltac:(left)).
  change (sum_lens e (j :: js)) with (len (frag e j) + sum_lens e js). cbn [length]. lia.
Qed.

(** The new fragment in its slot. *)
Definition put_frag (e : ip_frag_pkt) (i : frag_in) (idx tsize lidx : Z) : ip_frag_pkt :=
  mkPkt (key e) (start e) tsize (u32 (frag_size e + in_len i)) lidx (<[Z.to_nat idx := frag_of i]> (frags e)).

Lemma put_frag_at e i idx tsize lidx j :
  length (frags e) = 4%nat -> 0 <= idx < 4 ->
  frag (put_frag e i idx tsize lidx) j = if decide (j = Z.to_nat idx) then frag_of i else frag e j.
Proof.
  intros L Hi. unfold frag, put_frag. cbn [frags]. case_decide as E; [subst; apply list_lookup_total_insert_eq; lia|].
  by rewrite list_lookup_total_insert_ne.
Qed.

Lemma put_frag_sum e i idx tsize lidx n :
  length (frags e) = 4%nat -> 0 <= idx < 4 -> (Z.to_nat idx < n)%nat ->
  sum_lens (put_frag e i idx tsize lidx) (seq 0 n) = sum_lens e (seq 0 n) - len (frag e (Z.to_nat idx)) + in_len i.
Proof.
  intros L Hi Hn. assert (Hg : forall m k, sum_lens (put_frag e i idx tsize lidx) (seq k m) =
    sum_lens e (seq k m) + if decide (k <= Z.to_nat idx < k + m)%nat then in_len i - len (frag e (Z.to_nat idx)) else 0).
  { induction m as [|m IH]; intros k; [rewrite decide_False by lia; cbn; lia|]. cbn [seq].
    change (sum_lens ?x (k :: ?l)) with (len (frag x k) + sum_lens x l). rewrite IH, put_frag_at by done.
    repeat case_decide; subst; cbn [len frag_of]; lia. }
  rewrite Hg, decide_True by lia. lia.
Qed.

Lemma put_stored ins e i idx tsize lidx :
  shaped e -> 2 <= last_idx e <= 4 -> stored_ok ins e -> (forall x, x ∈ ins -> in_ok x) -> in_ok i -> keq (in_key i) (key e) ->
  frag_slot e (in_ofs i) (in_len i) (in_more i) = (idx, tsize, lidx) -> idx < 4 ->
  2 <= lidx <= 4 /\ 0 <= idx < 4 /\ stored_ok (i :: ins) (put_frag e i idx tsize lidx) /\
  frag_size (put_frag e i idx tsize lidx) = frag_size e + in_len i.
Proof.
  intros [L _] Hl S Hok Hi Hk Hs Hidx. pose proof (so_size _ _ S) as Hsz. pose proof (so_total _ _ S) as Ht.
  assert (Hb : 0 <= frag_size e <= 2 ^ 18).
  { rewrite Hsz. pose proof (sum_lens_bound e (seq 0 (Z.to_nat (last_idx e)))) as Hb. rewrite length_seq in Hb.
    destruct Hb; [intros j Hj; apply elem_of_seq in Hj; by apply (stored_range ins e j S Hok); lia|lia]. }
  destruct (Hi) as [Hio Hil].
  assert (Hgen : 0 <= idx < 4 -> 2 <= lidx <= 4 -> (Z.to_nat idx < Z.to_nat lidx)%nat ->
    ((Z.to_nat idx < Z.to_nat (last_idx e))%nat /\ lidx = last_idx e /\ mb (frag e (Z.to_nat idx)) = None \/
     Z.to_nat idx = Z.to_nat (last_idx e) /\ lidx = last_idx e + 1) -> role (Z.to_nat idx) i ->
    tsize = (if decide (Z.to_nat idx = 0%nat) then in_ofs i + in_len i else total_size e) ->
    stored_ok (i :: ins) (put_frag e i idx tsize lidx) /\ frag_size (put_frag e i idx tsize lidx) = frag_size e + in_len i).
  { intros H1 H2 H3 Hnew Hr Hts. assert (Ef : frag_size (put_frag e i idx tsize lidx) = frag_size e + in_len i) by (cbn; apply u32_small; lia).
    split; [|done]. split.
    - intros j Hj. rewrite put_frag_at by done. destruct (decide (j = Z.to_nat idx)) as [Ej|Ej]; [right; exists i; rewrite Ej; split_and!; [left|done|exact Hk|exact Hr]|].
      destruct (so_slot _ _ S j) as [|(x & Hx & ?)]; [cbn in Hj; lia|by left|right]. exists x. split; [by right|done].
    - rewrite Ef, Hsz. cbn [last_idx put_frag]. fold (put_frag e i idx tsize lidx). rewrite put_frag_sum by done.
      destruct Hnew as [(Hlt & -> & Hmb)|[Ei ->]].
      + destruct (so_slot _ _ S _ Hlt) as [->|(x & _ & E & _)]; [cbn [len zero_frag]; lia|by rewrite E in Hmb].
      + replace (Z.to_nat (last_idx e + 1)) with (Z.to_nat (last_idx e) + 1)%nat by lia. rewrite seq_app.
        unfold sum_lens at 2. rewrite fold_right_app. cbn [seq fold_right Nat.add]. rewrite Ei.
        assert (Hfold : forall l a, fold_right (fun j k => len (frag e j) + k) a l = sum_lens e l + a).
        { induction l as [|x l IH]; intros a; [cbn; lia|]. cbn [fold_right]. rewrite IH.
          change (sum_lens e (x :: l)) with (len (frag e x) + sum_lens e l). lia. }
        rewrite Hfold. lia.
    - rewrite put_frag_at by done. cbn [total_size put_frag]. rewrite Hts. destruct (decide (0%nat = Z.to_nat idx)) as [E0|E0]; [by rewrite decide_True by congruence|].
      by rewrite decide_False by congruence. }
  revert Hs. unfold frag_slot, IP_MAX_FRAG_NUM, UINT32_MAX, IP_FIRST_FRAG_IDX, IP_LAST_FRAG_IDX in *.
  destruct (Z.eqb_spec (in_ofs i) 0) as [Eo|Eo]; [|destruct (Z.eqb_spec (in_more i) 0) as [Em|Em]].
  - destruct (mb (frag e 1)) eqn:E; intros [= <- <- <-]; [lia|]. split; [lia|]. split; [lia|].
    apply Hgen; [lia|lia|lia|left; split; [lia|done]|done|done].
  - destruct (mb (frag e 0)) eqn:E; intros [= <- <- <-]; [lia|]. split; [lia|]. split; [lia|].
    apply Hgen; [lia|lia|lia|left; split; [lia|done]|done|]. rewrite decide_True by done. apply u32_small. lia.
  - destruct (Z.ltb_spec (last_idx e) 4); intros [= <- <- <-]; [|lia]. split; [lia|]. split; [lia|].
    apply Hgen; [lia|lia|lia|right; lia| |].
    + destruct (Z.to_nat (last_idx e)) as [|[|k]] eqn:E; [lia|lia|done].
    + rewrite decide_False by lia. done.
Qed.

(** ** Packets that are returned *)

(** The fragments follow each other from [o] on. *)
Fixpoint tiles (o : Z) (g : list frag_in) : Prop :=
  match g with [] => True | i :: g' => in_ofs i = o /\ tiles (o + in_len i) g' end.

Section Packets.
Context {P : Type} `{MP : !MbufPool P}.
Implicit Types (s : mstate P) (e : ip_frag_pkt) (ins g : list frag_in).

(** The packet [r] is made of the fragments [g] of [ins]: at most four
    fragments of one datagram, which cover it from offset 0 to the end of its
    last fragment without gap and overlap; [r] is the mbuf of the first one, and
    the mbufs of all are in its chain. *)
Record packet_of ins s (r : Z) g : Prop := {
  po_ends : exists first mid last, g = first :: mid ++ [last] /\ in_mb first = r /\ in_more last = 0;
  po_tiles : tiles 0 g;
  po_num : (length g <= 4)%nat;
  po_key : exists k, forall x, x ∈ g -> keq (in_key x) k;
  po_in : forall x, x ∈ g -> x ∈ ins /\ linked s r (in_mb x) }.

Lemma packet_of_mono D ins ins' s s' r g : ins ⊆ ins' -> grows D s s' -> packet_of ins s r g -> packet_of ins' s' r g.
Proof.
  intros Hi Hg [H1 H2 H3 H4 H5]. split; [done..|]. intros x Hx. destruct (H5 x Hx) as [? Hl]. split; [by apply Hi|]. exact (linked_grows _ _ _ _ _ Hg Hl).
Qed.

(** The inputs of the slots. *)
Definition slot_input ins e (j : nat) (i : frag_in) : Prop :=
  i ∈ ins /\ frag e j = frag_of i /\ keq (in_key i) (key e) /\ role j i.

Lemma slot_inputs ins e js :
  stored_ok ins e -> (forall j, j ∈ js -> (j < Z.to_nat (last_idx e))%nat /\ is_Some (mb (frag e j))) ->
  exists g, Forall2 (slot_input ins e) js g.
Proof.
  intros S. induction js as [|j js IH]; intros Hj; [by exists []|]. destruct IH as [g Hg]; [intros; apply Hj; by right|].
  destruct (Hj j ltac:(left)) as [Hlt Hs]. destruct (so_slot _ _ S j Hlt) as [E|(i & Hi)]; [rewrite E in Hs; by destruct Hs|].
  exists (i :: g). by constructor.
Qed.

Lemma run_of_inputs ins e o js g :
  run_of e o js -> Forall2 (slot_input ins e) js g ->
  tiles o g /\ exists mid last, g = mid ++ [last] /\ in_more last = 0.
Proof.
  intros Hr HF. revert o Hr. induction HF as [|j i js g (Hi & Ef & Hk & Hrole) HF IH]; intros o; [done|].
  destruct js as [|j' js].
  - inversion HF; subst. intros [-> Ho]. rewrite Ef in Ho. cbn in Ho. split; [done|]. exists [], i. split; [done|apply Hrole].
  - intros (_ & Ho & Hr). rewrite Ef in Ho, Hr. cbn [ofs len frag_of] in Ho, Hr. destruct (IH _ Hr) as (Ht & mid & last & -> & Hl).
    split; [done|]. exists (i :: mid), last. done.
Qed.

Lemma omap_filter {A B} (f : A -> option B) (l : list A) : omap f (filter (fun x => is_Some (f x)) l) = omap f l.
Proof.
  induction l as [|x l IH]; [done|]. destruct (f x) as [y|] eqn:E.
  - rewrite filter_cons_True by (by rewrite E). cbn. by rewrite E, IH.
  - rewrite filter_cons_False by (rewrite E; by intros []). cbn. by rewrite E, IH.
Qed.

Lemma entry_mbufs_slots e : length (frags e) = 4%nat -> 0 <= last_idx e <= 4 ->
  entry_mbufs e = omap (fun j => mb (frag e j)) (seq 0 (Z.to_nat (last_idx e))).
Proof.
  intros L Hl. unfold entry_mbufs. assert (Hn : (Z.to_nat (last_idx e) <= length (frags e))%nat) by lia.
  revert Hn. generalize (Z.to_nat (last_idx e)) as n. induction n as [|n IH]; intros Hn; [done|].
  rewrite (take_S_r _ n (frags e !!! n)) by (apply list_lookup_lookup_total_lt; lia).
  rewrite seq_S, !omap_app, IH by lia. done.
Qed.

Lemma slots_distinct e i j x :
  length (frags e) = 4%nat -> 0 <= last_idx e <= 4 -> NoDup (entry_mbufs e) ->
  (i < Z.to_nat (last_idx e))%nat -> (j < Z.to_nat (last_idx e))%nat ->
  mb (frag e i) = Some x -> mb (frag e j) = Some x -> i = j.
Proof.
  intros L Hl Hnd. rewrite entry_mbufs_slots in Hnd by done.
  assert (Hgen : forall n k, NoDup (omap (fun j => mb (frag e j)) (seq k n)) -> (k <= i < k + n)%nat -> (k <= j < k + n)%nat ->
    mb (frag e i) = Some x -> mb (frag e j) = Some x -> i = j); [|intros; eapply Hgen; try done; lia].
  induction n as [|n IH]; intros k Hd Hi Hj Ei Ej; [lia|]. cbn [seq] in Hd.
  assert (Hin : forall y, (S k <= y < S k + n)%nat -> mb (frag e y) = Some x -> x ∈ omap (fun j => mb (frag e j)) (seq (S k) n)).
  { intros y Hy Ey. apply list_elem_of_omap. exists y. split; [apply elem_of_seq; lia|done]. }
  cbn in Hd. change (frags e !!! k) with (frag e k) in Hd. destruct (decide (i = k)) as [->|], (decide (j = k)) as [->|]; [done| | |].
  - rewrite Ei in Hd. apply NoDup_cons in Hd as [Hx _]. destruct Hx. apply (Hin j); [lia|done].
  - rewrite Ej in Hd. apply NoDup_cons in Hd as [Hx _]. destruct Hx. apply (Hin i); [lia|done].
  - apply (IH (S k)); [|lia|lia|done|done]. destruct (mb (frag e k)); [by apply NoDup_cons in Hd as [_ ?]|done].
Qed.

(** A packet comes out of the chain of an entry. *)
Lemma chain_packet ins e s res s' :
  length (frags e) = 4%nat -> 2 <= last_idx e <= 4 -> stored_ok ins e -> (forall x, x ∈ ins -> in_ok x) ->
  NoDup (entry_mbufs e) -> (forall x, x ∈ entry_mbufs e -> 0 <= nb_segs (mbuf s x) <= 63) ->
  frag_size e = total_size e -> frag_chain e s = Some (res, s') ->
  grows (entry_mbufs e) s s' /\
  forall r, res = Some r -> exists g, packet_of ins s' r g /\ map in_mb g ≡ₚ entry_mbufs e.
Proof.
  intros L Hl S Hok Hnd Hnb Hsz E. set (n := Z.to_nat (last_idx e)). assert (Hn : (2 <= n <= 4)%nat) by (unfold n; lia).
  pose proof (fun j Hj => stored_range ins e j S Hok Hj) as Hrg. fold n in Hrg.
  assert (Hlast : is_Some (mb (frag e 0))).
  { pose proof (so_total _ _ S) as Ht. destruct (mb (frag e 0)); [by eexists|exfalso].
    pose proof (so_size _ _ S) as Hs. pose proof (sum_lens_bound e (seq 0 n)) as Hb. rewrite length_seq in Hb. fold n in Hs.
    destruct Hb; [intros j Hj; apply elem_of_seq in Hj; by apply Hrg; lia|]. unfold UINT32_MAX in Ht. lia. }
  assert (Hd : forall i j x, (i < n)%nat -> (j < n)%nat -> mb (frag e i) = Some x -> mb (frag e j) = Some x -> i = j)
    by (intros i j x; apply slots_distinct; done || lia).
  assert (Hsg : forall j x, (j < n)%nat -> mb (frag e j) = Some x -> 0 <= nb_segs (mbuf s x) <= 63)
    by (intros j x Hj Hx; apply Hnb; by apply (slot_mbuf e Hn j)).
  assert (Hr0 : forall j, (j < n)%nat -> 0 <= ofs (frag e j) < 2 ^ 16 /\ 0 <= len (frag e j) < 2 ^ 16)
    by (intros j Hj; destruct (Hrg j Hj) as (?&?&_); done).
  assert (Hp0 : forall j, (j < n)%nat -> is_Some (mb (frag e j)) -> 0 < len (frag e j)) by (intros j Hj; by apply Hrg).
  destruct (frag_chain_ok e s Hn Hd Hsg Hr0 Hp0 res s' L Hlast E) as [Hg Hres].
  split; [done|]. intros r ->. destruct (Hres r eq_refl) as (js & C & Hrun).
  assert (Hin := ch_in _ _ _ _ _ C). assert (Hmb := ch_mb _ _ _ _ _ C).
  assert (Hsome : forall j, j ∈ IP_FIRST_FRAG_IDX :: js -> (j < n)%nat /\ is_Some (mb (frag e j))).
  { intros j Hj. split; [by apply Hin|]. destruct (Hmb j Hj) as (x & Hx & _). by exists x. }
  destruct (slot_inputs ins e _ S Hsome) as [g Hgi].
  assert (Hall : forall j, (j < n)%nat -> is_Some (mb (frag e j)) -> j ∈ IP_FIRST_FRAG_IDX :: js).
  { intros j Hj Hs. apply (run_has_all e s Hn Hd Hsg Hr0 Hp0 js j); try done; [exact (ch_nodup _ _ _ _ _ C)|].
    pose proof (so_size _ _ S) as Hs1. rewrite <- Hs1, Hsz, (so_total _ _ S). by destruct Hlast as [? ->]. }
  assert (Hperm : IP_FIRST_FRAG_IDX :: js ≡ₚ filter (fun j => is_Some (mb (frag e j))) (seq 0 n)).
  { apply NoDup_Permutation; [exact (ch_nodup _ _ _ _ _ C)|apply NoDup_filter, NoDup_seq|]. intros j.
    rewrite (list_elem_of_filter (fun j => is_Some (mb (frag e j)))), elem_of_seq. split.
    - intros [? ?]%Hsome. split; [done|lia].
    - intros [? ?]. apply Hall; [lia|done]. }
  assert (Hmap : map in_mb g = omap (fun j => mb (frag e j)) (IP_FIRST_FRAG_IDX :: js)).
  { clear -Hgi. induction Hgi as [|j i l g (_ & Ef & _) _ IH]; [done|]. cbn [map omap list_omap]. rewrite Ef. cbn [mb frag_of]. by rewrite IH. }
  exists g. split; [|rewrite Hmap, Hperm, omap_filter, entry_mbufs_slots by (done || lia); done].
  inversion Hgi as [|? first ? g' Hfirst Hg' E1 E2]; subst. destruct Hfirst as (Hfi & Eff & Hfk & Hfr).
  rewrite Eff in Hrun. cbn [len frag_of] in Hrun. destruct (run_of_inputs _ _ _ _ _ Hrun Hg') as (Ht & mid & last & -> & Hm).
  assert (Hr : in_mb first = r).
  { destruct (ch_head _ _ _ _ _ C) as (j & js' & [= <- <-] & Hj). rewrite Eff in Hj. by injection Hj as ->. }
  split.
  - by exists first, mid, last.
  - cbn [tiles]. rewrite Z.add_0_l. split; [exact Hfr|done].
  - apply Forall2_length in Hgi. pose proof (chained_length _ _ Hn _ _ _ C). lia.
  - exists (key e). intros x Hx. apply list_elem_of_lookup in Hx as [k Hk].
    destruct (Forall2_lookup_r _ _ _ _ _ Hgi Hk) as (j & _ & _ & _ & ? & _). done.
  - intros x Hx. apply list_elem_of_lookup in Hx as [k Hk].
    destruct (Forall2_lookup_r _ _ _ _ _ Hgi Hk) as (j & Hj & Hxi & Exf & _). split; [done|].
    destruct (Hmb j) as (y & Hy & Hl'); [by eapply list_elem_of_lookup_2|]. rewrite Exf in Hy. cbn in Hy. by injection Hy as ->.
Qed.

Lemma memmove_mbufs dst src n s : mbufs (ip_frag_memmove dst src n s) = mbufs s.
Proof. revert s. induction n as [|n IH]; intros s; [done|]. cbn. by rewrite IH. Qed.

(** Behind the chain only the header and the data of the packet change. *)
Lemma reassemble_grows e s res s' :
  ipv4_frag_reassemble e s = Some (res, s') \/ ipv6_frag_reassemble e s = Some (res, s') ->
  exists s1, frag_chain e s = Some (res, s1) /\ grows [] s1 s'.
Proof.
  unfold ipv4_frag_reassemble, ipv6_frag_reassemble. destruct (frag_chain e s) as [[[m|] s1]|]; cbn [mbind option_bind]; [| |by intros [?|?]].
  - intros [E|E]; injection E as <- <-; exists s1; (split; [done|]); [by apply same_grows|].
    apply same_grows. intros x. cbv zeta. set (d := ip_frag_memmove _ _ _ _).
    assert (Hd : forall y, mbuf d y = mbuf s1 y) by (intros y; unfold mbuf, d; by rewrite memmove_mbufs).
    destruct (adj_same m SIZEOF_FRAG_HDR d x) as [-> ->]. by rewrite Hd.
  - intros [E|E]; injection E as <- <-; exists s1; (split; [done|apply grows_refl]).
Qed.

(** What an entry does with a fragment: it keeps it, gives everything up, or
    returns a packet of all its fragments. *)
Lemma process_links ins e dr i s res e' dr' s' :
  shaped e -> 2 <= last_idx e <= 4 -> stored_ok ins e -> (forall x, x ∈ ins -> in_ok x) -> in_ok i -> keq (in_key i) (key e) ->
  NoDup (in_mb i :: entry_mbufs e) -> (forall x, x ∈ in_mb i :: entry_mbufs e -> 0 <= nb_segs (mbuf s x) <= 63) ->
  ip_frag_process e dr (in_mb i) (in_ofs i) (in_len i) (in_more i) s = Some (res, e', dr', s') ->
  grows (in_mb i :: entry_mbufs e) s s' /\
  (key e' = key e /\ stored_ok (i :: ins) e' /\ s' = s \/ key e' = ip_frag_key_invalidate (key e)) /\
  forall r, res = Some r -> exists g, packet_of (i :: ins) s' r g /\ map in_mb g ≡ₚ in_mb i :: entry_mbufs e.
Proof.
  intros Hs Hi S Hok Hin Hk Hnd Hnb. unfold ip_frag_process.
  destruct (frag_slot e (in_ofs i) (in_len i) (in_more i)) as [[idx tsize] lidx] eqn:Esl.
  pose proof (slot_mbufs e _ _ _ (in_mb i) idx tsize lidx Hs Hi Esl) as Hsl. unfold IP_MAX_FRAG_NUM.
  destruct (Z.leb_spec 4 idx) as [Hle|Hlt].
  - destruct Hsl as [[-> _]|(_ & ? & _)]; [|lia].
    match goal with |- context [ip_frag_free ?x dr] => destruct (free_spec x dr Hs ltac:(cbn; lia)) as (e1 & Ef & L1 & K1 & _) end.
    rewrite Ef. intros [= <- <- <- <-]. split; [apply grows_refl|]. split; [|done]. right. cbn. by rewrite K1.
  - destruct Hsl as [[_ ?]|(_ & _ & Hmb)]; [lia|].
    destruct (put_stored ins e i idx tsize lidx Hs Hi S Hok Hin Hk Esl Hlt) as (Hli & Hix & S1 & Hfs).
    change (mkPkt _ _ _ _ _ (<[_ := _]> _)) with (put_frag e i idx tsize lidx). set (e1 := put_frag e i idx tsize lidx) in *.
    specialize (Hmb (key e) (start e) tsize (u32 (frag_size e + in_len i))). change (mkPkt _ _ _ _ _ _) with e1 in Hmb.
    assert (L1 : length (frags e1) = 4%nat) by (cbn; rewrite length_insert; apply Hs).
    assert (Hs1 : shaped e1) by (split; [done|apply Hs]).
    change (u32 (frag_size e + in_len i)) with (frag_size e1). change tsize with (total_size e1).
    destruct (_ <? total_size e1); [intros [= <- <- <- <-]; split; [apply grows_refl|]; split; [by left|done]|].
    match goal with |- context [mbind _ ?X] => set (R := X) end. destruct R as [[res1 s1]|] eqn:ER; cbn [mbind option_bind]; [|done].
    assert (HR : grows (in_mb i :: entry_mbufs e) s s1 /\
      forall r, res1 = Some r -> exists g, packet_of (i :: ins) s1 r g /\ map in_mb g ≡ₚ in_mb i :: entry_mbufs e).
    { unfold R in ER. destruct (Z.eqb_spec (frag_size e1) (total_size e1)) as [Esz|]; [|injection ER as <- <-; split; [apply grows_refl|done]].
      cbn [andb] in ER. destruct (bool_decide _); [|injection ER as <- <-; split; [apply grows_refl|done]].
      destruct (reassemble_grows e1 s res1 s1) as (s2 & Ec & G2); [destruct (_ =? _); auto|].
      destruct (chain_packet (i :: ins) e1 s res1 s2) as [G1 Hp]; try done.
      { intros x [->|Hx]%elem_of_cons; [done|by apply Hok]. }
      { by rewrite Hmb. }
      { intros x Hx. apply Hnb. by rewrite <- Hmb. }
      split; [eapply grows_trans; [exact G1|exact G2|intros x Hx; by rewrite <- Hmb|set_solver]|].
      intros r Hr. destruct (Hp r Hr) as (g & Hpk & Hperm). exists g. split; [|by rewrite Hperm].
      eapply packet_of_mono; [reflexivity|exact G2|done]. }
    destruct HR as [G HP]. destruct (match res1 with None => ip_frag_free e1 dr | Some _ => (e1, dr) end) as [e2 dr2] eqn:Ed.
    intros [= <- <- <- <-]. split; [done|]. split; [|done]. right. cbn [key set_key]. f_equal.
    destruct res1; [by injection Ed as <- _|]. destruct (free_spec e1 dr Hs1 ltac:(cbn; lia)) as (e3 & Ef & _ & K3 & _). rewrite Ef in Ed. by injection Ed as <- _.
Qed.

End Packets.

(** ** The mbufs of the table *)

Definition tbl_mbufs (t : rte_ip_frag_tbl) : list Z := lru t ≫= fun fp => entry_mbufs (entry t fp).

Lemma entry_mbufs_bound e : length (frags e) = 4%nat -> (length (entry_mbufs e) <= 4)%nat.
Proof.
  intros L. unfold entry_mbufs. assert (Hl : forall l : list ip_frag, (length (omap mb l) <= length l)%nat).
  { induction l as [|f l IH]; cbn; [done|]. destruct (mb f); cbn; lia. }
  pose proof (Hl (take (Z.to_nat (last_idx e)) (frags e))). rewrite length_take in *. lia.
Qed.

Lemma bind_ext_on {A B} (f g : A -> list B) (l : list A) : (forall x, x ∈ l -> f x = g x) -> l ≫= f = l ≫= g.
Proof.
  induction l as [|x l IH]; intros Hx; [done|]. cbn. rewrite Hx by left. f_equal. apply IH. intros. apply Hx. by right.
Qed.

(** The mbufs of one entry and those of the others. *)
Lemma tbl_mbufs_split t fp :
  NoDup (lru t) -> fp ∈ lru t ->
  tbl_mbufs t ≡ₚ entry_mbufs (entry t fp) ++ (tailq_remove fp (lru t) ≫= fun x => entry_mbufs (entry t x)).
Proof. intros Hn Hf. unfold tbl_mbufs. by rewrite (tailq_remove_perm fp (lru t)) at 1. Qed.

Lemma tbl_mbufs_others t t' fp :
  (forall x, x <> fp -> entry t' x = entry t x) ->
  (tailq_remove fp (lru t) ≫= fun x => entry_mbufs (entry t' x)) = (tailq_remove fp (lru t) ≫= fun x => entry_mbufs (entry t x)).
Proof. intros He. apply bind_ext_on. intros x [Hx _]%elem_tailq_remove. by rewrite He. Qed.

Section Input.
Context `{FragHash} {kl : Z} {K : ip_frag_key -> Prop} (KS : key_space kl K).
Context {P : Type} `{MP : !MbufPool P}.
Implicit Types (s : mstate P) (t : rte_ip_frag_tbl) (dr : death_row).
Abbreviation table_ok := (@table_ok _ kl K).
Abbreviation find_ok := (@find_ok _ kl K).

Lemma find_mbufs t dr k tms gone r t' dr' :
  table_ok t -> find_ok t dr k tms gone r t' dr' ->
  tbl_mbufs t' ++ dr' ≡ₚ tbl_mbufs t ++ dr /\ (length dr' <= length dr + 4)%nat /\ (gone = [] -> dr' = dr).
Proof.
  intros T F. assert (Fr : match r with Some fp => _ | None => True end) by (destruct r; [exact (find_res _ _ _ _ _ _ _ _ T F)|exact I]).
  destruct F as [F1 F2 F3 [Fg Fg'] Fd Fk Fl _].
  assert (Hnew : tbl_mbufs t' = filter (fun v => v ∉ gone) (lru t) ≫= fun fp => entry_mbufs (entry t fp)).
  { unfold tbl_mbufs. rewrite Fl, bind_app. rewrite (bind_ext_on _ (fun fp => entry_mbufs (entry t fp)) (filter _ _)).
    2:{ intros x Hx. apply (list_elem_of_filter (fun v => v ∉ gone)) in Hx as [Hx1 Hx2]. by rewrite Fk. }
    destruct r as [fp|]; [|by rewrite app_nil_r]. destruct Fr as [_ Fr]. case_decide as Ed; [by rewrite app_nil_r|].
    destruct Fr as [[-> [Hin _]]|[_ Hf]]; [destruct Ed; split; [done|apply not_elem_of_nil]|]. cbn.
    by rewrite (fresh_mbufs _ _ _ Hf), !app_nil_r. }
  destruct gone as [|v [|? ?]]; [| |cbn in Fg; lia]; subst dr'.
  - rewrite Hnew, filter_not_in_none. cbn. rewrite app_nil_r. split; [done|]. split; [lia|done].
  - destruct (Fg' v ltac:(left)) as [Hv _]. rewrite Hnew, filter_not_in_one, (tbl_mbufs_split t v) by (done || apply T). cbn. rewrite app_nil_r, length_app.
    pose proof (entry_mbufs_bound (entry t v) (proj1 (to_shape _ T v))). split; [|split; [lia|done]].
    rewrite (Permutation_app_comm dr), app_assoc, (Permutation_app_comm (_ ≫= _) (entry_mbufs _)). done.
Qed.

(** The entries hold fragments of [ins]. *)
Definition tbl_stored (ins : list frag_in) t : Prop := forall fp, fp ∈ lru t -> stored_ok ins (entry t fp).

Lemma find_stored ins t dr k tms gone r t' dr' :
  table_ok t -> find_ok t dr k tms gone r t' dr' -> tbl_stored ins t -> tbl_stored ins t'.
Proof.
  intros T F HS fp Hfp. assert (Hr : forall q, r = Some q -> q ∈ gone \/ (q ∉ lru t) -> stored_ok ins (entry t' q)).
  { intros q -> Hq. destruct (find_res _ _ _ _ _ _ _ _ T F) as [_ [[-> [Hl _]]|[_ Hf]]]; [|by eapply fresh_stored].
    destruct Hq as [Hq|Hq]; [by apply elem_of_nil in Hq|done]. }
  rewrite (fo_lru _ _ _ _ _ _ _ _ F) in Hfp. apply elem_of_app in Hfp as [Hfp|Hfp].
  - apply (list_elem_of_filter (fun v => v ∉ gone)) in Hfp as [Hg Hl]. rewrite (fo_kept _ _ _ _ _ _ _ _ F) by done. by apply HS.
  - destruct r as [q|]; [|by apply elem_of_nil in Hfp]. case_decide as Hd; [by apply elem_of_nil in Hfp|].
    apply list_elem_of_singleton in Hfp as ->. apply Hr; [done|]. destruct (decide (q ∈ lru t)); [left|by right].
    destruct (decide (q ∈ gone)); [done|]. by destruct Hd.
Qed.

Lemma find_sub t dr k tms gone r t' dr' : table_ok t -> find_ok t dr k tms gone r t' dr' -> tbl_mbufs t' ⊆ tbl_mbufs t.
Proof.
  intros T F x Hx. apply list_elem_of_bind in Hx as (fq & Hx & Hfq). rewrite (fo_lru _ _ _ _ _ _ _ _ F) in Hfq.
  apply elem_of_app in Hfq as [Hfq|Hfq].
  - apply (list_elem_of_filter (fun v => v ∉ gone)) in Hfq as [Hg Hlq]. rewrite (fo_kept _ _ _ _ _ _ _ _ F) in Hx by done.
    apply list_elem_of_bind. by exists fq.
  - destruct r as [q|]; [|by apply elem_of_nil in Hfq]. case_decide as Hd; [by apply elem_of_nil in Hfq|].
    apply list_elem_of_singleton in Hfq as ->. destruct (find_res _ _ _ _ _ _ _ _ T F) as [_ [[-> [Hl _]]|[_ Hf]]].
    + destruct Hd. split; [done|apply not_elem_of_nil].
    + rewrite (fresh_mbufs _ _ _ Hf) in Hx. by apply elem_of_nil in Hx.
Qed.

(** The mbufs, counters of segments and chains after one call: every mbuf is in
    the table, on the death row, or in the packet [g] that is returned. *)
Record input_post (ins : list frag_in) t dr (i : frag_in) s (res : option Z) t' dr' s' (g : list frag_in) : Prop := {
  ip_table : table_ok t';
  ip_conf : conf t' = conf t;
  ip_mbufs : tbl_mbufs t' ++ map in_mb g ++ dr' ≡ₚ in_mb i :: tbl_mbufs t ++ dr;
  ip_dead : (length dr' <= length dr + 5)%nat;
  ip_res : match res with None => g = [] | Some r => packet_of (i :: ins) s' r g end;
  ip_stored : tbl_stored (i :: ins) t';
  ip_grows : grows (in_mb i :: tbl_mbufs t) s s';
  ip_segs : forall x, x ∈ tbl_mbufs t' -> x ∈ in_mb i :: tbl_mbufs t /\ nb_segs (mbuf s' x) = nb_segs (mbuf s x) }.

(** A table entry was replaced or dropped; the others still hold what they did. *)
Lemma others_stored ins t t' fp :
  tbl_stored ins t -> (forall x, x <> fp -> entry t' x = entry t x) -> (forall x, x ∈ lru t' -> x ∈ lru t) ->
  (fp ∈ lru t' -> stored_ok ins (entry t' fp)) -> tbl_stored ins t'.
Proof.
  intros HS He Hl Hf x Hx. destruct (decide (x = fp)) as [->|Hne]; [by apply Hf|]. rewrite He by done. by apply HS, Hl.
Qed.

Lemma input_links ins t dr i s res t' dr' s' :
  table_ok t -> K (in_key i) -> tbl_stored ins t -> (forall x, x ∈ ins -> in_ok x) -> in_ok i ->
  NoDup (in_mb i :: tbl_mbufs t ++ dr) -> (forall x, x ∈ in_mb i :: tbl_mbufs t -> 0 <= nb_segs (mbuf s x) <= 63) ->
  frag_input t dr (in_mb i) (in_tms i) (in_key i) (in_ofs i) (in_len i) (in_more i) s = Some (res, t', dr', s') ->
  exists g, input_post ins t dr i s res t' dr' s' g.
Proof.
  intros T Hk HS Hok Hin Hnd Hnb E. unfold frag_input in E. set (m := in_mb i) in *.
  destruct (find_spec KS t dr (in_key i) (in_tms i) T Hk) as (gone & r & t1 & dr1 & Ef & F). rewrite Ef in E. cbn [mbind option_bind] in E.
  destruct (find_mbufs _ _ _ _ _ _ _ _ T F) as (Hmb & Hlen & Hg0). pose proof (fo_conf _ _ _ _ _ _ _ _ F) as Hc1.
  pose proof (find_stored ins _ _ _ _ _ _ _ _ T F HS) as HS1. assert (T1 := fo_table _ _ _ _ _ _ _ _ F).
  assert (HS1' : tbl_stored (i :: ins) t1) by (intros fp Hfp; eapply stored_ok_mono; [|by apply HS1]; set_solver).
  pose proof (find_sub _ _ _ _ _ _ _ _ T F) as HsubT. destruct r as [fp|].
  2:{ injection E as <- <- <- <-. exists []. constructor; [done|done| |rewrite length_app; cbn; lia|done|done|apply grows_refl|].
      2:{ intros x Hx. split; [right; by apply HsubT|done]. }
      cbn [map app]. rewrite app_assoc, Hmb. symmetry. apply Permutation_cons_append. }
  destruct (find_res _ _ _ _ _ _ _ _ T F) as [[Hl Hq] Hfr].
  destruct (to_live _ T1 fp Hl) as (HK & _ & Hi). pose proof (to_shape _ T1 fp) as Hs.
  destruct (ip_frag_process (entry t1 fp) dr1 m (in_ofs i) (in_len i) (in_more i) s) as [[[[res1 e1] dr2] s1]|] eqn:Ep; [|done].
  cbn [mbind option_bind] in E. injection E as <- <- <- <-. destruct (process_conserves _ _ _ _ _ _ _ _ _ _ _ Hs Hi Ep) as [L1 Hcs].
  assert (Hdr1 : (length (entry_mbufs (entry t1 fp)) + length dr1 <= length dr + 4)%nat).
  { destruct Hfr as [[Hg _]|[_ Hf]]; [|by rewrite (fresh_mbufs _ _ _ Hf)].
    rewrite (Hg0 Hg). pose proof (entry_mbufs_bound (entry t1 fp) (proj1 Hs)). lia. }
  assert (Hsub : entry_mbufs (entry t1 fp) ⊆ tbl_mbufs t).
  { destruct Hfr as [[Hg [Hl0 _]]|[_ Hf]]; [|rewrite (fresh_mbufs _ _ _ Hf); set_solver]. subst gone.
    rewrite (fo_kept _ _ _ _ _ _ _ _ F) by (done || apply not_elem_of_nil). intros x Hx. apply list_elem_of_bind. by exists fp. }
  set (e := entry t1 fp) in *. set (R := tailq_remove fp (lru t1) ≫= fun x => entry_mbufs (entry t1 x)).
  assert (Hsplit : tbl_mbufs t1 ≡ₚ entry_mbufs e ++ R) by (apply tbl_mbufs_split; [apply T1|done]).
  rewrite Hsplit in Hmb. assert (Hnd1 : NoDup ((m :: entry_mbufs e) ++ R ++ dr1)) by (rewrite <- app_comm_cons, app_assoc, Hmb; exact Hnd).
  apply NoDup_app in Hnd1 as (Hnde & Hdisj & _).
  destruct (process_links ins e dr1 i s res1 e1 dr2 s1) as (Hg & Hkeep & Hpk); try done; [by apply HS1| |].
  { intros x [->|Hx]%elem_of_cons; apply Hnb; [left|right; by apply Hsub]. }
  assert (Hgr : grows (m :: tbl_mbufs t) s s1) by (eapply grows_trans; [exact Hg|apply (grows_refl [])|set_solver|set_solver]).
  assert (Hne : ip_frag_key_invalidate (key e) <> key e).
  { intros Ek. destruct (invalidate_blank KS (key e) (start e) (total_size e) (frag_size e) (last_idx e) (frags e) HK) as [[Hb _] _].
    cbn in Hb. rewrite Ek, (proper_not_empty KS) in Hb by done. done. }
  destruct Hcs as [(Hke & -> & -> & Hp & Hli)|(Hke & Hp)].
  - destruct Hkeep as [(_ & S1 & ->)|Hke2]; [|congruence].
    destruct (inuse_keep KS t1 fp e1 T1 Hl L1 Hke Hli) as [-> T2].
    assert (Ho : forall x, x <> fp -> entry (set_pkt fp e1 t1) x = entry t1 x) by (intros x Hx; by rewrite entry_set_pkt, decide_False).
    assert (Hnew : tbl_mbufs (set_pkt fp e1 t1) ≡ₚ m :: entry_mbufs e ++ R).
    { rewrite (tbl_mbufs_split _ fp) by (done || apply T2). rewrite entry_set_pkt, decide_True, Hp by done. cbn [app lru set_pkt].
      by rewrite (tbl_mbufs_others t1 (set_pkt fp e1 t1)). }
    exists []. constructor; [done|done| |lia|done| |apply grows_refl|].
    + rewrite Hnew, <- Hmb. cbn [map app]. done.
    + apply (others_stored _ t1 _ fp HS1' Ho); [done|]. intros _. by rewrite entry_set_pkt, decide_True.
    + intros x Hx. split; [|done]. rewrite Hnew, <- Hsplit in Hx. set_solver.
  - destruct (inuse_drop KS t1 fp e1 T1 Hl L1 Hke) as (T2 & C2 & L2 & O2). set (t2 := ip_frag_inuse _ _) in *.
    assert (E2 : tbl_mbufs t2 = R) by (unfold tbl_mbufs; rewrite L2; by apply tbl_mbufs_others).
    assert (HS2 : tbl_stored (i :: ins) t2).
    { apply (others_stored _ t1 _ fp HS1' O2); rewrite L2; [by intros x [_ ?]%elem_tailq_remove|]. by intros [? _]%elem_tailq_remove. }
    assert (Hsg : forall x, x ∈ tbl_mbufs t2 -> x ∈ m :: tbl_mbufs t /\ nb_segs (mbuf s1 x) = nb_segs (mbuf s x)).
    { intros x Hx. rewrite E2 in Hx. split; [right; apply HsubT; rewrite Hsplit; set_solver|]. apply (gr_segs _ _ _ Hg). intros Hx'. apply (Hdisj x Hx'). apply elem_of_app. by left. }
    destruct res1 as [r|].
    + destruct Hp as [-> _]. destruct (Hpk r eq_refl) as (g & Hpo & Hgm). exists g. constructor; [done|congruence| |lia|done|done|done|done].
      rewrite E2, Hgm, <- Hmb. cbn. rewrite <- Permutation_middle. f_equiv. rewrite app_assoc, (Permutation_app_comm R). done.
    + exists []. constructor; [done|congruence| |rewrite Hp; cbn; rewrite length_app; lia|done|done|done|done].
      rewrite E2, <- Hmb, Hp. cbn [map app]. rewrite <- Permutation_middle. f_equiv. rewrite app_assoc, (Permutation_app_comm R). done.
Qed.

End Input.
