(* ===== verification/IpFragRun.v ===== *)
(** * IP reassembly: interleaved datagrams

    A piece of a datagram with at most four fragments either waits in the
    table or, when it is the last one missing, completes the datagram.  The
    fragments of several datagrams for one destination go through
    [rte_ipv4_frag_reassemble_packet] in any order. *)
From S2P Require Import Prelude Bits Mbuf MbufPacket IpFrag IpFragChain IpFragHeader IpFragEntry IpFragTable IpFragFind IpFragInput.

(** A datagram and its key. *)
Record dgram := mkDgram { d_key : ip_frag_key; d_first : piece; d_mids : list piece; d_last : piece }.
Definition d_pieces (d : dgram) : list piece := pieces (d_first d) (d_mids d) (d_last d).
Definition d_ok (d : dgram) : Prop := datagram (d_first d) (d_mids d) (d_last d).
Definition d_mb (d : dgram) : Z := pt_mb (pc_part (d_first d)).
Definition d_segs (d : dgram) : list Z := concat (map pt_segs (map pc_part (d_pieces d))).

Section Step.
Context `{FragHash} {K : ip_frag_key -> Prop} (KS : key_space IPV4_KEYLEN K).
Context {P : Type} `{MP : !MbufPool P}.
Implicit Types (s : mstate P) (t : rte_ip_frag_tbl) (dr : death_row) (d : dgram) (got : list piece).
Abbreviation table_ok := (@table_ok _ IPV4_KEYLEN K).

Definition d_mbufs_ok s d : Prop := mbufs_ok (p0 := d_first d) (ms := d_mids d) (pl := d_last d) s.
Definition d_whole s d : part := whole (p0 := d_first d) (ms := d_mids d) (pl := d_last d) s.

(** The table after the pieces [got] of [d]. *)
Definition waits t d got : Prop :=
  match got with
  | [] => forall fp, ~ has_entry t (d_key d) fp
  | _ => exists fp, has_entry t (d_key d) fp /\ entry_ok (entry t fp) got
  end.

(** There is a place for a new entry. *)
Definition room t k : Prop := Z.of_nat (length (lru t)) < max_entries t /\ exists c, c ∈ cands t k /\ c ∉ lru t.

(** No entry has timed out. *)
Definition current t tms : Prop := forall fp, fp ∈ lru t -> timed_out t fp tms = false.

(** The entry for the piece. *)
Lemma find_piece t dr d tms got :
  table_ok t -> K (d_key d) -> waits t d got -> current t tms -> (got = [] -> room t (d_key d)) ->
  exists fp t1, ip_frag_find t dr (d_key d) tms = Some (Some fp, t1, dr) /\ table_ok t1 /\ conf t1 = conf t /\
    has_entry t1 (d_key d) fp /\ entry_ok (entry t1 fp) got /\
    (start (entry t1 fp) = tms \/ fp ∈ lru t /\ entry t1 fp = entry t fp) /\
    (forall x, x ∈ lru t -> x ∈ lru t1 /\ entry t1 x = entry t x) /\ (forall x, x ∈ lru t1 -> x ∈ lru t \/ x = fp).
Proof.
  intros T Hk Hw Hcur Hroom. destruct (find_spec KS t dr (d_key d) tms T Hk) as (gone & r & t1 & dr1 & E & F).
  assert (Fr : match r with Some fp => _ | None => _ end) by (destruct r; [exact (find_res _ _ _ _ _ _ _ _ T F)|exact (fo_res _ _ _ _ _ _ _ _ F)]).
  destruct F as [F1 F2 F3 [_ Fg] Fd Fk Fl _].
  assert (gone = []) as ->.
  { destruct gone as [|v g]; [done|]. destruct (Fg v ltac:(left)) as [Hv Ht]. by rewrite Hcur in Ht. }
  cbn in Fd. rewrite app_nil_r in Fd. subst dr1. rewrite filter_not_in_none in Fl.
  destruct r as [fp|].
  - exists fp, t1. split; [done|]. split; [done|]. split; [done|]. destruct Fr as [Hh Hfr]. split; [done|].
    assert (Hold : forall x, x ∈ lru t -> x ∈ lru t1 /\ entry t1 x = entry t x).
    { intros x Hx. split; [rewrite Fl; set_solver|]. apply Fk; [done|apply not_elem_of_nil]. }
    assert (Hnew : forall x, x ∈ lru t1 -> x ∈ lru t \/ x = fp) by (intros x; rewrite Fl; case_decide; set_solver).
    destruct Hfr as [[_ Hh0]|[Hn Hf]].
    + assert (Efp : entry t1 fp = entry t fp) by (apply Hold, Hh0). rewrite Efp. split; [|split; [right; split; [apply Hh0|done]|done]].
      destruct got as [|p got]; [by apply Hw in Hh0|]. destruct Hw as (fq & Hq & Ho).
      assert (fq = fp) as ->; [|done]. apply (to_one _ T); [apply Hq|apply Hh0|]. transitivity (d_key d); [symmetry; apply Hq|apply Hh0].
    + destruct Hf as (e0 & [L0 _] & _ & ->). split; [|split; [by left|done]].
      destruct got as [|p got]; [by apply reset_entry_ok|]. destruct Hw as (fq & Hq & _). by apply Hn, elem_of_nil in Hq.
  - exfalso. destruct Fr as (_ & Hn & Hfull). destruct got as [|p got]; [|destruct Hw as (fq & Hq & _); by apply Hn in Hq].
    destruct (Hroom eq_refl) as (Hlt & c & Hc & Hcl). destruct Hfull as [Hall|[Hmax _]]; [|lia]. by destruct (Hall c Hc).
Qed.

Lemma entry_ok_idx d e got rest :
  d_ok d -> entry_ok e got -> d_pieces d ≡ₚ got ++ rest -> 2 <= last_idx e <= 4.
Proof.
  intros D He Hp. rewrite (eo_idx _ _ He). assert (Hf : filter is_mid (got ++ rest) ≡ₚ d_mids d) by (rewrite <- (filter_mid D); apply filter_Permutation; by rewrite <- Hp).
  rewrite filter_app in Hf. apply Permutation_length in Hf. rewrite length_app in Hf. pose proof (dg_num _ _ _ D). lia.
Qed.

(** What the other datagrams of the table see. *)
Definition others_keep t t' k : Prop :=
  forall k' fp, ~ keq k k' -> (has_entry t' k' fp <-> has_entry t k' fp) /\ (has_entry t k' fp -> entry t' fp = entry t fp).

(** It is enough to look at the entries that are not the one of [k]. *)
Lemma others_keep_from t t' k fp :
  (forall x, x ∈ lru t -> x = fp -> keq k (key (entry t fp))) -> (fp ∈ lru t' -> keq k (key (entry t' fp))) ->
  (forall x, x <> fp -> (x ∈ lru t' <-> x ∈ lru t) /\ (x ∈ lru t -> entry t' x = entry t x)) -> others_keep t t' k.
Proof.
  intros Hf Hf' Hx k' x Hne. destruct (decide (x = fp)) as [->|Hxn].
  - assert (H1 : ~ has_entry t k' fp) by (intros [Hi Hq]; apply Hne; transitivity (key (entry t fp)); [by eapply Hf|by symmetry]).
    assert (H2 : ~ has_entry t' k' fp) by (intros [Hi Hq]; apply Hne; transitivity (key (entry t' fp)); [by apply Hf'|by symmetry]).
    tauto.
  - destruct (Hx x Hxn) as [Hi He]. unfold has_entry. split; [|intros [? _]; auto]. split; intros [Hin Hq].
    + apply Hi in Hin. by rewrite He in Hq.
    + rewrite He by done. by rewrite Hi.
Qed.

Definition input_piece t dr d p tms s :=
  frag_input t dr (pt_mb (pc_part p)) tms (d_key d) (pc_ofs p) (pc_len p) (pc_more p) s.

(** A piece that is not the last one missing. *)
Lemma input_more t dr d p tms got rest s :
  d_ok d -> table_ok t -> K (d_key d) -> waits t d got -> current t tms -> (got = [] -> room t (d_key d)) ->
  d_pieces d ≡ₚ got ++ p :: rest -> rest <> [] ->
  exists t', input_piece t dr d p tms s = Some (None, t', dr, s) /\ table_ok t' /\ conf t' = conf t /\ waits t' d (got ++ [p]) /\
    (forall x, x ∈ lru t' -> x ∈ lru t /\ start (entry t' x) = start (entry t x) \/ has_entry t' (d_key d) x /\ start (entry t' x) = tms) /\
    others_keep t t' (d_key d) /\ (forall x, x ∈ lru t' -> has_entry t' (d_key d) x \/ x ∈ lru t /\ ~ has_entry t (d_key d) x).
Proof.
  intros D T Hk Hw Hcur Hroom Hp Hr. destruct (find_piece t dr d tms got T Hk Hw Hcur Hroom) as (fp & t1 & E & T1 & C1 & [Hl Hq] & He & Hst & Hold & Hnew).
  destruct (process_more D (entry t1 fp) dr got p rest s He Hp Hr) as (e' & Ep & He' & Hke & Hse).
  assert (Hi : 2 <= last_idx e' <= 4) by (eapply (entry_ok_idx d _ _ rest D He'); by rewrite <- app_assoc).
  destruct (inuse_keep KS t1 fp e' T1 Hl (eo_len _ _ He') Hke Hi) as [Ei T2]. unfold input_piece, frag_input. rewrite E. cbn [mbind option_bind]. rewrite Ep.
  cbn [mbind option_bind]. rewrite Ei. eexists. split; [done|]. set (t2 := set_pkt fp e' t1) in *.
  assert (Hen : forall x, entry t2 x = if decide (x = fp) then e' else entry t1 x) by (intros; apply entry_set_pkt).
  assert (Hh : has_entry t2 (d_key d) fp) by (split; [done|rewrite Hen, decide_True by done; by rewrite Hke]).
  split; [done|]. split; [done|]. split; [|split; [|split]].
  - assert (Hg : got ++ [p] <> []) by (by destruct got). unfold waits. destruct (got ++ [p]) as [|q g] eqn:Eg; [done|]. exists fp. split; [done|]. by rewrite Hen, decide_True.
  - intros x Hx. rewrite Hen. case_decide as Ex.
    + subst x. rewrite Hse. destruct Hst as [Hst|[Hin Hst]]; [by right|left; by rewrite Hst].
    + left. destruct (Hnew x Hx) as [Hin|?]; [|done]. by rewrite (proj2 (Hold x Hin)).
  - apply (others_keep_from _ _ _ fp).
    + intros x Hx ->. by rewrite <- (proj2 (Hold fp Hx)).
    + intros _. apply Hh.
    + intros x Hx. rewrite Hen, decide_False by done. split; [|apply Hold]. split; [|apply Hold]. intros Hx2. by destruct (Hnew x Hx2).
  - intros x Hx. destruct (decide (x = fp)) as [->|Hne]; [by left|right]. destruct (Hnew x Hx) as [Hin|?]; [|done]. split; [done|].
    intros [_ Hqx]. destruct (Hold x Hin) as [Hx1 Ex]. apply Hne, (to_one _ T1); [done|done|]. rewrite Ex. transitivity (d_key d); [by symmetry|done].
Qed.

(** The last one. *)
Lemma input_last t dr d p tms got s :
  d_ok d -> table_ok t -> K (d_key d) -> waits t d got -> got <> [] -> current t tms ->
  d_pieces d ≡ₚ got ++ [p] -> d_mbufs_ok s d ->
  exists t' s', input_piece t dr d p tms s = Some (Some (d_mb d), t', dr, s') /\ table_ok t' /\ conf t' = conf t /\ waits t' d [] /\
    (forall x, x ∈ lru t' -> x ∈ lru t /\ entry t' x = entry t x) /\ others_keep t t' (d_key d) /\
    part_ok s' (d_whole s d) /\ rework (d_segs d) s s' /\
    (forall b o, b <> buf_addr (mbuf s (d_mb d)) -> mem s' !!! (b, o) = mem s !!! (b, o)).
Proof.
  intros D T Hk Hw Hgot Hcur Hp Hmb. destruct (find_piece t dr d tms got T Hk Hw Hcur ltac:(done)) as (fp & t1 & E & T1 & C1 & [Hl Hq] & He & Hst & Hold & Hnew).
  assert (Hin : fp ∈ lru t).
  { destruct got as [|q g]; [done|]. destruct Hw as (fq & Hfq & _). destruct (Hold fq (proj1 Hfq)) as [Hl1 He1].
    assert (fp = fq) as ->; [|apply Hfq]. apply (to_one _ T1); [done|done|]. rewrite He1. transitivity (d_key d); [by symmetry|apply Hfq]. }
  assert (Hkl : key_len (key (entry t1 fp)) = IPV4_KEYLEN) by (apply (ks_len _ _ KS), (to_live _ T1 fp Hl)).
  destruct (process_last D (entry t1 fp) dr got p s He Hp Hkl Hmb) as (e' & s' & Ep & L' & Hke & Hpt & Hrw & Hmem).
  destruct (inuse_drop KS t1 fp e' T1 Hl L' Hke) as (T2 & C2 & L2 & O2). unfold input_piece, frag_input. rewrite E. cbn [mbind option_bind]. rewrite Ep.
  cbn [mbind option_bind]. eexists _, s'. split; [reflexivity|]. set (t2 := ip_frag_inuse _ _) in *.
  assert (Hsub : forall x, x ∈ lru t2 <-> x <> fp /\ x ∈ lru t1) by (intros x; rewrite L2; apply elem_tailq_remove).
  split; [done|]. split; [congruence|]. split; [|split; [|split; [|done]]].
  - intros x [Hx Hqx]. apply Hsub in Hx as [Hne Hx]. apply Hne, (to_one _ T1); [done|done|]. rewrite <- O2 by done. transitivity (d_key d); [by symmetry|done].
  - intros x Hx. apply Hsub in Hx as [Hne Hx]. destruct (Hnew x Hx) as [Hxt|?]; [|done]. split; [done|]. rewrite O2 by done. by apply Hold.
  - apply (others_keep_from _ _ _ fp).
    + intros x Hx ->. by rewrite <- (proj2 (Hold fp Hx)).
    + by intros [? _]%Hsub.
    + intros x Hx. rewrite Hsub, O2 by done. split; [|apply Hold]. split; [|intros Hx2; split; [done|by apply Hold]]. intros [_ Hx2]. by destruct (Hnew x Hx2).
Qed.

End Step.

#[export] Instance ip_frag_key_eq_dec : EqDecision ip_frag_key.
Proof. solve_decision. Defined.
#[export] Instance dgram_eq_dec : EqDecision dgram.
Proof. solve_decision. Defined.

(** ** Counting *)

Lemma related_length {A B} `{!EqDecision B} (R : A -> B -> Prop) (l : list A) : forall ds : list B,
  NoDup l -> (forall x, x ∈ l -> exists d, d ∈ ds /\ R x d) -> (forall x y d, x ∈ l -> y ∈ l -> R x d -> R y d -> x = y) ->
  (length l <= length ds)%nat.
Proof.
  induction l as [|x l IH]; intros ds Hn Ht Hi; cbn; [lia|]. apply NoDup_cons in Hn as [Hx Hn].
  destruct (Ht x ltac:(left)) as (d & Hd & Hr). apply list_elem_of_split in Hd as (d1 & d2 & ->).
  rewrite length_app. cbn. enough (length l <= length (d1 ++ d2))%nat by (rewrite length_app in *; lia).
  apply IH; [done| |].
  - intros y Hy. destruct (Ht y ltac:(by right)) as (d' & Hd' & Hr'). exists d'. split; [|done].
    assert (d' <> d) by (intros ->; apply Hx; rewrite (Hi x y d); [done|left|by right|done|done]). set_solver.
  - intros y z d' Hy Hz. apply Hi; by right.
Qed.

Lemma fresh_place (l l' : list Z) : NoDup l -> (length l' < length l)%nat -> exists c, c ∈ l /\ (c ∉ l').
Proof.
  intros Hn Hl. destruct (decide (Forall (fun c => c ∈ l') l)) as [Ha|Ha].
  - exfalso. rewrite Forall_forall in Ha. assert (l ⊆+ l') by (apply NoDup_submseteq; auto). apply submseteq_length in H. lia.
  - apply not_Forall_Exists in Ha; [|apply _]. apply Exists_exists in Ha as (c & Hc & Hn'). by exists c.
Qed.

(** ** Frames *)

Section Frame.
Context {P : Type} `{MP : !MbufPool P}.
Implicit Types (s : mstate P).

(** A part whose mbufs and bytes do not change. *)
Lemma part_other s s' x :
  (forall y, y ∈ pt_segs x -> mbuf s' y = mbuf s y) -> (forall y, is_Some (mbufs s' !! y) <-> is_Some (mbufs s !! y)) ->
  (forall y o, y ∈ pt_segs x -> mem s' !!! (buf_addr (mbuf s y), o) = mem s !!! (buf_addr (mbuf s y), o)) ->
  part_ok s x -> part_ok s' x /\ total_len s' (pt_segs x) = total_len s (pt_segs x).
Proof.
  intros Hm Hl Hmem Hx. split; [|apply total_len_ext; intros y Hy; by rewrite Hm].
  set (s1 := mkMstate (mbufs s') (mem s) (pools s')).
  assert (Hx1 : part_ok s1 x).
  { apply (part_fields s); [|done|done| |done].
    - intros y Hy. change (data_fields (mbuf s' y) = data_fields (mbuf s y)). by rewrite Hm.
    - unfold hlen. change (mbuf s1) with (mbuf s'). rewrite Hm; [done|]. by apply (part_mb_in s). }
  assert (Hb : bytes s' (pt_segs x) = bytes s1 (pt_segs x)).
  { apply bytes_ext. intros y Hy. unfold seg_bytes. change (mbuf s1) with (mbuf s'). unfold read_bytes. apply map_ext. intros i.
    rewrite (Hm y Hy). by rewrite Hmem. }
  destruct Hx1 as [[Hp Hh Hw] Hby Hmx]. constructor; [constructor|..].
  - by apply (packet_mem s1).
  - exact Hh.
  - rewrite Hb. exact Hw.
  - by rewrite Hb.
  - exact Hmx.
Qed.

Lemma parts_other s s' xs :
  (forall y, y ∈ concat (map pt_segs xs) -> mbuf s' y = mbuf s y) -> (forall y, is_Some (mbufs s' !! y) <-> is_Some (mbufs s !! y)) ->
  (forall y o, y ∈ concat (map pt_segs xs) -> mem s' !!! (buf_addr (mbuf s y), o) = mem s !!! (buf_addr (mbuf s y), o)) ->
  parts s xs -> parts s' xs.
Proof.
  intros Hm Hl Hmem [Hok Hnd Ht Hc].
  assert (Hx : forall x, x ∈ xs -> part_ok s' x /\ total_len s' (pt_segs x) = total_len s (pt_segs x)).
  { intros x Hx. apply part_other; [| |intros y o Hy; apply Hmem|by apply Hok]; [intros y Hy; apply Hm|done|]; by eapply concat_segs_in. }
  constructor; [intros x Hx'; by apply Hx|done| |done]. replace (sum_total s' xs) with (sum_total s xs); [done|].
  clear -Hx. induction xs as [|x xs IH]; [done|]. rewrite !sum_total_cons, IH by (intros; apply Hx; by right).
  by rewrite (proj2 (Hx x ltac:(left))).
Qed.

End Frame.

(** ** The traffic *)

(** A call: the mbuf, the time, and the words of the key that are not set. *)
Record frag_ev := mkEv { ev_d : dgram; ev_p : piece; ev_tms : Z; ev_stack : list Z }.

(** The pieces of [d] among the events. *)
Definition got_of (evs : list frag_ev) (d : dgram) : list piece := ev_p <$> filter (fun e => ev_d e = d) evs.

(** The packet comes out with the last fragment of its datagram. *)
Fixpoint expected (evs : list frag_ev) : list (option Z) :=
  match evs with
  | [] => []
  | e :: evs' => (if decide (got_of evs' (ev_d e) = []) then Some (d_mb (ev_d e)) else None) :: expected evs'
  end.

Section Run.
Context `{FragHash} {P : Type} `{MP : !MbufPool P}.
Implicit Types (s : mstate P) (t : rte_ip_frag_tbl) (dr : death_row) (d : dgram).

(** The calls one after the other; the IP header is behind the Ethernet
    header. *)
Fixpoint run_frags t dr (calls : list (Z * Z * list Z)) s : option (list (option Z) * rte_ip_frag_tbl * death_row * mstate P) :=
  match calls with
  | [] => Some ([], t, dr, s)
  | (m, tms, stack) :: calls' =>
      '(r, t, dr, s) ← rte_ipv4_frag_reassemble_packet stack t dr m tms (advance (rte_pktmbuf_mtod s m) (l2_len (mbuf s m))) s;
      '(rs, t, dr, s) ← run_frags t dr calls' s;
      Some (r :: rs, t, dr, s)
  end.

Definition call (e : frag_ev) : Z * Z * list Z := (pt_mb (pc_part (ev_p e)), ev_tms e, ev_stack e).

(** The header of the piece [p] of [d]. *)
Record header s d (p : piece) : Prop := {
  hd_l2 : 0 <= l2_len (mbuf s (pt_mb (pc_part p)));
  hd_l3 : 20 <= l3_len (mbuf s (pt_mb (pc_part p)));
  hd_ofs : let fo := get16 (pt_hdr (pc_part p)) (l2_len (mbuf s (pt_mb (pc_part p))) + 6) in
    u16 (u16 (Z.land fo IPV4_HDR_OFFSET_MASK) * IPV4_HDR_OFFSET_UNITS) = pc_ofs p /\ u16 (Z.land fo IPV4_HDR_MF_FLAG) = pc_more p;
  hd_len : u16 (get16 (pt_hdr (pc_part p)) (l2_len (mbuf s (pt_mb (pc_part p))) + 2) - l3_len (mbuf s (pt_mb (pc_part p)))) = pc_len p;
  hd_addr : get_le (pt_hdr (pc_part p)) (l2_len (mbuf s (pt_mb (pc_part p))) + 12) 8 = src_dst (d_key d) !!! 0%nat;
  hd_id : get_le (pt_hdr (pc_part p)) (l2_len (mbuf s (pt_mb (pc_part p))) + 4) 2 = key_id (d_key d) }.

(** Datagrams for [dst] in mbufs of their own. *)
Record traffic s dst (ds : list dgram) : Prop := {
  tr_nodup : NoDup ds;
  tr_ok : forall d, d ∈ ds -> d_ok d /\ host_keys dst (d_key d) /\ d_mbufs_ok s d;
  tr_keys : forall d d', d ∈ ds -> d' ∈ ds -> keq (d_key d) (d_key d') -> d = d';
  tr_header : forall d p, d ∈ ds -> p ∈ d_pieces d -> header s d p;
  tr_segs : forall d d' y, d ∈ ds -> d' ∈ ds -> y ∈ d_segs d -> y ∈ d_segs d' -> d = d';
  tr_bufs : forall d d' y, d ∈ ds -> d' ∈ ds -> y ∈ d_segs d' -> y <> d_mb d -> buf_addr (mbuf s y) <> buf_addr (mbuf s (d_mb d)) }.

(** What no reassembly changes. *)
Definition same_meta s s' : Prop :=
  forall x, buf_addr (mbuf s' x) = buf_addr (mbuf s x) /\ l2_len (mbuf s' x) = l2_len (mbuf s x) /\ l3_len (mbuf s' x) = l3_len (mbuf s x).

Lemma rework_meta D s s' : rework D s s' -> same_meta s s'.
Proof. intros Hr x. destruct (rw_meta _ _ _ Hr x) as (?&_&?&?&_). done. Qed.

Lemma d_mb_in s d : d_mbufs_ok s d -> d_mb d ∈ d_segs d.
Proof.
  intros [Hp _ _]. eapply concat_segs_in; [left|]. apply (part_mb_in s). apply Hp. left.
Qed.

(** The header is read back. *)
Lemma packet_input s0 s d p t dr tms stack :
  same_meta s0 s -> header s0 d p -> part_ok s (pc_part p) -> key_len (d_key d) = IPV4_KEYLEN ->
  let m := pt_mb (pc_part p) in
  let k := mkKey (src_dst (d_key d) !!! 0%nat :: stack) (key_id (d_key d)) IPV4_KEYLEN in
  rte_ipv4_frag_reassemble_packet stack t dr m tms (advance (rte_pktmbuf_mtod s m) (l2_len (mbuf s m))) s =
    input_piece t dr (mkDgram k (d_first d) (d_mids d) (d_last d)) p tms s /\
  keq (d_key d) k.
Proof.
  intros Hm [H2 H3 [Ho Hf] Hl Ha Hi] Hx Hkl m k. destruct (Hm m) as (_ & E2 & E3). fold m in H2, H3, Ho, Hf, Hl, Ha, Hi.
  assert (Hh : hlen s m = l2_len (mbuf s0 m) + l3_len (mbuf s0 m)) by (unfold hlen; by rewrite E2, E3).
  split.
  - unfold rte_ipv4_frag_reassemble_packet, input_piece. rewrite E2, E3. unfold m in *.
    rewrite !(rd16_part s (pc_part p)), !(rdle_part s (pc_part p)) by (done || lia). by rewrite Ho, Hf, Hl, Ha, Hi.
  - split; [done|]. split; [done|]. rewrite Hkl. change (Z.to_nat IPV4_KEYLEN) with 1%nat. intros i Hi1. by replace i with 0%nat by lia.
Qed.

End Run.
