(* ===== verification/IpFragInterleave.v ===== *)
(** * IP reassembly: the invariant of interleaved datagrams

    Between two calls every datagram of the traffic is unfinished, with its
    first pieces waiting in the table, or finished and one packet. *)
From S2P Require Import Prelude Bits Mbuf MbufPacket IpFrag IpFragChain IpFragHeader IpFragEntry IpFragTable.
From S2P Require Import IpFragFind IpFragInput IpFragRun.

(** ** Histories *)

Lemma got_of_cons e evs d : got_of (e :: evs) d = if decide (ev_d e = d) then ev_p e :: got_of evs d else got_of evs d.
Proof. unfold got_of. rewrite filter_cons. by case_decide. Qed.

Lemma got_of_snoc evs e d : got_of (evs ++ [e]) d = if decide (ev_d e = d) then got_of evs d ++ [ev_p e] else got_of evs d.
Proof. unfold got_of. rewrite filter_app, fmap_app, filter_cons. case_decide; cbn; by rewrite ?app_nil_r. Qed.

(** Keys that agree find the same entries. *)
Lemma has_entry_keq t k k' fp : keq k k' -> has_entry t k fp <-> has_entry t k' fp.
Proof. intros E. unfold has_entry. split; intros [? Hq]; (split; [done|]); by rewrite Hq || (etransitivity; [|exact Hq]; by symmetry || done). Qed.

Definition with_key (k : ip_frag_key) (d : dgram) : dgram := mkDgram k (d_first d) (d_mids d) (d_last d).

Lemma waits_keq t d k got : keq (d_key d) k -> waits t (with_key k d) got <-> waits t d got.
Proof.
  intros E. destruct got as [|p got]; cbn; [|]; setoid_rewrite (has_entry_keq t (d_key d) k); done.
Qed.

Lemma host_keys_keq dst k k' : keq k k' -> length (src_dst k') = 4%nat -> host_keys dst k -> host_keys dst k'.
Proof.
  intros (E1 & E2 & E3) L (H1 & _ & H3 & src & H4 & H5). rewrite H1 in E1, E3. change (Z.to_nat IPV4_KEYLEN) with 1%nat in E3.
  repeat split; [by rewrite <- E1|done|lia|lia|]. exists src. split; [done|]. by rewrite <- E3 by lia.
Qed.

Section Interleave.
Context `{FragHash} {P : Type} `{MP : !MbufPool P}.
Context (s0 : mstate P) (t0 : rte_ip_frag_tbl) (dst T0 : Z) (ds : list dgram) (TR : traffic s0 dst ds).
Context (Hbucket : Z.of_nat (length ds) <= bucket_entries t0) (Hmax : Z.of_nat (length ds) <= max_entries t0).
Context (Htime : 0 <= T0 /\ 0 <= max_cycles t0 /\ T0 + 2 * max_cycles t0 < 2 ^ 64).
Implicit Types (s : mstate P) (t : rte_ip_frag_tbl) (dr : death_row) (d : dgram) (don todo : list frag_ev).
Abbreviation table_ok := (@table_ok _ IPV4_KEYLEN (host_keys dst)).

Definition in_time (tms : Z) : Prop := T0 <= tms <= T0 + max_cycles t0.

Record inv don todo t s : Prop := {
  iv_table : table_ok t;
  iv_conf : conf t = conf t0;
  iv_lru : forall fp, fp ∈ lru t -> in_time (start (entry t fp)) /\ exists d, d ∈ ds /\ has_entry t (d_key d) fp;
  iv_meta : same_meta s0 s;
  iv_open : forall d, d ∈ ds -> got_of todo d <> [] -> waits t d (got_of don d) /\ parts s (map pc_part (d_pieces d));
  iv_done : forall d, d ∈ ds -> got_of todo d = [] -> waits t d [] /\ part_ok s (d_whole s0 d) }.

(** An event of the traffic. *)
Record event_ok don todo (e : frag_ev) : Prop := {
  eo_in : ev_d e ∈ ds;
  eo_time : in_time (ev_tms e);
  eo_stack : length (ev_stack e) = 3%nat;
  eo_perm : d_pieces (ev_d e) ≡ₚ got_of don (ev_d e) ++ ev_p e :: got_of todo (ev_d e) }.

Lemma inv_current don todo t s tms : inv don todo t s -> in_time tms -> current t tms.
Proof.
  intros I Ht fp Hfp. destruct (iv_lru _ _ _ _ I fp Hfp) as [Hs _]. unfold timed_out. injection (iv_conf _ _ _ _ I) as E1 _ _ _ _ _.
  rewrite E1. unfold in_time in *. rewrite u64_small by lia. apply Z.ltb_ge. lia.
Qed.

(** A datagram without an entry has a place for one. *)
Lemma inv_room don todo t s d : inv don todo t s -> d ∈ ds -> (forall fp, ~ has_entry t (d_key d) fp) -> forall k, room t k.
Proof.
  intros I Hd Hn k. pose proof (iv_table _ _ _ _ I) as T. injection (iv_conf _ _ _ _ I) as _ _ E3 E4 _ _.
  apply list_elem_of_split in Hd as (d1 & d2 & Eds).
  assert (Hlen : (length (lru t) <= length (d1 ++ d2))%nat).
  { apply (related_length (fun fp d => has_entry t (d_key d) fp)); [apply T| |].
    - intros fp Hfp. destruct (iv_lru _ _ _ _ I fp Hfp) as (_ & d' & Hd' & Hh). exists d'. split; [|done].
      assert (d' <> d) by (intros ->; by apply Hn in Hh). rewrite Eds in Hd'. set_solver.
    - intros x y d' _ _ [Hx Hqx] [Hy Hqy]. apply (to_one _ T); [done|done|]. transitivity (d_key d'); [by symmetry|done]. }
  rewrite Eds, !length_app in *. cbn in *. split; [lia|].
  set (p1 := IP_FRAG_TBL_POS t (key_hash k).1).
  destruct (fresh_place ((fun j => p1 + j) <$> seqZ 0 (bucket_entries t)) (lru t)) as (c & Hc & Hcl).
  - apply NoDup_fmap_2; [intros ? ? ?; lia|apply NoDup_seqZ].
  - rewrite length_fmap, length_seqZ. lia.
  - exists c. split; [|done]. apply list_elem_of_fmap in Hc as (j & -> & Hj). unfold cands, bucket_pair. fold p1.
    apply list_elem_of_bind. exists j. split; [left|]. rewrite Z2Nat.id by lia. done.
Qed.

(** ** One event *)

(** The other datagrams. *)
Lemma waits_others t t' d d' got :
  d ∈ ds -> d' ∈ ds -> d' <> d -> others_keep t t' (d_key d) -> waits t d' got -> waits t' d' got.
Proof.
  intros Hd Hd' Hne Ho Hw. assert (Hnk : ~ keq (d_key d) (d_key d')) by (intros E; apply Hne; symmetry; by apply (tr_keys _ _ _ TR)).
  destruct got as [|p got]; cbn in *.
  - intros fp Hh. apply (Hw fp). by apply (Ho (d_key d') fp Hnk).
  - destruct Hw as (fp & Hh & He). exists fp. destruct (Ho (d_key d') fp Hnk) as [Hi E]. rewrite Hi, E by done. done.
Qed.

Lemma others_keep_keq t t' k k' : keq k k' -> others_keep t t' k' -> others_keep t t' k.
Proof. intros E Ho k1 fp Hne. apply Ho. intros Hq. apply Hne. by transitivity k'. Qed.

(** The call for an event is the call of [frag_input] with a key that names
    the datagram. *)
Lemma event_call don todo t s e dr :
  inv don (e :: todo) t s -> event_ok don todo e ->
  exists k, let d := with_key k (ev_d e) in keq (d_key (ev_d e)) k /\ host_keys dst k /\
    rte_ipv4_frag_reassemble_packet (ev_stack e) t dr (pt_mb (pc_part (ev_p e))) (ev_tms e)
      (advance (rte_pktmbuf_mtod s (pt_mb (pc_part (ev_p e)))) (l2_len (mbuf s (pt_mb (pc_part (ev_p e)))))) s =
    input_piece t dr d (ev_p e) (ev_tms e) s /\
    waits t d (got_of don (ev_d e)) /\ (got_of don (ev_d e) = [] -> room t k).
Proof.
  intros I [Hd _ Hst Hp]. set (d := ev_d e) in *. destruct (tr_ok _ _ _ TR d Hd) as (D & Hk & _).
  destruct (iv_open _ _ _ _ I d Hd) as [Hw Hps]; [rewrite got_of_cons; unfold d; by rewrite decide_True|].
  assert (Hin : ev_p e ∈ d_pieces d) by (rewrite Hp; set_solver).
  assert (Hx : part_ok s (pc_part (ev_p e))) by (apply (ps_ok _ _ Hps), list_elem_of_fmap_2, Hin).
  destruct (packet_input s0 s d (ev_p e) t dr (ev_tms e) (ev_stack e) (iv_meta _ _ _ _ I) (tr_header _ _ _ TR d _ Hd Hin) Hx (proj1 Hk)) as [E Hq].
  eexists. split; [exact Hq|]. split; [eapply host_keys_keq; [exact Hq|cbn; by rewrite Hst|done]|]. split; [exact E|].
  split; [by apply waits_keq|]. intros Eg. eapply inv_room; [exact I|exact Hd|]. by rewrite Eg in Hw.
Qed.

Lemma step_more don todo t s e dr :
  inv don (e :: todo) t s -> event_ok don todo e -> got_of todo (ev_d e) <> [] ->
  exists t', rte_ipv4_frag_reassemble_packet (ev_stack e) t dr (pt_mb (pc_part (ev_p e))) (ev_tms e)
      (advance (rte_pktmbuf_mtod s (pt_mb (pc_part (ev_p e)))) (l2_len (mbuf s (pt_mb (pc_part (ev_p e)))))) s =
    Some (None, t', dr, s) /\ inv (don ++ [e]) todo t' s.
Proof.
  intros I Hev Hrest. destruct (event_call don todo t s e dr I Hev) as (k & Hq & HK & E & Hw & Hroom). destruct Hev as [Hd Ht Hst Hp].
  destruct (tr_ok _ _ _ TR _ Hd) as (D & Hk & _).
  destruct (input_more (host_key_space dst) t dr (with_key k (ev_d e)) (ev_p e) (ev_tms e) (got_of don (ev_d e)) (got_of todo (ev_d e)) s)
    as (t' & E' & T' & C' & W' & S' & O' & L'); [done|apply I|done|done|by eapply inv_current|done|done|done|].
  exists t'. split; [by rewrite E|]. apply others_keep_keq with (k := d_key (ev_d e)) in O'; [|done].
  constructor; [done|rewrite C'; apply I| |apply I| |].
  - intros fp Hfp. split.
    + destruct (S' fp Hfp) as [[Hl ->]|[_ ->]]; [by apply (iv_lru _ _ _ _ I)|done].
    + destruct (L' fp Hfp) as [Hh|[Hl Hn]]; [exists (ev_d e); split; [done|by apply (has_entry_keq _ _ k)]|].
      destruct (iv_lru _ _ _ _ I fp Hl) as (_ & d' & Hd' & Hh'). exists d'. split; [done|].
      apply (O' (d_key d') fp); [|done]. intros Hqq. apply Hn, (has_entry_keq _ (d_key d')); [|done].
      symmetry. transitivity (d_key (ev_d e)); [by symmetry|done].
  - intros d' Hd' Hg. rewrite got_of_snoc. destruct (iv_open _ _ _ _ I d' Hd') as [Hw' Hps']; [rewrite got_of_cons; by case_decide|]. split; [|done].
    case_decide as Ed; [subst d'; by apply (waits_keq _ _ k)|]. by eapply (waits_others t t' (ev_d e)).
  - intros d' Hd' Hg. assert (Hne : d' <> ev_d e) by (by intros ->).
    destruct (iv_done _ _ _ _ I d' Hd') as [Hw' Hps']; [rewrite got_of_cons; by rewrite decide_False|]. split; [|done].
    by eapply (waits_others t t' (ev_d e)).
Qed.

(** The mbufs of another datagram. *)
Lemma parts_foreign s s' d d' :
  same_meta s0 s -> d ∈ ds -> d' ∈ ds -> d' <> d -> rework (d_segs d) s s' ->
  (forall b o, b <> buf_addr (mbuf s (d_mb d)) -> mem s' !!! (b, o) = mem s !!! (b, o)) ->
  (parts s (map pc_part (d_pieces d')) -> parts s' (map pc_part (d_pieces d'))) /\
  (part_ok s (d_whole s0 d') -> part_ok s' (d_whole s0 d')).
Proof.
  intros Hm Hd Hd' Hne Hrw Hmem.
  assert (H1 : forall y, y ∈ d_segs d' -> mbuf s' y = mbuf s y).
  { intros y Hy. apply (rw_out _ _ _ Hrw). intros Hy2. by apply Hne, (tr_segs _ _ _ TR d' d y). }
  assert (H2 : forall y o, y ∈ d_segs d' -> mem s' !!! (buf_addr (mbuf s y), o) = mem s !!! (buf_addr (mbuf s y), o)).
  { intros y o Hy. apply Hmem. rewrite (proj1 (Hm y)), (proj1 (Hm (d_mb d))). apply (tr_bufs _ _ _ TR d d'); try done.
    intros ->. apply Hne, (tr_segs _ _ _ TR d' d (d_mb d)); try done. apply (d_mb_in s0). by apply (tr_ok _ _ _ TR). }
  split.
  - apply parts_other; [done|apply Hrw|done].
  - intros Hp. apply (part_other s); [done|apply Hrw|done|done].
Qed.

Lemma mbufs_ok_now s d : same_meta s0 s -> d ∈ ds -> parts s (map pc_part (d_pieces d)) -> d_mbufs_ok s d /\ d_whole s d = d_whole s0 d.
Proof.
  intros Hm Hd Hps. destruct (tr_ok _ _ _ TR d Hd) as (_ & _ & [Q1 Q2 Q3]). destruct (Hm (d_mb d)) as (E1 & E2 & E3). unfold d_mb in *.
  split; [|unfold d_whole, whole; by rewrite E2, E3]. constructor; [done| |by rewrite E2, E3].
  intros y Hy Hne. rewrite (proj1 (Hm y)), E1. by apply Q2.
Qed.

Lemma step_last don todo t s e dr :
  inv don (e :: todo) t s -> event_ok don todo e -> got_of todo (ev_d e) = [] ->
  exists t' s', rte_ipv4_frag_reassemble_packet (ev_stack e) t dr (pt_mb (pc_part (ev_p e))) (ev_tms e)
      (advance (rte_pktmbuf_mtod s (pt_mb (pc_part (ev_p e)))) (l2_len (mbuf s (pt_mb (pc_part (ev_p e)))))) s =
    Some (Some (d_mb (ev_d e)), t', dr, s') /\ inv (don ++ [e]) todo t' s'.
Proof.
  intros I Hev Hrest. destruct (event_call don todo t s e dr I Hev) as (k & Hq & HK & E & Hw & _). destruct Hev as [Hd Ht Hst Hp].
  destruct (tr_ok _ _ _ TR _ Hd) as (D & Hk & _). rewrite Hrest in Hp. pose proof (iv_meta _ _ _ _ I) as Hm.
  destruct (iv_open _ _ _ _ I _ Hd) as [_ Hps]; [rewrite got_of_cons; by rewrite decide_True|].
  destruct (mbufs_ok_now s _ Hm Hd Hps) as [Hmb Ewh].
  assert (Hgot : got_of don (ev_d e) <> []).
  { intros Eg. rewrite Eg in Hp. apply Permutation_length in Hp. unfold d_pieces, pieces in Hp. cbn in Hp. rewrite length_app in Hp. cbn in Hp. lia. }
  destruct (input_last (host_key_space dst) t dr (with_key k (ev_d e)) (ev_p e) (ev_tms e) (got_of don (ev_d e)) s)
    as (t' & s' & E' & T' & C' & W' & S' & O' & X' & R' & M'); [done|apply I|done|done|done|by eapply inv_current|done|done|].
  exists t', s'. split; [by rewrite E|]. apply others_keep_keq with (k := d_key (ev_d e)) in O'; [|done].
  apply (waits_keq _ (ev_d e)) in W'; [|done].
  assert (Hm' : same_meta s0 s').
  { intros x. destruct (Hm x) as (A1 & A2 & A3), (rework_meta _ _ _ R' x) as (B1 & B2 & B3). split_and!; congruence. }
  constructor; [done|rewrite C'; apply I| |done| |].
  - intros fp Hfp. destruct (S' fp Hfp) as [Hl Ee]. rewrite Ee. destruct (iv_lru _ _ _ _ I fp Hl) as (Hs & d' & Hd' & Hh').
    split; [done|]. exists d'. split; [done|]. split; [done|]. rewrite Ee. apply Hh'.
  - intros d' Hd' Hg. assert (Hne : d' <> ev_d e) by (by intros ->). rewrite got_of_snoc, decide_False by done.
    destruct (iv_open _ _ _ _ I d' Hd') as [Hw' Hps']; [rewrite got_of_cons; by rewrite decide_False|].
    split; [by eapply (waits_others t t' (ev_d e))|]. by eapply (parts_foreign s s' (ev_d e)).
  - intros d' Hd' Hg. destruct (decide (d' = ev_d e)) as [->|Hne]; [by rewrite <- Ewh|].
    destruct (iv_done _ _ _ _ I d' Hd') as [Hw' Hps']; [rewrite got_of_cons; by rewrite decide_False|].
    split; [by eapply (waits_others t t' (ev_d e))|]. by eapply (parts_foreign s s' (ev_d e)).
Qed.

(** ** All of them *)

Lemma run_frags_ok dr : forall todo don t s,
  inv don todo t s -> (forall d, d ∈ ds -> d_pieces d ≡ₚ got_of don d ++ got_of todo d) ->
  (forall e, e ∈ todo -> ev_d e ∈ ds /\ in_time (ev_tms e) /\ length (ev_stack e) = 3%nat) ->
  exists t' s', run_frags t dr (map call todo) s = Some (expected todo, t', dr, s') /\ inv (don ++ todo) [] t' s'.
Proof.
  induction todo as [|e todo IH]; intros don t s I Hp He; [exists t, s; by rewrite app_nil_r|].
  destruct (He e ltac:(left)) as (Hd & Ht & Hst).
  assert (Hev : event_ok don todo e) by (constructor; try done; rewrite (Hp _ Hd), got_of_cons; by rewrite decide_True).
  assert (Hgo : forall t1 s1, inv (don ++ [e]) todo t1 s1 ->
    exists t' s', run_frags t1 dr (map call todo) s1 = Some (expected todo, t', dr, s') /\ inv (don ++ e :: todo) [] t' s').
  { intros t1 s1 I1. destruct (IH _ _ _ I1) as (t' & s' & Er & I'); [|intros; apply He; by right|exists t', s'; by rewrite <- app_assoc in I'].
    intros d Hd'. rewrite (Hp d Hd'), got_of_cons, got_of_snoc. case_decide; [|done]. by rewrite <- app_assoc. }
  cbn [map run_frags call expected]. case_decide as Ed.
  - destruct (step_last don todo t s e dr I Hev Ed) as (t1 & s1 & E1 & I1). destruct (Hgo _ _ I1) as (t' & s' & Er & I').
    exists t', s'. split; [|done]. rewrite E1. cbn [mbind option_bind]. rewrite Er. done.
  - destruct (step_more don todo t s e dr I Hev Ed) as (t1 & E1 & I1). destruct (Hgo _ _ I1) as (t' & s' & Er & I').
    exists t', s'. split; [|done]. rewrite E1. cbn [mbind option_bind]. rewrite Er. done.
Qed.

(** With nothing to come every datagram is one packet. *)
Lemma inv_final evs t s : inv evs [] t s ->
  lru t = [] /\
  forall d, d ∈ ds ->
    let r := mbuf s0 (d_mb d) in
    packet s (d_mb d) (d_segs d) /\
    bytes s (d_segs d) =
      ipv4_whole (l2_len r) (l3_len r) (sum_len (d_pieces d)) (pt_hdr (pc_part (d_first d))) ++
      concat (map pt_pay (map pc_part (d_pieces d))).
Proof.
  intros I. split.
  - apply elem_of_nil_inv. intros fp Hfp. destruct (iv_lru _ _ _ _ I fp Hfp) as (_ & d & Hd & Hh).
    by apply (proj1 (iv_done _ _ _ _ I d Hd eq_refl) fp).
  - intros d Hd r. destruct (iv_done _ _ _ _ I d Hd eq_refl) as [_ [Hf Hb _]]. split; [apply Hf|done].
Qed.

End Interleave.

(** The calls on a new table. *)
Lemma new_table_run `{FragHash} {P : Type} `{MP : !MbufPool P} bucket_num be me mc t dst T0 ds evs dr (s : mstate P) :
  rte_ip_frag_table_create bucket_num be me mc = Some t ->
  1 <= bucket_num <= 2 ^ 31 -> 0 <= be < 2 ^ 32 -> 0 < me < 2 ^ 32 ->
  Z.of_nat (length ds) <= be -> Z.of_nat (length ds) <= me ->
  0 <= T0 -> 0 <= mc -> T0 + 2 * mc < 2 ^ 64 -> traffic s dst ds ->
  (forall d, d ∈ ds -> d_pieces d ≡ₚ got_of evs d) ->
  (forall e, e ∈ evs -> ev_d e ∈ ds /\ T0 <= ev_tms e <= T0 + mc /\ length (ev_stack e) = 3%nat) ->
  exists t' s', run_frags t dr (map call evs) s = Some (expected evs, t', dr, s') /\ inv s t dst T0 ds evs [] t' s'.
Proof.
  intros E Hbn Hbe Hme Hl1 Hl2 Ht0 Hmc Ht TR Hp He.
  destruct (create_spec bucket_num be me mc t Hbn Hbe ltac:(lia) E) as (_ & El & _ & Em & Ec & Eb & _).
  assert (Htime : 0 <= T0 /\ 0 <= max_cycles t /\ T0 + 2 * max_cycles t < 2 ^ 64) by (rewrite Ec; lia).
  assert (I : inv s t dst T0 ds [] evs t s).
  { constructor; [by eapply create_table_ok; [apply host_key_space|..]|done| |by intros x| |].
    - intros fp Hfp. rewrite El in Hfp. by apply elem_of_nil in Hfp.
    - intros d Hd _. split; [intros fp [Hfp _]; rewrite El in Hfp; by apply elem_of_nil in Hfp|]. by apply (tr_ok _ _ _ TR).
    - intros d Hd Hg. exfalso. specialize (Hp d Hd). rewrite Hg in Hp. by apply Permutation_nil_r in Hp. }
  apply (run_frags_ok s t dst T0 ds TR ltac:(lia) ltac:(lia) Htime dr evs [] t s I).
  - intros d Hd. by rewrite (Hp d Hd).
  - intros e Hin. unfold in_time. rewrite Ec. by apply He.
Qed.
