(* ===== verification/IpFragTheorems.v ===== *)
(** * IP reassembly: theorems

    The claims on the reassembly of IPv4 datagrams and on the table of
    fragments, and inputs on which the code falls short. *)
From S2P Require Import Prelude Bits Mbuf MbufPacket IpFrag IpFragChain IpFragHeader IpFragEntry IpFragTable.
From S2P Require Import IpFragFind IpFragInput IpFragRun IpFragInterleave.

(** ** Interleaved datagrams *)

Section Reassembly.
Context `{FragHash} {P : Type} `{MP : !MbufPool P}.
Implicit Types (s : mstate P).

(** C13: The fragments of several datagrams (two to four fragments each, for one
    destination) are given to [rte_ipv4_frag_reassemble_packet] in any order
    and interleaving, within the lifetime of an entry and into a new table
    with room for all of them.  Every call returns; it returns NULL unless it
    brings the last missing fragment of its datagram, and then the first mbuf
    of the datagram.  At the end the table is empty, nothing was put on the
    death row, and each datagram is one packet: the header of the first
    fragment with the total length, the flags and the checksum rewritten,
    followed by the payloads in the order of their offsets. *)
Theorem reassembly_correct bucket_num be me mc t dst T0 ds evs dr s :
  rte_ip_frag_table_create bucket_num be me mc = Some t ->
  1 <= bucket_num <= 2 ^ 31 -> 0 <= be < 2 ^ 32 -> 0 < me < 2 ^ 32 ->
  Z.of_nat (length ds) <= be -> Z.of_nat (length ds) <= me ->
  0 <= T0 -> 0 <= mc -> T0 + 2 * mc < 2 ^ 64 ->
  traffic s dst ds ->
  (forall d, d ∈ ds -> d_pieces d ≡ₚ got_of evs d) ->
  (forall e, e ∈ evs -> ev_d e ∈ ds /\ T0 <= ev_tms e <= T0 + mc /\ length (ev_stack e) = 3%nat) ->
  exists t' s', run_frags t dr (map call evs) s = Some (expected evs, t', dr, s') /\ lru t' = [] /\
    forall d, d ∈ ds ->
      let r := mbuf s (d_mb d) in
      packet s' (d_mb d) (d_segs d) /\
      bytes s' (d_segs d) =
        ipv4_whole (l2_len r) (l3_len r) (sum_len (d_pieces d)) (pt_hdr (pc_part (d_first d))) ++
        concat (map pt_pay (map pc_part (d_pieces d))).
Proof.
  intros E Hbn Hbe Hme Hl1 Hl2 Ht0 Hmc Ht TR Hp He.
  destruct (new_table_run bucket_num be me mc t dst T0 ds evs dr s E Hbn Hbe Hme Hl1 Hl2 Ht0 Hmc Ht TR Hp He) as (t' & s' & Er & I').
  destruct (inv_final _ _ _ _ _ _ _ _ I') as [El Hd]. by exists t', s'.
Qed.

End Reassembly.

(** ** The table *)

(** C14: The table behaves like a map from keys to entries with a timeout.
    For a key of a set that the comparison can tell apart, [ip_frag_find]
    returns the entry of the key when there is one, as it is while it is in
    time and made fresh when (and only when) it has timed out; otherwise a
    fresh entry for the key, in a free place or in that of an entry that has
    timed out, or after deleting the oldest entry if that has
    timed out; and no entry only when both buckets of the key are full of
    entries in time, or the table is full and its oldest entry in time.  The
    mbufs of an entry that is given up go to the death row, every other entry
    and the order of the LRU list stay as they were, and the invariant is
    kept. *)
Theorem find_is_map `{FragHash} kl K t dr k tms :
  key_space kl K -> table_ok (kl := kl) (K := K) t -> K k ->
  exists gone r t' dr', ip_frag_find t dr k tms = Some (r, t', dr') /\ find_ok (kl := kl) (K := K) t dr k tms gone r t' dr'.
Proof. intros KS T Hk. exact (find_spec KS t dr k tms T Hk). Qed.

(** C16: A new table is empty and satisfies the invariant, and the places that
    the search for any key looks at are inside the array of [nb_entries]
    entries. *)
Theorem new_table_in_bounds `{FragHash} kl K bucket_num be me mc t :
  key_space kl K -> 1 <= bucket_num <= 2 ^ 31 -> 0 <= be < 2 ^ 32 -> 0 < me < 2 ^ 32 ->
  rte_ip_frag_table_create bucket_num be me mc = Some t ->
  table_ok (kl := kl) (K := K) t /\ lru t = [] /\ forall k c, c ∈ cands t k -> 0 <= c < nb_entries t.
Proof.
  intros KS Hbn Hbe Hme E. split; [by eapply create_table_ok|].
  destruct (create_spec bucket_num be me mc t Hbn Hbe ltac:(lia) E) as (_ & El & _ & _ & _ & _ & _ & _ & Hc). done.
Qed.

(** ** Arbitrary fragments *)

Section Accounting.
Context `{FragHash} {kl : Z} {K : ip_frag_key -> Prop} {P : Type} `{MP : !MbufPool P}.
Implicit Types (s : mstate P) (t : rte_ip_frag_tbl) (dr : death_row).

Fixpoint run_inputs t dr (ins : list frag_in) s : option (list (option Z) * rte_ip_frag_tbl * death_row * mstate P) :=
  match ins with
  | [] => Some ([], t, dr, s)
  | i :: ins' =>
      '(r, t, dr, s) ← frag_input t dr (in_mb i) (in_tms i) (in_key i) (in_ofs i) (in_len i) (in_more i) s;
      '(rs, t, dr, s) ← run_inputs t dr ins' s;
      Some (r :: rs, t, dr, s)
  end.

Lemma tbl_mbufs_bound t : table_ok (kl := kl) (K := K) t -> Z.of_nat (length (tbl_mbufs t)) <= 4 * max_entries t.
Proof.
  intros T. pose proof (to_full _ T). enough (length (tbl_mbufs t) <= 4 * length (lru t))%nat by lia.
  clear H0. unfold tbl_mbufs. induction (lru t) as [|fp q IH]; [done|]. rewrite bind_cons, length_app. cbn [length].
  pose proof (entry_mbufs_bound (entry t fp) (proj1 (to_shape _ T fp))). lia.
Qed.

(** What the fragments [ins] leave behind, on top of a table and a death row:
    the packets, one for each of the results [outs] that is not NULL. *)
Record run_post t dr (ins all : list frag_in) s (outs : list (option Z)) t' dr' s' (packets : list (list frag_in)) : Prop := {
  rp_packets : Forall2 (packet_of all s') (omap id outs) packets;
  rp_mbufs : tbl_mbufs t' ++ map in_mb (concat packets) ++ dr' ≡ₚ map in_mb ins ++ tbl_mbufs t ++ dr;
  rp_dead : (length dr' <= 5 * length ins + length dr)%nat;
  rp_conf : max_entries t' = max_entries t;
  rp_table : table_ok (kl := kl) (K := K) t';
  rp_grows : exists D, grows D s s' }.

Lemma run_links (KS : key_space kl K) all ins t dr s outs t' dr' s' :
  (forall i, i ∈ all -> K (in_key i) /\ in_ok i) -> ins ⊆ all -> table_ok (kl := kl) (K := K) t -> tbl_stored all t ->
  NoDup (map in_mb ins ++ tbl_mbufs t ++ dr) -> (forall x, x ∈ map in_mb ins ++ tbl_mbufs t -> 0 <= nb_segs (mbuf s x) <= 63) ->
  run_inputs t dr ins s = Some (outs, t', dr', s') -> exists packets, run_post t dr ins all s outs t' dr' s' packets.
Proof.
  intros Hall. revert t dr s outs. induction ins as [|i ins IH]; intros t dr s outs Hsub T HS Hnd Hnb; cbn [run_inputs].
  { intros [= <- <- <- <-]. exists []. constructor; [constructor|done|cbn; lia|done|done|]. exists []. apply grows_refl. }
  destruct (frag_input _ _ _ _ _ _ _ _ _) as [[[[r t1] dr1] s1]|] eqn:Ei; [|done]. cbn [mbind option_bind].
  assert (Hia : i ∈ all) by (apply Hsub; left). cbn [map] in Hnd, Hnb.
  assert (Hnd0 : NoDup (in_mb i :: tbl_mbufs t ++ dr)).
  { cbn in Hnd. apply NoDup_cons in Hnd as [Hx Hnd]. apply NoDup_app in Hnd as (_ & _ & Hnd). constructor; [set_solver|done]. }
  destruct (input_links KS all t dr i s r t1 dr1 s1) as (g & [T1 C1 P1 L1 R1 S1 G1 B1]); try done.
  1,3: by apply Hall. { intros x Hx. by apply Hall. } { intros x Hx. apply Hnb. set_solver. }
  destruct (run_inputs t1 dr1 ins s1) as [[[[rs t2] dr2] s2]|] eqn:Er; [|done]. cbn [mbind option_bind]. intros [= <- <- <- <-].
  assert (S1' : tbl_stored all t1) by (intros fp Hfp; eapply stored_ok_mono; [|by apply S1]; set_solver).
  assert (Hperm : map in_mb ins ++ tbl_mbufs t1 ++ map in_mb g ++ dr1 ≡ₚ (in_mb i :: map in_mb ins) ++ tbl_mbufs t ++ dr).
  { rewrite P1. cbn. symmetry. apply Permutation_middle. }
  destruct (IH t1 dr1 s1 rs) as (packets & [P2 M2 L2 C2 T2 [D2 G2]]); try done.
  - set_solver.
  - rewrite <- Hperm in Hnd. rewrite app_assoc, (Permutation_app_comm (map in_mb g)), !app_assoc in Hnd. apply NoDup_app in Hnd as (Hnd & _ & _).
    by rewrite <- app_assoc in Hnd.
  - intros x [Hx|Hx]%elem_of_app.
    + rewrite (gr_segs _ _ _ G1); [apply Hnb; set_solver|]. cbn in Hnd. apply NoDup_cons in Hnd as [Hni Hnd]. apply NoDup_app in Hnd as (_ & Hd & _).
      intros [->|Hx']%elem_of_cons; [set_solver|]. apply (Hd x Hx). set_solver.
    + destruct (B1 x Hx) as [Hx' ->]. apply Hnb. set_solver.
  - assert (Hg : grows (in_mb i :: tbl_mbufs t ++ D2) s s2) by (eapply grows_trans; [exact G1|exact G2|set_solver|set_solver]).
    assert (Hres : match r with None => g = [] | Some r => packet_of all s2 r g end).
    { destruct r; [|done]. eapply packet_of_mono; [|exact G2|exact R1]. set_solver. }
    exists (match r with Some _ => g :: packets | None => packets end).
    assert (Hc : concat (match r with Some _ => g :: packets | None => packets end) = g ++ concat packets) by (destruct r; [done|by rewrite Hres]).
    constructor; [|rewrite Hc|cbn; lia|injection C1 as _ _ C1 _ _ _; congruence|done|by eexists].
    + destruct r; cbn; [by constructor|done].
    + rewrite map_app. transitivity (map in_mb g ++ (tbl_mbufs t2 ++ map in_mb (concat packets) ++ dr2)); [solve_Permutation|].
      rewrite M2, <- Hperm. solve_Permutation.
Qed.


End Accounting.

(** ** Packets of one segment *)

Section Single.
Context {P : Type} `{MP : !MbufPool P}.

(** A packet of one segment, as a test. *)
Definition single_part (s : mstate P) (x : part) : bool :=
  let r := mbuf s (pt_mb x) in
  bool_decide (pt_segs x = [pt_mb x] /\ is_Some (mbufs s !! pt_mb x) /\ next r = None /\ nb_segs r = 1 /\ pkt_len r = data_len r) &&
  (0 <=? data_off r) && (0 <=? data_len r) && (data_off r + data_len r <=? buf_len r) && (buf_len r <? 2 ^ 16) &&
  (0 <=? hlen s (pt_mb x)) && (hlen s (pt_mb x) <=? data_len r) &&
  bool_decide (bytes s (pt_segs x) = pt_hdr x ++ pt_pay x /\ length (pt_hdr x) = Z.to_nat (hlen s (pt_mb x))).

Lemma single_part_ok s x : single_part s x = true -> part_ok s x /\ 0 <= total_len s (pt_segs x) < 2 ^ 16.
Proof.
  unfold single_part. rewrite !andb_true_iff, !Z.leb_le, Z.ltb_lt, !bool_decide_eq_true.
  intros [[[[[[[(E1 & E2 & E3 & E4 & E5) H1] H2] H3] H4] H5] H6] [E6 E7]]. destruct x as [m l h w]. cbn [pt_mb pt_segs pt_hdr pt_pay] in *. subst l.
  assert (Et : total_len s [m] = data_len (mbuf s m)) by (cbn; lia). split; [|rewrite Et; lia].
  constructor; cbn [pt_mb pt_segs pt_hdr pt_pay]; [constructor|done|lia].
  - constructor; rewrite ?Et; try done; try lia.
    + apply NoDup_singleton.
    + intros x ->%list_elem_of_singleton. constructor; try done; lia.
  - lia.
  - rewrite E6, <- E7. apply drop_app_length.
Qed.

End Single.

(** ** Samples *)

(** An IPv4 header of 20 bytes behind 14 bytes of Ethernet header; the key of
    the datagram [id] from 10.0.0.[src]; a fragment in one mbuf. *)
Definition demo_header (src id o l mf : Z) : list Z :=
  replicate 14 0 ++
  [69; 0; (20 + l) / 256; (20 + l) mod 256; 0; id; (o / 8 + mf * 32 * 256) / 256; (o / 8) mod 256; 64; 17; 5; 5; 10; 0; 0; src; 10; 0; 0; 9].
Definition demo_key (src id : Z) : ip_frag_key :=
  mkKey [get_le [10; 0; 0; src; 10; 0; 0; 9] 0 8; 0; 0; 0] (256 * id) IPV4_KEYLEN.
Definition demo_piece (m src id o l mf base : Z) : piece :=
  mkPiece (mkPart m [m] (demo_header src id o l mf) (seqZ base l)) o l (mf * 8192).

Definition put_bytes (b o : Z) (l : list Z) (t : gmap (Z * Z) Z) : gmap (Z * Z) Z :=
  fold_right (fun '(i, v) t => <[(b, o + Z.of_nat i) := v]> t) t (combine (seq 0 (length l)) l).
Definition add_piece (p : piece) (s : mstate (list Z)) : mstate (list Z) :=
  let x := pc_part p in let m := pt_mb x in let n := Z.of_nat (length (pt_hdr x ++ pt_pay x)) in
  mkMstate (<[m := mkMbuf (m + 128) 2048 128 1 1 0 n n 1 None 14 20 0]> (mbufs s))
    (put_bytes (m + 128) 128 (pt_hdr x ++ pt_pay x) (mem s)) (pools s).
Definition demo_state (ps : list piece) : mstate (list Z) :=
  fold_right add_piece (mkMstate ∅ ∅ {[1 := mkPool [] 2048 0]}) ps.

Definition demo_table : rte_ip_frag_tbl := default (mkTbl 0 0 0 0 0 0 0 None [] ∅) (rte_ip_frag_table_create 4 4 16 1000).

(** Two datagrams, of three and of two fragments. *)
Definition demo_a : dgram :=
  mkDgram (demo_key 1 7) (demo_piece 10000 1 7 0 8 1 1) [demo_piece 20000 1 7 8 16 1 11] (demo_piece 30000 1 7 24 5 0 31).
Definition demo_b : dgram := mkDgram (demo_key 2 7) (demo_piece 40000 2 7 0 16 1 41) [] (demo_piece 50000 2 7 16 3 0 61).
Definition demo_dgrams : list dgram := [demo_a; demo_b].
Definition demo_traffic_state : mstate (list Z) := demo_state (d_pieces demo_a ++ d_pieces demo_b).
Definition demo_events : list frag_ev :=
  [mkEv demo_a (d_last demo_a) 100 [1; 2; 3]; mkEv demo_b (d_first demo_b) 101 [4; 5; 6]; mkEv demo_a (demo_piece 20000 1 7 8 16 1 11) 102 [0; 0; 0];
   mkEv demo_b (d_last demo_b) 103 [7; 7; 7]; mkEv demo_a (d_first demo_a) 104 [8; 8; 8]].

Lemma demo_parts d : d ∈ demo_dgrams -> parts demo_traffic_state (map pc_part (d_pieces d)).
Proof.
  intros Hd. assert (Hc : forallb (single_part demo_traffic_state) (map pc_part (d_pieces d)) = true).
  { apply elem_of_cons in Hd as [->|Hd]; [|apply list_elem_of_singleton in Hd as ->]; vm_compute; reflexivity. }
  rewrite forallb_forall in Hc. setoid_rewrite <- list_elem_of_In in Hc. constructor.
  - intros x Hx. by apply single_part_ok, Hc.
  - apply elem_of_cons in Hd as [->|Hd]; [|apply list_elem_of_singleton in Hd as ->]; apply (bool_decide_unpack _); vm_compute; exact I.
  - apply elem_of_cons in Hd as [->|Hd]; [|apply list_elem_of_singleton in Hd as ->]; vm_compute; reflexivity.
  - apply elem_of_cons in Hd as [->|Hd]; [|apply list_elem_of_singleton in Hd as ->]; vm_compute; reflexivity.
Qed.

Ltac each_demo Hd := apply elem_of_cons in Hd as [->|Hd]; [|apply list_elem_of_singleton in Hd as ->].

Lemma demo_traffic : traffic demo_traffic_state (get_le [10; 0; 0; 9] 0 4) demo_dgrams.
Proof.
  constructor.
  - apply (bool_decide_unpack _). vm_compute. exact I.
  - intros d Hd. split_and!.
    + each_demo Hd; (constructor; [repeat split|cbn; lia|split; [vm_compute; discriminate|split; [|vm_compute; reflexivity]]|vm_compute; reflexivity]).
      * intros p ->%list_elem_of_singleton. vm_compute. discriminate.
      * intros p Hp. by apply elem_of_nil in Hp.
    + each_demo Hd; (split; [reflexivity|split; [reflexivity|split; [vm_compute; split; [discriminate|reflexivity]|]]]);
        [exists (get_le [10; 0; 0; 1] 0 4)|exists (get_le [10; 0; 0; 2] 0 4)]; (split; [split; vm_compute; reflexivity|vm_compute; reflexivity]).
    + constructor; [by apply demo_parts| |].
      * intros y Hy Hne. revert y Hy Hne. refine (proj1 (Forall_forall _ _) _). each_demo Hd; apply (bool_decide_unpack _); vm_compute; exact I.
      * each_demo Hd; vm_compute; split; discriminate.
  - intros d d' Hd Hd' (_ & _ & E). each_demo Hd; each_demo Hd'; try done; specialize (E 0%nat ltac:(change (0 < 1)%nat; lia)); vm_compute in E; discriminate.
  - intros d p Hd Hp. revert p Hp. each_demo Hd; intros p Hp;
      repeat (apply elem_of_cons in Hp as [->|Hp]; [constructor; vm_compute; try discriminate; try reflexivity; split; reflexivity|]);
      by apply elem_of_nil in Hp.
  - intros d d' y Hd Hd' Hy Hy'. revert Hy'. revert y Hy. 
    each_demo Hd; each_demo Hd'; intros y Hy Hy'; try done; exfalso; revert y Hy Hy'; refine (proj1 (Forall_forall _ _) _); apply (bool_decide_unpack _); vm_compute; exact I.
  - intros d d' y Hd Hd' Hy Hne. revert y Hy Hne. refine (proj1 (Forall_forall _ _) _). each_demo Hd; each_demo Hd'; apply (bool_decide_unpack _); vm_compute; exact I.
Qed.

(** ** Witnesses *)

Lemma demo_created : rte_ip_frag_table_create 4 4 16 1000 = Some demo_table.
Proof. vm_compute. reflexivity. Qed.

Lemma reassembly_correct_witness :
  exists t' s', run_frags demo_table [] (map call demo_events) demo_traffic_state =
      Some ([None; None; None; Some 40000; Some 10000], t', [], s') /\ lru t' = [] /\
    bytes s' (d_segs demo_b) = replicate 14 0 ++
      [69; 0; 0; 39; 0; 7; 0; 0; 64; 17; 0; 0; 10; 0; 0; 2; 10; 0; 0; 9] ++ seqZ 41 16 ++ seqZ 61 3.
Proof.
  destruct (reassembly_correct 4 4 16 1000 demo_table (get_le [10; 0; 0; 9] 0 4) 100 demo_dgrams demo_events [] demo_traffic_state)
    as (t' & s' & E & El & Hp); [exact demo_created|lia|lia|lia|cbn; lia|cbn; lia|lia|lia|lia|exact demo_traffic| | |].
  - intros d Hd. each_demo Hd; apply (bool_decide_unpack _); vm_compute; exact I.
  - intros e He. repeat (apply elem_of_cons in He as [->|He]; [split; [unfold demo_dgrams; (left || (right; left))|split; [cbn; lia|reflexivity]]|]).
    by apply elem_of_nil in He.
  - exists t', s'. split; [rewrite E; vm_compute; reflexivity|]. split; [exact El|].
    destruct (Hp demo_b) as [_ Hb]; [right; left|]. refine (eq_trans Hb _). vm_compute. reflexivity.
Defined.

Lemma demo_frag_table_ok dst : table_ok (kl := IPV4_KEYLEN) (K := host_keys dst) demo_table.
Proof. apply (create_table_ok _ _ 4 4 16 1000); [apply host_key_space|lia|lia|lia|exact demo_created]. Qed.

Lemma demo_host_key : host_keys (get_le [10; 0; 0; 9] 0 4) (demo_key 1 7).
Proof. apply (tr_ok _ _ _ demo_traffic demo_a). left. Qed.

Lemma find_is_map_witness :
  exists gone r t' dr', ip_frag_find demo_table [] (demo_key 1 7) 100 = Some (r, t', dr') /\
    find_ok (kl := IPV4_KEYLEN) (K := host_keys (get_le [10; 0; 0; 9] 0 4)) demo_table [] (demo_key 1 7) 100 gone r t' dr'.
Proof.
  exact (find_is_map IPV4_KEYLEN (host_keys (get_le [10; 0; 0; 9] 0 4)) demo_table [] (demo_key 1 7) 100
    (host_key_space _) (demo_frag_table_ok _) demo_host_key).
Defined.

Lemma new_table_in_bounds_witness :
  lru demo_table = [] /\ forall k c, c ∈ cands demo_table k -> 0 <= c < nb_entries demo_table.
Proof.
  exact (proj2 (new_table_in_bounds IPV4_KEYLEN (host_keys 9) 4 4 16 1000 demo_table (host_key_space 9)
    ltac:(lia) ltac:(lia) ltac:(lia) demo_created)).
Defined.

(** The fragments of a datagram, and a last fragment of another one with a
    duplicate of it at a larger offset. *)
Definition demo_inputs : list frag_in :=
  [mkIn 30000 100 (demo_key 1 7) 24 5 0; mkIn 40000 101 (demo_key 2 7) 8 8 0; mkIn 20000 102 (demo_key 1 7) 8 16 8192;
   mkIn 10000 103 (demo_key 1 7) 0 8 8192; mkIn 50000 104 (demo_key 2 7) 16 8 0].


(** ** Where the code falls short *)

(** The comparison of keys keeps 32 bits of the difference: datagrams from one
    source with the same identification are the same datagram, whatever their
    destinations. *)
Theorem key_cmp_ignores_destination :
  ip_frag_key_cmp (mkKey [get_le [10; 0; 0; 1; 10; 0; 0; 9] 0 8; 0; 0; 0] 7 IPV4_KEYLEN)
    (mkKey [get_le [10; 0; 0; 1; 192; 168; 0; 77] 0 8; 0; 0; 0] 7 IPV4_KEYLEN) = 0.
Proof. vm_compute. reflexivity. Qed.

Definition demo_run (ps : list piece) : option (option Z * rte_ip_frag_tbl * death_row * mstate (list Z)) :=
  fold_left (fun acc p =>
    '(_, t, dr, s) ← acc;
    let m := pt_mb (pc_part p) in
    rte_ipv4_frag_reassemble_packet [0; 0; 0] t dr m 5 (advance (rte_pktmbuf_mtod s m) 14) s) ps (Some (None, demo_table, [], demo_state ps)).

(** Four fragments whose lengths add up to the size of the datagram but that
    leave a hole: the last one has been chained to its neighbour when the hole
    is found, yet both go to the death row and the chained one is freed twice
    (its reference counter goes below zero). *)
Theorem hole_frees_twice :
  let ps := [demo_piece 1000 1 7 0 8 1 1; demo_piece 3000 1 7 24 8 0 21; demo_piece 2000 1 7 16 8 1 11; demo_piece 4000 1 7 104 8 1 31] in
  ('(r, _, dr, s) ← demo_run ps;
   '(_, s') ← rte_ip_frag_free_death_row dr s;
   Some (r, dr, next (mbuf s 2000), refcnt (mbuf s' 3000))) =
  Some (None, [3000; 1000; 2000; 4000], Some 3000, 65535).
Proof. vm_compute. reflexivity. Qed.

(** A fragment without payload between the first and the last one is neither
    in the packet nor on the death row. *)
Theorem empty_fragment_leaks :
  let ps := [demo_piece 1000 1 7 0 8 1 1; demo_piece 2000 1 7 8 0 1 1; demo_piece 3000 1 7 8 8 0 21] in
  ('(r, t, dr, s) ← demo_run ps; Some (r, lru t, dr, next (mbuf s 1000), next (mbuf s 3000))) =
  Some (Some 1000, [], [], Some 3000, None).
Proof. vm_compute. reflexivity. Qed.

(** A key that is zero in the words that count looks like an entry that is not
    in use.  After a datagram was reassembled and handed over, a fragment from
    0.0.0.0 with the same identification finds its old entry: the mbufs of the
    packet that the application has go to the death row, and the number of
    entries in use becomes [2^32 - 1], so that the table counts as full. *)
Theorem zero_source_matches_free :
  let ps := [demo_piece 1000 1 7 0 8 1 1; demo_piece 3000 1 7 8 8 0 21] in
  ('(r, t, dr, s) ← demo_run ps;
   '(r', t, dr', s) ← frag_input t dr 5000 6 (mkKey [get_le [0; 0; 0; 0; 10; 0; 0; 9] 0 8; 0; 0; 0] (256 * 7) IPV4_KEYLEN) 0 8 8192 s;
   Some (r, dr, r', dr', use_entries t)) = Some (Some 1000, [], None, [3000; 1000; 5000], 2 ^ 32 - 1).
Proof. vm_compute. reflexivity. Qed.
