(* ===== verification/IpFragment.v ===== *)
(** * IP fragmentation: operations

    Model of [rte_ipv4_fragmentation.c] and [rte_ipv6_fragmentation.c]: a packet
    is cut into fragments, each of a direct mbuf with the IP header and
    indirect mbufs that show pieces of the data of the packet.  The loops of
    the two files are the same but for the size of the header and the way it
    is filled.  [None] stands for a loop that does not end within its fuel, and
    for a write behind the end of the array [pkts_out], which is undefined. *)
From S2P Require Import Prelude Bits Mbuf IpFrag.

Definition ENOTSUP : Z := 95.
Definition SIZEOF_IPV4_HDR : Z := 20.
Definition IPV4_HDR_MF_SHIFT : Z := 13.
Definition IPV4_HDR_FO_SHIFT : Z := 3.
Definition IPV4_HDR_DF_MASK : Z := Z.shiftl 1 14.
Definition IPPROTO_FRAGMENT : Z := 44.
Definition RTE_IPV6_EHDR_MF_MASK : Z := 1.
Definition RTE_IPV6_EHDR_FO_MASK : Z := Z.lnot (Z.shiftl 1 3 - 1).

Definition RTE_IPV6_SET_FRAG_DATA (fo mf : Z) : Z := Z.lor (Z.land fo RTE_IPV6_EHDR_FO_MASK) (Z.land mf RTE_IPV6_EHDR_MF_MASK).

Section Fragmentation.
Context {P : Type} `{MP : !MbufPool P}.
Implicit Types (s : mstate P).

(** [rte_memcpy] between different buffers. *)
Definition rd_bytes s (a : Z * Z) (n : nat) : list Z := map (fun i => rd8 s a (Z.of_nat i)) (seq 0 n).
Fixpoint wr_bytes (a : Z * Z) (i : Z) (l : list Z) s : mstate P :=
  match l with [] => s | v :: l' => wr_bytes a (i + 1) l' (wr8 a i v s) end.
Definition rte_memcpy (dst src : Z * Z) (n : nat) s : mstate P := wr_bytes dst 0 (rd_bytes s src n) s.

Definition __fill_ipv4hdr_frag (dst src : Z * Z) (len fofs dofs mf : Z) s : mstate P :=
  let s := rte_memcpy dst src (Z.to_nat SIZEOF_IPV4_HDR) s in
  let fofs := u16 (fofs + Z.shiftr dofs IPV4_HDR_FO_SHIFT) in
  let fofs := u16 (Z.lor fofs (u32 (Z.shiftl mf IPV4_HDR_MF_SHIFT))) in
  let s := wr16be dst 6 fofs s in
  let s := wr16be dst 2 len s in
  wr16be dst 10 0 s.

Definition __fill_ipv6hdr_frag (dst src : Z * Z) (len fofs mf : Z) s : mstate P :=
  let s := rte_memcpy dst src (Z.to_nat SIZEOF_IPV6_HDR) s in
  let s := wr16be dst 4 len s in
  let s := wr8 dst 6 IPPROTO_FRAGMENT s in
  let fh := advance dst SIZEOF_IPV6_HDR in
  let s := wr8 fh 0 (rd8 s src 6) s in
  let s := wr8 fh 1 0 s in
  let s := wr16be fh 2 (u16 (RTE_IPV6_SET_FRAG_DATA fofs mf)) s in
  wr16be fh 6 0 (wr16be fh 4 0 s).

Definition __free_fragments (mb : list Z) s : option (mstate P) :=
  fold_left (fun acc m => s ← acc; rte_pktmbuf_free m s) mb (Some s).

(** The inner loop: indirect mbufs for the fragment [out_pkt], from the
    position [pos] of the segment [in_seg].  The result is the state in which
    an allocation failed, or the next position, [None] after the last
    segment. *)
Fixpoint seg_loop (fuel : nat) (pool_indirect mtu_size out_pkt out_seg_prev in_seg pos : Z) s :
    option (mstate P + option Z * Z * mstate P) :=
  match fuel with
  | O => None
  | S fuel' =>
      match rte_pktmbuf_alloc pool_indirect s with
      | None => Some (inl s)
      | Some (out_seg, s) =>
          let s := set_mbuf out_seg_prev (set_link (Some out_seg) (mbuf s out_seg_prev)) s in
          let s := rte_pktmbuf_attach out_seg in_seg s in
          let len := u32 (mtu_size - pkt_len (mbuf s out_pkt)) in
          let len := if len >? u32 (data_len (mbuf s in_seg) - pos) then u32 (data_len (mbuf s in_seg) - pos) else len in
          let r := mbuf s out_seg in
          let s := set_mbuf out_seg (set_data (u16 (data_off (mbuf s in_seg) + pos)) (u16 len) (pkt_len r) r) s in
          let p := mbuf s out_pkt in
          let s := set_mbuf out_pkt (set_packet (u8 (nb_segs p + 1)) (u16 (len + pkt_len p)) p) s in
          let pos := u32 (pos + len) in
          let more_out_segs := negb (pkt_len (mbuf s out_pkt) >=? mtu_size) in
          let '(in_seg, pos) := if pos =? data_len (mbuf s in_seg) then (next (mbuf s in_seg), 0) else (Some in_seg, pos) in
          match in_seg with
          | Some in_seg =>
              if more_out_segs then seg_loop fuel' pool_indirect mtu_size out_pkt out_seg in_seg pos s
              else Some (inr (Some in_seg, pos, s))
          | None => Some (inr (None, pos, s))
          end
      end
  end.

(** The outer loop: the return value and the fragments written to [pkts_out],
    an array of [nb_pkts_out] entries.  [fill] builds the header of a
    fragment. *)
Fixpoint frag_loop (fuel : nat) (hdr : Z) (fill : Z -> Z -> Z -> mstate P -> mstate P) (pool_direct pool_indirect mtu_size nb_pkts_out : Z)
    (pkts_out : list Z) (in_seg pos fragment_offset : Z) s : option (Z * list Z * mstate P) :=
  match fuel with
  | O => None
  | S fuel' =>
      match rte_pktmbuf_alloc pool_direct s with
      | None => s ← __free_fragments pkts_out s; Some (- ENOMEM, pkts_out, s)
      | Some (out_pkt, s) =>
          let r := mbuf s out_pkt in
          let s := set_mbuf out_pkt (set_data (data_off r) hdr hdr r) s in
          res ← seg_loop (mfuel s) pool_indirect mtu_size out_pkt out_pkt in_seg pos s;
          match res with
          | inl s =>
              s ← rte_pktmbuf_free out_pkt s;
              s ← __free_fragments pkts_out s;
              Some (- ENOMEM, pkts_out, s)
          | inr (in_seg, pos, s) =>
              let more_in_segs := match in_seg with None => 0 | Some _ => 1 end in
              let s := fill out_pkt fragment_offset more_in_segs s in
              let fragment_offset := u16 (fragment_offset + pkt_len (mbuf s out_pkt) - hdr) in
              if nb_pkts_out <=? Z.of_nat (length pkts_out) then None
              else
                let pkts_out := pkts_out ++ [out_pkt] in
                match in_seg with
                | None => Some (Z.of_nat (length pkts_out), pkts_out, s)
                | Some in_seg =>
                    frag_loop fuel' hdr fill pool_direct pool_indirect mtu_size nb_pkts_out pkts_out in_seg pos fragment_offset s
                end
          end
      end
  end.

(** The header of an IPv4 fragment, and the fields of its mbuf. *)
Definition ipv4_fill (in_hdr : Z * Z) (flag_offset : Z) (out_pkt fragment_offset more_in_segs : Z) s : mstate P :=
  let s := __fill_ipv4hdr_frag (rte_pktmbuf_mtod s out_pkt) in_hdr (u16 (pkt_len (mbuf s out_pkt))) flag_offset fragment_offset more_in_segs s in
  let r := mbuf s out_pkt in
  set_mbuf out_pkt (set_tx (Z.lor (ol_flags r) PKT_TX_IP_CKSUM) (l2_len r) SIZEOF_IPV4_HDR r) s.

(** A fragment takes at least one byte of the packet, but for a packet without
    payload. *)
Definition frag_fuel s pkt_in : nat := S (Z.to_nat (pkt_len (mbuf s pkt_in))).

Definition rte_ipv4_fragment_packet (pkt_in nb_pkts_out mtu_size pool_direct pool_indirect : Z) s : option (Z * list Z * mstate P) :=
  let frag_size := u16 (mtu_size - SIZEOF_IPV4_HDR) in
  let in_hdr := rte_pktmbuf_mtod s pkt_in in
  let flag_offset := rd16be s in_hdr 6 in
  if negb (Z.land flag_offset IPV4_HDR_DF_MASK =? 0) then Some (- ENOTSUP, [], s)
  else if i32 (frag_size * nb_pkts_out) <? u16 (pkt_len (mbuf s pkt_in) - SIZEOF_IPV4_HDR) then Some (- EINVAL, [], s)
  else frag_loop (frag_fuel s pkt_in) SIZEOF_IPV4_HDR (ipv4_fill in_hdr flag_offset) pool_direct pool_indirect mtu_size nb_pkts_out []
         pkt_in SIZEOF_IPV4_HDR 0 s.

Definition ipv6_fill (in_hdr : Z * Z) (out_pkt fragment_offset more_in_segs : Z) s : mstate P :=
  __fill_ipv6hdr_frag (rte_pktmbuf_mtod s out_pkt) in_hdr (u16 (u16 (pkt_len (mbuf s out_pkt)) - SIZEOF_IPV6_HDR)) fragment_offset more_in_segs s.

Definition rte_ipv6_fragment_packet (pkt_in nb_pkts_out mtu_size pool_direct pool_indirect : Z) s : option (Z * list Z * mstate P) :=
  let frag_size := u16 (mtu_size - SIZEOF_IPV6_HDR) in
  if i32 (frag_size * nb_pkts_out) <? u16 (pkt_len (mbuf s pkt_in) - SIZEOF_IPV6_HDR) then Some (- EINVAL, [], s)
  else
    let in_hdr := rte_pktmbuf_mtod s pkt_in in
    frag_loop (frag_fuel s pkt_in) (SIZEOF_IPV6_HDR + SIZEOF_FRAG_HDR) (ipv6_fill in_hdr) pool_direct pool_indirect mtu_size nb_pkts_out []
      pkt_in SIZEOF_IPV6_HDR 0 s.

End Fragmentation.
