(* ===== verification/IpFragmentSeg.v ===== *)
(** * IP fragmentation: the segments of one fragment

    The inner loop adds indirect mbufs to a fragment until it is full or the
    packet is used up. *)
From stdpp Require Import gmultiset.
From S2P Require Import Prelude Bits Mbuf MbufPacket MbufRef MbufClone IpFrag IpFragment.

Section Seg.
Context {P : Type} `{MP : !MbufPool P} `{ML : !MbufPoolLaws P}.
Implicit Types (s : mstate P) (x y z op : Z) (d l : list Z) (H : gmultiset Z).

Abbreviation live s x := (is_Some (mbufs s !! x)).
Abbreviation refs l := (list_to_set_disj l : gmultiset Z).

(** The buffer of [o] is not that of another mbuf. *)
Definition owns s (o : Z) : Prop := forall z, live s z -> z <> o -> buf_addr (mbuf s z) <> buf_addr (mbuf s o).

(** What stays, but for the references, when the mbufs [D] are new and those
    of [src] are attached to. *)
Record keeps H (src D : list Z) s s' : Prop := {
  kp_data : forall z, z ∉ D -> same_data s s' z;
  kp_live : forall z, live s' z <-> live s z;
  kp_owns : forall o, o ∈ H -> o ∉ src -> owns s o -> owns s' o;
  kp_room : forall mp, rte_pktmbuf_data_room_size s' mp = rte_pktmbuf_data_room_size s mp }.

Lemma keeps_refl H src D s : keeps H src D s s.
Proof. constructor; [intros z _; by apply same_data_eq|done|done|done]. Qed.

Lemma keeps_trans H src D1 D2 D s1 s2 s3 : keeps H src D1 s1 s2 -> keeps H src D2 s2 s3 -> D1 ⊆ D -> D2 ⊆ D -> keeps H src D s1 s3.
Proof.
  intros [A1 A2 A3 A4] [B1 B2 B3 B4] H1 H2. constructor.
  - intros z Hz. eapply same_data_trans; [apply A1|apply B1]; auto.
  - intros z. by rewrite B2.
  - auto.
  - intros mp. by rewrite B4.
Qed.

Lemma refs_elem l x H : x ∈ refs l ⊎ H <-> x ∈ l \/ x ∈ H.
Proof. by rewrite gmultiset_elem_of_disj_union, elem_of_list_to_set_disj. Qed.

Lemma u16_small v : 0 <= v < 2 ^ 16 -> u16 v = v.
Proof. apply wrap_small. Qed.

(** ** One indirect mbuf *)

(** A packet with one more segment [x]. *)
Lemma packet_add_seg s s' op l0 prev x :
  packet s op (l0 ++ [prev]) -> x ∉ l0 ++ [prev] ->
  (forall z, z ∈ l0 ++ [prev] -> view (mbuf s' z) = view (mbuf s z) /\ live s' z) ->
  (forall z, z ∈ l0 -> next (mbuf s' z) = next (mbuf s z)) -> next (mbuf s' prev) = Some x -> next (mbuf s' x) = None -> seg_ok s' x ->
  pkt_len (mbuf s' op) = pkt_len (mbuf s op) + data_len (mbuf s' x) -> nb_segs (mbuf s' op) = nb_segs (mbuf s op) + 1 ->
  pkt_len (mbuf s op) + data_len (mbuf s' x) < 2 ^ 32 -> (length (l0 ++ [prev]) < 255)%nat -> mem s' = mem s ->
  packet s' op ((l0 ++ [prev]) ++ [x]) /\ bytes s' ((l0 ++ [prev]) ++ [x]) = bytes s (l0 ++ [prev]) ++ seg_bytes s' x.
Proof.
  intros Hp Hx Hv Hn Hpn Hxn Hok Hpl Hnb Hmax Hlen Hmem.
  assert (Et : total_len s' (l0 ++ [prev]) = total_len s (l0 ++ [prev])).
  { apply total_len_ext. intros z Hz. destruct (Hv z Hz) as [[= _ _ _ ->] _]. done. }
  assert (Ett : total_len s' ((l0 ++ [prev]) ++ [x]) = pkt_len (mbuf s op) + data_len (mbuf s' x)).
  { rewrite total_len_app, Et, (pk_len _ _ _ Hp). cbn. lia. }
  split.
  - constructor.
    + apply (seglist_link s s' (Some op) l0 prev [x] (Some x)); [apply Hp|apply Hp|done|done|done].
    + apply NoDup_app. split; [apply Hp|]. split; [|apply NoDup_singleton]. intros z Hz ->%list_elem_of_singleton. done.
    + intros z [Hz| ->%list_elem_of_singleton]%elem_of_app; [|done]. destruct (Hv z Hz) as [Ev Hl].
      eapply view_seg_ok; [exact Ev|done|]. by apply (pk_segs _ _ _ Hp).
    + congruence.
    + rewrite Hnb, (pk_nb _ _ _ Hp), !length_app. cbn. lia.
    + lia.
    + rewrite length_app. cbn. lia.
  - rewrite bytes_app, bytes_one. f_equal. apply bytes_ext. intros z Hz. destruct (Hv z Hz) as [[= E1 _ E3 E4] _]. by apply seg_bytes_ext.
Qed.

(** The piece of a segment. *)
Lemma seg_piece s s' x y (pos len : Z) :
  mem s' = mem s -> buf_addr (mbuf s' x) = buf_addr (mbuf s y) -> data_off (mbuf s' x) = data_off (mbuf s y) + pos ->
  data_len (mbuf s' x) = len -> 0 <= pos -> 0 <= len -> pos + len <= data_len (mbuf s y) ->
  seg_bytes s' x = take (Z.to_nat len) (drop (Z.to_nat pos) (seg_bytes s y)).
Proof.
  intros Em E1 E2 E3 Hp Hl Hle. unfold seg_bytes. rewrite E1, E2, E3.
  rewrite <- read_bytes_drop by lia. replace (data_off (mbuf s y) + Z.of_nat (Z.to_nat pos)) with (data_off (mbuf s y) + pos) by lia.
  rewrite <- seg_read_take by lia. unfold read_bytes. by rewrite Em.
Qed.

(** The state after one round of the loop, with [len] bytes. *)
Definition seg_state s op prev x y (pos len : Z) : mstate P :=
  let s := set_mbuf prev (set_link (Some x) (mbuf s prev)) s in
  let s := rte_pktmbuf_attach x y s in
  let r := mbuf s x in
  let s := set_mbuf x (set_data (u16 (data_off (mbuf s y) + pos)) (u16 len) (pkt_len r) r) s in
  let p := mbuf s op in
  set_mbuf op (set_packet (u8 (nb_segs p + 1)) (u16 (len + pkt_len p)) p) s.

(** The new mbuf [x], and the others. *)
Lemma seg_state_fields s H op prev x y (pos len : Z) :
  minv s H ∅ -> fresh s x -> live s prev -> live s op -> live s y -> x <> prev -> x <> op -> x <> y -> y <> prev -> y <> op ->
  0 < refcnt (mbuf s y) -> refcnt (mbuf s (home s y)) < 2 ^ 16 - 1 ->
  let s' := seg_state s op prev x y pos len in
  minv s' H ∅ /\ (forall z, live s' z <-> live s z) /\ mem s' = mem s /\
  (forall mp, rte_pktmbuf_data_room_size s' mp = rte_pktmbuf_data_room_size s mp) /\
  buf_addr (mbuf s' x) = buf_addr (mbuf s y) /\ buf_len (mbuf s' x) = buf_len (mbuf s y) /\
  data_off (mbuf s' x) = u16 (data_off (mbuf s y) + pos) /\ data_len (mbuf s' x) = u16 len /\ next (mbuf s' x) = None /\
  (forall z, z <> x -> mbuf s' z = set_refcnt (refcnt (mbuf s' z))
    ((if decide (z = op) then set_packet (u8 (nb_segs (mbuf s op) + 1)) (u16 (len + pkt_len (mbuf s op))) else id)
       (if decide (z = prev) then set_link (Some x) (mbuf s z) else mbuf s z))) /\
  (forall z, z <> x -> refcnt (mbuf s z) <= refcnt (mbuf s' z) <= refcnt (mbuf s z) + 1).
Proof.
  intros HI Hfr Hlp Hlo Hly N1 N2 N3 N4 N5 Hr Hm s'. unfold seg_state in s'.
  set (s1 := set_mbuf prev _ s) in s'. set (s2 := rte_pktmbuf_attach x y s1) in s'. set (s3 := set_mbuf x _ s2) in s'.
  assert (Hb1 : forall z, mbuf s1 z = if decide (z = prev) then set_link (Some x) (mbuf s z) else mbuf s z).
  { intros z. unfold s1. rewrite mbuf_set. case_decide; by subst. }
  assert (Hs1 : same_refs s s1).
  { constructor; [intros; by apply live_set|done|]. intros z. unfold indirect. rewrite Hb1. by case_decide. }
  assert (HI1 := minv_same _ _ _ _ Hs1 HI). destruct Hfr as [F1 F2 F3 F4 F5 F6 F7 F8].
  assert (Hh1 := same_refs_home _ _ y Hs1). destruct (sr_core _ _ Hs1 x) as (Ex1 & _ & _ & _ & _ & Ex2).
  destruct (sr_core _ _ Hs1 y) as (Ey & _). destruct (sr_core _ _ Hs1 (home s y)) as (Ehy & _).
  destruct (attach_ok s1 H ∅ x y) as (HI2 & Hf & Hsd & _ & _ & Eb & El & Eo & Ed & En & _ & Emd & Hout);
    [done|by apply Hs1|by rewrite Ex2|rewrite Ex1; lia|by rewrite (same_refs_attached _ _ x Hs1)|by apply Hs1|by intros ->|by rewrite Ey|by rewrite Hh1, Ehy|].
  fold s2 in HI2, Hf, Hsd, Eb, El, Eo, Ed, En, Emd, Hout.
  assert (Hl2 : forall z, live s2 z <-> live s z) by (intros z; rewrite (fr_live _ _ _ Hf); apply Hs1).
  assert (Hb' : forall z, mbuf s' z = (if decide (z = op) then set_packet (u8 (nb_segs (mbuf s2 op) + 1)) (u16 (len + pkt_len (mbuf s2 op))) else id)
    (if decide (z = x) then set_data (u16 (data_off (mbuf s2 y) + pos)) (u16 len) (pkt_len (mbuf s2 x)) (mbuf s2 x) else mbuf s2 z)).
  { intros z. unfold s', s3. rewrite !mbuf_set. repeat case_decide; by subst. }
  assert (Hss : same_refs s2 s').
  { assert (Hl3 : forall z, live s3 z <-> live s2 z) by (intros; apply live_set; by apply Hl2).
    constructor; [|done|].
    - intros z. rewrite <- Hl3. apply live_set, Hl3, Hl2, Hlo.
    - intros z. unfold indirect. rewrite Hb'. repeat case_decide; by subst. }
  assert (Ey1 : mbuf s1 y = mbuf s y) by (by rewrite Hb1, decide_False).
  assert (Ey2 : data_off (mbuf s2 y) = data_off (mbuf s y)) by (by rewrite (Hsd y), Ey1 by done).
  assert (Ex : mbuf s' x = set_data (u16 (data_off (mbuf s y) + pos)) (u16 len) (pkt_len (mbuf s2 x)) (mbuf s2 x)).
  { rewrite Hb', decide_False, decide_True by done. by rewrite <- Ey2. }
  assert (Eop : nb_segs (mbuf s2 op) = nb_segs (mbuf s op) /\ pkt_len (mbuf s2 op) = pkt_len (mbuf s op)).
  { rewrite (Hsd op) by done. rewrite Hb1. by case_decide. }
  destruct Eop as [Eo1 Eo2].
  split; [by eapply minv_same|]. split; [intros z; by rewrite (sr_dom _ _ Hss)|]. split; [apply Hf|]. split; [apply (fr_room _ _ _ Hf)|].
  rewrite Ex. cbn [buf_addr buf_len data_off data_len next set_data]. rewrite Eb, El, Ey1. do 4 (split; [done|]). split; [done|]. split.
  - intros z Hz. rewrite Hb', (decide_False (P := z = x)) by done. rewrite (Hsd z Hz), Hb1, Eo1, Eo2. repeat case_decide; by subst.
  - intros z Hz. destruct (sr_core _ _ Hss z) as (-> & _). destruct (sr_core _ _ Hs1 z) as (<- & _).
    destruct (decide (z = home s1 y)) as [->|Hzh]; [lia|]. rewrite Hout by done. lia.
Qed.

(** ** A fragment under construction *)

Section Building.
Context (hdr : Z) (Hhdr : 0 <= hdr).

(** The fragment [op] with the segments [d] and the payload [w]; its header is
    not yet written. *)
Record building H op d (w : list Z) s : Prop := {
  bd_inv : minv s (refs (op :: d) ⊎ H) ∅;
  bd_pkt : packet s op (op :: d);
  bd_apart : forall z, z ∈ op :: d -> z ∉ H;
  bd_bytes : exists h, Z.of_nat (length h) = hdr /\ bytes s (op :: d) = h ++ w;
  bd_own : owns s op;
  bd_op : l2_len (mbuf s op) = 0 /\ data_len (mbuf s op) = hdr }.

Lemma building_len H op d w s : building H op d w s -> pkt_len (mbuf s op) = hdr + Z.of_nat (length w).
Proof.
  intros [_ B2 _ (h & Hl & Hb) _ _]. rewrite (pk_len _ _ _ B2), <- length_bytes by apply B2. rewrite Hb, length_app. lia.
Qed.

(** Segments that are not changed can be shared as before. *)
Lemma sharable_same s s' n l :
  (forall y, y ∈ l -> live s' y /\ same_data s s' y) ->
  (forall y, y ∈ l -> refcnt (mbuf s y) <= refcnt (mbuf s' y)) ->
  (forall y, y ∈ l -> refcnt (mbuf s' (home s y)) <= refcnt (mbuf s (home s y)) + 1) ->
  sharable s (S n) l -> sharable s' n l.
Proof.
  intros Hd Hr Hh Hs y Hy. destruct (Hs y Hy) as (Hl & Hp & Hm), (Hd y Hy) as [Hl' Hsd].
  assert (Eh : home s' y = home s y) by (unfold home; by rewrite Hsd). rewrite Eh. pose proof (Hr y Hy). pose proof (Hh y Hy).
  split; [done|]. lia.
Qed.

(** The new mbuf [x] shows [len] bytes of [y] from [pos] on and is the last
    segment, behind [prev]. *)
Record seg_added H op d prev x y (pos len : Z) s s' : Prop := {
  sa_inv : minv s' ({[+ x +]} ⊎ (refs (op :: d) ⊎ H)) ∅;
  sa_new : (x ∉ op :: d) /\ (x ∉ H);
  sa_live : forall z, live s' z <-> live s z;
  sa_mem : mem s' = mem s;
  sa_room : forall mp, rte_pktmbuf_data_room_size s' mp = rte_pktmbuf_data_room_size s mp;
  sa_x : buf_addr (mbuf s' x) = buf_addr (mbuf s y) /\ data_off (mbuf s' x) = data_off (mbuf s y) + pos /\
    data_len (mbuf s' x) = len /\ next (mbuf s' x) = None;
  sa_ok : seg_ok s' x;
  sa_out : forall z, z <> x -> mbuf s' z = set_refcnt (refcnt (mbuf s' z))
    ((if decide (z = op) then set_packet (u8 (nb_segs (mbuf s op) + 1)) (u16 (len + pkt_len (mbuf s op))) else id)
       (if decide (z = prev) then set_link (Some x) (mbuf s z) else mbuf s z)) }.

Lemma building_prev op d : exists l0, op :: d = l0 ++ [default op (last d)].
Proof. destruct (last d) as [z|] eqn:Ez; [|apply last_None in Ez as ->; by exists []]. apply last_Some in Ez as [d0 ->]. by exists (op :: d0). Qed.

Lemma seg_state_added s H op d w y (pos len : Z) n src mp x s1 :
  building H op d w s -> rte_pktmbuf_alloc mp s = Some (x, s1) -> y ∈ src -> (forall z, z ∈ src -> z ∈ H) -> sharable s (S n) src ->
  seg_ok s y -> 0 <= pos -> 0 <= len -> pos + len <= data_len (mbuf s y) ->
  let s' := seg_state s1 op (default op (last d)) x y pos len in
  seg_added H op d (default op (last d)) x y pos len s s' /\ sharable s' n src.
Proof.
  intros [B1 B2 B3 _ _ _] Ea Hy Hsrc Hsh Hok Hp0 Hl0 Hle s'.
  destruct (alloc_ok _ _ _ _ _ _ B1 Ea) as (HI1 & Hf & Hfr & Hnx & Hrx & _).
  destruct (alloc_sharable _ _ _ _ _ _ _ _ B1 Ea Hsh) as [Hsh1 Hxsrc].
  assert (Hnx' : (x ∉ op :: d) /\ (x ∉ H)) by (split; intros Hx; apply Hnx, refs_elem; auto). pose proof Hnx' as [Hxd HxH].
  set (prev := default op (last d)) in *. destruct (building_prev op d) as [l0 El0]. fold prev in El0.
  assert (Hpin : prev ∈ op :: d) by (rewrite El0; set_solver). assert (Hoin : op ∈ op :: d) by left.
  assert (Hb1 : forall z, z <> x -> mbuf s1 z = mbuf s z) by (intros; by apply (fr_out _ _ _ Hf), not_elem_of_singleton).
  assert (Hlive : forall z, z ∈ op :: d -> live s1 z) by (intros z Hz; by apply (fr_live _ _ _ Hf), (pk_segs _ _ _ B2)).
  assert (Hya : y ∉ op :: d) by (intros Hyd; apply (B3 y Hyd); auto).
  assert (Hsx : forall z, z ∈ src -> z <> x) by (intros z Hzs ->; by apply HxH, Hsrc).
  assert (Hyx : y <> x) by auto. assert (Hox : op <> x) by (intros ->; done). assert (Hpx : prev <> x) by (intros ->; done).
  destruct (Hsh1 y Hy) as (Hly1 & Hry1 & Hmy1).
  destruct (seg_state_fields s1 _ op prev x y pos len HI1 Hfr) as (HI' & Hl' & Hm' & Hroom' & Eb & Ebl & Eo & Ed & En & Hz & Hr'); try done; try lia; try auto.
  { by intros ->. } { by intros ->. }
  fold s' in HI', Hl', Hm', Hroom', Eb, Ebl, Eo, Ed, En, Hz, Hr'.
  rewrite (Hb1 y Hyx) in Eb, Ebl, Eo. rewrite (Hb1 op Hox) in Hz. destruct Hok as [K1 K2 K3 K4 K5].
  rewrite (u16_small (data_off (mbuf s y) + pos)) in Eo by lia. rewrite (u16_small len) in Ed by lia.
  split.
  - constructor; try done.
    + intros z. rewrite Hl'. apply Hf.
    + rewrite Hm'. apply Hf.
    + intros mp'. rewrite Hroom'. apply Hf.
    + constructor; rewrite ?Eo, ?Ed, ?Ebl; try lia; apply Hl', Hfr.
    + intros z Hzx. rewrite Hz at 1 by done. by rewrite Hb1.
  - apply (sharable_same s1 s' n src); [|intros z Hzs; apply Hr'; auto|intros z Hzs; apply Hr'|done].
    + intros z Hzs. split; [apply Hl'; by apply Hsh1|]. unfold same_data. rewrite Hz at 1 by auto.
      assert (Hzd : z ∉ op :: d) by (intros Hzd; by apply (B3 z Hzd), Hsrc).
      rewrite (decide_False (P := z = op)), (decide_False (P := z = prev)); [done|by intros ->|by intros ->].
    + destruct (Hsh1 z Hzs) as (Hlz & Hrz & _). intros E.
      destruct (mi_home _ _ _ HI1 z Hlz) as [_ _ _ _ Hself]. destruct Hfr as [_ _ Fa _ _ _ _ _].
      destruct (indirect s1 z) eqn:Ei; [by apply (attached_none s1 x z)|]. rewrite (Hself eq_refl) in E. by apply (Hsx z).
Qed.

Lemma seg_round s H op d w y (pos len : Z) n src mp x s1 :
  building H op d w s -> rte_pktmbuf_alloc mp s = Some (x, s1) -> y ∈ src -> (forall z, z ∈ src -> z ∈ H) -> sharable s (S n) src ->
  seg_ok s y -> 0 <= pos -> 0 <= len -> pos + len <= data_len (mbuf s y) -> pkt_len (mbuf s op) + len < 2 ^ 16 ->
  (length (op :: d) < 255)%nat ->
  let s' := seg_state s1 op (default op (last d)) x y pos len in
  building H op (d ++ [x]) (w ++ take (Z.to_nat len) (drop (Z.to_nat pos) (seg_bytes s y))) s' /\
  keeps H src (op :: d ++ [x]) s s' /\ mem s' = mem s /\ sharable s' n src.
Proof.
  intros B Ea Hy Hsrc Hsh Hok Hp0 Hl0 Hle Hmax Hlen s'.
  destruct (seg_state_added _ _ _ _ _ _ _ _ _ _ _ _ _ B Ea Hy Hsrc Hsh Hok Hp0 Hl0 Hle) as [[HI' [Hxd HxH] Hlv Hmem Hroom (Eb & Eo & Ed & En) Hxo Hz] Hsh'].
  fold s' in HI', Hlv, Hmem, Hroom, Eb, Eo, Ed, En, Hxo, Hz, Hsh'. destruct B as [B1 B2 B3 (h & Bh & B4) B5 [B6 B7]].
  set (prev := default op (last d)) in *. destruct (building_prev op d) as [l0 El0]. fold prev in El0.
  assert (Hpin : prev ∈ op :: d) by (rewrite El0; set_solver). assert (Hoin : op ∈ op :: d) by left.
  assert (Hdx : forall z, z ∈ op :: d -> z <> x) by (by intros z Hzd ->).
  assert (Hpl : 0 <= pkt_len (mbuf s op)) by (rewrite (pk_len _ _ _ B2); apply total_len_nonneg, B2).
  assert (Hbuf : forall z, z <> x -> buf_addr (mbuf s' z) = buf_addr (mbuf s z)) by (intros z Hzx; rewrite (Hz z Hzx); by repeat case_decide).
  assert (Hsd : forall z, z ∉ op :: d ++ [x] -> same_data s s' z).
  { intros z Hzn. rewrite app_comm_cons, elem_of_app, list_elem_of_singleton in Hzn. unfold same_data. rewrite Hz at 1 by tauto.
    rewrite !decide_False; [done|intros ->; tauto..]. }
  assert (Hnb : nb_segs (mbuf s op) = Z.of_nat (length (op :: d))) by apply (pk_nb _ _ _ B2).
  destruct (packet_add_seg s s' op l0 prev x) as [Hpk Hby]; try done.
  { by rewrite <- El0. } { by rewrite <- El0. }
  { intros z Hzd. rewrite <- El0 in Hzd. split; [|by apply Hlv, (pk_segs _ _ _ B2)]. rewrite (Hz z) by auto. by repeat case_decide. }
  { intros z Hzd. assert (Hzin : z ∈ op :: d) by (rewrite El0; set_solver). rewrite (Hz z) by auto. rewrite (decide_False (P := z = prev)); [by case_decide|]. intros ->.
    pose proof (pk_nodup _ _ _ B2) as Hnd. rewrite El0 in Hnd. apply NoDup_app in Hnd as (_ & Hd & _). apply (Hd prev Hzd). set_solver. }
  { rewrite (Hz prev) by auto. rewrite (decide_True (P := prev = prev)) by done. by case_decide. }
  { rewrite (Hz op), decide_True, Ed by auto. cbn. rewrite u16_small by lia. lia. }
  { rewrite (Hz op), decide_True by auto. cbn. unfold u8. rewrite wrap_small by (cbn in Hlen, Hnb; lia). done. }
  { lia. } { by rewrite <- El0. }
  rewrite <- El0, <- app_comm_cons in Hpk, Hby. split; [|split; [|done]].
  - constructor; [|done| |exists h; split; [done|]| |].
    + rewrite app_comm_cons, refs_snoc, <- (assoc_L (⊎)). done.
    + rewrite app_comm_cons. intros z [Hzd| ->%list_elem_of_singleton]%elem_of_app; [by apply B3|done].
    + rewrite Hby, B4, <- app_assoc. do 2 f_equal. by apply seg_piece.
    + intros z Hzl Hzo. rewrite (Hbuf op) by auto. apply Hlv in Hzl. destruct (decide (z = x)) as [->|Hzx]; [|rewrite Hbuf by done; by apply B5].
      rewrite Eb. apply B5; [apply Hok|]. intros ->. apply (B3 op Hoin). auto.
    + rewrite (Hz op), decide_True by auto. by case_decide.
  - constructor; [done|done| |done]. intros o HoH Hos Ho z Hzl Hzo. assert (Hox : o <> x) by (by intros ->). rewrite (Hbuf o Hox). apply Hlv in Hzl.
    destruct (decide (z = x)) as [->|Hzx]; [|rewrite Hbuf by done; by apply Ho]. rewrite Eb. apply Ho; [apply Hok|]. by intros ->.
Qed.

(** ** The loop *)

(** A position in the packet: the segment [y], those behind it, and the offset
    in [y]. *)
Record cursor s (src : list Z) y l (pos : Z) : Prop := {
  cu_chain : seglist s (Some y) (y :: l);
  cu_nodup : NoDup (y :: l);
  cu_segs : forall z, z ∈ y :: l -> seg_ok s z /\ z ∈ src;
  cu_more : forall z, z ∈ l -> 0 < data_len (mbuf s z);
  cu_pos : 0 <= pos <= data_len (mbuf s y) }.

(** The bytes from there on. *)
Definition rest s y l (pos : Z) : list Z := drop (Z.to_nat pos) (bytes s (y :: l)).

Lemma cursor_ext s s' src y l pos :
  (forall z, z ∈ src -> same_data s s' z /\ seg_bytes s' z = seg_bytes s z) -> (forall z, live s' z <-> live s z) ->
  cursor s src y l pos -> cursor s' src y l pos /\ rest s' y l pos = rest s y l pos.
Proof.
  intros K1 K2 [C1 Cn C2 C3 C4]. assert (Hsd : forall z, z ∈ y :: l -> same_data s s' z) by (intros z Hz; by apply K1, C2).
  split.
  - constructor; [|done|..].
    + apply (seglist_ext s); [|done]. intros z Hz. by rewrite (Hsd z Hz).
    + intros z Hz. destruct (C2 z Hz) as [Hok Hs]. split; [|done]. apply (view_seg_ok s s' z z); [by apply same_data_view, Hsd|by apply K2, Hok|done].
    + intros z Hz. rewrite (Hsd z) by (by right). by apply C3.
    + rewrite (Hsd y) by left. done.
  - unfold rest. f_equal. apply bytes_ext. intros z Hz. apply K1, C2, Hz.
Qed.

Lemma cursor_keeps H D s s' src y l pos :
  keeps H src D s s' -> mem s' = mem s -> (forall z, z ∈ src -> z ∉ D) -> cursor s src y l pos ->
  cursor s' src y l pos /\ rest s' y l pos = rest s y l pos.
Proof.
  intros K Hm Hd. apply cursor_ext; [|apply K]. intros z Hz. assert (Hs : same_data s s' z) by (by apply (kp_data _ _ _ _ _ K), Hd).
  split; [done|]. apply seg_bytes_ext; [done|..]; by rewrite (Hs : mbuf s' z = _).
Qed.

Lemma rest_cons s src y l pos :
  cursor s src y l pos -> rest s y l pos = drop (Z.to_nat pos) (seg_bytes s y) ++ bytes s l /\
    Z.of_nat (length (drop (Z.to_nat pos) (seg_bytes s y))) = data_len (mbuf s y) - pos.
Proof.
  intros [_ _ C2 _ C4]. assert (Hl : Z.of_nat (length (seg_bytes s y)) = data_len (mbuf s y)) by (unfold seg_bytes; rewrite length_read_bytes; lia).
  split; [|rewrite length_drop; lia]. unfold rest. change (bytes s (y :: l)) with (seg_bytes s y ++ bytes s l).
  rewrite drop_app_le by lia. done.
Qed.

Lemma attach_same_data s x y z : z <> x -> same_data s (rte_pktmbuf_attach x y s) z.
Proof.
  intros Hz. unfold rte_pktmbuf_attach, rte_mbuf_refcnt_update, rte_mbuf_refcnt_read, rte_mbuf_refcnt_set. set (md := if RTE_MBUF_INDIRECT _ then _ else _).
  destruct (_ =? 1); unfold same_data; rewrite !mbuf_set, !(decide_False (P := z = x)) by done; case_decide; subst; try done; by destruct (mbuf s z).
Qed.

(** One round of the code. *)
Lemma seg_loop_round fuel mp mtu op prev y pos s x s1 :
  rte_pktmbuf_alloc mp s = Some (x, s1) -> x <> op -> x <> y -> y <> prev -> y <> op -> 
  (forall z, z <> x -> mbuf s1 z = mbuf s z) ->
  let room := u32 (mtu - pkt_len (mbuf s op)) in
  let avail := u32 (data_len (mbuf s y) - pos) in
  let len := if room >? avail then avail else room in
  let s' := seg_state s1 op prev x y pos len in
  seg_loop (S fuel) mp mtu op prev y pos s =
    let '(in_seg, pos') := if u32 (pos + len) =? data_len (mbuf s' y) then (next (mbuf s' y), 0) else (Some y, u32 (pos + len)) in
    match in_seg with
    | Some y' => if negb (pkt_len (mbuf s' op) >=? mtu) then seg_loop fuel mp mtu op x y' pos' s' else Some (inr (Some y', pos', s'))
    | None => Some (inr (None, pos', s'))
    end.
Proof.
  intros Ea N1 N2 N3 N4 Hb room avail len s'. cbn [seg_loop]. rewrite Ea. set (s2 := set_mbuf prev _ s1). set (s3 := rte_pktmbuf_attach x y s2).
  assert (E1 : pkt_len (mbuf s3 op) = pkt_len (mbuf s op)).
  { unfold s3. rewrite (attach_same_data s2 x y op) by done. unfold s2. cbn. rewrite mbuf_set. case_decide; [subst; cbn|]; by rewrite Hb. }
  assert (E2 : data_len (mbuf s3 y) = data_len (mbuf s y)).
  { unfold s3. rewrite (attach_same_data s2 x y y) by done. unfold s2. cbn. rewrite mbuf_set, decide_False by done. by rewrite Hb. }
  rewrite E1, E2. reflexivity.
Qed.

(** The same, with the values the code computes. *)
Lemma seg_step H op src mp mtu fuel l y pos d w s n x s1 :
  building H op d w s -> rte_pktmbuf_alloc mp s = Some (x, s1) -> (forall z, z ∈ src -> z ∈ H) -> 0 <= mtu < 2 ^ 16 ->
  cursor s src y l pos -> sharable s (S n) src -> pkt_len (mbuf s op) < mtu -> (length (op :: d) < 255)%nat ->
  let len := Z.min (mtu - pkt_len (mbuf s op)) (data_len (mbuf s y) - pos) in
  exists s', building H op (d ++ [x]) (w ++ take (Z.to_nat len) (drop (Z.to_nat pos) (seg_bytes s y))) s' /\
  keeps H src (op :: d ++ [x]) s s' /\ mem s' = mem s /\ sharable s' n src /\
  pkt_len (mbuf s' op) = pkt_len (mbuf s op) + len /\ took s s' (of_pool mp 1) /\
  seg_loop (S fuel) mp mtu op (default op (last d)) y pos s = (
     if Z.eqb (pos + len) (data_len (mbuf s y)) then
       match l with
       | [] => Some (inr (None, 0, s'))
       | y2 :: _ => if pkt_len (mbuf s op) + len >=? mtu then Some (inr (Some y2, 0, s')) else seg_loop fuel mp mtu op x y2 0 s'
       end
     else Some (inr (Some y, pos + len, s')) ).
Proof.
  intros B Ea Hsrc Hmtu C Hsh Hroom Hlen len. destruct C as [C1 _ C2 C3 C4]. destruct (C2 y) as [Hok Hy]; [left|].
  pose proof (building_len _ _ _ _ _ B) as Hbl. pose proof Hok as [_ K1 K2 K3 K4].
  assert (Hl : 0 <= len /\ pos + len <= data_len (mbuf s y) /\ pkt_len (mbuf s op) + len <= mtu) by lia. destruct Hl as (L1 & L2 & L3).
  exists (seg_state s1 op (default op (last d)) x y pos len).
  destruct (seg_round s H op d w y pos len n src mp x s1) as (B' & Hk & Hm & Hs'); try done; try lia. set (s' := seg_state _ _ _ _ _ _ _) in *.
  destruct (alloc_ok _ _ _ _ _ _ (bd_inv _ _ _ _ _ B) Ea) as (_ & Hf & _ & Hnx & _ & _).
  assert (Hyd : y ∉ op :: d) by (intros Hyd; apply (bd_apart _ _ _ _ _ B y Hyd); auto).
  assert (Hxy : x <> y) by (intros ->; apply Hnx, refs_elem; auto). assert (Hxd : x ∉ op :: d) by (intros Hx; apply Hnx, refs_elem; auto).
  assert (Hpin : default op (last d) ∈ op :: d).
  { destruct (last d) as [z|] eqn:Ez; [|left]. right. by apply last_Some_elem_of. }
  assert (Esd : same_data s s' y).
  { apply (kp_data _ _ _ _ _ Hk). rewrite app_comm_cons, elem_of_app, list_elem_of_singleton. intros [?| ->]; [|done]. auto. }
  assert (Epl : pkt_len (mbuf s' op) = pkt_len (mbuf s op) + len).
  { rewrite (building_len _ _ _ _ _ B'), Hbl, length_app, length_take, length_drop. unfold seg_bytes. rewrite length_read_bytes. lia. }
  do 4 (split; [done|]). split; [done|]. split.
  { eapply took_same; [by eapply alloc_took|]. unfold s', seg_state. cbn [pools set_mbuf]. by rewrite attach_pools. }
  rewrite (seg_loop_round fuel mp mtu op (default op (last d)) y pos s x s1); try done; [|by intros ->; apply Hxd; left|by intros ->|by intros ->; apply Hyd; left|intros; by apply (fr_out _ _ _ Hf), not_elem_of_singleton].
  unfold u32. rewrite (wrap_small 32 (mtu - pkt_len (mbuf s op))), (wrap_small 32 (data_len (mbuf s y) - pos)) by lia.
  replace (if _ >? _ then _ else _) with len by (rewrite Z.gtb_ltb; destruct (Z.ltb_spec (data_len (mbuf s y) - pos) (mtu - pkt_len (mbuf s op))); lia).
  fold s'. rewrite (wrap_small 32 (pos + len)) by lia. rewrite (Esd : mbuf s' y = _). cbn [data_len next set_refcnt]. rewrite Epl.
  destruct (Z.eqb_spec (pos + len) (data_len (mbuf s y))) as [E|E].
  - destruct l as [|y2 l]; cbn in C1.
    + by rewrite (proj2 C1).
    + rewrite (proj1 (proj2 C1)). by destruct (_ >=? _).
  - replace (_ >=? mtu) with true by (symmetry; apply Z.geb_le; lia). done.
Qed.

Lemma cursor_next s src y y2 l pos : cursor s src y (y2 :: l) pos -> cursor s src y2 l 0.
Proof.
  intros [C1 Cn C2 C3 C4]. destruct C1 as [_ C1]. constructor; [split; [done|apply C1]|by apply NoDup_cons in Cn as [_ Cn]|..].
  - intros z Hz. apply C2. by right.
  - intros z Hz. apply C3. by right.
  - destruct (C2 y2) as [[_ _ ? _ _] _]; [by right; left|]. lia.
Qed.

(** What the loop gives from a position with the bytes [R] to go: the fragment
    with a further payload, and the next position. *)
Definition seg_result H op src mp d w s (n : nat) (R : list Z) (room len : nat) (res : mstate P + option Z * Z * mstate P) : Prop :=
  match res with
  | inl s' => exists d' w', building H op (d ++ d') w' s' /\ keeps H src (op :: d ++ d') s s' /\ mem s' = mem s /\ rte_pktmbuf_alloc mp s' = None /\
      took s s' (of_pool mp (length d')) /\ (length d' <= len)%nat
  | inr (nx, pos', s') => exists d', building H op (d ++ d') (w ++ take room R) s' /\ keeps H src (op :: d ++ d') s s' /\ mem s' = mem s /\
      took s s' (of_pool mp (length d')) /\
      match nx with
      | None => (length R <= room)%nat /\ (length d' <= S len)%nat
      | Some y' => exists l', cursor s' src y' l' pos' /\ pos' < data_len (mbuf s' y') /\ drop room R = rest s' y' l' pos' /\
          sharable s' (n + length l') src /\ (length l' <= len)%nat /\ (length d' + length l' <= S len)%nat
      end
  end.

(** A round that uses up a segment, followed by others. *)
Lemma seg_result_more H op src mp d w s n A R room len x s1 res :
  (length A <= room)%nat -> keeps H src (op :: d ++ [x]) s s1 -> mem s1 = mem s -> took s s1 (of_pool mp 1) ->
  seg_result H op src mp (d ++ [x]) (w ++ A) s1 n R (room - length A) len res -> seg_result H op src mp d w s n (A ++ R) room (S len) res.
Proof.
  intros HA Hk Hm Ht. destruct res as [s'|[[nx pos'] s']]; cbn [seg_result].
  - intros (d' & w' & B & K & M & F & T & Hd). rewrite <- (app_assoc d) in *. exists (x :: d'), w'. split; [done|].
    split; [eapply keeps_trans; [exact Hk|exact K|set_solver|done]|]. split; [congruence|]. split; [done|]. split; [|cbn; lia].
    eapply took_trans; [exact Ht|exact T|]. intros mp'. apply (of_pool_add mp 1).
  - intros (d' & B & K & M & T & Hn). rewrite <- (app_assoc d), <- (app_assoc w) in *. exists (x :: d').
    rewrite take_app_ge by done. split; [done|]. split; [eapply keeps_trans; [exact Hk|exact K|set_solver|done]|]. split; [congruence|].
    split; [eapply took_trans; [exact Ht|exact T|]; intros mp'; apply (of_pool_add mp 1)|].
    destruct nx as [y'|]; [|rewrite length_app; cbn; lia]. destruct Hn as (l' & Hc & Hp & Hd & Hs & Hl & Hl2). exists l'.
    rewrite drop_app_ge by done. split_and!; try done; cbn; lia.
Qed.

(** The loop ends, with the fragment full or the packet used up. *)
Lemma seg_loop_ok H op src mp mtu : (forall z, z ∈ src -> z ∈ H) -> 0 <= mtu < 2 ^ 16 -> forall l fuel y pos d w s n,
  building H op d w s -> cursor s src y l pos -> sharable s (n + S (length l)) src -> pkt_len (mbuf s op) < mtu ->
  (length l < fuel)%nat -> (length d + length l < 253)%nat ->
  exists res, seg_loop fuel mp mtu op (default op (last d)) y pos s = Some res /\
    seg_result H op src mp d w s n (rest s y l pos) (Z.to_nat (mtu - pkt_len (mbuf s op))) (length l) res.
Proof.
  intros Hsrc Hmtu l. induction l as [l IH] using (well_founded_induction (well_founded_ltof _ (@length Z))).
  intros fuel y pos d w s n B C Hsh Hroom Hfuel Hlen. destruct fuel as [|fuel]; [lia|].
  destruct (rte_pktmbuf_alloc mp s) as [[x s1]|] eqn:Ea.
  2: { exists (inl s). cbn [seg_loop seg_result]. rewrite Ea. split; [done|]. exists [], w. rewrite app_nil_r. split; [done|]. split; [apply keeps_refl|]. split; [done|]. split; [done|].
    split; [|cbn; lia]. intros mp' k. unfold of_pool. by case_decide. }
  destruct (seg_step H op src mp mtu fuel l y pos d w s (n + length l) x s1 B Ea Hsrc Hmtu C) as (s' & B' & Hk & Hm & Hs' & Epl & Ht & ->);
    [by rewrite Nat.add_succ_r in Hsh|done|cbn in *; lia|].
  set (len := Z.min _ _) in *. destruct (rest_cons _ _ _ _ _ C) as [ER HA]. rewrite ER. set (A := drop _ (seg_bytes s y)) in *.
  assert (Hnd : forall z, z ∈ src -> z ∉ op :: d ++ [x]).
  { intros z Hz Hd. apply (bd_apart _ _ _ _ _ B' z Hd). auto. }
  destruct (cursor_keeps _ _ _ _ _ _ _ _ Hk Hm Hnd C) as [C' ER']. pose proof (cu_pos _ _ _ _ _ C) as Hpos.
  destruct (Z.eqb_spec (pos + len) (data_len (mbuf s y))) as [E|E].
  - rewrite take_ge in B' by lia. destruct l as [|y2 l].
    + eexists; split; [done|]. exists [x]. cbn [bytes]. rewrite app_nil_r, take_ge by lia. split_and!; try done; lia.
    + assert (C2 := cursor_next _ _ _ _ _ _ C').
      assert (E2 : rest s' y2 l 0 = bytes s (y2 :: l)).
      { unfold rest. rewrite drop_0. apply bytes_ext. intros z Hz. assert (Hs : same_data s s' z) by (apply (kp_data _ _ _ _ _ Hk), Hnd, (cu_segs _ _ _ _ _ C); by right).
        apply seg_bytes_ext; [done|..]; by rewrite (Hs : mbuf s' z = _). }
      rewrite Z.geb_leb. destruct (Z.leb_spec mtu (pkt_len (mbuf s op) + len)) as [Hf|Hf].
      * eexists; split; [done|]. exists [x]. rewrite take_app_length' by lia. split_and!; try done. exists l.
        rewrite drop_app_length' by lia. split_and!; try done; [|by refine (sharable_mono _ _ _ _ _ _ _ Hs'); [cbn; lia|]|cbn; lia|cbn; lia].
        apply (cu_more _ _ _ _ _ C'). left.
      * destruct (IH l ltac:(unfold ltof; cbn; lia) fuel y2 0 (d ++ [x]) (w ++ A) s' n B' C2) as (res & Hr & Hres); [done|lia|cbn in *; lia|rewrite length_app; cbn in *; lia|].
        rewrite last_snoc in Hr. exists res. split; [done|]. apply (seg_result_more _ _ _ _ _ _ _ _ _ _ _ _ x s'); [lia|done|done|done|].
        rewrite <- E2. replace (_ - length A)%nat with (Z.to_nat (mtu - pkt_len (mbuf s' op))) by lia. done.
  - eexists; split; [done|]. exists [x]. rewrite take_app_le by lia. replace (Z.to_nat (mtu - pkt_len (mbuf s op))) with (Z.to_nat len) by lia. split_and!; try done.
    assert (Ed : data_len (mbuf s' y) = data_len (mbuf s y)).
    { assert (Hs : same_data s s' y) by (apply (kp_data _ _ _ _ _ Hk), Hnd, (cu_segs _ _ _ _ _ C); left). by rewrite (Hs : mbuf s' y = _). }
    exists l. split; [destruct C' as [? ? ? ? ?]; constructor; try done; lia|]. split; [lia|]. split; [|split; [done|cbn; lia]].
    rewrite <- ER, <- ER'. unfold rest. rewrite drop_drop. f_equal. lia.
Qed.

End Building.

End Seg.
