(* ===== verification/IpFragmentLoop.v ===== *)
(** * IP fragmentation: the fragments of a packet

    What [__fill_ipv4hdr_frag] and [__fill_ipv6hdr_frag] write, as byte strings,
    and what they leave alone.  The outer loop builds the fragments one after
    the other; when an allocation fails it gives back all that was taken. *)
From stdpp Require Import gmultiset.
From S2P Require Import Prelude Bits Mbuf MbufPacket MbufRef MbufClone IpFrag IpFragHeader IpFragment IpFragmentSeg.

(** ** The headers as byte strings *)

(** The flags and offset of an IPv4 fragment at the offset [ofs] of a packet
    with the word [word]; [more] is 1 if others follow. *)
Definition frag_word (word ofs more : Z) : Z := u16 (Z.lor (u16 (word + ofs / 8)) (more * 2 ^ 13)).

Definition ipv4_frag_hdr (h : list Z) (word len ofs more : Z) : list Z :=
  put16 (put16 (put16 h 6 (frag_word word ofs more)) 2 len) 10 0.

(** The IPv6 header with the fragment extension header behind it. *)
Definition ipv6_frag_hdr (h : list Z) (len ofs more : Z) : list Z :=
  let fd := u16 (Z.lor (8 * (ofs / 8)) more) in
  put8 (put16 h 4 (len - 40)) 6 IPPROTO_FRAGMENT ++ [h !!! 6%nat; 0; u8 (Z.shiftr fd 8); u8 fd; 0; 0; 0; 0].

(** A string of bytes. *)
Definition is_bytes (l : list Z) : Prop := Forall (fun b => 0 <= b < 256) l.

Lemma map_u8_bytes l : is_bytes l -> map u8 l = l.
Proof. induction 1 as [|b l Hb Hl IH]; [done|]. cbn. rewrite IH. unfold u8. by rewrite wrap_small. Qed.

Section Fill.
Context {P : Type} `{MP : !MbufPool P} `{ML : !MbufPoolLaws P}.
Implicit Types (s : mstate P) (x y z op : Z) (d l : list Z) (H : gmultiset Z).

Abbreviation live s x := (is_Some (mbufs s !! x)).

(** ** Writing into the buffer of one mbuf *)

Record writes op s s' : Prop := {
  wt_mbufs : mbufs s' = mbufs s;
  wt_pools : pools s' = pools s;
  wt_mem : forall b o, b <> buf_addr (mbuf s op) -> mem s' !!! (b, o) = mem s !!! (b, o) }.

Lemma writes_refl op s : writes op s s.
Proof. by constructor. Qed.

Lemma writes_mbuf op s s' z : writes op s s' -> mbuf s' z = mbuf s z.
Proof. intros [E _ _]. unfold mbuf. by rewrite E. Qed.

Lemma writes_trans op s1 s2 s3 : writes op s1 s2 -> writes op s2 s3 -> writes op s1 s3.
Proof.
  intros W1 W2. constructor; [by rewrite (wt_mbufs _ _ _ W2), (wt_mbufs _ _ _ W1)|by rewrite (wt_pools _ _ _ W2), (wt_pools _ _ _ W1)|].
  intros b o Hb. rewrite (wt_mem _ _ _ W2), (wt_mem _ _ _ W1); [done|done|]. by rewrite (writes_mbuf _ _ _ _ W1).
Qed.

Lemma writes_wr8 op s i v : writes op s (wr8 (rte_pktmbuf_mtod s op) i v s).
Proof. constructor; [done|done|]. intros b o Hb. cbn. rewrite lookup_total_insert_ne; [done|]. by intros [= E]. Qed.

Lemma writes_seg op s s' z : owns s op -> live s z -> z <> op -> writes op s s' -> seg_bytes s' z = seg_bytes s z.
Proof.
  intros Ho Hz Hne W. unfold seg_bytes. rewrite (writes_mbuf _ _ _ _ W). unfold read_bytes. apply map_ext. intros i.
  by rewrite (wt_mem _ _ _ W) by auto.
Qed.

Lemma writes_bytes op s s' l : owns s op -> (forall z, z ∈ l -> live s z /\ z <> op) -> writes op s s' -> bytes s' l = bytes s l.
Proof. intros Ho Hl W. apply bytes_ext. intros z Hz. destruct (Hl z Hz). by eapply writes_seg. Qed.

(** *** Sequences of writes *)

(** [s'] is [s] with the bytes [b] in the segment [op]. *)
Definition written op s s' (b : list Z) : Prop := writes op s s' /\ seg_bytes s' op = b.

Lemma written_len op s s' b : written op s s' b -> length b = Z.to_nat (data_len (mbuf s op)).
Proof. intros [W <-]. unfold seg_bytes. by rewrite length_read_bytes, (writes_mbuf _ _ _ _ W). Qed.

Lemma written_wr8 op s s' b i v :
  written op s s' b -> 0 <= i < data_len (mbuf s op) -> written op s (wr8 (rte_pktmbuf_mtod s op) i v s') (put8 b i v).
Proof.
  intros [W <-] Hi. assert (E : rte_pktmbuf_mtod s op = rte_pktmbuf_mtod s' op) by (unfold rte_pktmbuf_mtod; by rewrite (writes_mbuf _ _ _ _ W)).
  rewrite E. split; [eapply writes_trans; [done|apply writes_wr8]|]. apply seg_bytes_wr8. by rewrite (writes_mbuf _ _ _ _ W).
Qed.

Lemma written_wr16 op s s' b i v :
  written op s s' b -> 0 <= i -> i + 1 < data_len (mbuf s op) -> written op s (wr16be (rte_pktmbuf_mtod s op) i v s') (put16 b i v).
Proof. intros W Hi Hi'. unfold wr16be, put16. apply written_wr8; [apply written_wr8; [done|]|]; lia. Qed.

Lemma wr16_advance a (k i v : Z) s : wr16be (advance a k) i v s = wr16be a (k + i) v s.
Proof. unfold wr16be. by rewrite !wr8_advance, Z.add_assoc. Qed.

Lemma written_bytes op s vs : forall s' b i,
  written op s s' b -> 0 <= i -> i + Z.of_nat (length vs) <= data_len (mbuf s op) ->
  written op s (wr_bytes (rte_pktmbuf_mtod s op) i vs s') (list_inserts (Z.to_nat i) (map u8 vs) b).
Proof.
  induction vs as [|v vs IH]; intros s' b i W Hi Hl; [done|]. cbn [wr_bytes map list_inserts length] in *.
  rewrite list_insert_inserts_lt by lia. replace (S (Z.to_nat i)) with (Z.to_nat (i + 1)) by lia.
  apply IH; [|lia|lia]. apply written_wr8; [done|lia].
Qed.

(** The bytes of [src] into the buffer of [op]. *)
Lemma written_memcpy op src s (n : nat) :
  Z.of_nat n <= data_len (mbuf s op) -> Z.of_nat n <= data_len (mbuf s src) -> is_bytes (take n (seg_bytes s src)) ->
  written op s (rte_memcpy (rte_pktmbuf_mtod s op) (rte_pktmbuf_mtod s src) n s) (take n (seg_bytes s src) ++ drop n (seg_bytes s op)).
Proof.
  intros Ho Hs Hb. unfold rte_memcpy.
  assert (E : rd_bytes s (rte_pktmbuf_mtod s src) n = take n (seg_bytes s src)).
  { unfold seg_bytes. replace n with (Z.to_nat (Z.of_nat n)) at 2 by lia. rewrite <- seg_read_take by lia. by rewrite Nat2Z.id. }
  assert (Hl : length (take n (seg_bytes s src)) = n) by (rewrite length_take; unfold seg_bytes; rewrite length_read_bytes; lia).
  assert (Hlo : length (take n (seg_bytes s op)) = n) by (rewrite length_take; unfold seg_bytes; rewrite length_read_bytes; lia).
  rewrite E. pose proof (written_bytes op s (take n (seg_bytes s src)) s (seg_bytes s op) 0) as W.
  rewrite map_u8_bytes in W by done. rewrite <- (take_drop n (seg_bytes s op)) in W at 2. rewrite list_inserts_0_r in W by congruence.
  apply W; [split; [apply writes_refl|done]|lia|lia].
Qed.

(** ** The two headers *)

Lemma ipv4_fill_written op src s (flag ofs more : Z) :
  data_len (mbuf s op) = 20 -> 20 <= data_len (mbuf s src) -> is_bytes (take 20 (seg_bytes s src)) -> 0 <= more <= 1 ->
  exists s1, written op s s1 (ipv4_frag_hdr (take 20 (seg_bytes s src)) flag (u16 (pkt_len (mbuf s op))) ofs more) /\
    ipv4_fill (rte_pktmbuf_mtod s src) flag op ofs more s =
      set_mbuf op (set_tx (Z.lor (ol_flags (mbuf s op)) PKT_TX_IP_CKSUM) (l2_len (mbuf s op)) 20 (mbuf s op)) s1.
Proof.
  intros Ho Hs Hb Hm. unfold ipv4_fill.
  assert (W := written_memcpy op src s 20 ltac:(lia) ltac:(lia) Hb). rewrite (drop_ge (seg_bytes s op)), app_nil_r in W
    by (unfold seg_bytes; rewrite length_read_bytes; lia).
  assert (Ew : u16 (Z.lor (u16 (flag + Z.shiftr ofs IPV4_HDR_FO_SHIFT)) (u32 (Z.shiftl more IPV4_HDR_MF_SHIFT))) = frag_word flag ofs more).
  { unfold frag_word, IPV4_HDR_FO_SHIFT, IPV4_HDR_MF_SHIFT. rewrite Z.shiftr_div_pow2, Z.shiftl_mul_pow2 by lia. unfold u32.
    rewrite (wrap_small 32) by lia. done. }
  assert (W' : written op s (__fill_ipv4hdr_frag (rte_pktmbuf_mtod s op) (rte_pktmbuf_mtod s src) (u16 (pkt_len (mbuf s op))) flag ofs more s)
    (ipv4_frag_hdr (take 20 (seg_bytes s src)) flag (u16 (pkt_len (mbuf s op))) ofs more)).
  { unfold __fill_ipv4hdr_frag. rewrite Ew. do 3 (apply written_wr16; [|lia|lia]). exact W. }
  eexists. split; [exact W'|]. by rewrite (writes_mbuf _ _ _ op (proj1 W')).
Qed.

Lemma put8_app_l h t i v : 0 <= i < Z.of_nat (length h) -> put8 (h ++ t) i v = put8 h i v ++ t.
Proof. intros Hi. unfold put8. apply insert_app_l. lia. Qed.

Lemma put8_app_r h t i v : Z.of_nat (length h) <= i -> put8 (h ++ t) i v = h ++ put8 t (i - Z.of_nat (length h)) v.
Proof. intros Hi. unfold put8. rewrite insert_app_r_alt by lia. do 2 f_equal. lia. Qed.

Lemma ipv6_fill_written op src s (ofs more : Z) :
  data_len (mbuf s op) = 48 -> 40 <= data_len (mbuf s src) -> is_bytes (take 40 (seg_bytes s src)) -> 0 <= more <= 1 ->
  0 <= ofs < 2 ^ 16 -> 40 <= pkt_len (mbuf s op) < 2 ^ 16 -> owns s op -> live s src -> src <> op ->
  written op s (ipv6_fill (rte_pktmbuf_mtod s src) op ofs more s) (ipv6_frag_hdr (take 40 (seg_bytes s src)) (pkt_len (mbuf s op)) ofs more).
Proof.
  intros Ho Hs Hb Hm Hofs Hpl How Hls Hne. unfold ipv6_fill.
  assert (W := written_memcpy op src s 40 ltac:(lia) ltac:(lia) Hb). change (Z.to_nat SIZEOF_IPV6_HDR) with 40%nat.
  set (h := take 40 _) in *. set (t := drop 40 _) in W.
  assert (Hh : length h = 40%nat) by (unfold h; rewrite length_take; unfold seg_bytes; rewrite length_read_bytes; lia).
  assert (Ht : length t = 8%nat) by (unfold t; rewrite length_drop; unfold seg_bytes; rewrite length_read_bytes; lia).
  assert (Efd : RTE_IPV6_SET_FRAG_DATA ofs more = Z.lor (8 * (ofs / 8)) more).
  { unfold RTE_IPV6_SET_FRAG_DATA, RTE_IPV6_EHDR_FO_MASK, RTE_IPV6_EHDR_MF_MASK. f_equal.
    - change (Z.shiftl 1 3 - 1) with (Z.ones 3). rewrite <- Z.ldiff_land, Z.ldiff_ones_r, Z.shiftr_div_pow2, Z.shiftl_mul_pow2 by lia.
      change (2 ^ 3) with 8. apply Z.mul_comm.
    - assert (more = 0 \/ more = 1) as [-> | ->] by lia; done. }
  assert (Elen : u16 (u16 (pkt_len (mbuf s op)) - SIZEOF_IPV6_HDR) = pkt_len (mbuf s op) - 40).
  { unfold SIZEOF_IPV6_HDR. rewrite !u16_small; [done|lia|]. rewrite u16_small; lia. }
  unfold __fill_ipv6hdr_frag. rewrite Elen, Efd, !wr8_advance, !wr16_advance. unfold SIZEOF_IPV6_HDR.
  apply (written_wr16 op s _ _ 4 (pkt_len (mbuf s op) - 40)) in W; [|lia|lia]. apply (written_wr8 op s _ _ 6 IPPROTO_FRAGMENT) in W; [|lia].
  set (s1 := wr8 _ 6 _ _) in *.
  assert (Er : rd8 s1 (rte_pktmbuf_mtod s src) 6 = h !!! 6%nat).
  { unfold rd8, rte_pktmbuf_mtod. cbn [fst snd]. rewrite (wt_mem _ _ _ (proj1 W)) by auto.
    symmetry. apply list_lookup_total_correct. unfold h. rewrite lookup_take_lt by lia. unfold seg_bytes. rewrite read_bytes_lookup by lia. done. }
  change (Z.to_nat 40) with 40%nat in *. rewrite Er.
  apply (written_wr8 op s _ _ (40 + 0) (h !!! 6%nat)) in W; [|lia]. apply (written_wr8 op s _ _ (40 + 1) 0) in W; [|lia].
  apply (written_wr16 op s _ _ (40 + 2) (u16 (Z.lor (8 * (ofs / 8)) more))) in W; [|lia|lia].
  apply (written_wr16 op s _ _ (40 + 4) 0) in W; [|lia|lia]. apply (written_wr16 op s _ _ (40 + 6) 0) in W; [|lia|lia].
  destruct W as [W1 W2]. split; [exact W1|]. etrans; [exact W2|]. clear W1 W2.
  destruct t as [|t0 [|t1 [|t2 [|t3 [|t4 [|t5 [|t6 [|t7 [|]]]]]]]]]; try done.
  assert (H6 : u8 (h !!! 6%nat) = h !!! 6%nat).
  { apply wrap_small. refine (proj1 (Forall_forall _ _) Hb _ _). apply list_elem_of_lookup_total. exists 6%nat. split; [lia|done]. }
  unfold ipv6_frag_hdr, put16. rewrite !put8_app_l by (rewrite ?length_put8; lia). set (X := put8 _ 6 _).
  assert (HX : length X = 40%nat) by (unfold X; by rewrite !length_put8).
  rewrite !(put8_app_r X) by lia. rewrite HX. f_equal. unfold put8. cbn. by rewrite H6.
Qed.
End Fill.

(** ** The fragments as byte strings *)

Section Spec.
Context (hdr : Z) (n : nat) (fhdr : Z -> Z -> Z -> list Z).

(** The number of pieces of [n] bytes, at least one. *)
Definition frag_count (R : list Z) : nat := Nat.max 1 ((length R + n - 1) / n).

(** The [i]-th fragment of the payload [R] that starts at the offset [ofs]. *)
Definition frag_at (ofs : Z) (R : list Z) (i : nat) : list Z :=
  let c := take n (drop (i * n) R) in
  fhdr (hdr + Z.of_nat (length c)) (ofs + Z.of_nat (i * n)) (if (S i <? frag_count R)%nat then 1 else 0) ++ c.

Definition frag_list (ofs : Z) (R : list Z) : list (list Z) := map (frag_at ofs R) (seq 0 (frag_count R)).

Lemma frag_count_last R : (0 < n)%nat -> (length R <= n)%nat -> frag_count R = 1%nat.
Proof.
  intros Hn Hl. unfold frag_count. enough ((length R + n - 1) / n < 2)%nat by lia. apply Nat.Div0.div_lt_upper_bound. lia.
Qed.

Lemma frag_count_more R : (0 < n)%nat -> (n < length R)%nat -> frag_count R = S (frag_count (drop n R)).
Proof.
  intros Hn Hl. unfold frag_count. rewrite length_drop.
  replace (length R + n - 1)%nat with ((length R - n + n - 1) + 1 * n)%nat by lia. rewrite Nat.div_add by lia.
  assert (1 <= (length R - n + n - 1) / n)%nat by (apply Nat.div_le_lower_bound; lia). lia.
Qed.

Lemma frag_list_last ofs R : (0 < n)%nat -> (length R <= n)%nat -> frag_list ofs R = [fhdr (hdr + Z.of_nat (length R)) ofs 0 ++ R].
Proof.
  intros Hn Hl. unfold frag_list. rewrite frag_count_last by done. cbn [seq map]. unfold frag_at. rewrite frag_count_last by done.
  cbn [Nat.mul]. rewrite drop_0, take_ge by lia. by rewrite Z.add_0_r.
Qed.

Lemma frag_list_more ofs R : (0 < n)%nat -> (n < length R)%nat ->
  frag_list ofs R = (fhdr (hdr + Z.of_nat n) ofs 1 ++ take n R) :: frag_list (ofs + Z.of_nat n) (drop n R).
Proof.
  intros Hn Hl. unfold frag_list. rewrite frag_count_more by done. cbn [seq map]. f_equal.
  - unfold frag_at. rewrite frag_count_more by done. cbn [Nat.mul]. rewrite drop_0, length_take_le, Z.add_0_r by lia.
    rewrite (proj2 (Nat.ltb_lt _ _)); [done|]. unfold frag_count. lia.
  - rewrite <- seq_shift, map_map. apply map_ext. intros i. unfold frag_at. rewrite (frag_count_more R) by done. rewrite drop_drop.
    replace (S i * n)%nat with (n + i * n)%nat by lia. replace (ofs + Z.of_nat (n + i * n)) with (ofs + Z.of_nat n + Z.of_nat (i * n)) by lia. done.
Qed.

Lemma frag_count_bound R : (0 < n)%nat -> (length R <= frag_count R * n)%nat.
Proof.
  intros Hn. unfold frag_count. pose proof (Nat.div_mod (length R + n - 1) n ltac:(lia)) as E. pose proof (Nat.mod_upper_bound (length R + n - 1) n ltac:(lia)). nia.
Qed.

Lemma frag_count_le R k : (0 < n)%nat -> (length R <= k * n)%nat -> (frag_count R <= Nat.max 1 k)%nat.
Proof.
  intros Hn Hk. unfold frag_count. enough ((length R + n - 1) / n < S k)%nat by lia. apply Nat.Div0.div_lt_upper_bound. lia.
Qed.

Lemma frag_list_length ofs R : length (frag_list ofs R) = frag_count R.
Proof. unfold frag_list. by rewrite length_map, length_seq. Qed.

End Spec.

(** A fragment: its mbuf, its segments and its bytes. *)
Record out_frag := mkOut { of_mb : Z; of_segs : list Z; of_bytes : list Z }.
Definition out_segs (fs : list out_frag) : list Z := concat (map of_segs fs).

Section Loop.
Context {P : Type} `{MP : !MbufPool P} `{ML : !MbufPoolLaws P}.
Implicit Types (s : mstate P) (x y z op : Z) (d l : list Z) (H : gmultiset Z) (fs : list out_frag).

Abbreviation live s x := (is_Some (mbufs s !! x)).
Abbreviation refs l := (list_to_set_disj l : gmultiset Z).

(** ** What a round leaves alone *)

Record undisturbed H (src : list Z) s s' : Prop := {
  ud_data : forall z, z ∈ H -> same_data s s' z /\ seg_bytes s' z = seg_bytes s z;
  ud_live : forall z, live s' z <-> live s z;
  ud_owns : forall o, o ∈ H -> o ∉ src -> owns s o -> owns s' o;
  ud_room : forall mp, rte_pktmbuf_data_room_size s' mp = rte_pktmbuf_data_room_size s mp }.

Lemma undisturbed_refl H src s : undisturbed H src s s.
Proof. constructor; [|done|done|done]. intros z Hz. split; [by apply same_data_eq|done]. Qed.

Lemma undisturbed_trans H src s1 s2 s3 : undisturbed H src s1 s2 -> undisturbed H src s2 s3 -> undisturbed H src s1 s3.
Proof.
  intros [A1 A2 A3 A4] [B1 B2 B3 B4]. constructor.
  - intros z Hz. destruct (A1 z Hz), (B1 z Hz). split; [by eapply same_data_trans|congruence].
  - intros z. by rewrite B2.
  - auto.
  - intros mp. by rewrite B4.
Qed.

Lemma undisturbed_mono H1 H2 src s s' : (forall z, z ∈ H1 -> z ∈ H2) -> undisturbed H2 src s s' -> undisturbed H1 src s s'.
Proof. intros Hs [A1 A2 A3 A4]. constructor; auto. Qed.

Lemma keeps_undisturbed H src D s s' :
  keeps H src D s s' -> mem s' = mem s -> (forall z, z ∈ D -> z ∉ H) -> undisturbed H src s s'.
Proof.
  intros [K1 K2 K3 K4] Hm Hd. constructor; [|done|done|done]. intros z Hz.
  assert (Hs : same_data s s' z) by (apply K1; intros Hz'; by apply (Hd z)). split; [done|]. apply seg_bytes_ext; [done|..]; by rewrite (Hs : mbuf s' z = _).
Qed.

(** What is held is as before. *)
Definition held_same H s s' : Prop :=
  (forall z, z ∈ H -> same_data s s' z /\ seg_bytes s' z = seg_bytes s z) /\ (forall z, live s' z <-> live s z).

Lemma undisturbed_held H src s s' : undisturbed H src s s' -> held_same H s s'.
Proof. intros U. split; apply U. Qed.

Lemma held_packet H s s' m l :
  held_same H s s' -> (forall z, z ∈ l -> z ∈ H) -> packet s m l -> packet s' m l /\ bytes s' l = bytes s l.
Proof.
  intros [U1 U2] Hl Hp. split; [|apply bytes_ext; intros z Hz; by apply U1, Hl].
  apply (packet_mem (mkMstate (mbufs s') (mem s) (pools s'))); [done|].
  apply (packet_same s); [|done|done|done]. intros z Hz. apply U1, Hl, Hz.
Qed.

(** ** Fragments that are done *)

Section Rounds.
Context (hdr : Z) (Hhdr : 0 <= hdr < 2 ^ 15) (meta : Z -> Prop).

Record finished s (f : out_frag) : Prop := {
  fi_packet : packet s (of_mb f) (of_segs f);
  fi_bytes : bytes s (of_segs f) = of_bytes f;
  fi_owns : owns s (of_mb f);
  fi_meta : l2_len (mbuf s (of_mb f)) = 0 /\ data_len (mbuf s (of_mb f)) = hdr /\ meta (l3_len (mbuf s (of_mb f))) }.

Record outs H fs s : Prop := {
  ou_inv : minv s (refs (out_segs fs) ⊎ H) ∅;
  ou_nodup : NoDup (out_segs fs);
  ou_new : forall z, z ∈ out_segs fs -> z ∉ H;
  ou_done : forall f, f ∈ fs -> finished s f }.

Lemma out_segs_in fs f z : f ∈ fs -> z ∈ of_segs f -> z ∈ out_segs fs.
Proof. apply concat_map_in. Qed.

Lemma undisturbed_finished H src s s' f :
  undisturbed H src s s' -> (forall z, z ∈ of_segs f -> z ∈ H) -> of_mb f ∉ src -> finished s f -> finished s' f.
Proof.
  intros U Hs Hn [F1 F2 F3 F4]. destruct (held_packet _ _ _ _ _ (undisturbed_held _ _ _ _ U) Hs F1) as [Hp Hb].
  assert (Hm : of_mb f ∈ H) by (apply Hs; by eapply packet_head_in).
  constructor; [done|congruence|by apply (ud_owns _ _ _ _ U)|]. by rewrite (proj1 (ud_data _ _ _ _ U _ Hm) : mbuf s' _ = _).
Qed.

(** All fragments are given back. *)
Lemma free_fragments_ok H : forall fs s,
  minv s (refs (out_segs fs) ⊎ H) ∅ -> NoDup (out_segs fs) -> (forall f, f ∈ fs -> packet s (of_mb f) (of_segs f)) ->
  exists s', __free_fragments (map of_mb fs) s = Some s' /\ minv s' H ∅ /\
    (forall z, z ∉ out_segs fs -> same_data s s' z) /\ (forall z, live s' z <-> live s z) /\ mem s' = mem s.
Proof.
  unfold __free_fragments. induction fs as [|f fs IH]; intros s HI Hnd Hp.
  - exists s. cbn [map fold_left]. split; [done|]. change (refs (out_segs [])) with (∅ : gmultiset Z) in HI. rewrite (left_id_L ∅ (⊎)) in HI.
    split; [done|]. split; [intros; by apply same_data_eq|done].
  - change (out_segs (f :: fs)) with (of_segs f ++ out_segs fs) in *. rewrite list_to_set_disj_app, <- (assoc_L (⊎)) in HI.
    apply NoDup_app in Hnd as (_ & Hd & Hnd).
    destruct (free_ok _ _ _ _ _ (Hp f ltac:(left)) HI) as (s1 & E1 & HI1 & Hsd & Hl & Hm & _).
    destruct (IH s1 HI1 Hnd) as (s' & E & HI' & Hsd' & Hl' & Hm').
    { intros g Hg. apply (packet_same s); [|done|done|by apply Hp; right]. intros z Hz. apply Hsd. intros Hzf. apply (Hd z Hzf). by eapply out_segs_in. }
    exists s'. cbn [map fold_left mbind option_bind]. rewrite E1. split; [done|]. split; [done|]. split; [|split; [|congruence]].
    + intros z Hz. rewrite elem_of_app in Hz. eapply same_data_trans; [apply Hsd|apply Hsd']; tauto.
    + intros z. by rewrite Hl'.
Qed.

(** ** A new fragment *)

Lemma alloc_l2 mp s x s' : rte_pktmbuf_alloc mp s = Some (x, s') -> l2_len (mbuf s' x) = 0.
Proof.
  unfold rte_pktmbuf_alloc. destruct (__rte_mbuf_raw_alloc mp s) as [[y s1]|]; [|done]. intros [= <- <-].
  unfold rte_pktmbuf_reset. by rewrite mbuf_set, decide_True.
Qed.

Lemma fresh_owns s H x : minv s H ∅ -> fresh s x -> owns s x.
Proof.
  intros HI [F1 F2 F3 _ _ _ _ _] z Hz Hne E. destruct (mi_home _ _ _ HI z Hz) as [Hl _ Hb _ Hs], (mi_home _ _ _ HI x F1) as [_ _ Hb' _ Hs'].
  rewrite Hb, Hb', (Hs' F2) in E. apply (mi_inj _ _ _ HI) in E; [|done|done].
  destruct (indirect s z) eqn:Ei; [by apply (attached_none s x z)|]. by rewrite Hs in E.
Qed.

Lemma sharable_refs s s' n l : same_refs s s' -> sharable s n l -> sharable s' n l.
Proof.
  intros Hs Hsh z Hz. destruct (Hsh z Hz) as (A1 & A2 & A3). rewrite (same_refs_home _ _ z Hs), !(proj1 (sr_core _ _ Hs _)).
  by split; [apply Hs|].
Qed.

Lemma new_fragment_ok s H src mp op s1 n :
  minv s H ∅ -> rte_pktmbuf_alloc mp s = Some (op, s1) -> RTE_PKTMBUF_HEADROOM + hdr <= u16 (rte_pktmbuf_data_room_size s mp) ->
  sharable s n src -> (forall z, z ∈ src -> z ∈ H) ->
  let r := mbuf s1 op in let s2 := set_mbuf op (set_data (data_off r) hdr hdr r) s1 in
  building hdr H op [] [] s2 /\ keeps H src [op] s s2 /\ mem s2 = mem s /\ sharable s2 n src.
Proof.
  intros HI Ea Hroom Hsh Hsrc r s2. pose proof (alloc_l2 _ _ _ _ Ea) as Hl2.
  destruct (alloc_ok _ _ _ _ _ _ HI Ea) as (HI1 & Hf & Hfr & Hnx & _ & Hpool). destruct (alloc_sharable _ _ _ _ _ _ _ _ HI Ea Hsh) as [Hsh1 Hxs].
  pose proof (fresh_owns _ _ _ HI1 Hfr) as Ho. destruct Hfr as [F1 F2 F3 F4 F5 F6 F7 F8].
  assert (Hb : forall z, mbuf s2 z = if decide (z = op) then set_data (data_off r) hdr hdr r else mbuf s1 z).
  { intros z. unfold s2. rewrite mbuf_set. case_decide; by subst. }
  assert (Hbo : mbuf s2 op = set_data (data_off r) hdr hdr r) by (by rewrite Hb, decide_True).
  assert (Hl : forall z, live s2 z <-> live s1 z) by (intros; by apply live_set).
  assert (Hss : same_refs s1 s2).
  { constructor; [done|done|]. intros z. unfold indirect. rewrite Hb. case_decide; by subst. }
  destruct (mi_home _ _ _ HI1 op F1) as [_ _ _ Hbl Hself]. rewrite (Hself F2), (fr_pool _ _ _ Hf), Hpool, (fr_room _ _ _ Hf) in Hbl.
  assert (Hbl2 : 0 <= buf_len r < 2 ^ 16) by (unfold r; rewrite Hbl; apply wrap_range; lia).
  assert (Hbuf : forall z, buf_addr (mbuf s2 z) = buf_addr (mbuf s1 z)) by (intros z; rewrite Hb; case_decide; by subst).
  assert (Hok : seg_ok s2 op).
  { constructor; [by apply Hl|..]; rewrite Hbo; cbn [data_off data_len buf_len set_data]; fold r in F8, Hbl; unfold RTE_PKTMBUF_HEADROOM in *; lia. }
  split; [|split; [|split; [apply Hf|]]].
  - constructor.
    + change (list_to_set_disj [op] : gmultiset Z) with ({[+ op +]} ⊎ ∅ : gmultiset Z). rewrite (right_id_L ∅ (⊎)). by eapply minv_same.
    + constructor; [split; [done|]; by rewrite Hbo|apply NoDup_singleton| | | | |cbn; lia].
      * intros z ->%list_elem_of_singleton. done.
      * rewrite Hbo. cbn. rewrite Hbo. cbn. lia.
      * by rewrite Hbo.
      * cbn. rewrite Hbo. cbn. lia.
    + intros z ->%list_elem_of_singleton. done.
    + exists (seg_bytes s2 op). rewrite bytes_one, app_nil_r. split; [|done]. unfold seg_bytes. rewrite length_read_bytes, Hbo. cbn. lia.
    + intros z Hz Hne. rewrite !Hbuf. apply Ho; [by apply Hl|done].
    + by rewrite Hbo.
  - constructor.
    + intros z Hz. apply same_data_eq. rewrite list_elem_of_singleton in Hz. rewrite Hb, decide_False by done. by apply (fr_out _ _ _ Hf), not_elem_of_singleton.
    + intros z. rewrite Hl. apply Hf.
    + intros o HoH Hos Hoo z Hz Hne. rewrite !Hbuf. apply Hl in Hz. destruct (decide (z = op)) as [->|Hzo].
      * intros E. apply (Ho o); [apply Hf; by apply (mi_held _ _ _ HI)|done|done].
      * assert (o <> op) by (by intros ->). rewrite !(fr_out _ _ _ Hf) by (by apply not_elem_of_singleton). apply Hoo; [by apply Hf|done].
    + intros mp'. apply Hf.
  - by apply (sharable_refs s1).
Qed.

(** ** The header of the fragment *)

Lemma fill_done s H src op d w s1 flags tx h :
  building hdr H op d w s -> written op s s1 h -> Z.land flags IND_ATTACHED_MBUF = Z.land (ol_flags (mbuf s op)) IND_ATTACHED_MBUF -> meta tx ->
  let s' := set_mbuf op (set_tx flags 0 tx (mbuf s op)) s1 in
  same_refs s s' /\ finished s' (mkOut op (op :: d) (h ++ w)) /\ undisturbed H src s s' /\ pkt_len (mbuf s' op) = pkt_len (mbuf s op).
Proof.
  intros B [W Wb] Hind Hmeta s'. destruct B as [B1 B2 B3 (h0 & Bh & B4) B5 [B6 B7]].
  assert (Hlo : live s op) by (apply (pk_segs _ _ _ B2); left).
  assert (Hb : forall z, mbuf s' z = if decide (z = op) then set_tx flags 0 tx (mbuf s op) else mbuf s z).
  { intros z. unfold s'. rewrite mbuf_set, (writes_mbuf _ _ _ _ W). case_decide; by subst. }
  assert (Hbo : mbuf s' op = set_tx flags 0 tx (mbuf s op)) by (by rewrite Hb, decide_True).
  assert (Hl : forall z, live s' z <-> live s z).
  { intros z. unfold s'. rewrite live_set; rewrite (wt_mbufs _ _ _ W); done. }
  assert (Hss : same_refs s s').
  { constructor; [done|apply W|]. intros z. unfold indirect. rewrite Hb. case_decide; [|done]. subst z. unfold RTE_MBUF_INDIRECT.
    cbn [refcnt pool buf_addr buf_len priv_size ol_flags set_tx]. by rewrite Hind. }
  assert (Hbuf : forall z, buf_addr (mbuf s' z) = buf_addr (mbuf s z)) by (intros z; rewrite Hb; case_decide; by subst).
  assert (Hview : forall z, seg_bytes s' z = seg_bytes s1 z).
  { intros z. apply seg_bytes_ext; [done|..]; rewrite (writes_mbuf _ _ _ _ W), Hb; case_decide; by subst. }
  assert (Hseg : forall z, live s z -> z <> op -> seg_bytes s' z = seg_bytes s z) by (intros; rewrite Hview; by eapply writes_seg).
  split; [done|]. split; [constructor; cbn [of_mb of_segs of_bytes]|split; [constructor|by rewrite Hbo]].
  - apply (packet_mem (mkMstate (mbufs s') (mem s) (pools s'))); [done|]. apply (packet_fields s); [|done|done|done].
    intros z Hz. change (mbuf (mkMstate (mbufs s') (mem s) (pools s')) z) with (mbuf s' z). rewrite Hb. case_decide; by subst.
  - change (seg_bytes s' op ++ bytes s' d = h ++ w). rewrite Hview, Wb. f_equal.
    assert (Hd : bytes s' d = bytes s d).
    { apply bytes_ext. intros z Hz. apply Hseg; [apply (pk_segs _ _ _ B2); by right|]. intros ->.
      pose proof (pk_nodup _ _ _ B2) as Hnd. by apply NoDup_cons in Hnd as [? _]. }
    rewrite Hd. change (bytes s (op :: d)) with (seg_bytes s op ++ bytes s d) in B4. apply app_inj_1 in B4; [by destruct B4|].
    unfold seg_bytes. rewrite length_read_bytes. lia.
  - intros z Hz Hne. rewrite !Hbuf. apply B5; [by apply Hl|done].
  - by rewrite Hbo.
  - intros z Hz. assert (z <> op) by (intros ->; apply (B3 op); [left|done]).
    split; [apply same_data_eq; by rewrite Hb, decide_False|]. apply Hseg; [|done]. apply (mi_held _ _ _ B1), refs_elem. by right.
  - done.
  - intros o _ _ Ho z Hz Hne. rewrite !Hbuf. apply Ho; [by apply Hl|done].
  - intros mp. unfold rte_pktmbuf_data_room_size, the_pool. by rewrite (sr_pools _ _ Hss).
Qed.

(** ** One round *)

Section Packet.
Context (H : gmultiset Z) (src : list Z) (Hsrc : forall z, z ∈ src -> z ∈ H) (pd pi mtu : Z) (Hmtu : hdr < mtu < 2 ^ 16).
Context (s0 : mstate P) (Hroom : RTE_PKTMBUF_HEADROOM + hdr <= u16 (rte_pktmbuf_data_room_size s0 pd)).
Context (fill : Z -> Z -> Z -> mstate P -> mstate P) (fhdr : Z -> Z -> Z -> list Z).

(** What the code that fills the headers does. *)
Hypothesis Hfill : forall s H' op d w ofs more,
  building hdr H' op d w s -> (forall z, z ∈ H -> z ∈ H') -> undisturbed H src s0 s -> 0 <= ofs < 2 ^ 16 -> 0 <= more <= 1 -> pkt_len (mbuf s op) < 2 ^ 16 ->
  exists s1 flags tx, written op s s1 (fhdr (pkt_len (mbuf s op)) ofs more) /\
    Z.land flags IND_ATTACHED_MBUF = Z.land (ol_flags (mbuf s op)) IND_ATTACHED_MBUF /\ meta tx /\
    fill op ofs more s = set_mbuf op (set_tx flags 0 tx (mbuf s op)) s1.

Abbreviation n := (Z.to_nat (mtu - hdr)).

(** A fragment for the bytes [c] is added to [fs]. *)
Record added fs op d ofs more (c : list Z) s' : Prop := {
  ad_outs : exists f, outs H (fs ++ [f]) s' /\ of_mb f = op /\ of_segs f = op :: d /\ of_bytes f = fhdr (hdr + Z.of_nat (length c)) ofs more ++ c;
  ad_keep : undisturbed H src s0 s';
  ad_len : pkt_len (mbuf s' op) = hdr + Z.of_nat (length c) }.

Lemma fill_round fs s op d w ofs more :
  let H' := refs (out_segs fs) ⊎ H in
  building hdr H' op d w s -> NoDup (out_segs fs) -> (forall z, z ∈ out_segs fs -> z ∉ H) -> (forall f, f ∈ fs -> finished s f) ->
  undisturbed H src s0 s -> 0 <= ofs < 2 ^ 16 -> 0 <= more <= 1 -> pkt_len (mbuf s op) < 2 ^ 16 ->
  added fs op d ofs more w (fill op ofs more s) /\ undisturbed H' src s (fill op ofs more s) /\
  pools (fill op ofs more s) = pools s /\
  forall nb, sharable s nb src -> sharable (fill op ofs more s) nb src.
Proof.
  intros H' B Hnd Hnew Hdone U Hofs Hmore Hpl.
  assert (HH : forall z, z ∈ H -> z ∈ H') by (intros; apply refs_elem; by right).
  destruct (Hfill s H' op d w ofs more B HH U Hofs Hmore Hpl) as (s1 & flags & tx & W & Hind & Hm & ->).
  destruct (fill_done s H' src op d w s1 flags tx _ B W Hind Hm) as (Hss & Hfi & Hud & El). set (s' := set_mbuf op _ s1) in *.
  rewrite (building_len _ _ _ _ _ _ B) in Hfi, El. split; [|split; [done|split; [apply (wt_pools _ _ _ (proj1 W))|intros nb; by apply (sharable_refs s)]]]. constructor; [|eapply undisturbed_trans; [done|by eapply undisturbed_mono]|done].
  exists (mkOut op (op :: d) (fhdr (hdr + Z.of_nat (length w)) ofs more ++ w)). split; [|done].
  assert (Eo : forall f, out_segs (fs ++ [f]) = out_segs fs ++ of_segs f).
  { intros f. unfold out_segs. rewrite map_app, concat_app. cbn. by rewrite app_nil_r. }
  constructor; rewrite ?Eo; cbn [of_segs].
  - rewrite list_to_set_disj_app, (comm_L (⊎) (refs (out_segs fs))), <- (assoc_L (⊎)). eapply minv_same; [done|]. apply B.
  - apply NoDup_app. split; [done|]. split; [|apply (pk_nodup _ _ _ (bd_pkt _ _ _ _ _ _ B))]. intros z Hz Hz'. apply (bd_apart _ _ _ _ _ _ B z Hz'), refs_elem. by left.
  - intros z [Hz|Hz]%elem_of_app Hzh; [by apply (Hnew z)|]. apply (bd_apart _ _ _ _ _ _ B z Hz), refs_elem. by right.
  - intros f [Hf| ->%list_elem_of_singleton]%elem_of_app; [|done].
    apply (undisturbed_finished H' src s); [done| | |by apply Hdone].
    + intros z Hz. apply refs_elem. left. by eapply out_segs_in.
    + intros Hs. apply (Hnew (of_mb f)); [|by apply Hsrc]. eapply out_segs_in; [done|]. eapply packet_head_in, (fi_packet _ _ (Hdone f Hf)).
Qed.

(** [a] direct and [b] indirect mbufs, which may come from one pool. *)
Definition need (a b : nat) : Z -> nat := fun mp => (of_pool pd a mp + of_pool pi b mp)%nat.
Definition short s (a b : nat) : Prop := exists mp, (mp = pd \/ mp = pi) /\ supply s mp (need a b mp) = None.

Lemma need_mono a b a' b' mp : (a <= a')%nat -> (b <= b')%nat -> (need a b mp <= need a' b' mp)%nat.
Proof. intros Ha Hb. unfold need, of_pool. repeat case_decide; lia. Qed.

Lemma short_mono s a b a' b' : (a <= a')%nat -> (b <= b')%nat -> short s a b -> short s a' b'.
Proof. intros Ha Hb (mp & Hmp & E). exists mp. split; [done|]. eapply supply_mono; [by apply need_mono|done]. Qed.

Lemma short_later s s' a b a' b' : took s s' (need a b) -> short s' a' b' -> short s (a + a') (b + b').
Proof.
  intros T (mp & Hmp & E). exists mp. split; [done|]. rewrite <- T in E. eapply supply_mono; [|exact E].
  unfold need, of_pool. repeat case_decide; lia.
Qed.

Lemma short_direct s : rte_pktmbuf_alloc pd s = None -> short s 1 0.
Proof. intros E%alloc_none. exists pd. split; [by left|]. eapply supply_mono; [|exact E]. unfold need. rewrite of_pool_self. lia. Qed.

Lemma short_indirect s : rte_pktmbuf_alloc pi s = None -> short s 0 1.
Proof. intros E%alloc_none. exists pi. split; [by right|]. eapply supply_mono; [|exact E]. unfold need. rewrite of_pool_self. lia. Qed.

(** Allocation, the segments and the header; [R] are the bytes to go. *)
Lemma round_ok fs y l pos ofs s nb op s1 :
  let R := rest s y l pos in
  outs H fs s -> undisturbed H src s0 s -> cursor s src y l pos -> sharable s (nb + S (length l)) src -> (length l < 253)%nat ->
  0 <= ofs < 2 ^ 16 -> rte_pktmbuf_alloc pd s = Some (op, s1) ->
  let r := mbuf s1 op in let s2 := set_mbuf op (set_data (data_off r) hdr hdr r) s1 in
  exists res, seg_loop (mfuel s2) pi mtu op op y pos s2 = Some res /\
  match res with
  | inl s3 => exists d, packet s3 op (op :: d) /\ minv s3 (refs (op :: d) ⊎ (refs (out_segs fs) ⊎ H)) ∅ /\
      (forall z, z ∈ op :: d -> z ∉ refs (out_segs fs) ⊎ H) /\ (forall f, f ∈ fs -> finished s3 f) /\ undisturbed H src s0 s3 /\
      short s 1 (S (length l))
  | inr (nx, pos', s3) =>
      let more := match nx with None => 0 | Some _ => 1 end in
      let s4 := fill op ofs more s3 in
      exists d, added fs op d ofs more (take n R) s4 /\ took s s4 (need 1 (length d)) /\
      match nx with
      | None => (length R <= n)%nat /\ (length d <= S (length l))%nat
      | Some y' => exists l', cursor s4 src y' l' pos' /\ (n < length R)%nat /\ drop n R = rest s4 y' l' pos' /\
          sharable s4 (nb + length l') src /\ (length l' <= length l)%nat /\ (length d + length l' <= S (length l))%nat
      end
  end.
Proof.
  intros R O U C Hsh Hll Hofs Ea r s2. destruct O as [O1 O2 O3 O4]. set (H' := refs (out_segs fs) ⊎ H) in *.
  assert (HH : forall z, z ∈ H -> z ∈ H') by (intros; apply refs_elem; by right).
  destruct (new_fragment_ok s H' src pd op s1 (nb + S (length l)) O1 Ea) as (B & Hk & Hm & Hsh2); [by rewrite (ud_room _ _ _ _ U)|done|auto|].
  fold r s2 in B, Hk, Hm, Hsh2.
  assert (Tk : forall s3 k, took s2 s3 (of_pool pi k) -> took s s3 (need 1 k)).
  { intros s3 k T3. refine (took_trans s s2 s3 (of_pool pd 1) (of_pool pi k) _ _ T3 ltac:(done)).
    eapply took_same; [exact (alloc_took _ _ _ _ Ea)|done]. }
  assert (Hop : op ∉ H') by (apply (bd_apart _ _ _ _ _ _ B); left).
  assert (U2 : undisturbed H' src s s2) by (apply (keeps_undisturbed _ _ [op]); [done|done|by intros z ->%list_elem_of_singleton]).
  destruct (cursor_ext s s2 src y l pos) as [C2 E2]; [intros z Hz; by apply U2, HH, Hsrc|apply U2|done|]. fold R in E2.
  assert (Hpl : pkt_len (mbuf s2 op) = hdr) by (rewrite (building_len _ _ _ _ _ _ B); cbn; lia).
  destruct (seg_loop_ok hdr ltac:(lia) H' op src pi mtu ltac:(auto) ltac:(lia) l (mfuel s2) y pos [] [] s2 nb B C2 Hsh2) as (res & Hres & Hr); [lia| |cbn; lia|].
  { pose proof (members_bound (mbufs s2) (y :: l) (cu_nodup _ _ _ _ _ C2) (fun z Hz => so_dom s2 z (proj1 (cu_segs _ _ _ _ _ C2 z Hz)))) as Hb.
    unfold mfuel. change (length (y :: l)) with (S (length l)) in Hb. lia. }
  cbn [last default from_option] in Hres. rewrite Hpl, E2 in Hr. exists res. split; [done|].
  assert (Hkeep : forall d w s3, building hdr H' op d w s3 -> keeps H' src (op :: d) s2 s3 -> mem s3 = mem s2 ->
    undisturbed H' src s s3 /\ undisturbed H src s0 s3 /\ forall f, f ∈ fs -> finished s3 f).
  { intros d w s3 B3 K3 M3.
    assert (U3 : undisturbed H' src s s3) by (eapply undisturbed_trans; [done|]; eapply keeps_undisturbed; [done|done|apply (bd_apart _ _ _ _ _ _ B3)]).
    split; [done|]. split; [eapply undisturbed_trans; [done|by eapply undisturbed_mono]|].
    intros f Hf. apply (undisturbed_finished H' src s); [done| | |by apply O4].
    - intros z Hz. apply refs_elem. left. by eapply out_segs_in.
    - intros Hs. apply (O3 (of_mb f)); [|by apply Hsrc]. eapply out_segs_in; [done|]. eapply packet_head_in, (fi_packet _ _ (O4 f Hf)). }
  destruct res as [s3|[[nx pos'] s3]]; cbn [seg_result app] in Hr.
  - destruct Hr as (d & w & B3 & K3 & M3 & Hal & T3 & Hd). destruct (Hkeep d w s3 B3 K3 M3) as (_ & U3 & Hdone). exists d.
    split; [apply B3|]. split; [apply B3|]. split; [apply (bd_apart _ _ _ _ _ _ B3)|]. split; [done|]. split; [done|].
    apply (short_mono s (1 + 0) (length d + 1)); [lia|lia|]. apply (short_later s s3); [by apply Tk|by apply short_indirect].
  - destruct Hr as (d & B3 & K3 & M3 & T3 & Hnx). destruct (Hkeep d _ s3 B3 K3 M3) as (U3 & U3' & Hdone).
    pose proof (building_len _ _ _ _ _ _ B3) as Hl3. assert (length (take n R) <= n)%nat by (rewrite length_take; lia).
    destruct (fill_round fs s3 op d (take n R) ofs (match nx with None => 0 | Some _ => 1 end) B3 O2 O3 Hdone U3' Hofs) as (Had & Hud & Ep & Hs4);
      [destruct nx; lia|lia|]. exists d. split; [done|].
    split; [exact (took_same _ _ _ _ (Tk _ _ T3) Ep)|]. destruct nx as [y'|]; [|done]. destruct Hnx as (l' & C3 & Hp & Hd & Hs & Hle). exists l'.
    destruct (cursor_ext s3 (fill op ofs 1 s3) src y' l' pos') as [C4 E4]; [intros z Hz; by apply Hud, HH, Hsrc|apply Hud|done|].
    split; [done|]. split; [|split; [congruence|split; [by apply Hs4|done]]].
    assert (0 < length (drop n R))%nat; [|rewrite length_drop in *; lia]. rewrite Hd. destruct (rest_cons _ _ _ _ _ C3) as [-> Hlen]. rewrite length_app. lia.
Qed.

(** ** The loop *)

Lemma give_back fs s D :
  undisturbed H src s0 s -> minv s (refs (out_segs fs) ⊎ H) ∅ -> NoDup (out_segs fs) -> (forall z, z ∈ out_segs fs -> z ∉ H) ->
  (forall f, f ∈ fs -> packet s (of_mb f) (of_segs f)) -> map of_mb fs = D ->
  exists s', __free_fragments D s = Some s' /\ minv s' H ∅ /\ held_same H s0 s'.
Proof.
  intros U HI Hnd Hnew Hp <-. destruct (free_fragments_ok H fs s HI Hnd Hp) as (s' & E & HI' & Hsd & Hl & Hm). exists s'.
  split; [done|]. split; [done|]. split; [|intros z; rewrite Hl; apply U]. intros z Hz. destruct (ud_data _ _ _ _ U z Hz) as [Ha Hb].
  assert (Hs : same_data s s' z) by (apply Hsd; intros Hz'; by apply (Hnew z)). split; [by eapply same_data_trans|]. rewrite <- Hb.
  apply seg_bytes_ext; [done|..]; by rewrite (Hs : mbuf s' z = _).
Qed.

Lemma free_fragments_cons op l s s' :
  __free_fragments (op :: l) s = Some s' -> (s ← rte_pktmbuf_free op s; __free_fragments l s) = Some s'.
Proof.
  unfold __free_fragments. cbn [fold_left mbind option_bind]. destruct (rte_pktmbuf_free op s) as [s1|]; [done|].
  assert (En : forall l', fold_left (fun acc m => s ← acc; rte_pktmbuf_free m s) l' (None : option (mstate P)) = None) by (induction l'; done).
  by rewrite En.
Qed.

(** The call has given up, and nothing is taken. *)
Definition gave_up (ret : Z) s' : Prop :=
  ret = - ENOMEM /\ minv s' H ∅ /\ held_same H s0 s'.

Lemma frag_loop_step cap fuel fs y l pos ofs s nb :
  let R := rest s y l pos in
  let run := frag_loop (S fuel) hdr fill pd pi mtu cap (map of_mb fs) y pos ofs s in
  outs H fs s -> undisturbed H src s0 s -> cursor s src y l pos -> sharable s (nb + S (length l)) src -> (length l < 253)%nat ->
  0 <= ofs -> ofs + Z.of_nat (length R) < 2 ^ 16 -> Z.of_nat (length fs) < cap ->
  (exists ret pkts s', run = Some (ret, pkts, s') /\ gave_up ret s' /\ short s 1 (S (length l))) \/
  (exists f s', outs H (fs ++ [f]) s' /\ undisturbed H src s0 s' /\ took s s' (need 1 (pred (length (of_segs f)))) /\
    ((length R <= n)%nat /\ (length (of_segs f) <= 2 + length l)%nat /\ of_bytes f = fhdr (hdr + Z.of_nat (length R)) ofs 0 ++ R /\
       run = Some (Z.of_nat (length (fs ++ [f])), map of_mb (fs ++ [f]), s') \/
     (n < length R)%nat /\ of_bytes f = fhdr (hdr + Z.of_nat n) ofs 1 ++ take n R /\
       exists y' l' pos', cursor s' src y' l' pos' /\ drop n R = rest s' y' l' pos' /\ sharable s' (nb + length l') src /\
         (length l' <= length l)%nat /\ (length (of_segs f) + length l' <= 2 + length l)%nat /\ (1 <= length (of_segs f))%nat /\
         run = frag_loop fuel hdr fill pd pi mtu cap (map of_mb (fs ++ [f])) y' pos' (ofs + Z.of_nat n) s')).
Proof.
  intros R run O U C Hsh Hll Hofs Hmax Hcap. unfold run. cbn [frag_loop].
  destruct (rte_pktmbuf_alloc pd s) as [[op s1]|] eqn:Ea.
  2: { left. destruct O as [O1 O2 O3 O4].
    destruct (give_back fs s _ U O1 O2 O3 (fun f Hf => fi_packet _ _ (O4 f Hf)) eq_refl) as (s' & -> & HI & Hh).
    eexists _, _, s'. split; [done|]. split; [done|]. apply (short_mono s 1 0); [lia|lia|by apply short_direct]. }
  destruct (round_ok fs y l pos ofs s nb op s1 O U C Hsh Hll ltac:(lia) Ea) as (res & -> & Hres). cbn [mbind option_bind].
  destruct res as [s3|[[nx pos'] s3]].
  - left. destruct Hres as (d & Hp & HI & Hap & Hdone & U3 & Hsho). destruct O as [O1 O2 O3 O4].
    set (fs' := mkOut op (op :: d) [] :: fs). assert (Es : out_segs fs' = (op :: d) ++ out_segs fs) by done.
    destruct (give_back fs' s3 (op :: map of_mb fs) U3) as (s' & E & HI' & Hh); rewrite ?Es.
    + by rewrite list_to_set_disj_app, <- (assoc_L (⊎)).
    + apply NoDup_app. split; [apply Hp|]. split; [|done]. intros z Hz Hz'. apply (Hap z Hz), refs_elem. by left.
    + intros z [Hz|Hz]%elem_of_app Hh; [|by apply (O3 z)]. apply (Hap z Hz), refs_elem. by right.
    + intros f [-> |Hf]%elem_of_cons; [done|]. apply Hdone, Hf.
    + done.
    + apply free_fragments_cons in E. destruct (rte_pktmbuf_free op s3) as [s4|]; [|done]. cbn [mbind option_bind] in *. rewrite E.
      by eexists _, _, s'.
  - right. destruct Hres as (d & [(f & Of & Em & Es & Eb) Uf El] & Tk & Hnx). rewrite (proj2 (Z.leb_gt _ _)) by (by rewrite length_map). fold R in Eb, El, Hnx. exists f, (fill op ofs match nx with None => 0 | Some _ => 1 end s3).
    split; [done|]. split; [done|]. split; [by rewrite Es|]. assert (Emap : map of_mb (fs ++ [f]) = map of_mb fs ++ [op]) by (rewrite map_app; cbn; by rewrite Em).
    rewrite Emap. destruct nx as [y'|].
    + right. destruct Hnx as (l' & C' & Hlt & Hd & Hs & Hle & Hle2). rewrite length_take_le in Eb, El by lia. split; [done|]. split; [done|].
      exists y', l', pos'. do 4 (split; [done|]). split; [rewrite Es; cbn; lia|]. split; [rewrite Es; cbn; lia|]. rewrite El. f_equal. rewrite u16_small; lia.
    + left. rewrite take_ge in Eb by lia. split; [lia|]. split; [rewrite Es; cbn; lia|]. split; [done|]. rewrite !length_app, length_map. done.
Qed.

Lemma frag_loop_ok cap : forall k fuel fs y l pos ofs s,
  outs H fs s -> undisturbed H src s0 s -> cursor s src y l pos -> sharable s (k + S (length l)) src -> (length l < 253)%nat ->
  (length (rest s y l pos) <= S k * n)%nat -> (k < fuel)%nat -> 0 <= ofs -> ofs + Z.of_nat (length (rest s y l pos)) < 2 ^ 16 ->
  let cnt := frag_count n (rest s y l pos) in Z.of_nat (length fs + cnt) <= cap ->
  exists ret pkts s', frag_loop fuel hdr fill pd pi mtu cap (map of_mb fs) y pos ofs s = Some (ret, pkts, s') /\
    ((gave_up ret s' /\ short s cnt (cnt + length l)) \/
     exists fs', outs H (fs ++ fs') s' /\ undisturbed H src s0 s' /\ pkts = map of_mb (fs ++ fs') /\ ret = Z.of_nat (length (fs ++ fs')) /\
       map of_bytes fs' = frag_list hdr n fhdr ofs (rest s y l pos) /\ (length (out_segs fs') <= 2 * length fs' + length l)%nat).
Proof.
  induction k as [|k IH]; intros fuel fs y l pos ofs s O U C Hsh Hll Hk Hfuel Hofs Hmax cnt Hcap; (destruct fuel as [|fuel]; [lia|]);
    assert (Hc1 : (1 <= cnt)%nat) by (unfold cnt, frag_count; lia).
  all: edestruct (frag_loop_step cap fuel fs y l pos ofs s) as [(ret & pkts & s' & -> & Hg & Hsho)|(f & s' & Of & Uf & Tk & [(Hl & Hls & Eb & ->)|Hmore])]; try done; try lia.
  all: try by exists ret, pkts, s'; split; [done|left]; split; [done|]; eapply short_mono; [| |exact Hsho]; lia.
  all: try by eexists _, _, s'; split; [done|right]; exists [f]; split_and!; try done; [rewrite frag_list_last by lia; cbn; by rewrite Eb|cbn; rewrite app_nil_r; lia].
  destruct Hmore as (Hlt & Eb & y' & l' & pos' & C' & Ed & Hs & Hle & Hle2 & Hf1 & ->). pose proof (f_equal length Ed) as Hld. rewrite length_drop in Hld.
  assert (Ec : cnt = S (frag_count n (rest s' y' l' pos'))) by (unfold cnt; rewrite frag_count_more, Ed by lia; done).
  destruct (IH fuel (fs ++ [f]) y' l' pos' (ofs + Z.of_nat n) s' Of Uf C') as (ret & pkts & s2 & E & Hr); try lia.
  { by rewrite Nat.add_succ_r. } { rewrite length_app. cbn [length]. lia. }
  exists ret, pkts, s2. split; [done|].
  destruct Hr as [[Hg Hsho]|(fs' & Hr)]; [left; split; [done|]|right].
  { apply (short_later _ _ _ _ _ _ Tk) in Hsho. eapply short_mono; [| |exact Hsho]; lia. }
  exists (f :: fs'). rewrite <- (app_assoc fs) in Hr. destruct Hr as (R1 & R2 & R3 & R4 & R5 & R6).
  do 4 (split; [done|]). split; [rewrite frag_list_more by lia; cbn [map]; by rewrite Eb, R5, Ed|].
  change (out_segs (f :: fs')) with (of_segs f ++ out_segs fs'). rewrite length_app. cbn [length]. lia.
Qed.

(** From the header of a packet on. *)
Lemma frag_run cap m l (hl : Z) :
  let p := drop (Z.to_nat hl) (bytes s0 (m :: l)) in
  packet s0 m (m :: l) -> minv s0 H ∅ -> src = m :: l -> (forall y, y ∈ l -> 0 < data_len (mbuf s0 y)) -> 0 <= hl <= data_len (mbuf s0 m) ->
  pkt_len (mbuf s0 m) < 2 ^ 16 -> (length l < 253)%nat -> sharable s0 (frag_count n p + length l) src -> Z.of_nat (frag_count n p) <= cap ->
  exists ret pkts s', frag_loop (frag_fuel s0 m) hdr fill pd pi mtu cap [] m hl 0 s0 = Some (ret, pkts, s') /\
    ((gave_up ret s' /\ short s0 (frag_count n p) (frag_count n p + length l)) \/
     exists fs, outs H fs s' /\ undisturbed H src s0 s' /\ pkts = map of_mb fs /\ ret = Z.of_nat (length fs) /\ map of_bytes fs = frag_list hdr n fhdr 0 p /\
       (length (out_segs fs) <= 2 * length fs + length l)%nat).
Proof.
  intros p Hp HI Es Hne Hhl Hmax Hll Hsh Hcap.
  assert (C : cursor s0 src m l hl).
  { constructor; [apply Hp|apply Hp| |done|done]. intros z Hz. split; [by apply (pk_segs _ _ _ Hp)|by rewrite Es]. }
  assert (Hlen : Z.of_nat (length p) <= pkt_len (mbuf s0 m)).
  { unfold p. rewrite (pk_len _ _ _ Hp), <- (length_bytes s0 (m :: l)) by apply Hp. rewrite length_drop. lia. }
  assert (Hn : (0 < n)%nat) by lia. pose proof (frag_count_bound n p Hn) as Hb. pose proof (frag_count_le n p (length p) Hn ltac:(nia)) as Hb2.
  assert (Hc1 : (1 <= frag_count n p)%nat) by (unfold frag_count; lia).
  apply (frag_loop_ok cap (frag_count n p - 1) (frag_fuel s0 m) [] m l hl 0 s0); try done.
  - constructor; [|by apply NoDup_nil|intros z Hz; by apply elem_of_nil in Hz|intros z Hz; by apply elem_of_nil in Hz].
    change (refs (out_segs [])) with (∅ : gmultiset Z). by rewrite (left_id_L ∅ (⊎)).
  - apply undisturbed_refl.
  - by replace (frag_count n p - 1 + S (length l))%nat with (frag_count n p + length l)%nat by lia.
  - fold p. change (rest s0 m l hl) with p. by replace (S (frag_count n p - 1)) with (frag_count n p) by lia.
  - unfold frag_fuel. lia.
  - change (rest s0 m l hl) with p. lia.
Qed.

End Packet.
End Rounds.
End Loop.
