(* ===== verification/IpFragmentTheorems.v ===== *)
(** * IP fragmentation: theorems

    The claims on [rte_ipv4_fragment_packet] and [rte_ipv6_fragment_packet]. *)
From stdpp Require Import gmultiset.
From S2P Require Import Prelude Bits Mbuf MbufPacket MbufRef MbufClone IpFrag IpFragHeader.
From S2P Require Import IpFragChain IpFragment IpFragmentSeg IpFragmentLoop.

Section Fragmentation.
Context {P : Type} `{MP : !MbufPool P} `{ML : !MbufPoolLaws P}.
Implicit Types (s : mstate P) (m : Z) (l : list Z) (H : gmultiset Z).

(** A packet that the program holds, with a header of [hl] bytes in its first
    segment, that can be cut into [cnt] fragments. *)
Record input_ok s H m l (hl : Z) (cnt : nat) : Prop := {
  io_packet : packet s m (m :: l);
  io_inv : minv s H ∅;
  io_held : forall y, y ∈ m :: l -> y ∈ H;
  io_more : forall y, y ∈ l -> 0 < data_len (mbuf s y);
  io_hdr : 0 <= hl <= data_len (mbuf s m);
  io_bytes : is_bytes (take (Z.to_nat hl) (bytes s (m :: l)));
  io_len : pkt_len (mbuf s m) < 2 ^ 16;
  io_segs : (length l < 253)%nat;
  io_refs : forall y, y ∈ m :: l -> refcnt (mbuf s (home s y)) + Z.of_nat (cnt + length l) < 2 ^ 16 }.

Lemma input_sharable s H m l hl cnt k : input_ok s H m l hl cnt -> (k <= cnt)%nat -> sharable s (k + length l) (m :: l).
Proof.
  intros I Hk y Hy. assert (Hh := io_held _ _ _ _ _ _ I y Hy). pose proof (io_inv _ _ _ _ _ _ I) as HI.
  assert (Hl : is_Some (mbufs s !! y)) by (by apply (mi_held _ _ _ HI)). pose proof (mi_count _ _ _ HI y Hl) as Hc.
  pose proof (io_refs _ _ _ _ _ _ I y Hy) as Hr. assert (0 < multiplicity y H)%nat by (by apply elem_of_multiplicity). split; [done|]. lia.
Qed.

(** The headers, read through the first segment. *)
Lemma input_first s H m l hl cnt : input_ok s H m l hl cnt -> take (Z.to_nat hl) (seg_bytes s m) = take (Z.to_nat hl) (bytes s (m :: l)).
Proof.
  intros I. change (bytes s (m :: l)) with (seg_bytes s m ++ bytes s l). rewrite take_app_le; [done|]. pose proof (io_hdr _ _ _ _ _ _ I).
  unfold seg_bytes. rewrite length_read_bytes. lia.
Qed.

Lemma input_payload s H m l hl cnt :
  input_ok s H m l hl cnt -> Z.of_nat (length (drop (Z.to_nat hl) (bytes s (m :: l)))) = pkt_len (mbuf s m) - hl /\ 0 <= pkt_len (mbuf s m) - hl.
Proof.
  intros I. pose proof (io_packet _ _ _ _ _ _ I) as Hp. pose proof (io_hdr _ _ _ _ _ _ I) as Hh.
  assert (0 <= total_len s l) by (apply total_len_nonneg; intros; apply (pk_segs _ _ _ Hp); by right).
  pose proof (length_bytes s (m :: l) (pk_segs _ _ _ Hp)) as Hb. pose proof (pk_len _ _ _ Hp) as Hl.
  change (total_len s (m :: l)) with (data_len (mbuf s m) + total_len s l) in *. rewrite length_drop. lia.
Qed.

(** The header of the input in a later state. *)
Lemma input_later s H m l hl cnt s' :
  input_ok s H m l hl cnt -> held_same H s s' ->
  rte_pktmbuf_mtod s m = rte_pktmbuf_mtod s' m /\ take (Z.to_nat hl) (seg_bytes s' m) = take (Z.to_nat hl) (bytes s (m :: l)) /\
  hl <= data_len (mbuf s' m) /\ is_Some (mbufs s' !! m).
Proof.
  intros I [U1 U2]. assert (Hm : m ∈ H) by (apply (io_held _ _ _ _ _ _ I); left). destruct (U1 m Hm) as [Hs Hb].
  rewrite Hb, (input_first _ _ _ _ _ _ I). unfold rte_pktmbuf_mtod. rewrite (Hs : mbuf s' m = _). split; [done|]. split; [done|].
  split; [apply (io_hdr _ _ _ _ _ _ I)|]. apply U2, (mi_held _ _ _ (io_inv _ _ _ _ _ _ I)), Hm.
Qed.

(** What the caller has after the call: the fragments; or [-ENOMEM], if a pool
    does not give all the mbufs: one direct mbuf for each fragment, and at
    most one indirect mbuf for each fragment and for each segment behind the
    first. *)
Definition fragmented H l (pd pi : Z) (meta : Z -> Prop) (hdr : Z) s (frags : list (list Z)) (res : option (Z * list Z * mstate P)) : Prop :=
  exists ret pkts s', res = Some (ret, pkts, s') /\
    (forall h lh, (forall y, y ∈ lh -> y ∈ H) -> packet s h lh -> packet s' h lh /\ bytes s' lh = bytes s lh) /\
    (ret = - ENOMEM /\ minv s' H ∅ /\ short pd pi s (length frags) (length frags + length l) \/
     exists fs, pkts = map of_mb fs /\ ret = Z.of_nat (length frags) /\ map of_bytes fs = frags /\ outs hdr meta H fs s' /\
       (length (out_segs fs) <= 2 * length fs + length l)%nat).

Lemma run_fragmented H src l pd pi hdr meta s frags res :
  (exists ret pkts s', res = Some (ret, pkts, s') /\
    ((gave_up H s ret s' /\ short pd pi s (length frags) (length frags + length l)) \/
     exists fs, outs hdr meta H fs s' /\ undisturbed H src s s' /\ pkts = map of_mb fs /\ ret = Z.of_nat (length fs) /\ map of_bytes fs = frags /\
       (length (out_segs fs) <= 2 * length fs + length l)%nat)) ->
  fragmented H l pd pi meta hdr s frags res.
Proof.
  intros (ret & pkts & s' & E & Hr). exists ret, pkts, s'. split; [done|].
  assert (Hh : held_same H s s') by (destruct Hr as [[(_ & _ & Hh) _]|(fs & _ & U & _)]; [done|by eapply undisturbed_held]).
  split; [intros h lh Hlh; by apply (held_packet H)|]. destruct Hr as [[(-> & HI & _) Hsho]|(fs & O & _ & -> & -> & <- & Hc)]; [by left|right].
  exists fs. by rewrite length_map.
Qed.

Section Ipv4.
Context (s : mstate P) (H : gmultiset Z) (m : Z) (l : list Z) (mtu nb pool_direct pool_indirect : Z).
Context (I : input_ok s H m l 20 (Z.to_nat nb)) (Hmtu : 20 < mtu < 2 ^ 16) (Hnb : 1 <= nb) (Hprod : (mtu - 20) * nb < 2 ^ 31)
  (Hroom : 148 <= u16 (rte_pktmbuf_data_room_size s pool_direct)).

Abbreviation h := (take 20 (bytes s (m :: l))).
Abbreviation p := (drop 20 (bytes s (m :: l))).

Lemma input_word : rd16be s (rte_pktmbuf_mtod s m) 6 = get16 h 6.
Proof.
  unfold rd16be, get16. pose proof (input_first _ _ _ _ _ _ I) as Hf. change (Z.to_nat 20) with 20%nat in Hf. rewrite <- Hf.
  assert (Hrd : forall i : nat, (i < 20)%nat -> take 20 (seg_bytes s m) !!! i = rd8 s (rte_pktmbuf_mtod s m) (Z.of_nat i)).
  { intros i Hi. apply list_lookup_total_correct. rewrite lookup_take_lt by lia. apply read_bytes_lookup. pose proof (io_hdr _ _ _ _ _ _ I). lia. }
  rewrite !Hrd by (cbn; lia). done.
Qed.

(** The checks, and the loop. *)
Lemma ipv4_checks :
  rte_ipv4_fragment_packet m nb mtu pool_direct pool_indirect s =
    if Z.testbit (get16 h 6) 14 then Some (- ENOTSUP, [], s)
    else if (mtu - 20) * nb <? Z.of_nat (length p) then Some (- EINVAL, [], s)
    else frag_loop (frag_fuel s m) 20 (ipv4_fill (rte_pktmbuf_mtod s m) (get16 h 6)) pool_direct pool_indirect mtu nb [] m 20 0 s.
Proof.
  destruct (input_payload _ _ _ _ _ _ I) as [Hp Hp0]. change (Z.to_nat 20) with 20%nat in Hp. pose proof (io_len _ _ _ _ _ _ I) as Hlen.
  unfold rte_ipv4_fragment_packet. rewrite input_word, Z.land_comm. unfold IPV4_HDR_DF_MASK, SIZEOF_IPV4_HDR. rewrite land_bit, negb_involutive by lia.
  rewrite !u16_small, i32_small by (rewrite ?u16_small; nia). by rewrite Hp.
Qed.

Lemma ipv4_loop : Z.of_nat (length p) <= (mtu - 20) * nb ->
  let frags := frag_list 20 (Z.to_nat (mtu - 20)) (ipv4_frag_hdr h (get16 h 6)) 0 p in
  Z.of_nat (length frags) <= nb /\
  fragmented H l pool_direct pool_indirect (fun tx : Z => tx = 20) 20 s frags
    (frag_loop (frag_fuel s m) 20 (ipv4_fill (rte_pktmbuf_mtod s m) (get16 h 6)) pool_direct pool_indirect mtu nb [] m 20 0 s).
Proof.
  intros Hfit frags. assert (Hcnt : (frag_count (Z.to_nat (mtu - 20)) p <= Z.to_nat nb)%nat).
  { pose proof (frag_count_le (Z.to_nat (mtu - 20)) p (Z.to_nat nb) ltac:(lia)) as Hc. rewrite Hc; [lia|]. nia. }
  split; [unfold frags; rewrite frag_list_length; lia|].
  apply (run_fragmented H (m :: l) l pool_direct pool_indirect). unfold frags. rewrite frag_list_length. apply frag_run; try apply I; try lia.
  - unfold RTE_PKTMBUF_HEADROOM. lia.
  - intros s1 H' op d w ofs more B HH U Hofs Hmore Hpl.
    destruct (input_later _ _ _ _ _ _ _ I (undisturbed_held _ _ _ _ U)) as (-> & Eh & Hdl & _). change (Z.to_nat 20) with 20%nat in Eh.
    destruct (bd_op _ _ _ _ _ _ B) as [El2 Edl]. pose proof (building_len _ _ _ _ _ _ B) as Hbl.
    destruct (ipv4_fill_written op m s1 (get16 h 6) ofs more) as (s2 & W & E); [done|done|rewrite Eh; apply I|done|].
    rewrite Eh, u16_small in W by lia. rewrite El2 in E. eexists s2, _, 20. split; [done|]. split; [apply indirect_cksum|done].
  - done.
  - by eapply input_sharable.
  - change (Z.to_nat 20) with 20%nat. lia.
Qed.

End Ipv4.



End Fragmentation.
