(* ===== verification/IpFragmentRoundtrip.v ===== *)
(** * IP fragmentation and reassembly: round trip

    The fragments that [rte_ipv4_fragment_packet] makes of a packet are
    fragments that [rte_ipv4_frag_reassemble_packet] takes. *)
From stdpp Require Import gmultiset.
From S2P Require Import Prelude Bits Mbuf MbufPacket MbufRef MbufClone Mempool MempoolTheorems MempoolMbuf MbufTheorems IpFrag.
From S2P Require Import IpFragChain IpFragHeader IpFragEntry IpFragTable IpFragFind IpFragInput IpFragRun IpFragInterleave.
From S2P Require Import IpFragTheorems IpFragment IpFragmentSeg IpFragmentLoop IpFragmentTheorems.

(** ** The header of a fragment, read back *)

Lemma get_put_bytes v : 0 <= v < 2 ^ 16 -> 256 * u8 (Z.shiftr v 8) + u8 v = v.
Proof.
  intros Hv. unfold u8, wrap. rewrite Z.shiftr_div_pow2 by lia. change (2 ^ 8) with 256. rewrite (Z.mod_small (v / 256)); [|split; [apply Z.div_pos; lia|apply Z.div_lt_upper_bound; lia]].
  symmetry. apply Z.div_mod. lia.
Qed.

Lemma put_get_bytes a b : 0 <= a < 256 -> 0 <= b < 256 -> u8 (Z.shiftr (256 * a + b) 8) = a /\ u8 (256 * a + b) = b.
Proof.
  intros Ha Hb. unfold u8, wrap. rewrite Z.shiftr_div_pow2 by lia. change (2 ^ 8) with 256. split.
  - rewrite Z.add_comm, Z.mul_comm, Z.div_add by lia. rewrite (Z.div_small b) by lia. by rewrite Z.add_0_l, Z.mod_small.
  - rewrite Z.add_comm, Z.mul_comm, Z.mod_add by lia. by apply Z.mod_small.
Qed.

(** A header of 20 bytes, element by element. *)
Ltac explode h Hh :=
  do 20 (destruct h as [|? h]; [discriminate Hh|]); destruct h as [|? h]; [clear Hh|discriminate Hh].

Lemma frag_hdr_fields h w len :
  length h = 20%nat -> 0 <= w < 2 ^ 16 -> 0 <= len < 2 ^ 16 ->
  let b := put16 (put16 (put16 h 6 w) 2 len) 10 0 in
  get16 b 6 = w /\ get16 b 2 = len /\ get_le b 12 8 = get_le h 12 8 /\ get_le b 4 2 = get_le h 4 2 /\ length b = 20%nat.
Proof.
  intros Hh Hw Hl b. explode h Hh. split; [apply get_put_bytes, Hw|]. split; [apply get_put_bytes, Hl|]. split; [reflexivity|]. split; reflexivity.
Qed.

(** The word of a fragment of a packet that is not itself a fragment. *)
Lemma frag_word_fields ofs more :
  0 <= ofs < 2 ^ 16 -> ofs mod 8 = 0 -> 0 <= more <= 1 ->
  let w := frag_word 0 ofs more in
  0 <= w < 2 ^ 16 /\ u16 (u16 (Z.land w IPV4_HDR_OFFSET_MASK) * IPV4_HDR_OFFSET_UNITS) = ofs /\ u16 (Z.land w IPV4_HDR_MF_FLAG) = more * 2 ^ 13.
Proof.
  intros Ho H8 Hm w. assert (Hd : 0 <= ofs / 8 < 2 ^ 13) by (split; [apply Z.div_pos; lia|apply Z.div_lt_upper_bound; lia]).
  set (a := ofs / 8) in *. assert (Ha : Z.land a (2 ^ 13) = 0).
  { assert (Hz := land_bit a 13 ltac:(lia)). rewrite Z.testbit_eqb, Z.div_small in Hz by lia. apply Z.eqb_eq in Hz. by rewrite Z.land_comm. }
  assert (Ew : w = Z.lor a (more * 2 ^ 13) /\ w = a + more * 2 ^ 13).
  { assert (El : Z.lor a (more * 2 ^ 13) = a + more * 2 ^ 13).
    { pose proof (Z.add_lor_land a (more * 2 ^ 13)). assert (more = 0 \/ more = 1) as [-> | ->] by lia; [by rewrite Z.lor_0_r; lia|].
      rewrite Z.mul_1_l in *. lia. }
    unfold w, frag_word. rewrite Z.add_0_l. fold a. rewrite (u16_small a), u16_small by lia. done. }
  destruct Ew as [E1 E2]. split; [lia|]. unfold IPV4_HDR_OFFSET_MASK, IPV4_HDR_OFFSET_UNITS, IPV4_HDR_MF_FLAG.
  change (Z.shiftl 1 13 - 1) with (Z.ones 13). change (Z.shiftl 1 13) with (2 ^ 13). rewrite Z.land_ones by lia. split.
  - rewrite E2, Z.mod_add, Z.mod_small by lia. pose proof (Z.div_mod ofs 8 ltac:(lia)) as Hdm. fold a in Hdm. rewrite (u16_small a), u16_small; lia.
  - rewrite E1, Z.land_lor_distr_l, Ha, Z.lor_0_l. assert (more = 0 \/ more = 1) as [-> | ->] by lia; done.
Qed.

(** The header that the reassembly makes of the one of the first fragment. *)
Lemma whole_frag_hdr h (len total : Z) more :
  length h = 20%nat -> is_bytes h -> get16 h 6 = 0 -> get16 h 2 = total + 20 -> 0 <= total + 20 < 2 ^ 16 -> 0 <= more <= 1 ->
  ipv4_whole 0 20 total (ipv4_frag_hdr h 0 len 0 more) = put16 h 10 0.
Proof.
  intros Hh Hb H6 H2 Ht Hm. explode h Hh. destruct (frag_word_fields 0 more ltac:(lia) eq_refl Hm) as (Hw & _).
  unfold ipv4_whole, ipv4_frag_hdr. set (w := frag_word 0 0 more) in *. unfold is_bytes in Hb. rewrite !Forall_cons in Hb. rewrite u16_small by done.
  set (b := put16 (put16 (put16 (put16 _ 6 w) 2 len) 10 0) (0 + 2) (total + 20)).
  assert (Eb : get16 b (0 + 6) = 256 * u8 (Z.shiftr w 8) + u8 w) by reflexivity. rewrite Eb, get_put_bytes by done.
  assert (Ed : Z.land w IPV4_HDR_DF_FLAG = 0) by (unfold w; assert (more = 0 \/ more = 1) as [-> | ->] by lia; reflexivity). rewrite Ed.
  change (256 * z5 + z6 = 0) in H6. change (256 * z1 + z2 = total + 20) in H2. assert (z5 = 0 /\ z6 = 0) as [-> ->] by lia.
  destruct (put_get_bytes z1 z2) as [E1 E2]; [lia|lia|]. rewrite H2 in E1, E2.
  change ([z; z0; u8 (Z.shiftr (total + 20) 8); u8 (total + 20); z3; z4; 0; 0; z7; z8; 0; 0; z11; z12; z13; z14; z15; z16; z17; z18] =
    [z; z0; z1; z2; z3; z4; 0; 0; z7; z8; 0; 0; z11; z12; z13; z14; z15; z16; z17; z18]).
  by rewrite E1, E2.
Qed.

(** The key of the packets with the header [h]. *)
Lemma hdr_key h : length h = 20%nat -> is_bytes h -> 0 < get_le h 12 4 ->
  host_keys (get_le h 16 4) (mkKey [get_le h 12 8; 0; 0; 0] (get_le h 4 2) IPV4_KEYLEN).
Proof.
  intros Hh Hb Ha. explode h Hh. unfold is_bytes in Hb. rewrite !Forall_cons in Hb. cbv [get_le] in *.
  split; [done|]. split; [done|]. cbn [src_dst key_id] in *. 
  change (0 < z11 + 256 * (z12 + 256 * (z13 + 256 * (z14 + 256 * 0)))) in Ha.
  change (0 <= z3 + 256 * (z4 + 256 * 0) < 2 ^ 16 /\ exists src, 0 < src < 2 ^ 32 /\
    z11 + 256 * (z12 + 256 * (z13 + 256 * (z14 + 256 * (z15 + 256 * (z16 + 256 * (z17 + 256 * (z18 + 256 * 0))))))) =
    src + 2 ^ 32 * (z15 + 256 * (z16 + 256 * (z17 + 256 * (z18 + 256 * 0))))).
  split; [lia|]. eexists. split; [split; [exact Ha|lia]|lia].
Qed.

(** ** The fragments as pieces of a datagram *)

Section Pieces.
Context (n : nat) (h : list Z) (Hn : (0 < n)%nat).
Implicit Types (fs : list out_frag) (R : list Z).

Definition piece_of (f : out_frag) (ofs more : Z) (c : list Z) : piece :=
  mkPiece (mkPart (of_mb f) (of_segs f) (ipv4_frag_hdr h 0 (20 + Z.of_nat (length c)) ofs more) c) ofs (Z.of_nat (length c)) (more * 2 ^ 13).

Fixpoint pieces_of (ofs : Z) R fs : list piece :=
  match fs with
  | [] => []
  | f :: fs' => piece_of f ofs (match fs' with [] => 0 | _ => 1 end) (take n R) :: pieces_of (ofs + Z.of_nat n) (drop n R) fs'
  end.

Abbreviation good ofs R fs := (map of_bytes fs = frag_list 20 n (ipv4_frag_hdr h 0) ofs R).

(** One or more fragments. *)
Lemma good_cases ofs R fs : good ofs R fs ->
  (exists f, fs = [f] /\ (length R <= n)%nat /\ of_bytes f = ipv4_frag_hdr h 0 (20 + Z.of_nat (length R)) ofs 0 ++ R) \/
  (exists f g fs', fs = f :: g :: fs' /\ (n < length R)%nat /\ of_bytes f = ipv4_frag_hdr h 0 (20 + Z.of_nat n) ofs 1 ++ take n R /\
     good (ofs + Z.of_nat n) (drop n R) (g :: fs')).
Proof.
  intros G. destruct (decide (length R <= n)%nat) as [Hl|Hl].
  - left. rewrite frag_list_last in G by done. destruct fs as [|f [|]]; [done| |done]. injection G as E. by exists f.
  - right. rewrite frag_list_more in G by lia. destruct fs as [|f fs]; [done|]. injection G as E G. destruct fs as [|g fs].
    + apply (f_equal length) in G. rewrite frag_list_length in G. unfold frag_count in G. cbn in G. lia.
    + exists f, g, fs. split_and!; [done|lia|done|done].
Qed.

(** Induction along the fragments. *)
Lemma pieces_ind (Q : Z -> list Z -> list out_frag -> list piece -> Prop) :
  (forall ofs R f, (length R <= n)%nat -> of_bytes f = ipv4_frag_hdr h 0 (20 + Z.of_nat (length R)) ofs 0 ++ R -> Q ofs R [f] [piece_of f ofs 0 R]) ->
  (forall ofs R f fs, fs <> [] -> (n < length R)%nat -> of_bytes f = ipv4_frag_hdr h 0 (20 + Z.of_nat n) ofs 1 ++ take n R ->
     Q (ofs + Z.of_nat n) (drop n R) fs (pieces_of (ofs + Z.of_nat n) (drop n R) fs) ->
     Q ofs R (f :: fs) (piece_of f ofs 1 (take n R) :: pieces_of (ofs + Z.of_nat n) (drop n R) fs)) ->
  forall fs ofs R, good ofs R fs -> Q ofs R fs (pieces_of ofs R fs).
Proof.
  intros H1 H2 fs. induction fs as [|f fs IH]; intros ofs R G.
  - destruct (good_cases _ _ _ G) as [(f & ? & _)|(f & g & fs & ? & _)]; done.
  - destruct (good_cases _ _ _ G) as [(f' & [= -> ->] & Hl & E)|(f' & g & fs' & [= -> ->] & Hl & E & G')].
    + cbn [pieces_of]. rewrite take_ge by done. by apply H1.
    + change (pieces_of ofs R (f' :: g :: fs')) with (piece_of f' ofs 1 (take n R) :: pieces_of (ofs + Z.of_nat n) (drop n R) (g :: fs')).
      apply H2; [done|done|done|]. by apply IH.
Qed.

Lemma pieces_contiguous fs ofs R : good ofs R fs -> R <> [] -> contiguous ofs (pieces_of ofs R fs).
Proof.
  revert fs ofs R. refine (pieces_ind (fun ofs R fs ps => R <> [] -> contiguous ofs ps) _ _).
  - intros ofs R f _ _ Hr. cbn. destruct R; [done|]. cbn. lia.
  - intros ofs R f fs _ Hl _ IH _. cbn [contiguous piece_of pc_ofs pc_len]. rewrite length_take_le by lia. split; [done|]. split; [lia|].
    apply IH. intros E. apply (f_equal length) in E. rewrite length_drop in E. cbn in E. lia.
Qed.

Lemma pieces_payload fs ofs R : good ofs R fs ->
  concat (map pt_pay (map pc_part (pieces_of ofs R fs))) = R /\ sum_len (pieces_of ofs R fs) = Z.of_nat (length R).
Proof.
  revert fs ofs R. refine (pieces_ind (fun ofs R fs ps => concat (map pt_pay (map pc_part ps)) = R /\ sum_len ps = Z.of_nat (length R)) _ _).
  - intros ofs R f _ _. cbn. rewrite app_nil_r. split; [done|lia].
  - intros ofs R f fs _ Hl _ [E1 E2]. cbn [map concat piece_of pc_part pt_pay]. rewrite E1, take_drop. split; [done|].
    change (sum_len (?p :: ?ps)) with (pc_len p + sum_len ps). rewrite E2. cbn [piece_of pc_len]. rewrite length_take, length_drop. lia.
Qed.

Lemma pieces_same fs ofs R : good ofs R fs ->
  map (fun p => pt_segs (pc_part p)) (pieces_of ofs R fs) = map of_segs fs /\ map (fun p => pt_mb (pc_part p)) (pieces_of ofs R fs) = map of_mb fs.
Proof.
  revert fs ofs R. refine (pieces_ind (fun ofs R fs ps => map (fun p => pt_segs (pc_part p)) ps = map of_segs fs /\ map (fun p => pt_mb (pc_part p)) ps = map of_mb fs) _ _).
  - done.
  - intros ofs R f fs _ _ _ [E1 E2]. cbn. by rewrite E1, E2.
Qed.

(** All but the last announce more. *)
Lemma pieces_flags fs ofs R xs y : good ofs R fs -> pieces_of ofs R fs = xs ++ [y] ->
  (forall x, x ∈ xs -> pc_more x <> 0) /\ pc_more y = 0.
Proof.
  intros G. revert xs y. revert fs ofs R G.
  refine (pieces_ind (fun ofs R fs ps => forall xs y, ps = xs ++ [y] -> (forall x, x ∈ xs -> pc_more x <> 0) /\ pc_more y = 0) _ _).
  - intros ofs R f _ _ xs y E. destruct xs as [|x xs]; [|destruct xs; done]. injection E as <-. split; [intros x Hx; by apply elem_of_nil in Hx|done].
  - intros ofs R f fs Hfs _ _ IH xs y E. destruct xs as [|x xs].
    + injection E as _ E. by destruct fs.
    + injection E as <- E. destruct (IH xs y E) as [A B]. split; [|done]. intros x [-> |Hx]%elem_of_cons; [done|auto].
Qed.

(** Where a piece comes from. *)
Definition piece_good (lo hi : Z) fs (p : piece) : Prop :=
  exists f more, f ∈ fs /\ 0 <= more <= 1 /\ p = piece_of f (pc_ofs p) more (pt_pay (pc_part p)) /\
    of_bytes f = pt_hdr (pc_part p) ++ pt_pay (pc_part p) /\ lo <= pc_ofs p /\ pc_ofs p + pc_len p <= hi /\
    (exists k : nat, pc_ofs p = lo + Z.of_nat (k * n)).

Lemma pieces_good fs ofs R p : good ofs R fs -> p ∈ pieces_of ofs R fs -> piece_good ofs (ofs + Z.of_nat (length R)) fs p.
Proof.
  intros G. revert p. revert fs ofs R G. refine (pieces_ind (fun ofs R fs ps => forall p, p ∈ ps -> piece_good ofs (ofs + Z.of_nat (length R)) fs p) _ _).
  - intros ofs R f _ E p ->%list_elem_of_singleton. exists f, 0. cbn. split; [left|]. split_and!; try done; try lia. exists 0%nat. lia.
  - intros ofs R f fs _ Hl E IH p [-> |Hp]%elem_of_cons.
    + exists f, 1. cbn. rewrite length_take_le by lia. split; [left|]. split_and!; try done; try lia. exists 0%nat. lia.
    + destruct (IH p Hp) as (g & more & Hg & Hm & Ep & Eb & L1 & L2 & k & Ek). exists g, more. rewrite length_drop in L2.
      split; [by right|]. split_and!; try done; try lia. exists (S k). lia.
Qed.

End Pieces.

(** ** The fragments as traffic *)

Section Traffic.
Context {P : Type} `{MP : !MbufPool P} `{ML : !MbufPoolLaws P}.
Implicit Types (s : mstate P) (fs : list out_frag).

Lemma two_ends {A} (l : list A) : (2 <= length l)%nat -> exists x ms y, l = x :: ms ++ [y].
Proof.
  intros Hl. destruct l as [|x l]; [cbn in Hl; lia|]. destruct (last l) as [y|] eqn:E.
  - apply last_Some in E as [ms ->]. by exists x, ms, y.
  - apply last_None in E as ->. cbn in Hl. lia.
Qed.

Context (n : nat) (h p : list Z) (s : mstate P) (H : gmultiset Z) (fs : list out_frag).
Context (Hn : (0 < n)%nat) (Hn8 : Z.of_nat n mod 8 = 0) (Hh : length h = 20%nat) (Hhb : is_bytes h) (Hmore : (n < length p)%nat)
  (Hmax : Z.of_nat (length p) + 20 < 2 ^ 16) (Hnum : (length fs <= 4)%nat) (Hsegs : (length (out_segs fs) < 256)%nat)
  (Haddr : 0 < get_le h 12 4) (O : outs 20 (fun tx => tx = 20) H fs s) (G : map of_bytes fs = frag_list 20 n (ipv4_frag_hdr h 0) 0 p).

Abbreviation ps := (pieces_of n h 0 p fs).

Lemma piece_facts q : q ∈ ps ->
  let x := pc_part q in
  part_ok s x /\ owns s (pt_mb x) /\ l2_len (mbuf s (pt_mb x)) = 0 /\ l3_len (mbuf s (pt_mb x)) = 20 /\ pt_segs x ∈ map of_segs fs /\
  get16 (pt_hdr x) 2 = 20 + pc_len q /\ get_le (pt_hdr x) 12 8 = get_le h 12 8 /\ get_le (pt_hdr x) 4 2 = get_le h 4 2 /\
  u16 (u16 (Z.land (get16 (pt_hdr x) 6) IPV4_HDR_OFFSET_MASK) * IPV4_HDR_OFFSET_UNITS) = pc_ofs q /\
  u16 (Z.land (get16 (pt_hdr x) 6) IPV4_HDR_MF_FLAG) = pc_more q /\ 0 <= pc_len q < 2 ^ 16.
Proof.
  intros Hq x. destruct (pieces_good n h Hn fs 0 p q G Hq) as (f & more & Hf & Hm & Eq & Eb & L1 & L2 & k & Ek).
  set (ofs := pc_ofs q) in *. set (c := pt_pay (pc_part q)) in *. assert (Ex : x = pc_part (piece_of h f ofs more c)) by (unfold x; by rewrite Eq).
  assert (El : pc_len q = Z.of_nat (length c)) by (by rewrite Eq).
  assert (Emore : pc_more q = more * 2 ^ 13) by (by rewrite Eq). cbn in Ex. fold x in Eb. rewrite Ex in Eb. cbn [pt_hdr] in Eb.
  destruct (frag_word_fields ofs more) as (Hw & Hw1 & Hw2); [lia| |done|].
  { rewrite Ek, Z.add_0_l, Nat2Z.inj_mul, <- Z.mul_mod_idemp_r, Hn8, Z.mul_0_r by lia. done. }
  destruct (frag_hdr_fields h (frag_word 0 ofs more) (20 + Z.of_nat (length c)) Hh Hw ltac:(lia)) as (F1 & F2 & F3 & F4 & F5).
  destruct (ou_done _ _ _ _ _ O f Hf) as [D1 D2 D3 (D4 & D5 & D6)]. rewrite Ex. cbn [pt_mb pt_segs pt_hdr pt_pay].
  change (put16 (put16 (put16 h 6 (frag_word 0 ofs more)) 2 (20 + Z.of_nat (length c))) 10 0) with
    (ipv4_frag_hdr h 0 (20 + Z.of_nat (length c)) ofs more) in F1, F2, F3, F4, F5.
  split.
  { constructor; cbn [pt_mb pt_segs pt_hdr pt_pay]; [constructor|by rewrite D2|unfold hlen; lia]; unfold hlen; rewrite ?D4, ?D5, ?D6; [done|lia|].
    rewrite D2, Eb. apply drop_app_length'. by rewrite F5. }
  rewrite F1, F2, F3, F4, Emore. split_and!; try done; try lia. by apply list_elem_of_fmap_2.
Qed.

Lemma sum_total_bound xs B : (forall x, x ∈ xs -> total_len s (pt_segs x) <= B) -> sum_total s xs <= Z.of_nat (length xs) * B.
Proof.
  induction xs as [|x xs IH]; intros Hx; [cbn; lia|]. rewrite sum_total_cons. pose proof (Hx x ltac:(left)). pose proof (IH ltac:(intros; apply Hx; by right)).
  cbn [length]. lia.
Qed.

Lemma pieces_segs : concat (map pt_segs (map pc_part ps)) = out_segs fs.
Proof. rewrite map_map. unfold out_segs. by rewrite (proj1 (pieces_same n h Hn fs 0 p G)). Qed.

Lemma pieces_length : length ps = length fs.
Proof. pose proof (f_equal length (proj2 (pieces_same n h Hn fs 0 p G))) as E. by rewrite !length_map in E. Qed.

Lemma part_of_piece x : x ∈ map pc_part ps -> exists q, q ∈ ps /\ x = pc_part q.
Proof. intros (q & -> & Hq)%list_elem_of_fmap. by exists q. Qed.

Lemma pieces_parts : parts s (map pc_part ps).
Proof.
  constructor.
  - intros x (q & Hq & ->)%part_of_piece. by apply piece_facts.
  - rewrite pieces_segs. apply O.
  - assert (Hb : sum_total s (map pc_part ps) <= Z.of_nat (length (map pc_part ps)) * 2 ^ 17); [|rewrite length_map, pieces_length in Hb; lia].
    apply sum_total_bound. intros x (q & Hq & ->)%part_of_piece. destruct (piece_facts q Hq) as ([[Hp _ _] Hb _] & _ & _ & _ & _ & _ & _ & _ & _ & _ & Hl).
    destruct (pieces_good n h Hn fs 0 p q G Hq) as (f & more & _ & _ & Eq & _). rewrite <- length_bytes, Hb, length_app by apply Hp.
    rewrite Eq in Hl |- *. cbn in Hl |- *. unfold ipv4_frag_hdr. rewrite !length_put16, Hh. lia.
  - rewrite pieces_segs. lia.
Qed.

Lemma live_segs y : y ∈ out_segs fs -> is_Some (mbufs s !! y).
Proof. intros Hy. apply (mi_held _ _ _ (ou_inv _ _ _ _ _ O)), refs_elem. by left. Qed.

Lemma frags_traffic : exists d, d_pieces d = ps /\ traffic s (get_le h 16 4) [d].
Proof.
  assert (H2 : (2 <= length ps)%nat).
  { rewrite pieces_length. pose proof (f_equal length G) as E. rewrite length_map, frag_list_length, frag_count_more in E by done.
    unfold frag_count in E. lia. }
  destruct (two_ends ps H2) as (x & ms & y & Eps). set (k := mkKey [get_le h 12 8; 0; 0; 0] (get_le h 4 2) IPV4_KEYLEN).
  set (d := mkDgram k x ms y). assert (Ed : d_pieces d = ps) by (by rewrite Eps).
  assert (Hx : x ∈ ps) by (rewrite Eps; left). pose proof (piece_facts x Hx) as (Px & Ox & Lx & Tx & _).
  assert (Hd1 : d_segs d = out_segs fs) by (unfold d_segs; rewrite Ed; apply pieces_segs).
  assert (Hown : forall z, z ∈ d_segs d -> z <> d_mb d -> buf_addr (mbuf s z) <> buf_addr (mbuf s (d_mb d))).
  { intros z Hz Hne. apply Ox; [apply live_segs; by rewrite <- Hd1|done]. }
  exists d. split; [done|]. constructor.
  - apply NoDup_singleton.
  - intros d' ->%list_elem_of_singleton. split_and!.
    + destruct (pieces_flags n h Hn fs 0 p (x :: ms) y G) as [F1 F2]; [by rewrite Eps|].
      constructor; change (pieces (d_first d) (d_mids d) (d_last d)) with (d_pieces d); rewrite ?Ed.
      * apply pieces_contiguous; [done|done|]. intros E. rewrite E in Hmore. cbn in Hmore. lia.
      * pose proof (f_equal length Eps) as E. rewrite pieces_length in E. cbn in E. rewrite length_app in E. cbn in E. change (d_mids d) with ms. lia.
      * split; [apply F1; left|]. split; [|done]. intros q Hq. apply F1. by right.
      * rewrite (proj2 (pieces_payload n h Hn fs 0 p G)). lia.
    + by apply hdr_key.
    + constructor; change (pieces (d_first d) (d_mids d) (d_last d)) with (d_pieces d); rewrite ?Ed.
      * apply pieces_parts.
      * intros z Hz. apply Hown. unfold d_segs. by rewrite Ed.
      * change (pt_mb (pc_part (d_first d))) with (pt_mb (pc_part x)). rewrite Lx, Tx. lia.
  - by intros d1 d2 ->%list_elem_of_singleton ->%list_elem_of_singleton.
  - intros d' q ->%list_elem_of_singleton Hq. rewrite Ed in Hq. destruct (piece_facts q Hq) as (_ & _ & Lq & Tq & _ & Q1 & Q2 & Q3 & Q4 & Q5 & Q6).
    constructor; rewrite ?Lq, ?Tq, ?Z.add_0_l; try lia; try done. rewrite Q1, Z.add_simpl_l. by apply u16_small.
  - by intros d1 d2 z ->%list_elem_of_singleton ->%list_elem_of_singleton.
  - intros d1 d2 z ->%list_elem_of_singleton ->%list_elem_of_singleton. apply Hown.
Qed.

End Traffic.

(** ** One datagram in any order *)

Lemma got_of_all evs d : (forall e, e ∈ evs -> ev_d e = d) -> got_of evs d = map ev_p evs.
Proof. intros He. unfold got_of. by rewrite filter_id_on. Qed.

Lemma expected_one d evs :
  (forall e, e ∈ evs -> ev_d e = d) -> evs <> [] -> expected evs = replicate (length evs - 1) None ++ [Some (d_mb d)].
Proof.
  induction evs as [|e evs IH]; intros He Hne; [done|]. cbn [expected]. rewrite (He e) by left.
  rewrite got_of_all by (intros; apply He; by right). destruct evs as [|e' evs]; [done|]. rewrite decide_False by done.
  rewrite IH; [|intros; apply He; by right|done]. cbn [length]. by replace (S (S (length evs)) - 1)%nat with (S (S (length evs) - 1)) by lia.
Qed.

(** The calls, with the pieces they bring. *)
Lemma calls_events d (qs : list piece) : forall calls : list (Z * Z * list Z),
  map (fun q => pt_mb (pc_part q)) qs = map (fun c => c.1.1) calls ->
  exists evs, map call evs = calls /\ map ev_p evs = qs /\
    (forall e, e ∈ evs -> ev_d e = d /\ exists c, c ∈ calls /\ ev_tms e = c.1.2 /\ ev_stack e = c.2).
Proof.
  induction qs as [|q qs IH]; intros [|[[m tms] st] calls] E; try done.
  - exists []. split; [done|]. split; [done|]. intros e He. by apply elem_of_nil in He.
  - injection E as Em E. destruct (IH calls E) as (evs & E1 & E2 & He). cbn in Em. exists (mkEv d q tms st :: evs). cbn [map]. rewrite E1, E2. split.
    + unfold call at 1. cbn. by rewrite Em.
    + split; [done|]. intros e [-> |Hin]%elem_of_cons.
      * split; [done|]. exists (m, tms, st). split; [left|done].
      * destruct (He e Hin) as [Hd (c & Hc & Hr)]. split; [done|]. exists c. split; [by right|done].
Qed.

Section Roundtrip.
Context `{FragHash} {P : Type} `{MP : !MbufPool P} `{ML : !MbufPoolLaws P}.
Implicit Types (s : mstate P).

(** C19: A packet that [rte_ipv4_fragment_packet] has cut into two to four
    fragments comes out of the reassembly again: the fragments are given to
    [rte_ipv4_frag_reassemble_packet], on a new table, in any order and within
    the lifetime of an entry; all calls but the last return NULL, the last one
    returns the first fragment, which is now a packet with the header of the
    input, but for a checksum of 0, and the payload of the input.  The table is
    empty and nothing is on the death row. *)
Theorem fragment_reassemble_roundtrip s Hd m l mtu nb pool_direct pool_indirect ret pkts s1 bucket_num be me mc t T0 calls dr :
  input_ok s Hd m l 20 (Z.to_nat nb) -> 20 < mtu < 2 ^ 16 -> (mtu - 20) mod 8 = 0 -> 1 <= nb -> (mtu - 20) * nb < 2 ^ 31 ->
  148 <= u16 (rte_pktmbuf_data_room_size s pool_direct) -> (length l < 248)%nat ->
  let h := take 20 (bytes s (m :: l)) in let p := drop 20 (bytes s (m :: l)) in
  get16 h 6 = 0 -> get16 h 2 = pkt_len (mbuf s m) -> 0 < get_le h 12 4 ->
  mtu - 20 < Z.of_nat (length p) <= (mtu - 20) * Z.min nb 4 ->
  rte_ipv4_fragment_packet m nb mtu pool_direct pool_indirect s = Some (ret, pkts, s1) -> ret <> - ENOMEM ->
  rte_ip_frag_table_create bucket_num be me mc = Some t ->
  1 <= bucket_num <= 2 ^ 31 -> 1 <= be < 2 ^ 32 -> 0 < me < 2 ^ 32 -> 0 <= T0 -> 0 <= mc -> T0 + 2 * mc < 2 ^ 64 ->
  map (fun c => c.1.1) calls ≡ₚ pkts -> (forall c, c ∈ calls -> T0 <= c.1.2 <= T0 + mc /\ length c.2 = 3%nat) ->
  exists first segs t' s2, head pkts = Some first /\
    run_frags t dr calls s1 = Some (replicate (length pkts - 1) None ++ [Some first], t', dr, s2) /\ lru t' = [] /\
    packet s2 first segs /\ bytes s2 segs = put16 h 10 0 ++ p.
Proof.
  intros I Hmtu H8 Hnb Hprod Hroom Hll h p H6 H2 Haddr Hlen Er Hret Ec Hbn Hbe Hme HT0 Hmc Htime Hperm Hcalls.
  destruct (input_payload _ _ _ _ _ _ I) as [Hp Hp0]. change (Z.to_nat 20) with 20%nat in Hp. fold p in Hp. pose proof (io_len _ _ _ _ _ _ I) as Hpl.
  rewrite (ipv4_checks s Hd m l mtu nb pool_direct pool_indirect I Hmtu Hnb Hprod) in Er. fold h p in Er. rewrite H6 in Er. cbn [Z.testbit] in Er.
  rewrite (proj2 (Z.ltb_ge _ _)) in Er by nia.
  destruct (ipv4_loop s Hd m l mtu nb pool_direct pool_indirect I Hmtu Hnb Hprod Hroom) as [_ (ret' & pkts' & s1' & Er' & _ & Hres)]; [fold p; nia|].
  fold h p in Er', Hres. rewrite H6 in Er', Hres. rewrite Er in Er'. injection Er' as <- <- <-. destruct Hres as [[? _]|(fs & -> & _ & G & O & Hc)]; [done|].
  set (n := Z.to_nat (mtu - 20)) in *. assert (Hn : (0 < n)%nat) by lia. assert (Hn8 : Z.of_nat n mod 8 = 0) by (unfold n; by rewrite Z2Nat.id by lia).
  assert (Hnum : (length fs <= 4)%nat).
  { pose proof (f_equal length G) as E. rewrite length_map, frag_list_length in E. rewrite E. assert ((mtu - 20) * Z.min nb 4 <= (mtu - 20) * 4) by (apply Z.mul_le_mono_nonneg_l; lia).
    pose proof (frag_count_le n p 4 Hn) as Hf. rewrite Hf; [lia|]. unfold n. lia. }
  assert (Hh : length h = 20%nat) by (unfold h; rewrite length_take; unfold p in Hlen; rewrite length_drop in Hlen; lia).
  assert (Hhb : is_bytes h) by apply I.
  destruct (frags_traffic n h p s1 Hd fs) as (d & Ed & TR); try done; try lia.
  pose proof (pieces_same n h Hn fs 0 p G) as [_ Emb]. rewrite <- Ed in Emb. rewrite <- Emb in Hperm |- *.
  destruct (Permutation_map_inv _ _ Hperm) as (qs & Eq & Hqs). destruct (calls_events d qs calls) as (evs & <- & Ep & He); [done|].
  assert (Hd0 : forall e, e ∈ evs -> ev_d e = d) by (intros; by apply He).
  assert (Hgot : d_pieces d ≡ₚ got_of evs d) by (by rewrite (got_of_all _ _ Hd0), Ep).
  destruct (new_table_run bucket_num be me mc t (get_le h 16 4) T0 [d] evs dr s1) as (t' & s2 & Erun & Inv); try done; try lia; try (cbn; lia).
  { intros d' ->%list_elem_of_singleton. done. }
  { intros e Hin. destruct (He e Hin) as (-> & c & Hc' & -> & ->). split; [by left|]. by apply Hcalls. }
  destruct (inv_final _ _ _ _ _ _ _ _ Inv) as [El Hfin]. destruct (Hfin d ltac:(left)) as [Hpk Hby].
  exists (d_mb d), (d_segs d), t', s2. split; [done|]. split.
  { assert (Elen : length evs = length (d_pieces d)) by (by rewrite <- (length_map ev_p evs), Ep, <- Hqs).
    rewrite Erun, length_map, <- Elen, <- (expected_one d evs Hd0); [done|]. intros ->. discriminate Elen. }
  split; [done|]. split; [done|]. refine (eq_trans Hby _). rewrite Ed.
  destruct (pieces_payload n h Hn fs 0 p G) as [-> ->]. destruct fs as [|f fs]; [discriminate Ed|]. injection Ed as Efirst _.
  unfold d_mb. rewrite Efirst. edestruct (piece_facts n h p s1 Hd (f :: fs)) as (_ & _ & L2 & L3 & _); try done; try lia; [by left|]. rewrite L2, L3. cbn [piece_of pc_part pt_hdr]. f_equal. apply whole_frag_hdr; try done; try lia. by destruct fs.
Qed.
End Roundtrip.

#[local] Existing Instances core0 core0_laws.

(** A pool of ten mbufs, and the first one from it. *)
Definition ten_addrs : list Z := map (fun i => 1000 + 3000 * i) (seqZ 0 10).
Definition ten_mp : rte_mempool := default demo_pool (rte_mempool_create_ring ∅ 10 2 0 ten_addrs).
Definition ten_ps : gmap Z (mbuf_pool rte_mempool) := {[1 := mkPool ten_mp 256 0]}.
Definition ten_objects : list (Z * Z) := map (fun x => (1, x)) ten_addrs.
Definition ten_start : mstate rte_mempool := pools_start ten_ps ∅ ten_objects.
Definition ten_s1 : mstate rte_mempool := (demo_alloc ten_start).2.

Lemma ten_s1_minv : minv ten_s1 {[+ 7000 +]} ∅.
Proof.
  refine (proj1 (reachable_minv ten_s1 {[+ 7000 +]} ten_ps ∅ ten_objects _ _)).
  - apply (created_objects_ok ∅ 10 2 0 ten_addrs ten_mp 256 0); [lia|lia|vm_compute; discriminate| |vm_compute; reflexivity].
    apply (bool_decide_unpack _). vm_compute. exact I.
  - rewrite <- (right_id_L ∅ (⊎) {[+ 7000 +]}). apply rtc_once. refine (St_alloc ten_start ∅ 1 7000 ten_s1 _). vm_compute. reflexivity.
Qed.

Lemma ten_live : is_Some (mbufs ten_s1 !! 7000).
Proof. vm_compute. by eexists. Qed.

(** The mbuf as a packet with the bytes [b]. *)
Definition ten_packet (b : list Z) : mstate rte_mempool :=
  let r := mbuf ten_s1 7000 in
  let n := Z.of_nat (length b) in
  mkMstate (<[7000 := set_data (data_off r) n n r]> (mbufs ten_s1)) (put_bytes 7128 128 b ∅) (pools ten_s1).

Lemma ten_packet_minv b : minv (ten_packet b) {[+ 7000 +]} ∅.
Proof.
  apply (minv_same ten_s1); [|exact ten_s1_minv].
  exact (same_refs_data ten_s1 7000 (data_off (mbuf ten_s1 7000)) (Z.of_nat (length b)) (Z.of_nat (length b)) (put_bytes 7128 128 b ∅) ten_live).
Qed.

Definition ipv4_sample : list Z := [69; 0; 0; 50; 0; 7; 0; 0; 64; 17; 1; 2; 10; 0; 0; 1; 10; 0; 0; 9] ++ seqZ 1 30.
Definition ipv6_sample : list Z := [96; 0; 0; 0; 0; 32; 17; 64] ++ replicate 32 5 ++ seqZ 1 32.

Ltac ten_input :=
  constructor;
    [constructor; try (vm_compute; reflexivity); [split; vm_compute; reflexivity|apply NoDup_singleton|];
       intros x ->%list_elem_of_singleton; constructor; vm_compute; try discriminate; try reflexivity; by eexists
    |apply ten_packet_minv
    |intros y ->%list_elem_of_singleton; by apply gmultiset_elem_of_singleton
    |intros y Hy; by apply elem_of_nil in Hy
    |vm_compute; split; discriminate
    |unfold is_bytes; apply (bool_decide_unpack _); vm_compute; exact I
    |vm_compute; reflexivity
    |cbn; lia
    |intros y ->%list_elem_of_singleton; vm_compute; reflexivity].

Lemma ipv4_input : input_ok (ten_packet ipv4_sample) {[+ 7000 +]} 7000 [] 20 4.
Proof. ten_input. Qed.

Lemma ipv6_input_two : input_ok (ten_packet ipv6_sample) {[+ 7000 +]} 7000 [] 40
  (frag_count (Z.to_nat (72 - 48)) (drop 40 (bytes (ten_packet ipv6_sample) [7000]))).
Proof. ten_input. Qed.

(** ** Witnesses *)



(** The state after the IPv4 call, and the fragments in reverse order. *)
Definition ipv4_cut : mstate rte_mempool :=
  match rte_ipv4_fragment_packet 7000 4 36 1 1 (ten_packet ipv4_sample) with Some (_, _, s) => s | None => ten_s1 end.
Definition ipv4_calls : list (Z * Z * list Z) := [(16000, 150, [0; 0; 0]); (4000, 900, [0; 0; 0])].

Lemma fragment_reassemble_roundtrip_witness :
  exists segs t' s2, run_frags demo_table [] ipv4_calls ipv4_cut = Some ([None; Some 4000], t', [], s2) /\ lru t' = [] /\
    packet s2 4000 segs /\
    bytes s2 segs = [69; 0; 0; 50; 0; 7; 0; 0; 64; 17; 0; 0; 10; 0; 0; 1; 10; 0; 0; 9] ++ seqZ 1 30.
Proof.
  destruct (fragment_reassemble_roundtrip (ten_packet ipv4_sample) {[+ 7000 +]} 7000 [] 36 4 1 1 2 [4000; 16000] ipv4_cut 4 4 16 1000 demo_table 100 ipv4_calls [])
    as (first & segs & t' & s2 & Ef & Er & El & Hp & Hb);
    [exact ipv4_input|lia|reflexivity|lia|lia|vm_compute; discriminate|cbn; lia|vm_compute; reflexivity|vm_compute; reflexivity|vm_compute; reflexivity
    |vm_compute; split; [reflexivity|discriminate]|vm_compute; reflexivity|discriminate|exact demo_created|lia|lia|lia|lia|lia|lia|apply Permutation_swap| |].
  - intros c Hc. unfold ipv4_calls in Hc. apply elem_of_cons in Hc as [-> |Hc]; [|apply list_elem_of_singleton in Hc as ->]; (split; [cbn; lia|reflexivity]).
  - injection Ef as <-. exists segs, t', s2. split; [exact Er|]. split; [exact El|]. split; [exact Hp|]. refine (eq_trans Hb _). vm_compute. reflexivity.
Defined.

(** ** More fragments than asked for *)

(** The check of [rte_ipv6_fragment_packet] takes 40 bytes off the MTU, a
    fragment has 48 bytes of headers: a packet that needs four fragments
    passes the check with room for two in [pkts_out], and the third fragment
    is written behind the end of the array. *)
Theorem ipv6_fragments_overrun :
  rte_ipv6_fragment_packet 7000 2 56 1 1 (ten_packet ipv6_sample) = None /\
  exists s', rte_ipv6_fragment_packet 7000 4 56 1 1 (ten_packet ipv6_sample) = Some (4, [4000; 16000; 10000; 22000], s').
Proof.
  split; [vm_compute; reflexivity|].
  assert (E : fst <$> rte_ipv6_fragment_packet 7000 4 56 1 1 (ten_packet ipv6_sample) = Some (4, [4000; 16000; 10000; 22000])) by (vm_compute; reflexivity).
  destruct (rte_ipv6_fragment_packet _ _ _ _ _ _) as [[r s']|]; [|discriminate E]. injection E as ->. by exists s'.
Qed.

(** Every fragment header gets the identification 0, so that the fragments of
    two packets of a flow cannot be told apart. *)
Theorem ipv6_fragments_without_id h len ofs more :
  length h = 40%nat -> drop 44 (ipv6_frag_hdr h len ofs more) = [0; 0; 0; 0].
Proof.
  intros Hh. unfold ipv6_frag_hdr. rewrite (drop_app_ge _ _ 44); unfold put16; rewrite !length_put8, Hh; [done|lia].
Qed.
